(* ===== verification/_CoqProject ===== *)
-Q . S2P
Prelude.v
Sleeplock.v
Spinlock.v
Layout.v
Kalloc.v
BlockCache.v
Bio.v
Blocks.v
Inode.v
BlockMap.v
InodeOps.v
UserMem.v
Pipe.v
FileIO.v
FsInv.v
Cstring.v
VfsState.v
Vfs.v
VfsFile.v
Sysfile.v
VfsSpec.v
Mkfs.v
MkfsSpec.v
Vm.v
Riscv.v
Start.v
PageTable.v
KernelMap.v
UserSpace.v
Ulib.v
Printf.v
Syscalls.v
UserProg.v
Grep.v
Wc.v
Filters.v
Sh.v
ShPrint.v
ShRun.v
Grind.v
Uart.v
Console.v
Proc.v
Trap.v
TrapSpec.v
AddrSpace.v
Exec.v
ExecSpec.v
SysExec.v
ProcSpec.v
ProcStep.v
Sysproc.v
Umalloc.v
Virtio.v
VirtioInv.v
VirtioSpec.v
VirtioLive.v
VirtioInit.v
