(* ===== verification/Prelude.v ===== *)
(** * xv6-vfs: a verification of the kernel's components and its user programs

    xv6-vfs is the teaching kernel xv6 for RISC-V with a virtual file system
    layer.  This development translates its C code function by function into
    executable Rocq definitions and proves what each part promises to the
    others.

    ** How the code is translated

    A C function over a state [S] is a value of the monad [M S A] of this file:
    it returns ([Ok]) or stops, because it panics ([SPanic]), sleeps where
    nobody wakes it ([SBlock]) or faults ([SFault]).  [wp] is total
    correctness in this monad: the code returns, and what it returns satisfies
    the postcondition.  Integers are in [Z], and every place where C wraps says
    so with [u8], [u16], [u32], [u64], [s16], [s32] or [s64].  Arrays are
    lists, tables are [gmap]s, pointers to table entries are indices, and
    pointers into memory are addresses.  Code the kernel only calls through an
    interface is a class of operations with a class of laws: the client is
    verified against the class, the component discharges it.

    Loops are structural where the C loop counts down or walks a list, and
    otherwise carry fuel.  The fuel is computed from the state (the number of
    headers of the heap, the length of the input line, the number of buffers),
    and the theorems say what the function returns, so the fuel is enough: a
    loop without fuel left stops the code, or returns with work undone, and the
    theorems allow neither.

    A user program is the interaction tree of its system calls (Syscalls), since
    [init], the shell and the stress test run for ever.  The kernel under it is
    any relation between calls, states and answers: [runs] says that the program
    ends with a postcondition whatever the kernel answers, [safe] that its runs
    of every length follow a protocol.  The assembly routines are lists of
    instructions with an evaluator for them (Riscv).

    ** The parts of the program and where they are

    Memory.
    - Layout: the constants and address macros of kernel/param.h,
      kernel/memlayout.h and kernel/riscv.h.
    - Kalloc: kernel/kalloc.c, with the free list threaded through the free
      pages.  The pages in use and the free list are a partition of the memory
      in every reachable state.
    - Vm: kernel/vm.c and the page-table part of kernel/proc.c.  PageTable has
      the invariant of a page table as a tree of pages and says what [walk],
      [mappages] and [uvmunmap] do to the mapping; UserSpace has the address
      space of a process: growing it, shrinking it and the paths on which
      memory runs out.  [xlate] in Vm is the processor's own walk of the table,
      against which the copies between user and kernel memory are stated.
    - KernelMap: [kvminit] and [kvminithart], that is the page table made by
      [kvmmake], entry by entry.  Its tables are counted: [KPAGES], 333 free
      pages, are enough for 2 tables in each of the 70 regions of 2 megabytes,
      the root, and 3 pages for each of the 64 stacks.
    - UserMem: the interface of user memory that the file system copies to.

    The disk and its file system.
    - Sleeplock, BlockCache, Bio: kernel/sleeplock.c and the buffer cache
      kernel/fs/xv6fs/bio.c with its linked list.  [BlockCache] states what
      the cache promises; Bio shows that it keeps the promise and that a run
      through the cache cannot be told from a run on the bare disk.
    - Blocks, Inode, BlockMap, InodeOps, FileIO: kernel/fs/xv6fs/fs.c, the
      bitmap, the inodes, the map from file blocks to disk blocks, and the
      transfer loops, over any block cache with the laws.
    - FsInv: the consistency of the whole file system, which every one of
      these operations keeps, with the contents of the other files.
    - VfsState, Vfs, VfsFile, Sysfile: kernel/fs/vfs.c, the directory and file
      operations of fs.c and the system calls of kernel/fs/sysfile.c on the
      inode table, the file table and the descriptors.  VfsSpec has the inode
      table's invariant, the allocation of an inode and the meaning of a path.
    - Pipe: kernel/fs/pipe.c, cut where its functions sleep.
    - Mkfs: mkfs/mkfs.c, over any host with files.  MkfsSpec shows that the
      image it makes is a consistent file system in the sense of FsInv.

    Processes.
    - Proc: kernel/proc.c.  [fork], [exit] and [wait] are cut where they give
      up the processor or [wait_lock].
    - AddrSpace: the address space of a process from [proc_pagetable] to
      [proc_freepagetable], with [uvmcopy] in between: which pages it owns, and
      that each of them is free again at the end.
    - Exec: kernel/fs/exec.c and [sys_exec], over any file layer with the
      operations of [ExecFiles].  ExecSpec has the address space under
      construction, the meaning of program headers and arguments, and what
      [exec] leaves; SysExec the strings of a process and the system call.
    - ProcSpec: an abstract process table with its invariant and its
      transitions, labelled with the critical section and its result.
    - ProcStep: the processors interleave the critical sections of Proc; every
      section makes the transition of its label in ProcSpec, hence the invariant
      holds in every reachable state and no wakeup of [wait] is lost.
    - Sysproc: kernel/sysproc.c, and the file layer as an instance of what the
      process code and [exec] need.

    Traps and boot.
    - Riscv: the control registers (kernel/riscv.h), and the routines of
      kernel/trampoline.S, kernelvec.S, swtch.S and entry.S.
    - Start: kernel/start.c, and the calls of kernel/main.c on all harts, each
      with the data it initializes and relies on, where stores and loads are
      ordered only by the barriers.
    - Trap: kernel/trap.c, kernel/plic.c and the dispatch in kernel/syscall.c.
      The handlers of the system calls and the drivers are classes.  TrapSpec
      has what a trap does in each of its cases.

    Locks and devices.
    - Spinlock: kernel/spinlock.c, cut at every access to a lock, so that the
      processors interleave between them.
    - Virtio, VirtioInv, VirtioSpec, VirtioLive: kernel/virtio_disk.c.  The
      callers of [virtio_disk_rw], the interrupt handler and the device
      interleave, over any device that satisfies [BlkDeviceLaws]; progress needs
      a device that also satisfies [BlkDeviceLive], which has to act only on
      notifications and interrupts only when the last interrupt was
      acknowledged.  VirtioInv
      has the invariant and the abstract disk, VirtioSpec the refinement,
      VirtioLive the progress of the calls and a disk in memory as an instance
      of the laws.  VirtioInit: [virtio_disk_init] on the device's registers.
    - Uart, Console: kernel/uart.c and kernel/console.c over any device that
      satisfies [UartRegsLaws], which send a byte only if it is written while the
      transmit register is empty.  The interrupt handler implements a line
      editor on two lists, and both rings are first-in first-out channels with
      indices that wrap.

    Strings and user programs.
    - Cstring: kernel/string.c.  Ulib: user/ulib.c.  Printf: user/printf.c and
      kernel/printf.c.
    - Umalloc: user/umalloc.c, whose free list stays sorted, coalesced and
      disjoint from the blocks in use.
    - Syscalls: the system calls of user/user.h, and [printf] on them.
      UserProg: the programs cat, echo, init, kill, ln, ls, mkdir, rm and
      zombie.
    - Grep, Wc, Filters: user/grep.c and user/wc.c, the matcher and the counters
      first, then the programs, whose answers do not depend on how [read] cuts
      the input.
    - Sh, ShPrint: the parser of user/sh.c, which ends on every line and reads
      back every command that is printed in its grammar.  ShRun: [runcmd] and
      [main], as a tree of processes with their descriptors.
    - Grind: the stress test user/grind.c.

    ** What the theorems show

    Each theorem that states a property of the program carries a claim number
    in its comment. The invariants (FsInv, ProcStep, UserSpace, Kalloc,
    VfsSpec, Umalloc, Spinlock) hold of every state the operations reach. The
    refinements (Bio, ProcStep, Console, VirtioSpec) relate the code to a
    simpler machine. VirtioLive has a measure that the steps of the disk
    driver and its device decrease, so that every call can be finished. The
    functional theorems give the result of an operation on each of its
    branches, the failing ones included, together with what it leaves alone.
    Those about traps (TrapSpec, Riscv) say which registers and which fields of
    the trapframe survive; those about programs (UserProg, Filters, ShRun) what
    is written and which programs are started, whatever the kernel refuses.
    Those about memory (UserSpace, AddrSpace, ExecSpec, SysExec) also account
    for the pages: after the call the pages of the address space, its tables
    and the free pages are together what they were before, and no page of
    anyone else was touched; a failure for lack of memory happens only below a
    stated number of free pages.
    Start has the invariant of the start-up: whatever a call of [main] relies on
    has been initialized and seen.  Printf relates what is printed to numerals
    given by their value.  The equivalences and round trips (Grep, Grind,
    ShPrint, Vm, VfsSpec) compare the code with a definition that is not an
    algorithm, or with its inverse. A theorem about an interface or about a parameter has a witness,
    which applies it to a concrete instance. Lemmas without a claim number
    that end a file show what the code does in a corner where it does not do
    what it means to.

    ** What is not modelled

    - The translation cache.  The memory model, outside of the start-up in Start:
      fences have no effect, and accesses are in order.
    - In Vm the bytes of a page are those the kernel stored; the junk [kalloc]
      and [kfree] fill pages with is in Kalloc only.  Bio takes block numbers as
      they are; the driver computes the sector in 32 bits, and Virtio lets a
      call begin only with a block number below 2^31.  The depth [noff] of
      [push_off] in Spinlock is not bounded.
    - [exit] closes its files in one step of ProcStep, although closing may sleep.
    - The dispatch table [syscalls] of Trap, with the numbers of
      kernel/syscall.h, is itself what says which handler a number names.
    - Outside of Spinlock a spin lock is the boundary of a step; only
      [wait_lock], [vdisk_lock] and the lock of a pipe, across which processes
      sleep, are explicit.
    - Proc does not switch stacks: the switch is in Riscv, and what other
      processes do in between is a parameter of Trap and a step of ProcStep.
    - The buffer cache is verified on a disk that is a map from block numbers
      to contents, which VirtioSpec shows the driver and its device to be; the
      two are not composed into one machine, since a caller of the cache runs
      to its end while the disk works.
    - The laws [ExecFilesLaws] of the files that [exec] reads are assumed of
      the file layer (its operations are given as [vfs_programs] in Sysproc),
      and shown of files in memory.  The page allocator of the process code and
      the one that the directory code takes its entries from are two parts of
      the state.
    - The body of [pipealloc] in kernel/fs/pipe.c is commented out, so Pipe
      starts from a pipe that is there.
    - The kernel a user program runs on is a relation with laws for files
      ([Files] in UserProg); the kernel of the other files is not shown to be
      one, which needs the traps, the processes and the files as one machine.
    - [uartinit], the lock of the kernel's [printf] and the messages printed for
      unexpected traps.
    - The test programs usertests, forktest and stressfs, which check the kernel
      from outside and promise nothing themselves. *)

From stdpp Require Export prelude gmap list numbers strings.
From Stdlib Require Export ZArith Lia.

Open Scope Z_scope.

(** ** Outcomes of kernel code

    A kernel function either returns ([Ok]) or stops: [panic] was called, the
    calling process goes to sleep on something nobody else is going to wake in
    a sequential run, or the code faults (dereferences a null pointer). *)

Inductive stop : Type :=
| SPanic (msg : string)
| SBlock (on : string)
| SFault (what : string).

Inductive res (S A : Type) : Type :=
| Ok (a : A) (s : S)
| Stop (e : stop).
Arguments Ok {S A} a s.
Arguments Stop {S A} e.

#[global] Instance stop_eq_dec : EqDecision stop.
Proof. solve_decision. Defined.

(** State-and-stop monad: a C function over the state [S] returning [A]. *)
Definition M (S A : Type) : Type := S -> res S A.

Definition ret {S A} (a : A) : M S A := fun s => Ok a s.

Definition bind {S A B} (m : M S A) (k : A -> M S B) : M S B :=
  fun s => match m s with
           | Ok a s' => k a s'
           | Stop e => Stop e
           end.

Definition halt {S A} (e : stop) : M S A := fun _ => Stop e.
Definition panic {S A} (msg : string) : M S A := halt (SPanic msg).
Definition get {S} : M S S := fun s => Ok s s.
Definition gets {S A} (f : S -> A) : M S A := fun s => Ok (f s) s.
Definition modify {S} (f : S -> S) : M S unit := fun s => Ok tt (f s).

Declare Scope kernel_scope.
Delimit Scope kernel_scope with kernel.
Notation "x <- m ;; k" := (bind m (fun x => k))
  (at level 20, m at level 99, k at level 200, only parsing) : kernel_scope.
Notation "' x <- m ;; k" := (bind m (fun v => match v with x => k end))
  (at level 20, x pattern, m at level 99, k at level 200, only parsing)
  : kernel_scope.
Notation "m ;; k" := (bind m (fun _ => k)) : kernel_scope.
Open Scope kernel_scope.

(** Lemmas that automate the common cases. *)
Create HintDb kernel.

(** A component operation used inside a larger state: [lens] style lifting. *)
Definition lift {S T A} (g : S -> T) (p : T -> S -> S) (m : M T A) : M S A :=
  fun s => match m (g s) with
           | Ok a t => Ok a (p t s)
           | Stop e => Stop e
           end.

(** ** Total-correctness weakest precondition

    [wp m Q s]: run from [s], [m] returns (it neither panics, blocks nor
    faults) and its result and final state satisfy [Q]. *)
Definition wp {S A} (m : M S A) (Q : A -> S -> Prop) (s : S) : Prop :=
  match m s with
  | Ok a s' => Q a s'
  | Stop _ => False
  end.

(** [stops m e s]: run from [s], [m] stops with [e]. *)
Definition stops {S A} (m : M S A) (e : stop) (s : S) : Prop := m s = Stop e.

Section wp.
Context {S : Type}.
Implicit Types (s : S).

Lemma wp_ret {A} (a : A) (Q : A -> S -> Prop) s : Q a s -> wp (ret a) Q s.
Proof. done. Qed.

Lemma wp_bind {A B} (m : M S A) (k : A -> M S B) Q s :
  wp m (fun a => wp (k a) Q) s -> wp (bind m k) Q s.
Proof. unfold wp, bind. by destruct (m s). Qed.

Lemma wp_bind_inv {A B} (m : M S A) (k : A -> M S B) Q s :
  wp (bind m k) Q s -> wp m (fun a => wp (k a) Q) s.
Proof. unfold wp, bind. by destruct (m s). Qed.

Lemma wp_mono {A} (m : M S A) (Q Q' : A -> S -> Prop) s :
  wp m Q s -> (forall a s', Q a s' -> Q' a s') -> wp m Q' s.
Proof. unfold wp. destruct (m s); naive_solver. Qed.

Lemma wp_gets {A} (f : S -> A) Q s : Q (f s) s -> wp (gets f) Q s.
Proof. done. Qed.

Lemma wp_get (Q : S -> S -> Prop) s : Q s s -> wp get Q s.
Proof. done. Qed.

Lemma wp_modify (f : S -> S) Q s : Q tt (f s) -> wp (modify f) Q s.
Proof. done. Qed.

Lemma wp_run {A} (m : M S A) Q s a s' : m s = Ok a s' -> Q a s' -> wp m Q s.
Proof. unfold wp. by intros ->. Qed.

Lemma wp_ok {A} (m : M S A) Q s :
  wp m Q s <-> exists a s', m s = Ok a s' /\ Q a s'.
Proof.
  unfold wp. destruct (m s) as [a s'|e]; split; [eauto| |done|].
  - by intros (? & ? & [= -> ->] & ?).
  - by intros (? & ? & ? & ?).
Qed.

Lemma wp_elim {A} (m : M S A) Q s :
  wp m Q s -> exists a s', m s = Ok a s' /\ Q a s'.
Proof. apply wp_ok. Qed.

Lemma bind_ok {A B} (m : M S A) (k : A -> M S B) s a s' :
  m s = Ok a s' -> bind m k s = k a s'.
Proof. unfold bind. by intros ->. Qed.

Lemma bind_returns {A B} (m : M S A) (k : A -> M S B) s b s' :
  bind m k s = Ok b s' -> exists a s1, m s = Ok a s1 /\ k a s1 = Ok b s'.
Proof. unfold bind. destruct (m s) as [a s1|]; [|done]. by exists a, s1. Qed.

Lemma bind_stop {A B} (m : M S A) (k : A -> M S B) s e :
  m s = Stop e -> bind m k s = Stop e.
Proof. unfold bind. by intros ->. Qed.

Lemma wp_lift {T A} (g : S -> T) (p : T -> S -> S) (m : M T A) Q s :
  wp m (fun a t => Q a (p t s)) (g s) -> wp (lift g p m) Q s.
Proof. unfold wp, lift. by destruct (m (g s)). Qed.

Lemma stops_bind {A B} (m : M S A) (k : A -> M S B) e s :
  wp m (fun a s' => stops (k a) e s') s -> stops (bind m k) e s.
Proof. unfold wp, stops, bind. by destruct (m s). Qed.

Lemma stops_bind_l {A B} (m : M S A) (k : A -> M S B) e s :
  stops m e s -> stops (bind m k) e s.
Proof. unfold stops, bind. by intros ->. Qed.
End wp.

(** [wp_pure] walks over the administrative structure of a computation. *)
Ltac wp_pure :=
  repeat first
    [ apply wp_bind
    | apply wp_ret
    | apply wp_gets
    | apply wp_get
    | apply wp_modify
    | progress cbn beta iota ].

(** [wp_use lem]: run the next operation by its specification [lem]; the side
    conditions of [lem] come first, the continuation last. *)
Tactic Notation "wp_use" uconstr(lem) :=
  lazymatch goal with |- wp (bind _ _) _ _ => apply wp_bind | _ => idtac end;
  eapply wp_mono; [eapply lem|cbn beta].

(** Case analysis on the innermost boolean test of the goal, turned into
    arithmetic facts. *)
Ltac zify_bool :=
  repeat match goal with
  | H : (_ && _)%bool = true |- _ => apply andb_prop in H as [? ?]
  | H : (_ || _)%bool = false |- _ => apply orb_false_elim in H as [? ?]
  | H : negb _ = true |- _ => apply negb_true_iff in H
  | H : negb _ = false |- _ => apply negb_false_iff in H
  | H : (_ <? _) = true |- _ => apply Z.ltb_lt in H
  | H : (_ <? _) = false |- _ => apply Z.ltb_ge in H
  | H : (_ <=? _) = true |- _ => apply Z.leb_le in H
  | H : (_ <=? _) = false |- _ => apply Z.leb_gt in H
  | H : (_ =? _) = true |- _ => apply Z.eqb_eq in H
  | H : (_ =? _) = false |- _ => apply Z.eqb_neq in H
  | H : (_ =? _)%nat = true |- _ => apply Nat.eqb_eq in H
  | H : (_ =? _)%nat = false |- _ => apply Nat.eqb_neq in H
  end.

Ltac case_if :=
  match goal with
  | |- context [if ?b then _ else _] => destruct b eqn:?; zify_bool
  end.

Ltac case_if_as E :=
  match goal with
  | |- context [if ?b then _ else _] => destruct b eqn:E; zify_bool
  end.

(** ** Machine integers *)

Definition u8 (z : Z) : Z := z mod 2 ^ 8.
Definition u16 (z : Z) : Z := z mod 2 ^ 16.
Definition u32 (z : Z) : Z := z mod 2 ^ 32.
Definition u64 (z : Z) : Z := z mod 2 ^ 64.
Definition s16 (z : Z) : Z := (z + 2 ^ 15) mod 2 ^ 16 - 2 ^ 15.
Definition s32 (z : Z) : Z := (z + 2 ^ 31) mod 2 ^ 32 - 2 ^ 31.
Definition s64 (z : Z) : Z := (z + 2 ^ 63) mod 2 ^ 64 - 2 ^ 63.

Definition byte_ok (b : Z) : Prop := 0 <= b < 256.

Lemma u8_small z : 0 <= z < 2 ^ 8 -> u8 z = z.
Proof. apply Z.mod_small. Qed.
Lemma u16_small z : 0 <= z < 2 ^ 16 -> u16 z = z.
Proof. apply Z.mod_small. Qed.
Lemma u32_small z : 0 <= z < 2 ^ 32 -> u32 z = z.
Proof. apply Z.mod_small. Qed.
Lemma u64_small z : 0 <= z < 2 ^ 64 -> u64 z = z.
Proof. apply Z.mod_small. Qed.
Lemma u32_range z : 0 <= u32 z < 2 ^ 32.
Proof. by apply Z.mod_pos_bound. Qed.
Lemma u64_range z : 0 <= u64 z < 2 ^ 64.
Proof. by apply Z.mod_pos_bound. Qed.
Lemma s32_small z : - 2 ^ 31 <= z < 2 ^ 31 -> s32 z = z.
Proof. intros. unfold s32. rewrite Z.mod_small; lia. Qed.
Lemma s16_small z : - 2 ^ 15 <= z < 2 ^ 15 -> s16 z = z.
Proof. intros. unfold s16. rewrite Z.mod_small; lia. Qed.

(** ** Little-endian encodings *)

Fixpoint le_enc (n : nat) (z : Z) : list Z :=
  match n with
  | O => []
  | S n => z mod 256 :: le_enc n (z / 256)
  end.

Fixpoint le_dec (l : list Z) : Z :=
  match l with
  | [] => 0
  | b :: l => b + 256 * le_dec l
  end.

Lemma le_enc_length n z : length (le_enc n z) = n.
Proof. revert z. induction n; simpl; auto. Qed.

Lemma le_enc_bytes n z : Forall byte_ok (le_enc n z).
Proof.
  revert z. induction n as [|n IH]; intros z; simpl; constructor; auto.
  unfold byte_ok. by apply Z.mod_pos_bound.
Qed.

Lemma le_dec_enc n z : le_dec (le_enc n z) = z mod 256 ^ Z.of_nat n.
Proof.
  revert z. induction n as [|n IH]; intros z; cbn [le_enc le_dec].
  - change (256 ^ Z.of_nat 0) with 1. by rewrite Z.mod_1_r.
  - rewrite IH, Nat2Z.inj_succ, Z.pow_succ_r by lia.
    rewrite Z.rem_mul_r by lia. lia.
Qed.

Lemma le_dec_range l : Forall byte_ok l -> 0 <= le_dec l < 256 ^ Z.of_nat (length l).
Proof.
  induction 1 as [|b l Hb Hl IH]; cbn [le_dec length]; [lia|].
  rewrite Nat2Z.inj_succ, Z.pow_succ_r by lia. unfold byte_ok in Hb. lia.
Qed.

Lemma le_enc_dec l : Forall byte_ok l -> le_enc (length l) (le_dec l) = l.
Proof.
  induction 1 as [|b l Hb Hl IH]; cbn [le_dec length le_enc]; [done|].
  unfold byte_ok in Hb. f_equal.
  - rewrite Z.mul_comm, Z.mod_add, Z.mod_small; lia.
  - rewrite Z.mul_comm, Z.div_add, (Z.div_small b), Z.add_0_l; [done|lia|lia].
Qed.

(** ** Array slices *)

Definition slice {A} (off n : nat) (l : list A) : list A := take n (drop off l).

(** [splice off new l]: overwrite the elements of [l] from [off] with [new]. *)
Definition splice {A} (off : nat) (new l : list A) : list A :=
  take off l ++ new ++ drop (off + length new) l.

Section slices.
Context {A : Type}.
Implicit Types (l new : list A).
Local Open Scope nat_scope.

Lemma slice_length off n l : off + n <= length l -> length (slice off n l) = n.
Proof. intros. unfold slice. rewrite length_take, length_drop. lia. Qed.

Lemma splice_length off new l :
  off + length new <= length l -> length (splice off new l) = length l.
Proof.
  intros. unfold splice. rewrite !length_app, length_take, length_drop. lia.
Qed.

Lemma slice_splice off new l :
  off + length new <= length l -> slice off (length new) (splice off new l) = new.
Proof.
  intros. unfold slice, splice.
  rewrite drop_app_length' by (rewrite length_take; lia).
  by rewrite take_app_length.
Qed.

Lemma lookup_splice_old off new l i :
  off + length new <= length l -> (i < off \/ off + length new <= i) ->
  splice off new l !! i = l !! i.
Proof.
  intros Hl Hi. unfold splice. destruct (decide (i < off)).
  - rewrite lookup_app_l by (rewrite length_take; lia).
    by rewrite lookup_take_lt by lia.
  - rewrite lookup_app_r by (rewrite length_take; lia).
    rewrite lookup_app_r by (rewrite length_take; lia).
    rewrite lookup_drop, length_take. f_equal. lia.
Qed.

Lemma lookup_splice_new off new l i :
  off + length new <= length l -> off <= i < off + length new ->
  splice off new l !! i = new !! (i - off).
Proof.
  intros Hl Hi. unfold splice.
  rewrite lookup_app_r by (rewrite length_take; lia).
  rewrite lookup_app_l by (rewrite length_take; lia).
  rewrite length_take. f_equal. lia.
Qed.

Lemma lookup_slice off n l i :
  i < n -> slice off n l !! i = l !! (off + i).
Proof. intros. unfold slice. by rewrite lookup_take_lt, lookup_drop by lia. Qed.

Lemma slice_splice_ne off new l off' n :
  off + length new <= length l ->
  (off' + n <= off \/ off + length new <= off') ->
  slice off' n (splice off new l) = slice off' n l.
Proof.
  intros Hl Hd. apply list_eq. intros i. destruct (decide (i < n)).
  - rewrite !lookup_slice by lia. apply lookup_splice_old; lia.
  - unfold slice. rewrite !lookup_take_ge by lia. done.
Qed.

Lemma splice_slice off n l :
  off + n <= length l -> splice off (slice off n l) l = l.
Proof.
  intros. unfold splice. rewrite slice_length by lia. unfold slice.
  rewrite <-drop_drop, take_drop, take_drop. done.
Qed.

Lemma slice_all l : slice 0 (length l) l = l.
Proof. unfold slice. rewrite drop_0. by apply take_ge. Qed.

Lemma slice_Forall (P : A -> Prop) off n l : Forall P l -> Forall P (slice off n l).
Proof. intros. unfold slice. by apply Forall_take, Forall_drop. Qed.

Lemma splice_Forall (P : A -> Prop) off new l :
  Forall P l -> Forall P new -> Forall P (splice off new l).
Proof.
  intros. unfold splice. rewrite !Forall_app.
  split_and!; auto using Forall_take, Forall_drop.
Qed.
End slices.

Lemma filter_id {A} (P : A -> Prop) `{!forall x, Decision (P x)} (l : list A) :
  Forall P l -> filter P l = l.
Proof.
  induction 1 as [|x l Hx Hl IH]; [done|]. by rewrite filter_cons_True, IH.
Qed.
