(* ===== verification/Sleeplock.v ===== *)
(** * Sleep locks (kernel/sleeplock.c), as one process sees them

    [struct sleeplock] and its operations for a run in which no other process
    is scheduled: [acquiresleep] of a lock that is taken sleeps for good. *)

From S2P Require Import Prelude.

Record sleeplock : Type := {
  sl_locked : Z;
  sl_pid : Z;
}.

#[global] Instance sleeplock_eq_dec : EqDecision sleeplock.
Proof. solve_decision. Defined.

#[global] Instance sleeplock_inhabited : Inhabited sleeplock :=
  populate {| sl_locked := 0; sl_pid := 0 |}.

Definition initsleeplock : sleeplock := {| sl_locked := 0; sl_pid := 0 |}.

(** [None]: the lock is held, the caller sleeps on it. *)
Definition acquiresleep (pid : Z) (lk : sleeplock) : option sleeplock :=
  if sl_locked lk =? 0 then Some {| sl_locked := 1; sl_pid := pid |} else None.

Definition releasesleep (lk : sleeplock) : sleeplock :=
  {| sl_locked := 0; sl_pid := 0 |}.

Definition holdingsleep (pid : Z) (lk : sleeplock) : bool :=
  negb (sl_locked lk =? 0) && (sl_pid lk =? pid).

Definition sl_free (lk : sleeplock) : Prop := sl_locked lk = 0.
Definition sl_held (pid : Z) (lk : sleeplock) : Prop :=
  sl_locked lk = 1 /\ sl_pid lk = pid.

Lemma acquiresleep_free pid lk :
  sl_free lk -> acquiresleep pid lk = Some {| sl_locked := 1; sl_pid := pid |}.
Proof. unfold sl_free, acquiresleep. by intros ->. Qed.

Lemma acquiresleep_taken pid lk : sl_locked lk <> 0 -> acquiresleep pid lk = None.
Proof. unfold acquiresleep. intros H. by apply Z.eqb_neq in H as ->. Qed.

Lemma holdingsleep_held pid lk : sl_held pid lk -> holdingsleep pid lk = true.
Proof. unfold sl_held, holdingsleep. intros [-> ->]. by rewrite Z.eqb_refl. Qed.

Lemma holdingsleep_free pid lk : sl_free lk -> holdingsleep pid lk = false.
Proof. unfold sl_free, holdingsleep. by intros ->. Qed.
