(* ===== verification/Spinlock.v ===== *)
(** * Spin locks: [kernel/spinlock.c]

    [acquire] and [release] are cut at every access to the lock, which all
    processors share, so that the steps of the processors interleave there;
    [push_off] and [pop_off] only touch the processor they run on.  The
    theorems say that a lock is held by one processor at a time, that
    [holding] is exact although it reads the lock in two accesses, and that a
    processor takes no interrupt while it holds a lock. *)

From stdpp Require Import functions.
From S2P Require Import Prelude.

Module Spinlock.

(** [struct spinlock]; processors are numbered, [None] is the null pointer. *)
Record spinlock : Type := {
  locked : Z;
  lcpu : option nat;
}.

Definition initlock : spinlock := {| locked := 0; lcpu := None |}.

(** Where a processor is within [acquire] or [release] of a lock. *)
Inductive pc : Type :=
| Outside
| AcqLocked (l : nat)  (* acquire: holding reads lk->locked *)
| AcqCpu (l : nat)     (* acquire: holding reads lk->cpu *)
| Spin (l : nat)       (* acquire: the atomic swap *)
| Own (l : nat)        (* acquire: lk->cpu = mycpu() *)
| RelLocked (l : nat)  (* release: holding reads lk->locked *)
| RelCpu (l : nat)     (* release: holding reads lk->cpu *)
| Clear (l : nat)      (* release: lk->cpu = 0 *)
| Unlock (l : nat)     (* release: the atomic store *)
| Pop.                 (* release: pop_off *)

(** The part of [struct cpu] that belongs to locks, and the interrupt bit of
    the status register.  The last four fields record where the processor is
    in the code: its place in [acquire] or [release], the locks it has
    acquired and not begun to release, the [push_off]s outside of locks, and
    whether the code outside of all of these has interrupts on. *)
Record core : Type := {
  noff : Z;
  intena : bool;
  sie : bool;
  at_pc : pc;
  held : list nat;
  pushed : nat;
  enabled : bool;
}.

Record machine : Type := {
  locks : nat -> spinlock;
  cores : nat -> core;
}.

Definition upd_lock (l : nat) (f : spinlock -> spinlock) (s : machine) : machine :=
  {| locks := <[l := f (locks s l)]> (locks s); cores := cores s |}.
Definition upd_core (c : nat) (f : core -> core) (s : machine) : machine :=
  {| locks := locks s; cores := <[c := f (cores s c)]> (cores s) |}.
Definition set_lock (l : nat) (f : spinlock -> spinlock) : M machine unit := modify (upd_lock l f).
Definition set_core (c : nat) (f : core -> core) : M machine unit := modify (upd_core c f).

Definition set_intr (b : bool) (k : core) : core :=
  {| noff := noff k; intena := intena k; sie := b; at_pc := at_pc k; held := held k;
     pushed := pushed k; enabled := enabled k |}.
Definition set_off (n : Z) (i : bool) (k : core) : core :=
  {| noff := n; intena := i; sie := sie k; at_pc := at_pc k; held := held k;
     pushed := pushed k; enabled := enabled k |}.
Definition set_pc (p : pc) (k : core) : core :=
  {| noff := noff k; intena := intena k; sie := sie k; at_pc := p; held := held k;
     pushed := pushed k; enabled := enabled k |}.
Definition set_held (ls : list nat) (k : core) : core :=
  {| noff := noff k; intena := intena k; sie := sie k; at_pc := at_pc k; held := ls;
     pushed := pushed k; enabled := enabled k |}.
Definition set_pushed (n : nat) (k : core) : core :=
  {| noff := noff k; intena := intena k; sie := sie k; at_pc := at_pc k; held := held k;
     pushed := n; enabled := enabled k |}.
Definition set_enabled (b : bool) (k : core) : core :=
  {| noff := noff k; intena := intena k; sie := sie k; at_pc := at_pc k; held := held k;
     pushed := pushed k; enabled := b |}.

Definition intr_get (c : nat) : M machine bool := gets (fun s => sie (cores s c)).
Definition intr_on (c : nat) : M machine unit := set_core c (set_intr true).
Definition intr_off (c : nat) : M machine unit := set_core c (set_intr false).

Definition push_off (c : nat) : M machine unit :=
  old <- intr_get c ;;
  intr_off c ;;
  k <- gets (fun s => cores s c) ;;
  set_core c (set_off (noff k + 1) (if noff k =? 0 then old else intena k)).

Definition pop_off (c : nat) : M machine unit :=
  on <- intr_get c ;;
  if on : bool then panic "pop_off - interruptible"
  else
    k <- gets (fun s => cores s c) ;;
    if noff k <? 1 then panic "pop_off"
    else
      set_core c (set_off (noff k - 1) (intena k)) ;;
      k <- gets (fun s => cores s c) ;;
      if (noff k =? 0) && intena k then intr_on c else ret tt.

(** The accesses to the lock. *)
Definition read_locked (l : nat) : M machine Z := gets (fun s => locked (locks s l)).
Definition read_cpu (l : nat) : M machine (option nat) := gets (fun s => lcpu (locks s l)).
Definition write_cpu (l : nat) (o : option nat) : M machine unit :=
  set_lock l (fun k => {| locked := locked k; lcpu := o |}).
Definition sync_lock_test_and_set (l : nat) : M machine Z :=
  old <- read_locked l ;;
  set_lock l (fun k => {| locked := 1; lcpu := lcpu k |}) ;;
  ret old.
Definition sync_lock_release (l : nat) : M machine unit :=
  set_lock l (fun k => {| locked := 0; lcpu := lcpu k |}).

(** [holding], when no other processor comes in between. *)
Definition holding (c l : nat) : M machine bool :=
  r <- read_locked l ;;
  if r =? 0 then ret false
  else
    o <- read_cpu l ;;
    ret (bool_decide (o = Some c)).

Definition goto (c : nat) (p : pc) : M machine unit := set_core c (set_pc p).

(** [acquire], up to its first access to the lock. *)
Definition acquire (c l : nat) : M machine unit :=
  push_off c ;;
  goto c (AcqLocked l).

(** [release], up to its first access to the lock. *)
Definition release (c l : nat) : M machine unit := goto c (RelLocked l).

(** One access to the lock and what follows it, up to the next one. *)
Definition next (c : nat) (p : pc) : M machine unit :=
  match p with
  | Outside => halt (SBlock "outside")
  | AcqLocked l =>
      r <- read_locked l ;;
      goto c (if r =? 0 then Spin l else AcqCpu l)
  | AcqCpu l =>
      o <- read_cpu l ;;
      if bool_decide (o = Some c) then panic "acquire" else goto c (Spin l)
  | Spin l =>
      old <- sync_lock_test_and_set l ;;
      goto c (if old =? 0 then Own l else Spin l)
  | Own l =>
      write_cpu l (Some c) ;;
      set_core c (fun k => set_held (l :: held k) k) ;;
      goto c Outside
  | RelLocked l =>
      r <- read_locked l ;;
      if r =? 0 then panic "release" else goto c (RelCpu l)
  | RelCpu l =>
      o <- read_cpu l ;;
      if bool_decide (o = Some c) then goto c (Clear l) else panic "release"
  | Clear l =>
      write_cpu l None ;;
      set_core c (fun k => set_held (filter (.≠ l) (held k)) k) ;;
      goto c (Unlock l)
  | Unlock l =>
      sync_lock_release l ;;
      goto c Pop
  | Pop =>
      pop_off c ;;
      goto c Outside
  end.

(** ** The processors together *)

Inductive event : Type :=
| EAcquire (c l : nat)
| ERelease (c l : nat)
| ENext (c : nat)
| EPush (c : nat)
| EPop (c : nat)
| EIntr (c : nat) (on : bool)  (* intr_on, intr_off or the return from a trap *)
| ETrap (c : nat).             (* a device interrupt *)

Definition blocked : M machine unit := halt (SBlock "not enabled").

Definition outside (c : nat) (m : core -> M machine unit) : M machine unit :=
  k <- gets (fun s => cores s c) ;;
  match at_pc k with Outside => m k | _ => blocked end.

(** [pop_off] is called after [push_off], and the interrupt bit is only set
    by code that holds no lock; an interrupt needs the bit and nothing else. *)
Definition step (e : event) : M machine unit :=
  match e with
  | EAcquire c l => outside c (fun _ => acquire c l)
  | ERelease c l => outside c (fun _ => release c l)
  | ENext c => k <- gets (fun s => cores s c) ;; next c (at_pc k)
  | EPush c => outside c (fun k => set_core c (set_pushed (S (pushed k))) ;; push_off c)
  | EPop c => outside c (fun k =>
      match pushed k with
      | O => blocked
      | S n => set_core c (set_pushed n) ;; pop_off c
      end)
  | EIntr c b => outside c (fun k =>
      match held k, pushed k with
      | [], O => set_core c (set_enabled b) ;; if b then intr_on c else intr_off c
      | _, _ => blocked
      end)
  | ETrap c =>
      on <- intr_get c ;;
      if on : bool then set_core c (set_enabled false) ;; intr_off c else blocked
  end.

Definition boot_core : core :=
  {| noff := 0; intena := false; sie := false; at_pc := Outside; held := []; pushed := 0; enabled := false |}.
Definition boot : machine := {| locks := fun _ => initlock; cores := fun _ => boot_core |}.

Inductive reachable : machine -> Prop :=
| reach_boot : reachable boot
| reach_step e s s' : reachable s -> step e s = Ok tt s' -> reachable s'.

(** ** The invariant *)

(** The lock word is the processor's: from the swap to the store. *)
Definition owns (k : core) (l : nat) : Prop :=
  l ∈ held k \/ at_pc k = Own l \/ at_pc k = Unlock l.

(** The [push_off] of an [acquire] that has not returned, or of a [release]
    that has given the lock up. *)
Definition depth (p : pc) : Z :=
  match p with
  | Outside | RelLocked _ | RelCpu _ | Clear _ => 0
  | _ => 1
  end.

Definition place_ok (k : core) : Prop :=
  match at_pc k with
  | Clear l => l ∈ held k
  | Own l | Unlock l => l ∉ held k
  | _ => True
  end.

Record core_ok (k : core) : Prop := {
  co_nodup : NoDup (held k);
  co_place : place_ok k;
  co_noff : noff k = Z.of_nat (length (held k)) + Z.of_nat (pushed k) + depth (at_pc k);
  co_zero : noff k = 0 -> sie k = enabled k;
  co_off : 0 < noff k -> sie k = false /\ intena k = enabled k;
}.

Record inv (s : machine) : Prop := {
  i_core : forall c, core_ok (cores s c);
  i_cpu : forall l c, lcpu (locks s l) = Some c <-> l ∈ held (cores s c);
  i_free : forall l, locked (locks s l) = 0 -> forall c, ~ owns (cores s c) l;
  i_taken : forall l, locked (locks s l) <> 0 -> exists c, owns (cores s c) l;
  i_one : forall l c c', owns (cores s c) l -> owns (cores s c') l -> c = c';
}.

Lemma boot_locks_inv : inv boot.
Proof.
  split; cbn.
  - intros c. split; cbn; try done. constructor.
  - intros l c. split; [done|]. by intros ?%not_elem_of_nil.
  - intros l _ c [?%not_elem_of_nil|[?|?]]; done.
  - done.
  - intros l c c' [?%not_elem_of_nil|[?|?]]; done.
Qed.

Lemma owns_off k l : core_ok k -> owns k l -> 0 < noff k.
Proof.
  intros [_ _ Hn _ _] [Hin|[E|E]].
  - destruct (held k); [by apply not_elem_of_nil in Hin|]. cbn [length] in Hn. destruct (at_pc k); cbn in Hn; lia.
  - rewrite E in Hn. cbn in Hn. lia.
  - rewrite E in Hn. cbn in Hn. lia.
Qed.

Lemma upd_core_eq c f s : cores (upd_core c f s) c = f (cores s c).
Proof. apply fn_lookup_insert. Qed.
Lemma upd_core_ne c f s d : d <> c -> cores (upd_core c f s) d = cores s d.
Proof. intros Hd. by apply fn_lookup_insert_ne. Qed.
Lemma upd_lock_eq l f s : locks (upd_lock l f s) l = f (locks s l).
Proof. apply fn_lookup_insert. Qed.
Lemma upd_lock_ne l f s m : m <> l -> locks (upd_lock l f s) m = locks s m.
Proof. intros Hm. by apply fn_lookup_insert_ne. Qed.
Lemma upd_core_locks c f s : locks (upd_core c f s) = locks s.
Proof. done. Qed.
Lemma upd_lock_cores l f s : cores (upd_lock l f s) = cores s.
Proof. done. Qed.

(** A step of the processor [c] on the lock [l]. *)
Record moves (c l : nat) (s s' : machine) : Prop := {
  m_cores : forall d, d <> c -> cores s' d = cores s d;
  m_locks : forall m, m <> l -> locks s' m = locks s m;
  m_held : forall m, m <> l -> m ∈ held (cores s' c) <-> m ∈ held (cores s c);
  m_owns : forall m, m <> l -> owns (cores s' c) m <-> owns (cores s c) m;
  m_core : core_ok (cores s' c);
}.

Lemma move_inv c l s s' :
  inv s -> moves c l s s' ->
  (forall d, lcpu (locks s' l) = Some d <-> l ∈ held (cores s' d)) ->
  (locked (locks s' l) = 0 -> forall d, ~ owns (cores s' d) l) ->
  (locked (locks s' l) <> 0 -> exists d, owns (cores s' d) l) ->
  (forall d d', owns (cores s' d) l -> owns (cores s' d') l -> d = d') ->
  inv s'.
Proof.
  intros I Hm H1 H2 H3 H4.
  assert (forall m d, m <> l -> m ∈ held (cores s' d) <-> m ∈ held (cores s d)) as Hh.
  { intros m d ?. destruct (decide (d = c)) as [->|]; [by apply Hm|]. by rewrite (m_cores _ _ _ _ Hm). }
  assert (forall m d, m <> l -> owns (cores s' d) m <-> owns (cores s d) m) as Ho.
  { intros m d ?. destruct (decide (d = c)) as [->|]; [by apply Hm|]. by rewrite (m_cores _ _ _ _ Hm). }
  split.
  - intros d. destruct (decide (d = c)) as [->|]; [apply Hm|]. rewrite (m_cores _ _ _ _ Hm) by done. apply I.
  - intros m. destruct (decide (m = l)) as [->|]; [done|]. intros d.
    rewrite (m_locks _ _ _ _ Hm), Hh by done. apply I.
  - intros m. destruct (decide (m = l)) as [->|]; [done|]. rewrite (m_locks _ _ _ _ Hm) by done.
    intros H0 d. rewrite Ho by done. by apply I.
  - intros m. destruct (decide (m = l)) as [->|]; [done|]. rewrite (m_locks _ _ _ _ Hm) by done.
    intros H0. destruct (i_taken _ I m H0) as [d Hd]. exists d. by rewrite Ho.
  - intros m. destruct (decide (m = l)) as [->|]; [done|]. intros d d'. rewrite !Ho by done. apply I.
Qed.

(** A step of one processor that does not change who has which lock. *)
Lemma stay_inv c s s' :
  inv s -> (forall d, d <> c -> cores s' d = cores s d) ->
  (forall l, lcpu (locks s' l) = lcpu (locks s l) /\ (locked (locks s' l) = 0 <-> locked (locks s l) = 0)) ->
  held (cores s' c) = held (cores s c) -> (forall l, owns (cores s' c) l <-> owns (cores s c) l) ->
  core_ok (cores s' c) -> inv s'.
Proof.
  intros I Hc Hl Hh Ho Hk.
  assert (forall d l, owns (cores s' d) l <-> owns (cores s d) l) as Ho'.
  { intros d l. destruct (decide (d = c)) as [->|]; [done|by rewrite Hc]. }
  split.
  - intros d. destruct (decide (d = c)) as [->|]; [done|]. rewrite Hc by done. apply I.
  - intros l d. destruct (Hl l) as [-> _]. destruct (decide (d = c)) as [->|]; [rewrite Hh|rewrite Hc by done]; apply I.
  - intros l H0 d. rewrite Ho'. apply I. by apply Hl.
  - intros l H0. destruct (i_taken _ I l) as [d Hd]; [by intros ?%Hl|]. exists d. by rewrite Ho'.
  - intros l d d'. rewrite !Ho'. apply I.
Qed.

(** ** Every step preserves the invariant *)

Definition pushed_off (k : core) : core :=
  set_off (noff k + 1) (if noff k =? 0 then sie k else intena k) (set_intr false k).

Lemma push_off_run c s :
  exists s', push_off c s = Ok tt s' /\ locks s' = locks s /\ cores s' c = pushed_off (cores s c) /\
    forall d, d <> c -> cores s' d = cores s d.
Proof.
  eexists. split; [done|]. rewrite !upd_core_locks, upd_core_eq, !upd_core_eq. split_and!; try done.
  intros d Hd. by rewrite !upd_core_ne.
Qed.

Definition popped_off (k : core) : core :=
  let k' := set_off (noff k - 1) (intena k) k in
  if (noff k - 1 =? 0) && intena k then set_intr true k' else k'.

Lemma pop_off_run c s :
  sie (cores s c) = false -> 0 < noff (cores s c) ->
  exists s', pop_off c s = Ok tt s' /\ locks s' = locks s /\ cores s' c = popped_off (cores s c) /\
    forall d, d <> c -> cores s' d = cores s d.
Proof.
  intros Hs Hn. unfold pop_off, intr_get, bind, gets. rewrite Hs.
  destruct (Z.ltb_spec (noff (cores s c)) 1); [lia|]. cbn [set_core modify].
  rewrite upd_core_eq. unfold popped_off. cbn [noff set_off intena].
  destruct (_ && _); eexists; (split; [done|]); rewrite ?upd_core_locks, ?upd_core_eq;
    (split_and!; [done..|]); intros d Hd; by rewrite !upd_core_ne.
Qed.

(** Entering a critical section, by [acquire] or by [push_off] alone. *)
Lemma pushed_ok k p n :
  core_ok k -> at_pc k = Outside -> place_ok (set_pc p k) ->
  Z.of_nat n + depth p = Z.of_nat (pushed k) + 1 ->
  core_ok (set_pushed n (set_pc p (pushed_off k))).
Proof.
  intros [H1 H2 H3 H4 H5] Hp Hpl Hn. rewrite Hp in H3. cbn [depth] in H3.
  split; cbn; try done; try lia.
  intros _. split; [done|]. case_if; [by apply H4|]. apply H5. lia.
Qed.

Lemma popped_ok k n :
  core_ok k -> 0 < noff k -> Z.of_nat n = Z.of_nat (pushed k) + depth (at_pc k) - 1 ->
  core_ok (set_pushed n (set_pc Outside (popped_off k))).
Proof.
  intros [H1 H2 H3 H4 H5] Hp Hn. destruct (H5 Hp) as [Hs Hi]. unfold popped_off.
  destruct (Z.eqb_spec (noff k - 1) 0) as [E|E]; destruct (intena k) eqn:Ei; cbn [andb];
    (split; cbn; [done|done|lia|intros; try lia; congruence|intros; try lia; by split; congruence]).
Qed.

(** Only the place changes. *)
Lemma goto_ok k p :
  core_ok k -> depth p = depth (at_pc k) -> place_ok (set_pc p k) -> core_ok (set_pc p k).
Proof. intros [H1 H2 H3 H4 H5] Hd Hp. split; cbn; try done. by rewrite Hd. Qed.

Lemma outside_step c m s s' :
  outside c m s = Ok tt s' -> at_pc (cores s c) = Outside /\ m (cores s c) s = Ok tt s'.
Proof. unfold outside, bind, gets. by destruct (at_pc (cores s c)). Qed.

Lemma acquire_inv c l s s' :
  inv s -> at_pc (cores s c) = Outside -> acquire c l s = Ok tt s' -> inv s'.
Proof.
  intros I Hp. unfold acquire. destruct (push_off_run c s) as (s1 & Hr & Hl & Hc & Hd).
  rewrite (bind_ok _ _ _ _ _ Hr). intros [= <-].
  apply (stay_inv c s); rewrite ?upd_core_locks, ?upd_core_eq, ?Hc, ?Hl; try done.
  - intros d Hne. rewrite upd_core_ne by done. by apply Hd.
  - intros m. unfold owns. cbn. rewrite Hp. naive_solver.
  - apply (pushed_ok (cores s c) (AcqLocked l) (pushed (cores s c))); [apply I|done..|]. cbn. lia.
Qed.

(** [pop_off], after the count of [push_off]s and before the place are set. *)
Lemma pop_inv c n s s0 s1 s' :
  inv s -> at_pc (cores s c) = Outside \/ at_pc (cores s c) = Pop ->
  Z.of_nat n = Z.of_nat (pushed (cores s c)) + depth (at_pc (cores s c)) - 1 ->
  locks s0 = locks s -> cores s0 c = set_pushed n (cores s c) ->
  (forall d, d <> c -> cores s0 d = cores s d) -> pop_off c s0 = Ok tt s1 ->
  locks s' = locks s1 -> cores s' c = set_pc Outside (cores s1 c) ->
  (forall d, d <> c -> cores s' d = cores s1 d) -> inv s'.
Proof.
  intros I Hp Hn El Ec Ed Hrun El' Ec' Ed'. pose proof (i_core _ I c) as Hk.
  assert (0 < noff (cores s c)) as Hpos.
  { rewrite (co_noff _ Hk). lia. }
  destruct (pop_off_run c s0) as (s2 & Hr & Hl & Hc & Hd).
  { rewrite Ec. by apply (co_off _ Hk). }
  { by rewrite Ec. }
  rewrite Hr in Hrun. injection Hrun as <-. rewrite Ec in Hc.
  assert (cores s' c = set_pushed n (set_pc Outside (popped_off (cores s c)))) as E.
  { rewrite Ec', Hc. unfold popped_off. cbn. by destruct (_ && _). }
  apply (stay_inv c s); rewrite ?E, ?El', ?Hl, ?El; try done.
  - intros d Hne. by rewrite Ed', Hd, Ed.
  - unfold popped_off. by destruct (_ && _).
  - intros m. unfold owns, popped_off. destruct (_ && _), Hp as [Hp|Hp]; cbn; rewrite Hp; naive_solver.
  - by apply popped_ok.
Qed.

Lemma goto_inv c p s :
  inv s -> depth p = depth (at_pc (cores s c)) -> place_ok (set_pc p (cores s c)) ->
  (forall l, owns (set_pc p (cores s c)) l <-> owns (cores s c) l) ->
  inv (upd_core c (set_pc p) s).
Proof.
  intros I Hd Hp Ho. apply (stay_inv c s); rewrite ?upd_core_locks, ?upd_core_eq; try done.
  - intros d Hne. by apply upd_core_ne.
  - apply goto_ok; [apply I|done..].
Qed.

(** Places at which a processor owns what it holds. *)
Definition quiet (p : pc) : Prop :=
  match p with Own _ | Unlock _ => False | _ => True end.

Lemma owns_quiet k p l : quiet (at_pc k) -> quiet p -> owns (set_pc p k) l <-> owns k l.
Proof. unfold owns. destruct (at_pc k), p; cbn; naive_solver. Qed.

Lemma spin_inv c l s s' :
  inv s -> at_pc (cores s c) = Spin l -> next c (Spin l) s = Ok tt s' -> inv s'.
Proof.
  intros I Hp. cbn. unfold sync_lock_test_and_set, bind, read_locked, gets, set_lock, modify, ret.
  intros [= <-]. destruct (Z.eqb_spec (locked (locks s l)) 0) as [E|E].
  - pose proof (i_free _ I l E) as Hno.
    apply (move_inv c l s); [done|split|..].
    + intros d Hd. by rewrite upd_core_ne.
    + intros m Hm. by rewrite upd_core_locks, upd_lock_ne.
    + intros m Hm. by rewrite upd_core_eq.
    + intros m Hm. rewrite upd_core_eq, upd_lock_cores. unfold owns. cbn. rewrite Hp. naive_solver.
    + rewrite upd_core_eq, upd_lock_cores. apply goto_ok; [apply I|by rewrite Hp|].
      cbn. intros Hin. apply (Hno c). by left.
    + intros d. rewrite upd_core_locks, upd_lock_eq. cbn [lcpu].
      rewrite (i_cpu _ I). destruct (decide (d = c)) as [->|]; [by rewrite upd_core_eq|by rewrite upd_core_ne].
    + rewrite upd_core_locks, upd_lock_eq. done.
    + intros _. exists c. rewrite upd_core_eq. right. by left.
    + assert (forall d, owns (cores (upd_core c (set_pc (Own l)) (upd_lock l (fun k => {| locked := 1; lcpu := lcpu k |}) s)) d) l -> d = c) as Hc.
      { intros d. destruct (decide (d = c)) as [|]; [done|]. rewrite upd_core_ne by done. by intros ?%Hno. }
      intros d d' ->%Hc ->%Hc. done.
  - apply (stay_inv c s); rewrite ?upd_core_locks, ?upd_core_eq; try done.
    + intros d Hd. by rewrite upd_core_ne.
    + intros m. destruct (decide (m = l)) as [->|]; [rewrite upd_lock_eq|by rewrite upd_lock_ne]. done.
    + intros m. rewrite upd_lock_cores. apply owns_quiet; [by rewrite Hp|done].
    + rewrite upd_lock_cores. apply goto_ok; [apply I|by rewrite Hp|done].
Qed.

(** The owner of a lock writes [lk->cpu]. *)
Lemma owner_inv c l s s' hs p o :
  inv s -> owns (cores s c) l ->
  cores s' c = set_pc p (set_held hs (cores s c)) -> (forall d, d <> c -> cores s' d = cores s d) ->
  locks s' l = {| locked := locked (locks s l); lcpu := o |} ->
  (forall m, m <> l -> locks s' m = locks s m) ->
  owns (cores s' c) l -> (forall m, m <> l -> m ∈ hs <-> m ∈ held (cores s c)) ->
  (forall m, m <> l -> owns (cores s' c) m <-> owns (cores s c) m) ->
  (o = Some c /\ l ∈ hs \/ o = None /\ l ∉ hs) -> core_ok (cores s' c) -> inv s'.
Proof.
  intros I Hown Ec Ed El Em Hown' Hh Ho Hcpu Hk.
  assert (forall d, d <> c -> l ∉ held (cores s d)) as Hno.
  { intros d Hd Hin. apply Hd. apply (i_one _ I l); [by left|done]. }
  assert (forall d, owns (cores s' d) l <-> owns (cores s d) l) as Hol.
  { intros d. destruct (decide (d = c)) as [->|]; [done|by rewrite Ed]. }
  apply (move_inv c l s); [done|split|..]; rewrite ?El; try done.
  - intros m Hm. rewrite Ec. by apply Hh.
  - intros d. cbn [lcpu]. destruct (decide (d = c)) as [->|Hd].
    + rewrite Ec. cbn. naive_solver.
    + rewrite Ed by done. pose proof (Hno d Hd). naive_solver.
  - intros H0 d. rewrite Hol. by apply I.
  - intros _. by exists c.
  - intros d d'. rewrite !Hol. apply I.
Qed.

Lemma own_inv c l s s' :
  inv s -> at_pc (cores s c) = Own l -> next c (Own l) s = Ok tt s' -> inv s'.
Proof.
  intros I Hp [= <-]. pose proof (i_core _ I c) as [H1 H2 H3 H4 H5].
  unfold place_ok in H2. rewrite Hp in H2, H3. cbn [depth] in H3.
  apply (owner_inv c l s _ (l :: held (cores s c)) Outside (Some c) I); rewrite ?upd_core_eq, ?upd_core_locks, ?upd_lock_eq; try done.
  - right. by left.
  - intros d Hd. by rewrite !upd_core_ne.
  - intros m Hm. by rewrite upd_lock_ne.
  - left. left.
  - intros m Hm. rewrite elem_of_cons. naive_solver.
  - intros m Hm. unfold owns. cbn. rewrite elem_of_cons, Hp. naive_solver.
  - left. split; [done|left].
  - split; cbn; try done; [by constructor|lia].
Qed.

Lemma held_remove (ls : list nat) l :
  NoDup ls -> l ∈ ls -> length ls = S (length (filter (.≠ l) ls)).
Proof.
  induction 1 as [|x ls Hx Hn IH]; [by intros ?%not_elem_of_nil|].
  intros [->|Hin]%elem_of_cons.
  - rewrite filter_cons_False by (intros E; by apply E). cbn. f_equal. rewrite filter_id; [done|].
    apply Forall_forall. intros y Hy ->. done.
  - rewrite filter_cons_True by (intros ->; done). cbn. f_equal. by apply IH.
Qed.

Lemma clear_inv c l s s' :
  inv s -> at_pc (cores s c) = Clear l -> next c (Clear l) s = Ok tt s' -> inv s'.
Proof.
  intros I Hp [= <-]. pose proof (i_core _ I c) as [H1 H2 H3 H4 H5].
  unfold place_ok in H2. rewrite Hp in H2, H3. cbn [depth] in H3.
  pose proof (held_remove _ _ H1 H2) as Hlen.
  assert (l ∉ filter (.≠ l) (held (cores s c))) as Hl by (by intros [? _]%list_elem_of_filter).
  apply (owner_inv c l s _ (filter (.≠ l) (held (cores s c))) (Unlock l) None I);
    rewrite ?upd_core_eq, ?upd_core_locks, ?upd_lock_eq; try done.
  - by left.
  - intros d Hd. by rewrite !upd_core_ne.
  - intros m Hm. by rewrite upd_lock_ne.
  - right. by right.
  - intros m Hm. rewrite list_elem_of_filter. naive_solver.
  - intros m Hm. unfold owns. cbn. rewrite list_elem_of_filter, Hp. naive_solver.
  - by right.
  - split; cbn; try done; [by apply NoDup_filter|lia].
Qed.

Lemma unlock_inv c l s s' :
  inv s -> at_pc (cores s c) = Unlock l -> next c (Unlock l) s = Ok tt s' -> inv s'.
Proof.
  intros I Hp [= <-]. pose proof (co_place _ (i_core _ I c)) as Hl. unfold place_ok in Hl. rewrite Hp in Hl.
  set (s' := upd_core c _ _).
  assert (cores s' c = set_pc Pop (cores s c)) as Ec by (unfold s'; by rewrite upd_core_eq).
  assert (forall d, d <> c -> cores s' d = cores s d) as Ed by (intros d ?; unfold s'; by rewrite upd_core_ne).
  assert (forall d, ~ owns (cores s' d) l) as Hno.
  { intros d. destruct (decide (d = c)) as [->|Hd].
    - rewrite Ec. unfold owns. cbn. naive_solver.
    - rewrite Ed by done. intros Hd'. apply Hd. apply (i_one _ I l); [done|]. right. by right. }
  assert (locks s' l = {| locked := 0; lcpu := lcpu (locks s l) |}) as El.
  { unfold s'. by rewrite upd_core_locks, upd_lock_eq. }
  apply (move_inv c l s); [done|split|..]; rewrite ?El; try done.
  - intros m Hm. unfold s'. by rewrite upd_core_locks, upd_lock_ne.
  - intros m Hm. by rewrite Ec.
  - intros m Hm. rewrite Ec. unfold owns. cbn. rewrite Hp. naive_solver.
  - rewrite Ec. apply goto_ok; [apply I|by rewrite Hp|done].
  - intros d. cbn [lcpu]. rewrite (i_cpu _ I).
    destruct (decide (d = c)) as [->|]; [by rewrite Ec|by rewrite Ed].
  - intros d d' Hd. by apply Hno in Hd.
Qed.

(** [holding] reads the right answer: nobody else writes this processor into
    the lock, or takes it out. *)
Lemma cpu_held s c l : inv s -> bool_decide (lcpu (locks s l) = Some c) = bool_decide (l ∈ held (cores s c)).
Proof. intros I. apply bool_decide_ext, I. Qed.

Lemma next_inv c s s' : inv s -> next c (at_pc (cores s c)) s = Ok tt s' -> inv s'.
Proof.
  intros I. destruct (at_pc (cores s c)) as [|l|l|l|l|l|l|l|l|] eqn:Hp; cbn [next]; [done|..].
  - intros [= <-]. apply goto_inv; rewrite ?Hp; try done; [by case_if|by case_if|].
    intros m. apply owns_quiet; [by rewrite Hp|by case_if].
  - unfold bind, read_cpu, gets. case_if; [done|]. intros [= <-].
    apply goto_inv; rewrite ?Hp; try done. intros m. apply owns_quiet; [by rewrite Hp|done].
  - by apply spin_inv.
  - by apply own_inv.
  - unfold bind, read_locked, gets. case_if; [done|]. intros [= <-].
    apply goto_inv; rewrite ?Hp; try done. intros m. apply owns_quiet; [by rewrite Hp|done].
  - unfold bind, read_cpu, gets. rewrite cpu_held by done. case_bool_decide as Hin; [|done]. intros [= <-].
    apply goto_inv; rewrite ?Hp; try done. intros m. apply owns_quiet; [by rewrite Hp|done].
  - by apply clear_inv.
  - by apply unlock_inv.
  - destruct (pop_off c s) as [[] s1|] eqn:Hr; [|by rewrite (bind_stop _ _ _ _ Hr)].
    rewrite (bind_ok _ _ _ _ _ Hr). intros [= <-].
    apply (pop_inv c (pushed (cores s c)) s s s1); rewrite ?Hp, ?upd_core_eq; try done; [by right|cbn; lia|..].
    + by destruct (cores s c).
    + intros d Hd. by rewrite upd_core_ne.
Qed.

(** The interrupt bit changes where it is not masked by [push_off]. *)
Lemma intr_inv c b s :
  inv s -> noff (cores s c) = 0 -> inv (upd_core c (set_intr b) (upd_core c (set_enabled b) s)).
Proof.
  intros I Hn. apply (stay_inv c s); rewrite ?upd_core_locks, ?upd_core_eq; try done.
  - intros d Hd. by rewrite !upd_core_ne.
  - destruct (i_core _ I c) as [H1 H2 H3 H4 H5]. split; cbn; try done. lia.
Qed.

Lemma step_inv e s s' : inv s -> step e s = Ok tt s' -> inv s'.
Proof.
  intros I. destruct e as [c l|c l|c|c|c|c b|c]; cbn [step].
  - intros [Hp Hr]%outside_step. by apply (acquire_inv c l s).
  - intros [Hp [= <-]]%outside_step. apply goto_inv; rewrite ?Hp; try done.
    intros m. apply owns_quiet; [by rewrite Hp|done].
  - by apply next_inv.
  - intros [Hp Hr]%outside_step. set (s0 := upd_core c (set_pushed (S (pushed (cores s c)))) s) in *.
    destruct (push_off_run c s0) as (s1 & Hr1 & Hl & Hc & Hd).
    rewrite (bind_ok _ _ s tt s0) in Hr by done. rewrite Hr1 in Hr. injection Hr as <-.
    unfold s0 in Hc. rewrite upd_core_eq in Hc.
    apply (stay_inv c s); rewrite ?Hl, ?Hc; try done.
    + intros d Hne. rewrite Hd by done. unfold s0. by rewrite upd_core_ne.
    + replace (pushed_off _) with (set_pushed (S (pushed (cores s c))) (set_pc Outside (pushed_off (cores s c)))).
      * apply pushed_ok; [apply I|done|done|cbn; lia].
      * destruct (cores s c) as [a1 a2 a3 a4 a5 a6 a7]. cbn in *. by subst.
  - intros [Hp Hr]%outside_step. destruct (pushed (cores s c)) as [|n] eqn:En; [done|].
    apply (pop_inv c n s (upd_core c (set_pushed n) s) s'); rewrite ?Hp, ?En, ?upd_core_eq; try done;
      [by left|cbn; lia|intros d Hd; by rewrite upd_core_ne|].
    destruct (pop_off_run c (upd_core c (set_pushed n) s)) as (s2 & Hr2 & _ & Hc & _).
    + rewrite upd_core_eq. apply (co_off _ (i_core _ I c)). rewrite (co_noff _ (i_core _ I c)), Hp, En. cbn. lia.
    + rewrite upd_core_eq. cbn. rewrite (co_noff _ (i_core _ I c)), Hp, En. cbn. lia.
    + rewrite (bind_ok _ _ s tt (upd_core c (set_pushed n) s)) in Hr by done. rewrite Hr2 in Hr.
      injection Hr as <-. rewrite Hc, upd_core_eq. unfold popped_off.
      destruct (cores s c) as [a1 a2 a3 a4 a5 a6 a7]. cbn in *. subst. by destruct (_ && _).
  - intros [Hp Hr]%outside_step. destruct (held (cores s c)) eqn:Eh; [|done].
    destruct (pushed (cores s c)) eqn:En; [|done].
    assert (noff (cores s c) = 0) by (by rewrite (co_noff _ (i_core _ I c)), Hp, En, Eh).
    destruct b; injection Hr as <-; by apply intr_inv.
  - unfold bind, intr_get, gets. destruct (sie (cores s c)) eqn:Es; [|done]. intros [= <-].
    apply intr_inv; [done|]. pose proof (co_off _ (i_core _ I c)) as Hoff.
    pose proof (co_noff _ (i_core _ I c)) as Hn.
    assert (0 <= depth (at_pc (cores s c))) by (by destruct (at_pc (cores s c))).
    destruct (decide (0 < noff (cores s c))) as [Hpos|]; [|lia]. destruct (Hoff Hpos). congruence.
Qed.

Lemma reachable_locks_inv s : reachable s -> inv s.
Proof. induction 1; [apply boot_locks_inv|by eapply step_inv]. Qed.

(** ** Mutual exclusion *)

(** Claim C11: however the processors interleave, a lock has at most one owner,
    its word is 0 exactly when it has none, its owner takes no interrupt, and
    a processor outside of locks and [push_off]s has interrupts on exactly
    when its code turned them on. *)
Theorem spinlock_exclusive s :
  reachable s ->
  (forall l c c', owns (cores s c) l -> owns (cores s c') l -> c = c') /\
  (forall l, locked (locks s l) = 0 <-> forall c, ~ owns (cores s c) l) /\
  (forall l c, owns (cores s c) l -> sie (cores s c) = false) /\
  (forall c, at_pc (cores s c) = Outside -> held (cores s c) = [] -> pushed (cores s c) = O ->
    sie (cores s c) = enabled (cores s c)).
Proof.
  intros I%reachable_locks_inv. split_and!.
  - apply I.
  - intros l. split; [apply I|]. intros Hno. destruct (decide (locked (locks s l) = 0)) as [|H0]; [done|].
    destruct (i_taken _ I l H0) as [c Hc]. by apply Hno in Hc.
  - intros l c Ho. apply (co_off _ (i_core _ I c)). by eapply owns_off; [apply I|].
  - intros c Hp Hh Hn. apply (co_zero _ (i_core _ I c)).
    by rewrite (co_noff _ (i_core _ I c)), Hp, Hh, Hn.
Qed.

(** What the next access to the lock does. *)
Definition moves_on (c : nat) (s : machine) (p : pc -> Prop) : Prop :=
  exists s', step (ENext c) s = Ok tt s' /\ p (at_pc (cores s' c)).

Lemma next_step c s : step (ENext c) s = next c (at_pc (cores s c)) s.
Proof. done. Qed.

Lemma moves_goto c s p (Q : pc -> Prop) :
  at_pc (cores s c) = p -> (exists q s1, next c p s = Ok tt (upd_core c (set_pc q) s1) /\ Q q) -> moves_on c s Q.
Proof.
  intros Hp (q & s1 & Hn & Hq). eexists. rewrite next_step, Hp. split; [done|]. by rewrite upd_core_eq.
Qed.

(** Claim C26: although [holding] reads the lock in two accesses and other
    processors come in between, [acquire] panics exactly for a lock its
    processor holds, [release] exactly for one it does not hold, and nothing
    else in them panics. *)
Theorem holding_exact s c :
  reachable s ->
  match at_pc (cores s c) with
  | Outside => True
  | AcqLocked l => moves_on c s (fun p => p = AcqCpu l \/ (p = Spin l /\ l ∉ held (cores s c)))
  | AcqCpu l =>
      if decide (l ∈ held (cores s c)) then step (ENext c) s = Stop (SPanic "acquire")
      else moves_on c s (eq (Spin l))
  | Spin l => moves_on c s (fun p => p = Spin l \/ p = Own l)
  | Own l => moves_on c s (eq Outside)
  | RelLocked l =>
      if decide (l ∈ held (cores s c)) then moves_on c s (eq (RelCpu l))
      else step (ENext c) s = Stop (SPanic "release") \/ moves_on c s (eq (RelCpu l))
  | RelCpu l =>
      if decide (l ∈ held (cores s c)) then moves_on c s (eq (Clear l))
      else step (ENext c) s = Stop (SPanic "release")
  | Clear l => moves_on c s (eq (Unlock l))
  | Unlock _ => moves_on c s (eq Pop)
  | Pop => moves_on c s (eq Outside)
  end.
Proof.
  intros I%reachable_locks_inv.
  assert (forall l, l ∈ held (cores s c) -> locked (locks s l) <> 0) as Hw.
  { intros l Hin H0. apply (i_free _ I l H0 c). by left. }
  destruct (at_pc (cores s c)) as [|l|l|l|l|l|l|l|l|] eqn:Hp; [done|..].
  - apply (moves_goto c s _ _ Hp). cbn. eexists _, s. split; [done|].
    destruct (Z.eqb_spec (locked (locks s l)) 0) as [E|]; [right|by left].
    split; [done|]. intros Hin. by apply (Hw l Hin).
  - pose proof (cpu_held s c l I) as Hc. destruct (decide (l ∈ held (cores s c))) as [Hin|Hin].
    + rewrite next_step, Hp. cbn. by rewrite Hc, bool_decide_true.
    + apply (moves_goto c s _ _ Hp). exists (Spin l), s. split; [|done].
      cbn. by rewrite Hc, bool_decide_false.
  - apply (moves_goto c s _ _ Hp). eexists _, _. split; [done|]. cbn. case_if; [by right|by left].
  - apply (moves_goto c s _ _ Hp). by eexists _, _.
  - rewrite next_step, Hp. cbn. destruct (decide (l ∈ held (cores s c))) as [Hin|Hin].
    + apply (moves_goto c s _ _ Hp). exists (RelCpu l), s. split; [|done].
      cbn. apply Hw, Z.eqb_neq in Hin. by rewrite Hin.
    + destruct (_ =? 0) eqn:E; [by left|]. right. apply (moves_goto c s _ _ Hp). exists (RelCpu l), s. split; [|done].
      cbn. by rewrite E.
  - pose proof (cpu_held s c l I) as Hc. destruct (decide (l ∈ held (cores s c))) as [Hin|Hin].
    + apply (moves_goto c s _ _ Hp). exists (Clear l), s. split; [|done].
      cbn. by rewrite Hc, bool_decide_true.
    + rewrite next_step, Hp. cbn. by rewrite Hc, bool_decide_false.
  - apply (moves_goto c s _ _ Hp). by eexists _, _.
  - apply (moves_goto c s _ _ Hp). by eexists _, _.
  - apply (moves_goto c s _ _ Hp). pose proof (i_core _ I c) as Hk.
    assert (0 < noff (cores s c)) as Hn by (rewrite (co_noff _ Hk), Hp; cbn; lia).
    destruct (pop_off_run c s) as (s1 & Hr & _); [by apply (co_off _ Hk)|done|].
    exists Outside, s1. cbn. by rewrite (bind_ok _ _ _ _ _ Hr).
Qed.

(** Read at once, as by the checks of [sched], [holding] says which locks the
    processor has. *)
Lemma holding_run s c l : reachable s -> holding c l s = Ok (bool_decide (l ∈ held (cores s c))) s.
Proof.
  intros I%reachable_locks_inv. unfold holding, bind, read_locked, read_cpu, gets. case_if_as E.
  - rewrite bool_decide_false; [done|]. intros Hin. apply (i_free _ I l E c). by left.
  - by rewrite cpu_held.
Qed.

(** ** Two processors *)

Fixpoint run (es : list event) : M machine unit :=
  match es with
  | [] => ret tt
  | e :: es => step e ;; run es
  end.

Lemma run_locks_reachable es s s' : reachable s -> run es s = Ok tt s' -> reachable s'.
Proof.
  revert s. induction es as [|e es IH]; intros s Hs; cbn; [by intros [= <-]|].
  destruct (step e s) as [[] s1|] eqn:E; [|by rewrite (bind_stop _ _ _ _ E)].
  rewrite (bind_ok _ _ _ _ _ E). apply IH. by eapply reach_step.
Qed.

Definition final (es : list event) : machine :=
  match run es boot with Ok _ s => s | Stop _ => boot end.

(** Processor 0 has the lock 7 and tries to take it again, while processor 1
    spins on it. *)
Definition ex_events : list event :=
  [EIntr 0 true; EAcquire 0 7; ENext 0; EAcquire 1 7; ENext 0; ENext 1; ENext 0; ENext 1; EAcquire 0 7; ENext 0].
Definition ex_machine : machine := final ex_events.

Lemma final_locks_reachable es :
  match run es boot with Ok _ _ => true | Stop _ => false end = true -> reachable (final es).
Proof.
  unfold final. destruct (run es boot) as [[] s|] eqn:E; [|done]. intros _.
  by apply (run_locks_reachable es boot); [apply reach_boot|].
Qed.

Lemma ex_reachable : reachable ex_machine.
Proof. apply final_locks_reachable. vm_compute. reflexivity. Qed.

Lemma spinlock_exclusive_witness :
  owns (cores ex_machine 0) 7 /\ sie (cores ex_machine 0) = false /\ ~ owns (cores ex_machine 1) 7.
Proof.
  destruct (spinlock_exclusive ex_machine ex_reachable) as (H1 & _ & H3 & _).
  assert (held (cores ex_machine 0) = [7%nat]) as E by (vm_compute; reflexivity).
  assert (owns (cores ex_machine 0) 7) as Ho by (left; rewrite E; left).
  split; [exact Ho|]. split; [exact (H3 7%nat 0%nat Ho)|]. intros Ho1. discriminate (H1 _ _ _ Ho Ho1).
Defined.

Lemma holding_exact_witness : step (ENext 0) ex_machine = Stop (SPanic "acquire").
Proof.
  pose proof (holding_exact ex_machine 0 ex_reachable) as H.
  assert (at_pc (cores ex_machine 0) = AcqCpu 7) as E by (vm_compute; reflexivity).
  assert (held (cores ex_machine 0) = [7%nat]) as Eh by (vm_compute; reflexivity).
  rewrite E in H. destruct (decide (7%nat ∈ held (cores ex_machine 0))) as [_|Hn]; [exact H|].
  exfalso. apply Hn. rewrite Eh. left.
Defined.

End Spinlock.
