(* ===== verification/Layout.v ===== *)
(** * Constants and address arithmetic

    [kernel/param.h], [kernel/memlayout.h] and the address and page-table-entry
    macros of [kernel/riscv.h], on 64-bit words. *)

From S2P Require Import Prelude.

(** ** kernel/param.h *)
Definition NPROC : nat := 64.
Definition NOFILE : nat := 16.
Definition NFILE : nat := 100.
Definition NINODE : nat := 50.
Definition NDEV : Z := 10.
Definition MAXARG : nat := 32.
Definition MAXOPBLOCKS : Z := 10.
Definition MAXPATH : Z := 128.

(** ** kernel/riscv.h: pages *)
Definition PGSIZE : Z := 4096.
Definition PGSHIFT : Z := 12.

Definition PGROUNDUP (sz : Z) : Z := Z.land (u64 (sz + PGSIZE - 1)) (u64 (Z.lnot (PGSIZE - 1))).
Definition PGROUNDDOWN (a : Z) : Z := Z.land a (u64 (Z.lnot (PGSIZE - 1))).

(** ** kernel/riscv.h: page-table entries *)
Definition PTE_V : Z := Z.shiftl 1 0.
Definition PTE_R : Z := Z.shiftl 1 1.
Definition PTE_W : Z := Z.shiftl 1 2.
Definition PTE_X : Z := Z.shiftl 1 3.
Definition PTE_U : Z := Z.shiftl 1 4.

Definition PA2PTE (pa : Z) : Z := u64 (Z.shiftl (Z.shiftr pa 12) 10).
Definition PTE2PA (pte : Z) : Z := u64 (Z.shiftl (Z.shiftr pte 10) 12).
Definition PTE_FLAGS (pte : Z) : Z := Z.land pte 0x3FF.

Definition PXMASK : Z := 0x1FF.
Definition PXSHIFT (level : Z) : Z := PGSHIFT + 9 * level.
Definition PX (level va : Z) : Z := Z.land (Z.shiftr va (PXSHIFT level)) PXMASK.

Definition MAXVA : Z := Z.shiftl 1 (9 + 9 + 9 + 12 - 1).

(** ** kernel/memlayout.h *)
Definition UART0 : Z := 0x10000000.
Definition VIRTIO0 : Z := 0x10001000.
Definition PLIC : Z := 0x0c000000.
Definition KERNBASE : Z := 0x80000000.
Definition PHYSTOP : Z := KERNBASE + 128 * 1024 * 1024.
Definition TRAMPOLINE : Z := MAXVA - PGSIZE.
Definition TRAPFRAME : Z := TRAMPOLINE - PGSIZE.
Definition KSTACK (p : Z) : Z := TRAMPOLINE - (p + 1) * 2 * PGSIZE.

(** ** What the macros compute *)

Lemma land_page_mask a : 0 <= a < 2 ^ 64 -> Z.land a (u64 (Z.lnot (PGSIZE - 1))) = a - a mod PGSIZE.
Proof.
  intros Ha. change (u64 (Z.lnot (PGSIZE - 1))) with (Z.ldiff (Z.ones 64) (Z.ones 12)).
  replace (Z.land a (Z.ldiff (Z.ones 64) (Z.ones 12)))
    with (Z.ldiff (Z.land a (Z.ones 64)) (Z.ones 12)).
  2: { apply Z.bits_inj'. intros n _.
       by rewrite !Z.ldiff_spec, !Z.land_spec, Z.ldiff_spec, andb_assoc. }
  rewrite Z.land_ones, (Z.mod_small a) by lia.
  rewrite Z.ldiff_ones_r by lia. rewrite Z.shiftr_div_pow2, Z.shiftl_mul_pow2 by lia.
  change (2 ^ 12) with PGSIZE. pose proof (Z.div_mod a PGSIZE ltac:(done)). lia.
Qed.

Lemma PGROUNDDOWN_spec a : 0 <= a < 2 ^ 64 -> PGROUNDDOWN a = a - a mod PGSIZE.
Proof. apply land_page_mask. Qed.

Lemma PGROUNDUP_spec sz :
  0 <= sz -> sz + PGSIZE - 1 < 2 ^ 64 ->
  PGROUNDUP sz = (sz + PGSIZE - 1) / PGSIZE * PGSIZE.
Proof.
  intros H0 H1. unfold PGROUNDUP. unfold PGSIZE in H1.
  rewrite u64_small by (unfold PGSIZE; lia). rewrite land_page_mask by (unfold PGSIZE; lia).
  pose proof (Z.div_mod (sz + PGSIZE - 1) PGSIZE ltac:(done)). lia.
Qed.
