(* ===== verification/Kalloc.v ===== *)
(** * Physical page allocator (kernel/kalloc.c)

    The free list is threaded through the free pages themselves: the first word
    of a free page points to the next one.  The rest of a page's contents is
    only ever filled with a junk byte here. *)

From S2P Require Import Prelude Layout.

Module Kalloc.

(** [word]: the first 8 bytes of each page ([struct run]'s [next] while the
    page is free); [fill]: the byte [memset] last filled the page with. *)
Record kmem : Type := {
  freelist : Z;
  word : gmap Z Z;
  fill : gmap Z Z;
}.

Definition rnext (k : kmem) (r : Z) : Z := default 0 (word k !! r).

Section Kalloc.

(** [end], set by the linker: the first address after the kernel. *)
Context (kend : Z).

Definition kfree (pa : Z) : M kmem unit :=
  if negb (pa mod PGSIZE =? 0) || (pa <? kend) || (PHYSTOP <=? pa)
  then panic "kfree"
  else modify (fun k =>
    {| freelist := pa;
       word := <[pa := freelist k]> (word k);
       fill := <[pa := 1]> (fill k) |}).

Definition kalloc : M kmem Z :=
  r <- gets freelist ;;
  (if r =? 0 then ret tt
   else modify (fun k =>
     {| freelist := rnext k r;
        word := <[r := 0x0505050505050505]> (word k);
        fill := <[r := 5]> (fill k) |})) ;;
  ret r.

(** The loop frees at most one page per [PGSIZE] bytes of the range. *)
Fixpoint freerange_loop (fuel : nat) (p pa_end : Z) : M kmem unit :=
  match fuel with
  | O => ret tt
  | S fuel =>
      if p + PGSIZE <=? pa_end then
        kfree p ;;
        freerange_loop fuel (p + PGSIZE) pa_end
      else ret tt
  end.

Definition freerange (pa_start pa_end : Z) : M kmem unit :=
  freerange_loop (S (Z.to_nat ((pa_end - pa_start) / PGSIZE))) (PGROUNDUP pa_start) pa_end.

Definition kinit : M kmem unit := freerange kend PHYSTOP.

(** ** The free list *)

(** [runs k p l]: following [next] from [p] visits exactly the pages [l]. *)
Fixpoint runs (k : kmem) (p : Z) (l : list Z) : Prop :=
  match l with
  | [] => p = 0
  | a :: l => p = a /\ runs k (rnext k a) l
  end.

(** A page the allocator may hand out. *)
Definition page_ok (p : Z) : Prop := p mod PGSIZE = 0 /\ kend <= p < PHYSTOP.

(** The allocator's free pages are [l], most recently freed first. *)
Record klist (k : kmem) (l : list Z) : Prop := {
  kl_runs : runs k (freelist k) l;
  kl_nodup : NoDup l;
  kl_ok : Forall page_ok l;
}.

Lemma runs_ext k k' p l :
  (forall a, a ∈ l -> rnext k' a = rnext k a) -> runs k p l -> runs k' p l.
Proof.
  revert p. induction l as [|a l IH]; intros p Hext; simpl; [done|].
  intros [-> Hr]. split; [done|]. rewrite Hext by set_solver.
  apply IH; [|done]. intros b Hb. apply Hext. set_solver.
Qed.

Hypothesis kend_pos : 0 < kend.

Lemma klist_det k l l' : klist k l -> klist k l' -> l = l'.
Proof.
  intros [Hr _ Hp] [Hr' _ Hp']. revert l' Hr' Hp'. generalize dependent (freelist k).
  induction l as [|a l IH]; intros p Hr [|a' l'] Hr' Hp'; cbn in Hr, Hr'; [done|..].
  - subst p. apply Forall_cons in Hp' as [[_ Ha] _]. destruct Hr' as [<- _]. lia.
  - subst p. apply Forall_cons in Hp as [[_ Ha] _]. destruct Hr as [<- _]. lia.
  - destruct Hr as [-> Hr], Hr' as [-> Hr']. apply Forall_cons in Hp as [_ Hp], Hp' as [_ Hp']. f_equal. by eapply IH.
Qed.

Lemma kalloc_nil k : klist k [] -> kalloc k = Ok 0 k.
Proof.
  intros [Hr _ _]. simpl in Hr. unfold kalloc, bind, gets. by rewrite Hr.
Qed.

Lemma kalloc_cons k p l :
  klist k (p :: l) -> wp kalloc (fun r k' => r = p /\ klist k' l) k.
Proof.
  intros [[Hp Hr] [Hpl Hnd]%NoDup_cons [Hok Hl]%Forall_cons].
  unfold kalloc. apply wp_bind, wp_gets. rewrite Hp.
  assert (p <> 0) by (destruct Hok; lia). destruct (Z.eqb_spec p 0); [done|].
  apply wp_bind, wp_modify, wp_ret. split; [done|]. split; [|done|done].
  apply (runs_ext k); [|done]. intros a Ha. unfold rnext. cbn [word].
  rewrite lookup_insert_ne by set_solver. done.
Qed.

Lemma kfree_ok k p l :
  klist k l -> page_ok p -> p ∉ l -> wp (kfree p) (fun _ k' => klist k' (p :: l)) k.
Proof.
  intros [Hr Hnd Hl] Hp Hpl. unfold kfree. assert (Hp' := Hp). destruct Hp' as [Hal Hrng].
  rewrite Hal. replace (p <? kend) with false by lia. replace (PHYSTOP <=? p) with false by lia.
  apply wp_modify. split; [|by apply NoDup_cons|by apply Forall_cons].
  split; [done|]. unfold rnext at 1. cbn [word]. rewrite lookup_insert_eq. cbn.
  apply (runs_ext k); [|done]. intros a Ha. unfold rnext. cbn [word].
  rewrite lookup_insert_ne by set_solver. done.
Qed.

Lemma kfree_bad k p : ~ page_ok p -> kfree p k = Stop (SPanic "kfree").
Proof.
  intros Hp. unfold kfree.
  destruct (negb (p mod PGSIZE =? 0) || (p <? kend) || (PHYSTOP <=? p)) eqn:E; [done|].
  exfalso. apply Hp. apply orb_false_elim in E as [[E1 E2]%orb_false_elim E3].
  apply negb_false_iff in E1. zify_bool. by split.
Qed.

(** ** Initialisation *)

(** The first page boundary at or after [a], and the whole pages of [a, b). *)
Definition page_up (a : Z) : Z := (a + PGSIZE - 1) / PGSIZE * PGSIZE.
Definition pages (a b : Z) : list Z :=
  (fun i => page_up a + i * PGSIZE) <$> seqZ 0 ((b - page_up a) / PGSIZE).

Lemma rev_pages_S p n (l : list Z) :
  rev ((fun i => p + i * PGSIZE) <$> seqZ 0 (Z.of_nat (S n))) ++ l =
  rev ((fun i => p + PGSIZE + i * PGSIZE) <$> seqZ 0 (Z.of_nat n)) ++ p :: l.
Proof.
  rewrite seqZ_cons by lia. rewrite fmap_cons. cbn [rev]. rewrite <-app_assoc.
  replace (Z.pred (Z.of_nat (S n))) with (Z.of_nat n) by lia.
  rewrite <-(fmap_add_seqZ 1 0), <-list_fmap_compose. f_equal; [f_equal|simpl; f_equal; lia].
  apply list_fmap_ext. intros j x _. cbn. lia.
Qed.

Lemma freerange_loop_list fuel p n k l :
  klist k l -> (forall i, 0 <= i < Z.of_nat n -> page_ok (p + i * PGSIZE) /\ p + i * PGSIZE ∉ l) ->
  (n < fuel)%nat -> p + Z.of_nat n * PGSIZE <= PHYSTOP < p + (Z.of_nat n + 1) * PGSIZE ->
  wp (freerange_loop fuel p PHYSTOP) (fun _ k' =>
    klist k' (rev ((fun i => p + i * PGSIZE) <$> seqZ 0 (Z.of_nat n)) ++ l)) k.
Proof.
  revert p k l fuel. induction n as [|n IH]; intros p k l [|fuel] Hk Hok Hf Hend; try lia;
    cbn [freerange_loop].
  - replace (p + PGSIZE <=? PHYSTOP) with false by (symmetry; lia). by apply wp_ret.
  - replace (p + PGSIZE <=? PHYSTOP) with true by (symmetry; unfold PGSIZE in *; lia).
    destruct (Hok 0) as [Hp0 Hn0]; [lia|]. rewrite Z.mul_0_l, Z.add_0_r in *.
    wp_use kfree_ok; [done..|]. intros _ k1 Hk1.
    wp_use (IH (p + PGSIZE) k1 (p :: l) fuel Hk1).
    + intros i Hi. destruct (Hok (i + 1)) as [H1 H2]; [lia|].
      replace (p + PGSIZE + i * PGSIZE) with (p + (i + 1) * PGSIZE) by lia.
      split; [done|]. apply not_elem_of_cons. split; [unfold PGSIZE; lia|done].
    + lia.
    + unfold PGSIZE in *; lia.
    + intros _ k2 Hk2. by rewrite rev_pages_S.
Qed.

Lemma elem_of_pages p :
  kend <= PHYSTOP -> p ∈ pages kend PHYSTOP <-> page_ok p.
Proof.
  intros Hle. unfold pages, page_ok. rewrite list_elem_of_fmap. setoid_rewrite elem_of_seqZ.
  unfold page_up. pose proof (Z.div_mod (kend + PGSIZE - 1) PGSIZE ltac:(done)) as Hdm.
  pose proof (Z.mod_pos_bound (kend + PGSIZE - 1) PGSIZE ltac:(done)) as Hmb.
  set (q := (kend + PGSIZE - 1) / PGSIZE) in *.
  assert (HP : PHYSTOP = 0x88000 * PGSIZE) by reflexivity. rewrite HP in *. split.
  - intros (i & -> & Hi). rewrite <-Z.mul_sub_distr_r, Z.div_mul in Hi by done.
    rewrite <-Z.mul_add_distr_r. split; [by rewrite Z.mod_mul|]. unfold PGSIZE in *; lia.
  - intros [Hal Hrng]. pose proof (Z.div_mod p PGSIZE ltac:(done)) as Hp. rewrite Hal in Hp.
    exists (p / PGSIZE - q). rewrite <-Z.mul_sub_distr_r, Z.div_mul by done.
    unfold PGSIZE in *. lia.
Qed.

Lemma kinit_list k :
  kend <= PHYSTOP -> klist k [] ->
  wp kinit (fun _ k' => klist k' (rev (pages kend PHYSTOP))) k.
Proof.
  intros Hle Hk. unfold kinit, freerange, pages. unfold PHYSTOP, KERNBASE in Hle.
  rewrite PGROUNDUP_spec by (unfold PGSIZE; lia). fold (page_up kend).
  assert (Hup : kend <= page_up kend < kend + PGSIZE).
  { unfold page_up. pose proof (Z.div_mod (kend + PGSIZE - 1) PGSIZE ltac:(done)).
    pose proof (Z.mod_pos_bound (kend + PGSIZE - 1) PGSIZE ltac:(done)). lia. }
  assert (HP : PHYSTOP = 0x88000 * PGSIZE) by reflexivity.
  assert (Hn : 0 <= (PHYSTOP - page_up kend) / PGSIZE).
  { rewrite HP. unfold page_up in *. rewrite <-Z.mul_sub_distr_r, Z.div_mul by done.
    unfold PGSIZE, PHYSTOP, KERNBASE in *; lia. }
  wp_use (freerange_loop_list _ (page_up kend)
    (Z.to_nat ((PHYSTOP - page_up kend) / PGSIZE)) k []); [done|..].
  - intros i Hi. split; [|set_solver]. rewrite Z2Nat.id in Hi by done.
    apply elem_of_pages; [done|]. unfold pages. apply list_elem_of_fmap.
    exists i. split; [done|]. apply elem_of_seqZ. lia.
  - assert ((PHYSTOP - page_up kend) / PGSIZE <= (PHYSTOP - kend) / PGSIZE)
      by (apply Z.div_le_mono; [done|lia]). lia.
  - rewrite Z2Nat.id by done.
    pose proof (Z.div_mod (PHYSTOP - page_up kend) PGSIZE ltac:(done)).
    pose proof (Z.mod_pos_bound (PHYSTOP - page_up kend) PGSIZE ltac:(done)). lia.
  - intros _ k'. by rewrite app_nil_r, Z2Nat.id.
Qed.

(** ** The allocator in use *)

(** The state of the allocator together with the pages its clients own. *)
Inductive kstep : kmem * gset Z -> kmem * gset Z -> Prop :=
| step_alloc k k' used p :
    kalloc k = Ok p k' -> p <> 0 -> kstep (k, used) (k', {[p]} ∪ used)
| step_alloc_fail k k' used :
    kalloc k = Ok 0 k' -> kstep (k, used) (k', used)
| step_free k k' used p :
    p ∈ used -> kfree p k = Ok tt k' -> kstep (k, used) (k', used ∖ {[p]}).

Definition kempty : kmem := {| freelist := 0; word := ∅; fill := ∅ |}.

Inductive kreach : kmem * gset Z -> Prop :=
| kreach_init k : kinit kempty = Ok tt k -> kreach (k, ∅)
| kreach_step x y : kreach x -> kstep x y -> kreach y.

(** Free and owned pages partition the pages of [kend, PHYSTOP). *)
Definition partition (k : kmem) (used : gset Z) : Prop :=
  exists l, klist k l /\ (forall p, p ∈ l -> p ∉ used) /\
            (forall p, page_ok p <-> p ∈ l \/ p ∈ used).

Lemma kstep_partition k used k' used' :
  partition k used -> kstep (k, used) (k', used') -> partition k' used'.
Proof.
  intros (l & Hl & Hdis & Hall) Hst.
  inversion Hst as [? ? ? p Hk Hp|? ? ? Hk|? ? ? p Hp Hk]; subst; clear Hst.
  - destruct l as [|a l]; [rewrite (kalloc_nil k Hl) in Hk; congruence|].
    pose proof (kalloc_cons k a l Hl) as Hw. unfold wp in Hw. rewrite Hk in Hw.
    destruct Hw as [-> Hl']. exists l. destruct Hl as [_ [Hal _]%NoDup_cons _].
    split_and!; [done|set_solver|]. intros p. rewrite Hall. set_solver.
  - destruct l as [|a l].
    + rewrite (kalloc_nil k Hl) in Hk. injection Hk as <-. by exists [].
    + pose proof (kalloc_cons k a l Hl) as Hw. unfold wp in Hw. rewrite Hk in Hw.
      destruct Hw as [<- _]. destruct Hl as [_ _ [[_ Ha] _]%Forall_cons]. lia.
  - assert (Hok : page_ok p) by (apply Hall; auto).
    assert (Hpl : p ∉ l) by (intros ?; by eapply Hdis).
    pose proof (kfree_ok k p l Hl Hok Hpl) as Hw. unfold wp in Hw. rewrite Hk in Hw.
    exists (p :: l). split_and!; [done|set_solver|]. intros q. rewrite Hall.
    destruct (decide (p = q)); set_solver.
Qed.

Lemma kreach_partition k used :
  kend <= PHYSTOP -> kreach (k, used) -> partition k used.
Proof.
  intros Hle Hr. remember (k, used) as x eqn:Hx. revert k used Hx.
  induction Hr as [k0 Hk0|x y Hx IH Hst]; intros k used Heq.
  - injection Heq as <- <-.
    assert (Hw := kinit_list kempty Hle). unfold wp in Hw. rewrite Hk0 in Hw.
    exists (rev (pages kend PHYSTOP)). split_and!.
    + apply Hw. split; [done|constructor|constructor].
    + set_solver.
    + intros p. rewrite <-Permutation_rev, elem_of_pages by done. set_solver.
  - subst y. destruct x as [k1 used1]. eapply kstep_partition; eauto.
Qed.

(** ** Properties *)

(** [kinit] puts every whole page between the end of the kernel
    and [PHYSTOP] on the free list, each exactly once. *)
Theorem kinit_frees_all_pages :
  kend <= PHYSTOP ->
  exists k l, kinit kempty = Ok tt k /\ klist k l /\ NoDup l /\
    (forall p, p ∈ l <-> p mod PGSIZE = 0 /\ kend <= p < PHYSTOP).
Proof.
  intros Hle. assert (Hw : wp kinit (fun _ k' => klist k' (rev (pages kend PHYSTOP))) kempty).
  { apply kinit_list; [done|]. split; [done|constructor|constructor]. }
  apply wp_elim in Hw as ([] & k & Hrun & Hk). exists k, (rev (pages kend PHYSTOP)).
  split_and!; [done|done|apply Hk|]. intros p. by rewrite <-Permutation_rev, elem_of_pages.
Qed.

(** Claim C37: in every state the kernel can reach by [kinit], [kalloc] and
    [kfree] of pages it owns, [kalloc] never hands out a page that is in use,
    fails only when every page is in use, and otherwise returns an aligned page
    of RAM. *)
Theorem kalloc_no_reuse (k : kmem) (used : gset Z) :
  kend <= PHYSTOP -> kreach (k, used) ->
  exists p k', kalloc k = Ok p k' /\
    ((p = 0 /\ (forall q, page_ok q -> q ∈ used)) \/
     (page_ok p /\ p ∉ used /\ kreach (k', {[p]} ∪ used))).
Proof.
  intros Hle Hr. destruct (kreach_partition k used Hle Hr) as (l & Hl & Hdis & Hall).
  destruct l as [|p l].
  - exists 0, k. split; [by apply kalloc_nil|]. left. split; [done|].
    intros q Hq%Hall. set_solver.
  - destruct (wp_elim _ _ _ (kalloc_cons k p l Hl)) as (r & k' & Hrun & -> & _).
    exists p, k'. split; [done|]. right. assert (Hok : page_ok p) by (apply Hall; set_solver).
    split_and!; [done|apply Hdis; set_solver|].
    eapply kreach_step; [done|]. apply step_alloc; [done|]. destruct Hok; lia.
Qed.

(** Freeing a page and allocating again returns that very page and
    restores the free list; freeing an address that is not a page of RAM
    panics. *)
Theorem kfree_kalloc (k : kmem) (l : list Z) (p : Z) :
  klist k l -> p ∉ l ->
  (page_ok p -> exists k1 k2, kfree p k = Ok tt k1 /\ kalloc k1 = Ok p k2 /\ klist k2 l) /\
  (~ page_ok p -> kfree p k = Stop (SPanic "kfree")).
Proof.
  intros Hl Hp. split; [|apply kfree_bad]. intros Hok.
  destruct (wp_elim _ _ _ (kfree_ok k p l Hl Hok Hp)) as ([] & k1 & H1 & Hl1).
  destruct (wp_elim _ _ _ (kalloc_cons k1 p l Hl1)) as (r & k2 & H2 & -> & Hl2). eauto.
Qed.

End Kalloc.

(** ** Witnesses: a kernel that ends four pages below the top of RAM *)

Definition kend4 : Z := PHYSTOP - 4 * PGSIZE.

Lemma kinit_frees_all_pages_witness :
  exists k l, kinit kend4 kempty = Ok tt k /\ klist kend4 k l /\ NoDup l /\
    (forall p, p ∈ l <-> p mod PGSIZE = 0 /\ kend4 <= p < PHYSTOP).
Proof. apply (kinit_frees_all_pages kend4); vm_compute; congruence. Defined.

Lemma kalloc_no_reuse_witness :
  exists k, kreach kend4 (k, ∅) /\ exists p k', kalloc k = Ok p k' /\
    ((p = 0 /\ (forall q, page_ok kend4 q -> q ∈ (∅ : gset Z))) \/
     (page_ok kend4 p /\ p ∉ (∅ : gset Z) /\ kreach kend4 (k', {[p]} ∪ ∅))).
Proof.
  eexists. assert (H : kreach kend4 (_, ∅)) by (apply kreach_init; vm_compute; reflexivity).
  split; [exact H|]. apply (kalloc_no_reuse kend4); [by vm_compute|by vm_compute|exact H].
Defined.

Lemma kfree_kalloc_witness :
  (page_ok kend4 kend4 -> exists k1 k2, kfree kend4 kend4 kempty = Ok tt k1 /\
     kalloc k1 = Ok kend4 k2 /\ klist kend4 k2 []) /\
  (~ page_ok kend4 kend4 -> kfree kend4 kend4 kempty = Stop (SPanic "kfree")).
Proof.
  apply kfree_kalloc; [by vm_compute| |apply not_elem_of_nil].
  split; [reflexivity|constructor|constructor].
Defined.

End Kalloc.
