(* ===== verification/BlockCache.v ===== *)
(** * The block-cache interface

    What [kernel/fs/xv6fs/bio.c] promises to [fs.c]: the operations as a class
    ([BlockCache]) and their laws ([BlockCacheLaws]), stated on two views of
    the cache, the disk contents and the buffers the caller holds.  [fs.c] is
    modelled and verified against these classes; [Bio.v] discharges them. *)

From S2P Require Import Prelude.

(** [struct buf]'s [data], and a disk sector group: [BSIZE] bytes. *)
Definition BSIZE : Z := 1024.
Definition NBUF : nat := 30.

Notation block := (list Z).
Definition zero_block : block := replicate (Z.to_nat BSIZE) 0.
Definition block_ok (d : block) : Prop :=
  length d = Z.to_nat BSIZE /\ Forall byte_ok d.

(** Blocks that were never written read as zeroes. *)
Definition dblk (D : gmap Z block) (b : Z) : block := default zero_block (D !! b).
Definition disk_ok (D : gmap Z block) : Prop := forall b, block_ok (dblk D b).

Lemma zero_block_ok : block_ok zero_block.
Proof.
  unfold zero_block. split; [by rewrite length_replicate|].
  apply Forall_replicate. unfold byte_ok; lia.
Qed.

Lemma dblk_insert_eq D b d : dblk (<[b:=d]> D) b = d.
Proof. unfold dblk. by rewrite lookup_insert_eq. Qed.

Lemma dblk_insert_ne D b b' d : b <> b' -> dblk (<[b:=d]> D) b' = dblk D b'.
Proof. intros. unfold dblk. by rewrite lookup_insert_ne. Qed.

Lemma disk_ok_insert D b d : disk_ok D -> block_ok d -> disk_ok (<[b:=d]> D).
Proof.
  intros HD Hd b'. destruct (decide (b = b')) as [<-|].
  - by rewrite dblk_insert_eq.
  - by rewrite dblk_insert_ne.
Qed.

Lemma block_ok_splice off new d :
  block_ok d -> Forall byte_ok new -> (off + length new <= Z.to_nat BSIZE)%nat ->
  block_ok (splice off new d).
Proof.
  intros [Hl Hb] Hn Ho. split.
  - rewrite splice_length; lia.
  - by apply splice_Forall.
Qed.

Lemma disk_ok_empty : disk_ok ∅.
Proof. intros b. unfold dblk. rewrite lookup_empty. apply zero_block_ok. Qed.

#[export] Hint Resolve zero_block_ok disk_ok_insert disk_ok_empty : kernel.

(** Device number of the root disk; the only one the file system uses. *)
Definition ROOTDEV : Z := 1.

Class BlockCache (C : Type) : Type := {
  bread : Z -> Z -> M C nat;         (** returns the index of a locked buffer *)
  bdata : nat -> M C block;          (** read [b->data] *)
  bset : nat -> block -> M C unit;   (** overwrite [b->data] *)
  bwrite : nat -> M C unit;
  brelse : nat -> M C unit;
}.

Class BlockCacheLaws (C : Type) `{BlockCache C} : Type := {
  bc_inv : C -> Prop;
  bc_disk : C -> gmap Z block;
  bc_held : C -> gmap nat (Z * block);
  bc_disk_ok : forall c, bc_inv c -> disk_ok (bc_disk c);
  bc_held_ok : forall c h b d,
    bc_inv c -> bc_held c !! h = Some (b, d) -> block_ok d;
  bc_held_inj : forall c h h' b d d',
    bc_inv c -> bc_held c !! h = Some (b, d) -> bc_held c !! h' = Some (b, d') -> h = h';
  bread_law : forall c b,
    bc_inv c ->
    (forall h b' d, bc_held c !! h = Some (b', d) -> b' <> b) ->
    (size (bc_held c) < NBUF)%nat ->
    wp (bread ROOTDEV b) (fun h c' =>
      bc_inv c' /\ bc_disk c' = bc_disk c /\ bc_held c !! h = None /\
      bc_held c' = <[h := (b, dblk (bc_disk c) b)]> (bc_held c)) c;
  bdata_law : forall c h b d,
    bc_inv c -> bc_held c !! h = Some (b, d) ->
    bdata h c = Ok d c;
  bset_law : forall c h b d d',
    bc_inv c -> bc_held c !! h = Some (b, d) -> block_ok d' ->
    wp (bset h d') (fun _ c' =>
      bc_inv c' /\ bc_disk c' = bc_disk c /\
      bc_held c' = <[h := (b, d')]> (bc_held c)) c;
  bwrite_law : forall c h b d,
    bc_inv c -> bc_held c !! h = Some (b, d) ->
    wp (bwrite h) (fun _ c' =>
      bc_inv c' /\ bc_disk c' = <[b := d]> (bc_disk c) /\
      bc_held c' = bc_held c) c;
  brelse_law : forall c h b d,
    bc_inv c -> bc_held c !! h = Some (b, d) -> dblk (bc_disk c) b = d ->
    wp (brelse h) (fun _ c' =>
      bc_inv c' /\ bc_disk c' = bc_disk c /\
      bc_held c' = delete h (bc_held c)) c;
}.

(** ** Derived rules: read a block, and write one back *)

Section derived.
Context {C : Type} `{BlockCacheLaws C}.

(** Nobody holds a buffer of block [b]. *)
Definition unheld (c : C) (b : Z) : Prop :=
  forall h b' d, bc_held c !! h = Some (b', d) -> b' <> b.

(** At least [n] buffers can still be taken. *)
Definition room (n : nat) (c : C) : Prop := (size (bc_held c) + n <= NBUF)%nat.

Lemma wp_read {A} b (k : nat -> block -> M C A) (Q : A -> C -> Prop) c :
  bc_inv c -> unheld c b -> room 1 c ->
  (forall h c1, bc_inv c1 -> bc_disk c1 = bc_disk c -> bc_held c !! h = None ->
     bc_held c1 = <[h := (b, dblk (bc_disk c) b)]> (bc_held c) ->
     wp (k h (dblk (bc_disk c) b)) Q c1) ->
  wp (bp <- bread ROOTDEV b ;; d <- bdata bp ;; k bp d) Q c.
Proof.
  intros HI Hu Hr Hk. wp_use bread_law; [done|done|unfold room in Hr; lia|].
  intros h c1 (HI1 & HD1 & Hn & Hh1). apply wp_bind.
  eapply wp_run; [eapply bdata_law; [done|rewrite Hh1; apply lookup_insert_eq]|]. auto.
Qed.

Lemma wp_release h b d (Q : unit -> C -> Prop) c :
  bc_inv c -> bc_held c !! h = Some (b, d) -> dblk (bc_disk c) b = d ->
  (forall c1, bc_inv c1 -> bc_disk c1 = bc_disk c ->
     bc_held c1 = delete h (bc_held c) -> Q tt c1) ->
  wp (brelse h) Q c.
Proof.
  intros HI Hh Hd Hk. wp_use brelse_law; [done..|].
  intros [] c1 (HI1 & HD1 & Hh1). auto.
Qed.

Lemma wp_commit h b d d' (Q : unit -> C -> Prop) c :
  bc_inv c -> bc_held c !! h = Some (b, d) -> block_ok d' ->
  (forall c1, bc_inv c1 -> bc_disk c1 = <[b := d']> (bc_disk c) ->
     bc_held c1 = delete h (bc_held c) -> Q tt c1) ->
  wp (bset h d' ;; bwrite h ;; brelse h) Q c.
Proof.
  intros HI Hh Hd Hk. wp_use bset_law; [done..|]. intros _ c1 (HI1 & HD1 & Hh1).
  wp_use bwrite_law; [done|rewrite Hh1; apply lookup_insert_eq|].
  intros _ c2 (HI2 & HD2 & Hh2).
  eapply wp_release; [done|rewrite Hh2, Hh1; apply lookup_insert_eq| |].
  - by rewrite HD2, dblk_insert_eq.
  - intros c3 HI3 HD3 Hh3. apply Hk; [done|congruence|].
    rewrite Hh3, Hh2, Hh1. by rewrite delete_insert_eq.
Qed.

Lemma wp_write_release h b d (Q : unit -> C -> Prop) c :
  bc_inv c -> bc_held c !! h = Some (b, d) ->
  (forall c1, bc_inv c1 -> bc_disk c1 = <[b := d]> (bc_disk c) ->
     bc_held c1 = delete h (bc_held c) -> Q tt c1) ->
  wp (bwrite h ;; brelse h) Q c.
Proof.
  intros HI Hh Hk. wp_use bwrite_law; [done..|]. intros _ c1 (HI1 & HD1 & Hh1).
  eapply wp_release; [done|by rewrite Hh1| |].
  - by rewrite HD1, dblk_insert_eq.
  - intros c2 HI2 HD2 Hh2. apply Hk; [done|congruence|congruence].
Qed.

Lemma room_mono n m c : (m <= n)%nat -> room n c -> room m c.
Proof. unfold room. lia. Qed.

Lemma room_insert n (c c1 : C) h v :
  bc_held c !! h = None -> bc_held c1 = <[h := v]> (bc_held c) -> room (S n) c -> room n c1.
Proof. unfold room. intros Hn ->. rewrite map_size_insert_None by done. lia. Qed.

Lemma unheld_insert (c c1 : C) h b d b' :
  bc_held c1 = <[h := (b, d)]> (bc_held c) -> unheld c b' -> b <> b' -> unheld c1 b'.
Proof.
  unfold unheld. intros -> Hu Hne k b2 d2 [[_ [= <- <-]]|[_ Hk]]%lookup_insert_Some; eauto.
Qed.

Lemma unheld_same (c c1 : C) b : bc_held c1 = bc_held c -> unheld c b -> unheld c1 b.
Proof. unfold unheld. by intros ->. Qed.

Lemma room_same n (c c1 : C) : bc_held c1 = bc_held c -> room n c -> room n c1.
Proof. unfold room. by intros ->. Qed.

(** The buffers taken in between are all released again. *)
Lemma held_restore (c : C) (h : nat) v :
  bc_held c !! h = None -> delete h (<[h := v]> (bc_held c)) = bc_held c.
Proof. intros. by rewrite delete_insert_id. Qed.

End derived.
