(* ===== verification/Bio.v ===== *)
(** * Buffer cache (kernel/fs/xv6fs/bio.c)

    The cache as the code has it: an array of [NBUF] buffers and the list head,
    threaded on a doubly linked list through [prev]/[next] indices, over a disk
    that [virtio_disk_rw] reads and writes a block at a time.  The module ends
    with the instance of the [BlockCache] interface. *)

From S2P Require Import Prelude Sleeplock BlockCache.

Module Bio.

(** ** State *)

Record buf : Type := {
  valid : Z;
  dev : Z;
  blockno : Z;
  lock : sleeplock;
  refcnt : Z;
  prev : nat;
  next : nat;
  data : block;
}.

(** Index of [bcache.head] in the array of nodes, and the null pointer. *)
Definition head : nat := NBUF.
Definition null : nat := S NBUF.

(** Static storage starts out zeroed. *)
Definition buf0 : buf := {|
  valid := 0; dev := 0; blockno := 0; lock := initsleeplock; refcnt := 0;
  prev := null; next := null; data := zero_block |}.

#[global] Instance buf_inhabited : Inhabited buf := populate buf0.

(** [nodes]: [bcache.buf] followed by [bcache.head]; [cpid]: the pid of the
    running process. *)
Record bio : Type := {
  nodes : list buf;
  disk : gmap Z block;
  cpid : Z;
}.

Definition nd (s : bio) (i : nat) : buf := nodes s !!! i.

Definition set_valid v b := {| valid := v; dev := dev b; blockno := blockno b;
  lock := lock b; refcnt := refcnt b; prev := prev b; next := next b; data := data b |}.
Definition set_lock v b := {| valid := valid b; dev := dev b; blockno := blockno b;
  lock := v; refcnt := refcnt b; prev := prev b; next := next b; data := data b |}.
Definition set_refcnt v b := {| valid := valid b; dev := dev b; blockno := blockno b;
  lock := lock b; refcnt := v; prev := prev b; next := next b; data := data b |}.
Definition set_prev v b := {| valid := valid b; dev := dev b; blockno := blockno b;
  lock := lock b; refcnt := refcnt b; prev := v; next := next b; data := data b |}.
Definition set_next v b := {| valid := valid b; dev := dev b; blockno := blockno b;
  lock := lock b; refcnt := refcnt b; prev := prev b; next := v; data := data b |}.
Definition set_data v b := {| valid := valid b; dev := dev b; blockno := blockno b;
  lock := lock b; refcnt := refcnt b; prev := prev b; next := next b; data := v |}.

Definition upd (i : nat) (f : buf -> buf) (s : bio) : bio :=
  {| nodes := alter f i (nodes s); disk := disk s; cpid := cpid s |}.

Definition set_disk (D : gmap Z block) (s : bio) : bio :=
  {| nodes := nodes s; disk := D; cpid := cpid s |}.

(** ** Initialisation *)

Definition bss (D : gmap Z block) (pid : Z) : bio :=
  {| nodes := replicate (S NBUF) buf0; disk := D; cpid := pid |}.

(** Push buffer [b] right behind the list head. *)
Definition link_front (b : nat) (s : bio) : bio :=
  let s := upd b (set_next (next (nd s head))) s in
  let s := upd b (set_prev head) s in
  let s := upd (next (nd s head)) (set_prev b) s in
  upd head (set_next b) s.

Definition binit_one (s : bio) (b : nat) : bio :=
  let s := upd b (set_next (next (nd s head))) s in
  let s := upd b (set_prev head) s in
  let s := upd b (set_lock initsleeplock) s in
  let s := upd (next (nd s head)) (set_prev b) s in
  upd head (set_next b) s.

Definition binit (s : bio) : bio :=
  let s := upd head (set_prev head) s in
  let s := upd head (set_next head) s in
  foldl binit_one s (seq 0 NBUF).

(** ** Operations *)

(** A walk along the list from [i] through [nx] up to the head, looking for
    the first buffer that satisfies [P].  The list has [NBUF] buffers, so a
    fuel of [S NBUF] is enough. *)
Fixpoint scan (fuel : nat) (nx : nat -> nat) (P : nat -> bool) (i : nat) : option nat :=
  match fuel with
  | O => None
  | S fuel =>
      if Nat.eqb i head then None
      else if P i then Some i
      else scan fuel nx P (nx i)
  end.

(** Take [b->lock]. *)
Definition lock_buf (b : nat) : M bio unit :=
  s <- get ;;
  match acquiresleep (cpid s) (lock (nd s b)) with
  | Some lk => modify (upd b (set_lock lk))
  | None => halt (SBlock "buffer")
  end.

Definition recycle (d bno : Z) (b : buf) : buf := {|
  valid := 0; dev := d; blockno := bno; lock := lock b; refcnt := 1;
  prev := prev b; next := next b; data := data b |}.

Definition bget (d bno : Z) : M bio nat :=
  s <- get ;;
  (* Is the block already cached? *)
  match scan (S NBUF) (fun i => next (nd s i))
             (fun i => (dev (nd s i) =? d) && (blockno (nd s i) =? bno))
             (next (nd s head)) with
  | Some b =>
      modify (upd b (fun x => set_refcnt (u32 (refcnt x + 1)) x)) ;;
      lock_buf b ;;
      ret b
  | None =>
      (* Recycle the least recently used (LRU) unused buffer. *)
      match scan (S NBUF) (fun i => prev (nd s i))
                 (fun i => refcnt (nd s i) =? 0)
                 (prev (nd s head)) with
      | Some b =>
          modify (upd b (recycle d bno)) ;;
          lock_buf b ;;
          ret b
      | None => panic "bget: no buffers"
      end
  end.

(** One completed disk transfer; the driver addresses the disk by [blockno]. *)
Definition virtio_disk_rw (b : nat) (write : bool) : M bio unit :=
  s <- get ;;
  if write then
    modify (set_disk (<[blockno (nd s b) := data (nd s b)]> (disk s)))
  else
    modify (upd b (set_data (dblk (disk s) (blockno (nd s b))))).

Definition bread (d bno : Z) : M bio nat :=
  b <- bget d bno ;;
  v <- gets (fun s => valid (nd s b)) ;;
  (if v =? 0 then
     virtio_disk_rw b false ;;
     modify (upd b (set_valid 1))
   else ret tt) ;;
  ret b.

Definition bwrite (b : nat) : M bio unit :=
  s <- get ;;
  if negb (holdingsleep (cpid s) (lock (nd s b))) then panic "bwrite"
  else virtio_disk_rw b true.

(** Unlink [b] and push it behind the head. *)
Definition move_front (b : nat) (s : bio) : bio :=
  let s := upd (next (nd s b)) (set_prev (prev (nd s b))) s in
  let s := upd (prev (nd s b)) (set_next (next (nd s b))) s in
  link_front b s.

Definition brelse (b : nat) : M bio unit :=
  s <- get ;;
  if negb (holdingsleep (cpid s) (lock (nd s b))) then panic "brelse"
  else
    modify (upd b (set_lock (releasesleep (lock (nd s b))))) ;;
    modify (upd b (fun x => set_refcnt (u32 (refcnt x - 1)) x)) ;;
    r <- gets (fun s => refcnt (nd s b)) ;;
    if r =? 0 then modify (move_front b) else ret tt.

Definition bpin (b : nat) : M bio unit :=
  modify (upd b (fun x => set_refcnt (u32 (refcnt x + 1)) x)).

Definition bunpin (b : nat) : M bio unit :=
  modify (upd b (fun x => set_refcnt (u32 (refcnt x - 1)) x)).

(** The holder's reads and writes of [b->data]. *)
Definition bdata (b : nat) : M bio block := gets (fun s => data (nd s b)).
Definition bset (b : nat) (d : block) : M bio unit := modify (upd b (set_data d)).

#[global] Instance bio_cache : BlockCache bio := {|
  BlockCache.bread := bread;
  BlockCache.bdata := bdata;
  BlockCache.bset := bset;
  BlockCache.bwrite := bwrite;
  BlockCache.brelse := brelse;
|}.

(** ** The linked list as a list *)

(** [chain nx x l y]: following [nx] from [x] visits [l] and arrives at [y]. *)
Fixpoint chain (nx : nat -> nat) (x : nat) (l : list nat) (y : nat) : Prop :=
  match l with
  | [] => nx x = y
  | a :: l => nx x = a /\ chain nx a l y
  end.

Definition nexts (s : bio) (i : nat) : nat := next (nd s i).
Definition prevs (s : bio) (i : nat) : nat := prev (nd s i).

(** The doubly linked list holds [order], most recently used first. *)
Definition linked (s : bio) (order : list nat) : Prop :=
  chain (nexts s) head order head /\ chain (prevs s) head (rev order) head.

Definition all_bufs : list nat := seq 0 NBUF.

(** The buffers from most to least recently used, by walking the list. *)
Fixpoint walk (fuel : nat) (nx : nat -> nat) (i : nat) : list nat :=
  match fuel with
  | O => []
  | S fuel => if Nat.eqb i head then [] else i :: walk fuel nx (nx i)
  end.
Definition lru_order (s : bio) : list nat := walk (S NBUF) (nexts s) (nexts s head).

(** *** Chains *)

Lemma chain_ext nx nx' x l y :
  (forall z, z ∈ x :: l -> nx z = nx' z) -> chain nx x l y -> chain nx' x l y.
Proof.
  revert x. induction l as [|a l IH]; intros x Hext; simpl.
  - intros <-. symmetry. apply Hext. set_solver.
  - intros [<- Hc]. split; [symmetry; apply Hext; set_solver|].
    apply IH; [|done]. intros z Hz. apply Hext. set_solver.
Qed.

Lemma chain_app nx x l1 a l2 y :
  chain nx x (l1 ++ a :: l2) y <-> chain nx x l1 a /\ chain nx a l2 y.
Proof.
  revert x. induction l1 as [|c l1 IH]; intros x; simpl; [done|].
  rewrite IH. tauto.
Qed.

(** Redirecting the last pointer of a chain. *)
Lemma chain_retarget nx nx' x l y y' :
  NoDup (x :: l) ->
  (forall z, z ∈ x :: l -> Some z <> last (x :: l) -> nx' z = nx z) ->
  (forall z, last (x :: l) = Some z -> nx' z = y') ->
  chain nx x l y -> chain nx' x l y'.
Proof.
  revert x. induction l as [|a l IH]; intros x Hnd Hext Hlast; simpl; [naive_solver|].
  intros [<- Hc]. apply NoDup_cons in Hnd as [Hx Hnd]. split.
  - apply Hext; [set_solver|]. simpl. intros Heq. apply Hx.
    apply last_Some_elem_of. by rewrite <-Heq.
  - apply (IH _ Hnd); [|by intros; apply Hlast|done].
    intros z Hz Hne. apply Hext; [set_solver|done].
Qed.

Lemma scan_chain nx P l x fuel :
  chain nx x l head -> head ∉ l -> (length l < fuel)%nat ->
  scan fuel nx P (nx x) = List.find P l.
Proof.
  revert x fuel. induction l as [|a l IH]; intros x [|fuel] Hc Hh Hf; simpl in *; try lia.
  - by rewrite Hc, Nat.eqb_refl.
  - destruct Hc as [-> Hc]. assert (a <> head) by set_solver.
    destruct (Nat.eqb_spec a head); [done|]. destruct (P a); [done|].
    apply IH; [done|set_solver|lia].
Qed.

Lemma walk_chain nx l x fuel :
  chain nx x l head -> head ∉ l -> (length l < fuel)%nat ->
  walk fuel nx (nx x) = l.
Proof.
  revert x fuel. induction l as [|a l IH]; intros x [|fuel] Hc Hh Hf; simpl in *; try lia.
  - by rewrite Hc, Nat.eqb_refl.
  - destruct Hc as [-> Hc]. assert (a <> head) by set_solver.
    destruct (Nat.eqb_spec a head); [done|]. f_equal.
    apply IH; [done|set_solver|lia].
Qed.

Lemma chain_hd nx x l y : chain nx x l y -> nx x = hd y l.
Proof. destruct l; naive_solver. Qed.

Lemma hd_rev_last (l : list nat) d : Some (hd d (rev l)) = last (d :: l).
Proof.
  destruct l as [|x l _] using rev_ind; [done|].
  rewrite rev_app_distr. simpl. change (d :: l ++ [x]) with ((d :: l) ++ [x]).
  by rewrite last_snoc.
Qed.

(** Taking [b] out of a circular chain. *)
Lemma chain_unlink nx nx' h l1 b l2 p :
  NoDup (h :: l1 ++ b :: l2) -> chain nx h (l1 ++ b :: l2) h ->
  last (h :: l1) = Some p -> nx' p = nx b ->
  (forall z, z <> p -> nx' z = nx z) ->
  chain nx' h (l1 ++ l2) h.
Proof.
  intros Hnd [Hc1 Hc2]%chain_app Hp Hnx Hext.
  assert (Hp1 : p ∈ h :: l1) by by apply last_Some_elem_of.
  assert (Hc1' : chain nx' h l1 (nx b)).
  { apply (chain_retarget nx nx' h l1 b); try done; [| |congruence].
    - change (h :: l1 ++ b :: l2) with ((h :: l1) ++ b :: l2) in Hnd.
      by apply NoDup_app in Hnd as [? _].
    - intros z _ Hz. apply Hext. congruence. }
  destruct l2 as [|c l2]; simpl in *.
  - rewrite app_nil_r. by rewrite Hc2 in Hc1'.
  - destruct Hc2 as [Hc Hc2]. apply chain_app. rewrite <-Hc. split; [done|].
    rewrite Hc. apply (chain_ext nx); [|done]. intros z Hz. symmetry. apply Hext.
    change (h :: l1 ++ b :: c :: l2) with ((h :: l1) ++ b :: c :: l2) in Hnd.
    apply NoDup_app in Hnd as (_ & Hdis & _). intros ->.
    apply (Hdis p Hp1). set_solver.
Qed.

(** Inserting [b] right behind [h], forwards and backwards. *)
Lemma chain_front nx nx' h l b :
  NoDup (h :: b :: l) -> chain nx h l h ->
  nx' h = b -> nx' b = nx h -> (forall z, z <> h -> z <> b -> nx' z = nx z) ->
  chain nx' h (b :: l) h.
Proof.
  rewrite !NoDup_cons. intros (Hh & Hb & _) Hc Hxh Hxb Hext. simpl. split; [done|].
  destruct l as [|a l]; simpl in *; [congruence|]. destruct Hc as [<- Hc].
  split; [done|]. apply (chain_ext nx); [|done].
  intros z Hz. symmetry. apply Hext; set_solver.
Qed.

Lemma chain_back nx nx' h l b q :
  NoDup (h :: b :: l) -> chain nx h (rev l) h ->
  hd h l = q -> nx' q = b -> nx' b = h ->
  (forall z, z <> q -> z <> b -> nx' z = nx z) ->
  chain nx' h (rev (b :: l)) h.
Proof.
  intros Hnd Hc Hq Hxq Hxb Hext. simpl. apply chain_app. split; [|done].
  assert (Hq' : last (h :: rev l) = Some q).
  { rewrite <-hd_rev_last, rev_involutive. congruence. }
  apply NoDup_cons in Hnd as [Hh [Hb Hnd]%NoDup_cons].
  apply (chain_retarget nx nx' h (rev l) h).
  - apply NoDup_cons. rewrite <-!(Permutation_rev l). set_solver.
  - intros z Hz Hne. apply Hext; [congruence|]. intros ->.
    rewrite <-(Permutation_rev l) in Hz. set_solver.
  - intros z Hz. congruence.
  - done.
Qed.

(** *** Reading after a node update *)

Definition sized (s : bio) : Prop := length (nodes s) = S NBUF.

Lemma nd_upd s i f j :
  sized s -> (i <= NBUF)%nat ->
  nd (upd i f s) j = if decide (i = j) then f (nd s i) else nd s j.
Proof.
  unfold sized, nd, upd. intros Hs Hi. cbn [nodes].
  case_decide as Hij; [subst; apply list_lookup_total_alter_eq; lia|].
  by apply list_lookup_total_alter_ne.
Qed.

Lemma nd_upd_eq s i f : sized s -> (i <= NBUF)%nat -> nd (upd i f s) i = f (nd s i).
Proof. intros. rewrite nd_upd by done. by rewrite decide_True. Qed.

Lemma nd_upd_ne s i f j : i <> j -> nd (upd i f s) j = nd s j.
Proof. intros. unfold nd, upd. cbn [nodes]. by apply list_lookup_total_alter_ne. Qed.

Lemma sized_upd s i f : sized s -> sized (upd i f s).
Proof. unfold sized, upd. cbn [nodes]. by rewrite length_alter. Qed.

#[local] Hint Resolve sized_upd : core.

Lemma nexts_set_next s i v j :
  sized s -> (i <= NBUF)%nat ->
  nexts (upd i (set_next v) s) j = if decide (i = j) then v else nexts s j.
Proof. intros. unfold nexts. rewrite nd_upd by done. by case_decide. Qed.

Lemma prevs_set_prev s i v j :
  sized s -> (i <= NBUF)%nat ->
  prevs (upd i (set_prev v) s) j = if decide (i = j) then v else prevs s j.
Proof. intros. unfold prevs. rewrite nd_upd by done. by case_decide. Qed.

Lemma nexts_upd s i f j :
  sized s -> (i <= NBUF)%nat -> (forall b, next (f b) = next b) ->
  nexts (upd i f s) j = nexts s j.
Proof.
  intros ?? Hf. unfold nexts. rewrite nd_upd by done. case_decide; [|done].
  subst. apply Hf.
Qed.

Lemma prevs_upd s i f j :
  sized s -> (i <= NBUF)%nat -> (forall b, prev (f b) = prev b) ->
  prevs (upd i f s) j = prevs s j.
Proof.
  intros ?? Hf. unfold prevs. rewrite nd_upd by done. case_decide; [|done].
  subst. apply Hf.
Qed.

Lemma linked_upd s i f order :
  sized s -> (i <= NBUF)%nat ->
  (forall b, next (f b) = next b) -> (forall b, prev (f b) = prev b) ->
  linked s order -> linked (upd i f s) order.
Proof.
  intros Hs Hi Hn Hp [H1 H2].
  split; [eapply chain_ext, H1 | eapply chain_ext, H2]; intros z _;
    symmetry; auto using nexts_upd, prevs_upd.
Qed.

(** An order of the buffers is a duplicate-free enumeration without the head. *)
Lemma order_facts order :
  order ≡ₚ all_bufs ->
  NoDup (head :: order) /\ (forall x, x ∈ order <-> (x < NBUF)%nat) /\
  length order = NBUF.
Proof.
  intros Ho. assert (Hin : forall x, x ∈ order <-> (x < NBUF)%nat).
  { intros x. rewrite Ho. unfold all_bufs. rewrite elem_of_seq. lia. }
  split_and!; [|done|].
  - apply NoDup_cons. split; [rewrite Hin; unfold head; lia|].
    rewrite Ho. apply NoDup_seq.
  - rewrite Ho. apply length_seq.
Qed.

Lemma linked_link_front s b l :
  sized s -> (b < NBUF)%nat -> NoDup (head :: b :: l) ->
  Forall (fun x => (x < NBUF)%nat) l ->
  linked s l -> linked (link_front b s) (b :: l).
Proof.
  intros Hs Hb Hnd Hl [Hn Hp].
  assert (head <> b) by (unfold head; lia).
  assert (Hq : nexts s head = hd head l) by by apply chain_hd in Hn.
  assert (Hqb : nexts s head <> b /\ (nexts s head <= NBUF)%nat).
  { rewrite Hq. destruct l as [|a l]; simpl; [unfold head; lia|].
    apply Forall_cons in Hl as [? _]. split; [|lia].
    apply NoDup_cons in Hnd as [_ [Hnd _]%NoDup_cons]. set_solver. }
  unfold link_front.
  set (s1 := upd b (set_next _) s). set (s2 := upd b (set_prev head) s1).
  assert (Hs1 : sized s1) by by apply sized_upd.
  assert (Hs2 : sized s2) by by apply sized_upd.
  assert (Hn2 : next (nd s2 head) = nexts s head).
  { unfold s2, s1. rewrite !nd_upd by (auto; lia). by rewrite !decide_False. }
  rewrite Hn2.
  assert (Hq0 : (nexts s head <= NBUF)%nat) by tauto.
  assert (Hb0 : (b <= NBUF)%nat) by lia.
  assert (Hh0 : (head <= NBUF)%nat) by (unfold head; lia).
  assert (HN : forall z,
    nexts (upd head (set_next b) (upd (nexts s head) (set_prev b) s2)) z =
    if decide (head = z) then b else if decide (b = z) then nexts s head else nexts s z).
  { intros z. rewrite nexts_set_next by auto. case_decide; [done|].
    rewrite nexts_upd by auto. unfold s2. rewrite nexts_upd by auto.
    unfold s1. by rewrite nexts_set_next by auto. }
  assert (HP : forall z,
    prevs (upd head (set_next b) (upd (nexts s head) (set_prev b) s2)) z =
    if decide (nexts s head = z) then b else if decide (b = z) then head else prevs s z).
  { intros z. rewrite prevs_upd by auto.
    rewrite prevs_set_prev by auto. case_decide; [done|].
    unfold s2. rewrite prevs_set_prev by auto. case_decide; [done|].
    unfold s1. by rewrite prevs_upd by auto. }
  split.
  - apply (chain_front (nexts s)); try done.
    + by rewrite HN, decide_False, decide_True by done.
    + intros z ??. by rewrite HN, !decide_False by congruence.
  - apply (chain_back (prevs s) _ _ _ _ (nexts s head)); try done.
    + by rewrite HP, decide_True.
    + rewrite HP, decide_False, decide_True by tauto. done.
    + intros z ??. by rewrite HP, !decide_False by congruence.
Qed.

(** The neighbours of [b] in the list. *)
Lemma linked_neighbours s l1 b l2 :
  linked s (l1 ++ b :: l2) ->
  Some (prevs s b) = last (head :: l1) /\ nexts s b = hd head l2.
Proof.
  intros [[_ Hn]%chain_app Hp]. split; [|by apply chain_hd].
  rewrite rev_app_distr in Hp. simpl in Hp. rewrite <-app_assoc in Hp.
  apply chain_app in Hp as [_ Hp]. apply chain_hd in Hp. rewrite Hp.
  apply hd_rev_last.
Qed.

Lemma linked_unlink s b l1 l2 :
  sized s -> l1 ++ b :: l2 ≡ₚ all_bufs -> linked s (l1 ++ b :: l2) ->
  linked (upd (prevs s b) (set_next (nexts s b))
           (upd (nexts s b) (set_prev (prevs s b)) s)) (l1 ++ l2).
Proof.
  intros Hs Hord Hl. destruct (order_facts _ Hord) as (Hnd & Hin & _).
  destruct (linked_neighbours _ _ _ _ Hl) as [Hp Hn]. destruct Hl as [Hc Hc'].
  assert (Hpb : (prevs s b <= NBUF)%nat).
  { symmetry in Hp. apply last_Some_elem_of, elem_of_cons in Hp as [->|Hp];
      [unfold head; lia|]. apply Nat.lt_le_incl, Hin. set_solver. }
  assert (Hnb : (nexts s b <= NBUF)%nat).
  { rewrite Hn. destruct l2 as [|a l2]; simpl; [unfold head; lia|].
    apply Nat.lt_le_incl, Hin. set_solver. }
  split.
  - apply (chain_unlink (nexts s) _ head l1 b l2 (prevs s b)); try done.
    + by rewrite nexts_set_next, decide_True by auto.
    + intros z Hz. rewrite nexts_set_next, decide_False by auto.
      by apply nexts_upd.
  - rewrite rev_app_distr.
    apply (chain_unlink (prevs s) _ head (rev l2) b (rev l1) (nexts s b)).
    + replace (rev l2 ++ b :: rev l1) with (rev (l1 ++ b :: l2)).
      { apply NoDup_cons in Hnd. apply NoDup_cons. by rewrite <-!Permutation_rev. }
      rewrite rev_app_distr. simpl. by rewrite <-app_assoc.
    + rewrite rev_app_distr in Hc'. simpl in Hc'. by rewrite <-app_assoc in Hc'.
    + by rewrite <-hd_rev_last, rev_involutive, Hn.
    + rewrite prevs_upd by auto. by rewrite prevs_set_prev, decide_True by auto.
    + intros z Hz. rewrite prevs_upd by auto.
      by rewrite prevs_set_prev, decide_False by auto.
Qed.

(** [brelse]'s list surgery moves [b] to the front and keeps the rest. *)
Lemma linked_move_front s b l1 l2 :
  sized s -> l1 ++ b :: l2 ≡ₚ all_bufs -> linked s (l1 ++ b :: l2) ->
  linked (move_front b s) (b :: l1 ++ l2).
Proof.
  intros Hs Hord Hl. destruct (order_facts _ Hord) as (Hnd & Hin & _).
  destruct (linked_neighbours _ _ _ _ Hl) as [Hp Hn].
  assert (Hb : (b < NBUF)%nat) by (apply Hin; set_solver).
  assert (Hnb : nexts s b <> b).
  { rewrite Hn. apply NoDup_cons in Hnd as [Hh (_ & _ & [Hb2 _]%NoDup_cons)%NoDup_app].
    destruct l2 as [|a l2]; simpl; [unfold head; lia|set_solver]. }
  unfold move_front.
  assert (Heq : nd (upd (nexts s b) (set_prev (prevs s b)) s) b = nd s b)
    by by apply nd_upd_ne.
  fold (nexts s b) (prevs s b). rewrite Heq. fold (nexts s b) (prevs s b).
  apply linked_link_front; auto using linked_unlink.
  - rewrite Permutation_middle. by rewrite Hord in Hnd |- *.
  - apply Forall_forall. intros x Hx. apply Hin. set_solver.
Qed.

Lemma sized_move_front s b : sized s -> sized (move_front b s).
Proof. intros. unfold move_front, link_front. auto 10. Qed.

(** Only the links change. *)
Definition same_payload (b b' : buf) : Prop :=
  valid b' = valid b /\ dev b' = dev b /\ blockno b' = blockno b /\
  lock b' = lock b /\ refcnt b' = refcnt b /\ data b' = data b.

Lemma upd_payload s i f j :
  (forall b, same_payload b (f b)) -> same_payload (nd s j) (nd (upd i f s) j).
Proof.
  intros Hf. unfold nd, upd. cbn [nodes]. rewrite list_lookup_total_alter.
  case_decide as Hd; [destruct Hd as [-> _]; apply Hf|by repeat split].
Qed.

#[local] Instance same_payload_trans : Transitive same_payload.
Proof. unfold same_payload. intros x y z. intuition congruence. Qed.

Lemma move_front_payload s b j : same_payload (nd s j) (nd (move_front b s) j).
Proof.
  unfold move_front, link_front.
  repeat (etrans; [|apply upd_payload; by repeat split]). by repeat split.
Qed.

(** ** Invariant and views *)

(** What one buffer must satisfy: it is idle and agrees with the disk when it
    is valid, or it is held by the running process and valid. *)
Definition node_ok (D : gmap Z block) (pid : Z) (b : buf) : Prop :=
  ((refcnt b = 0 /\ sl_free (lock b)) \/
   (refcnt b = 1 /\ sl_held pid (lock b) /\ dev b = ROOTDEV /\ valid b <> 0)) /\
  (dev b = ROOTDEV -> refcnt b = 0 -> valid b <> 0 -> data b = dblk D (blockno b)) /\
  block_ok (data b).

Definition uniq (s : bio) : Prop := forall i j,
  (i < NBUF)%nat -> (j < NBUF)%nat -> dev (nd s i) = ROOTDEV -> dev (nd s j) = ROOTDEV ->
  blockno (nd s i) = blockno (nd s j) -> i = j.

Record binv (s : bio) : Prop := {
  inv_sized : sized s;
  inv_linked : exists order, linked s order /\ order ≡ₚ all_bufs;
  inv_node : forall i, (i < NBUF)%nat -> node_ok (disk s) (cpid s) (nd s i);
  inv_uniq : uniq s;
  inv_disk : disk_ok (disk s);
}.

(** The caller's view of a buffer: block number and contents while held. *)
Definition hold (b : buf) : option (Z * block) :=
  if refcnt b =? 0 then None else Some (blockno b, data b).

Definition held (s : bio) : gmap nat (Z * block) :=
  omap hold (map_seq 0 (take NBUF (nodes s)) : gmap nat buf).

Lemma held_lookup s i :
  sized s -> held s !! i = if decide (i < NBUF)%nat then hold (nd s i) else None.
Proof.
  intros Hs. unfold held. rewrite lookup_omap, lookup_map_seq_0.
  case_decide as Hi.
  - rewrite lookup_take_lt by done. unfold nd.
    rewrite list_lookup_lookup_total_lt by (unfold sized in Hs; lia). done.
  - by rewrite lookup_take_ge by lia.
Qed.

Lemma held_Some s i b d :
  sized s -> held s !! i = Some (b, d) <->
  (i < NBUF)%nat /\ refcnt (nd s i) <> 0 /\ blockno (nd s i) = b /\ data (nd s i) = d.
Proof.
  intros Hs. rewrite held_lookup by done. unfold hold.
  case_decide; [|naive_solver]. destruct (Z.eqb_spec (refcnt (nd s i)) 0); naive_solver.
Qed.

Lemma held_upd s i f :
  sized s -> (i < NBUF)%nat ->
  held (upd i f s) = match hold (f (nd s i)) with
                     | Some v => <[i := v]> (held s)
                     | None => delete i (held s)
                     end.
Proof.
  intros Hs Hi. apply map_eq. intros j. rewrite held_lookup by auto.
  rewrite nd_upd by (auto; lia).
  destruct (decide (i = j)) as [<-|Hij].
  - rewrite decide_True by done.
    destruct (hold (f (nd s i))); by simplify_map_eq.
  - destruct (hold (f (nd s i))); simplify_map_eq; by rewrite held_lookup.
Qed.

Lemma held_payload s s' :
  sized s -> sized s' -> (forall j, same_payload (nd s j) (nd s' j)) -> held s' = held s.
Proof.
  intros Hs Hs' Hp. apply map_eq. intros j. rewrite !held_lookup by done.
  destruct (Hp j) as (?&?&Hb&?&Hr&Hd). unfold hold. by rewrite Hb, Hr, Hd.
Qed.

(** Replacing one buffer by a good one keeps the invariant. *)
Lemma binv_upd s i f :
  binv s -> (i < NBUF)%nat ->
  (forall b, next (f b) = next b) -> (forall b, prev (f b) = prev b) ->
  node_ok (disk s) (cpid s) (f (nd s i)) ->
  (dev (f (nd s i)) = ROOTDEV -> forall j, (j < NBUF)%nat -> i <> j ->
     dev (nd s j) = ROOTDEV -> blockno (nd s j) <> blockno (f (nd s i))) ->
  binv (upd i f s).
Proof.
  intros [Hs (order & Hl & Ho) Hn Hu HD] Hi Hnx Hpv Hok Hfresh. split; auto.
  - exists order. split; [|done]. apply linked_upd; auto; lia.
  - intros j Hj. cbn [disk cpid upd]. rewrite nd_upd by (auto; lia).
    case_decide; [done|auto].
  - intros j k Hj Hk. rewrite !nd_upd by (auto; lia).
    repeat case_decide; subst; auto.
    + intros ? ? ?. exfalso. eapply (Hfresh _ k); eauto.
    + intros ? ? ?. exfalso. eapply (Hfresh _ j); eauto.
      Unshelve. all: done.
Qed.

Lemma binv_payload s s' order :
  binv s -> sized s' -> disk s' = disk s -> cpid s' = cpid s ->
  linked s' order -> order ≡ₚ all_bufs ->
  (forall j, same_payload (nd s j) (nd s' j)) -> binv s'.
Proof.
  intros [Hs _ Hn Hu HD] Hs' Hd Hc Hl Ho Hp. split; try done; [eauto| | |by rewrite Hd].
  - intros i Hi. rewrite Hd, Hc. destruct (Hp i) as (Hv&He&Hb&Hk&Hr&Ha).
    unfold node_ok. rewrite Hv, He, Hb, Hk, Hr, Ha. by apply Hn.
  - intros i j Hi Hj. destruct (Hp i) as (_&He&Hb&_). destruct (Hp j) as (_&He'&Hb'&_).
    rewrite He, He', Hb, Hb'. by apply Hu.
Qed.

(** A free buffer exists as long as not all of them are held. *)
Lemma free_buf_exists s :
  sized s -> (size (held s) < NBUF)%nat ->
  exists i, (i < NBUF)%nat /\ refcnt (nd s i) = 0.
Proof.
  intros Hs Hsz. destruct (decide (Exists (fun i => refcnt (nd s i) = 0) all_bufs)) as [He|He].
  - apply Exists_exists in He as (i & Hi & Hr). exists i. split; [|done].
    unfold all_bufs in Hi. apply elem_of_seq in Hi. lia.
  - exfalso. assert (Hsub : (set_seq 0 NBUF : gset nat) ⊆ dom (held s)).
    { intros i Hi. apply elem_of_set_seq in Hi. apply elem_of_dom.
      rewrite held_lookup by done. rewrite decide_True by lia. unfold hold.
      destruct (Z.eqb_spec (refcnt (nd s i)) 0); [|by eexists]. exfalso. apply He.
      apply Exists_exists. exists i. split; [|done]. unfold all_bufs. apply elem_of_seq. lia. }
    apply subseteq_size in Hsub. rewrite size_set_seq, size_dom in Hsub. lia.
Qed.

Lemma upd_upd s i f g : upd i f (upd i g s) = upd i (fun x => f (g x)) s.
Proof.
  unfold upd. cbn [nodes disk cpid]. f_equal. apply list_eq. intros j.
  rewrite !list_lookup_alter. repeat case_decide; subst; try done.
  by destruct (nodes s !! j).
Qed.

Lemma upd_ext s i f g : f (nd s i) = g (nd s i) -> upd i f s = upd i g s.
Proof.
  intros Hfg. unfold upd. f_equal. apply list_eq. intros j.
  rewrite !list_lookup_alter. case_decide as Hij; [|done]. subst j.
  unfold nd in Hfg. destruct (nodes s !! i) as [x|] eqn:Hx; [|done].
  rewrite (list_lookup_total_correct _ _ _ Hx) in Hfg. simpl. by rewrite Hfg.
Qed.

(** ** Looking up a buffer *)

(** The two walks of [bget] look along the list. *)
Lemma bget_scans s order (P : nat -> bool) :
  linked s order -> order ≡ₚ all_bufs ->
  scan (S NBUF) (fun i => next (nd s i)) P (next (nd s head)) = List.find P order /\
  scan (S NBUF) (fun i => prev (nd s i)) P (prev (nd s head)) = List.find P (rev order).
Proof.
  intros [Hn Hp] Ho. destruct (order_facts _ Ho) as ([Hh _]%NoDup_cons & _ & Hlen).
  split.
  - apply (scan_chain (nexts s) P order head); [done..|]. rewrite Hlen. lia.
  - apply (scan_chain (prevs s) P (rev order) head); [done| |].
    + by rewrite <-Permutation_rev.
    + rewrite length_rev, Hlen. lia.
Qed.

Lemma lock_buf_free b s :
  sl_free (lock (nd s b)) ->
  lock_buf b s = Ok tt (upd b (set_lock {| sl_locked := 1; sl_pid := cpid s |}) s).
Proof. intros Hf. unfold lock_buf, get, bind. by rewrite acquiresleep_free. Qed.

Definition is_block (s : bio) (d bno : Z) (i : nat) : bool :=
  (dev (nd s i) =? d) && (blockno (nd s i) =? bno).

(** A buffer taken for block [b]: locked by the caller, with one reference. *)
Definition taken (pid b v : Z) (dat : block) (x : buf) : buf := {|
  valid := v; dev := ROOTDEV; blockno := b;
  lock := {| sl_locked := 1; sl_pid := pid |}; refcnt := 1;
  prev := prev x; next := next x; data := dat |}.

(** [bget] on a block that is cached and idle. *)
Lemma bget_hit s b i :
  binv s -> (i < NBUF)%nat -> is_block s ROOTDEV b i = true -> refcnt (nd s i) = 0 ->
  bget ROOTDEV b s =
    Ok i (upd i (taken (cpid s) b (valid (nd s i)) (data (nd s i))) s).
Proof.
  intros HI Hi Hb Hr. destruct HI as [Hs (order & Hl & Ho) Hn Hu HD].
  destruct (order_facts _ Ho) as (_ & Hin & _).
  unfold bget, get, bind at 1.
  destruct (bget_scans s order (is_block s ROOTDEV b) Hl Ho) as [Hscan _].
  unfold is_block in Hscan at 1. rewrite Hscan.
  destruct (List.find _ order) as [j|] eqn:Hf.
  - apply List.find_some in Hf as [Hj%list_elem_of_In Hbj]. apply Hin in Hj.
    unfold is_block in Hb, Hbj. zify_bool.
    assert (j = i) as -> by (apply Hu; congruence).
    unfold bind, modify. rewrite lock_buf_free.
    + unfold ret. rewrite upd_upd. f_equal. apply upd_ext.
      unfold taken, set_lock, set_refcnt. cbn. rewrite Hr. f_equal; congruence.
    + rewrite nd_upd_eq by (auto; lia). cbn.
      destruct (Hn i Hi) as [[[_ ?]|[? _]] _]; [done|lia].
  - apply (List.find_none _ _) with (x := i) in Hf; [congruence|].
    by apply list_elem_of_In, Hin.
Qed.

(** [bget] on a block that is not cached takes the first unused buffer from
    the least recently used end of the list. *)
Lemma bget_miss s b order i :
  binv s -> linked s order -> order ≡ₚ all_bufs ->
  (forall j, (j < NBUF)%nat -> is_block s ROOTDEV b j = false) ->
  List.find (fun j => refcnt (nd s j) =? 0) (rev order) = Some i ->
  bget ROOTDEV b s = Ok i (upd i (taken (cpid s) b 0 (data (nd s i))) s).
Proof.
  intros [Hs _ Hn Hu HD] Hl Ho Hb Hf. destruct (order_facts _ Ho) as (_ & Hin & _).
  unfold bget, get, bind at 1.
  destruct (bget_scans s order (is_block s ROOTDEV b) Hl Ho) as [Hscan _].
  unfold is_block in Hscan at 1. rewrite Hscan.
  destruct (List.find (is_block s ROOTDEV b) order) as [j|] eqn:Hfj.
  { apply List.find_some in Hfj as [Hj%list_elem_of_In Hbj]. apply Hin in Hj.
    rewrite Hb in Hbj; done. }
  destruct (bget_scans s order (fun j => refcnt (nd s j) =? 0) Hl Ho) as [_ ->].
  rewrite Hf. apply List.find_some in Hf as [Hi Hr]. zify_bool.
  apply list_elem_of_In in Hi. rewrite <-Permutation_rev in Hi. apply Hin in Hi.
  unfold bind, modify. rewrite lock_buf_free.
  - unfold ret. rewrite upd_upd. f_equal. by apply upd_ext.
  - rewrite nd_upd_eq by (auto; lia). cbn.
    destruct (Hn i Hi) as [[[_ ?]|[? _]] _]; [done|lia].
Qed.

(** Every buffer is in use: [bget] of another block panics. *)
Lemma bget_exhausted s b :
  binv s -> (forall j, (j < NBUF)%nat -> refcnt (nd s j) <> 0) ->
  (forall j, (j < NBUF)%nat -> is_block s ROOTDEV b j = false) ->
  bget ROOTDEV b s = Stop (SPanic "bget: no buffers").
Proof.
  intros [Hs (order & Hl & Ho) Hn Hu HD] Hr Hb. destruct (order_facts _ Ho) as (_ & Hin & _).
  unfold bget, get, bind at 1.
  destruct (bget_scans s order (is_block s ROOTDEV b) Hl Ho) as [Hscan _].
  unfold is_block in Hscan at 1. rewrite Hscan.
  destruct (List.find (is_block s ROOTDEV b) order) as [j|] eqn:Hf.
  { apply List.find_some in Hf as [Hj%list_elem_of_In Hbj]. apply Hin in Hj.
    rewrite Hb in Hbj; done. }
  destruct (bget_scans s order (fun j => refcnt (nd s j) =? 0) Hl Ho) as [_ ->].
  destruct (List.find _ (rev order)) as [j|] eqn:Hf'; [|done].
  apply List.find_some in Hf' as [Hj Hz]. zify_bool.
  apply list_elem_of_In in Hj. rewrite <-Permutation_rev in Hj. apply Hin in Hj.
  by apply Hr in Hz.
Qed.

(** ** The interface laws *)

(** [bread] of a block nobody holds takes one idle buffer and fills it with
    the contents of the disk. *)
Lemma bread_run s b :
  binv s ->
  (forall i, (i < NBUF)%nat -> refcnt (nd s i) <> 0 -> blockno (nd s i) <> b) ->
  (size (held s) < NBUF)%nat ->
  exists i v, bread ROOTDEV b s = Ok i (upd i (taken (cpid s) b v (dblk (disk s) b)) s) /\
    v <> 0 /\ (i < NBUF)%nat /\ refcnt (nd s i) = 0 /\
    (forall j, (j < NBUF)%nat -> i <> j -> dev (nd s j) = ROOTDEV -> blockno (nd s j) <> b).
Proof.
  intros HI Hb Hsz. assert (HI' := HI). destruct HI' as [Hs (order & Hl & Ho) Hn Hu HD].
  destruct (order_facts _ Ho) as (_ & Hin & _).
  unfold bread, bind at 1.
  destruct (List.find (is_block s ROOTDEV b) order) as [i|] eqn:Hf.
  - apply List.find_some in Hf as [Hi%list_elem_of_In Hbi]. apply Hin in Hi.
    assert (Hr : refcnt (nd s i) = 0).
    { destruct (decide (refcnt (nd s i) = 0)); [done|]. unfold is_block in Hbi. zify_bool.
      exfalso. by apply (Hb i). }
    rewrite (bget_hit s b i) by done. unfold is_block in Hbi. zify_bool.
    unfold bind, gets. rewrite nd_upd_eq by (auto; lia). cbn [valid taken].
    destruct (Z.eqb_spec (valid (nd s i)) 0) as [Hv|Hv].
    + exists i, 1. unfold virtio_disk_rw, bind, get, modify, ret.
      rewrite nd_upd_eq by (auto; lia). rewrite !upd_upd.
      split_and!; try done.
      intros j Hj Hij Hdj Heq. apply Hij, Hu; congruence.
    + exists i, (valid (nd s i)). split_and!; try done.
      * unfold ret. do 2 f_equal.
        destruct (Hn i Hi) as (_ & Hc & _). rewrite Hc by done. congruence.
      * intros j Hj Hij Hdj Heq. apply Hij, Hu; congruence.
  - assert (Hnone : forall j, (j < NBUF)%nat -> is_block s ROOTDEV b j = false).
    { intros j Hj. eapply List.find_none; [done|]. by apply list_elem_of_In, Hin. }
    destruct (free_buf_exists s Hs Hsz) as (k & Hk & Hkr).
    destruct (List.find (fun j => refcnt (nd s j) =? 0) (rev order)) as [i|] eqn:Hfree.
    2: { eapply (List.find_none _ _) with (x := k) in Hfree; [by rewrite Hkr in Hfree|].
         apply list_elem_of_In. rewrite <-Permutation_rev. by apply Hin. }
    rewrite (bget_miss s b order i) by done.
    apply List.find_some in Hfree as [Hi Hr]. zify_bool.
    apply list_elem_of_In in Hi. rewrite <-Permutation_rev in Hi. apply Hin in Hi.
    exists i, 1. unfold bind, gets. rewrite nd_upd_eq by (auto; lia).
    unfold virtio_disk_rw, bind, get, modify, ret. cbn [valid taken Z.eqb].
    rewrite nd_upd_eq by (auto; lia). rewrite !upd_upd.
    split_and!; try done.
    intros j Hj _ Hdj Heq. specialize (Hnone j Hj). unfold is_block in Hnone.
    rewrite Hdj, Heq, !Z.eqb_refl in Hnone. done.
Qed.

Lemma bio_bread_law s b :
  binv s -> (forall h b' d, held s !! h = Some (b', d) -> b' <> b) ->
  (size (held s) < NBUF)%nat ->
  wp (bread ROOTDEV b) (fun h s' =>
    binv s' /\ disk s' = disk s /\ held s !! h = None /\
    held s' = <[h := (b, dblk (disk s) b)]> (held s)) s.
Proof.
  intros HI Hb Hsz. assert (Hs := inv_sized s HI).
  destruct (bread_run s b) as (i & v & Hrun & Hv & Hi & Hr & Hfresh); try done.
  { intros i Hi Hr <-. eapply (Hb i); [|done]. by apply held_Some. }
  eapply wp_run; [exact Hrun|]. split_and!.
  - apply binv_upd; try done. split_and!; [right|done|apply (inv_disk s HI)].
    by repeat split.
  - done.
  - rewrite held_lookup by done. rewrite decide_True by done. unfold hold. by rewrite Hr.
  - by rewrite held_upd by done.
Qed.

Lemma bio_bset_law s h b d d' :
  binv s -> held s !! h = Some (b, d) -> block_ok d' ->
  wp (bset h d') (fun _ s' =>
    binv s' /\ disk s' = disk s /\ held s' = <[h := (b, d')]> (held s)) s.
Proof.
  intros HI Hh Hd'. assert (Hs := inv_sized s HI).
  apply held_Some in Hh as (Hi & Hr & Hb & Hd); [|done].
  destruct (inv_node s HI h Hi) as (Hst & _ & _).
  apply wp_modify. split_and!; [| done |].
  - apply binv_upd; try done.
    cbn. intros Hdv j Hj Hij Hdj Heq. apply Hij. by apply (inv_uniq s HI).
  - rewrite held_upd by done. unfold hold. cbn.
    destruct (Z.eqb_spec (refcnt (nd s h)) 0); [done|]. by rewrite Hb.
Qed.

Lemma bio_held_lock s h b d :
  binv s -> held s !! h = Some (b, d) -> holdingsleep (cpid s) (lock (nd s h)) = true.
Proof.
  intros HI Hh. apply held_Some in Hh as (Hi & Hr & _); [|apply HI].
  destruct (inv_node s HI h Hi) as ([[? _]|(_ & Hl & _)] & _); [done|].
  by apply holdingsleep_held.
Qed.

Lemma bio_bwrite_law s h b d :
  binv s -> held s !! h = Some (b, d) ->
  wp (bwrite h) (fun _ s' =>
    binv s' /\ disk s' = <[b := d]> (disk s) /\ held s' = held s) s.
Proof.
  intros HI Hh. unfold bwrite. apply wp_bind, wp_get.
  rewrite (bio_held_lock _ _ _ _ HI Hh). cbn [negb].
  unfold virtio_disk_rw. apply wp_bind, wp_get, wp_modify.
  apply held_Some in Hh as (Hi & Hr & <- & <-); [|apply HI].
  split_and!; [|done|done]. destruct HI as [Hs Hl Hn Hu HD]. split; try done.
  - intros i Hj. destruct (Hn i Hj) as (Hst & Hc & Hok). split_and!; [done| |done].
    intros Hdv Hr0 Hv. cbn [disk set_disk]. change (nd (set_disk _ s) i) with (nd s i) in *.
    destruct (decide (blockno (nd s h) = blockno (nd s i))) as [Heq|].
    + assert (h = i) as <-; [|done]. apply Hu; try done.
      destruct (Hn h Hi) as ([[? _]|(_ & _ & ? & _)] & _); done.
    + rewrite dblk_insert_ne by done. by apply Hc.
  - apply disk_ok_insert; [done|]. by apply Hn.
Qed.

Lemma bio_brelse_law s h b d :
  binv s -> held s !! h = Some (b, d) -> dblk (disk s) b = d ->
  wp (brelse h) (fun _ s' =>
    binv s' /\ disk s' = disk s /\ held s' = delete h (held s)) s.
Proof.
  intros HI Hh Hd. assert (Hs := inv_sized s HI). unfold brelse. apply wp_bind, wp_get.
  rewrite (bio_held_lock _ _ _ _ HI Hh). cbn [negb].
  apply held_Some in Hh as (Hi & Hr & <- & Hdat); [|done].
  destruct (inv_node s HI h Hi) as ([[? _]|(Hr1 & Hl & Hdv & Hv)] & _ & Hok); [done|].
  apply wp_bind, wp_modify, wp_bind, wp_modify, wp_bind, wp_gets.
  rewrite upd_upd. rewrite nd_upd_eq by (auto; lia). cbn [refcnt set_refcnt set_lock].
  rewrite Hr1. apply wp_modify.
  set (s1 := upd h _ s).
  assert (HI1 : binv s1).
  { apply binv_upd; try done.
    - unfold node_ok, set_refcnt, set_lock. cbn -[dblk]. rewrite Hr1.
      split_and!; [by left|by intros; congruence|done].
    - cbn. intros _ j Hj Hij Hdj Heq. apply Hij. by apply (inv_uniq s HI). }
  destruct (inv_linked s1 HI1) as (order & Hlk & Ho).
  destruct (order_facts _ Ho) as (_ & Hin & _).
  assert (Hho : h ∈ order) by by apply Hin.
  apply list_elem_of_split in Hho as (l1 & l2 & ->).
  split_and!.
  - eapply binv_payload; [exact HI1| | | | | |].
    + apply sized_move_front, HI1.
    + done.
    + done.
    + apply linked_move_front; [apply HI1|done|done].
    + by rewrite Permutation_middle.
    + apply move_front_payload.
  - done.
  - rewrite (held_payload s1); [|apply HI1|apply sized_move_front, HI1|apply move_front_payload].
    unfold s1. rewrite held_upd by done. unfold hold. cbn. by rewrite Hr1.
Qed.

#[global] Instance bio_laws : BlockCacheLaws bio.
Proof.
  refine {| bc_inv := binv; bc_disk := disk; bc_held := held |}.
  - apply inv_disk.
  - intros s h b d HI Hh. apply held_Some in Hh as (Hi & _ & _ & <-); [|apply HI].
    by apply (inv_node s HI).
  - intros s h h' b d d' HI Hh Hh'.
    apply held_Some in Hh as (Hi & Hr & Hb & _); [|apply HI].
    apply held_Some in Hh' as (Hi' & Hr' & Hb' & _); [|apply HI].
    apply (inv_uniq s HI); try congruence.
    + destruct (inv_node s HI h Hi) as ([[? _]|(_ & _ & ? & _)] & _); done.
    + destruct (inv_node s HI h' Hi') as ([[? _]|(_ & _ & ? & _)] & _); done.
  - exact bio_bread_law.
  - intros s h b d HI Hh. apply held_Some in Hh as (_ & _ & _ & <-); [done|apply HI].
  - exact bio_bset_law.
  - exact bio_bwrite_law.
  - exact bio_brelse_law.
Defined.

(** ** Boot *)

Definition boot (D : gmap Z block) (pid : Z) : bio := binit (bss D pid).

Lemma boot_sized D pid : sized (boot D pid).
Proof. vm_compute. reflexivity. Qed.

Lemma boot_payload D pid j :
  same_payload buf0 (nd (boot D pid) j).
Proof.
  assert (Hupd : forall s i f, (forall b, same_payload buf0 b -> same_payload buf0 (f b)) ->
    (forall k, same_payload buf0 (nd s k)) -> forall k, same_payload buf0 (nd (upd i f s) k)).
  { intros s i f Hf Hs k. unfold nd, upd. cbn [nodes]. rewrite list_lookup_total_alter.
    case_decide as Hd; [destruct Hd as [-> _]; apply Hf, Hs|apply Hs]. }
  unfold boot, binit. revert j. generalize (seq 0 NBUF) as l.
  assert (H0 : forall j, same_payload buf0
    (nd (upd head (set_next head) (upd head (set_prev head) (bss D pid))) j)).
  { repeat (apply Hupd; [unfold same_payload; cbn; tauto|]). intros k. unfold nd, bss. cbn [nodes].
    destruct (decide (k < S NBUF)%nat).
    - by rewrite lookup_total_replicate_2.
    - by rewrite list_lookup_total_alt, lookup_ge_None_2 by (rewrite length_replicate; lia). }
  revert H0. generalize (upd head (set_next head) (upd head (set_prev head) (bss D pid))) as s.
  intros s Hs l. revert s Hs. induction l as [|b l IH]; intros s Hs; [done|].
  cbn [foldl]. apply IH. unfold binit_one.
  repeat (apply Hupd; [unfold same_payload; cbn; tauto|]). done.
Qed.

Lemma boot_linked D pid : linked (boot D pid) (rev all_bufs).
Proof. split; vm_compute; repeat split. Qed.

Lemma boot_held D pid : held (boot D pid) = ∅.
Proof.
  apply map_eq. intros i. rewrite held_lookup by apply boot_sized. rewrite lookup_empty.
  case_decide as Hi; [|done].
  destruct (boot_payload D pid i) as (_ & _ & _ & _ & Hr & _). unfold hold. by rewrite Hr.
Qed.

Lemma boot_inv D pid : disk_ok D -> binv (boot D pid).
Proof.
  intros HD. split; [apply boot_sized| | | |done].
  - exists (rev all_bufs). split; [apply boot_linked|by rewrite <-Permutation_rev].
  - intros i _. destruct (boot_payload D pid i) as (Hv & _ & _ & Hl & Hr & Hd).
    unfold node_ok. rewrite Hv, Hl, Hr, Hd. split_and!; [left; by split| |apply zero_block_ok].
    intros _ _ Hne. by destruct Hne.
  - intros i j _ _ Hdv. destruct (boot_payload D pid i) as (_ & Hz & _).
    rewrite Hz in Hdv. discriminate Hdv.
Qed.

(** The interface's view of the cache at boot. *)
Lemma boot_view D pid :
  disk_ok D ->
  bc_inv (boot D pid) /\ bc_disk (boot D pid) = D /\ bc_held (boot D pid) = ∅.
Proof.
  intros HD. unfold bc_inv, bc_disk, bc_held, bio_laws.
  split_and!; [by apply boot_inv|reflexivity|apply boot_held].
Qed.

Lemma lru_order_linked s order :
  linked s order -> order ≡ₚ all_bufs -> lru_order s = order.
Proof.
  intros [Hn _] Ho. destruct (order_facts _ Ho) as ([Hh _]%NoDup_cons & _ & Hlen).
  apply walk_chain; [done..|]. rewrite Hlen. lia.
Qed.

(** ** Requests: the disk as the file system uses it *)

(** A whole-block read, and a read-modify-write of one block. *)
Inductive req : Type :=
| ReadBlock (b : Z)
| UpdateBlock (b : Z) (f : block -> block).

Definition read_block (b : Z) : M bio block :=
  h <- bread ROOTDEV b ;;
  d <- bdata h ;;
  brelse h ;;
  ret d.

Definition update_block (b : Z) (f : block -> block) : M bio unit :=
  h <- bread ROOTDEV b ;;
  d <- bdata h ;;
  bset h (f d) ;;
  bwrite h ;;
  brelse h.

Fixpoint serve (rs : list req) : M bio (list block) :=
  match rs with
  | [] => ret []
  | ReadBlock b :: rs =>
      d <- read_block b ;;
      ds <- serve rs ;;
      ret (d :: ds)
  | UpdateBlock b f :: rs =>
      update_block b f ;;
      serve rs
  end.

(** The specification: a disk without a cache. *)
Fixpoint serve_spec (rs : list req) (D : gmap Z block) : list block * gmap Z block :=
  match rs with
  | [] => ([], D)
  | ReadBlock b :: rs =>
      let '(ds, D') := serve_spec rs D in (dblk D b :: ds, D')
  | UpdateBlock b f :: rs => serve_spec rs (<[b := f (dblk D b)]> D)
  end.

Definition req_ok (r : req) : Prop :=
  match r with
  | ReadBlock _ => True
  | UpdateBlock _ f => forall d, block_ok d -> block_ok (f d)
  end.

Lemma held_data s h b d : binv s -> held s !! h = Some (b, d) -> data (nd s h) = d.
Proof. intros HI Hh. apply held_Some in Hh as (_ & _ & _ & ?); [done|apply HI]. Qed.

Lemma wp_read_block s b :
  binv s -> held s = ∅ ->
  wp (read_block b) (fun d s' =>
    d = dblk (disk s) b /\ binv s' /\ disk s' = disk s /\ held s' = ∅) s.
Proof.
  intros HI Hh. unfold read_block. apply wp_bind.
  eapply wp_mono; [apply bio_bread_law; [done| |]|].
  - rewrite Hh. by intros ???; rewrite lookup_empty.
  - rewrite Hh, map_size_empty. unfold NBUF. lia.
  - intros h s1 (HI1 & HD1 & _ & Hh1). rewrite Hh in Hh1.
    assert (Hl : held s1 !! h = Some (b, dblk (disk s) b)) by (rewrite Hh1; apply lookup_insert_eq).
    apply wp_bind, wp_gets, wp_bind.
    assert (Hd : data (nd s1 h) = dblk (disk s) b) by by eapply held_data.
    eapply wp_mono; [eapply bio_brelse_law; [done|exact Hl|by rewrite HD1]|].
    intros _ s2 (HI2 & HD2 & Hh2). apply wp_ret. split_and!; try done; [congruence|].
    rewrite Hh2, Hh1. by rewrite delete_insert_eq, delete_empty.
Qed.

Lemma wp_update_block s b f :
  binv s -> held s = ∅ -> (forall d, block_ok d -> block_ok (f d)) ->
  wp (update_block b f) (fun _ s' =>
    binv s' /\ disk s' = <[b := f (dblk (disk s) b)]> (disk s) /\ held s' = ∅) s.
Proof.
  intros HI Hh Hf. unfold update_block. apply wp_bind.
  eapply wp_mono; [apply bio_bread_law; [done| |]|].
  - rewrite Hh. by intros ???; rewrite lookup_empty.
  - rewrite Hh, map_size_empty. unfold NBUF. lia.
  - intros h s1 (HI1 & HD1 & _ & Hh1). rewrite Hh in Hh1.
    assert (Hl : held s1 !! h = Some (b, dblk (disk s) b)) by (rewrite Hh1; apply lookup_insert_eq).
    apply wp_bind, wp_gets, wp_bind.
    assert (Hd : data (nd s1 h) = dblk (disk s) b) by by eapply held_data.
    rewrite Hd.
    eapply wp_mono; [eapply bio_bset_law; [done|exact Hl|apply Hf, (inv_disk s HI)]|].
    intros _ s2 (HI2 & HD2 & Hh2). apply wp_bind.
    eapply wp_mono; [eapply bio_bwrite_law; [done|rewrite Hh2; apply lookup_insert_eq]|].
    intros _ s3 (HI3 & HD3 & Hh3).
    eapply wp_mono; [eapply bio_brelse_law; [done|rewrite Hh3, Hh2; apply lookup_insert_eq|]|].
    { by rewrite HD3, dblk_insert_eq. }
    intros _ s4 (HI4 & HD4 & Hh4). split_and!; [done|congruence|].
    rewrite Hh4, Hh3, Hh2, Hh1. by rewrite insert_insert_eq, delete_insert_eq, delete_empty.
Qed.

Lemma wp_serve rs s :
  binv s -> held s = ∅ -> Forall req_ok rs ->
  wp (serve rs) (fun ds s' => serve_spec rs (disk s) = (ds, disk s') /\ binv s' /\ held s' = ∅) s.
Proof.
  revert s. induction rs as [|[b|b f] rs IH]; intros s HI Hh Hok; cbn [serve serve_spec].
  - by apply wp_ret.
  - apply Forall_cons in Hok as [_ Hok]. apply wp_bind.
    eapply wp_mono; [by apply wp_read_block|]. intros d s1 (-> & HI1 & HD1 & Hh1).
    apply wp_bind. eapply wp_mono; [by apply IH|]. intros ds s2 (Hsp & HI2 & Hh2).
    apply wp_ret. rewrite <-HD1, Hsp. done.
  - apply Forall_cons in Hok as [Hf Hok]. apply wp_bind.
    eapply wp_mono; [by apply wp_update_block|]. intros _ s1 (HI1 & HD1 & Hh1).
    rewrite <-HD1. by apply IH.
Qed.

(** The [linked] order after [brelse]. *)
Lemma brelse_order s h b d order :
  binv s -> held s !! h = Some (b, d) -> dblk (disk s) b = d ->
  linked s order -> order ≡ₚ all_bufs ->
  wp (brelse h) (fun _ s' =>
    linked s' (h :: filter (fun i => i <> h) order)) s.
Proof.
  intros HI Hh Hd Hlk Ho. assert (Hs := inv_sized s HI). unfold brelse. apply wp_bind, wp_get.
  rewrite (bio_held_lock _ _ _ _ HI Hh). cbn [negb].
  apply held_Some in Hh as (Hi & Hr & <- & Hdat); [|done].
  destruct (inv_node s HI h Hi) as ([[? _]|(Hr1 & _)] & _ & _); [done|].
  apply wp_bind, wp_modify, wp_bind, wp_modify, wp_bind, wp_gets.
  rewrite upd_upd, nd_upd_eq by (auto; lia). cbn [refcnt set_refcnt set_lock].
  rewrite Hr1. apply wp_modify.
  destruct (order_facts _ Ho) as ([_ Hnd]%NoDup_cons & Hin & _).
  assert (Hho : h ∈ order) by by apply Hin.
  apply list_elem_of_split in Hho as (l1 & l2 & ->).
  replace (filter _ (l1 ++ h :: l2)) with (l1 ++ l2).
  { apply linked_move_front; [by apply sized_upd|done|]. apply linked_upd; auto; lia. }
  apply NoDup_app in Hnd as (_ & H1 & [H2 _]%NoDup_cons).
  rewrite filter_app, filter_cons_False by naive_solver.
  rewrite !filter_id; [done|..]; apply Forall_forall; set_solver.
Qed.

(** ** Properties *)

(** Claim C3: from boot, the buffer cache never changes what the file
    system sees: every sequence of block reads and read-modify-writes returns
    exactly what a disk without a cache returns, leaves the same disk contents,
    and releases every buffer. *)
Theorem cache_refines_disk (rs : list req) (D : gmap Z block) (pid : Z) :
  disk_ok D -> Forall req_ok rs ->
  exists ds s', serve rs (boot D pid) = Ok ds s' /\
    serve_spec rs D = (ds, disk s') /\ binv s' /\ held s' = ∅.
Proof.
  intros HD Hok. apply wp_ok.
  apply (wp_serve rs (boot D pid)); auto using boot_inv, boot_held.
Qed.

(** [bget] of a block that is not cached recycles the least
    recently used buffer that nobody references, marks it invalid and locks it
    for the caller, and touches no other buffer. *)
Theorem bget_recycles_lru (s : bio) (b : Z) (i : nat) :
  binv s ->
  (forall j, (j < NBUF)%nat -> is_block s ROOTDEV b j = false) ->
  List.find (fun j => refcnt (nd s j) =? 0) (rev (lru_order s)) = Some i ->
  exists s', bget ROOTDEV b s = Ok i s' /\
    valid (nd s' i) = 0 /\ dev (nd s' i) = ROOTDEV /\ blockno (nd s' i) = b /\
    refcnt (nd s' i) = 1 /\ holdingsleep (cpid s) (lock (nd s' i)) = true /\
    (forall j, i <> j -> nd s' j = nd s j) /\ lru_order s' = lru_order s.
Proof.
  intros HI Hb Hf. destruct (inv_linked s HI) as (order & Hl & Ho).
  rewrite (lru_order_linked s order) in Hf |- * by done.
  assert (Hi : (i < NBUF)%nat).
  { apply List.find_some in Hf as [Hi _]. apply list_elem_of_In in Hi.
    rewrite <-Permutation_rev in Hi. by apply (order_facts _ Ho). }
  eexists. split; [by eapply bget_miss|]. assert (Hs := inv_sized s HI).
  rewrite nd_upd_eq by (auto; lia). split_and!; try done.
  - unfold holdingsleep. cbn. apply Z.eqb_refl.
  - intros j Hj. by apply nd_upd_ne.
  - apply lru_order_linked; [|done]. apply linked_upd; auto; lia.
Qed.

(** Releasing a buffer makes it the most recently used one and keeps
    the relative order of all the others; the linked list stays a list of all
    the [NBUF] buffers. *)
Theorem brelse_moves_to_front (s : bio) (h : nat) (b : Z) (d : block) :
  binv s -> held s !! h = Some (b, d) -> dblk (disk s) b = d ->
  exists s', brelse h s = Ok tt s' /\ binv s' /\ held s' = delete h (held s) /\
    lru_order s' = h :: filter (fun i => i <> h) (lru_order s) /\
    lru_order s' ≡ₚ all_bufs.
Proof.
  intros HI Hh Hd. destruct (inv_linked s HI) as (order & Hl & Ho).
  pose proof (brelse_order s h b d order HI Hh Hd Hl Ho) as Hw.
  pose proof (bio_brelse_law s h b d HI Hh Hd) as Hw'.
  apply wp_elim in Hw as ([] & s' & Hrun & Hl'). unfold wp in Hw'. rewrite Hrun in Hw'.
  destruct Hw' as (HI' & _ & Hh'). exists s'.
  destruct (inv_linked s' HI') as (order' & Hl'' & Ho').
  assert (Ho2 : lru_order s' ≡ₚ all_bufs) by by rewrite (lru_order_linked s' order').
  split_and!; try done.
  rewrite (lru_order_linked s order) by done.
  apply lru_order_linked; [done|]. apply held_Some in Hh as (Hi & _); [|apply HI].
  destruct (order_facts _ Ho) as ([_ Hnd]%NoDup_cons & Hin & _).
  assert (Hho : h ∈ order) by by apply Hin.
  rewrite <-Ho. apply list_elem_of_split in Hho as (l1 & l2 & ->).
  apply NoDup_app in Hnd as (_ & H1 & [H2 _]%NoDup_cons).
  rewrite filter_app, filter_cons_False by naive_solver.
  rewrite !filter_id; [apply Permutation_middle|..]; apply Forall_forall; set_solver.
Qed.

(** When all [NBUF] buffers are referenced, asking for one more
    block panics. *)
Theorem bread_no_buffers (s : bio) (b : Z) :
  binv s -> size (held s) = NBUF ->
  (forall h b' d, held s !! h = Some (b', d) -> b' <> b) ->
  bread ROOTDEV b s = Stop (SPanic "bget: no buffers").
Proof.
  intros HI Hsz Hb. assert (Hs := inv_sized s HI). unfold bread. apply bind_stop.
  assert (Hall : forall j, (j < NBUF)%nat -> refcnt (nd s j) <> 0).
  { intros j Hj Hr. assert (Hsub : dom (held s) ⊆ (set_seq 0 NBUF : gset nat) ∖ {[j]}).
    { intros i [[b' d] Hi]%elem_of_dom. apply held_Some in Hi as (Hi & Hir & _); [|done].
      apply elem_of_difference. split; [apply elem_of_set_seq; lia|].
      intros ->%elem_of_singleton. done. }
    apply subseteq_size in Hsub. rewrite size_dom, Hsz, size_difference, size_set_seq in Hsub.
    - rewrite size_singleton in Hsub. lia.
    - intros i ->%elem_of_singleton. apply elem_of_set_seq. lia. }
  apply bget_exhausted; [done|done|]. intros j Hj. unfold is_block.
  apply andb_false_intro2, Z.eqb_neq.
  apply (Hb j _ (data (nd s j))). apply held_Some; auto.
Qed.

(** ** Witnesses *)

Definition poke (d : block) : block := splice 3 [9] d.

Lemma poke_ok d : block_ok d -> block_ok (poke d).
Proof.
  intros Hd. apply block_ok_splice; [done| |by vm_compute; lia].
  apply Forall_singleton. unfold byte_ok. lia.
Qed.

Lemma cache_refines_disk_witness :
  exists ds s', serve [UpdateBlock 5 poke; ReadBlock 5; ReadBlock 6] (boot ∅ 1) = Ok ds s' /\
    serve_spec [UpdateBlock 5 poke; ReadBlock 5; ReadBlock 6] ∅ = (ds, disk s') /\
    binv s' /\ held s' = ∅.
Proof.
  apply cache_refines_disk; [apply disk_ok_empty|].
  apply Forall_cons. split; [exact poke_ok|]. repeat constructor.
Defined.

Lemma bget_recycles_lru_witness :
  exists s', bget ROOTDEV 5 (boot ∅ 1) = Ok 0%nat s' /\
    valid (nd s' 0) = 0 /\ dev (nd s' 0) = ROOTDEV /\ blockno (nd s' 0) = 5 /\
    refcnt (nd s' 0) = 1 /\ holdingsleep (cpid (boot ∅ 1)) (lock (nd s' 0)) = true /\
    (forall j, 0%nat <> j -> nd s' j = nd (boot ∅ 1) j) /\
    lru_order s' = lru_order (boot ∅ 1).
Proof.
  apply bget_recycles_lru; [apply boot_inv, disk_ok_empty| |vm_compute; reflexivity].
  intros j _. unfold is_block.
  destruct (boot_payload ∅ 1 j) as (_ & -> & _). reflexivity.
Defined.

Lemma boot_bread_5 :
  wp (bread ROOTDEV 5) (fun h s' =>
    binv s' /\ disk s' = ∅ /\ held s' !! h = Some (5, zero_block)) (boot ∅ 1).
Proof.
  eapply wp_mono; [apply bio_bread_law; [apply boot_inv, disk_ok_empty|..]|].
  - intros h b' d. by rewrite boot_held, lookup_empty.
  - rewrite boot_held, map_size_empty. unfold NBUF. lia.
  - intros h s' (HI & HD & _ & Hh). split_and!; [done|done|].
    rewrite Hh. apply lookup_insert_eq.
Qed.

Lemma brelse_moves_to_front_witness :
  exists s h s', bread ROOTDEV 5 (boot ∅ 1) = Ok h s /\ brelse h s = Ok tt s' /\
    lru_order s' = h :: filter (fun i => i <> h) (lru_order s).
Proof.
  destruct (wp_elim _ _ _ boot_bread_5) as (h & s & Hrun & HI & HD & Hh).
  destruct (brelse_moves_to_front s h 5 zero_block HI Hh) as (s' & Hr & _ & _ & Ho & _).
  - rewrite HD. reflexivity.
  - exists s, h, s'. auto.
Defined.

(** Reading and keeping a list of blocks. *)
Fixpoint take_blocks (l : list Z) : M bio unit :=
  match l with
  | [] => ret tt
  | b :: l => bread ROOTDEV b ;; take_blocks l
  end.

Lemma wp_take_blocks l s :
  binv s -> NoDup l -> (size (held s) + length l <= NBUF)%nat ->
  (forall h b d, held s !! h = Some (b, d) -> b ∉ l) ->
  wp (take_blocks l) (fun _ s' => binv s' /\
    size (held s') = (size (held s) + length l)%nat /\
    (forall h b d, held s' !! h = Some (b, d) -> b ∈ l \/ held s !! h = Some (b, d))) s.
Proof.
  revert s. induction l as [|a l IH]; intros s HI Hnd Hsz Hb; cbn [take_blocks length] in *.
  - apply wp_ret. split_and!; [done|lia|auto].
  - apply NoDup_cons in Hnd as [Ha Hnd]. apply wp_bind.
    eapply wp_mono; [apply bio_bread_law; [done| |lia]|].
    { intros h b d Hh ->. apply (Hb _ _ _ Hh). set_solver. }
    intros h s1 (HI1 & _ & Hnone & Hh1).
    assert (Hsz1 : size (held s1) = S (size (held s))).
    { rewrite Hh1. by apply map_size_insert_None. }
    eapply wp_mono; [apply IH; [done|done|lia|]|].
    + intros k b d. rewrite Hh1. intros [[-> [= <- <-]]|[Hne Hk]]%lookup_insert_Some; [done|].
      specialize (Hb _ _ _ Hk). set_solver.
    + intros _ s2 (HI2 & Hsz2 & Hh2). split_and!; [done|lia|].
      intros k b d Hk. destruct (Hh2 _ _ _ Hk) as [|Hk']; [set_solver|].
      rewrite Hh1 in Hk'. apply lookup_insert_Some in Hk' as [[-> [= <- <-]]|[_ ?]];
        [set_solver|auto].
Qed.

Lemma bread_no_buffers_witness :
  exists s, take_blocks (seqZ 100 30) (boot ∅ 1) = Ok tt s /\
    bread ROOTDEV 5 s = Stop (SPanic "bget: no buffers").
Proof.
  assert (Hw : wp (take_blocks (seqZ 100 30)) (fun _ s' => binv s' /\
    size (held s') = 30%nat /\
    (forall h b d, held s' !! h = Some (b, d) -> b ∈ seqZ 100 30)) (boot ∅ 1)).
  { eapply wp_mono; [apply wp_take_blocks; [apply boot_inv, disk_ok_empty|apply NoDup_seqZ|..]|].
    - by rewrite boot_held, map_size_empty.
    - intros h b d. by rewrite boot_held, lookup_empty.
    - intros _ s (HI & Hsz & Hb). rewrite boot_held, map_size_empty in Hsz.
      split_and!; [done|done|]. intros h b d Hh.
      destruct (Hb _ _ _ Hh) as [|Hh']; [done|]. by rewrite boot_held, lookup_empty in Hh'. }
  apply wp_elim in Hw as ([] & s & Hrun & HI & Hsz & Hb). exists s. split; [exact Hrun|].
  apply (bread_no_buffers s 5 HI Hsz).
  intros h b' d Hh ->. apply Hb, elem_of_seqZ in Hh. lia.
Defined.

End Bio.
