(* ===== verification/Blocks.v ===== *)
(** * Disk layout and the block allocator (kernel/fs/xv6fs/fs.h, fs.c)

    The super block, the geometry macros, and [readsb], [xv6fs_fsinit], [bzero],
    [balloc] and [bfree] over the block-cache interface. *)

From S2P Require Import Prelude BlockCache Bio.

(** ** kernel/fs/xv6fs/fs.h *)

Record xv6fs_super_block : Type := {
  magic : Z;
  size : Z;
  nblocks : Z;
  ninodes : Z;
  nlog : Z;
  logstart : Z;
  inodestart : Z;
  bmapstart : Z;
}.

Definition FSMAGIC : Z := 0x10203040.
Definition ROOTINO : Z := 1.
Definition NDIRECT : Z := 12.
Definition NINDIRECT : Z := BSIZE / 4.
Definition MAXFILE : Z := NDIRECT + NINDIRECT.
Definition DINODE_SIZE : Z := 64.
Definition IPB : Z := BSIZE / DINODE_SIZE.
Definition BPB : Z := BSIZE * 8.

Definition IBLOCK (i : Z) (sb : xv6fs_super_block) : Z := u32 (i / IPB + inodestart sb).
Definition BBLOCK (b : Z) (sb : xv6fs_super_block) : Z := u32 (b / BPB + bmapstart sb).

(** A [uint] and a [ushort] at a byte offset of a block. *)
Definition get32 (off : nat) (d : block) : Z := le_dec (slice off 4 d).
Definition get16 (off : nat) (d : block) : Z := le_dec (slice off 2 d).
Definition put32 (off : nat) (v : Z) (d : block) : block := splice off (le_enc 4 v) d.

Definition sb_of_bytes (d : block) : xv6fs_super_block := {|
  magic := get32 0 d; size := get32 4 d; nblocks := get32 8 d;
  ninodes := get32 12 d; nlog := get32 16 d; logstart := get32 20 d;
  inodestart := get32 24 d; bmapstart := get32 28 d |}.

Definition bytes_of_sb (sb : xv6fs_super_block) : list Z :=
  le_enc 4 (magic sb) ++ le_enc 4 (size sb) ++ le_enc 4 (nblocks sb) ++
  le_enc 4 (ninodes sb) ++ le_enc 4 (nlog sb) ++ le_enc 4 (logstart sb) ++
  le_enc 4 (inodestart sb) ++ le_enc 4 (bmapstart sb).

(** ** Bitmap bytes *)

(** [bp->data[bi/8] & (1 << (bi % 8))], and setting or clearing that bit in
    an unsigned char. *)
Definition bit_mask (bi : Z) : Z := Z.shiftl 1 (bi mod 8).
Definition bit_byte (d : block) (bi : Z) : Z := d !!! Z.to_nat (bi / 8).
Definition set_bit (bi : Z) (d : block) : block :=
  <[Z.to_nat (bi / 8) := u8 (Z.lor (bit_byte d bi) (bit_mask bi))]> d.
Definition clear_bit (bi : Z) (d : block) : block :=
  <[Z.to_nat (bi / 8) := u8 (Z.land (bit_byte d bi) (Z.lnot (bit_mask bi)))]> d.

Section Blocks.
Context {C : Type} `{BC : BlockCache C}.

Definition readsb (dev : Z) : M C xv6fs_super_block :=
  bp <- bread dev 1 ;;
  d <- bdata bp ;;
  brelse bp ;;
  ret (sb_of_bytes d).

Definition xv6fs_fsinit : M C xv6fs_super_block :=
  sb <- readsb 1 ;;
  if magic sb =? FSMAGIC then ret sb else panic "invalid file system".

Definition bzero (dev bno : Z) : M C unit :=
  bp <- bread dev bno ;;
  bset bp zero_block ;;
  bwrite bp ;;
  brelse bp.

(** The inner loop of [balloc]: the first clear bit from [bi] on.  There are
    at most [BPB] of them. *)
Fixpoint balloc_scan (fuel : nat) (d : block) (b bi sz : Z) : option Z :=
  match fuel with
  | O => None
  | S fuel =>
      if (bi <? BPB) && (b + bi <? sz) then
        if Z.land (bit_byte d bi) (bit_mask bi) =? 0 then Some bi
        else balloc_scan fuel d b (bi + 1) sz
      else None
  end.

(** The outer loop: one bitmap block per round. *)
Fixpoint balloc_loop (fuel : nat) (sb : xv6fs_super_block) (dev b : Z) : M C Z :=
  match fuel with
  | O => ret 0
  | S fuel =>
      if b <? size sb then
        bp <- bread dev (BBLOCK b sb) ;;
        d <- bdata bp ;;
        match balloc_scan (S (Z.to_nat BPB)) d b 0 (size sb) with
        | Some bi =>
            bset bp (set_bit bi d) ;;
            bwrite bp ;;
            brelse bp ;;
            bzero dev (b + bi) ;;
            ret (b + bi)
        | None =>
            brelse bp ;;
            balloc_loop fuel sb dev (b + BPB)
        end
      else ret 0
  end.

Definition balloc (sb : xv6fs_super_block) (dev : Z) : M C Z :=
  balloc_loop (S (S (Z.to_nat (size sb / BPB)))) sb dev 0.

Definition bfree (sb : xv6fs_super_block) (dev b : Z) : M C unit :=
  bp <- bread dev (BBLOCK b sb) ;;
  let bi := b mod BPB in
  d <- bdata bp ;;
  if Z.land (bit_byte d bi) (bit_mask bi) =? 0 then panic "freeing free block"
  else
    bset bp (clear_bit bi d) ;;
    bwrite bp ;;
    brelse bp.

End Blocks.

(** ** The bitmap as a set of blocks *)

Definition bit_at (d : block) (bi : Z) : bool := Z.testbit (bit_byte d bi) (bi mod 8).

(** Block [b] is marked in use on disk [D]. *)
Definition in_use (sb : xv6fs_super_block) (D : gmap Z block) (b : Z) : bool :=
  bit_at (dblk D (BBLOCK b sb)) (b mod BPB).

(** Number of blocks before the data blocks. *)
Definition nmeta (sb : xv6fs_super_block) : Z := bmapstart sb + size sb / BPB + 1.

Record sb_ok (sb : xv6fs_super_block) : Prop := {
  sbo_size : 0 < size sb < 2 ^ 31;
  sbo_inode : 2 <= inodestart sb;
  sbo_ninodes : 0 < ninodes sb < 2 ^ 16;
  sbo_bmap : inodestart sb + ninodes sb / IPB + 1 <= bmapstart sb;
  sbo_meta : nmeta sb <= size sb;
}.

(** The blocks before the data area are never free. *)
Definition meta_used (sb : xv6fs_super_block) (D : gmap Z block) : Prop :=
  forall b, 0 <= b < nmeta sb -> in_use sb D b = true.

Lemma mask_test x bi : 0 <= bi -> (Z.land x (bit_mask bi) =? 0) = negb (Z.testbit x (bi mod 8)).
Proof.
  intros Hbi. unfold bit_mask. pose proof (Z.mod_pos_bound bi 8 ltac:(lia)).
  rewrite Z.shiftl_1_l. destruct (Z.testbit x (bi mod 8)) eqn:E.
  - apply Z.eqb_neq. intros Hz. assert (Ht : Z.testbit (Z.land x (2 ^ (bi mod 8))) (bi mod 8) = false)
      by (rewrite Hz; apply Z.bits_0).
    rewrite Z.land_spec, E, Z.pow2_bits_true in Ht by lia. done.
  - apply Z.eqb_eq. apply Z.bits_inj'. intros n Hn. rewrite Z.land_spec, Z.bits_0.
    destruct (decide (n = bi mod 8)) as [->|Hne]; [by rewrite E|].
    rewrite Z.pow2_bits_false by lia. apply andb_false_r.
Qed.

Lemma byte_testbit_u8 x n : 0 <= n < 8 -> Z.testbit (u8 x) n = Z.testbit x n.
Proof. intros. unfold u8. by rewrite Z.mod_pow2_bits_low by lia. Qed.

Lemma u8_byte x : byte_ok (u8 x).
Proof. unfold byte_ok, u8. apply Z.mod_pos_bound. lia. Qed.

Section bits.
Context (d : block) (Hd : block_ok d).

Lemma bit_index bi : 0 <= bi < BPB -> (Z.to_nat (bi / 8) < length d)%nat.
Proof.
  intros Hbi. destruct Hd as [-> _]. unfold BPB, BSIZE in *.
  assert (bi / 8 < 1024) by (apply Z.div_lt_upper_bound; lia).
  pose proof (Z.div_pos bi 8). lia.
Qed.

Lemma same_byte bi bj :
  0 <= bi -> 0 <= bj -> Z.to_nat (bi / 8) = Z.to_nat (bj / 8) ->
  bi mod 8 = bj mod 8 -> bi = bj.
Proof.
  intros Hi Hj Hd8 Hm. pose proof (Z.div_pos bi 8). pose proof (Z.div_pos bj 8).
  pose proof (Z.div_mod bi 8). pose proof (Z.div_mod bj 8). lia.
Qed.

Lemma bit_at_set bi bj :
  0 <= bi < BPB -> 0 <= bj < BPB ->
  bit_at (set_bit bi d) bj = (bi =? bj) || bit_at d bj.
Proof.
  intros Hi Hj. unfold bit_at, bit_byte at 1, set_bit.
  pose proof (Z.mod_pos_bound bi 8). pose proof (Z.mod_pos_bound bj 8).
  destruct (decide (Z.to_nat (bi / 8) = Z.to_nat (bj / 8))) as [Heq|Hne].
  - rewrite Heq, list_lookup_total_insert_eq by (by apply bit_index).
    rewrite byte_testbit_u8 by lia. rewrite Z.lor_spec.
    unfold bit_mask. rewrite Z.shiftl_1_l. unfold bit_byte. rewrite Heq. fold (bit_byte d bj).
    destruct (Z.eqb_spec bi bj) as [->|Hn].
    + rewrite Z.pow2_bits_true by lia. by rewrite orb_true_r.
    + rewrite Z.pow2_bits_false; [by rewrite orb_false_r|].
      intros Hm. apply Hn. apply same_byte; lia.
  - rewrite list_lookup_total_insert_ne by done. fold (bit_byte d bj).
    destruct (Z.eqb_spec bi bj); [congruence|done].
Qed.

Lemma bit_at_clear bi bj :
  0 <= bi < BPB -> 0 <= bj < BPB ->
  bit_at (clear_bit bi d) bj = negb (bi =? bj) && bit_at d bj.
Proof.
  intros Hi Hj. unfold bit_at, bit_byte at 1, clear_bit.
  pose proof (Z.mod_pos_bound bi 8). pose proof (Z.mod_pos_bound bj 8).
  destruct (decide (Z.to_nat (bi / 8) = Z.to_nat (bj / 8))) as [Heq|Hne].
  - rewrite Heq, list_lookup_total_insert_eq by (by apply bit_index).
    rewrite byte_testbit_u8 by lia. rewrite Z.land_spec, Z.lnot_spec by lia.
    unfold bit_mask. rewrite Z.shiftl_1_l. unfold bit_byte. rewrite Heq. fold (bit_byte d bj).
    destruct (Z.eqb_spec bi bj) as [->|Hn].
    + rewrite Z.pow2_bits_true by lia. by rewrite andb_false_r.
    + rewrite Z.pow2_bits_false; [by rewrite andb_true_r|].
      intros Hm. apply Hn. apply same_byte; lia.
  - rewrite list_lookup_total_insert_ne by done. fold (bit_byte d bj).
    destruct (Z.eqb_spec bi bj); [congruence|done].
Qed.

Lemma set_bit_ok bi : block_ok (set_bit bi d).
Proof.
  destruct Hd as [Hl Hb]. unfold set_bit. split; [by rewrite length_insert|].
  apply Forall_insert; [done|apply u8_byte].
Qed.

Lemma clear_bit_ok bi : block_ok (clear_bit bi d).
Proof.
  destruct Hd as [Hl Hb]. unfold clear_bit. split; [by rewrite length_insert|].
  apply Forall_insert; [done|apply u8_byte].
Qed.
End bits.
#[export] Hint Resolve set_bit_ok clear_bit_ok : kernel.

(** ** Geometry *)

Lemma BBLOCK_range sb b :
  sb_ok sb -> 0 <= b < size sb ->
  BBLOCK b sb = b / BPB + bmapstart sb /\ bmapstart sb <= BBLOCK b sb < nmeta sb.
Proof.
  intros [Hs Hi Hn Hb Hm] Hr. unfold BBLOCK, nmeta in *.
  assert (b / BPB <= size sb / BPB) by (apply Z.div_le_mono; [done|lia]).
  assert (0 <= b / BPB) by (apply Z.div_pos; [lia|done]).
  assert (0 <= ninodes sb / IPB) by (apply Z.div_pos; [lia|done]).
  rewrite u32_small by lia. lia.
Qed.

Lemma BBLOCK_base sb b bi :
  b mod BPB = 0 -> 0 <= bi < BPB ->
  BBLOCK (b + bi) sb = BBLOCK b sb /\ (b + bi) mod BPB = bi.
Proof.
  intros Hb Hbi. unfold BBLOCK.
  pose proof (Z.div_mod b BPB ltac:(done)) as Hd. rewrite Hb, Z.add_0_r in Hd.
  rewrite Hd, Z.mul_comm, Z.div_add_l, Z.div_mul, (Z.div_small bi), Z.add_0_r by done.
  split; [done|]. rewrite Z.add_comm, Z.mod_add by done. by apply Z.mod_small.
Qed.

Lemma balloc_scan_spec fuel d b bi sz :
  0 <= bi -> BPB - bi < Z.of_nat fuel ->
  match balloc_scan fuel d b bi sz with
  | Some j => bi <= j < BPB /\ b + j < sz /\ bit_at d j = false /\
              (forall i, bi <= i < j -> bit_at d i = true)
  | None => forall i, bi <= i < BPB -> b + i < sz -> bit_at d i = true
  end.
Proof.
  revert bi. induction fuel as [|fuel IH]; intros bi Hbi Hf; cbn [balloc_scan]; [lia|].
  destruct ((bi <? BPB) && (b + bi <? sz)) eqn:E.
  - zify_bool. rewrite mask_test by lia. fold (bit_at d bi).
    destruct (bit_at d bi) eqn:Eb; cbn [negb].
    + specialize (IH (bi + 1) ltac:(lia) ltac:(lia)).
      destruct (balloc_scan fuel d b (bi + 1) sz) as [j|].
      * destruct IH as (? & ? & ? & Hall). split_and!; try lia; [done|].
        intros i Hi. destruct (decide (i = bi)) as [->|]; [done|apply Hall; lia].
      * intros i Hi Hs. destruct (decide (i = bi)) as [->|]; [done|apply IH; lia].
    + split_and!; try lia. done.
  - intros i Hi Hs. apply andb_false_iff in E as [E|E]; zify_bool; lia.
Qed.

(** The disk after [balloc] returned [r]. *)
Definition balloc_disk (sb : xv6fs_super_block) (D : gmap Z block) (r : Z) : gmap Z block :=
  <[r := zero_block]>
    (<[BBLOCK r sb := set_bit (r mod BPB) (dblk D (BBLOCK r sb))]> D).

Definition bfree_disk (sb : xv6fs_super_block) (D : gmap Z block) (b : Z) : gmap Z block :=
  <[BBLOCK b sb := clear_bit (b mod BPB) (dblk D (BBLOCK b sb))]> D.

(** What [balloc] leaves behind: no free block, or the first free block, now
    in use and zeroed. *)
Definition balloc_post (sb : xv6fs_super_block) (D : gmap Z block) (r : Z) (D' : gmap Z block) : Prop :=
  (r = 0 /\ D' = D /\ forall b, 0 <= b < size sb -> in_use sb D b = true) \/
  (nmeta sb <= r < size sb /\ in_use sb D r = false /\
   (forall b, 0 <= b < r -> in_use sb D b = true) /\ D' = balloc_disk sb D r).

Lemma in_use_insert sb D b d b' :
  sb_ok sb -> nmeta sb <= b -> 0 <= b' < size sb ->
  in_use sb (<[b := d]> D) b' = in_use sb D b'.
Proof.
  intros Hsb Hb Hb'. unfold in_use. destruct (BBLOCK_range sb b' Hsb Hb') as [_ ?].
  by rewrite dblk_insert_ne by lia.
Qed.

Lemma in_use_set sb D b b' :
  sb_ok sb -> 0 <= b < size sb -> 0 <= b' < size sb -> disk_ok D ->
  in_use sb (<[BBLOCK b sb := set_bit (b mod BPB) (dblk D (BBLOCK b sb))]> D) b' =
  (b =? b') || in_use sb D b'.
Proof.
  intros Hsb Hb Hb' HD. unfold in_use.
  destruct (BBLOCK_range sb b Hsb Hb) as [E _]. destruct (BBLOCK_range sb b' Hsb Hb') as [E' _].
  pose proof (Z.mod_pos_bound b BPB ltac:(done)). pose proof (Z.mod_pos_bound b' BPB ltac:(done)).
  pose proof (Z.div_mod b BPB ltac:(done)). pose proof (Z.div_mod b' BPB ltac:(done)).
  destruct (decide (BBLOCK b sb = BBLOCK b' sb)) as [Heq|Hne].
  - rewrite Heq, dblk_insert_eq. rewrite bit_at_set by auto. f_equal.
    rewrite E, E' in Heq. destruct (Z.eqb_spec b b'), (Z.eqb_spec (b mod BPB) (b' mod BPB)); try done; nia.
  - rewrite dblk_insert_ne by done. destruct (Z.eqb_spec b b'); [congruence|done].
Qed.

Lemma in_use_clear sb D b b' :
  sb_ok sb -> 0 <= b < size sb -> 0 <= b' < size sb -> disk_ok D ->
  in_use sb (bfree_disk sb D b) b' = negb (b =? b') && in_use sb D b'.
Proof.
  intros Hsb Hb Hb' HD. unfold in_use, bfree_disk.
  destruct (BBLOCK_range sb b Hsb Hb) as [E _]. destruct (BBLOCK_range sb b' Hsb Hb') as [E' _].
  pose proof (Z.mod_pos_bound b BPB ltac:(done)). pose proof (Z.mod_pos_bound b' BPB ltac:(done)).
  pose proof (Z.div_mod b BPB ltac:(done)). pose proof (Z.div_mod b' BPB ltac:(done)).
  destruct (decide (BBLOCK b sb = BBLOCK b' sb)) as [Heq|Hne].
  - rewrite Heq, dblk_insert_eq. rewrite bit_at_clear by auto. do 2 f_equal.
    rewrite E, E' in Heq. destruct (Z.eqb_spec b b'), (Z.eqb_spec (b mod BPB) (b' mod BPB)); try done; nia.
  - rewrite dblk_insert_ne by done. destruct (Z.eqb_spec b b'); [congruence|done].
Qed.

Lemma in_use_balloc sb D r b :
  sb_ok sb -> nmeta sb <= r < size sb -> 0 <= b < size sb -> disk_ok D ->
  in_use sb (balloc_disk sb D r) b = (r =? b) || in_use sb D b.
Proof.
  intros Hsb Hr Hb HD. unfold balloc_disk.
  assert (0 <= nmeta sb).
  { unfold nmeta. destruct Hsb. assert (0 <= size sb / BPB) by (apply Z.div_pos; [lia|done]).
    assert (0 <= ninodes sb / IPB) by (apply Z.div_pos; [lia|done]). lia. }
  rewrite in_use_insert by (done || lia). apply in_use_set; try done; lia.
Qed.

(** ** Specifications *)

Section specs.
Context {C : Type} `{BL : BlockCacheLaws C}.
Implicit Types (c : C) (sb : xv6fs_super_block).

(** The buffers the caller keeps while it allocates or frees are buffers of
    data blocks in use. *)
Definition held_data sb c : Prop :=
  forall h b d, bc_held c !! h = Some (b, d) ->
    nmeta sb <= b < size sb /\ in_use sb (bc_disk c) b = true.

(** A file system mounted on the cache, with [n] buffers to spare. *)
Record mounted (n : nat) sb c : Prop := {
  mt_inv : bc_inv c;
  mt_sb : sb_ok sb;
  mt_meta : meta_used sb (bc_disk c);
  mt_held : held_data sb c;
  mt_room : room n c;
}.

Lemma mounted_mono n m sb c : (m <= n)%nat -> mounted n sb c -> mounted m sb c.
Proof. intros ? []. split; eauto using room_mono. Qed.

Lemma mounted_unheld_meta n sb c b : mounted n sb c -> b < nmeta sb -> unheld c b.
Proof. intros [] Hb h b' d Hh. apply mt_held0 in Hh. lia. Qed.

Lemma mounted_unheld_free n sb c b :
  mounted n sb c -> in_use sb (bc_disk c) b = false -> unheld c b.
Proof. intros [] Hb h b' d Hh ->. apply mt_held0 in Hh. by destruct Hh as [_ ?]; congruence. Qed.

Lemma mounted_same n sb c c' :
  mounted n sb c -> bc_inv c' -> bc_disk c' = bc_disk c -> bc_held c' = bc_held c ->
  mounted n sb c'.
Proof.
  intros [] HI HD Hh. split; [done|done| | |].
  - by rewrite HD.
  - unfold held_data. by rewrite HD, Hh.
  - by eapply room_same.
Qed.

Lemma nmeta_pos sb : sb_ok sb -> 2 < nmeta sb /\ 0 < bmapstart sb.
Proof.
  intros []. unfold nmeta.
  assert (0 <= size sb / BPB) by (apply Z.div_pos; [lia|done]).
  assert (0 <= ninodes sb / IPB) by (apply Z.div_pos; [lia|done]). lia.
Qed.

Lemma bzero_wp bno c :
  bc_inv c -> unheld c bno -> room 1 c ->
  wp (bzero ROOTDEV bno) (fun _ c' =>
    bc_inv c' /\ bc_disk c' = <[bno := zero_block]> (bc_disk c) /\ bc_held c' = bc_held c) c.
Proof.
  intros HI Hu Hr. unfold bzero. wp_use bread_law; [done|done|unfold room in Hr; lia|].
  intros h c1 (HI1 & HD1 & Hn & Hh1).
  eapply wp_commit; [done|rewrite Hh1; apply lookup_insert_eq|apply zero_block_ok|].
  intros c2 HI2 HD2 Hh2. split_and!; [done|congruence|].
  by rewrite Hh2, Hh1, held_restore.
Qed.

Lemma readsb_wp c :
  bc_inv c -> unheld c 1 -> room 1 c ->
  wp (readsb ROOTDEV) (fun sb c' => sb = sb_of_bytes (dblk (bc_disk c) 1) /\
    bc_inv c' /\ bc_disk c' = bc_disk c /\ bc_held c' = bc_held c) c.
Proof.
  intros HI Hu Hr. unfold readsb. apply wp_read; [done..|]. intros h c1 HI1 HD1 Hn Hh1.
  apply wp_bind. eapply wp_release; [done|rewrite Hh1; apply lookup_insert_eq|by rewrite HD1|].
  intros c2 HI2 HD2 Hh2. apply wp_ret. split_and!; [done|done|congruence|].
  by rewrite Hh2, Hh1, held_restore.
Qed.

(** One bitmap block searched by [balloc_loop]. *)
Lemma balloc_scan_in_use sb D b :
  sb_ok sb -> 0 <= b < size sb -> b mod BPB = 0 ->
  match balloc_scan (S (Z.to_nat BPB)) (dblk D (BBLOCK b sb)) b 0 (size sb) with
  | Some j => 0 <= j < BPB /\ b + j < size sb /\ in_use sb D (b + j) = false /\
              forall b', b <= b' < b + j -> in_use sb D b' = true
  | None => forall b', b <= b' < b + BPB -> b' < size sb -> in_use sb D b' = true
  end.
Proof.
  intros Hsb Hb Hm.
  pose proof (balloc_scan_spec (S (Z.to_nat BPB)) (dblk D (BBLOCK b sb)) b 0 (size sb)
    ltac:(lia) ltac:(lia)) as Hs.
  assert (Hin : forall j, 0 <= j < BPB ->
    in_use sb D (b + j) = bit_at (dblk D (BBLOCK b sb)) j).
  { intros j Hj. unfold in_use. by destruct (BBLOCK_base sb b j Hm Hj) as [-> ->]. }
  destruct (balloc_scan _ _ _ _ _) as [j|].
  - destruct Hs as (? & ? & ? & Hall). split_and!; try lia.
    + by rewrite Hin.
    + intros b' Hb'. replace b' with (b + (b' - b)) by lia. rewrite Hin by lia. apply Hall; lia.
  - intros b' Hb' ?. replace b' with (b + (b' - b)) by lia. rewrite Hin by lia. apply Hs; lia.
Qed.

(** [balloc] found the clear bit [r]: set it, write the bitmap block back, zero
    the block. *)
Lemma balloc_take_wp sb h d c0 c1 r j :
  mounted 1 sb c0 -> bc_inv c1 -> bc_disk c1 = bc_disk c0 -> bc_held c0 !! h = None ->
  bc_held c1 = <[h := (BBLOCK r sb, d)]> (bc_held c0) ->
  d = dblk (bc_disk c0) (BBLOCK r sb) -> j = r mod BPB ->
  nmeta sb <= r < size sb -> in_use sb (bc_disk c0) r = false ->
  wp (bset h (set_bit j d) ;; bwrite h ;; brelse h ;; bzero ROOTDEV r ;; ret r)
    (fun r' c' => r' = r /\ bc_inv c' /\ bc_disk c' = balloc_disk sb (bc_disk c0) r /\
       bc_held c' = bc_held c0) c1.
Proof.
  intros Hm HI1 HD1 Hn Hh1 -> -> Hr Hf.
  assert (Hok : block_ok (dblk (bc_disk c0) (BBLOCK r sb)))
    by apply (bc_disk_ok _ (mt_inv _ _ _ Hm)).
  wp_use bset_law; [done|rewrite Hh1; apply lookup_insert_eq|by apply set_bit_ok|].
  intros _ c2 (HI2 & HD2 & Hh2).
  wp_use bwrite_law; [done|rewrite Hh2; apply lookup_insert_eq|].
  intros _ c3 (HI3 & HD3 & Hh3). apply wp_bind.
  eapply wp_release; [done|rewrite Hh3, Hh2; apply lookup_insert_eq|by rewrite HD3, dblk_insert_eq|].
  intros c4 HI4 HD4 Hh4.
  assert (E4 : bc_held c4 = bc_held c0).
  { rewrite Hh4, Hh3, Hh2, Hh1, insert_insert_eq. by rewrite held_restore. }
  wp_use bzero_wp; [done| | |].
  - eapply unheld_same; [exact E4|]. by eapply mounted_unheld_free.
  - eapply room_same; [exact E4|]. by destruct Hm.
  - intros _ c5 (HI5 & HD5 & Hh5). apply wp_ret. split_and!; [done|done| |congruence].
    rewrite HD5, HD4, HD3, HD2, HD1. done.
Qed.

Lemma balloc_loop_wp fuel sb b c :
  mounted 1 sb c -> 0 <= b -> b mod BPB = 0 ->
  size sb - b < Z.of_nat fuel * BPB ->
  (forall b', 0 <= b' < b -> b' < size sb -> in_use sb (bc_disk c) b' = true) ->
  wp (balloc_loop fuel sb ROOTDEV b) (fun r c' =>
    bc_inv c' /\ bc_held c' = bc_held c /\ balloc_post sb (bc_disk c) r (bc_disk c')) c.
Proof.
  revert b c. induction fuel as [|fuel IH]; intros b c Hm Hb Hmod Hf Hall;
    cbn [balloc_loop].
  - apply wp_ret. split_and!; [by destruct Hm|done|]. left. split_and!; [done..|].
    intros b' Hb'. apply Hall; lia.
  - case_if.
    2:{ apply wp_ret. split_and!; [by destruct Hm|done|]. left. split_and!; [done..|].
        intros b' Hb'. apply Hall; lia. }
    pose proof (mt_sb _ _ _ Hm) as Hsb.
    destruct (BBLOCK_range sb b Hsb ltac:(lia)) as [_ HB].
    apply wp_read; [by destruct Hm|eapply mounted_unheld_meta; [done|lia]|by destruct Hm|].
    intros h c1 HI1 HD1 Hn Hh1.
    pose proof (balloc_scan_in_use sb (bc_disk c) b Hsb ltac:(lia) Hmod) as Hs.
    destruct (balloc_scan _ _ _ _ _) as [j|].
    + destruct Hs as (Hj & Hlt & Hfree & Hbef).
      destruct (BBLOCK_base sb b j Hmod Hj) as [EB EM].
      assert (nmeta sb <= b + j).
      { destruct (decide (nmeta sb <= b + j)); [done|].
        rewrite (mt_meta _ _ _ Hm) in Hfree by lia. done. }
      eapply wp_mono.
      * eapply (balloc_take_wp sb h); try done; [by rewrite EB|by rewrite EB].
      * cbn beta. intros r c2 (-> & HI2 & HD2 & Hh2). split_and!; [done..|]. right.
        split_and!; try done.
        intros b' Hb'. destruct (decide (b' < b)); [apply Hall; lia|apply Hbef; lia].
    + apply wp_bind. eapply wp_release;
        [done|rewrite Hh1; apply lookup_insert_eq|by rewrite HD1|].
      intros c2 HI2 HD2 Hh2. rewrite Hh1, held_restore in Hh2 by done. rewrite HD1 in HD2.
      eapply wp_mono.
      * apply (IH (b + BPB) c2); [by eapply mounted_same|unfold BPB, BSIZE; lia| |lia|].
        -- by rewrite <-(Z.mul_1_l BPB) at 1; rewrite Z.mod_add.
        -- rewrite HD2. intros b' Hb' ?. destruct (decide (b' < b)); [apply Hall|apply Hs]; lia.
      * cbn beta. rewrite HD2, Hh2. done.
Qed.

Lemma balloc_wp sb c :
  mounted 1 sb c ->
  wp (balloc sb ROOTDEV) (fun r c' =>
    bc_inv c' /\ bc_held c' = bc_held c /\ balloc_post sb (bc_disk c) r (bc_disk c')) c.
Proof.
  intros Hm. unfold balloc. pose proof (sbo_size _ (mt_sb _ _ _ Hm)).
  apply balloc_loop_wp; [done|lia|done| |intros; lia].
  pose proof (Z.div_mod (size sb) BPB ltac:(done)).
  pose proof (Z.mod_pos_bound (size sb) BPB ltac:(done)).
  assert (0 <= size sb / BPB) by (apply Z.div_pos; [lia|done]). nia.
Qed.

Lemma bfree_wp sb b c :
  mounted 1 sb c -> 0 <= b < size sb -> in_use sb (bc_disk c) b = true ->
  wp (bfree sb ROOTDEV b) (fun _ c' =>
    bc_inv c' /\ bc_disk c' = bfree_disk sb (bc_disk c) b /\ bc_held c' = bc_held c) c.
Proof.
  intros Hm Hb Hu. unfold bfree. destruct (BBLOCK_range sb b (mt_sb _ _ _ Hm) Hb) as [_ HB].
  apply wp_read; [by destruct Hm|eapply mounted_unheld_meta; [done|lia]|by destruct Hm|].
  intros h c1 HI1 HD1 Hn Hh1.
  rewrite mask_test by (apply Z.mod_pos_bound; done).
  fold (bit_at (dblk (bc_disk c) (BBLOCK b sb)) (b mod BPB)).
  fold (in_use sb (bc_disk c) b). rewrite Hu. cbn [negb].
  eapply wp_commit; [done|rewrite Hh1; apply lookup_insert_eq| |].
  - apply clear_bit_ok. apply (bc_disk_ok _ (mt_inv _ _ _ Hm)).
  - intros c2 HI2 HD2 Hh2. split_and!; [done|by rewrite HD2, HD1|].
    by rewrite Hh2, Hh1, held_restore.
Qed.


Lemma bfree_free_stops sb b c :
  mounted 1 sb c -> 0 <= b < size sb -> in_use sb (bc_disk c) b = false ->
  stops (bfree sb ROOTDEV b) (SPanic "freeing free block") c.
Proof.
  intros Hm Hb Hu. destruct (BBLOCK_range sb b (mt_sb _ _ _ Hm) Hb) as [_ HB].
  pose proof (mt_room _ _ _ Hm) as Hr. unfold room in Hr.
  unfold bfree. apply stops_bind. eapply wp_mono; [eapply bread_law; [apply Hm| |lia]|cbn beta].
  { intros h b' d Hh. eapply (mounted_unheld_meta 1 sb c); eauto. lia. }
  intros h c1 (HI1 & HD1 & Hn & Hh1). apply stops_bind.
  eapply wp_run; [eapply bdata_law; [done|rewrite Hh1; apply lookup_insert_eq]|].
  rewrite mask_test by (apply Z.mod_pos_bound; done).
  fold (bit_at (dblk (bc_disk c) (BBLOCK b sb)) (b mod BPB)).
  fold (in_use sb (bc_disk c) b). by rewrite Hu.
Qed.

(** ** The allocator's contract *)

(** [balloc] returns the lowest-numbered free block, marked in use
    and zeroed, with every other bit of the bitmap and every other block of the
    inode and data areas unchanged, or 0 exactly when no block is free, with the
    disk unchanged; either way it gives back every buffer it took. *)
Theorem balloc_allocates sb c :
  mounted 1 sb c ->
  exists r c', balloc sb ROOTDEV c = Ok r c' /\ bc_inv c' /\ bc_held c' = bc_held c /\
    ((r = 0 /\ bc_disk c' = bc_disk c /\
      forall b, 0 <= b < size sb -> in_use sb (bc_disk c) b = true) \/
     (nmeta sb <= r < size sb /\ in_use sb (bc_disk c) r = false /\
      (forall b, 0 <= b < r -> in_use sb (bc_disk c) b = true) /\
      dblk (bc_disk c') r = zero_block /\
      (forall b, 0 <= b < size sb ->
         in_use sb (bc_disk c') b = (r =? b) || in_use sb (bc_disk c) b) /\
      (forall b, b <> r -> b < bmapstart sb \/ nmeta sb <= b ->
         dblk (bc_disk c') b = dblk (bc_disk c) b))).
Proof.
  intros Hm. destruct (wp_elim _ _ _ (balloc_wp sb c Hm)) as (r & c' & Hrun & HI' & Hh' & Hp).
  pose proof (mt_sb _ _ _ Hm) as Hsb. pose proof (nmeta_pos sb Hsb).
  exists r, c'. split_and!; [done..|].
  destruct Hp as [Hp|(Hr & Hf & Hlow & ->)]; [by left|right].
  split_and!; try done; try lia.
  - unfold balloc_disk. apply dblk_insert_eq.
  - intros b Hb. apply in_use_balloc; try done. apply (bc_disk_ok _ (mt_inv _ _ _ Hm)).
  - intros b Hne Hb. destruct (BBLOCK_range sb r Hsb ltac:(lia)) as [_ ?].
    unfold balloc_disk. by rewrite !dblk_insert_ne by lia.
Qed.

(** [bfree] of a block in use clears that block's bit and no other,
    leaves the inode and data areas unchanged and gives back its buffer; on a
    block that is already free it panics instead of freeing it twice. *)
Theorem bfree_releases sb b c :
  mounted 1 sb c -> 0 <= b < size sb ->
  if in_use sb (bc_disk c) b then
    exists c', bfree sb ROOTDEV b c = Ok tt c' /\ bc_inv c' /\ bc_held c' = bc_held c /\
      (forall b', 0 <= b' < size sb ->
         in_use sb (bc_disk c') b' = negb (b =? b') && in_use sb (bc_disk c) b') /\
      (forall b', b' < bmapstart sb \/ nmeta sb <= b' ->
         dblk (bc_disk c') b' = dblk (bc_disk c) b')
  else bfree sb ROOTDEV b c = Stop (SPanic "freeing free block").
Proof.
  intros Hm Hb. pose proof (mt_sb _ _ _ Hm) as Hsb. destruct (in_use sb (bc_disk c) b) eqn:Hu.
  - destruct (wp_elim _ _ _ (bfree_wp sb b c Hm Hb Hu)) as ([] & c' & Hrun & HI' & HD' & Hh').
    exists c'. split_and!; [done..| |].
    + intros b' Hb'. rewrite HD'. apply in_use_clear; try done. apply (bc_disk_ok _ (mt_inv _ _ _ Hm)).
    + intros b' Hb'. rewrite HD'. destruct (BBLOCK_range sb b Hsb Hb) as [_ ?].
      unfold bfree_disk. by rewrite dblk_insert_ne by lia.
  - by apply bfree_free_stops.
Qed.

End specs.

(** ** A small disk *)

(** Forty blocks: boot block, super block, two inode blocks (sixteen inodes),
    one bitmap block and thirty-five data blocks, none of them in use. *)
Definition ex_sb : xv6fs_super_block := {|
  magic := FSMAGIC; size := 40; nblocks := 35; ninodes := 16; nlog := 0; logstart := 2;
  inodestart := 2; bmapstart := 4 |}.

Definition pad_block (l : list Z) : block := l ++ replicate (Z.to_nat BSIZE - length l) 0.

Definition ex_raw : gmap Z block :=
  <[1 := pad_block (bytes_of_sb ex_sb)]> (<[4 := pad_block [31]]> ∅).

Lemma ex_sb_ok : sb_ok ex_sb.
Proof. repeat split; vm_compute; (reflexivity || (intros H; discriminate H)). Qed.

Lemma pad_block_ok l :
  Forall byte_ok l -> (length l <= Z.to_nat BSIZE)%nat -> block_ok (pad_block l).
Proof.
  intros Hl Hn. unfold pad_block. split.
  - rewrite length_app, length_replicate. lia.
  - apply Forall_app. split; [done|]. apply Forall_replicate. unfold byte_ok. lia.
Qed.

Lemma ex_raw_ok : disk_ok ex_raw.
Proof.
  unfold ex_raw. apply disk_ok_insert; [apply disk_ok_insert; [apply disk_ok_empty|]|].
  - apply pad_block_ok; [constructor; [unfold byte_ok; lia|apply Forall_nil_2]|unfold BSIZE; cbn [length]; lia].
  - apply pad_block_ok; [|vm_compute; lia].
    unfold bytes_of_sb. rewrite !Forall_app. split_and!; apply le_enc_bytes.
Qed.

(** The free blocks of a disk whose bitmap block is the small disk's. *)
Lemma ex_in_use D b :
  dblk D 4 = pad_block [31] -> 0 <= b < 40 -> in_use ex_sb D b = (b <? 5).
Proof.
  intros HD Hb. unfold in_use. rewrite (Z.mod_small b BPB) by (change BPB with 8192; lia).
  replace (BBLOCK b ex_sb) with 4 by (unfold BBLOCK; rewrite Z.div_small by (change BPB with 8192; lia); done).
  rewrite HD. assert (Hall : forallb (fun b => Bool.eqb (bit_at (pad_block [31]) b) (b <? 5)) (seqZ 0 40) = true)
    by (vm_compute; reflexivity).
  rewrite forallb_forall in Hall. apply Bool.eqb_prop, Hall, list_elem_of_In, elem_of_seqZ. lia.
Qed.

Lemma ex_mounted D pid n :
  disk_ok D -> dblk D 4 = pad_block [31] -> (n <= NBUF)%nat -> mounted n ex_sb (Bio.boot D pid).
Proof.
  intros HD H4 Hn. destruct (Bio.boot_view D pid HD) as (HI & ED & EH). split.
  - exact HI.
  - apply ex_sb_ok.
  - rewrite ED. intros b Hb. change (nmeta ex_sb) with 5 in Hb.
    rewrite ex_in_use; [apply Z.ltb_lt; lia|exact H4|lia].
  - unfold held_data. rewrite EH. intros h b d Hh. by rewrite lookup_empty in Hh.
  - unfold room. rewrite EH. exact Hn.
Qed.

Lemma ex_raw_mounted : mounted 1 ex_sb (Bio.boot ex_raw 1).
Proof. apply ex_mounted; [apply ex_raw_ok|vm_compute; reflexivity|unfold NBUF; lia]. Qed.

Lemma ex_raw_disk : bc_disk (Bio.boot ex_raw 1) = ex_raw.
Proof. apply (Bio.boot_view ex_raw 1 ex_raw_ok). Qed.

Lemma ex_raw_in_use b : 0 <= b < 40 -> in_use ex_sb ex_raw b = (b <? 5).
Proof. apply ex_in_use. vm_compute. reflexivity. Qed.

Lemma balloc_allocates_witness :
  exists c', balloc ex_sb ROOTDEV (Bio.boot ex_raw 1) = Ok 5 c' /\
    dblk (bc_disk c') 5 = zero_block /\ in_use ex_sb (bc_disk c') 5 = true.
Proof.
  destruct (balloc_allocates ex_sb (Bio.boot ex_raw 1) ex_raw_mounted)
    as (r & c' & Hrun & _ & _ & [(_ & _ & Hall)|(Hr & Hf & Hlow & Hz & Hu & _)]).
  - rewrite ex_raw_disk in Hall. specialize (Hall 5 ltac:(cbn; lia)).
    rewrite ex_raw_in_use in Hall by lia. discriminate Hall.
  - rewrite ex_raw_disk in *. change (nmeta ex_sb) with 5 in Hr. change (size ex_sb) with 40 in *.
    assert (r = 5) as ->.
    { destruct (decide (r = 5)); [done|]. specialize (Hlow 5 ltac:(lia)).
      rewrite ex_raw_in_use in Hlow by lia. discriminate Hlow. }
    exists c'. split_and!; [exact Hrun|exact Hz|]. rewrite Hu by lia. reflexivity.
Defined.

Lemma bfree_releases_witness :
  bfree ex_sb ROOTDEV 20 (Bio.boot ex_raw 1) = Stop (SPanic "freeing free block") /\
  exists c', bfree ex_sb ROOTDEV 3 (Bio.boot ex_raw 1) = Ok tt c' /\
    in_use ex_sb (bc_disk c') 3 = false /\ in_use ex_sb (bc_disk c') 2 = true.
Proof.
  split.
  - pose proof (bfree_releases ex_sb 20 (Bio.boot ex_raw 1) ex_raw_mounted ltac:(cbn; lia)) as Hf.
    rewrite ex_raw_disk, ex_raw_in_use in Hf by lia. exact Hf.
  - pose proof (bfree_releases ex_sb 3 (Bio.boot ex_raw 1) ex_raw_mounted ltac:(cbn; lia)) as Hf.
    rewrite ex_raw_disk, ex_raw_in_use in Hf by lia. destruct Hf as (c' & Hrun & _ & _ & Hu & _).
    exists c'. split_and!; [exact Hrun| |]; rewrite Hu by (cbn; lia).
    + reflexivity.
    + rewrite ex_raw_in_use by lia. reflexivity.
Defined.
