(* ===== verification/Inode.v ===== *)
(** * Inodes: on-disk format and block maps (kernel/fs/xv6fs/fs.c)

    [dinode] and its encoding, the parts of [struct inode] and
    [struct xv6fs_inode] the file system reads, and [readblock], the search of
    [xv6fs_ialloc], [xv6fs_iupdate], [bmap] and [xv6fs_itrunc] over the
    block-cache interface.  The in-memory inode is passed and returned as a
    value; [Vfs.v] keeps it in the inode table. *)

From S2P Require Import Prelude Sleeplock BlockCache Bio Blocks.

(** ** Data *)

Definition T_DIR : Z := 1.
Definition T_FILE : Z := 2.
Definition T_DEVICE : Z := 3.

Record dinode : Type := {
  d_type : Z;
  d_major : Z;
  d_minor : Z;
  d_nlink : Z;
  d_size : Z;
  d_addrs : list Z;
}.

(** [struct xv6fs_inode]: the file-system specific part of an inode. *)
Record xv6fs_inode : Type := {
  xi_dev : Z;
  xi_valid : Z;
  xi_major : Z;
  xi_minor : Z;
  addrs : list Z;
}.

(** [struct inode].  [i_op] and [i_sb] tell whether the pointer is set, and
    [i_private] is the address of the page holding the [xv6fs_inode]. *)
Record inode : Type := {
  i_op : bool;
  i_sb : bool;
  i_inum : Z;
  i_ref : Z;
  i_lock : sleeplock;
  i_type : Z;
  i_dev : Z;
  i_size : Z;
  i_nlink : Z;
  i_private : Z;
}.

(** *** Field updates *)

Definition set_addrs (a : list Z) (ipp : xv6fs_inode) : xv6fs_inode :=
  {| xi_dev := xi_dev ipp; xi_valid := xi_valid ipp; xi_major := xi_major ipp;
     xi_minor := xi_minor ipp; addrs := a |}.
Definition set_addr (i : nat) (a : Z) (ipp : xv6fs_inode) : xv6fs_inode :=
  set_addrs (<[i := a]> (addrs ipp)) ipp.
Definition set_dev_numbers (major minor : Z) (ipp : xv6fs_inode) : xv6fs_inode :=
  {| xi_dev := xi_dev ipp; xi_valid := xi_valid ipp; xi_major := major;
     xi_minor := minor; addrs := addrs ipp |}.

Definition set_ref (r : Z) (ip : inode) : inode :=
  {| i_op := i_op ip; i_sb := i_sb ip; i_inum := i_inum ip; i_ref := r; i_lock := i_lock ip;
     i_type := i_type ip; i_dev := i_dev ip; i_size := i_size ip; i_nlink := i_nlink ip;
     i_private := i_private ip |}.
Definition set_lock (l : sleeplock) (ip : inode) : inode :=
  {| i_op := i_op ip; i_sb := i_sb ip; i_inum := i_inum ip; i_ref := i_ref ip; i_lock := l;
     i_type := i_type ip; i_dev := i_dev ip; i_size := i_size ip; i_nlink := i_nlink ip;
     i_private := i_private ip |}.
Definition set_type (t : Z) (ip : inode) : inode :=
  {| i_op := i_op ip; i_sb := i_sb ip; i_inum := i_inum ip; i_ref := i_ref ip; i_lock := i_lock ip;
     i_type := t; i_dev := i_dev ip; i_size := i_size ip; i_nlink := i_nlink ip;
     i_private := i_private ip |}.
Definition set_size (n : Z) (ip : inode) : inode :=
  {| i_op := i_op ip; i_sb := i_sb ip; i_inum := i_inum ip; i_ref := i_ref ip; i_lock := i_lock ip;
     i_type := i_type ip; i_dev := i_dev ip; i_size := n; i_nlink := i_nlink ip;
     i_private := i_private ip |}.
Definition set_nlink (n : Z) (ip : inode) : inode :=
  {| i_op := i_op ip; i_sb := i_sb ip; i_inum := i_inum ip; i_ref := i_ref ip; i_lock := i_lock ip;
     i_type := i_type ip; i_dev := i_dev ip; i_size := i_size ip; i_nlink := n;
     i_private := i_private ip |}.
Definition set_private (p : Z) (ip : inode) : inode :=
  {| i_op := i_op ip; i_sb := i_sb ip; i_inum := i_inum ip; i_ref := i_ref ip; i_lock := i_lock ip;
     i_type := i_type ip; i_dev := i_dev ip; i_size := i_size ip; i_nlink := i_nlink ip;
     i_private := p |}.

(** ** The on-disk encoding *)

Definition NADDRS : nat := Z.to_nat NDIRECT + 1.

Definition words_of_bytes (n : nat) (d : list Z) : list Z :=
  map (fun i => get32 (4 * i) d) (seq 0 n).

Fixpoint bytes_of_words (ws : list Z) : list Z :=
  match ws with
  | [] => []
  | w :: ws => le_enc 4 w ++ bytes_of_words ws
  end.

Definition dinode_of_bytes (l : list Z) : dinode := {|
  d_type := s16 (get16 0 l); d_major := s16 (get16 2 l);
  d_minor := s16 (get16 4 l); d_nlink := s16 (get16 6 l);
  d_size := get32 8 l; d_addrs := words_of_bytes NADDRS (drop 12 l) |}.

Definition bytes_of_dinode (di : dinode) : list Z :=
  le_enc 2 (d_type di) ++ le_enc 2 (d_major di) ++ le_enc 2 (d_minor di) ++
  le_enc 2 (d_nlink di) ++ le_enc 4 (d_size di) ++ bytes_of_words (d_addrs di).

(** The [inum % IPB]-th [struct dinode] of [bp->data]. *)
Definition dino_off (inum : Z) : nat := Z.to_nat (inum mod IPB * DINODE_SIZE).
Definition get_dinode (inum : Z) (d : block) : dinode :=
  dinode_of_bytes (slice (dino_off inum) (Z.to_nat DINODE_SIZE) d).
Definition put_dinode (inum : Z) (di : dinode) (d : block) : block :=
  splice (dino_off inum) (bytes_of_dinode di) d.

(** The dinode [xv6fs_iupdate] writes, and the free one with only its type
    set that [xv6fs_ialloc] writes. *)
Definition dinode_of (ip : inode) (ipp : xv6fs_inode) : dinode := {|
  d_type := i_type ip; d_major := xi_major ipp; d_minor := xi_minor ipp;
  d_nlink := i_nlink ip; d_size := i_size ip; d_addrs := addrs ipp |}.
Definition fresh_dinode (type : Z) : dinode := {|
  d_type := type; d_major := 0; d_minor := 0; d_nlink := 0; d_size := 0;
  d_addrs := replicate NADDRS 0 |}.

(** ** Operations *)

Section Inode.
Context {C : Type} `{BC : BlockCache C}.
Context (sb : xv6fs_super_block).

(** [readblock] when [ip->private] is null, with [page] the page [kalloc]
    returned. *)
Definition readblock (page : Z) (ip : inode) : M C (inode * xv6fs_inode) :=
  bp <- bread (i_dev ip) (IBLOCK (i_inum ip) sb) ;;
  d <- bdata bp ;;
  let dip := get_dinode (i_inum ip) d in
  let ip := set_size (d_size dip) (set_nlink (d_nlink dip) (set_type (d_type dip) ip)) in
  let ipp := {| xi_dev := 1; xi_valid := 1; xi_major := d_major dip;
                xi_minor := d_minor dip; addrs := d_addrs dip |} in
  brelse bp ;;
  if i_type ip =? 0 then panic "ilock: no type"
  else ret (set_private page ip, ipp).

(** The loop of [xv6fs_ialloc] over the inode numbers, up to the call of
    [iget]: the number of the inode it took, or [None]. *)
Fixpoint ialloc_loop (fuel : nat) (dev type inum : Z) : M C (option Z) :=
  match fuel with
  | O => ret None
  | S fuel =>
      if inum <? ninodes sb then
        bp <- bread dev (IBLOCK inum sb) ;;
        d <- bdata bp ;;
        if d_type (get_dinode inum d) =? 0 then
          bset bp (put_dinode inum (fresh_dinode type) d) ;;
          bwrite bp ;;
          brelse bp ;;
          ret (Some inum)
        else
          brelse bp ;;
          ialloc_loop fuel dev type (inum + 1)
      else ret None
  end.

Definition ialloc_scan (dev type : Z) : M C (option Z) :=
  ialloc_loop (Z.to_nat (ninodes sb)) dev type 1.

Definition xv6fs_iupdate (ip : inode) (ipp : xv6fs_inode) : M C unit :=
  bp <- bread (i_dev ip) (IBLOCK (i_inum ip) sb) ;;
  d <- bdata bp ;;
  bset bp (put_dinode (i_inum ip) (dinode_of ip ipp) d) ;;
  bwrite bp ;;
  brelse bp.

Definition bmap (ip : xv6fs_inode) (bn : Z) : M C (Z * xv6fs_inode) :=
  if bn <? NDIRECT then
    let addr := addrs ip !!! Z.to_nat bn in
    if addr =? 0 then
      addr <- balloc sb (xi_dev ip) ;;
      if addr =? 0 then ret (0, ip)
      else ret (addr, set_addr (Z.to_nat bn) addr ip)
    else ret (addr, ip)
  else
    let bn := bn - NDIRECT in
    if bn <? NINDIRECT then
      ' (addr, ip) <-
        (let addr := addrs ip !!! Z.to_nat NDIRECT in
         if addr =? 0 then
           addr <- balloc sb (xi_dev ip) ;;
           ret (addr, if addr =? 0 then ip else set_addr (Z.to_nat NDIRECT) addr ip)
         else ret (addr, ip)) ;;
      if addr =? 0 then ret (0, ip)
      else
        bp <- bread (xi_dev ip) addr ;;
        d <- bdata bp ;;
        let addr := get32 (4 * Z.to_nat bn) d in
        addr <- (if addr =? 0 then
                   addr <- balloc sb (xi_dev ip) ;;
                   if addr =? 0 then ret addr
                   else
                     bset bp (put32 (4 * Z.to_nat bn) addr d) ;;
                     bwrite bp ;;
                     ret addr
                 else ret addr) ;;
        brelse bp ;;
        ret (addr, ip)
    else panic "bmap: out of range".

(** [for(i = 0; i < NDIRECT; i++)] of [xv6fs_itrunc]. *)
Fixpoint itrunc_direct (n i : nat) (dev : Z) (ipp : xv6fs_inode) : M C xv6fs_inode :=
  match n with
  | O => ret ipp
  | S n =>
      let a := addrs ipp !!! i in
      ipp <- (if a =? 0 then ret ipp
              else bfree sb dev a ;; ret (set_addr i 0 ipp)) ;;
      itrunc_direct n (S i) dev ipp
  end.

(** [for(j = 0; j < NINDIRECT; j++)], with [a] pointing into the buffer [bp]. *)
Fixpoint itrunc_indirect (n j : nat) (dev : Z) (bp : nat) : M C unit :=
  match n with
  | O => ret tt
  | S n =>
      d <- bdata bp ;;
      let a := get32 (4 * j) d in
      (if a =? 0 then ret tt else bfree sb dev a) ;;
      itrunc_indirect n (S j) dev bp
  end.

Definition xv6fs_itrunc (ip : inode) (ipp : xv6fs_inode) : M C (inode * xv6fs_inode) :=
  ipp <- itrunc_direct (Z.to_nat NDIRECT) 0 (i_dev ip) ipp ;;
  let a := addrs ipp !!! Z.to_nat NDIRECT in
  ipp <- (if a =? 0 then ret ipp
          else
            bp <- bread (i_dev ip) a ;;
            itrunc_indirect (Z.to_nat NINDIRECT) 0 (i_dev ip) bp ;;
            brelse bp ;;
            bfree sb (i_dev ip) a ;;
            ret (set_addr (Z.to_nat NDIRECT) 0 ipp)) ;;
  let ip := set_size 0 ip in
  xv6fs_iupdate ip ipp ;;
  ret (ip, ipp).

End Inode.

(** ** The encoding round trips *)

Definition word_ok (w : Z) : Prop := 0 <= w < 2 ^ 32.
Definition short_ok (w : Z) : Prop := - 2 ^ 15 <= w < 2 ^ 15.

Record dinode_ok (di : dinode) : Prop := {
  dio_type : short_ok (d_type di);
  dio_major : short_ok (d_major di);
  dio_minor : short_ok (d_minor di);
  dio_nlink : short_ok (d_nlink di);
  dio_size : word_ok (d_size di);
  dio_len : length (d_addrs di) = NADDRS;
  dio_addrs : Forall word_ok (d_addrs di);
}.

Lemma bytes_of_words_length ws : length (bytes_of_words ws) = (4 * length ws)%nat.
Proof. induction ws as [|w ws IH]; [done|]. cbn [bytes_of_words length]. rewrite length_app, IH, le_enc_length. lia. Qed.

Lemma bytes_of_words_ok ws : Forall byte_ok (bytes_of_words ws).
Proof.
  induction ws as [|w ws IH]; [constructor|]. cbn [bytes_of_words].
  apply Forall_app. split; [apply le_enc_bytes|done].
Qed.

Lemma words_of_bytes_length n d : length (words_of_bytes n d) = n.
Proof. unfold words_of_bytes. by rewrite length_map, length_seq. Qed.

Lemma words_of_bytes_S n d :
  words_of_bytes (S n) d = get32 0 d :: words_of_bytes n (drop 4 d).
Proof.
  unfold words_of_bytes. cbn [seq map]. f_equal.
  rewrite <-seq_shift, map_map. apply map_ext. intros i. unfold get32, slice.
  rewrite drop_drop. do 3 f_equal. lia.
Qed.

Lemma get32_app w l : word_ok w -> get32 0 (le_enc 4 w ++ l) = w.
Proof.
  intros Hw. unfold get32, slice. rewrite drop_0, take_app_le by (by rewrite le_enc_length).
  rewrite take_ge by (by rewrite le_enc_length). rewrite le_dec_enc. by apply Z.mod_small.
Qed.

Lemma words_bytes_words ws l :
  Forall word_ok ws -> words_of_bytes (length ws) (bytes_of_words ws ++ l) = ws.
Proof.
  induction 1 as [|w ws Hw Hws IH]; [done|]. cbn [length bytes_of_words].
  rewrite words_of_bytes_S, <-app_assoc, get32_app by done. f_equal.
  rewrite drop_app_length' by (by rewrite le_enc_length). done.
Qed.

Lemma get16_s16 w : short_ok w -> s16 (le_dec (le_enc 2 w)) = w.
Proof.
  intros Hw. unfold short_ok in Hw. rewrite le_dec_enc. change (256 ^ Z.of_nat 2) with (2 ^ 16).
  unfold s16. rewrite Zplus_mod_idemp_l. rewrite Z.mod_small; lia.
Qed.

Lemma bytes_of_dinode_length di :
  length (d_addrs di) = NADDRS -> length (bytes_of_dinode di) = Z.to_nat DINODE_SIZE.
Proof.
  intros Hl. unfold bytes_of_dinode. rewrite !length_app, !le_enc_length, bytes_of_words_length, Hl.
  done.
Qed.

Lemma bytes_of_dinode_ok di : Forall byte_ok (bytes_of_dinode di).
Proof.
  unfold bytes_of_dinode. rewrite !Forall_app.
  split_and!; try apply le_enc_bytes. apply bytes_of_words_ok.
Qed.

Lemma dinode_roundtrip di : dinode_ok di -> dinode_of_bytes (bytes_of_dinode di) = di.
Proof.
  intros []. destruct di as [ty ma mi nl sz ad]; cbn [d_type d_major d_minor d_nlink d_size d_addrs] in *.
  unfold dinode_of_bytes, bytes_of_dinode, get16, get32, slice.
  cbn [d_type d_major d_minor d_nlink d_size d_addrs].
  cbn [le_enc app take drop].
  f_equal; try (by apply get16_s16).
  - transitivity (le_dec (le_enc 4 sz)); [done|]. rewrite le_dec_enc. by apply Z.mod_small.
  - rewrite <-dio_len0, <-(app_nil_r (bytes_of_words ad)). by apply words_bytes_words.
Qed.

Lemma dino_off_bound inum : (dino_off inum + Z.to_nat DINODE_SIZE <= Z.to_nat BSIZE)%nat.
Proof.
  unfold dino_off. pose proof (Z.mod_pos_bound inum IPB ltac:(done)).
  assert (IPB * DINODE_SIZE = BSIZE) by done. unfold DINODE_SIZE in *. lia.
Qed.

Lemma put_dinode_ok inum di d :
  length (d_addrs di) = NADDRS -> block_ok d -> block_ok (put_dinode inum di d).
Proof.
  intros Hl Hd. apply block_ok_splice; [done|apply bytes_of_dinode_ok|].
  rewrite bytes_of_dinode_length by done. apply dino_off_bound.
Qed.

Lemma get_put_dinode inum di d :
  dinode_ok di -> block_ok d -> get_dinode inum (put_dinode inum di d) = di.
Proof.
  intros Hdi [Hl _]. unfold get_dinode, put_dinode.
  pose proof (dino_off_bound inum). pose proof (bytes_of_dinode_length di (dio_len _ Hdi)) as Hb.
  rewrite <-Hb, slice_splice by lia. by apply dinode_roundtrip.
Qed.

Lemma get_put_dinode_ne inum inum' di d :
  length (d_addrs di) = NADDRS -> block_ok d -> inum mod IPB <> inum' mod IPB ->
  get_dinode inum' (put_dinode inum di d) = get_dinode inum' d.
Proof.
  intros Hl [Hd _] Hne. unfold get_dinode, put_dinode. f_equal.
  pose proof (dino_off_bound inum). pose proof (bytes_of_dinode_length di Hl) as Hb.
  rewrite slice_splice_ne; [done|lia|].
  rewrite Hb. unfold dino_off. pose proof (Z.mod_pos_bound inum IPB ltac:(done)).
  pose proof (Z.mod_pos_bound inum' IPB ltac:(done)). unfold DINODE_SIZE. lia.
Qed.

Lemma get32_ok off d : Forall byte_ok d -> word_ok (get32 off d).
Proof.
  intros Hd. unfold get32, word_ok.
  pose proof (le_dec_range (slice off 4 d) (slice_Forall _ _ _ _ Hd)) as Hr.
  assert (length (slice off 4 d) <= 4)%nat by (unfold slice; rewrite length_take; lia).
  assert (256 ^ Z.of_nat (length (slice off 4 d)) <= 256 ^ 4) by (apply Z.pow_le_mono_r; lia).
  lia.
Qed.

Lemma s16_range w : short_ok (s16 w).
Proof. unfold s16, short_ok. pose proof (Z.mod_pos_bound (w + 2 ^ 15) (2 ^ 16)). lia. Qed.

Lemma get_dinode_ok inum d : block_ok d -> dinode_ok (get_dinode inum d).
Proof.
  intros [_ Hd]. unfold get_dinode.
  assert (Hs : Forall byte_ok (slice (dino_off inum) (Z.to_nat DINODE_SIZE) d))
    by by apply slice_Forall.
  split; cbn; try apply s16_range.
  - by apply get32_ok.
  - rewrite words_of_bytes_length. done.
  - apply Forall_map, Forall_forall. intros i _. apply get32_ok. by apply Forall_drop.
Qed.
