(* ===== verification/BlockMap.v ===== *)
(** * The block map of an inode: [bmap] and [xv6fs_itrunc]

    An inode owns up to [NSLOTS] disk blocks, its slots: twelve direct blocks,
    the indirect block and the [NINDIRECT] blocks listed there.  The invariant
    [iwf] says that the slots are distinct data blocks in use; [bmap] and
    [xv6fs_itrunc] are specified by what they do to the slots and by the frame
    [grows]: which blocks of the disk they leave alone. *)

From S2P Require Import Prelude BlockCache Blocks Inode.

(** ** Slots *)

Notation IND := 12%nat.
Definition NSLOTS : nat := NADDRS + Z.to_nat NINDIRECT.

(** The block number kept in slot [s], or 0. *)
Definition slot (D : gmap Z block) (ipp : xv6fs_inode) (s : nat) : Z :=
  if (s <=? IND)%nat then addrs ipp !!! s
  else if addrs ipp !!! IND =? 0 then 0
  else get32 (4 * (s - 13)) (dblk D (addrs ipp !!! IND)).

(** The slot of the [bn]-th block of the file. *)
Definition bslot (bn : Z) : nat :=
  if bn <? NDIRECT then Z.to_nat bn else S (Z.to_nat bn).

Definition owned (D : gmap Z block) (ipp : xv6fs_inode) (b : Z) : Prop :=
  b <> 0 /\ exists s, (s < NSLOTS)%nat /\ slot D ipp s = b.

(** The slots as a function: distinct data blocks in use. *)
Record slots_ok (sb : xv6fs_super_block) (D : gmap Z block) (f : nat -> Z) : Prop := {
  so_used : forall s, (s < NSLOTS)%nat -> f s <> 0 ->
    nmeta sb <= f s < size sb /\ in_use sb D (f s) = true;
  so_inj : forall s t, (s < NSLOTS)%nat -> (t < NSLOTS)%nat -> f s <> 0 -> f s = f t -> s = t;
}.

Record iwf (sb : xv6fs_super_block) (D : gmap Z block) (ipp : xv6fs_inode) : Prop := {
  iw_dev : xi_dev ipp = ROOTDEV;
  iw_len : length (addrs ipp) = NADDRS;
  iw_slots : slots_ok sb D (slot D ipp);
}.

(** [D'] differs from [D] at most in the bitmap (where bits are only set), in
    the blocks that were free in [D], and in the blocks of [own]. *)
Record grows (sb : xv6fs_super_block) (own : Z -> Prop) (D D' : gmap Z block) : Prop := {
  gr_meta : forall b, b < bmapstart sb -> dblk D' b = dblk D b;
  gr_data : forall b, nmeta sb <= b < size sb -> in_use sb D b = true -> ~ own b ->
    dblk D' b = dblk D b;
  gr_use : forall b, 0 <= b < size sb -> in_use sb D b = true -> in_use sb D' b = true;
}.

Lemma grows_refl sb own D : grows sb own D D.
Proof. by split. Qed.

Lemma grows_trans sb (own own1 own2 : Z -> Prop) D D' D'' :
  sb_ok sb -> grows sb own1 D D' -> grows sb own2 D' D'' ->
  (forall b, own1 b -> own b) ->
  (forall b, nmeta sb <= b < size sb -> own2 b -> own b \/ in_use sb D b = false) ->
  grows sb own D D''.
Proof.
  intros Hsb [M1 D1 U1] [M2 D2 U2] H1 H2. pose proof (nmeta_pos sb Hsb).
  split; intros b Hb; [by rewrite M2, M1|intros Hu Hn|intros Hu].
  - rewrite D2, D1; auto.
    + apply U1; [lia|done].
    + intros Ho. destruct (H2 b Hb Ho); congruence.
  - auto.
Qed.

Lemma grows_mono sb (own own' : Z -> Prop) D D' :
  (forall b, own b -> own' b) -> grows sb own D D' -> grows sb own' D D'.
Proof. intros Ho []. split; auto. Qed.

Lemma grows_meta_used sb own D D' :
  sb_ok sb -> grows sb own D D' -> meta_used sb D -> meta_used sb D'.
Proof.
  intros Hsb Hg Hm b Hb. pose proof (sbo_meta _ Hsb). apply (gr_use _ _ _ _ Hg); [lia|].
  by apply Hm.
Qed.

(** The disk blocks [balloc] and the writer of an indirect block touch. *)
Lemma dblk_balloc sb D r b :
  sb_ok sb -> nmeta sb <= r < size sb ->
  b <> r -> b < bmapstart sb \/ nmeta sb <= b -> dblk (balloc_disk sb D r) b = dblk D b.
Proof.
  intros Hsb Hr Hne Hb. unfold balloc_disk. pose proof (nmeta_pos sb Hsb).
  destruct (BBLOCK_range sb r Hsb ltac:(lia)) as [_ ?].
  by rewrite !dblk_insert_ne by lia.
Qed.

Lemma dblk_balloc_new sb D r : dblk (balloc_disk sb D r) r = zero_block.
Proof. apply dblk_insert_eq. Qed.

Lemma grows_balloc sb D r own :
  sb_ok sb -> disk_ok D -> nmeta sb <= r < size sb -> in_use sb D r = false ->
  grows sb own D (balloc_disk sb D r).
Proof.
  intros Hsb HD Hr Hf. pose proof (nmeta_pos sb Hsb). pose proof (sbo_meta _ Hsb).
  assert (bmapstart sb <= nmeta sb).
  { destruct (BBLOCK_range sb r Hsb ltac:(lia)). lia. }
  split; intros b Hb.
  - apply dblk_balloc; try done; lia.
  - intros Hu _. apply dblk_balloc; try done; [congruence|lia].
  - intros Hu. rewrite in_use_balloc by done. by rewrite Hu, orb_true_r.
Qed.

Lemma grows_insert sb D b d (own : Z -> Prop) :
  sb_ok sb -> nmeta sb <= b < size sb -> own b -> grows sb own D (<[b := d]> D).
Proof.
  intros Hsb Hb Ho. pose proof (nmeta_pos sb Hsb).
  assert (bmapstart sb <= nmeta sb).
  { destruct (BBLOCK_range sb b Hsb ltac:(lia)). lia. }
  split; intros b' Hb'.
  - rewrite dblk_insert_ne by lia. done.
  - intros _ Hn. rewrite dblk_insert_ne by congruence. done.
  - intros. rewrite in_use_insert; try done. lia.
Qed.

(** ** Filling an empty slot *)

(** Storing the fresh block [r] in the empty slot [s] keeps the slots well
    formed. *)
Lemma slots_ok_fill sb D D' f s r :
  slots_ok sb D f -> f s = 0 -> nmeta sb <= r < size sb -> r <> 0 -> in_use sb D r = false ->
  in_use sb D' r = true ->
  (forall b, nmeta sb <= b < size sb -> in_use sb D b = true -> in_use sb D' b = true) ->
  slots_ok sb D' (fun t => if decide (t = s) then r else f t).
Proof.
  intros [Hu Hi] Hs Hr Hr0 Hfree Hnew Hold. split.
  - intros t Ht Hne. destruct (decide (t = s)); [done|].
    destruct (Hu t Ht Hne) as [? ?]. auto.
  - intros t t' Ht Ht' Hne Heq.
    destruct (decide (t = s)) as [->|], (decide (t' = s)) as [->|]; try done.
    + destruct (Hu t' Ht' ltac:(congruence)). congruence.
    + destruct (Hu t Ht ltac:(congruence)). congruence.
    + by apply Hi.
Qed.

Lemma slots_ok_ext sb D f g :
  (forall s, (s < NSLOTS)%nat -> f s = g s) -> slots_ok sb D f -> slots_ok sb D g.
Proof.
  intros He [Hu Hi]. split.
  - intros s Hs. rewrite <-He by done. by apply Hu.
  - intros s t Hs Ht. rewrite <-!He by done. by apply Hi.
Qed.

Lemma slots_ok_disk sb D D' f :
  (forall b, nmeta sb <= b < size sb -> in_use sb D b = true -> in_use sb D' b = true) ->
  slots_ok sb D f -> slots_ok sb D' f.
Proof.
  intros Hd [Hu Hi]. split; [|done]. intros s Hs Hne. destruct (Hu s Hs Hne). auto.
Qed.

Lemma slot_ind D ipp : slot D ipp IND = addrs ipp !!! IND.
Proof. done. Qed.

Lemma slot_direct D D' ipp s : (s <= IND)%nat -> slot D ipp s = slot D' ipp s.
Proof. intros Hs. unfold slot. by rewrite (proj2 (Nat.leb_le s IND) Hs). Qed.

Lemma slot_same_ind D D' ipp :
  (addrs ipp !!! IND <> 0 -> dblk D' (addrs ipp !!! IND) = dblk D (addrs ipp !!! IND)) ->
  forall s, slot D' ipp s = slot D ipp s.
Proof.
  intros Hd s. unfold slot. destruct (s <=? IND)%nat; [done|].
  destruct (Z.eqb_spec (addrs ipp !!! IND) 0); [done|]. by rewrite Hd.
Qed.

Lemma get32_zero off : get32 off zero_block = 0.
Proof.
  unfold get32, slice, zero_block. rewrite drop_replicate, take_replicate.
  generalize (4 `min` (Z.to_nat BSIZE - off))%nat as n. induction n; simpl; lia.
Qed.

Lemma slot_fill_addr sb D ipp s r t :
  iwf sb D ipp -> sb_ok sb -> (s <= IND)%nat -> slot D ipp s = 0 -> nmeta sb <= r < size sb ->
  in_use sb D r = false -> (t < NSLOTS)%nat ->
  slot (balloc_disk sb D r) (set_addr s r ipp) t = if decide (t = s) then r else slot D ipp t.
Proof.
  intros Hw Hsb Hs H0 Hr Hf Ht. destruct Hw as [_ Hl Hso].
  assert (Hlen : (s < length (addrs ipp))%nat) by (rewrite Hl; unfold NADDRS, NDIRECT; lia).
  unfold slot at 1. cbn [set_addr set_addrs addrs].
  destruct (t <=? IND)%nat eqn:Et.
  - destruct (decide (t = s)) as [->|Hne].
    + by rewrite list_lookup_total_insert_eq.
    + rewrite list_lookup_total_insert_ne by done. unfold slot. by rewrite Et.
  - apply Nat.leb_gt in Et. rewrite decide_False by lia.
    pose proof (nmeta_pos sb Hsb).
    destruct (decide (s = IND)) as [->|Hne].
    + rewrite list_lookup_total_insert_eq by done. rewrite (proj2 (Z.eqb_neq r 0)) by lia.
      rewrite dblk_balloc_new, get32_zero. unfold slot.
      rewrite (proj2 (Nat.leb_gt t IND)) by lia. rewrite slot_ind in H0. by rewrite H0.
    + rewrite list_lookup_total_insert_ne by done. unfold slot.
      rewrite (proj2 (Nat.leb_gt t IND)) by lia.
      destruct (Z.eqb_spec (addrs ipp !!! IND) 0) as [|Hne0]; [done|].
      destruct (so_used _ _ _ Hso IND ltac:(unfold NSLOTS, NADDRS, NDIRECT; lia) Hne0) as [? Hu].
      rewrite slot_ind in *.
      rewrite dblk_balloc; [done|done|done|congruence|lia].
Qed.

Lemma get32_put32 off v d :
  word_ok v -> (off + 4 <= length d)%nat -> get32 off (put32 off v d) = v.
Proof.
  intros Hv Hl. unfold get32, put32.
  rewrite <-(le_enc_length 4 v) at 1. rewrite slice_splice by (rewrite le_enc_length; lia).
  rewrite le_dec_enc. by apply Z.mod_small.
Qed.

Lemma get32_put32_ne off off' v d :
  (off + 4 <= length d)%nat -> (off' + 4 <= off \/ off + 4 <= off')%nat ->
  get32 off' (put32 off v d) = get32 off' d.
Proof.
  intros Hl Ho. unfold get32, put32. by rewrite slice_splice_ne; rewrite ?le_enc_length.
Qed.

Lemma put32_ok off v d : block_ok d -> (off + 4 <= Z.to_nat BSIZE)%nat -> block_ok (put32 off v d).
Proof.
  intros Hd Ho. apply block_ok_splice; [done|apply le_enc_bytes|by rewrite le_enc_length].
Qed.

Lemma slot_fill_ind sb D ipp j r t :
  iwf sb D ipp -> sb_ok sb -> disk_ok D -> (j < Z.to_nat NINDIRECT)%nat ->
  addrs ipp !!! IND <> 0 -> nmeta sb <= r < size sb -> in_use sb D r = false ->
  (t < NSLOTS)%nat ->
  slot (<[addrs ipp !!! IND := put32 (4 * j) r (dblk D (addrs ipp !!! IND))]> (balloc_disk sb D r)) ipp t
  = if decide (t = 13 + j)%nat then r else slot D ipp t.
Proof.
  intros Hw Hsb HD Hj Ha Hr Hf Ht. unfold slot.
  destruct (Nat.leb_spec t IND); [by rewrite decide_False by lia|].
  rewrite (proj2 (Z.eqb_neq _ _)) by done. rewrite dblk_insert_eq.
  destruct (HD (addrs ipp !!! IND)) as [Hlen _].
  assert (Hb : (4 * j + 4 <= length (dblk D (addrs ipp !!! IND)))%nat)
    by (rewrite Hlen; change (Z.to_nat NINDIRECT) with 256%nat in Hj; unfold BSIZE; lia).
  assert (word_ok r) by (destruct Hsb; pose proof (nmeta_pos sb ltac:(done)); unfold word_ok; lia).
  destruct (decide (t = 13 + j)%nat) as [->|Hne].
  - replace (13 + j - 13)%nat with j by lia. by rewrite get32_put32.
  - rewrite get32_put32_ne; [done|done|lia].
Qed.

(** ** [bmap] *)

Definition bmap_post (sb : xv6fs_super_block) (D : gmap Z block) (ipp : xv6fs_inode) (bn : Z)
    (r : Z) (ipp' : xv6fs_inode) (D' : gmap Z block) : Prop :=
  let s := bslot bn in
  iwf sb D' ipp' /\
  grows sb (fun b => b = addrs ipp !!! IND) D D' /\
  (forall t, (t < NSLOTS)%nat -> t <> s -> (t = IND -> slot D ipp IND <> 0) ->
     slot D' ipp' t = slot D ipp t) /\
  r = slot D' ipp' s /\
  (slot D ipp s <> 0 -> D' = D /\ ipp' = ipp) /\
  (slot D ipp s = 0 -> r <> 0 -> in_use sb D r = false /\ dblk D' r = zero_block) /\
  (r = 0 -> forall b, 0 <= b < size sb -> in_use sb D' b = true) /\
  (forall b, 0 <= b < size sb -> in_use sb D' b = true ->
     in_use sb D b = true \/ owned D' ipp' b) /\
  (forall b, owned D' ipp' b -> owned D ipp b \/ in_use sb D b = false) /\
  (xi_valid ipp', xi_major ipp', xi_minor ipp') = (xi_valid ipp, xi_major ipp, xi_minor ipp).

Section specs.
Context {C : Type} `{BL : BlockCacheLaws C}.
Context (sb : xv6fs_super_block).
Implicit Types (c : C).

Lemma mounted_grow n c c' own :
  mounted n sb c -> bc_inv c' -> bc_held c' = bc_held c ->
  grows sb own (bc_disk c) (bc_disk c') -> mounted n sb c'.
Proof.
  intros [HI Hsb Hm Hh Hr] HI' Hh' Hg. split; [done|done| | |].
  - by eapply grows_meta_used.
  - intros h b d Hb. rewrite Hh' in Hb. destruct (Hh h b d Hb) as [? ?]. split; [done|].
    pose proof (nmeta_pos sb Hsb). apply (gr_use _ _ _ _ Hg); [lia|done].
  - by eapply room_same.
Qed.

Lemma mounted_hold n c c1 h b d :
  mounted (S n) sb c -> bc_inv c1 -> bc_disk c1 = bc_disk c -> bc_held c !! h = None ->
  bc_held c1 = <[h := (b, d)]> (bc_held c) ->
  nmeta sb <= b < size sb -> in_use sb (bc_disk c) b = true -> mounted n sb c1.
Proof.
  intros [HI Hsb Hm Hh Hr] HI1 HD1 Hn Hh1 Hb Hu. split; [done|done|by rewrite HD1| |].
  - intros h' b' d' Hl. rewrite HD1. rewrite Hh1 in Hl.
    apply lookup_insert_Some in Hl as [[_ [= <- <-]]|[_ Hl]]; eauto.
  - by eapply room_insert.
Qed.

Lemma slot_bound s : (s <= IND)%nat -> (s < NSLOTS)%nat.
Proof. unfold NSLOTS, NADDRS, NDIRECT. lia. Qed.

(** A fresh block stored in one of the thirteen addresses of the inode. *)
Lemma iwf_fill_addr D ipp s r :
  iwf sb D ipp -> sb_ok sb -> disk_ok D -> (s <= IND)%nat -> slot D ipp s = 0 ->
  nmeta sb <= r < size sb -> in_use sb D r = false ->
  iwf sb (balloc_disk sb D r) (set_addr s r ipp).
Proof.
  intros Hw Hsb HD Hs H0 Hr Hf. pose proof (nmeta_pos sb Hsb). split.
  - apply (iw_dev _ _ _ Hw).
  - cbn. rewrite length_insert. apply (iw_len _ _ _ Hw).
  - eapply slots_ok_ext; [intros t Ht; symmetry; by eapply slot_fill_addr|].
    eapply (slots_ok_fill _ D); [apply (iw_slots _ _ _ Hw)|done|done|lia|done| |].
    + rewrite in_use_balloc by (done || lia). by rewrite Z.eqb_refl.
    + intros b Hb Hu. rewrite in_use_balloc by (done || lia). by rewrite Hu, orb_true_r.
Qed.

Lemma in_use_balloc_new D r b :
  sb_ok sb -> disk_ok D -> nmeta sb <= r < size sb -> 0 <= b < size sb ->
  in_use sb (balloc_disk sb D r) b = true -> in_use sb D b = true \/ b = r.
Proof.
  intros Hsb HD Hr Hb. rewrite in_use_balloc by done.
  destruct (Z.eqb_spec r b); [by right|by left].
Qed.

(** The address branch of [bmap], for slot [s] of the inode itself. *)
Lemma bmap_addr_wp s ipp c :
  mounted 1 sb c -> iwf sb (bc_disk c) ipp -> (s <= IND)%nat -> slot (bc_disk c) ipp s = 0 ->
  wp (balloc sb (xi_dev ipp)) (fun r c' =>
    bc_inv c' /\ bc_held c' = bc_held c /\
    ((r = 0 /\ bc_disk c' = bc_disk c /\
      forall b, 0 <= b < size sb -> in_use sb (bc_disk c) b = true) \/
     (nmeta sb <= r < size sb /\ r <> 0 /\ in_use sb (bc_disk c) r = false /\
      bc_disk c' = balloc_disk sb (bc_disk c) r /\
      grows sb (fun b => b = addrs ipp !!! IND) (bc_disk c) (bc_disk c') /\
      iwf sb (bc_disk c') (set_addr s r ipp) /\
      (forall t, (t < NSLOTS)%nat -> slot (bc_disk c') (set_addr s r ipp) t =
         if decide (t = s) then r else slot (bc_disk c) ipp t)))) c.
Proof.
  intros Hm Hw Hs H0. rewrite (iw_dev _ _ _ Hw). pose proof Hm as [HI Hsb _ _ _].
  pose proof (nmeta_pos sb Hsb). pose proof (bc_disk_ok _ HI) as HD.
  wp_use balloc_wp; [done|]. intros r c' (HI' & Hh' & [(-> & HD' & Hall)|(Hr & Hf & _ & HD')]).
  - split_and!; [done..|]. by left.
  - split_and!; [done..|]. right. rewrite HD'. split_and!; try done; try lia.
    + by apply grows_balloc.
    + by apply iwf_fill_addr.
    + intros t Ht. by eapply slot_fill_addr.
Qed.

(** The block list stored in the indirect block of [ipp]. *)
Definition bmap_ind (ipp : xv6fs_inode) (j : nat) : M C (Z * xv6fs_inode) :=
  bp <- bread (xi_dev ipp) (addrs ipp !!! IND) ;;
  d <- bdata bp ;;
  addr <- (if get32 (4 * j) d =? 0 then
             addr <- balloc sb (xi_dev ipp) ;;
             if addr =? 0 then ret addr
             else
               bset bp (put32 (4 * j) addr d) ;;
               bwrite bp ;;
               ret addr
           else ret (get32 (4 * j) d)) ;;
  brelse bp ;;
  ret (addr, ipp).

Lemma bmap_eq ipp bn :
  bmap sb ipp bn =
  if bn <? NDIRECT then
    if addrs ipp !!! Z.to_nat bn =? 0 then
      addr <- balloc sb (xi_dev ipp) ;;
      if addr =? 0 then ret (0, ipp) else ret (addr, set_addr (Z.to_nat bn) addr ipp)
    else ret (addrs ipp !!! Z.to_nat bn, ipp)
  else if bn - NDIRECT <? NINDIRECT then
    ' (addr, ip) <-
      (if addrs ipp !!! IND =? 0 then
         addr <- balloc sb (xi_dev ipp) ;;
         ret (addr, if addr =? 0 then ipp else set_addr IND addr ipp)
       else ret (addrs ipp !!! IND, ipp)) ;;
    if addr =? 0 then ret (0, ip)
    else
      bp <- bread (xi_dev ip) addr ;;
      d <- bdata bp ;;
      let addr := get32 (4 * Z.to_nat (bn - NDIRECT)) d in
      addr <- (if addr =? 0 then
                 addr <- balloc sb (xi_dev ip) ;;
                 if addr =? 0 then ret addr
                 else
                   bset bp (put32 (4 * Z.to_nat (bn - NDIRECT)) addr d) ;;
                   bwrite bp ;;
                   ret addr
               else ret addr) ;;
      brelse bp ;;
      ret (addr, ip)
  else panic "bmap: out of range".
Proof. done. Qed.

Lemma bslot_ind bn j : NDIRECT <= bn -> j = Z.to_nat (bn - NDIRECT) -> bslot bn = (13 + j)%nat.
Proof.
  intros Hb ->. unfold bslot. rewrite (proj2 (Z.ltb_ge bn NDIRECT)) by done.
  unfold NDIRECT in *. lia.
Qed.


(** No buffer is held: the state between two file-system operations. *)
Record idle c : Prop := {
  id_inv : bc_inv c;
  id_sb : sb_ok sb;
  id_meta : meta_used sb (bc_disk c);
  id_held : bc_held c = ∅;
}.

Lemma idle_mounted c : idle c -> mounted NBUF sb c.
Proof.
  intros [HI Hsb Hm Hh]. split; [done|done|done| |].
  - intros h b d Hl. by rewrite Hh, lookup_empty in Hl.
  - unfold room. rewrite Hh, map_size_empty. done.
Qed.

Lemma idle_unheld c b : idle c -> unheld c b.
Proof. intros [_ _ _ Hh] h b' d Hl. by rewrite Hh, lookup_empty in Hl. Qed.

Lemma idle_room n c : idle c -> (n <= NBUF)%nat -> room n c.
Proof. intros Hi Hn. eapply room_mono; [done|]. apply (mt_room _ _ _ (idle_mounted _ Hi)). Qed.

Lemma idle_grow c c' own :
  idle c -> bc_inv c' -> bc_held c' = bc_held c -> grows sb own (bc_disk c) (bc_disk c') -> idle c'.
Proof.
  intros [HI Hsb Hm Hh] HI' Hh' Hg. split; [done|done| |congruence].
  by eapply grows_meta_used.
Qed.

Lemma idle_disk_ok c : idle c -> disk_ok (bc_disk c).
Proof. intros Hi. apply bc_disk_ok, Hi. Qed.

Lemma slot13 D ipp j :
  addrs ipp !!! IND <> 0 -> slot D ipp (13 + j) = get32 (4 * j) (dblk D (addrs ipp !!! IND)).
Proof.
  intros Ha. unfold slot. rewrite (proj2 (Nat.leb_gt (13 + j) IND)) by lia.
  rewrite (proj2 (Z.eqb_neq _ 0)) by done. do 2 f_equal. lia.
Qed.

(** The entry was there already. *)
Lemma bmap_post_same D ipp bn :
  iwf sb D ipp -> slot D ipp (bslot bn) <> 0 ->
  bmap_post sb D ipp bn (slot D ipp (bslot bn)) ipp D.
Proof.
  intros Hw Hs. unfold bmap_post. split_and!; try done; try apply grows_refl; auto.
Qed.

(** The disk is full and nothing changed. *)
Lemma bmap_post_full D ipp bn :
  iwf sb D ipp -> slot D ipp (bslot bn) = 0 ->
  (forall b, 0 <= b < size sb -> in_use sb D b = true) -> bmap_post sb D ipp bn 0 ipp D.
Proof.
  intros Hw Hs Hall. unfold bmap_post. split_and!; try done; try apply grows_refl; auto.
Qed.

(** The fresh block [r] went into the slot. *)
Lemma bmap_post_fill D ipp bn r ipp' D' :
  sb_ok sb -> disk_ok D -> iwf sb D' ipp' ->
  grows sb (fun b => b = addrs ipp !!! IND) D D' ->
  (bslot bn < NSLOTS)%nat -> slot D ipp (bslot bn) = 0 ->
  nmeta sb <= r < size sb -> in_use sb D r = false -> dblk D' r = zero_block ->
  (forall t, (t < NSLOTS)%nat ->
     slot D' ipp' t = if decide (t = bslot bn) then r else slot D ipp t) ->
  (forall b, 0 <= b < size sb -> in_use sb D' b = true -> in_use sb D b = true \/ b = r) ->
  (xi_valid ipp', xi_major ipp', xi_minor ipp') = (xi_valid ipp, xi_major ipp, xi_minor ipp) ->
  bmap_post sb D ipp bn r ipp' D'.
Proof.
  intros Hsb HD Hw Hg Hb H0 Hr Hf Hz Hsl Hnew Hx. pose proof (nmeta_pos sb Hsb).
  assert (Hrs : slot D' ipp' (bslot bn) = r) by (rewrite Hsl by done; by rewrite decide_True).
  unfold bmap_post. split_and!; try done.
  - intros t Ht Hne _. rewrite Hsl by done. by rewrite decide_False.
  - lia.
  - intros b Hbr Hu. destruct (Hnew b Hbr Hu) as [?| ->]; [by left|right].
    split; [lia|]. eauto.
  - intros b (Hb0 & t & Ht & Heq). rewrite Hsl in Heq by done.
    destruct (decide _); [right; congruence|left]. split; eauto.
Qed.

(** Putting a fresh block in the indirect block's entry [j]. *)
Lemma bmap_post_ind D ipp bn j r :
  sb_ok sb -> disk_ok D -> iwf sb D ipp -> addrs ipp !!! IND <> 0 ->
  NDIRECT <= bn -> j = Z.to_nat (bn - NDIRECT) -> (j < Z.to_nat NINDIRECT)%nat ->
  slot D ipp (13 + j) = 0 -> nmeta sb <= r < size sb -> in_use sb D r = false ->
  bmap_post sb D ipp bn r ipp
    (<[addrs ipp !!! IND := put32 (4 * j) r (dblk D (addrs ipp !!! IND))]> (balloc_disk sb D r)).
Proof.
  intros Hsb HD Hw Ha Hbn Hj Hlt H0 Hr Hf. set (a := addrs ipp !!! IND) in *.
  pose proof (nmeta_pos sb Hsb).
  destruct (so_used _ _ _ (iw_slots _ _ _ Hw) IND (slot_bound IND ltac:(lia)) Ha) as [Har Hau].
  rewrite slot_ind in Har, Hau. fold a in Har, Hau.
  assert (Hsl : bslot bn = (13 + j)%nat) by by apply bslot_ind.
  assert (Hfill := fun t Ht => slot_fill_ind sb D ipp j r t Hw Hsb HD Hlt Ha Hr Hf Ht).
  fold a in Hfill.
  set (D' := <[a := _]> _) in *.
  assert (Hin : forall b, 0 <= b < size sb -> in_use sb D' b = in_use sb (balloc_disk sb D r) b)
    by (intros b Hb; apply in_use_insert; [done|lia|done]).
  apply bmap_post_fill; try done; rewrite ?Hsl; try done.
  - split; [apply (iw_dev _ _ _ Hw)|apply (iw_len _ _ _ Hw)|].
    eapply slots_ok_ext; [intros t Ht; symmetry; by apply Hfill|].
    eapply (slots_ok_fill _ D); [apply (iw_slots _ _ _ Hw)|done|done|lia|done| |].
    + rewrite Hin, in_use_balloc by (done || lia). by rewrite Z.eqb_refl.
    + intros b Hb Hu. rewrite Hin, in_use_balloc by (done || lia). by rewrite Hu, orb_true_r.
  - eapply (grows_trans _ _ (fun _ => False) (fun b => b = a) D (balloc_disk sb D r)); [done|by apply grows_balloc| |done|by left].
    by apply grows_insert.
  - unfold NSLOTS, NADDRS, NDIRECT. lia.
  - unfold D'. rewrite dblk_insert_ne by congruence. apply dblk_balloc_new.
  - intros b Hb. rewrite Hin by done. by apply in_use_balloc_new.
Qed.

Lemma bmap_ind_wp ipp bn j c :
  idle c -> iwf sb (bc_disk c) ipp -> addrs ipp !!! IND <> 0 ->
  NDIRECT <= bn -> j = Z.to_nat (bn - NDIRECT) -> (j < Z.to_nat NINDIRECT)%nat ->
  wp (bmap_ind ipp j) (fun ra c' =>
    bc_inv c' /\ bc_held c' = bc_held c /\ ra.2 = ipp /\
    bmap_post sb (bc_disk c) ipp bn ra.1 ra.2 (bc_disk c')) c.
Proof.
  intros Hi Hw Ha Hbn Hj Hlt. set (D := bc_disk c) in *. set (a := addrs ipp !!! IND) in *.
  pose proof (id_inv _ Hi) as HI. pose proof (id_sb _ Hi) as Hsb.
  pose proof (bc_disk_ok _ HI) as HD. fold D in HD.
  destruct (so_used _ _ _ (iw_slots _ _ _ Hw) IND (slot_bound IND ltac:(lia)) Ha) as [Har Hau].
  rewrite slot_ind in Har, Hau. fold a in Har, Hau.
  assert (Hsl : bslot bn = (13 + j)%nat) by by apply bslot_ind.
  pose proof (slot13 D ipp j Ha) as Hs13. fold a in Hs13.
  unfold bmap_ind. rewrite (iw_dev _ _ _ Hw). fold a.
  apply wp_read; [done|by apply idle_unheld|apply idle_room; [done|unfold NBUF; lia]|].
  intros h c1 HI1 HD1 Hn Hh1. fold D. apply wp_bind.
  destruct (Z.eqb_spec (get32 (4 * j) (dblk D a)) 0) as [H0|Hne].
  - assert (Hm1 : mounted 1 sb c1).
    { eapply (mounted_hold 1 c); try done. eapply mounted_mono, idle_mounted, Hi. unfold NBUF; lia. }
    wp_use balloc_wp; [done|]. intros r c2 (HI2 & Hh2 & Hpost). rewrite HD1 in Hpost. fold D in Hpost.
    destruct Hpost as [(-> & HD2 & Hall)|(Hr & Hf & _ & HD2)].
    + apply wp_ret, wp_bind. eapply wp_release;
        [done|rewrite Hh2, Hh1; apply lookup_insert_eq|by rewrite HD2|].
      intros c3 HI3 HD3 Hh3. apply wp_ret. cbn [fst snd]. split_and!; [done| |done|].
      * by rewrite Hh3, Hh2, Hh1, held_restore.
      * rewrite HD3, HD2. apply bmap_post_full; [done| |done]. rewrite Hsl. congruence.
    + pose proof (nmeta_pos sb Hsb). rewrite (proj2 (Z.eqb_neq r 0)) by lia.
      wp_use bset_law; [done|rewrite Hh2, Hh1; apply lookup_insert_eq| |].
      { apply put32_ok; [apply HD|]. change (Z.to_nat NINDIRECT) with 256%nat in Hlt. unfold BSIZE. lia. }
      intros _ c3 (HI3 & HD3 & Hh3).
      wp_use bwrite_law; [done|rewrite Hh3; apply lookup_insert_eq|].
      intros _ c4 (HI4 & HD4 & Hh4). apply wp_ret, wp_bind.
      eapply wp_release; [done|rewrite Hh4, Hh3; apply lookup_insert_eq|by rewrite HD4, dblk_insert_eq|].
      intros c5 HI5 HD5 Hh5. apply wp_ret. cbn [fst snd]. split_and!; [done| |done|].
      * rewrite Hh5, Hh4, Hh3, Hh2, Hh1, insert_insert_eq. by rewrite held_restore.
      * rewrite HD5, HD4, HD3, HD2. apply bmap_post_ind; try done. congruence.
  - apply wp_ret, wp_bind.
    eapply wp_release; [done|rewrite Hh1; apply lookup_insert_eq|by rewrite HD1|].
    intros c2 HI2 HD2 Hh2. apply wp_ret. cbn [fst snd]. split_and!; [done| |done|].
    + by rewrite Hh2, Hh1, held_restore.
    + rewrite HD2, HD1. fold D. rewrite <-Hs13, <-Hsl. apply bmap_post_same; [done|congruence].
Qed.

(** A fresh indirect block first, then the entry in it. *)
Lemma bmap_post_trans D ipp bn a D1 r D2 :
  let ipp1 := set_addr IND a ipp in
  sb_ok sb -> disk_ok D -> NDIRECT <= bn < MAXFILE -> addrs ipp !!! IND = 0 ->
  nmeta sb <= a < size sb -> in_use sb D a = false -> D1 = balloc_disk sb D a ->
  (forall t, (t < NSLOTS)%nat -> slot D1 ipp1 t = if decide (t = IND) then a else slot D ipp t) ->
  bmap_post sb D1 ipp1 bn r ipp1 D2 -> bmap_post sb D ipp bn r ipp1 D2.
Proof.
  intros ipp1 Hsb HD Hbn H0 Ha Hf HD1 Hsl (Hw & Hg & Hk & Hr & Hsame & Hfresh & Hfull & Hleak & Hown & Hx).
  pose proof (nmeta_pos sb Hsb).
  assert (Hs : bslot bn = (13 + Z.to_nat (bn - NDIRECT))%nat) by (apply bslot_ind; [lia|done]).
  assert (HIND : slot D1 ipp1 IND = a) by (rewrite Hsl by (by apply slot_bound); by rewrite decide_True).
  assert (Hslot0 : slot D ipp (bslot bn) = 0).
  { rewrite Hs. unfold slot. rewrite (proj2 (Nat.leb_gt _ IND)) by lia. by rewrite H0. }
  assert (Hb : (bslot bn < NSLOTS)%nat).
  { rewrite Hs. change NSLOTS with 269%nat. unfold MAXFILE, NDIRECT in *. change NINDIRECT with 256 in Hbn. lia. }
  assert (Hslot1 : slot D1 ipp1 (bslot bn) = 0) by (rewrite Hsl, decide_False by lia; done).
  assert (G1 : grows sb (fun _ => False) D D1) by (rewrite HD1; by apply grows_balloc).
  rewrite slot_ind in HIND.
  unfold bmap_post. split_and!; try done.
  - eapply grows_trans; [done|exact G1|exact Hg|done|].
    cbn beta. rewrite HIND. intros b Hb' ->. by right.
  - intros t Ht Hne Hi. destruct (decide (t = IND)) as [->|Hni].
    + exfalso. by apply (Hi eq_refl).
    + rewrite Hk; [|done|done|done]. rewrite Hsl by done. by rewrite decide_False.
  - intros _ Hr0. destruct (Hfresh Hslot1 Hr0) as [Hf1 Hz]. split; [|done].
    destruct (in_use sb D r) eqn:E; [|done].
    rewrite (gr_use _ _ _ _ G1) in Hf1; [done| |done].
    rewrite Hr in Hr0. destruct (so_used _ _ _ (iw_slots _ _ _ Hw) _ Hb Hr0). rewrite Hr. lia.
  - intros b Hbr Hu. destruct (Hleak b Hbr Hu) as [Hu1|]; [|by right].
    rewrite HD1 in Hu1. apply in_use_balloc_new in Hu1 as [?| ->]; try done; [by left|right].
    split; [lia|]. exists IND. split; [by apply slot_bound|done].
  - intros b Hb2. destruct (Hown b Hb2) as [(Hb0 & t & Ht & Heq)|Hf1].
    + rewrite Hsl in Heq by done. destruct (decide _); [right; congruence|left]. split; eauto.
    + right. destruct (in_use sb D b) eqn:E; [|done].
      rewrite (gr_use _ _ _ _ G1) in Hf1; [done| |done].
      destruct Hb2 as (Hb0 & t & Ht & <-). destruct (so_used _ _ _ (iw_slots _ _ _ Hw) _ Ht Hb0). lia.
Qed.


Definition bmap_done (ipp : xv6fs_inode) (bn : Z) c (ra : Z * xv6fs_inode) c' : Prop :=
  bc_inv c' /\ bc_held c' = bc_held c /\
  bmap_post sb (bc_disk c) ipp bn ra.1 ra.2 (bc_disk c').

Lemma bmap_direct_wp ipp bn c :
  idle c -> iwf sb (bc_disk c) ipp -> 0 <= bn < NDIRECT ->
  wp (bmap sb ipp bn) (bmap_done ipp bn c) c.
Proof.
  intros Hi Hw Hbn. pose proof (id_inv _ Hi) as HI. pose proof (id_sb _ Hi) as Hsb.
  pose proof (idle_disk_ok _ Hi) as HD.
  assert (Hm1 : mounted 1 sb c) by (eapply mounted_mono, idle_mounted, Hi; unfold NBUF; lia).
  rewrite bmap_eq, (proj2 (Z.ltb_lt _ _)) by lia.
  assert (Hbs : bslot bn = Z.to_nat bn) by (unfold bslot; by rewrite (proj2 (Z.ltb_lt _ _)) by lia).
  assert (Hle : (bslot bn <= IND)%nat) by (rewrite Hbs; unfold NDIRECT in *; lia).
  assert (Hsl : slot (bc_disk c) ipp (bslot bn) = addrs ipp !!! Z.to_nat bn).
  { rewrite <-Hbs. unfold slot. by rewrite (proj2 (Nat.leb_le _ _) Hle). }
  unfold bmap_done. case_if.
  - wp_use bmap_addr_wp; [done|done|exact Hle|congruence|].
    intros r c' (HI' & Hh' & [(-> & HD' & Hall)|(Hr & Hr0 & Hf & HD' & Hg & Hw' & Hsl')]).
    + apply wp_ret. cbn [fst snd]. split_and!; [done..|]. rewrite HD'.
      apply bmap_post_full; [done|congruence|done].
    + rewrite (proj2 (Z.eqb_neq r 0)) by done. apply wp_ret. cbn [fst snd].
      split_and!; [done..|]. rewrite <-Hbs. apply bmap_post_fill; try done.
      * by apply slot_bound.
      * congruence.
      * rewrite HD'. apply dblk_balloc_new.
      * rewrite HD'. intros b Hb. by apply in_use_balloc_new.
  - apply wp_ret. cbn [fst snd]. split_and!; [done..|]. rewrite <-Hsl.
    apply bmap_post_same; [done|congruence].
Qed.

Lemma bmap_indirect_wp ipp bn c :
  idle c -> iwf sb (bc_disk c) ipp -> NDIRECT <= bn < MAXFILE ->
  wp (bmap sb ipp bn) (bmap_done ipp bn c) c.
Proof.
  intros Hi Hw Hbn. pose proof (id_inv _ Hi) as HI. pose proof (id_sb _ Hi) as Hsb.
  pose proof (idle_disk_ok _ Hi) as HD.
  assert (Hm1 : mounted 1 sb c) by (eapply mounted_mono, idle_mounted, Hi; unfold NBUF; lia).
  rewrite bmap_eq, (proj2 (Z.ltb_ge _ _)), (proj2 (Z.ltb_lt _ _)) by (unfold MAXFILE in *; lia).
  assert (Hj : (Z.to_nat (bn - NDIRECT) < Z.to_nat NINDIRECT)%nat) by (unfold MAXFILE in *; lia).
  unfold bmap_done. case_if.
  - apply wp_bind. wp_use (bmap_addr_wp IND); [done|done|lia|by rewrite slot_ind|].
    intros a c1 (HI1 & Hh1 & [(-> & HD1 & Hall)|(Hr & Hr0 & Hf & HD1 & Hg & Hw1 & Hsl1)]);
      apply wp_ret; cbn beta iota.
    + apply wp_ret. cbn [fst snd]. split_and!; [done..|]. rewrite HD1.
      apply bmap_post_full; [done| |done]. rewrite (bslot_ind bn _ ltac:(lia) eq_refl).
      unfold slot. rewrite (proj2 (Nat.leb_gt _ IND)) by lia.
      by rewrite (proj2 (Z.eqb_eq _ 0)).
    + rewrite (proj2 (Z.eqb_neq a 0)) by done.
      assert (Ha : addrs (set_addr IND a ipp) !!! IND = a).
      { cbn. rewrite list_lookup_total_insert_eq; [done|].
        rewrite (iw_len _ _ _ Hw). unfold NADDRS, NDIRECT; lia. }
      eapply wp_mono.
      * rewrite <-Ha at 2.
        apply (bmap_ind_wp (set_addr IND a ipp) bn _ c1); try done; try lia; by eapply idle_grow.
      * cbn beta. intros [r ipp'] c2 (HI2 & Hh2 & Hp2 & Hp). cbn [fst snd] in *. subst ipp'.
        split_and!; [done|congruence|]. by eapply bmap_post_trans.
  - apply wp_bind, wp_ret. cbn beta iota. rewrite (proj2 (Z.eqb_neq _ 0)) by done.
    eapply wp_mono; [by apply (bmap_ind_wp ipp bn _ c); try lia|].
    cbn beta. intros ra c' (? & ? & _ & ?). done.
Qed.

Lemma bmap_wp ipp bn c :
  idle c -> iwf sb (bc_disk c) ipp -> 0 <= bn < MAXFILE ->
  wp (bmap sb ipp bn) (fun ra c' =>
    idle c' /\ bmap_post sb (bc_disk c) ipp bn ra.1 ra.2 (bc_disk c')) c.
Proof.
  intros Hi Hw Hbn. eapply (wp_mono _ (bmap_done ipp bn c)).
  - destruct (decide (bn < NDIRECT)); [apply bmap_direct_wp|apply bmap_indirect_wp]; auto with lia.
  - intros ra c' (HI' & Hh' & Hp). split; [|done]. by eapply idle_grow; [..|apply Hp].
Qed.

(** ** Inode blocks *)

Lemma IBLOCK_range inum :
  sb_ok sb -> 0 <= inum < ninodes sb ->
  IBLOCK inum sb = inum / IPB + inodestart sb /\ 2 <= IBLOCK inum sb < bmapstart sb.
Proof.
  intros [Hs Hi Hn Hb Hm] Hr. unfold IBLOCK, nmeta in *.
  assert (inum / IPB <= ninodes sb / IPB) by (apply Z.div_le_mono; [done|lia]).
  assert (0 <= inum / IPB) by (apply Z.div_pos; [lia|done]).
  assert (0 <= size sb / BPB) by (apply Z.div_pos; [lia|done]).
  rewrite u32_small by lia. lia.
Qed.

Lemma in_use_insert_low D b d b' :
  sb_ok sb -> b < bmapstart sb -> 0 <= b' < size sb ->
  in_use sb (<[b := d]> D) b' = in_use sb D b'.
Proof.
  intros Hsb Hb Hb'. unfold in_use. destruct (BBLOCK_range sb b' Hsb Hb') as [_ ?].
  by rewrite dblk_insert_ne by lia.
Qed.

(** The disk with the inode [inum] replaced. *)
Definition iupdate_disk (D : gmap Z block) (inum : Z) (di : dinode) : gmap Z block :=
  <[IBLOCK inum sb := put_dinode inum di (dblk D (IBLOCK inum sb))]> D.

(** The inode [inum] as it is on disk. *)
Definition disk_inode (D : gmap Z block) (inum : Z) : dinode :=
  get_dinode inum (dblk D (IBLOCK inum sb)).

Lemma disk_inode_update D inum inum' di :
  sb_ok sb -> disk_ok D -> dinode_ok di -> 0 <= inum < ninodes sb -> 0 <= inum' < ninodes sb ->
  disk_inode (iupdate_disk D inum di) inum' = if decide (inum' = inum) then di else disk_inode D inum'.
Proof.
  intros Hsb HD Hdi Hi Hi'. unfold disk_inode, iupdate_disk.
  destruct (IBLOCK_range inum Hsb Hi) as [E _]. destruct (IBLOCK_range inum' Hsb Hi') as [E' _].
  destruct (decide (inum' = inum)) as [->|Hne].
  - rewrite dblk_insert_eq. by apply get_put_dinode.
  - destruct (decide (IBLOCK inum sb = IBLOCK inum' sb)) as [Heq|Hne2].
    + rewrite Heq, dblk_insert_eq. apply get_put_dinode_ne; [apply Hdi|done|].
      intros Hmod. apply Hne. rewrite (Z.div_mod inum IPB), (Z.div_mod inum' IPB) by done.
      assert (inum / IPB = inum' / IPB) by lia. congruence.
    + by rewrite dblk_insert_ne.
Qed.

Lemma idle_update c c' inum di :
  idle c -> bc_inv c' -> bc_held c' = bc_held c -> 0 <= inum < ninodes sb ->
  bc_disk c' = iupdate_disk (bc_disk c) inum di -> idle c'.
Proof.
  intros [HI Hsb Hm Hh] HI' Hh' Hi HD. split; [done|done| |congruence].
  rewrite HD. intros b Hb. pose proof (sbo_meta _ Hsb).
  destruct (IBLOCK_range inum Hsb Hi) as [_ ?].
  unfold iupdate_disk. rewrite in_use_insert_low by (done || lia). by apply Hm.
Qed.

Lemma iupdate_wp ip ipp c :
  idle c -> i_dev ip = ROOTDEV -> 0 <= i_inum ip < ninodes sb -> length (addrs ipp) = NADDRS ->
  wp (xv6fs_iupdate sb ip ipp) (fun _ c' => idle c' /\
    bc_disk c' = iupdate_disk (bc_disk c) (i_inum ip) (dinode_of ip ipp)) c.
Proof.
  intros Hi Hdev Hin Hl. pose proof (id_inv _ Hi) as HI. unfold xv6fs_iupdate. rewrite Hdev.
  apply wp_read; [done|by apply idle_unheld|apply idle_room; [done|unfold NBUF; lia]|].
  intros h c1 HI1 HD1 Hn Hh1.
  eapply wp_commit; [done|rewrite Hh1; apply lookup_insert_eq| |].
  - apply put_dinode_ok; [done|]. apply (bc_disk_ok _ HI).
  - intros c2 HI2 HD2 Hh2. rewrite Hh1, held_restore in Hh2 by done. rewrite HD1 in HD2.
    split; [|done]. by eapply idle_update.
Qed.
End specs.
