(* ===== verification/InodeOps.v ===== *)
(** * [xv6fs_itrunc], [readblock] and the search of [xv6fs_ialloc]

    Truncating an inode frees exactly the blocks it owns; reading an inode
    gives back what [xv6fs_iupdate] wrote; the allocator takes the first inode
    whose type is 0. *)

From S2P Require Import Prelude BlockCache Blocks Inode BlockMap.

(** [D'] is [D] with the blocks of [F] marked free. *)
Record frees (sb : xv6fs_super_block) (F : Z -> Prop) (D D' : gmap Z block) : Prop := {
  fr_dblk : forall b, b < bmapstart sb \/ nmeta sb <= b -> dblk D' b = dblk D b;
  fr_use : forall b, 0 <= b < size sb ->
    in_use sb D' b = true <-> in_use sb D b = true /\ ~ F b;
}.

Lemma frees_refl sb D (F : Z -> Prop) : (forall b, ~ F b) -> frees sb F D D.
Proof. intros HF. split; [done|]. intros b Hb. split; [|by intros []]. intros. split; auto. Qed.

Lemma frees_trans sb F1 F2 D D' D'' :
  frees sb F1 D D' -> frees sb F2 D' D'' -> frees sb (fun b => F1 b \/ F2 b) D D''.
Proof.
  intros [H1 U1] [H2 U2]. split.
  - intros b Hb. by rewrite H2, H1.
  - intros b Hb. rewrite U2, U1 by done. tauto.
Qed.

Lemma frees_ext sb (F F' : Z -> Prop) D D' :
  (forall b, F b <-> F' b) -> frees sb F D D' -> frees sb F' D D'.
Proof. intros HF [H1 U1]. split; [done|]. intros b Hb. rewrite U1, HF by done. done. Qed.

Lemma frees_bfree sb D b :
  sb_ok sb -> disk_ok D -> 0 <= b < size sb -> frees sb (fun b' => b' = b) D (bfree_disk sb D b).
Proof.
  intros Hsb HD Hb. split.
  - intros b' Hb'. destruct (BBLOCK_range sb b Hsb Hb) as [_ ?]. unfold bfree_disk.
    by rewrite dblk_insert_ne by lia.
  - intros b' Hb'. rewrite in_use_clear by done.
    destruct (Z.eqb_spec b b') as [->|]; cbn; [naive_solver|].
    split; [|by intros []]. intros. split; [done|congruence].
Qed.

Section specs.
Context {C : Type} `{BL : BlockCacheLaws C}.
Context (sb : xv6fs_super_block).
Implicit Types (c : C).

Lemma mounted_frees n c c' F :
  mounted n sb c -> bc_inv c' -> bc_held c' = bc_held c -> frees sb F (bc_disk c) (bc_disk c') ->
  (forall b, F b -> nmeta sb <= b) ->
  (forall h b d, bc_held c !! h = Some (b, d) -> ~ F b) -> mounted n sb c'.
Proof.
  intros [HI Hsb Hm Hh Hr] HI' Hh' Hf Hn Hd. pose proof (sbo_meta _ Hsb).
  pose proof (nmeta_pos sb Hsb). split; [done|done| | |by eapply room_same].
  - intros b Hb. apply (fr_use _ _ _ _ Hf); [lia|]. split; [by apply Hm|].
    intros HF. specialize (Hn _ HF). lia.
  - intros h b d Hl. rewrite Hh' in Hl. destruct (Hh h b d Hl). split; [done|].
    apply (fr_use _ _ _ _ Hf); [lia|]. eauto.
Qed.

Lemma idle_frees c c' F :
  idle sb c -> bc_inv c' -> bc_held c' = bc_held c -> frees sb F (bc_disk c) (bc_disk c') ->
  (forall b, F b -> nmeta sb <= b) -> idle sb c'.
Proof.
  intros Hi HI' Hh' Hf Hn. pose proof (idle_mounted _ _ Hi) as Hm.
  assert (Hm' : mounted NBUF sb c').
  { eapply mounted_frees; try done. intros h b d Hl. by rewrite (id_held _ _ Hi), lookup_empty in Hl. }
  split; [done|apply Hi|apply Hm'|]. rewrite Hh'. apply Hi.
Qed.

(** Dropping the block of slot [s]. *)
Lemma slots_ok_drop D D' f s :
  slots_ok sb D f -> (s < NSLOTS)%nat -> sb_ok sb ->
  frees sb (fun b => b = f s) D D' ->
  slots_ok sb D' (fun t => if decide (t = s) then 0 else f t).
Proof.
  intros [Hu Hi] Hs Hsb Hf. pose proof (nmeta_pos sb Hsb). split.
  - intros t Ht Hne. destruct (decide (t = s)); [done|]. destruct (Hu t Ht Hne) as [? ?].
    split; [done|]. apply (fr_use _ _ _ _ Hf); [lia|]. split; [done|].
    intros Heq. assert (t = s) by by apply Hi. done.
  - intros t t' Ht Ht' Hne Heq. destruct (decide (t = s)), (decide (t' = s)); try congruence.
    by apply Hi.
Qed.

Lemma slot_set_addr0 D D' ipp s t :
  (s < IND)%nat -> length (addrs ipp) = NADDRS ->
  (addrs ipp !!! IND <> 0 -> dblk D' (addrs ipp !!! IND) = dblk D (addrs ipp !!! IND)) ->
  slot D' (set_addr s 0 ipp) t = if decide (t = s) then 0 else slot D ipp t.
Proof.
  intros Hs Hl Hd. unfold slot. cbn [set_addr set_addrs addrs].
  rewrite (list_lookup_total_insert_ne _ s IND) by lia.
  destruct (decide (t = s)) as [->|Hne].
  - rewrite (proj2 (Nat.leb_le s IND)) by lia. rewrite list_lookup_total_insert_eq; [done|].
    rewrite Hl. unfold NADDRS, NDIRECT; lia.
  - rewrite list_lookup_total_insert_ne by done. destruct (t <=? IND)%nat; [done|].
    destruct (Z.eqb_spec (addrs ipp !!! IND) 0); [done|]. by rewrite Hd.
Qed.

(** One direct block freed. *)
Lemma itrunc_one_wp ipp i c :
  idle sb c -> iwf sb (bc_disk c) ipp -> (i < IND)%nat -> addrs ipp !!! i <> 0 ->
  wp (bfree sb ROOTDEV (addrs ipp !!! i)) (fun _ c' =>
    idle sb c' /\ iwf sb (bc_disk c') (set_addr i 0 ipp) /\
    frees sb (fun b => b = addrs ipp !!! i) (bc_disk c) (bc_disk c')) c.
Proof.
  intros Hi Hw Hlt Hne. pose proof (id_sb _ _ Hi) as Hsb. pose proof (nmeta_pos sb Hsb).
  pose proof (idle_disk_ok _ _ Hi) as HD.
  assert (Hsl : slot (bc_disk c) ipp i = addrs ipp !!! i).
  { unfold slot. by rewrite (proj2 (Nat.leb_le i IND)) by lia. }
  pose proof (so_used _ _ _ (iw_slots _ _ _ Hw) i (slot_bound i ltac:(lia))) as Hu.
  rewrite Hsl in Hu. destruct (Hu Hne) as [Hr Huse].
  wp_use bfree_wp; [eapply mounted_mono, idle_mounted, Hi; unfold NBUF; lia|lia|done|].
  intros _ c' (HI' & HD' & Hh').
  assert (Hf : frees sb (fun b => b = addrs ipp !!! i) (bc_disk c) (bc_disk c'))
    by (rewrite HD'; apply frees_bfree; [done|done|lia]).
  split_and!; [|split|done].
  - eapply idle_frees; try done. intros b ->. lia.
  - apply (iw_dev _ _ _ Hw).
  - cbn. rewrite length_insert. apply (iw_len _ _ _ Hw).
  - eapply slots_ok_ext; [intros t Ht; symmetry; apply (slot_set_addr0 (bc_disk c)); [done|apply Hw|]|].
    + intros Ha. destruct (so_used _ _ _ (iw_slots _ _ _ Hw) IND (slot_bound IND ltac:(lia)) Ha) as [? _].
      rewrite slot_ind in *. apply (fr_dblk _ _ _ _ Hf). lia.
    + eapply slots_ok_drop; [apply Hw|apply slot_bound; lia|done|]. by rewrite Hsl.
Qed.

Definition same_numbers (ipp ipp' : xv6fs_inode) : Prop :=
  (xi_dev ipp', xi_valid ipp', xi_major ipp', xi_minor ipp') =
  (xi_dev ipp, xi_valid ipp, xi_major ipp, xi_minor ipp).

Lemma itrunc_direct_wp n i ipp c :
  idle sb c -> iwf sb (bc_disk c) ipp -> (i + n = IND)%nat ->
  wp (itrunc_direct sb n i ROOTDEV ipp) (fun ipp' c' =>
    idle sb c' /\ iwf sb (bc_disk c') ipp' /\ same_numbers ipp ipp' /\
    frees sb (fun b => b <> 0 /\ exists t, (i <= t < IND)%nat /\ addrs ipp !!! t = b)
      (bc_disk c) (bc_disk c') /\
    (forall t, addrs ipp' !!! t = if decide (i <= t < IND)%nat then 0 else addrs ipp !!! t)) c.
Proof.
  revert i ipp c. induction n as [|n IH]; intros i ipp c Hi Hw Hn; cbn [itrunc_direct].
  - apply wp_ret. split_and!; try done.
    + apply frees_refl. intros b (_ & t & ? & _). lia.
    + intros t. by rewrite decide_False by lia.
  - apply wp_bind. destruct (Z.eqb_spec (addrs ipp !!! i) 0) as [H0|Hne].
    + apply wp_ret. eapply wp_mono; [apply IH; [done|done|lia]|].
      cbn beta. intros ipp' c' (Hi' & Hw' & Hs & Hf & Ha). split_and!; try done.
      * eapply frees_ext, Hf. intros b. split; intros (Hb & t & Ht & <-); (split; [done|]);
          exists t; split; try done; [lia|]. destruct (decide (t = i)) as [->|]; [done|lia].
      * intros t. rewrite Ha. destruct (decide (t = i)) as [->|].
        -- by rewrite decide_False, decide_True by lia.
        -- destruct (decide (S i <= t < IND)%nat), (decide (i <= t < IND)%nat); try done; lia.
    + wp_use itrunc_one_wp; [done|done|lia|done|]. intros _ c1 (Hi1 & Hw1 & Hf1).
      apply wp_ret. eapply wp_mono; [apply IH; [done|done|lia]|].
      cbn beta. intros ipp' c' (Hi' & Hw' & Hs & Hf & Ha). split_and!; try done.
      * eapply frees_ext, (frees_trans _ _ _ _ _ _ Hf1 Hf). intros b. cbn [set_addr set_addrs addrs]. split.
        -- intros [->|(Hb & t & Ht & Heq)]; (split; [done|]); [exists i; split; [lia|done]|].
           exists t. rewrite list_lookup_total_insert_ne in Heq by lia. split; [lia|done].
        -- intros (Hb & t & Ht & Heq). destruct (decide (t = i)) as [->|]; [by left|right].
           split; [done|]. exists t. rewrite list_lookup_total_insert_ne by lia. split; [lia|done].
      * intros t. rewrite Ha. cbn [set_addr set_addrs addrs].
        assert (i < length (addrs ipp))%nat by (rewrite (iw_len _ _ _ Hw); unfold NADDRS, NDIRECT; lia).
        destruct (decide (t = i)) as [->|].
        -- rewrite decide_False, decide_True by lia. by rewrite list_lookup_total_insert_eq.
        -- rewrite list_lookup_total_insert_ne by done.
           destruct (decide (S i <= t < IND)%nat), (decide (i <= t < IND)%nat); try done; lia.
Qed.

(** The blocks listed in the indirect block [d] from entry [j] on. *)
Definition listed (d : block) (j : nat) (b : Z) : Prop :=
  b <> 0 /\ exists k, (j <= k < Z.to_nat NINDIRECT)%nat /\ get32 (4 * k) d = b.

Lemma listed_S d j b :
  (j < Z.to_nat NINDIRECT)%nat ->
  listed d j b <-> (b <> 0 /\ b = get32 (4 * j) d) \/ listed d (S j) b.
Proof.
  intros Hj. split.
  - intros (Hb & k & Hk & <-). destruct (decide (k = j)) as [->|]; [by left|].
    right. split; [done|]. exists k. split; [lia|done].
  - intros [[Hb ->]|(Hb & k & Hk & <-)]; (split; [done|]); [exists j|exists k]; split; try done; lia.
Qed.

Lemma itrunc_indirect_wp n j h a d c :
  mounted 1 sb c -> bc_held c = {[h := (a, d)]} -> (j + n = Z.to_nat NINDIRECT)%nat ->
  (forall k, (j <= k < Z.to_nat NINDIRECT)%nat -> get32 (4 * k) d <> 0 ->
     nmeta sb <= get32 (4 * k) d < size sb /\ get32 (4 * k) d <> a /\
     in_use sb (bc_disk c) (get32 (4 * k) d) = true) ->
  (forall k k', (j <= k < Z.to_nat NINDIRECT)%nat -> (j <= k' < Z.to_nat NINDIRECT)%nat ->
     get32 (4 * k) d <> 0 -> get32 (4 * k) d = get32 (4 * k') d -> k = k') ->
  wp (itrunc_indirect sb n j ROOTDEV h) (fun _ c' =>
    mounted 1 sb c' /\ bc_held c' = {[h := (a, d)]} /\
    frees sb (listed d j) (bc_disk c) (bc_disk c')) c.
Proof.
  revert j c. induction n as [|n IH]; intros j c Hm Hh Hn Hok Hinj; cbn [itrunc_indirect].
  { apply wp_ret. split_and!; [done..|]. apply frees_refl. intros b (_ & k & ? & _). lia. }
  pose proof Hm as [HI Hsb _ _ _]. pose proof (bc_disk_ok _ HI) as HD. pose proof (nmeta_pos sb Hsb).
  apply wp_bind. eapply wp_run; [eapply bdata_law; [done|rewrite Hh; apply lookup_singleton_eq]|].
  apply wp_bind. destruct (Z.eqb_spec (get32 (4 * j) d) 0) as [Hz|Hne].
  - apply wp_ret. eapply wp_mono; [apply IH; try done; [lia| |]|].
    + intros k Hk. exact (Hok k ltac:(lia)).
    + intros k k' Hk Hk'. exact (Hinj k k' ltac:(lia) ltac:(lia)).
    + cbn beta. intros _ c' (Hm' & Hh' & Hf). split_and!; [done..|].
      eapply frees_ext, Hf. intros b. rewrite (listed_S d j) by lia. naive_solver.
  - destruct (Hok j ltac:(lia) Hne) as (Hr & Hna & Hu).
    wp_use bfree_wp; [done|lia|done|]. intros _ c1 (HI1 & HD1 & Hh1).
    assert (Hf1 : frees sb (fun b => b = get32 (4 * j) d) (bc_disk c) (bc_disk c1))
      by (rewrite HD1; apply frees_bfree; [done|done|lia]).
    eapply wp_mono; [apply IH; [|congruence|lia| |]|].
    + eapply mounted_frees; try done; [intros b ->; lia|].
      intros h' b d' Hl. rewrite Hh in Hl. apply lookup_singleton_Some in Hl as [_ [= <- <-]]. congruence.
    + intros k Hk Hk0. destruct (Hok k ltac:(lia) Hk0) as (? & ? & ?). split_and!; try done; try lia.
      apply (fr_use _ _ _ _ Hf1); [lia|]. split; [done|]. intros Heq.
      assert (k = j) by (apply Hinj; [lia|lia|done|done]). lia.
    + intros k k' Hk Hk'. exact (Hinj k k' ltac:(lia) ltac:(lia)).
    + cbn beta. intros _ c' (Hm' & Hh' & Hf). split_and!; [done..|].
      eapply frees_ext, (frees_trans _ _ _ _ _ _ Hf1 Hf). intros b. rewrite (listed_S d j) by lia. naive_solver.
Qed.

(** The indirect block and everything it lists. *)
Lemma itrunc_ind_wp ipp c :
  idle sb c -> iwf sb (bc_disk c) ipp -> addrs ipp !!! IND <> 0 ->
  wp (bp <- bread ROOTDEV (addrs ipp !!! IND) ;;
      itrunc_indirect sb (Z.to_nat NINDIRECT) 0 ROOTDEV bp ;;
      brelse bp ;;
      bfree sb ROOTDEV (addrs ipp !!! IND) ;;
      ret (set_addr (Z.to_nat NDIRECT) 0 ipp))
    (fun ipp' c' => idle sb c' /\ ipp' = set_addr IND 0 ipp /\
      frees sb (fun b => listed (dblk (bc_disk c) (addrs ipp !!! IND)) 0 b \/ b = addrs ipp !!! IND)
        (bc_disk c) (bc_disk c')) c.
Proof.
  intros Hi Hw Ha. set (a := addrs ipp !!! IND) in *. set (D := bc_disk c) in *.
  pose proof (id_sb _ _ Hi) as Hsb. pose proof (nmeta_pos sb Hsb). pose proof (id_inv _ _ Hi) as HI.
  pose proof (iw_slots _ _ _ Hw) as [Hu Hinj].
  destruct (Hu IND (slot_bound IND ltac:(lia)) Ha) as [Har Hau]. rewrite slot_ind in Har, Hau.
  fold a in Har, Hau.
  assert (Hent : forall k, (k < Z.to_nat NINDIRECT)%nat ->
    slot D ipp (13 + k) = get32 (4 * k) (dblk D a) /\ (13 + k < NSLOTS)%nat).
  { intros k Hk. split; [by apply slot13|]. unfold NSLOTS, NADDRS, NDIRECT. lia. }
  wp_use bread_law; [done|exact (idle_unheld _ _ _ Hi)| |].
  { pose proof (idle_room sb 1 c Hi). unfold room, NBUF in *. lia. }
  intros h c1 (HI1 & HD1 & Hn & Hh1). rewrite (id_held _ _ Hi) in Hh1. fold D in HD1, Hh1.
  assert (Hm1 : mounted 1 sb c1).
  { eapply (mounted_hold sb 1 c c1 h); try done.
    - eapply mounted_mono, idle_mounted, Hi. unfold NBUF; lia.
    - by rewrite Hh1, (id_held _ _ Hi). }
  wp_use itrunc_indirect_wp; [done|exact Hh1|done| | |].
  { intros k Hk Hk0. rewrite HD1. destruct (Hent k ltac:(lia)) as [Es Hs]. rewrite <-Es in *.
    destruct (Hu _ Hs Hk0) as [? ?]. split_and!; try done; try lia.
    intros Heq. assert (13 + k = IND)%nat; [|lia]. apply Hinj; try done. by apply slot_bound. }
  { intros k k' Hk Hk' Hk0 Heq. destruct (Hent k ltac:(lia)) as [Es Hs], (Hent k' ltac:(lia)) as [Es' Hs'].
    rewrite <-Es, <-Es' in *. assert (13 + k = 13 + k')%nat by by apply Hinj. lia. }
  intros _ c2 (Hm2 & Hh2 & Hf2). rewrite HD1 in Hf2. apply wp_bind.
  eapply wp_release; [apply Hm2|rewrite Hh2; apply lookup_singleton_eq|apply (fr_dblk _ _ _ _ Hf2); lia|].
  intros c3 HI3 HD3 Hh3.
  assert (E3 : bc_held c3 = ∅) by (rewrite Hh3, Hh2; apply delete_singleton_eq).
  assert (Hi3 : idle sb c3).
  { split; [done|done| |done]. rewrite HD3. apply Hm2. }
  assert (Hu3 : in_use sb (bc_disk c3) a = true).
  { rewrite HD3. apply (fr_use _ _ _ _ Hf2); [lia|]. split; [done|].
    intros (_ & k & Hk & Heq). destruct (Hent k ltac:(lia)) as [Es Hs].
    assert (13 + k = IND)%nat; [|lia]. apply Hinj; [done|by apply slot_bound| |]; rewrite Es, Heq; done. }
  wp_use bfree_wp; [eapply mounted_mono, idle_mounted, Hi3; unfold NBUF; lia|lia|done|].
  intros _ c4 (HI4 & HD4 & Hh4). apply wp_ret.
  assert (Hf4 : frees sb (fun b => b = a) (bc_disk c3) (bc_disk c4))
    by (rewrite HD4; apply frees_bfree; [done|by eapply idle_disk_ok|lia]).
  split_and!; [|done|].
  - eapply idle_frees; try done. intros b ->. lia.
  - rewrite <-HD3 in Hf2. exact (frees_trans _ _ _ _ _ _ Hf2 Hf4).
Qed.

Lemma addrs_all_zero (l : list Z) :
  length l = NADDRS -> (forall t, (t < NADDRS)%nat -> l !!! t = 0) -> l = replicate NADDRS 0.
Proof.
  intros Hl Hz. apply list_eq. intros t. destruct (decide (t < NADDRS)%nat) as [Ht|Ht].
  - rewrite lookup_replicate_2 by done. rewrite list_lookup_lookup_total_lt by lia. by rewrite Hz.
  - rewrite !lookup_ge_None_2; rewrite ?length_replicate; try done; lia.
Qed.

Lemma NSLOTS_split s : (s < NSLOTS)%nat ->
  (s < IND)%nat \/ s = IND \/ exists k, s = (13 + k)%nat /\ (k < Z.to_nat NINDIRECT)%nat.
Proof.
  intros Hs. unfold NSLOTS, NADDRS, NDIRECT in Hs. destruct (decide (s < IND)%nat); [by left|].
  destruct (decide (s = IND)); [by right; left|]. right; right. exists (s - 13)%nat. lia.
Qed.

(** The blocks an inode owns: direct, indirect and listed. *)
Lemma owned_cases D ipp b :
  owned D ipp b <->
  (b <> 0 /\ exists t, (0 <= t < IND)%nat /\ addrs ipp !!! t = b) \/
  (addrs ipp !!! IND <> 0 /\ (listed (dblk D (addrs ipp !!! IND)) 0 b \/ b = addrs ipp !!! IND)).
Proof.
  split.
  - intros (Hb & s & Hs & Heq). destruct (NSLOTS_split s Hs) as [Hd|[->|(k & -> & Hk)]].
    + left. split; [done|]. exists s. split; [lia|]. rewrite <-Heq. unfold slot.
      by rewrite (proj2 (Nat.leb_le s IND)) by lia.
    + right. rewrite slot_ind in Heq. split; [congruence|]. by right.
    + right. destruct (decide (addrs ipp !!! IND = 0)) as [Ez|Hne].
      { unfold slot in Heq. rewrite (proj2 (Nat.leb_gt _ IND)), Ez in Heq by lia. cbn in Heq. congruence. }
      split; [done|left]. rewrite slot13 in Heq by done. split; [done|]. exists k. split; [lia|done].
  - intros [(Hb & t & Ht & Heq)|(Hne & [(Hb & k & Hk & Heq)| ->])].
    + split; [done|]. exists t. split; [apply slot_bound; lia|]. unfold slot.
      by rewrite (proj2 (Nat.leb_le t IND)) by lia.
    + split; [done|]. exists (13 + k)%nat. split; [unfold NSLOTS, NADDRS, NDIRECT; lia|].
      by rewrite slot13.
    + split; [done|]. exists IND. split; [by apply slot_bound|done].
Qed.

Lemma itrunc_wp ip ipp c :
  idle sb c -> iwf sb (bc_disk c) ipp -> i_dev ip = ROOTDEV -> 0 <= i_inum ip < ninodes sb ->
  wp (xv6fs_itrunc sb ip ipp) (fun r c' =>
    idle sb c' /\ r.1 = set_size 0 ip /\ same_numbers ipp r.2 /\
    addrs r.2 = replicate NADDRS 0 /\
    exists D1, disk_ok D1 /\ frees sb (owned (bc_disk c) ipp) (bc_disk c) D1 /\
      bc_disk c' = iupdate_disk sb D1 (i_inum ip) (dinode_of r.1 r.2)) c.
Proof.
  intros Hi Hw Hdev Hin. unfold xv6fs_itrunc. rewrite Hdev.
  wp_use (itrunc_direct_wp (Z.to_nat NDIRECT) 0); [done|done|done|].
  intros ipp1 c1 (Hi1 & Hw1 & Hn1 & Hf1 & Ha1).
  change (Z.to_nat NDIRECT) with IND.
  assert (EI : addrs ipp1 !!! IND = addrs ipp !!! IND) by (rewrite Ha1; by rewrite decide_False by lia).
  assert (Hlen : (IND < length (addrs ipp1))%nat)
    by (rewrite (iw_len _ _ _ Hw1); unfold NADDRS, NDIRECT; lia).
  apply wp_bind. eapply (wp_mono _ (fun ipp2 c2 =>
    idle sb c2 /\ same_numbers ipp ipp2 /\ addrs ipp2 = replicate NADDRS 0 /\
    frees sb (owned (bc_disk c) ipp) (bc_disk c) (bc_disk c2))).
  - destruct (Z.eqb_spec (addrs ipp1 !!! IND) 0) as [Hz|Hz].
    + apply wp_ret. split_and!; try done.
      * apply addrs_all_zero; [apply Hw1|]. intros t Ht. rewrite Ha1.
        destruct (decide (t = IND)) as [->|]; [by rewrite <-EI|].
        rewrite decide_True; [done|]. unfold NADDRS, NDIRECT in Ht. lia.
      * eapply frees_ext, Hf1. intros b. rewrite owned_cases, EI in *. tauto.
    + eapply wp_mono; [by apply itrunc_ind_wp|]. cbn beta. intros ipp2 c2 (Hi2 & -> & Hf2).
      split_and!; try done.
      * apply addrs_all_zero; [cbn; rewrite length_insert; apply Hw1|]. intros t Ht. cbn.
        destruct (decide (t = IND)) as [->|]; [by rewrite list_lookup_total_insert_eq|].
        rewrite list_lookup_total_insert_ne by done. rewrite Ha1, decide_True; [done|].
        unfold NADDRS, NDIRECT in Ht. lia.
      * rewrite EI in *. eapply frees_ext, (frees_trans _ _ _ _ _ _ Hf1 Hf2).
        intros b. rewrite owned_cases.
        assert (Ed : dblk (bc_disk c1) (addrs ipp !!! IND) = dblk (bc_disk c) (addrs ipp !!! IND)).
        { apply (fr_dblk _ _ _ _ Hf1). right.
          apply (so_used _ _ _ (iw_slots _ _ _ Hw) IND (slot_bound IND ltac:(lia)) Hz). }
        rewrite Ed. tauto.
  - intros ipp2 c2 (Hi2 & Hn2 & Ha2 & Hf2).
    wp_use iupdate_wp; [done|done|done|by rewrite Ha2, length_replicate|].
    intros _ c3 (Hi3 & HD3). apply wp_ret. cbn [fst snd]. split_and!; try done.
    exists (bc_disk c2). split_and!; [by eapply idle_disk_ok|done|done].
Qed.

(** ** Reading an inode *)

(** What [readblock] makes of the on-disk inode. *)
Definition loaded (page : Z) (ip : inode) (di : dinode) : inode * xv6fs_inode :=
  (set_private page (set_size (d_size di) (set_nlink (d_nlink di) (set_type (d_type di) ip))),
   {| xi_dev := 1; xi_valid := 1; xi_major := d_major di; xi_minor := d_minor di;
      addrs := d_addrs di |}).

Lemma readblock_wp page ip c :
  idle sb c -> i_dev ip = ROOTDEV -> d_type (disk_inode sb (bc_disk c) (i_inum ip)) <> 0 ->
  wp (readblock sb page ip) (fun r c' => idle sb c' /\ bc_disk c' = bc_disk c /\
    r = loaded page ip (disk_inode sb (bc_disk c) (i_inum ip))) c.
Proof.
  intros Hi Hdev Ht. unfold readblock. rewrite Hdev.
  apply wp_read; [by apply Hi|by eapply idle_unheld|eapply idle_room; [done|unfold NBUF; lia]|].
  intros h c1 HI1 HD1 Hn Hh1. apply wp_bind.
  eapply wp_release; [done|rewrite Hh1; apply lookup_insert_eq|by rewrite HD1|].
  intros c2 HI2 HD2 Hh2. rewrite Hh1, held_restore in Hh2 by done.
  fold (disk_inode sb (bc_disk c) (i_inum ip)). cbn [set_size set_nlink set_type i_type].
  rewrite (proj2 (Z.eqb_neq _ 0)) by done. apply wp_ret. split_and!; [|congruence|done].
  eapply idle_grow; try done. rewrite HD2, HD1. apply (grows_refl sb (fun _ => False)).
Qed.

Lemma readblock_no_type page ip c :
  idle sb c -> i_dev ip = ROOTDEV -> d_type (disk_inode sb (bc_disk c) (i_inum ip)) = 0 ->
  stops (readblock sb page ip) (SPanic "ilock: no type") c.
Proof.
  intros Hi Hdev Ht. unfold readblock. rewrite Hdev.
  apply stops_bind. eapply wp_mono;
    [eapply bread_law; [apply Hi|exact (idle_unheld _ _ _ Hi)|]|cbn beta].
  { pose proof (idle_room sb 1 c Hi). unfold room, NBUF in *. lia. }
  intros h c1 (HI1 & HD1 & Hn & Hh1). apply stops_bind.
  eapply wp_run; [eapply bdata_law; [done|rewrite Hh1; apply lookup_insert_eq]|].
  apply stops_bind. eapply wp_release; [done|rewrite Hh1; apply lookup_insert_eq|by rewrite HD1|].
  intros c2 HI2 HD2 Hh2. fold (disk_inode sb (bc_disk c) (i_inum ip)).
  cbn [set_size set_nlink set_type i_type]. by rewrite Ht.
Qed.

(** ** Allocating an inode *)

Lemma ialloc_loop_wp fuel type inum c :
  idle sb c -> 1 <= inum -> ninodes sb - inum <= Z.of_nat fuel ->
  wp (ialloc_loop sb fuel ROOTDEV type inum) (fun r c' => idle sb c' /\
    match r with
    | None => bc_disk c' = bc_disk c /\
        forall i, inum <= i < ninodes sb -> d_type (disk_inode sb (bc_disk c) i) <> 0
    | Some i => inum <= i < ninodes sb /\ d_type (disk_inode sb (bc_disk c) i) = 0 /\
        (forall i', inum <= i' < i -> d_type (disk_inode sb (bc_disk c) i') <> 0) /\
        bc_disk c' = iupdate_disk sb (bc_disk c) i (fresh_dinode type)
    end) c.
Proof.
  revert inum c. induction fuel as [|fuel IH]; intros inum c Hi Hr Hf; cbn [ialloc_loop].
  { apply wp_ret. split_and!; [done..|]. lia. }
  case_if; [|apply wp_ret; split_and!; [done..|]; lia].
  pose proof (id_inv _ _ Hi) as HI.
  apply wp_read; [done|by eapply idle_unheld|eapply idle_room; [done|unfold NBUF; lia]|].
  intros h c1 HI1 HD1 Hn Hh1. fold (disk_inode sb (bc_disk c) inum). case_if.
  - wp_use bset_law; [done|rewrite Hh1; apply lookup_insert_eq| |].
    { apply put_dinode_ok; [done|]. apply (bc_disk_ok _ HI). }
    intros _ c2 (HI2 & HD2 & Hh2). wp_use bwrite_law; [done|rewrite Hh2; apply lookup_insert_eq|].
    intros _ c3 (HI3 & HD3 & Hh3). apply wp_bind.
    eapply wp_release; [done|rewrite Hh3, Hh2; apply lookup_insert_eq|by rewrite HD3, dblk_insert_eq|].
    intros c4 HI4 HD4 Hh4. apply wp_ret.
    assert (E4 : bc_held c4 = bc_held c).
    { rewrite Hh4, Hh3, Hh2, Hh1, insert_insert_eq. by rewrite held_restore. }
    assert (ED : bc_disk c4 = iupdate_disk sb (bc_disk c) inum (fresh_dinode type))
      by (by rewrite HD4, HD3, HD2, HD1).
    split_and!; try done; try lia. eapply (idle_update _ c); try done; lia.
  - apply wp_bind. eapply wp_release; [done|rewrite Hh1; apply lookup_insert_eq|by rewrite HD1|].
    intros c2 HI2 HD2 Hh2. rewrite Hh1, held_restore in Hh2 by done. rewrite HD1 in HD2.
    assert (Hi2 : idle sb c2).
    { eapply idle_grow; try done. rewrite HD2. apply (grows_refl sb (fun _ => False)). }
    eapply wp_mono; [apply IH; [done|lia|lia]|]. rewrite HD2. cbn beta.
    intros [i|] c3 [Hi3 H3]; (split; [done|]).
    + destruct H3 as (? & ? & Hb & ?). split_and!; try done; try lia.
      intros i' Hi'. destruct (decide (i' = inum)) as [->|]; [done|apply Hb; lia].
    + destruct H3 as (? & Hb). split; [done|].
      intros i' Hi'. destruct (decide (i' = inum)) as [->|]; [done|apply Hb; lia].
Qed.
End specs.
