(* ===== verification/UserMem.v ===== *)
(** * User memory interface

    What [kernel/vm.c] and [either_copyin]/[either_copyout] of
    [kernel/proc.c] promise to the file system: the operations as a class
    ([UserMem]) and their laws ([UserMemLaws]) on a byte view of the calling
    process's address space. *)

From S2P Require Import Prelude.

Class UserMem (U : Type) : Type := {
  (** [copyout va src]: the bytes are stored page by page; [false] is the
      result -1, after the pages before the bad one were written *)
  copyout : Z -> list Z -> U -> U * bool;
  (** [copyin va len]: the bytes copied before returning, and whether the
      result was 0 *)
  copyin : Z -> Z -> U -> list Z * bool;
  (** [copyinstr va max]: the string without its nul, or [None] for -1 *)
  copyinstr : Z -> Z -> U -> option (list Z);
}.

(** Every address of [[va, va + n)] satisfies [P]. *)
Definition range_all (P : Z -> Prop) (va n : Z) : Prop := forall a, va <= a < va + n -> P a.

Class UserMemLaws (U : Type) `{UserMem U} : Type := {
  um_inv : U -> Prop;
  um_byte : U -> Z -> option Z;
  um_byte_ok : forall u a v, um_inv u -> um_byte u a = Some v -> byte_ok v /\ 0 <= a < 2 ^ 38;
  copyout_inv : forall u va src, um_inv u -> 0 <= va < 2 ^ 64 -> Forall byte_ok src ->
    um_inv (copyout va src u).1;
  copyout_ok : forall u va src, um_inv u -> 0 <= va < 2 ^ 64 -> Forall byte_ok src ->
    range_all (fun a => is_Some (um_byte u a)) va (Z.of_nat (length src)) ->
    (copyout va src u).2 = true /\
    forall a, um_byte (copyout va src u).1 a =
      if decide (va <= a < va + Z.of_nat (length src)) then src !! Z.to_nat (a - va)
      else um_byte u a;
  copyout_fail : forall u va src, um_inv u -> 0 <= va < 2 ^ 64 -> Forall byte_ok src ->
    ~ range_all (fun a => is_Some (um_byte u a)) va (Z.of_nat (length src)) ->
    (copyout va src u).2 = false;
  copyout_unmapped : forall u va src, 0 <= va < 2 ^ 64 -> src <> [] -> um_byte u va = None ->
    copyout va src u = (u, false);
  copyin_ok : forall u va len, um_inv u -> 0 <= va < 2 ^ 64 -> 0 <= len ->
    range_all (fun a => is_Some (um_byte u a)) va len ->
    (copyin va len u).2 = true /\
    length (copyin va len u).1 = Z.to_nat len /\
    forall i, (i < Z.to_nat len)%nat -> (copyin va len u).1 !! i = um_byte u (va + Z.of_nat i);
  copyin_fail : forall u va len, um_inv u -> 0 <= va < 2 ^ 64 -> 0 <= len ->
    ~ range_all (fun a => is_Some (um_byte u a)) va len ->
    (copyin va len u).2 = false;
}.

(** A process without any mapped page. *)
#[global] Instance unmapped : UserMem unit := {|
  copyout _ src u := (u, match src with [] => true | _ => false end);
  copyin _ len _ := ([], len =? 0);
  copyinstr _ _ _ := None;
|}.

#[global] Instance unmapped_laws : UserMemLaws unit.
Proof.
  refine {| um_inv _ := True; um_byte _ _ := None |}.
  - done.
  - done.
  - intros u va src _ _ _ Hr. destruct src as [|x src].
    + split; [done|]. intros a. cbn. by rewrite decide_False by lia.
    + destruct (Hr va ltac:(cbn; lia)) as [v Hv]. done.
  - intros u va src _ _ _ Hn. destruct src as [|x src]; [|done]. destruct Hn. intros a Ha. cbn in Ha. lia.
  - intros u va [|x src] _ Hne _; done.
  - intros u va len _ _ Hl Hr. destruct (decide (len = 0)) as [->|Hne].
    + split_and!; [done..|]. intros i Hi. cbn in Hi. lia.
    + destruct (Hr va ltac:(lia)) as [v Hv]. done.
  - intros u va len _ _ Hl Hn. cbn. apply Z.eqb_neq. intros ->. apply Hn. intros a Ha. lia.
Defined.
