(* ===== verification/Pipe.v ===== *)
(** * Pipes: [kernel/fs/pipe.c]

    [pipewrite] and [piperead] hold [pi->lock] except while they sleep, so they
    are modelled as sections of code from one acquisition of the lock to the
    next sleep or to the return; processes interleave at these points.  The
    sections are shown to move bytes through a bounded queue: what comes out is
    what went in, in order, with the 32-bit counters [nread] and [nwrite]
    wrapping around, nobody sleeps for something that is already there, and the
    page of the pipe is freed once, when nobody uses it.  The pipe in memory is
    any empty one with both ends open. *)

From S2P Require Import Prelude UserMem.

Module Pipe.

Definition PIPESIZE : Z := 512.

Record pipe : Type := {
  pi_data : list Z;
  nread : Z;
  nwrite : Z;
  readopen : Z;
  writeopen : Z;
}.

(** [&pi->nread] and [&pi->nwrite], on which readers and writers sleep. *)
Inductive chan : Type := NREAD | NWRITE.
#[global] Instance chan_eq_dec : EqDecision chan.
Proof. solve_decision. Defined.

(** The pipe, the memory of the process that runs, and the channels it has
    woken up since it took the lock. *)
Record pst (U : Type) : Type := {
  ps_pi : pipe;
  ps_user : U;
  ps_woken : list chan;
}.
Arguments ps_pi {U}.
Arguments ps_user {U}.
Arguments ps_woken {U}.

(** How a section gives up the lock: the call returns, or sleeps; [i] is the
    counter of [pipewrite], which is kept on its stack. *)
Inductive ends : Type :=
| Returns (v : Z)
| Sleeps (c : chan) (i : Z).

Section Pipe.
Context {U : Type} `{UM : UserMem U}.
Notation T := (pst U).

Definition set_pi (p : pipe) (s : T) : T :=
  {| ps_pi := p; ps_user := ps_user s; ps_woken := ps_woken s |}.
Definition set_user (u : U) (s : T) : T :=
  {| ps_pi := ps_pi s; ps_user := u; ps_woken := ps_woken s |}.

Definition wakeup (c : chan) : M T unit :=
  modify (fun s => {| ps_pi := ps_pi s; ps_user := ps_user s; ps_woken := c :: ps_woken s |}).

(** [pi->data[pi->nwrite++ % PIPESIZE] = ch] *)
Definition put_byte (ch : Z) (p : pipe) : pipe :=
  {| pi_data := <[ Z.to_nat (nwrite p mod PIPESIZE) := ch ]> (pi_data p);
     nread := nread p; nwrite := u32 (nwrite p + 1); readopen := readopen p; writeopen := writeopen p |}.
(** [pi->nread++] *)
Definition take_byte (p : pipe) : pipe :=
  {| pi_data := pi_data p; nread := u32 (nread p + 1); nwrite := nwrite p;
     readopen := readopen p; writeopen := writeopen p |}.
Definition next_byte (p : pipe) : Z := pi_data p !!! Z.to_nat (nread p mod PIPESIZE).

(** The answer of [killed(pr)] in the iteration for byte [i] is [kd i]: the
    flag is set by other processes, without the lock of the pipe. *)
Fixpoint pipewrite_loop (fuel : nat) (kd : Z -> bool) (addr n i : Z) : M T ends :=
  match fuel with
  | O => halt (SFault "pipewrite: loop")
  | S fuel =>
      if i <? n then
        p <- gets ps_pi ;;
        if (readopen p =? 0) || kd i then ret (Returns (-1))
        else if nwrite p =? u32 (nread p + PIPESIZE) then
          wakeup NREAD ;;
          ret (Sleeps NWRITE i)
        else
          u <- gets ps_user ;;
          let '(bytes, ok) := copyin (u64 (addr + i)) 1 u in
          if negb ok then wakeup NREAD ;; ret (Returns i)
          else
            modify (set_pi (put_byte (bytes !!! 0%nat) p)) ;;
            pipewrite_loop fuel kd addr n (i + 1)
      else
        wakeup NREAD ;;
        ret (Returns i)
  end.

(** From the acquisition of the lock, or from the end of a sleep, with [i]
    bytes written. *)
Definition pipewrite (kd : Z -> bool) (addr n i : Z) : M T ends :=
  pipewrite_loop (S (Z.to_nat (n - i))) kd addr n i.

(** The loop that copies; [fuel] is the number of bytes left. *)
Fixpoint piperead_loop (fuel : nat) (addr n i : Z) : M T Z :=
  match fuel with
  | O => ret i
  | S fuel =>
      if i <? n then
        p <- gets ps_pi ;;
        if nread p =? nwrite p then ret i
        else
          modify (set_pi (take_byte p)) ;;
          u <- gets ps_user ;;
          let '(u', ok) := copyout (u64 (addr + i)) [next_byte p] u in
          modify (set_user u') ;;
          if negb ok then ret i else piperead_loop fuel addr n (i + 1)
      else ret i
  end.

Definition piperead (kd : bool) (addr n : Z) : M T ends :=
  p <- gets ps_pi ;;
  if (nread p =? nwrite p) && negb (writeopen p =? 0) then
    if kd then ret (Returns (-1)) else ret (Sleeps NREAD 0)
  else
    i <- piperead_loop (Z.to_nat n) addr n 0 ;;
    wakeup NWRITE ;;
    ret (Returns i).

(** Whether the page is freed. *)
Definition pipeclose (writable : bool) : M T bool :=
  p <- gets ps_pi ;;
  (if writable then
     modify (set_pi {| pi_data := pi_data p; nread := nread p; nwrite := nwrite p;
                       readopen := readopen p; writeopen := 0 |}) ;;
     wakeup NREAD
   else
     modify (set_pi {| pi_data := pi_data p; nread := nread p; nwrite := nwrite p;
                       readopen := 0; writeopen := writeopen p |}) ;;
     wakeup NWRITE) ;;
  p <- gets ps_pi ;;
  ret ((readopen p =? 0) && (writeopen p =? 0)).

(** ** Processes that use one pipe *)

(** Where a process is: outside the pipe, or in a call, asleep or about to take
    the lock. *)
Inductive at_ : Type :=
| Idle
| Writing (addr n i : Z) (asleep : bool)
| Reading (addr n : Z) (asleep : bool).

Record thread : Type := { th_at : at_; th_user : U; th_killed : bool }.

Record sys : Type := {
  sy_pi : pipe;
  sy_freed : bool;
  sy_th : list thread;
}.

Definition is_writing (t : thread) : bool := if th_at t is Writing _ _ _ _ then true else false.
Definition is_reading (t : thread) : bool := if th_at t is Reading _ _ _ then true else false.

(** What [wakeup] on the channels [cs] does to a process. *)
Definition wake (cs : list chan) (t : thread) : thread :=
  {| th_at := match th_at t with
              | Writing a n i true => Writing a n i (negb (bool_decide (NWRITE ∈ cs)))
              | Reading a n true => Reading a n (negb (bool_decide (NREAD ∈ cs)))
              | x => x
              end;
     th_user := th_user t; th_killed := th_killed t |}.

(** The pipe and the process after a section. *)
Definition settle (s : sys) (k : nat) (a : at_) (kd : bool) (s' : T) : sys :=
  {| sy_pi := ps_pi s'; sy_freed := sy_freed s;
     sy_th := <[ k := {| th_at := a; th_user := ps_user s'; th_killed := kd |} ]>
                (map (wake (ps_woken s')) (sy_th s)) |}.

Definition start (s : sys) (u : U) : T := {| ps_pi := sy_pi s; ps_user := u; ps_woken := [] |}.

(** The bytes of a process at [a], [a + 1], ... *)
Fixpoint bytes_at (u : U) (a : Z) (n : nat) : list Z :=
  match n with
  | O => []
  | S n => (copyin (u64 a) 1 u).1 !!! 0%nat :: bytes_at u (a + 1) n
  end.

(** The bytes the ring holds from [nread] on. *)
Fixpoint peek (p : pipe) (n : nat) : list Z :=
  match n with
  | O => []
  | S n => next_byte p :: peek (take_byte p) n
  end.

(** What a step shows: bytes taken from the memory of a writer, or bytes left
    in the memory of a reader and bytes that found no place there. *)
Inductive event : Type :=
| Silent
| In (l : list Z)
| Out (got lost : list Z).

Definition moved (a b : Z) : nat := Z.to_nat (u32 (b - a)).

Inductive step : sys -> event -> sys -> Prop :=
| st_call s k t a :
    sy_th s !! k = Some t -> th_at t = Idle -> sy_freed s = false ->
    (readopen (sy_pi s) <> 0 /\ (exists addr n, a = Reading addr n false /\ n < 2 ^ 31) \/
     writeopen (sy_pi s) <> 0 /\ (exists addr n, a = Writing addr n 0 false /\ n < 2 ^ 31)) ->
    step s Silent {| sy_pi := sy_pi s; sy_freed := sy_freed s;
                     sy_th := <[ k := {| th_at := a; th_user := th_user t; th_killed := th_killed t |} ]> (sy_th s) |}
| st_write_sleeps s k t addr n i c i' s' :
    sy_th s !! k = Some t -> th_at t = Writing addr n i false ->
    pipewrite (fun _ => th_killed t) addr n i (start s (th_user t)) = Ok (Sleeps c i') s' ->
    step s (In (bytes_at (th_user t) (addr + i) (moved (nwrite (sy_pi s)) (nwrite (ps_pi s')))))
      (settle s k (Writing addr n i' true) (th_killed t) s')
| st_write_returns s k t addr n i v s' :
    sy_th s !! k = Some t -> th_at t = Writing addr n i false ->
    pipewrite (fun _ => th_killed t) addr n i (start s (th_user t)) = Ok (Returns v) s' ->
    step s (In (bytes_at (th_user t) (addr + i) (moved (nwrite (sy_pi s)) (nwrite (ps_pi s')))))
      (settle s k Idle (th_killed t) s')
| st_read_sleeps s k t addr n c i s' :
    sy_th s !! k = Some t -> th_at t = Reading addr n false ->
    piperead (th_killed t) addr n (start s (th_user t)) = Ok (Sleeps c i) s' ->
    step s Silent (settle s k (Reading addr n true) (th_killed t) s')
| st_read_returns s k t addr n v s' :
    sy_th s !! k = Some t -> th_at t = Reading addr n false ->
    piperead (th_killed t) addr n (start s (th_user t)) = Ok (Returns v) s' ->
    let taken := moved (nread (sy_pi s)) (nread (ps_pi s')) in
    step s (Out (bytes_at (ps_user s') addr (Z.to_nat v)) (drop (Z.to_nat v) (peek (sy_pi s) taken)))
      (settle s k Idle (th_killed t) s')
(** The last file of an end is closed: nobody is in a call through it. *)
| st_close s k t w b s' :
    sy_th s !! k = Some t -> th_at t = Idle -> sy_freed s = false ->
    (if w : bool then writeopen (sy_pi s) <> 0 /\ Forall (fun t => is_writing t = false) (sy_th s)
     else readopen (sy_pi s) <> 0 /\ Forall (fun t => is_reading t = false) (sy_th s)) ->
    pipeclose w (start s (th_user t)) = Ok b s' ->
    step s Silent {| sy_pi := ps_pi s'; sy_freed := b; sy_th := map (wake (ps_woken s')) (sy_th s) |}
(** [kill] sets the flag and makes a sleeping process runnable; it comes while
    the process does not hold the lock of the pipe. *)
| st_kill s k t :
    sy_th s !! k = Some t ->
    step s Silent {| sy_pi := sy_pi s; sy_freed := sy_freed s;
                     sy_th := <[ k := wake [NREAD; NWRITE] {| th_at := th_at t; th_user := th_user t; th_killed := true |} ]> (sy_th s) |}.

Inductive steps : sys -> list event -> sys -> Prop :=
| steps_nil s : steps s [] s
| steps_snoc s1 tr s2 e s3 : steps s1 tr s2 -> step s2 e s3 -> steps s1 (tr ++ [e]) s3.

Definition ins (e : event) : list Z := if e is In l then l else [].
Definition outs (e : event) : list Z := if e is Out l l' then l ++ l' else [].

(** An empty pipe with both ends open, whatever its counters. *)
Definition fresh (s : sys) : Prop :=
  length (pi_data (sy_pi s)) = Z.to_nat PIPESIZE /\ nread (sy_pi s) = nwrite (sy_pi s) /\
  0 <= nread (sy_pi s) < 2 ^ 32 /\ readopen (sy_pi s) = 1 /\ writeopen (sy_pi s) = 1 /\
  sy_freed s = false /\ Forall (fun t => th_at t = Idle) (sy_th s).
End Pipe.

(** ** The ring *)

Lemma u32_off r n : 0 <= n < 2 ^ 32 -> u32 (u32 (r + n) - u32 r) = n.
Proof. unfold u32. intros. Z.div_mod_to_equations. lia. Qed.
Lemma u32_mod_512 x : u32 x mod PIPESIZE = x mod PIPESIZE.
Proof. unfold u32, PIPESIZE. Z.div_mod_to_equations. lia. Qed.
Lemma u32_shift r a b : u32 (u32 (r + a) + b) = u32 (r + (a + b)).
Proof. unfold u32. rewrite Z.add_mod_idemp_l by done. f_equal. lia. Qed.

Record ring (p : pipe) (q : list Z) : Prop := {
  r_len : length (pi_data p) = Z.to_nat PIPESIZE;
  r_read : 0 <= nread p < 2 ^ 32;
  r_write : nwrite p = u32 (nread p + Z.of_nat (length q));
  r_size : Z.of_nat (length q) <= PIPESIZE;
  r_bytes : Forall byte_ok q;
  r_data : forall i c, q !! i = Some c ->
    pi_data p !! Z.to_nat ((nread p + Z.of_nat i) mod PIPESIZE) = Some c;
}.

Lemma ring_empty p q : ring p q -> nread p =? nwrite p = bool_decide (q = []).
Proof.
  intros [_ Hr Hw Hs _ _]. rewrite Hw. unfold PIPESIZE in Hs. destruct q as [|c q].
  - rewrite Z.add_0_r, u32_small by done. by rewrite Z.eqb_refl.
  - rewrite bool_decide_eq_false_2 by done. apply Z.eqb_neq. cbn [length] in *. unfold u32.
    Z.div_mod_to_equations. lia.
Qed.

Lemma ring_full p q :
  ring p q -> nwrite p =? u32 (nread p + PIPESIZE) = bool_decide (Z.of_nat (length q) = PIPESIZE).
Proof.
  intros [_ Hr Hw Hs _ _]. rewrite Hw. destruct (decide (Z.of_nat (length q) = PIPESIZE)) as [->|Hne].
  - by rewrite Z.eqb_refl, bool_decide_eq_true_2.
  - rewrite bool_decide_eq_false_2 by done. apply Z.eqb_neq. unfold PIPESIZE, u32 in *.
    Z.div_mod_to_equations. lia.
Qed.

Lemma ring_slot_ne r i n :
  Z.of_nat i < Z.of_nat n < PIPESIZE ->
  Z.to_nat ((r + Z.of_nat n) mod PIPESIZE) <> Z.to_nat ((r + Z.of_nat i) mod PIPESIZE).
Proof. unfold PIPESIZE. intros Hi. Z.div_mod_to_equations. lia. Qed.

Lemma ring_put p q c :
  ring p q -> Z.of_nat (length q) < PIPESIZE -> byte_ok c -> ring (put_byte c p) (q ++ [c]).
Proof.
  intros [Hl Hr Hw Hs Hb Hd] Hlt Hc.
  assert (Hi : (Z.to_nat ((nread p + Z.of_nat (length q)) mod PIPESIZE) < Z.to_nat PIPESIZE)%nat).
  { pose proof (Z.mod_pos_bound (nread p + Z.of_nat (length q)) PIPESIZE ltac:(done)). lia. }
  split; cbn [put_byte pi_data nread nwrite].
  - by rewrite length_insert.
  - done.
  - rewrite Hw, u32_shift, length_app. cbn [length]. f_equal. lia.
  - rewrite length_app. cbn [length]. lia.
  - by apply Forall_app_2; [|apply Forall_singleton].
  - intros i x Hx. rewrite Hw, u32_mod_512. apply lookup_app_Some in Hx as [Hx|[Hge Hx]].
    + pose proof (lookup_lt_Some _ _ _ Hx). rewrite list_lookup_insert_ne by (apply ring_slot_ne; lia).
      by apply Hd.
    + apply list_lookup_singleton_Some in Hx as [? <-]. replace i with (length q) by lia.
      apply list_lookup_insert_eq. by rewrite Hl.
Qed.

Lemma ring_take p c q : ring p (c :: q) -> next_byte p = c /\ ring (take_byte p) q.
Proof.
  intros [Hl Hr Hw Hs Hb Hd]. split.
  - unfold next_byte. apply list_lookup_total_correct.
    specialize (Hd 0%nat c eq_refl). by rewrite Z.add_0_r in Hd.
  - split; cbn [take_byte pi_data nread nwrite]; try done.
    + apply u32_range.
    + rewrite Hw, u32_shift. cbn [length]. f_equal. lia.
    + cbn [length] in Hs. lia.
    + by apply Forall_cons in Hb as [_ ?].
    + intros i x Hx. specialize (Hd (S i) x Hx). rewrite Zplus_mod, u32_mod_512, <- Zplus_mod.
      rewrite <- Hd. do 3 f_equal. lia.
Qed.

Lemma peek_ring l p q : ring p (l ++ q) -> peek p (length l) = l.
Proof.
  revert p. induction l as [|c l IH]; intros p Hr; [done|]. apply ring_take in Hr as [Hn Hr].
  cbn. by rewrite Hn, IH.
Qed.

(** ** The sections *)

Section Sections.
Context {U : Type} `{UL : UserMemLaws U}.
Notation T := (pst U).

Lemma copyin_byte u a : um_inv u ->
  match um_byte u (u64 a) with
  | Some b => copyin (u64 a) 1 u = ([b], true) /\ byte_ok b
  | None => (copyin (u64 a) 1 u).2 = false
  end.
Proof.
  intros Hu. pose proof (u64_range a) as Ha. destruct (um_byte u (u64 a)) as [b|] eqn:Eb.
  - split; [|by apply (um_byte_ok u (u64 a))].
    destruct (copyin_ok u (u64 a) 1 Hu Ha ltac:(lia)) as (H1 & H2 & H3).
    { intros x Hx. replace x with (u64 a) by lia. eauto. }
    specialize (H3 0%nat ltac:(lia)). rewrite Z.add_0_r, Eb in H3.
    destruct (copyin (u64 a) 1 u) as [[|x [|]] ok]; cbn in *; try discriminate. congruence.
  - apply copyin_fail; [done|done|lia|]. intros Hr. destruct (Hr (u64 a)) as [b Hb]; [lia|]. congruence.
Qed.

Lemma copyout_byte u a b : um_inv u -> byte_ok b ->
  let u' := (copyout (u64 a) [b] u).1 in
  um_inv u' /\
  match um_byte u (u64 a) with
  | Some _ => (copyout (u64 a) [b] u).2 = true /\
      forall x, um_byte u' x = if decide (x = u64 a) then Some b else um_byte u x
  | None => (copyout (u64 a) [b] u).2 = false /\ u' = u
  end.
Proof.
  intros Hu Hb u'. pose proof (u64_range a) as Ha. assert (Forall byte_ok [b]) by by apply Forall_singleton.
  split; [by apply copyout_inv|]. destruct (um_byte u (u64 a)) as [c|] eqn:Ec.
  - destruct (copyout_ok u (u64 a) [b] Hu Ha) as [H1 H2]; [done| |].
    { intros x Hx. cbn in Hx. replace x with (u64 a) by lia. eauto. }
    split; [done|]. intros x. subst u'. rewrite H2. cbn. do 2 case_decide; try lia; [|done].
    subst x. by rewrite Z.sub_diag.
  - subst u'. by rewrite (copyout_unmapped u (u64 a) [b]).
Qed.

Definition same_ends (p p' : pipe) : Prop := readopen p' = readopen p /\ writeopen p' = writeopen p.

(** What a section of [pipewrite] does when the flag [killed] does not change
    in it: bytes [bs] of the process go into the pipe. *)
Record wrote_post (kd : bool) (addr n i : Z) (q : list Z) (s : T) (r : ends) (s' : T) (bs : list Z) : Prop := {
  wp_ring : ring (ps_pi s') (q ++ bs);
  wp_ends : same_ends (ps_pi s) (ps_pi s');
  wp_read : nread (ps_pi s') = nread (ps_pi s);
  wp_user : ps_user s' = ps_user s;
  wp_bytes : bs = bytes_at (ps_user s) (addr + i) (length bs);
  wp_woken : ps_woken s' = NREAD :: ps_woken s \/
    (ps_woken s' = ps_woken s /\ bs = [] /\ (readopen (ps_pi s) = 0 \/ kd = true));
  wp_result : match r with
    | Sleeps c i' => c = NWRITE /\ i' = i + Z.of_nat (length bs) /\ i' < n /\
        Z.of_nat (length (q ++ bs)) = PIPESIZE /\ readopen (ps_pi s) <> 0 /\ kd = false
    | Returns v =>
        (v = -1 /\ bs = [] /\ (readopen (ps_pi s) = 0 \/ kd = true)) \/
        (v = i + Z.of_nat (length bs) /\ (n <= v \/ um_byte (ps_user s) (u64 (addr + v)) = None))
    end;
}.

Lemma stored_nothing kd addr n i q s r s' :
  ring (ps_pi s) q -> ps_pi s' = ps_pi s -> ps_user s' = ps_user s ->
  ps_woken s' = NREAD :: ps_woken s ->
  (r = Returns i /\ (n <= i \/ um_byte (ps_user s) (u64 (addr + i)) = None) \/
   r = Sleeps NWRITE i /\ i < n /\ Z.of_nat (length q) = PIPESIZE /\ readopen (ps_pi s) <> 0 /\ kd = false) ->
  wrote_post kd addr n i q s r s' [].
Proof.
  intros Hr Ep Eu Ew Hres. split; rewrite ?Ep, ?app_nil_r; try done; [by left|].
  destruct Hres as [(-> & ?)|(-> & ? & ? & ? & ?)].
  - right. split; [cbn; lia|done].
  - split_and!; try done. cbn. lia.
Qed.

Lemma wrote_more kd addr n i q s s1 r s' c bs :
  ps_user s1 = ps_user s -> ps_woken s1 = ps_woken s -> same_ends (ps_pi s) (ps_pi s1) ->
  nread (ps_pi s1) = nread (ps_pi s) ->
  readopen (ps_pi s) <> 0 -> kd = false -> (copyin (u64 (addr + i)) 1 (ps_user s)).1 = [c] ->
  wrote_post kd addr n (i + 1) (q ++ [c]) s1 r s' bs ->
  wrote_post kd addr n i q s r s' (c :: bs).
Proof.
  intros Eu Ew [Er Ewo] En Hro Hk Ec [H1 [H2a H2b] H3 H4 H5 H6 H7]. rewrite <- app_assoc in H1. cbn in H1.
  split; try done.
  - split; congruence.
  - congruence.
  - congruence.
  - cbn [length bytes_at]. rewrite Ec. cbn. f_equal. rewrite H5 at 1. rewrite Eu. f_equal. lia.
  - left. destruct H6 as [H6|(_ & _ & [H6|H6])]; congruence.
  - rewrite Er, Eu, <- app_assoc in H7. cbn [app] in H7. cbn [length].
    destruct r as [v|ch i'].
    + destruct H7 as [(_ & _ & [?|?])|[Hv ?]]; [congruence..|]. right. split; [lia|done].
    + destruct H7 as (? & ? & ? & ? & ? & ?). split_and!; try done; lia.
Qed.

Lemma pipewrite_loop_wp fuel kd addr n i q s :
  ring (ps_pi s) q -> um_inv (ps_user s) -> (Z.to_nat (n - i) < fuel)%nat ->
  wp (pipewrite_loop fuel (fun _ => kd) addr n i)
    (fun r s' => exists bs, wrote_post kd addr n i q s r s' bs) s.
Proof.
  revert i q s. induction fuel as [|fuel IH]; intros i q s Hr Hu Hf; [lia|]. cbn [pipewrite_loop].
  destruct (Z.ltb_spec i n) as [Hi|Hi]; cycle 1.
  { apply wp_bind, wp_modify, wp_ret. exists []. apply stored_nothing; try done. left. split; [done|by left]. }
  apply wp_bind, wp_gets. destruct (Z.eqb_spec (readopen (ps_pi s)) 0) as [Hro|Hro].
  { apply wp_ret. exists []. split; rewrite ?app_nil_r; auto; try done. }
  destruct kd; cbn [orb].
  { apply wp_ret. exists []. split; rewrite ?app_nil_r; auto; try done. }
  rewrite (ring_full _ _ Hr). case_bool_decide as Hfull.
  { apply wp_bind, wp_modify, wp_ret. exists []. apply stored_nothing; try done. by right. }
  apply wp_bind, wp_gets. pose proof (copyin_byte (ps_user s) (addr + i) Hu) as Hc.
  destruct (um_byte (ps_user s) (u64 (addr + i))) as [c|] eqn:Eb.
  - destruct Hc as [Hc Hb]. rewrite Hc. cbn [negb]. apply wp_bind, wp_modify.
    assert (ring (put_byte c (ps_pi s)) (q ++ [c])) as Hr'.
    { apply ring_put; [done| |done]. pose proof (r_size _ _ Hr). lia. }
    eapply wp_mono; [apply (IH (i + 1) (q ++ [c])); [exact Hr'|exact Hu|lia]|].
    intros r s' [bs Hbs]. exists (c :: bs). eapply wrote_more; [..|exact Hbs]; try done. by rewrite Hc.
  - destruct (copyin (u64 (addr + i)) 1 (ps_user s)) as [l ok]. cbn in Hc. subst ok. cbn [negb].
    apply wp_bind, wp_modify, wp_ret. exists []. apply stored_nothing; try done. left. auto.
Qed.

Lemma pipewrite_wp kd addr n i q s :
  ring (ps_pi s) q -> um_inv (ps_user s) ->
  wp (pipewrite (fun _ => kd) addr n i) (fun r s' => exists bs, wrote_post kd addr n i q s r s' bs) s.
Proof. intros Hr Hu. apply pipewrite_loop_wp; [done|done|lia]. Qed.

(** The copying loop of [piperead]: [bs] is taken from the pipe, [v - i] bytes
    of it are in the memory of the process, at most one is not. *)
Record took_post (addr n i : Z) (q : list Z) (s : T) (v : Z) (s' : T) (bs : list Z) : Prop := {
  tp_queue : exists q', q = bs ++ q' /\ ring (ps_pi s') q';
  tp_ends : same_ends (ps_pi s) (ps_pi s');
  tp_nread : nread (ps_pi s') = u32 (nread (ps_pi s) + Z.of_nat (length bs));
  tp_woken : ps_woken s' = ps_woken s;
  tp_inv : um_inv (ps_user s');
  tp_count : i <= v <= Z.max i n /\ (v = i + Z.of_nat (length bs) /\ (n <= v \/ q = bs) \/
    v + 1 = i + Z.of_nat (length bs) /\ um_byte (ps_user s') (u64 (addr + v)) = None);
  tp_got : forall j, i <= j < v -> um_byte (ps_user s') (u64 (addr + j)) = bs !! Z.to_nat (j - i);
  tp_else : forall x, (forall j, i <= j < v -> x <> u64 (addr + j)) -> um_byte (ps_user s') x = um_byte (ps_user s) x;
}.

Lemma u64_ne addr i j : i <> j -> - 2 ^ 63 < i - j < 2 ^ 63 -> u64 (addr + i) <> u64 (addr + j).
Proof. unfold u64. intros Hne Hr E. Z.div_mod_to_equations. lia. Qed.

Lemma piperead_loop_wp fuel addr n i q s :
  ring (ps_pi s) q -> um_inv (ps_user s) -> 0 <= i -> n < 2 ^ 31 -> (Z.to_nat (n - i) <= fuel)%nat ->
  wp (piperead_loop fuel addr n i) (fun v s' => exists bs, took_post addr n i q s v s' bs) s.
Proof.
  revert i q s. induction fuel as [|fuel IH]; intros i q s Hr Hu Hi Hn Hf; cbn [piperead_loop];
    assert (stop : (n <= i \/ q = []) -> exists bs, took_post addr n i q s i s bs)
      by (intros Hq; exists []; split; cbn [length]; rewrite ?Z.add_0_r, ?(u32_small _ (r_read _ _ Hr)); try done;
          [by exists q|split; [lia|left; split; [lia|naive_solver]]|intros; lia]).
  { apply wp_ret, stop. lia. }
  destruct (Z.ltb_spec i n) as [Hlt|]; [|apply wp_ret, stop; lia]. apply wp_bind, wp_gets.
  rewrite (ring_empty _ _ Hr). destruct q as [|c q]; [apply wp_ret, stop; by right|]. clear stop.
  rewrite bool_decide_eq_false_2 by done. apply wp_bind, wp_modify, wp_bind, wp_gets.
  pose proof (r_bytes _ _ Hr) as Hb. apply Forall_cons in Hb as [Hb _].
  destruct (ring_take _ _ _ Hr) as [-> Hr']. cbn [set_pi ps_user].
  destruct (copyout_byte (ps_user s) (addr + i) c Hu Hb) as [Hu' Hc].
  destruct (copyout (u64 (addr + i)) [c] (ps_user s)) as [u' ok]. cbn in Hu', Hc. apply wp_bind, wp_modify.
  destruct (um_byte (ps_user s) (u64 (addr + i))) as [c0|] eqn:E0.
  - destruct Hc as [-> Hx]. cbn [negb].
    eapply wp_mono; [apply (IH (i + 1) q); [exact Hr'|exact Hu'|lia|lia|lia]|].
    intros v s' [bs [(q' & -> & Hq') H2 H3 H4 H5 [Hle H6] H7 H8]]. exists (c :: bs). cbn in H3, H4, H7, H8.
    split; try done.
    + by exists q'.
    + rewrite H3, u32_shift. cbn [length]. f_equal. lia.
    + split; [lia|]. cbn [length]. destruct H6 as [[? H6]|[? ?]]; [left|right]; (split; [lia|]); [|done].
      destruct H6 as [?|H6]; [by left|right]. by rewrite H6 at 1.
    + intros j Hj. destruct (decide (j = i)) as [->|Hne].
      * rewrite H8, Hx, decide_True by (try done; intros k Hk; apply u64_ne; lia). by rewrite Z.sub_diag.
      * rewrite H7 by lia. replace (Z.to_nat (j - i)) with (S (Z.to_nat (j - (i + 1)))) by lia. done.
    + intros x Hx'. rewrite H8 by (intros j Hj; apply Hx'; lia). rewrite Hx, decide_False; [done|apply Hx'; lia].
  - destruct Hc as [-> ->]. cbn [negb]. apply wp_ret. exists [c]. split; cbn; try done.
    + by exists q.
    + split; [lia|]. right. split; [lia|done].
    + intros; lia.
Qed.

Lemma bytes_at_got u a l :
  um_inv u -> (forall j, 0 <= j < Z.of_nat (length l) -> um_byte u (u64 (a + j)) = l !! Z.to_nat j) ->
  bytes_at u a (length l) = l.
Proof.
  intros Hu. revert a. induction l as [|c l IH]; intros a Hj; [done|]. cbn [length bytes_at].
  pose proof (Hj 0 ltac:(cbn; lia)) as H0. rewrite Z.add_0_r in H0. cbn in H0.
  pose proof (copyin_byte u a Hu) as Hc. rewrite H0 in Hc. destruct Hc as [-> _]. cbn. f_equal. apply IH.
  intros j Hj'. replace (a + 1 + j) with (a + (j + 1)) by lia. rewrite Hj by (cbn [length]; lia).
  by replace (Z.to_nat (j + 1)) with (S (Z.to_nat j)) by lia.
Qed.

(** A whole section of [piperead]. *)
Record read_post (kd : bool) (addr n : Z) (q : list Z) (s : T) (r : ends) (s' : T) (bs q' : list Z) : Prop := {
  rp_queue : q = bs ++ q';
  rp_ring : ring (ps_pi s') q';
  rp_ends : same_ends (ps_pi s) (ps_pi s');
  rp_nread : nread (ps_pi s') = u32 (nread (ps_pi s) + Z.of_nat (length bs));
  rp_inv : um_inv (ps_user s');
  rp_woken : ps_woken s' = NWRITE :: ps_woken s \/ (ps_woken s' = ps_woken s /\ bs = []);
  rp_result : match r with
    | Sleeps c _ => c = NREAD /\ q = [] /\ writeopen (ps_pi s) <> 0 /\ kd = false /\ bs = []
    | Returns v => bs = bytes_at (ps_user s') addr (Z.to_nat v) ++ drop (Z.to_nat v) bs /\
        (v = -1 /\ bs = [] /\ q = [] /\ kd = true \/
         v = Z.of_nat (length bs) /\ (n <= v \/ q' = []) \/
         v + 1 = Z.of_nat (length bs) /\ um_byte (ps_user s') (u64 (addr + v)) = None)
    end;
}.

Lemma piperead_wp kd addr n q s :
  ring (ps_pi s) q -> um_inv (ps_user s) -> n < 2 ^ 31 ->
  wp (piperead kd addr n) (fun r s' => exists bs q', read_post kd addr n q s r s' bs q') s.
Proof.
  intros Hr Hu Hn. unfold piperead. apply wp_bind, wp_gets. rewrite (ring_empty _ _ Hr).
  assert (stay : forall r, match r with Sleeps c _ => c = NREAD /\ q = [] /\ writeopen (ps_pi s) <> 0 /\ kd = false
      | Returns v => v = -1 /\ q = [] /\ kd = true end ->
    exists bs q', read_post kd addr n q s r s bs q').
  { intros r Hres. exists [], q. split; cbn [length]; rewrite ?Z.add_0_r, ?(u32_small _ (r_read _ _ Hr)); try done; [by right|].
    destruct r; [|naive_solver]. destruct Hres as (-> & -> & ->). split; [done|by left]. }
  destruct (bool_decide (q = []) && negb (writeopen (ps_pi s) =? 0)) eqn:E.
  - apply andb_true_iff in E as [E1%bool_decide_eq_true E2]. apply negb_true_iff, Z.eqb_neq in E2.
    destruct kd; apply wp_ret, stay; auto.
  - clear stay. apply wp_bind. eapply wp_mono; [apply (piperead_loop_wp _ addr n 0 q); [done|done|lia|done|lia]|].
    intros v s' [bs [(q' & -> & Hq') H2 H3 H4 H5 [[Hv0 _] H6] H7 _]]. apply wp_bind, wp_modify, wp_ret.
    exists bs, q'. split; cbn [ps_pi ps_user ps_woken]; try done; [left; by rewrite H4|].
    split.
    + rewrite <- (take_drop (Z.to_nat v) bs) at 1. f_equal.
      assert (Hl : length (take (Z.to_nat v) bs) = Z.to_nat v) by (rewrite length_take; lia).
      rewrite <- (bytes_at_got (ps_user s') addr (take (Z.to_nat v) bs)), ?Hl; [done|done|].
      intros j Hj. rewrite lookup_take_lt by lia. rewrite H7 by lia. f_equal. lia.
    + destruct H6 as [[-> H6]|[? ?]]; [right; left|right; right; by split].
      split; [lia|]. destruct H6 as [?|H6]; [left; lia|right].
      rewrite <- (app_nil_r bs) in H6 at 2. by apply app_inv_head in H6.
Qed.
End Sections.

(** ** The invariant *)

Section Invariant.
Context {U : Type} `{UL : UserMemLaws U}.

Definition th_ok (p : pipe) (q : list Z) (t : thread (U := U)) : Prop :=
  um_inv (th_user t) /\
  match th_at t with
  | Idle => True
  | Writing _ n i asleep => writeopen p <> 0 /\ n < 2 ^ 31 /\
      (asleep = true -> Z.of_nat (length q) = PIPESIZE /\ readopen p <> 0)
  | Reading _ n asleep => readopen p <> 0 /\ n < 2 ^ 31 /\ (asleep = true -> q = [] /\ writeopen p <> 0)
  end.

Record inv (s : sys (U := U)) (tr : list event) (q : list Z) : Prop := {
  i_ring : ring (sy_pi s) q;
  i_fifo : concat (map ins tr) = concat (map outs tr) ++ q;
  i_freed : sy_freed s = (readopen (sy_pi s) =? 0) && (writeopen (sy_pi s) =? 0);
  i_threads : Forall (th_ok (sy_pi s) q) (sy_th s);
}.

Lemma th_ok_wake p q p' q' cs t :
  th_ok p q t -> same_ends p p' -> (NREAD ∈ cs \/ (q = [] -> q' = [])) ->
  (NWRITE ∈ cs \/ (Z.of_nat (length q) = PIPESIZE -> Z.of_nat (length q') = PIPESIZE)) ->
  th_ok p' q' (wake cs t).
Proof.
  intros [Hu Ha] [Er Ew] Hr Hw. split; [done|]. cbn. rewrite Er, Ew.
  destruct (th_at t) as [|a n i []|a n []]; try done; destruct Ha as (? & ? & Has); split_and!; try done;
    intros E%negb_true_iff%bool_decide_eq_false; destruct Has as [Hq ?]; [done| |done|];
    (split; [|done]).
  - by destruct Hw as [|Hw]; [|apply Hw].
  - by destruct Hr as [|Hr]; [|apply Hr].
Qed.

Lemma fifo_step tr q e q' :
  concat (map ins tr) = concat (map outs tr) ++ q -> q ++ ins e = outs e ++ q' ->
  concat (map ins (tr ++ [e])) = concat (map outs (tr ++ [e])) ++ q'.
Proof.
  intros H1 H2. rewrite !map_app, !concat_app. cbn. rewrite !app_nil_r, H1, <- !app_assoc. by rewrite H2.
Qed.

Lemma settle_inv s tr q k t a kd s' q' e :
  inv s tr q -> sy_th s !! k = Some t -> ring (ps_pi s') q' -> same_ends (sy_pi s) (ps_pi s') ->
  (NREAD ∈ ps_woken s' \/ (q = [] -> q' = [])) ->
  (NWRITE ∈ ps_woken s' \/ (Z.of_nat (length q) = PIPESIZE -> Z.of_nat (length q') = PIPESIZE)) ->
  th_ok (ps_pi s') q' {| th_at := a; th_user := ps_user s'; th_killed := kd |} ->
  q ++ ins e = outs e ++ q' ->
  inv (settle s k a kd s') (tr ++ [e]) q'.
Proof.
  intros [H1 H2 H3 H4] Hk Hr He Hn Hw Ht Hq. split; cbn [settle sy_pi sy_freed sy_th].
  - done.
  - by eapply fifo_step.
  - by rewrite H3, (proj1 He), (proj2 He).
  - apply Forall_insert; [|done]. apply Forall_map. eapply Forall_impl; [exact H4|].
    intros t' Ht'. by eapply th_ok_wake.
Qed.

Lemma moved_by r a n :
  0 <= n < 2 ^ 32 -> moved (u32 (r + a)) (u32 (r + (a + n))) = Z.to_nat n.
Proof. intros Hn. unfold moved. rewrite Z.add_assoc. by rewrite u32_off. Qed.

Lemma thread_ok s tr q k t : inv s tr q -> sy_th s !! k = Some t -> th_ok (sy_pi s) q t.
Proof. intros Hi Hk. apply (proj1 (Forall_lookup _ _) (i_threads _ _ _ Hi) k t Hk). Qed.

Lemma write_inv s tr q k t addr n i r s' a :
  inv s tr q -> sy_th s !! k = Some t -> th_at t = Writing addr n i false ->
  pipewrite (fun _ => th_killed t) addr n i (start s (th_user t)) = Ok r s' ->
  match r with Sleeps _ i' => a = Writing addr n i' true | Returns _ => a = Idle end ->
  exists q', inv (settle s k a (th_killed t) s')
    (tr ++ [In (bytes_at (th_user t) (addr + i) (moved (nwrite (sy_pi s)) (nwrite (ps_pi s'))))]) q'.
Proof.
  intros Hi Hk Ha Hrun Hr. destruct (thread_ok _ _ _ _ _ Hi Hk) as [Hu Ht]. rewrite Ha in Ht.
  destruct Ht as (Hwo & Hn & _).
  pose proof (pipewrite_wp (th_killed t) addr n i q (start s (th_user t)) (i_ring _ _ _ Hi) Hu) as Hwp.
  unfold wp in Hwp. rewrite Hrun in Hwp. destruct Hwp as [bs [P1 P2 P3 P4 P5 P6 P7]]. cbn in P2, P3, P4, P5, P6, P7.
  exists (q ++ bs). pose proof (r_size _ _ P1) as Hs. rewrite length_app in Hs.
  assert (Hm : moved (nwrite (sy_pi s)) (nwrite (ps_pi s')) = length bs).
  { rewrite (r_write _ _ (i_ring _ _ _ Hi)), (r_write _ _ P1), P3, length_app, Nat2Z.inj_add.
    rewrite moved_by by (unfold PIPESIZE in Hs; lia). lia. }
  rewrite Hm, <- P5. eapply settle_inv; try done.
  - destruct P6 as [->|(_ & -> & _)]; [left; set_solver|right]. by rewrite app_nil_r.
  - right. rewrite length_app. lia.
  - split; [by rewrite P4|]. cbn. destruct P2 as [E1 E2]. destruct r as [v|c i']; rewrite Hr; [done|].
    destruct P7 as (_ & _ & _ & Hfull & Hro & _). rewrite E1, E2. done.
Qed.

Lemma read_inv s tr q k t addr n r s' a e :
  inv s tr q -> sy_th s !! k = Some t -> th_at t = Reading addr n false ->
  piperead (th_killed t) addr n (start s (th_user t)) = Ok r s' ->
  match r with
  | Sleeps _ _ => a = Reading addr n true /\ e = Silent
  | Returns v => a = Idle /\ e = Out (bytes_at (ps_user s') addr (Z.to_nat v))
      (drop (Z.to_nat v) (peek (sy_pi s) (moved (nread (sy_pi s)) (nread (ps_pi s')))))
  end ->
  exists q', inv (settle s k a (th_killed t) s') (tr ++ [e]) q'.
Proof.
  intros Hi Hk Ha Hrun Hr. destruct (thread_ok _ _ _ _ _ Hi Hk) as [Hu Ht]. rewrite Ha in Ht.
  destruct Ht as (Hro & Hn & _). pose proof (i_ring _ _ _ Hi) as Hring.
  pose proof (piperead_wp (th_killed t) addr n q (start s (th_user t)) Hring Hu Hn) as Hwp.
  unfold wp in Hwp. rewrite Hrun in Hwp. destruct Hwp as (bs & q' & [-> P1 P2 P3 P4 P5 P6]).
  cbn in P2, P3, P5, P6. exists q'. pose proof (r_size _ _ Hring) as Hs. rewrite length_app in Hs.
  assert (Hm : peek (sy_pi s) (moved (nread (sy_pi s)) (nread (ps_pi s'))) = bs).
  { rewrite P3, <- (u32_small _ (r_read _ _ Hring)), <- (Z.add_0_r (nread (sy_pi s))) at 1.
    pose proof (moved_by (nread (sy_pi s)) 0 (Z.of_nat (length bs)) ltac:(unfold PIPESIZE in Hs; lia)) as Hmv.
    rewrite Z.add_0_l in Hmv. rewrite Hmv, Nat2Z.id. by apply (peek_ring bs _ q'). }
  rewrite Hm in Hr. eapply settle_inv; try done.
  - right. by intros [-> ->]%app_nil.
  - destruct P5 as [->|[_ ->]]; [left; set_solver|by right].
  - split; [done|]. cbn. destruct P2 as [E1 E2]. destruct r as [v|c i']; destruct Hr as [-> _]; [done|].
    destruct P6 as (_ & [-> ->]%app_nil & Hwo & _). rewrite E1, E2. done.
  - destruct r as [v|c i']; destruct Hr as [_ ->]; cbn; rewrite app_nil_r.
    + destruct P6 as [P6 _]. by rewrite <- P6.
    + destruct P6 as (_ & [-> ->]%app_nil & _). done.
Qed.

Lemma close_inv s tr q k t w b s' :
  inv s tr q -> sy_th s !! k = Some t -> th_at t = Idle ->
  (if w : bool then writeopen (sy_pi s) <> 0 /\ Forall (fun t => is_writing t = false) (sy_th s)
   else readopen (sy_pi s) <> 0 /\ Forall (fun t => is_reading t = false) (sy_th s)) ->
  pipeclose w (start s (th_user t)) = Ok b s' ->
  inv {| sy_pi := ps_pi s'; sy_freed := b; sy_th := map (wake (ps_woken s')) (sy_th s) |} (tr ++ [Silent]) q.
Proof.
  intros [[R1 R2 R3 R4 R5 R6] H2 H3 H4] Hk Ha Hw Hrun.
  destruct w; injection Hrun as <- <-;
    (split; [by split|eapply fifo_step; [exact H2|cbn; by rewrite app_nil_r]|done|]);
    cbn [ps_pi ps_woken set_pi start sy_pi sy_th]; apply Forall_map, Forall_lookup; intros j t' Hj;
    destruct Hw as [_ Hnone]; pose proof (proj1 (Forall_lookup _ _) H4 j t' Hj) as [Hu Hat];
    pose proof (proj1 (Forall_lookup _ _) Hnone j t' Hj) as Hnw; cbn in Hnw;
    (split; [done|]); unfold is_writing, is_reading in Hnw; cbn;
    destruct (th_at t') as [|a n i []|a n []]; try done; destruct Hat as (? & ? & Has); split_and!; try done.
Qed.

Lemma pipe_step_inv s tr q e s' : inv s tr q -> step s e s' -> exists q', inv s' (tr ++ [e]) q'.
Proof.
  intros Hi Hs. destruct Hs as [s k t a Hk Hidle Hfr Hcall| | | | | |s k t Hk].
  - exists q. destruct Hi as [H1' H2' H3' H4']. split; cbn; try done.
    + by eapply fifo_step; [|cbn; rewrite app_nil_r].
    + apply Forall_insert; [done|]. destruct (proj1 (Forall_lookup _ _) H4' _ _ Hk) as [Hu _].
      destruct Hcall as [(? & ? & ? & -> & ?)|(? & ? & ? & -> & ?)]; done.
  - by eapply write_inv.
  - by eapply write_inv.
  - by eapply read_inv.
  - by eapply read_inv.
  - exists q. by eapply close_inv.
  - exists q. destruct Hi as [H1' H2' H3' H4']. split; cbn; try done.
    + by eapply fifo_step; [|cbn; rewrite app_nil_r].
    + apply Forall_insert; [done|].
      apply (th_ok_wake (sy_pi s) q); [|done|left; set_solver|left; set_solver].
      destruct (proj1 (Forall_lookup _ _) H4' _ _ Hk) as [Hu Ha]. by split.
Qed.

Lemma fresh_inv s : fresh s -> Forall (fun t => um_inv (th_user t)) (sy_th s) -> inv s [] [].
Proof.
  intros (H1 & H2 & H3 & H4 & H5 & H6 & H7) Hu. split.
  - split; cbn; try done. rewrite Z.add_0_r, u32_small; done.
  - done.
  - by rewrite H4, H5, H6.
  - apply Forall_lookup. intros k t Hk. split; [by apply (proj1 (Forall_lookup _ _) Hu k)|].
    by rewrite (proj1 (Forall_lookup _ _) H7 k t Hk).
Qed.

Lemma steps_inv s0 tr s : inv s0 [] [] -> steps s0 tr s -> exists q, inv s tr q.
Proof.
  intros Hi Hs. induction Hs as [s|s1 tr s2 e s3 Hs IH Hst]; [by exists []|].
  destruct (IH Hi) as [q Hq]. by eapply pipe_step_inv.
Qed.

(** A process in a call that is not asleep can go on. *)
Lemma awake_steps s tr q k t :
  inv s tr q -> sy_th s !! k = Some t ->
  match th_at t with Writing _ _ _ a => a = false | Reading _ _ a => a = false | Idle => False end ->
  exists e s', step s e s'.
Proof.
  intros Hi Hk Ha. destruct (thread_ok _ _ _ _ _ Hi Hk) as [Hu Ht].
  destruct (th_at t) as [|addr n i []|addr n []] eqn:E; try done.
  - destruct (wp_elim _ _ _ (pipewrite_wp (th_killed t) addr n i q (start s (th_user t)) (i_ring _ _ _ Hi) Hu))
      as ([v|c i'] & s' & Hrun & _); do 2 eexists; [by eapply st_write_returns|by eapply st_write_sleeps].
  - destruct Ht as (_ & Hn & _).
    destruct (wp_elim _ _ _ (piperead_wp (th_killed t) addr n q (start s (th_user t)) (i_ring _ _ _ Hi) Hu Hn))
      as ([v|c i'] & s' & Hrun & _); do 2 eexists; [by eapply st_read_returns|by eapply st_read_sleeps].
Qed.

(** Claim C19: a pipe is a bounded first-in first-out queue for any number of
    readers and writers, however they interleave and whatever value the 32-bit
    counters started from: the bytes taken from the memories of the writers are
    those left in the memories of the readers (or lost to a bad buffer),
    followed by the content of the ring, in order; a process sleeps in
    [pipewrite] only while the ring is full and a reader may come, and in
    [piperead] only while it is empty and a writer may come, and every other
    process in a call can go on; and when the page has been freed nobody is in
    a call.  A process is killed while it does not hold the lock; for a kill
    between two bytes see [killed_writer_strands]. *)
Theorem pipe_fifo s0 tr s :
  fresh s0 -> Forall (fun t => um_inv (th_user t)) (sy_th s0) -> steps s0 tr s ->
  exists q, ring (sy_pi s) q /\ concat (map ins tr) = concat (map outs tr) ++ q /\
    (forall k t, sy_th s !! k = Some t ->
       match th_at t with
       | Idle => True
       | Writing _ _ _ true => Z.of_nat (length q) = PIPESIZE /\ readopen (sy_pi s) <> 0
       | Reading _ _ true => q = [] /\ writeopen (sy_pi s) <> 0
       | _ => exists e s', step s e s'
       end) /\
    (sy_freed s = true -> Forall (fun t => th_at t = Idle) (sy_th s)).
Proof.
  intros Hf Hu Hs. destruct (steps_inv s0 tr s (fresh_inv _ Hf Hu) Hs) as [q Hi]. exists q.
  split; [apply Hi|]. split; [apply Hi|]. split.
  - intros k t Hk. pose proof (awake_steps s tr q k t Hi Hk) as Hst.
    destruct (thread_ok _ _ _ _ _ Hi Hk) as [_ Ht].
    destruct (th_at t) as [|addr n i []|addr n []]; [done|by apply Ht|by apply Hst|by apply Ht|by apply Hst].
  - intros Hfr. rewrite (i_freed _ _ _ Hi) in Hfr. apply andb_true_iff in Hfr as [Hr%Z.eqb_eq Hw%Z.eqb_eq].
    eapply Forall_impl; [exact (i_threads _ _ _ Hi)|]. intros t [_ Ht].
    destruct (th_at t) as [| |]; [done|naive_solver|naive_solver].
Qed.
End Invariant.

(** ** Instances *)

(** A process whose memory is one range of bytes from address 0. *)
#[local] Instance flat : UserMem (list Z) := {|
  copyout va src l :=
    if decide (va < Z.of_nat (length l) /\ va + Z.of_nat (length src) <= Z.of_nat (length l))
    then (splice (Z.to_nat va) src l, true) else (l, match src with [] => true | _ => false end);
  copyin va len l :=
    if decide (va + len <= Z.of_nat (length l)) then (slice (Z.to_nat va) (Z.to_nat len) l, true)
    else ([], len =? 0);
  copyinstr _ _ _ := None |}.

Definition flat_byte (l : list Z) (a : Z) : option Z := if decide (0 <= a) then l !! Z.to_nat a else None.

Lemma flat_some l a : is_Some (flat_byte l a) <-> 0 <= a < Z.of_nat (length l).
Proof.
  unfold flat_byte. case_decide; rewrite ?lookup_lt_is_Some; [lia|].
  split; [by intros [? ?]|lia].
Qed.

Lemma flat_range l va n : 0 <= va -> 0 < n ->
  range_all (fun a => is_Some (flat_byte l a)) va n <-> va + n <= Z.of_nat (length l).
Proof.
  intros Hva Hn. split.
  - intros Hr. pose proof (proj1 (flat_some l (va + n - 1)) (Hr (va + n - 1) ltac:(lia))). lia.
  - intros Hl a Ha. apply flat_some. lia.
Qed.

#[local] Instance flat_laws : UserMemLaws (list Z).
Proof.
  refine {| um_inv l := Forall byte_ok l /\ Z.of_nat (length l) < 2 ^ 38; um_byte := flat_byte |}.
  - intros u a v [Hb Hl] Ha. assert (is_Some (flat_byte u a)) as Hs%flat_some by eauto.
    split; [|lia]. unfold flat_byte in Ha. rewrite decide_True in Ha by lia.
    by apply (proj1 (Forall_lookup _ _) Hb _ _ Ha).
  - intros u va src [Hb Hl] Hva Hs. cbn. case_decide; cbn; [|done].
    split; [by apply splice_Forall|rewrite splice_length; lia].
  - intros u va src [Hb Hl] Hva Hs Hr. cbn. destruct src as [|c src].
    + assert (splice (Z.to_nat va) [] u = u) as Hsp.
      { unfold splice. cbn. by rewrite Nat.add_0_r, take_drop. }
      case_decide; cbn; rewrite ?Hsp; (split; [done|]); intros a; by rewrite decide_False by lia.
    + apply flat_range in Hr; [|lia|cbn [length]; lia]. rewrite decide_True by (cbn [length] in *; lia).
      cbn [fst snd]. split; [done|]. intros a. unfold flat_byte. case_decide as Ha; cycle 1.
      { by rewrite decide_False by lia. }
      destruct (decide (va <= a < va + Z.of_nat (length (c :: src)))).
      * rewrite lookup_splice_new by lia. f_equal. lia.
      * rewrite lookup_splice_old by lia. done.
  - intros u va src [Hb Hl] Hva Hs Hr. cbn. destruct src as [|c src].
    { destruct Hr. intros a Ha. cbn in Ha. lia. }
    rewrite flat_range in Hr by (cbn [length]; lia). by rewrite decide_False by lia.
  - intros u va src Hva Hne Hn. cbn. destruct src as [|c src]; [done|]. rewrite decide_False; [done|].
    intros [H1 _]. assert (is_Some (flat_byte u va)) as [? ?] by (apply flat_some; lia). congruence.
  - intros u va len [Hb Hl] Hva Hlen Hr. cbn. destruct (decide (len = 0)) as [->|Hne].
    + case_decide; cbn; (split_and!; [done| |cbn; lia]); [|done]. unfold slice. by rewrite take_0.
    + apply flat_range in Hr; [|lia|lia]. rewrite decide_True by lia. cbn [fst snd].
      split_and!; [done|apply slice_length; lia|]. intros i Hi. unfold flat_byte.
      rewrite decide_True, lookup_slice by lia. f_equal. lia.
  - intros u va len [Hb Hl] Hva Hlen Hr. cbn. destruct (decide (len = 0)) as [->|Hne].
    { destruct Hr. intros a Ha. lia. }
    rewrite flat_range in Hr by lia. rewrite decide_False by lia. cbn. by apply Z.eqb_neq.
Defined.

(** A reader goes to sleep on an empty pipe whose counters are about to wrap
    around; a writer writes three bytes and wakes it up; it reads them. *)
Definition ex_thread (l : list Z) (a : at_) : thread := {| th_at := a; th_user := l; th_killed := false |}.
Definition ex_pipe (d : list Z) (r w : Z) : pipe :=
  {| pi_data := d; nread := r; nwrite := w; readopen := 1; writeopen := 1 |}.
Definition ex_sys (p : pipe) (reader writer : thread (U := list Z)) : sys (U := list Z) :=
  {| sy_pi := p; sy_freed := false; sy_th := [reader; writer] |}.
Definition ex_ring : list Z := replicate 512 0.
Definition ex_full : list Z := 9 :: replicate 509 0 ++ [7; 8].
Definition ex_w : list Z := [7; 8; 9].
Definition ex_r : list Z := [1; 1; 1; 1].
Definition ex_start : sys (U := list Z) :=
  ex_sys (ex_pipe ex_ring (2 ^ 32 - 2) (2 ^ 32 - 2)) (ex_thread ex_r Idle) (ex_thread ex_w Idle).
Definition ex_done : sys (U := list Z) :=
  ex_sys (ex_pipe ex_full 1 1) (ex_thread [7; 8; 9; 1] Idle) (ex_thread ex_w Idle).
Definition ex_trace : list event := [Silent; Silent; Silent; In [7; 8; 9]; Out [7; 8; 9] []].

Lemma ex_steps : steps ex_start ex_trace ex_done.
Proof.
  change ex_trace with ((((([] ++ [Silent]) ++ [Silent]) ++ [Silent]) ++ [In [7; 8; 9]]) ++ [Out [7; 8; 9] []]).
  set (p0 := ex_pipe ex_ring (2 ^ 32 - 2) (2 ^ 32 - 2)).
  apply (steps_snoc _ _ (ex_sys (ex_pipe ex_full (2 ^ 32 - 2) 1) (ex_thread ex_r (Reading 0 3 false)) (ex_thread ex_w Idle))).
  1: apply (steps_snoc _ _ (ex_sys p0 (ex_thread ex_r (Reading 0 3 true)) (ex_thread ex_w (Writing 0 3 0 false)))).
  1: apply (steps_snoc _ _ (ex_sys p0 (ex_thread ex_r (Reading 0 3 true)) (ex_thread ex_w Idle))).
  1: apply (steps_snoc _ _ (ex_sys p0 (ex_thread ex_r (Reading 0 3 false)) (ex_thread ex_w Idle))).
  1: apply (steps_snoc _ _ ex_start); [constructor|].
  - apply (st_call ex_start 0 (ex_thread ex_r Idle) (Reading 0 3 false)); try done. left. split; [done|]. by exists 0, 3.
  - exact (st_read_sleeps (ex_sys p0 (ex_thread ex_r (Reading 0 3 false)) (ex_thread ex_w Idle)) 0
      (ex_thread ex_r (Reading 0 3 false)) 0 3 NREAD 0 _ eq_refl eq_refl eq_refl).
  - apply (st_call (ex_sys p0 (ex_thread ex_r (Reading 0 3 true)) (ex_thread ex_w Idle)) 1 (ex_thread ex_w Idle) (Writing 0 3 0 false)); try done.
    right. split; [done|]. by exists 0, 3.
  - exact (st_write_returns (ex_sys p0 (ex_thread ex_r (Reading 0 3 true)) (ex_thread ex_w (Writing 0 3 0 false))) 1
      (ex_thread ex_w (Writing 0 3 0 false)) 0 3 0 3
      {| ps_pi := ex_pipe ex_full (2 ^ 32 - 2) 1; ps_user := ex_w; ps_woken := [NREAD] |} eq_refl eq_refl eq_refl).
  - exact (st_read_returns (ex_sys (ex_pipe ex_full (2 ^ 32 - 2) 1) (ex_thread ex_r (Reading 0 3 false)) (ex_thread ex_w Idle)) 0
      (ex_thread ex_r (Reading 0 3 false)) 0 3 3
      {| ps_pi := ex_pipe ex_full 1 1; ps_user := [7; 8; 9; 1]; ps_woken := [NWRITE] |} eq_refl eq_refl eq_refl).
Qed.

Lemma pipe_fifo_witness :
  exists q, ring (sy_pi ex_done) q /\ concat (map ins ex_trace) = concat (map outs ex_trace) ++ q.
Proof.
  destruct (pipe_fifo ex_start ex_trace ex_done) as (q & H1 & H2 & _).
  - split_and!; try done. repeat constructor.
  - repeat constructor; cbn; unfold byte_ok; lia.
  - apply ex_steps.
  - exists q. split; [exact H1|exact H2].
Defined.

(** A writer that is killed between two bytes returns without waking the
    readers up, although the first byte is in the pipe: a reader asleep goes on
    sleeping. *)
Lemma killed_writer_strands :
  pipewrite (fun i => 1 <=? i) 0 3 0 (start ex_start ex_w) =
  Ok (Returns (-1)) {| ps_pi := put_byte 7 (sy_pi ex_start); ps_user := ex_w; ps_woken := [] |}.
Proof. reflexivity. Qed.

(** A read into an address that is not mapped takes a byte out of the pipe and
    reports that it read nothing. *)
Lemma bad_buffer_loses_byte :
  piperead false 100 3 (start (ex_sys (ex_pipe ex_full (2 ^ 32 - 2) 1) (ex_thread ex_r Idle) (ex_thread ex_w Idle)) ex_r) =
  Ok (Returns 0) {| ps_pi := ex_pipe ex_full (2 ^ 32 - 1) 1; ps_user := ex_r; ps_woken := [NWRITE] |}.
Proof. reflexivity. Qed.
End Pipe.
