(* ===== verification/FileIO.v ===== *)
(** * Reading and writing files: [xv6fs_readi] and [xv6fs_writei]

    The transfer loops of [kernel/fs/xv6fs/fs.c] over the block cache and the
    memory they copy to or from: the user memory of the caller, or a kernel
    buffer (a local variable of the caller). *)

From S2P Require Import Prelude BlockCache Blocks Inode BlockMap InodeOps UserMem.

(** The state the loops work on. *)
Record fsw (C U : Type) : Type := {
  fw_cache : C;
  fw_user : U;
  fw_kbuf : list Z;
}.
Arguments fw_cache {C U}.
Arguments fw_user {C U}.
Arguments fw_kbuf {C U}.

Section FileIO.
Context {C U : Type} `{BC : BlockCache C} `{UM : UserMem U}.
Context (sb : xv6fs_super_block).
Notation W := (fsw C U).

Definition set_cache (c : C) (w : W) : W :=
  {| fw_cache := c; fw_user := fw_user w; fw_kbuf := fw_kbuf w |}.
Definition set_user (u : U) (w : W) : W :=
  {| fw_cache := fw_cache w; fw_user := u; fw_kbuf := fw_kbuf w |}.
Definition set_kbuf (k : list Z) (w : W) : W :=
  {| fw_cache := fw_cache w; fw_user := fw_user w; fw_kbuf := k |}.

Definition onC {A} (m : M C A) : M W A := lift fw_cache set_cache m.

(** [either_copyout] and [either_copyin] of kernel/proc.c: [true] is the
    result 0.  A kernel address is an offset in the caller's buffer. *)
Definition either_copyout (user_dst : bool) (dst : Z) (src : list Z) : M W bool :=
  fun w =>
    if user_dst then
      let '(u, ok) := copyout dst src (fw_user w) in Ok ok (set_user u w)
    else Ok true (set_kbuf (splice (Z.to_nat dst) src (fw_kbuf w)) w).

Definition either_copyin (user_src : bool) (src len : Z) : M W (list Z * bool) :=
  fun w =>
    if user_src then Ok (copyin src len (fw_user w)) w
    else Ok (slice (Z.to_nat src) (Z.to_nat len) (fw_kbuf w), true) w.

(** Both loops move at least one byte per round and a whole block except in
    the first and the last one, so [n / BSIZE + 3] rounds are enough. *)
Definition io_fuel (n : Z) : nat := Z.to_nat (n / BSIZE) + 3.

Fixpoint readi_loop (fuel : nat) (dev : Z) (ipp : xv6fs_inode) (user_dst : bool)
    (dst off n tot : Z) : M W (Z * xv6fs_inode) :=
  match fuel with
  | O => ret (tot, ipp)
  | S fuel =>
      if tot <? n then
        ' (addr, ipp) <- onC (bmap sb ipp (off / BSIZE)) ;;
        if addr =? 0 then ret (tot, ipp)
        else
          bp <- onC (bread dev addr) ;;
          d <- onC (bdata bp) ;;
          let m := Z.min (n - tot) (BSIZE - off mod BSIZE) in
          ok <- either_copyout user_dst dst (slice (Z.to_nat (off mod BSIZE)) (Z.to_nat m) d) ;;
          if negb ok then
            onC (brelse bp) ;;
            ret (u32 (-1), ipp)
          else
            onC (brelse bp) ;;
            readi_loop fuel dev ipp user_dst (u64 (dst + m)) (u32 (off + m)) n (u32 (tot + m))
      else ret (tot, ipp)
  end.

Definition xv6fs_readi (ip : inode) (ipp : xv6fs_inode) (user_dst : bool) (dst off n : Z)
    : M W (Z * xv6fs_inode) :=
  if (i_size ip <? off) || (u32 (off + n) <? off) then ret (0, ipp)
  else
    let n := if i_size ip <? u32 (off + n) then u32 (i_size ip - off) else n in
    ' (tot, ipp) <- readi_loop (io_fuel n) (i_dev ip) ipp user_dst dst off n 0 ;;
    ret (s32 tot, ipp).

(** Returns [tot], the offset reached and the inode. *)
Fixpoint writei_loop (fuel : nat) (dev : Z) (ipp : xv6fs_inode) (user_src : bool)
    (src off n tot : Z) : M W (Z * Z * xv6fs_inode) :=
  match fuel with
  | O => ret (tot, off, ipp)
  | S fuel =>
      if tot <? n then
        ' (addr, ipp) <- onC (bmap sb ipp (off / BSIZE)) ;;
        if addr =? 0 then ret (tot, off, ipp)
        else
          bp <- onC (bread dev addr) ;;
          d <- onC (bdata bp) ;;
          let m := Z.min (n - tot) (BSIZE - off mod BSIZE) in
          ' (bytes, ok) <- either_copyin user_src src m ;;
          onC (bset bp (splice (Z.to_nat (off mod BSIZE)) bytes d)) ;;
          if negb ok then
            onC (brelse bp) ;;
            ret (tot, off, ipp)
          else
            onC (bwrite bp) ;;
            onC (brelse bp) ;;
            writei_loop fuel dev ipp user_src (u64 (src + m)) (u32 (off + m)) n (u32 (tot + m))
      else ret (tot, off, ipp)
  end.

Definition xv6fs_writei (ip : inode) (ipp : xv6fs_inode) (user_src : bool) (src off n : Z)
    : M W (Z * inode * xv6fs_inode) :=
  if (i_size ip <? off) || (u32 (off + n) <? off) then ret (-1, ip, ipp)
  else if MAXFILE * BSIZE <? u32 (off + n) then ret (-1, ip, ipp)
  else
    ' (tot, off, ipp) <- writei_loop (io_fuel n) (i_dev ip) ipp user_src src off n 0 ;;
    let ip := if i_size ip <? off then set_size off ip else ip in
    onC (xv6fs_iupdate sb ip ipp) ;;
    ret (s32 tot, ip, ipp).

End FileIO.

(** ** Memory and file contents *)

(** Byte [k] of the file. *)
Definition fbyte (D : gmap Z block) (ipp : xv6fs_inode) (k : Z) : Z :=
  dblk D (slot D ipp (bslot (k / BSIZE))) !!! Z.to_nat (k mod BSIZE).

(** The block holding byte [k] is allocated. *)
Definition mapped (D : gmap Z block) (ipp : xv6fs_inode) (k : Z) : Prop :=
  slot D ipp (bslot (k / BSIZE)) <> 0.

(** Every byte below the size of the file has a block. *)
Definition no_holes (D : gmap Z block) (ip : inode) (ipp : xv6fs_inode) : Prop :=
  0 <= i_size ip <= MAXFILE * BSIZE /\ forall k, 0 <= k < i_size ip -> mapped D ipp k.

Lemma BSIZE_pos : 0 < BSIZE.
Proof. done. Qed.

Lemma block_div off i :
  0 <= off -> 0 <= i < BSIZE - off mod BSIZE ->
  (off + i) / BSIZE = off / BSIZE /\ (off + i) mod BSIZE = off mod BSIZE + i.
Proof.
  intros Ho Hi. pose proof (Z.mod_pos_bound off BSIZE BSIZE_pos).
  pose proof (Z.div_mod off BSIZE ltac:(done)).
  split; symmetry; [apply (Z.div_unique _ _ _ (off mod BSIZE + i))|apply (Z.mod_unique _ _ (off / BSIZE))]; lia.
Qed.

Lemma bslot_bound bn : 0 <= bn < MAXFILE -> (bslot bn < NSLOTS)%nat /\ bslot bn <> IND.
Proof.
  intros Hb. unfold bslot. change NSLOTS with 269%nat. change MAXFILE with 268 in Hb.
  change NDIRECT with 12. destruct (Z.ltb_spec bn 12); lia.
Qed.

Lemma bslot_inj bn bn' : 0 <= bn -> 0 <= bn' -> bslot bn = bslot bn' -> bn = bn'.
Proof.
  unfold bslot. change NDIRECT with 12. intros H H'.
  destruct (Z.ltb_spec bn 12), (Z.ltb_spec bn' 12); lia.
Qed.

Lemma file_block k : 0 <= k < MAXFILE * BSIZE -> 0 <= k / BSIZE < MAXFILE.
Proof.
  intros Hk. split; [apply Z.div_pos; [lia|done]|]. apply Z.div_lt_upper_bound; [done|lia].
Qed.

Section specs.
Context {C U : Type} `{BL : BlockCacheLaws C} `{UL : UserMemLaws U}.
Context (sb : xv6fs_super_block).
Notation W := (fsw C U).
Implicit Types (w : W).

(** The memory a transfer works on: user memory or the kernel buffer. *)
Definition mget (user : bool) w (a : Z) : option Z :=
  if user then um_byte (fw_user w) a
  else if decide (0 <= a) then fw_kbuf w !! Z.to_nat a else None.

(** The memory the transfer does not work on stays. *)
Definition other_mem (user : bool) w w' : Prop :=
  if user then fw_kbuf w' = fw_kbuf w else fw_user w' = fw_user w.

Definition minv w : Prop :=
  um_inv (fw_user w) /\ Forall byte_ok (fw_kbuf w) /\ Z.of_nat (length (fw_kbuf w)) < 2 ^ 38.

Definition accessible (user : bool) w (a n : Z) : Prop :=
  range_all (fun a => is_Some (mget user w a)) a n.

Lemma mget_some user w a v : minv w -> mget user w a = Some v -> byte_ok v /\ 0 <= a < 2 ^ 38.
Proof.
  intros (HU & HK & HL) Ha. unfold mget in Ha. destruct user; [by eapply um_byte_ok|].
  destruct (decide (0 <= a)); [|done]. split; [by eapply Forall_lookup_1|].
  apply lookup_lt_Some in Ha. lia.
Qed.

Lemma accessible_bound user w a n :
  minv w -> accessible user w a n -> 0 < n -> 0 <= a /\ a + n <= 2 ^ 38.
Proof.
  intros Hm Ha Hn. destruct (Ha a ltac:(lia)) as [v Hv]. destruct (Ha (a + n - 1) ltac:(lia)) as [v' Hv'].
  apply mget_some in Hv, Hv'; [|done..]. lia.
Qed.

(** Changing only the cache leaves the memory alone. *)
Lemma wp_onC {A} (m : M C A) (Q : A -> W -> Prop) w :
  wp m (fun a c => Q a (set_cache c w)) (fw_cache w) -> wp (onC m) Q w.
Proof. apply wp_lift. Qed.

Lemma mget_set_cache user c w : mget user (set_cache c w) = mget user w.
Proof. done. Qed.

Lemma either_copyout_wp user dst src w :
  minv w -> Forall byte_ok src -> accessible user w dst (Z.of_nat (length src)) -> src <> [] ->
  wp (either_copyout user dst src) (fun ok w' => ok = true /\ minv w' /\
    fw_cache w' = fw_cache w /\ other_mem user w w' /\
    forall a, mget user w' a =
      if decide (dst <= a < dst + Z.of_nat (length src)) then src !! Z.to_nat (a - dst)
      else mget user w a) w.
Proof.
  intros Hm Hs Ha Hne. pose proof Hm as (HU & HK & HL).
  assert (Hl : (0 < length src)%nat) by (destruct src; [done|cbn; lia]).
  destruct (accessible_bound _ _ _ _ Hm Ha ltac:(lia)) as [Hd Hd'].
  unfold either_copyout, wp. destruct user.
  - destruct (copyout_ok (fw_user w) dst src HU ltac:(lia) Hs Ha) as [Hok Hb].
    pose proof (copyout_inv (fw_user w) dst src HU ltac:(lia) Hs) as Hinv.
    destruct (copyout dst src (fw_user w)) as [u ok]. cbn in *. subst ok. split_and!; try done.
  - assert (Hlen : (Z.to_nat dst + length src <= length (fw_kbuf w))%nat).
    { destruct (Ha (dst + Z.of_nat (length src) - 1) ltac:(lia)) as [v Hv]. unfold mget in Hv.
      rewrite decide_True in Hv by lia. apply lookup_lt_Some in Hv. lia. }
    cbn. split_and!; try done.
    + split_and!; cbn; [done|by apply splice_Forall|by rewrite splice_length].
    + intros a. unfold mget. cbn [fw_kbuf set_kbuf].
      destruct (decide (dst <= a < dst + Z.of_nat (length src))) as [Hr|Hr].
      * rewrite decide_True by lia. rewrite lookup_splice_new by lia. f_equal. lia.
      * destruct (decide (0 <= a)); [|done]. apply lookup_splice_old; lia.
Qed.

Lemma either_copyin_wp user src n w :
  minv w -> accessible user w src n -> 0 < n ->
  wp (either_copyin user src n) (fun r w' => r.2 = true /\ w' = w /\
    length r.1 = Z.to_nat n /\ Forall byte_ok r.1 /\
    forall i, (i < Z.to_nat n)%nat -> r.1 !! i = mget user w (src + Z.of_nat i)) w.
Proof.
  intros Hm Ha Hn. pose proof Hm as (HU & HK & HL).
  destruct (accessible_bound _ _ _ _ Hm Ha ltac:(lia)) as [Hd Hd'].
  unfold either_copyin, wp. destruct user.
  - destruct (copyin_ok (fw_user w) src n HU ltac:(lia) ltac:(lia) Ha) as (Hok & Hl & Hb).
    split_and!; try done. apply Forall_lookup_2. intros i v Hi.
    assert (i < Z.to_nat n)%nat by (rewrite <-Hl; by eapply lookup_lt_Some).
    rewrite Hb in Hi by done. by apply um_byte_ok in Hi as [? _].
  - assert (Hlen : (Z.to_nat src + Z.to_nat n <= length (fw_kbuf w))%nat).
    { destruct (Ha (src + n - 1) ltac:(lia)) as [v Hv]. unfold mget in Hv.
      rewrite decide_True in Hv by lia. apply lookup_lt_Some in Hv. lia. }
    cbn. split_and!; try done; [by apply slice_length|by apply slice_Forall|].
    intros i Hi. rewrite lookup_slice by done. unfold mget. rewrite decide_True by lia. f_equal. lia.
Qed.

Lemma idle_same c c' :
  idle sb c -> bc_inv c' -> bc_held c' = bc_held c -> bc_disk c' = bc_disk c -> idle sb c'.
Proof.
  intros Hi HI Hh HD. eapply idle_grow; try done. rewrite HD. apply (grows_refl sb (fun _ => False)).
Qed.

Lemma wp_readC {A} b (k : nat -> block -> M W A) (Q : A -> W -> Prop) w :
  idle sb (fw_cache w) ->
  (forall h c1, bc_inv c1 -> bc_disk c1 = bc_disk (fw_cache w) ->
     bc_held c1 = {[h := (b, dblk (bc_disk (fw_cache w)) b)]} ->
     wp (k h (dblk (bc_disk (fw_cache w)) b)) Q (set_cache c1 w)) ->
  wp (bp <- onC (bread ROOTDEV b) ;; d <- onC (bdata bp) ;; k bp d) Q w.
Proof.
  intros Hi Hk. apply wp_bind, wp_onC.
  wp_use bread_law; [apply Hi|exact (idle_unheld _ _ _ Hi)| |].
  { pose proof (idle_room sb 1 _ Hi). unfold room, NBUF in *. lia. }
  intros h c1 (HI1 & HD1 & Hn & Hh1). rewrite (id_held _ _ Hi) in Hh1.
  apply wp_bind, wp_onC. eapply wp_run; [eapply bdata_law; [done|]|].
  - cbn [fw_cache set_cache]. rewrite Hh1. apply lookup_insert_eq.
  - cbn [fw_cache set_cache]. by apply Hk.
Qed.

Lemma wp_releaseC h b d (Q : unit -> W -> Prop) w :
  bc_inv (fw_cache w) -> bc_held (fw_cache w) = {[h := (b, d)]} -> dblk (bc_disk (fw_cache w)) b = d ->
  (forall c1, bc_inv c1 -> bc_disk c1 = bc_disk (fw_cache w) -> bc_held c1 = ∅ ->
     Q tt (set_cache c1 w)) ->
  wp (onC (brelse h)) Q w.
Proof.
  intros HI Hh Hd Hk. apply wp_onC.
  eapply wp_release; [done|rewrite Hh; apply lookup_singleton_eq|done|].
  intros c1 HI1 HD1 Hh1. apply Hk; [done|done|]. rewrite Hh1, Hh. apply delete_singleton_eq.
Qed.

(** ** [xv6fs_readi] *)

(** The bytes of [d] the loop copies are the bytes of the file. *)
Lemma chunk_bytes D ipp off m i :
  disk_ok D -> 0 <= off -> 0 <= m <= BSIZE - off mod BSIZE -> (i < Z.to_nat m)%nat ->
  slice (Z.to_nat (off mod BSIZE)) (Z.to_nat m) (dblk D (slot D ipp (bslot (off / BSIZE)))) !! i =
  Some (fbyte D ipp (off + Z.of_nat i)).
Proof.
  intros HD Ho Hm Hi. pose proof (Z.mod_pos_bound off BSIZE BSIZE_pos).
  rewrite lookup_slice by done. unfold fbyte.
  destruct (block_div off (Z.of_nat i) Ho ltac:(lia)) as [-> ->].
  destruct (HD (slot D ipp (bslot (off / BSIZE)))) as [Hl _].
  rewrite list_lookup_lookup_total_lt by (rewrite Hl; unfold BSIZE in *; lia). do 2 f_equal. lia.
Qed.

Definition read_into (user : bool) (D : gmap Z block) (ipp : xv6fs_inode) (dst off n : Z) w w' : Prop :=
  other_mem user w w' /\
  forall a, mget user w' a =
    if decide (dst <= a < dst + n) then Some (fbyte D ipp (off + (a - dst))) else mget user w a.

Lemma accessible_after user D ipp dst off n w w' a m :
  read_into user D ipp dst off n w w' -> accessible user w a m -> accessible user w' a m.
Proof.
  intros [_ Hr] Ha x Hx. rewrite Hr. destruct (decide _); [done|]. by apply Ha.
Qed.

(** One round of the loop: [m] bytes of the block at [off]. *)
Lemma readi_round_wp {A} ipp user dst off m (N X K : xv6fs_inode -> M W A) (Q : A -> W -> Prop) w :
  let D := bc_disk (fw_cache w) in
  idle sb (fw_cache w) -> minv w -> iwf sb D ipp -> 0 <= off < MAXFILE * BSIZE -> mapped D ipp off ->
  0 < m <= BSIZE - off mod BSIZE -> accessible user w dst m ->
  (forall w', idle sb (fw_cache w') -> bc_disk (fw_cache w') = D -> minv w' ->
     read_into user D ipp dst off m w w' -> wp (K ipp) Q w') ->
  wp (' (addr, ipp) <- onC (bmap sb ipp (off / BSIZE)) ;;
      if addr =? 0 then N ipp
      else
        bp <- onC (bread ROOTDEV addr) ;;
        d <- onC (bdata bp) ;;
        ok <- either_copyout user dst (slice (Z.to_nat (off mod BSIZE)) (Z.to_nat m) d) ;;
        if negb ok then onC (brelse bp) ;; X ipp
        else onC (brelse bp) ;; K ipp) Q w.
Proof.
  intros D Hi Hm Hw Ho Hmap Hmr Hacc Hk. pose proof (Z.mod_pos_bound off BSIZE BSIZE_pos) as Hmod.
  pose proof (idle_disk_ok _ _ Hi) as HDok. fold D in HDok.
  apply wp_bind, wp_onC. wp_use bmap_wp; [done|done|by apply file_block|].
  intros [addr ipp'] c1 (Hi1 & _ & _ & _ & Hr & Hsame & _). cbn [fst snd] in *.
  destruct (Hsame Hmap) as [HD1 ->]. rewrite HD1 in Hr. fold D in Hr, HD1.
  rewrite (proj2 (Z.eqb_neq addr 0)) by (subst addr; exact Hmap).
  apply wp_readC; [done|]. cbn [fw_cache set_cache]. rewrite HD1, Hr.
  intros h c2 HI2 HD2 Hh2. set (src := slice _ _ _).
  assert (Hlen : length src = Z.to_nat m).
  { apply slice_length. destruct (HDok (slot D ipp (bslot (off / BSIZE)))) as [-> _].
    unfold BSIZE in *. lia. }
  wp_use either_copyout_wp; [exact Hm| | | |].
  { apply slice_Forall. apply HDok. }
  { intros a Ha. apply Hacc. lia. }
  { intros E. rewrite E in Hlen. cbn in Hlen. lia. }
  intros ok w3 (-> & Hm3 & Hc3 & Ho3 & Hg3). cbn [negb]. apply wp_bind.
  eapply wp_releaseC; [by rewrite Hc3|rewrite Hc3; exact Hh2|rewrite Hc3; cbn; by rewrite HD2|].
  intros c4 HI4 HD4 Hh4. rewrite Hc3 in HD4. cbn in HD4. rewrite HD2 in HD4.
  apply Hk; cbn [fw_cache set_cache]; [|done|done|].
  - eapply (idle_same c1); try done; [|congruence]. rewrite Hh4. symmetry. apply Hi1.
  - split; [done|]. intros a. rewrite mget_set_cache, Hg3, Hlen, Z2Nat.id by lia.
    destruct (decide _) as [Hr2|]; [|done]. unfold src. rewrite chunk_bytes by (done || lia).
    do 2 f_equal. lia.
Qed.

Lemma read_into_trans user D ipp dst off n m w w1 w2 :
  0 <= m -> 0 <= n ->
  read_into user D ipp dst off m w w1 -> read_into user D ipp (dst + m) (off + m) n w1 w2 ->
  read_into user D ipp dst off (m + n) w w2.
Proof.
  intros Hm Hn [H1 R1] [H2 R2]. split; [destruct user; cbn in *; congruence|]. intros a. rewrite R2, R1.
  destruct (decide (dst + m <= a < dst + m + n)); [rewrite decide_True by lia; do 2 f_equal; lia|].
  destruct (decide (dst <= a < dst + m)), (decide (dst <= a < dst + (m + n))); try done; lia.
Qed.

Lemma readi_loop_wp fuel ipp user dst off n tot w :
  let D := bc_disk (fw_cache w) in
  idle sb (fw_cache w) -> minv w -> iwf sb D ipp ->
  0 <= tot <= n -> n < 2 ^ 32 -> 0 <= off -> off + (n - tot) <= MAXFILE * BSIZE ->
  (forall k, off <= k < off + (n - tot) -> mapped D ipp k) ->
  accessible user w dst (n - tot) ->
  tot = n \/ off mod BSIZE + (n - tot) <= Z.of_nat fuel * BSIZE ->
  wp (readi_loop sb fuel ROOTDEV ipp user dst off n tot) (fun r w' =>
    r = (n, ipp) /\ idle sb (fw_cache w') /\ bc_disk (fw_cache w') = D /\ minv w' /\
    read_into user D ipp dst off (n - tot) w w') w.
Proof.
  revert dst off tot w.
  assert (Hdone : forall dst off w, read_into user (bc_disk (fw_cache w)) ipp dst off (n - n) w w).
  { intros dst off w. split; [by destruct user|]. intros a. by rewrite decide_False by lia. }
  induction fuel as [|fuel IH]; intros dst off tot w D Hi Hm Hw Ht Hn Ho Hmax Hmap Hacc Hfuel;
    pose proof (Z.mod_pos_bound off BSIZE BSIZE_pos) as Hmod; cbn [readi_loop].
  { assert (tot = n) as -> by lia. apply wp_ret. split_and!; try done. apply Hdone. }
  destruct (Z.ltb_spec tot n).
  2:{ assert (tot = n) as -> by lia. apply wp_ret. split_and!; try done. apply Hdone. }
  destruct (accessible_bound _ _ _ _ Hm Hacc ltac:(lia)) as [Hd0 Hd1].
  set (m := Z.min (n - tot) (BSIZE - off mod BSIZE)).
  assert (HM : MAXFILE * BSIZE = 274432) by done.
  apply readi_round_wp; try done; try lia.
  { apply Hmap. lia. }
  { intros a Ha. apply Hacc. lia. }
  intros w1 Hi1 HD1 Hm1 Hr1. fold D in HD1.
  rewrite u64_small, !u32_small by lia. fold D in Hr1.
  eapply wp_mono; [apply IH; rewrite ?HD1; try done; try lia|].
  - intros k Hk. apply Hmap. lia.
  - eapply accessible_after; [done|]. intros a Ha. apply Hacc. lia.
  - destruct (decide (m = n - tot)); [left; lia|right].
    assert (m = BSIZE - off mod BSIZE) by lia.
    assert ((off + m) mod BSIZE = 0) as ->.
    { pose proof (Z.div_mod off BSIZE ltac:(done)). symmetry.
      apply (Z.mod_unique _ _ (off / BSIZE + 1)); lia. }
    lia.
  - cbn beta. rewrite HD1. intros r w2 (-> & Hi2 & HD2 & Hm2 & Hr2). split_and!; try done.
    replace (n - tot) with (m + (n - (tot + m))) by lia.
    eapply read_into_trans; try done; lia.
Qed.

(** The number of bytes [xv6fs_readi] delivers. *)
Definition read_len (size off n : Z) : Z :=
  if (size <? off) || (2 ^ 32 <=? off + n) then 0 else Z.min n (size - off).

Lemma io_fuel_enough off n : 0 <= n -> off mod BSIZE + n <= Z.of_nat (io_fuel n) * BSIZE.
Proof.
  intros Hn. unfold io_fuel. pose proof (Z.mod_pos_bound off BSIZE BSIZE_pos).
  pose proof (Z.div_mod n BSIZE ltac:(done)). pose proof (Z.mod_pos_bound n BSIZE BSIZE_pos).
  assert (0 <= n / BSIZE) by (apply Z.div_pos; lia). unfold BSIZE in *. lia.
Qed.

Lemma readi_wp ip ipp user dst off n w :
  let D := bc_disk (fw_cache w) in
  let len := read_len (i_size ip) off n in
  idle sb (fw_cache w) -> minv w -> iwf sb D ipp -> no_holes D ip ipp -> i_dev ip = ROOTDEV ->
  word_ok off -> word_ok n -> accessible user w dst len ->
  wp (xv6fs_readi sb ip ipp user dst off n) (fun r w' =>
    r = (len, ipp) /\ idle sb (fw_cache w') /\ bc_disk (fw_cache w') = D /\ minv w' /\
    read_into user D ipp dst off len w w') w.
Proof.
  intros D len Hi Hm Hw [Hsz Hmap] Hdev Ho Hn Hacc. unfold word_ok in *.
  assert (HM : MAXFILE * BSIZE = 274432) by done. rewrite HM in Hsz.
  assert (Hnone : read_into user D ipp dst off 0 w w).
  { split; [by destruct user|]. intros a. by rewrite decide_False by lia. }
  unfold xv6fs_readi, len, read_len in *.
  assert (Hov : (u32 (off + n) <? off) = (2 ^ 32 <=? off + n)).
  { unfold u32. destruct (Z.leb_spec (2 ^ 32) (off + n)).
    - apply Z.ltb_lt. rewrite <-(Z.mod_unique (off + n) (2 ^ 32) 1 (off + n - 2 ^ 32)); lia.
    - apply Z.ltb_ge. rewrite Z.mod_small; lia. }
  rewrite Hov. destruct ((i_size ip <? off) || (2 ^ 32 <=? off + n)) eqn:E.
  { apply wp_ret. by split_and!. }
  zify_bool. rewrite (u32_small (off + n)) by lia.
  set (len' := Z.min n (i_size ip - off)) in *.
  replace (if i_size ip <? off + n then u32 (i_size ip - off) else n) with len'.
  2:{ destruct (Z.ltb_spec (i_size ip) (off + n)); [rewrite u32_small by lia|]; lia. }
  rewrite Hdev. wp_use readi_loop_wp; try done; try lia.
  - intros k Hk. apply Hmap. lia.
  - by rewrite Z.sub_0_r.
  - right. rewrite Z.sub_0_r. apply io_fuel_enough. lia.
  - intros r w' (-> & Hi' & HD' & Hm' & Hr'). apply wp_ret. rewrite Z.sub_0_r in Hr'.
    split_and!; try done. rewrite s32_small by lia. done.
Qed.

(** ** [xv6fs_writei] *)

(** The file now has the bytes [f] at [[off, off + n)] and is otherwise as
    before; the blocks of other files are untouched, and every block newly in
    use belongs to this file. *)
Record wrote (D : gmap Z block) (ipp : xv6fs_inode) (off n : Z) (f : Z -> Z)
    (D' : gmap Z block) (ipp' : xv6fs_inode) : Prop := {
  wr_iwf : iwf sb D' ipp';
  wr_grows : grows sb (owned D ipp) D D';
  wr_numbers : same_numbers ipp ipp';
  wr_keep : forall t, (t < NSLOTS)%nat -> slot D ipp t <> 0 -> slot D' ipp' t = slot D ipp t;
  wr_new : forall k, off <= k < off + n -> mapped D' ipp' k /\ fbyte D' ipp' k = f k;
  wr_old : forall k, 0 <= k < MAXFILE * BSIZE -> ~ (off <= k < off + n) -> mapped D ipp k ->
    fbyte D' ipp' k = fbyte D ipp k;
  wr_owned : forall b, owned D' ipp' b -> owned D ipp b \/ in_use sb D b = false;
  wr_leak : forall b, 0 <= b < size sb -> in_use sb D' b = true ->
    in_use sb D b = true \/ owned D' ipp' b;
}.

Lemma wrote_mono D ipp off n f D' ipp' b :
  wrote D ipp off n f D' ipp' -> owned D ipp b -> owned D' ipp' b.
Proof.
  intros Hw (Hb & t & Ht & Heq). split; [done|]. exists t. split; [done|].
  rewrite (wr_keep _ _ _ _ _ _ _ Hw); congruence.
Qed.

Lemma wrote_mapped D ipp off n f D' ipp' k :
  wrote D ipp off n f D' ipp' -> 0 <= k < MAXFILE * BSIZE -> mapped D ipp k -> mapped D' ipp' k.
Proof.
  intros Hw Hk Hm. unfold mapped. rewrite (wr_keep _ _ _ _ _ _ _ Hw); [done| |done].
  apply bslot_bound. by apply file_block.
Qed.

Lemma owned_range D ipp b : iwf sb D ipp -> owned D ipp b -> nmeta sb <= b < size sb.
Proof. intros Hw (Hb & t & Ht & <-). by apply (so_used _ _ _ (iw_slots _ _ _ Hw)). Qed.

Lemma wrote_trans D ipp off m n f D1 ipp1 D2 ipp2 :
  sb_ok sb -> 0 <= off -> 0 <= m -> 0 <= n -> off + m + n <= MAXFILE * BSIZE ->
  wrote D ipp off m f D1 ipp1 -> wrote D1 ipp1 (off + m) n f D2 ipp2 ->
  wrote D ipp off (m + n) f D2 ipp2.
Proof.
  intros Hsb Ho Hm Hn Hmax H1 H2. pose proof (nmeta_pos sb Hsb).
  assert (Hfree : forall b, owned D2 ipp2 b -> in_use sb D1 b = false -> in_use sb D b = false).
  { intros b Hb Hf. destruct (in_use sb D b) eqn:E; [|done].
    pose proof (owned_range _ _ _ (wr_iwf _ _ _ _ _ _ _ H2) Hb).
    rewrite (gr_use _ _ _ _ (wr_grows _ _ _ _ _ _ _ H1)) in Hf; [done|lia|done]. }
  split.
  - apply H2.
  - eapply grows_trans; [done|apply H1|apply H2|done|]. intros b _ Hb. by apply H1.
  - pose proof (wr_numbers _ _ _ _ _ _ _ H1). pose proof (wr_numbers _ _ _ _ _ _ _ H2).
    unfold same_numbers in *. congruence.
  - intros t Ht Hne. rewrite (wr_keep _ _ _ _ _ _ _ H2), (wr_keep _ _ _ _ _ _ _ H1); try done.
    by rewrite (wr_keep _ _ _ _ _ _ _ H1).
  - intros k Hk. destruct (decide (k < off + m)).
    + destruct (wr_new _ _ _ _ _ _ _ H1 k ltac:(lia)) as [Hmk <-]. split.
      * eapply wrote_mapped; try done. lia.
      * apply (wr_old _ _ _ _ _ _ _ H2); [lia|lia|done].
    + apply (wr_new _ _ _ _ _ _ _ H2). lia.
  - intros k Hk Hn' Hmk. rewrite (wr_old _ _ _ _ _ _ _ H2), (wr_old _ _ _ _ _ _ _ H1); try done; try lia.
    by eapply wrote_mapped.
  - intros b Hb. destruct (wr_owned _ _ _ _ _ _ _ H2 b Hb) as [Hb1|]; [|by right; apply Hfree].
    by apply H1.
  - intros b Hb Hu. destruct (wr_leak _ _ _ _ _ _ _ H2 b Hb Hu) as [Hu1|]; [|by right].
    destruct (wr_leak _ _ _ _ _ _ _ H1 b Hb Hu1) as [|Hb1]; [by left|right].
    by eapply wrote_mono.
Qed.

(** [bmap] by itself does not change the contents of the file. *)
Lemma bmap_keep D ipp bn r ipp' D' t :
  bmap_post sb D ipp bn r ipp' D' -> (t < NSLOTS)%nat -> slot D ipp t <> 0 ->
  slot D' ipp' t = slot D ipp t.
Proof.
  intros (_ & _ & Hk & _ & Hsame & _) Ht Hne.
  destruct (decide (t = bslot bn)) as [->|]; [by destruct (Hsame Hne) as [-> ->]|].
  apply Hk; [done|done|]. congruence.
Qed.

Lemma bmap_wrote D ipp bn r ipp' D' off f :
  sb_ok sb -> iwf sb D ipp -> bmap_post sb D ipp bn r ipp' D' -> wrote D ipp off 0 f D' ipp'.
Proof.
  intros Hsb Hw Hp. pose proof (nmeta_pos sb Hsb).
  pose proof Hp as (Hw' & Hg & Hk & Hr & Hsame & Hfresh & Hfull & Hleak & Hown & Hx).
  split; try done.
  - split; [apply Hg| |apply Hg]. intros b Hb Hu Hn. apply (gr_data _ _ _ _ Hg); [done|done|].
    intros ->. apply Hn. split; [lia|]. exists IND. split; [by apply slot_bound|done].
  - unfold same_numbers. rewrite (iw_dev _ _ _ Hw), (iw_dev _ _ _ Hw'). congruence.
  - intros t Ht. by apply (bmap_keep _ _ bn r).
  - intros k Hk'. lia.
  - intros k Hk' _ Hm. unfold fbyte. pose proof (file_block k Hk') as Hb.
    destruct (bslot_bound _ Hb) as [Hs Hi].
    rewrite (bmap_keep _ _ _ _ _ _ _ Hp Hs Hm). f_equal.
    destruct (so_used _ _ _ (iw_slots _ _ _ Hw) _ Hs Hm) as [? ?].
    apply (gr_data _ _ _ _ Hg); [done|done|]. rewrite <-(slot_ind D). intros Heq.
    apply Hi. by apply (so_inj _ _ _ (iw_slots _ _ _ Hw)); [|apply slot_bound| |].
Qed.

(** Writing part of one mapped block. *)
Lemma wrote_block D ipp off m f bytes :
  let b := slot D ipp (bslot (off / BSIZE)) in
  sb_ok sb -> disk_ok D -> iwf sb D ipp -> 0 <= off < MAXFILE * BSIZE -> mapped D ipp off ->
  0 < m <= BSIZE - off mod BSIZE -> length bytes = Z.to_nat m ->
  (forall i, (i < Z.to_nat m)%nat -> bytes !! i = Some (f (off + Z.of_nat i))) ->
  wrote D ipp off m f (<[b := splice (Z.to_nat (off mod BSIZE)) bytes (dblk D b)]> D) ipp.
Proof.
  intros b Hsb HD Hw Ho Hm Hmr Hl Hb. pose proof (nmeta_pos sb Hsb).
  pose proof (Z.mod_pos_bound off BSIZE BSIZE_pos) as Hmod.
  destruct (bslot_bound _ (file_block off Ho)) as [Hs Hi].
  destruct (so_used _ _ _ (iw_slots _ _ _ Hw) _ Hs Hm) as [Hr Hu]. fold b in Hr, Hu.
  set (D' := <[b := _]> D).
  assert (Hslot : forall t, slot D' ipp t = slot D ipp t).
  { apply slot_same_ind. intros Ha. apply dblk_insert_ne. rewrite <-(slot_ind D). intros Heq.
    apply Hi. by apply (so_inj _ _ _ (iw_slots _ _ _ Hw)); [|apply slot_bound| |]. }
  assert (Hin : forall b', 0 <= b' < size sb -> in_use sb D' b' = in_use sb D b').
  { intros b' Hb'. apply in_use_insert; [done|lia|done]. }
  assert (Hown : forall b', owned D' ipp b' <-> owned D ipp b').
  { intros b'. unfold owned. by setoid_rewrite Hslot. }
  assert (Hlen : (Z.to_nat (off mod BSIZE) + length bytes <= length (dblk D b))%nat).
  { destruct (HD b) as [-> _]. rewrite Hl. unfold BSIZE in *. lia. }
  assert (Hin_blk : forall k, off <= k < off + m ->
    k / BSIZE = off / BSIZE /\ k mod BSIZE = off mod BSIZE + (k - off)).
  { intros k Hk. pose proof (block_div off (k - off)). replace (off + (k - off)) with k in * by lia. lia. }
  split.
  - split; [apply Hw|apply Hw|]. eapply slots_ok_ext; [intros t Ht; symmetry; apply Hslot|].
    eapply slots_ok_disk, Hw. intros b' Hb' Hu'. rewrite Hin by lia. done.
  - apply grows_insert; [done|done|]. split; [done|]. exists (bslot (off / BSIZE)). done.
  - done.
  - intros t _ _. apply Hslot.
  - intros k Hk. destruct (Hin_blk k Hk) as [E1 E2]. unfold mapped, fbyte. rewrite Hslot, E1, E2.
    fold b. split; [done|]. unfold D'. rewrite dblk_insert_eq.
    apply list_lookup_total_correct. rewrite lookup_splice_new by lia.
    replace (Z.to_nat (off mod BSIZE + (k - off)) - Z.to_nat (off mod BSIZE))%nat with (Z.to_nat (k - off)) by lia.
    rewrite Hb by lia. do 2 f_equal. lia.
  - intros k Hk Hn Hmk. unfold fbyte. rewrite Hslot. pose proof (file_block k Hk).
    destruct (decide (k / BSIZE = off / BSIZE)) as [E|E].
    + rewrite E. fold b. unfold D'. rewrite dblk_insert_eq.
      pose proof (Z.mod_pos_bound k BSIZE BSIZE_pos).
      rewrite !list_lookup_total_alt. f_equal. apply lookup_splice_old; [done|].
      pose proof (Z.div_mod k BSIZE ltac:(done)). pose proof (Z.div_mod off BSIZE ltac:(done)). lia.
    + unfold D'. rewrite dblk_insert_ne; [done|]. intros Heq. apply E.
      apply bslot_inj; [lia|by apply file_block|]. symmetry.
      apply (so_inj _ _ _ (iw_slots _ _ _ Hw)); try done. by apply bslot_bound.
  - intros b' Hb'. left. by apply Hown.
  - intros b' Hb' Hu'. left. by rewrite <-Hin.
Qed.

Definition disk_full (D : gmap Z block) : Prop :=
  forall b, 0 <= b < size sb -> in_use sb D b = true.

(** The source of a write holds the bytes [f] of the file. *)
Definition source (user : bool) w (src off n : Z) (f : Z -> Z) : Prop :=
  forall k, off <= k < off + n -> mget user w (src + (k - off)) = Some (f k).

Lemma source_accessible user w src off n f : source user w src off n f -> accessible user w src n.
Proof.
  intros Hs a Ha. specialize (Hs (off + (a - src)) ltac:(lia)).
  replace (src + (off + (a - src) - off)) with a in Hs by lia. rewrite Hs. eauto.
Qed.

(** One round of the loop. *)
Lemma writei_round_wp {A} ipp user src off m f (N : xv6fs_inode -> M W A)
    (X K : xv6fs_inode -> M W A) (Q : A -> W -> Prop) w :
  let D := bc_disk (fw_cache w) in
  idle sb (fw_cache w) -> minv w -> iwf sb D ipp -> 0 <= off < MAXFILE * BSIZE ->
  0 < m <= BSIZE - off mod BSIZE -> source user w src off m f ->
  (forall c' ipp', idle sb c' -> disk_full (bc_disk c') -> wrote D ipp off 0 f (bc_disk c') ipp' ->
     wp (N ipp') Q (set_cache c' w)) ->
  (forall c' ipp', idle sb c' -> wrote D ipp off m f (bc_disk c') ipp' ->
     wp (K ipp') Q (set_cache c' w)) ->
  wp (' (addr, ipp) <- onC (bmap sb ipp (off / BSIZE)) ;;
      if addr =? 0 then N ipp
      else
        bp <- onC (bread ROOTDEV addr) ;;
        d <- onC (bdata bp) ;;
        ' (bytes, ok) <- either_copyin user src m ;;
        onC (bset bp (splice (Z.to_nat (off mod BSIZE)) bytes d)) ;;
        if negb ok then onC (brelse bp) ;; X ipp
        else onC (bwrite bp) ;; onC (brelse bp) ;; K ipp) Q w.
Proof.
  intros D Hi Hm Hw Ho Hmr Hsrc HN HK. pose proof (Z.mod_pos_bound off BSIZE BSIZE_pos) as Hmod.
  pose proof (id_sb _ _ Hi) as Hsb.
  apply wp_bind, wp_onC. wp_use bmap_wp; [done|done|by apply file_block|].
  intros [addr ipp1] c1 (Hi1 & Hp). cbn [fst snd] in *.
  pose proof (bmap_wrote _ _ _ _ _ _ off f Hsb Hw Hp) as Hw0.
  destruct Hp as (Hw1 & _ & _ & Hr & _ & _ & Hfull & _).
  destruct (Z.eqb_spec addr 0) as [Hz|Hz]; [exact (HN _ _ Hi1 (Hfull Hz) Hw0)|].
  apply wp_readC; [done|]. cbn [fw_cache set_cache]. intros h c2 HI2 HD2 Hh2.
  pose proof (idle_disk_ok _ _ Hi1) as HD1.
  wp_use either_copyin_wp; [exact Hm|by eapply source_accessible|lia|].
  intros [bytes ok] w3 (Hok & -> & Hlen & Hbytes & Hget). cbn [fst snd] in *. subst ok. cbn [negb].
  assert (Hok : block_ok (splice (Z.to_nat (off mod BSIZE)) bytes (dblk (bc_disk c1) addr))).
  { apply block_ok_splice; [apply HD1|done|]. rewrite Hlen. unfold BSIZE in *. lia. }
  apply wp_bind, wp_onC. cbn [fw_cache set_cache].
  wp_use bset_law; [done|rewrite Hh2; apply lookup_singleton_eq|exact Hok|].
  intros _ c3 (HI3 & HD3 & Hh3). apply wp_bind, wp_onC. cbn [fw_cache set_cache].
  wp_use bwrite_law; [done|rewrite Hh3; apply lookup_insert_eq|].
  intros _ c4 (HI4 & HD4 & Hh4). rewrite HD3, HD2 in HD4. apply wp_bind.
  eapply wp_releaseC; [exact HI4|cbn; rewrite Hh4, Hh3, Hh2, insert_singleton_eq; done|cbn; by rewrite HD4, dblk_insert_eq|].
  intros c5 HI5 HD5 Hh5. cbn in HD5. rewrite HD4 in HD5.
  assert (Hwb : wrote (bc_disk c1) ipp1 (off + 0) m f (bc_disk c5) ipp1).
  { rewrite HD5, Hr, Z.add_0_r. apply wrote_block; try done; [congruence|].
    intros i Hi'. rewrite Hget by done. change (mget user w (src + Z.of_nat i) = Some (f (off + Z.of_nat i))).
    rewrite <-Hsrc by lia. f_equal. lia. }
  apply HK.
  - eapply idle_grow; [exact Hi1|done|rewrite Hh5; symmetry; apply Hi1|apply Hwb].
  - replace m with (0 + m) by lia. eapply wrote_trans; try done; try lia.
    pose proof (Z.div_mod off BSIZE ltac:(done)). pose proof (file_block off Ho).
    change (MAXFILE * BSIZE) with (268 * 1024) in *. change MAXFILE with 268 in *. unfold BSIZE in *. lia.
Qed.

Lemma writei_loop_wp fuel ipp user src off n tot f w :
  let D := bc_disk (fw_cache w) in
  idle sb (fw_cache w) -> minv w -> iwf sb D ipp ->
  0 <= tot <= n -> n < 2 ^ 32 -> 0 <= off -> off + (n - tot) <= MAXFILE * BSIZE ->
  source user w src off (n - tot) f ->
  tot = n \/ off mod BSIZE + (n - tot) <= Z.of_nat fuel * BSIZE ->
  wp (writei_loop sb fuel ROOTDEV ipp user src off n tot) (fun r w' =>
    exists tot' ipp' c', r = (tot', off + (tot' - tot), ipp') /\ w' = set_cache c' w /\
      tot <= tot' <= n /\ idle sb c' /\ (tot' < n -> disk_full (bc_disk c')) /\
      wrote D ipp off (tot' - tot) f (bc_disk c') ipp') w.
Proof.
  revert ipp src off tot w.
  assert (Hdone : forall ipp off w, iwf sb (bc_disk (fw_cache w)) ipp ->
    wrote (bc_disk (fw_cache w)) ipp off (n - n) f (bc_disk (fw_cache w)) ipp).
  { intros ipp off w Hw. split; auto; [apply grows_refl|done|intros k ?; lia]. }
  induction fuel as [|fuel IH]; intros ipp src off tot w D Hi Hm Hw Ht Hn Ho Hmax Hsrc Hfuel;
    pose proof (Z.mod_pos_bound off BSIZE BSIZE_pos) as Hmod; cbn [writei_loop].
  { assert (tot = n) as -> by lia. apply wp_ret. exists n, ipp, (fw_cache w).
    rewrite Z.sub_diag, Z.add_0_r. destruct w. split_and!; try done; try lia.
    rewrite <-(Z.sub_diag n). by apply Hdone. }
  destruct (Z.ltb_spec tot n).
  2:{ assert (tot = n) as -> by lia. apply wp_ret. exists n, ipp, (fw_cache w).
      rewrite Z.sub_diag, Z.add_0_r. destruct w. split_and!; try done; try lia.
      rewrite <-(Z.sub_diag n). by apply Hdone. }
  destruct (accessible_bound _ _ _ _ Hm (source_accessible _ _ _ _ _ _ Hsrc) ltac:(lia)) as [Hd0 Hd1].
  set (m := Z.min (n - tot) (BSIZE - off mod BSIZE)).
  assert (HM : MAXFILE * BSIZE = 274432) by done.
  eapply (writei_round_wp ipp user src off m f); try done; try lia.
  { intros k Hk. apply Hsrc. lia. }
  { intros c' ipp' Hi' Hfull Hw'. apply wp_ret. exists tot, ipp', c'.
    rewrite Z.sub_diag, Z.add_0_r. split_and!; try done; lia. }
  intros c1 ipp1 Hi1 Hw1. rewrite u64_small, !u32_small by lia.
  eapply wp_mono; [apply IH; cbn [fw_cache set_cache]; try done; try lia|].
  - apply Hw1.
  - intros k Hk. change (mget user w (src + m + (k - (off + m))) = Some (f k)).
    rewrite <-Hsrc by lia. f_equal. lia.
  - destruct (decide (m = n - tot)); [left; lia|right].
    assert (m = BSIZE - off mod BSIZE) by lia.
    assert ((off + m) mod BSIZE = 0) as ->.
    { pose proof (Z.div_mod off BSIZE ltac:(done)). symmetry.
      apply (Z.mod_unique _ _ (off / BSIZE + 1)); lia. }
    lia.
  - cbn beta. intros r w2 (tot' & ipp' & c' & -> & -> & Ht' & Hi' & Hfull & Hw').
    exists tot', ipp', c'. split_and!; try done; try lia; [do 2 f_equal; lia|].
    replace (tot' - tot) with (m + (tot' - (tot + m))) by lia.
    eapply wrote_trans; try done; try lia. apply Hi.
Qed.

Lemma set_size_same ip : set_size (i_size ip) ip = ip.
Proof. by destruct ip. Qed.

Lemma writei_wp ip ipp user src off n f w :
  let D := bc_disk (fw_cache w) in
  idle sb (fw_cache w) -> minv w -> iwf sb D ipp -> i_dev ip = ROOTDEV ->
  0 <= i_inum ip < ninodes sb -> 0 <= i_size ip <= MAXFILE * BSIZE ->
  0 <= off <= i_size ip -> 0 <= n -> off + n <= MAXFILE * BSIZE -> source user w src off n f ->
  wp (xv6fs_writei sb ip ipp user src off n) (fun r w' =>
    exists tot ipp' c' D1,
      let ip' := set_size (Z.max (i_size ip) (off + tot)) ip in
      r = (tot, ip', ipp') /\ w' = set_cache c' w /\ 0 <= tot <= n /\ idle sb c' /\
      (tot < n -> disk_full D1) /\ disk_ok D1 /\ wrote D ipp off tot f D1 ipp' /\
      bc_disk c' = iupdate_disk sb D1 (i_inum ip) (dinode_of ip' ipp')) w.
Proof.
  intros D Hi Hm Hw Hdev Hin Hsz Ho Hn Hmax Hsrc. unfold xv6fs_writei.
  assert (HM : MAXFILE * BSIZE = 274432) by done. rewrite HM in *.
  rewrite u32_small, (proj2 (Z.ltb_ge (i_size ip) off)), (proj2 (Z.ltb_ge (off + n) off)),
    (proj2 (Z.ltb_ge 274432 (off + n))) by lia. cbn [orb].
  rewrite Hdev. wp_use writei_loop_wp; try done; try lia.
  { rewrite Z.sub_0_r. exact Hsrc. }
  { right. rewrite Z.sub_0_r. by apply io_fuel_enough. }
  intros r w1 (tot & ipp' & c1 & -> & -> & Ht & Hi1 & Hfull & Hw1). rewrite !Z.sub_0_r in *.
  set (ip' := if i_size ip <? off + tot then set_size (off + tot) ip else ip).
  assert (E : ip' = set_size (Z.max (i_size ip) (off + tot)) ip).
  { unfold ip'. destruct (Z.ltb_spec (i_size ip) (off + tot)).
    - by rewrite Z.max_r by lia.
    - by rewrite Z.max_l, set_size_same by lia. }
  apply wp_bind, wp_onC. rewrite E.
  wp_use (iupdate_wp sb (set_size (Z.max (i_size ip) (off + tot)) ip)); [done|done|done| |].
  { apply Hw1. }
  intros _ c2 [Hi2 HD2]. apply wp_ret. exists tot, ipp', c2, (bc_disk c1).
  rewrite s32_small by lia. split_and!; try done; try lia. by eapply idle_disk_ok.
Qed.

(** The rejected requests. *)
Lemma writei_reject ip ipp user src off n w :
  word_ok off -> word_ok n -> word_ok (i_size ip) ->
  i_size ip < off \/ MAXFILE * BSIZE < off + n ->
  xv6fs_writei sb ip ipp user src off n w = Ok (-1, ip, ipp) w.
Proof.
  intros Ho Hn Hs Hbad. unfold word_ok in *. unfold xv6fs_writei.
  assert (HM : MAXFILE * BSIZE = 274432) by done. rewrite HM in *.
  destruct ((i_size ip <? off) || (u32 (off + n) <? off)) eqn:E; [done|]. zify_bool.
  assert (off + n < 2 ^ 32).
  { unfold u32 in *. destruct (decide (off + n < 2 ^ 32)); [done|].
    rewrite <-(Z.mod_unique (off + n) (2 ^ 32) 1 (off + n - 2 ^ 32)) in *; lia. }
  rewrite u32_small in * by lia. rewrite (proj2 (Z.ltb_lt _ _)) by lia. done.
Qed.
End specs.
