(* ===== verification/FsInv.v ===== *)
(** * The consistency of the file system

    [fs_ok] is the invariant a file-system checker tests: the blocks of every
    allocated inode are distinct data blocks marked in use, no block belongs to
    two files, no file has holes, and every data block in use belongs to a
    file.  Writing, truncating and allocating inodes preserve it and leave the
    contents of the other files alone. *)

From S2P Require Import Prelude Sleeplock BlockCache Bio Blocks Inode BlockMap InodeOps UserMem FileIO.

(** The block list of an on-disk inode. *)
Definition dxi (di : dinode) : xv6fs_inode :=
  {| xi_dev := ROOTDEV; xi_valid := 1; xi_major := d_major di; xi_minor := d_minor di;
     addrs := d_addrs di |}.

Section fs.
Context (sb : xv6fs_super_block).
Implicit Types (D : gmap Z block).

Definition ifile D (i : Z) : xv6fs_inode := dxi (disk_inode sb D i).
Definition fsize D (i : Z) : Z := d_size (disk_inode sb D i).

Definition allocated D (i : Z) : Prop :=
  1 <= i < ninodes sb /\ d_type (disk_inode sb D i) <> 0.

Record file_ok D (i : Z) : Prop := {
  fk_iwf : iwf sb D (ifile D i);
  fk_size : 0 <= fsize D i <= MAXFILE * BSIZE;
  fk_mapped : forall k, 0 <= k < fsize D i -> mapped D (ifile D i) k;
}.

Record fs_ok D : Prop := {
  fo_file : forall i, allocated D i -> file_ok D i;
  fo_disjoint : forall i j b, allocated D i -> allocated D j ->
    owned D (ifile D i) b -> owned D (ifile D j) b -> i = j;
  fo_used : forall b, nmeta sb <= b < size sb -> in_use sb D b = true ->
    exists i, allocated D i /\ owned D (ifile D i) b;
}.

(** The bytes of file [i]. *)
Definition content D (i k : Z) : Z := fbyte D (ifile D i) k.

(** ** Frames *)

Lemma slot_addrs D ipp ipp' s : addrs ipp = addrs ipp' -> slot D ipp s = slot D ipp' s.
Proof. unfold slot. by intros ->. Qed.

Lemma owned_addrs D ipp ipp' b : addrs ipp = addrs ipp' -> owned D ipp b <-> owned D ipp' b.
Proof.
  intros E. unfold owned. by setoid_rewrite (fun s => slot_addrs D ipp ipp' s E).
Qed.

Lemma iwf_addrs D ipp ipp' :
  addrs ipp = addrs ipp' -> xi_dev ipp' = ROOTDEV -> iwf sb D ipp -> iwf sb D ipp'.
Proof.
  intros E Hd [_ Hl Hs]. split; [done|congruence|].
  eapply slots_ok_ext, Hs. intros s _. by apply slot_addrs.
Qed.

Lemma mapped_addrs D ipp ipp' k : addrs ipp = addrs ipp' -> mapped D ipp k <-> mapped D ipp' k.
Proof. intros E. unfold mapped. by rewrite (slot_addrs D ipp ipp'). Qed.

Lemma fbyte_addrs D ipp ipp' k : addrs ipp = addrs ipp' -> fbyte D ipp k = fbyte D ipp' k.
Proof. intros E. unfold fbyte. by rewrite (slot_addrs D ipp ipp'). Qed.

(** A file none of whose blocks changed. *)
Lemma file_frame D D' ipp :
  iwf sb D ipp ->
  (forall b, owned D ipp b -> dblk D' b = dblk D b /\ in_use sb D' b = true) ->
  iwf sb D' ipp /\ (forall s, slot D' ipp s = slot D ipp s) /\
  (forall k, 0 <= k < MAXFILE * BSIZE -> mapped D ipp k -> fbyte D' ipp k = fbyte D ipp k).
Proof.
  intros Hw Hb. assert (Hsl : forall s, slot D' ipp s = slot D ipp s).
  { apply slot_same_ind. intros Ha. apply Hb. split; [done|]. exists IND. split; [by apply slot_bound|done]. }
  split_and!.
  - destruct Hw as [Hd Hl Hs]. split; [done|done|].
    eapply slots_ok_ext; [intros s _; symmetry; apply Hsl|].
    split; [|apply Hs]. intros s Hs' Hne. split; [by apply Hs|]. apply Hb. split; eauto.
  - done.
  - intros k Hk Hm. unfold fbyte. rewrite Hsl. destruct (Hb (slot D ipp (bslot (k / BSIZE)))) as [-> _]; [|done].
    split; [done|]. exists (bslot (k / BSIZE)). split; [|done]. by apply bslot_bound, file_block.
Qed.

Lemma owned_slots D D' ipp b :
  (forall s, slot D' ipp s = slot D ipp s) -> owned D' ipp b <-> owned D ipp b.
Proof. intros E. unfold owned. by setoid_rewrite E. Qed.

(** Replacing one on-disk inode: the data and the bitmap stay. *)
Lemma iupdate_data D i di b :
  sb_ok sb -> 0 <= i < ninodes sb -> nmeta sb <= b -> dblk (iupdate_disk sb D i di) b = dblk D b.
Proof.
  intros Hsb Hi Hb. destruct (IBLOCK_range sb i Hsb Hi) as [_ ?]. pose proof (sbo_size _ Hsb).
  unfold iupdate_disk. apply dblk_insert_ne. unfold nmeta in Hb.
  assert (0 <= size sb / BPB) by (apply Z.div_pos; [lia|done]). lia.
Qed.

Lemma iupdate_in_use D i di b :
  sb_ok sb -> 0 <= i < ninodes sb -> 0 <= b < size sb ->
  in_use sb (iupdate_disk sb D i di) b = in_use sb D b.
Proof.
  intros Hsb Hi Hb. destruct (IBLOCK_range sb i Hsb Hi) as [_ ?].
  apply in_use_insert_low; [done|lia|done].
Qed.

(** A change of the disk that leaves the inode blocks alone. *)
Lemma disk_inode_same D D' i :
  sb_ok sb -> 0 <= i < ninodes sb ->
  (forall b, b < bmapstart sb -> dblk D' b = dblk D b) -> disk_inode sb D' i = disk_inode sb D i.
Proof.
  intros Hsb Hi Hm. destruct (IBLOCK_range sb i Hsb Hi) as [_ ?]. unfold disk_inode.
  by rewrite Hm by lia.
Qed.

(** ** Replacing file [i]

    The disk [D'] keeps the blocks and inodes of all other files, and the
    blocks of file [i] are old blocks of its own or blocks that were free. *)
Record replaces (D D' : gmap Z block) (i : Z) : Prop := {
  rp_inode : forall j, 0 <= j < ninodes sb -> j <> i -> disk_inode sb D' j = disk_inode sb D j;
  rp_block : forall j b, j <> i -> allocated D j -> owned D (ifile D j) b ->
    dblk D' b = dblk D b /\ in_use sb D' b = true;
  rp_file : allocated D' i -> file_ok D' i;
  rp_owned : forall b, allocated D' i -> owned D' (ifile D' i) b ->
    (allocated D i /\ owned D (ifile D i) b) \/ in_use sb D b = false;
  rp_used : forall b, nmeta sb <= b < size sb -> in_use sb D' b = true ->
    in_use sb D b = true \/ (allocated D' i /\ owned D' (ifile D' i) b);
  rp_keep : forall b, in_use sb D' b = true -> allocated D i -> owned D (ifile D i) b ->
    allocated D' i /\ owned D' (ifile D' i) b;
}.

Lemma replaces_other D D' i j :
  fs_ok D -> replaces D D' i -> j <> i -> allocated D j ->
  ifile D' j = ifile D j /\ fsize D' j = fsize D j /\ file_ok D' j /\
  (forall b, owned D' (ifile D' j) b <-> owned D (ifile D j) b) /\
  (forall k, 0 <= k < fsize D j -> content D' j k = content D j k).
Proof.
  intros Hok Hr Hne [Hj Ht]. pose proof (fo_file _ Hok j (conj Hj Ht)) as [Hw Hs Hm].
  assert (E : ifile D' j = ifile D j) by (unfold ifile; by rewrite (rp_inode _ _ _ Hr) by (lia || done)).
  assert (Es : fsize D' j = fsize D j) by (unfold fsize; by rewrite (rp_inode _ _ _ Hr) by (lia || done)).
  destruct (file_frame D D' (ifile D j) Hw) as (Hw' & Hsl & Hf).
  { intros b Hb. by apply (rp_block _ _ _ Hr j b Hne (conj Hj Ht)). }
  split_and!; [done|done|split|..].
  - by rewrite E.
  - by rewrite Es.
  - rewrite E, Es. intros k Hk. unfold mapped. rewrite Hsl. by apply Hm.
  - intros b. rewrite E. by apply owned_slots.
  - intros k Hk. unfold content. rewrite E. apply Hf; [lia|by apply Hm].
Qed.

Lemma replaces_allocated D D' i j :
  replaces D D' i -> j <> i -> allocated D' j <-> allocated D j.
Proof.
  intros Hr Hne. unfold allocated. split; intros [Hj Ht];
    rewrite (rp_inode _ _ _ Hr) in * by (lia || done); done.
Qed.

(** Replacing one file keeps the file system consistent. *)
Lemma replaces_ok D D' i :
  fs_ok D -> replaces D D' i -> fs_ok D'.
Proof.
  intros Hok Hr.
  assert (Hoth : forall j, j <> i -> allocated D' j ->
    allocated D j /\ file_ok D' j /\ forall b, owned D' (ifile D' j) b <-> owned D (ifile D j) b).
  { intros j Hne Ha. apply (replaces_allocated _ _ _ _ Hr Hne) in Ha.
    by destruct (replaces_other _ _ _ _ Hok Hr Hne Ha) as (_ & _ & ? & ? & _). }
  assert (Hx : forall j b, j <> i -> allocated D' j -> allocated D' i ->
    owned D' (ifile D' j) b -> owned D' (ifile D' i) b -> False).
  { intros j b Hne Ha Hai Hb Hbi. destruct (Hoth j Hne Ha) as (Hj & _ & Ho). apply Ho in Hb.
    destruct (rp_owned _ _ _ Hr b Hai Hbi) as [[Ha0 Hb0]|Hf].
    - apply Hne. by apply (fo_disjoint _ Hok j i b).
    - destruct Hb as (Hb0 & s & Hs & <-).
      destruct (so_used _ _ _ (iw_slots _ _ _ (fk_iwf _ _ (fo_file _ Hok j Hj))) s Hs Hb0). congruence. }
  split.
  - intros j Ha. destruct (decide (j = i)) as [->|Hne]; [by apply Hr|by apply Hoth].
  - intros j j' b Ha Ha' Hb Hb'.
    destruct (decide (j = i)) as [->|Hne], (decide (j' = i)) as [->|Hne']; try done.
    + exfalso. by eapply (Hx j' b).
    + exfalso. by eapply (Hx j b).
    + destruct (Hoth j Hne Ha) as (Hj & _ & Ho), (Hoth j' Hne' Ha') as (Hj' & _ & Ho').
      apply (fo_disjoint _ Hok j j' b); [done|done|by apply Ho|by apply Ho'].
  - intros b Hb Hu. destruct (rp_used _ _ _ Hr b Hb Hu) as [Hu0|[Ha Ho]]; [|by exists i].
    destruct (fo_used _ Hok b Hb Hu0) as (j & Ha & Ho).
    destruct (decide (j = i)) as [->|Hne]; [exists i; by apply Hr|].
    exists j. split; [by apply (replaces_allocated _ _ _ _ Hr Hne)|].
    by apply (replaces_other _ _ _ _ Hok Hr Hne Ha).
Qed.

(** ** The operations replace one file *)

(** The in-memory inode agrees with the disk. *)
Record clean D (ip : inode) (ipp : xv6fs_inode) : Prop := {
  cl_alloc : allocated D (i_inum ip);
  cl_inode : disk_inode sb D (i_inum ip) = dinode_of ip ipp;
  cl_dev : i_dev ip = ROOTDEV;
  cl_xdev : xi_dev ipp = ROOTDEV;
}.

Lemma clean_addrs D ip ipp : clean D ip ipp -> addrs (ifile D (i_inum ip)) = addrs ipp.
Proof. intros [_ E _ _]. unfold ifile, dxi. cbn [addrs]. by rewrite E. Qed.

Lemma clean_iwf D ip ipp : fs_ok D -> clean D ip ipp -> iwf sb D ipp.
Proof.
  intros Hok Hc. eapply iwf_addrs; [by eapply clean_addrs|apply Hc|]. apply (fo_file _ Hok), Hc.
Qed.

Lemma clean_size D ip ipp : clean D ip ipp -> fsize D (i_inum ip) = i_size ip.
Proof. intros [_ E _ _]. unfold fsize. by rewrite E. Qed.

Lemma clean_no_holes D ip ipp : fs_ok D -> clean D ip ipp -> no_holes D ip ipp.
Proof.
  intros Hok Hc. pose proof (fo_file _ Hok _ (cl_alloc _ _ _ Hc)) as [_ Hs Hm].
  rewrite (clean_size _ _ _ Hc) in *. split; [done|]. intros k Hk.
  apply (mapped_addrs D (ifile D (i_inum ip))); [by eapply clean_addrs|by apply Hm].
Qed.

Lemma iwf_addrs_ok D ipp : sb_ok sb -> iwf sb D ipp -> Forall word_ok (addrs ipp).
Proof.
  intros Hsb Hw. pose proof (sbo_size _ Hsb). pose proof (nmeta_pos sb Hsb).
  apply Forall_lookup_2. intros t a Ht. pose proof (lookup_lt_Some _ _ _ Ht) as Hlt.
  rewrite (iw_len _ _ _ Hw) in Hlt. unfold NADDRS, NDIRECT in Hlt.
  destruct (decide (a = 0)) as [->|Hne]; [unfold word_ok; lia|].
  assert (E : slot D ipp t = a).
  { unfold slot. rewrite (proj2 (Nat.leb_le t IND)) by lia. by apply list_lookup_total_correct. }
  destruct (so_used _ _ _ (iw_slots _ _ _ Hw) t (slot_bound t ltac:(lia))) as [Hr _]; [congruence|].
  rewrite E in Hr. unfold word_ok. lia.
Qed.

Lemma dinode_ok_update D D1 ip ipp ip' ipp' :
  disk_ok D -> clean D ip ipp -> sb_ok sb -> iwf sb D1 ipp' -> same_numbers ipp ipp' ->
  i_type ip' = i_type ip -> i_nlink ip' = i_nlink ip -> word_ok (i_size ip') ->
  dinode_ok (dinode_of ip' ipp').
Proof.
  intros HD Hc Hsb Hw Hn Ht Hl Hs.
  pose proof (get_dinode_ok (i_inum ip) (dblk D (IBLOCK (i_inum ip) sb)) (HD _)) as Hdi.
  fold (disk_inode sb D (i_inum ip)) in Hdi. rewrite (cl_inode _ _ _ Hc) in Hdi.
  unfold same_numbers in Hn. destruct Hdi; cbn in *. injection Hn as _ _ Hma Hmi.
  split; cbn; rewrite ?Ht, ?Hl, ?Hma, ?Hmi; try done; [apply Hw|by eapply iwf_addrs_ok].
Qed.

(** The on-disk inode changes after the data and the bitmap. *)
Lemma iupdate_frame D1 i di ipp' :
  sb_ok sb -> 0 <= i < ninodes sb -> iwf sb D1 ipp' ->
  let D' := iupdate_disk sb D1 i di in
  iwf sb D' ipp' /\ (forall s, slot D' ipp' s = slot D1 ipp' s) /\
  (forall k, 0 <= k < MAXFILE * BSIZE -> mapped D1 ipp' k -> fbyte D' ipp' k = fbyte D1 ipp' k).
Proof.
  intros Hsb Hi Hw D'. pose proof (nmeta_pos sb Hsb). apply file_frame; [done|].
  intros b Hb. pose proof (owned_range sb _ _ _ Hw Hb). split.
  - apply iupdate_data; [done|done|lia].
  - unfold D'. rewrite iupdate_in_use by (done || lia). destruct Hb as (Hb0 & s & Hs & <-).
    by apply (so_used _ _ _ (iw_slots _ _ _ Hw)).
Qed.

(** The common shape: the data blocks and the bitmap change from [D] to [D1]
    on behalf of file [i], whose inode becomes [di], kept in memory as [ipp']. *)
Record staged (D D1 : gmap Z block) (i : Z) (ipp' : xv6fs_inode) (di : dinode) : Prop := {
  sg_inum : 1 <= i < ninodes sb;
  sg_meta : forall b, b < bmapstart sb -> dblk D1 b = dblk D b;
  sg_other : forall b, nmeta sb <= b < size sb -> in_use sb D b = true ->
    (allocated D i -> ~ owned D (ifile D i) b) -> dblk D1 b = dblk D b /\ in_use sb D1 b = true;
  sg_iwf : iwf sb D1 ipp';
  sg_dinode : dinode_ok di;
  sg_addrs : d_addrs di = addrs ipp';
  sg_size : 0 <= d_size di <= MAXFILE * BSIZE;
  sg_mapped : forall k, 0 <= k < d_size di -> mapped D1 ipp' k;
  sg_owned : forall b, owned D1 ipp' b ->
    (allocated D i /\ owned D (ifile D i) b) \/ in_use sb D b = false;
  sg_used : forall b, 0 <= b < size sb -> in_use sb D1 b = true ->
    in_use sb D b = true \/ owned D1 ipp' b;
  sg_keep : forall b, in_use sb D1 b = true -> allocated D i -> owned D (ifile D i) b ->
    owned D1 ipp' b;
  sg_type : d_type di = 0 -> forall b, ~ owned D1 ipp' b;
}.

Section staged.
Context (D D1 : gmap Z block) (i : Z) (ipp' : xv6fs_inode) (di : dinode).
Hypothesis (Hsb : sb_ok sb) (HD : disk_ok D) (HD1 : disk_ok D1) (Hok : fs_ok D).
Hypothesis (Hst : staged D D1 i ipp' di).
Let D' := iupdate_disk sb D1 i di.

Lemma staged_inode j :
  0 <= j < ninodes sb ->
  disk_inode sb D' j = if decide (j = i) then di else disk_inode sb D j.
Proof.
  intros Hj. pose proof (sg_inum _ _ _ _ _ Hst). unfold D'.
  rewrite disk_inode_update; [|done|done|apply Hst|lia|done].
  destruct (decide (j = i)); [done|]. apply disk_inode_same; [done|done|apply Hst].
Qed.

Lemma staged_self : disk_inode sb D' i = di.
Proof.
  pose proof (sg_inum _ _ _ _ _ Hst). rewrite staged_inode by lia. by rewrite decide_True.
Qed.

Lemma staged_frame :
  iwf sb D' ipp' /\ (forall s, slot D' ipp' s = slot D1 ipp' s) /\
  (forall k, 0 <= k < MAXFILE * BSIZE -> mapped D1 ipp' k -> fbyte D' ipp' k = fbyte D1 ipp' k).
Proof. apply iupdate_frame; [done| |apply Hst]. pose proof (sg_inum _ _ _ _ _ Hst). lia. Qed.

Lemma staged_file : addrs (ifile D' i) = addrs ipp'.
Proof. unfold ifile, dxi. cbn [addrs]. rewrite staged_self. apply Hst. Qed.

Lemma staged_owned b : owned D' (ifile D' i) b <-> owned D1 ipp' b.
Proof. rewrite (owned_addrs _ _ ipp' b staged_file). apply owned_slots, staged_frame. Qed.

Lemma staged_in_use b : 0 <= b < size sb -> in_use sb D' b = in_use sb D1 b.
Proof.
  intros Hb. pose proof (sg_inum _ _ _ _ _ Hst). unfold D'. rewrite iupdate_in_use; [done|done|lia|done].
Qed.

Lemma staged_content k : 0 <= k < d_size di -> content D' i k = fbyte D1 ipp' k.
Proof.
  intros Hk. unfold content. rewrite (fbyte_addrs _ _ ipp' k staged_file).
  pose proof (sg_size _ _ _ _ _ Hst). apply staged_frame; [lia|by apply Hst].
Qed.

Lemma staged_owns_alloc b : owned D1 ipp' b -> allocated D' i.
Proof.
  intros Hb. split; [apply Hst|]. rewrite staged_self. intros Ht. by apply (sg_type _ _ _ _ _ Hst Ht b).
Qed.

Lemma staged_clean ip' :
  i_inum ip' = i -> i_dev ip' = ROOTDEV -> di = dinode_of ip' ipp' -> d_type di <> 0 ->
  clean D' ip' ipp'.
Proof.
  intros Ei Hd Edi Ht. split; try done.
  - rewrite Ei. split; [apply Hst|]. by rewrite staged_self.
  - rewrite Ei, staged_self. done.
  - apply Hst.
Qed.

Lemma staged_replaces : replaces D D' i.
Proof.
  pose proof (nmeta_pos sb Hsb). pose proof (sg_inum _ _ _ _ _ Hst) as Hi. split.
  - intros j Hj Hne. rewrite staged_inode by done. by rewrite decide_False.
  - intros j b Hne Ha Hb. pose proof (fk_iwf _ _ (fo_file _ Hok j Ha)) as Hwj.
    pose proof (owned_range sb _ _ _ Hwj Hb) as Hr.
    destruct (sg_other _ _ _ _ _ Hst b Hr) as [<- Hu].
    + destruct Hb as (Hb0 & s & Hs & <-). by apply (so_used _ _ _ (iw_slots _ _ _ Hwj)).
    + intros Hai Hbi. apply Hne. by apply (fo_disjoint _ Hok j i b).
    + split; [apply iupdate_data; [done|lia|lia]|]. by rewrite staged_in_use by lia.
  - intros _. split.
    + eapply iwf_addrs; [symmetry; apply staged_file|done|]. apply staged_frame.
    + unfold fsize. rewrite staged_self. apply Hst.
    + unfold fsize. rewrite staged_self. intros k Hk. apply (mapped_addrs _ _ ipp' k staged_file).
      unfold mapped. rewrite (proj1 (proj2 staged_frame)). by apply Hst.
  - intros b _ Hb. by apply Hst, staged_owned.
  - intros b Hb Hu. rewrite staged_in_use in Hu by lia.
    destruct (sg_used _ _ _ _ _ Hst b ltac:(lia) Hu) as [|Ho]; [by left|right].
    split; [by eapply staged_owns_alloc|by apply staged_owned].
  - intros b Hu Ha Hb. assert (Ho : owned D1 ipp' b).
    { apply Hst; [|done|done]. rewrite <-staged_in_use; [done|].
      pose proof (owned_range sb _ _ _ (fk_iwf _ _ (fo_file _ Hok i Ha)) Hb). lia. }
    split; [by eapply staged_owns_alloc|by apply staged_owned].
Qed.
End staged.

(** Every other file is as it was. *)
Definition others_same D D' (i : Z) : Prop :=
  forall j, j <> i -> allocated D j ->
    disk_inode sb D' j = disk_inode sb D j /\
    forall k, 0 <= k < fsize D j -> content D' j k = content D j k.

Lemma replaces_others D D' i : fs_ok D -> replaces D D' i -> others_same D D' i.
Proof.
  intros Hok Hr j Hne Ha. split; [apply Hr; [destruct Ha; lia|done]|].
  by apply (replaces_other _ _ _ _ Hok Hr Hne Ha).
Qed.

(** *** Writing *)

Lemma wrote_staged D ip ipp off tot f D1 ipp' :
  let ip' := set_size (Z.max (i_size ip) (off + tot)) ip in
  sb_ok sb -> disk_ok D -> fs_ok D -> clean D ip ipp -> 0 <= off <= i_size ip -> 0 <= tot ->
  off + tot <= MAXFILE * BSIZE -> wrote sb D ipp off tot f D1 ipp' ->
  staged D D1 (i_inum ip) ipp' (dinode_of ip' ipp').
Proof.
  intros ip' Hsb HD Hok Hc Ho Ht Hmax Hwr. pose proof (nmeta_pos sb Hsb).
  pose proof (clean_no_holes _ _ _ Hok Hc) as [Hsz Hmap].
  pose proof (cl_alloc _ _ _ Hc) as Ha.
  assert (HM : MAXFILE * BSIZE = 274432) by done.
  assert (Hown : forall b, owned D (ifile D (i_inum ip)) b <-> owned D ipp b)
    by (intros b; by apply owned_addrs, clean_addrs).
  pose proof (wr_grows _ _ _ _ _ _ _ _ Hwr) as Hg.
  split; try done; try exact (wr_iwf _ _ _ _ _ _ _ _ Hwr).
  - apply Ha.
  - apply Hg.
  - intros b Hb Hu Hn. split; [|apply (gr_use _ _ _ _ Hg); [lia|done]].
    apply (gr_data _ _ _ _ Hg); [done|done|]. intros Hb'. by apply (Hn Ha), Hown.
  - eapply (dinode_ok_update D D1 ip ipp); try done; [apply Hwr|apply Hwr|]. unfold word_ok. cbn. lia.
  - cbn. lia.
  - cbn. intros k Hk. destruct (decide (off <= k < off + tot)); [by apply Hwr|].
    eapply wrote_mapped; [done|lia|]. apply Hmap. lia.
  - intros b Hb. rewrite Hown. destruct (wr_owned _ _ _ _ _ _ _ _ Hwr b Hb); [left|right]; done.
  - apply Hwr.
  - intros b _ _ Hb. apply Hown in Hb. by eapply wrote_mono.
  - cbn. intros Hty. destruct Ha as [_ Hne]. rewrite (cl_inode _ _ _ Hc) in Hne. cbn in Hne. done.
Qed.

(** *** Truncating *)

Lemma empty_slots D ipp s : addrs ipp = replicate NADDRS 0 -> slot D ipp s = 0.
Proof.
  intros E. unfold slot. rewrite E.
  destruct (Nat.leb_spec s IND).
  - apply lookup_total_replicate_2. unfold NADDRS, NDIRECT. lia.
  - rewrite lookup_total_replicate_2 by (unfold NADDRS, NDIRECT; lia). done.
Qed.

Lemma empty_not_owned D ipp b : addrs ipp = replicate NADDRS 0 -> ~ owned D ipp b.
Proof. intros E (Hb & s & _ & Hs). rewrite empty_slots in Hs by done. congruence. Qed.

Lemma empty_iwf D ipp : addrs ipp = replicate NADDRS 0 -> xi_dev ipp = ROOTDEV -> iwf sb D ipp.
Proof.
  intros E Hd. split; [done|by rewrite E, length_replicate|].
  split; intros s; intros; by rewrite empty_slots in * by done.
Qed.

Lemma frees_staged D ip ipp D1 ipp' :
  sb_ok sb -> disk_ok D -> fs_ok D -> clean D ip ipp -> frees sb (owned D ipp) D D1 ->
  same_numbers ipp ipp' -> addrs ipp' = replicate NADDRS 0 ->
  staged D D1 (i_inum ip) ipp' (dinode_of (set_size 0 ip) ipp').
Proof.
  intros Hsb HD Hok Hc Hf Hn E. pose proof (nmeta_pos sb Hsb).
  pose proof (cl_alloc _ _ _ Hc) as Ha. pose proof (clean_iwf _ _ _ Hok Hc) as Hw.
  assert (Hown : forall b, owned D (ifile D (i_inum ip)) b <-> owned D ipp b)
    by (intros b; by apply owned_addrs, clean_addrs).
  assert (Hw' : iwf sb D1 ipp').
  { apply empty_iwf; [done|]. unfold same_numbers in Hn. rewrite <-(iw_dev _ _ _ Hw). congruence. }
  split; try done.
  - apply Ha.
  - intros b Hb. apply Hf. by left.
  - intros b Hb Hu Hno. split; [apply Hf; lia|]. apply Hf; [lia|]. split; [done|].
    intros Hb'. by apply (Hno Ha), Hown.
  - eapply (dinode_ok_update D D1 ip ipp); try done.
  - cbn. intros k Hk. lia.
  - intros b Hb. by apply empty_not_owned in Hb.
  - intros b Hb Hu. left. by apply (fr_use _ _ _ _ Hf) in Hu as [? _].
  - intros b Hu _ Hb. apply Hown in Hb. pose proof (owned_range sb _ _ _ Hw Hb).
    apply (fr_use _ _ _ _ Hf) in Hu as [_ ?]; [done|lia].
  - intros _ b. by apply empty_not_owned.
Qed.

(** *** Allocating *)

Lemma fresh_staged D i type :
  1 <= i < ninodes sb -> ~ allocated D i -> short_ok type ->
  staged D D i (dxi (fresh_dinode type)) (fresh_dinode type).
Proof.
  intros Hi Hna Ht.
  assert (E : addrs (dxi (fresh_dinode type)) = replicate NADDRS 0) by done.
  split; try done; try (by apply empty_iwf); auto.
  - split; try done. apply Forall_replicate. done.
  - cbn. intros k Hk. lia.
  - intros b Hb. by apply empty_not_owned in Hb.
  - intros _ b. by apply empty_not_owned.
Qed.
End fs.

(** ** The operations keep the file system consistent *)

Section ops.
Context {C U : Type} `{BL : BlockCacheLaws C} `{UL : UserMemLaws U}.
Context (sb : xv6fs_super_block).
Implicit Types (w : fsw C U) (c : C).

Lemma writei_fs ip ipp user src off n f w :
  let D := bc_disk (fw_cache w) in
  idle sb (fw_cache w) -> minv w -> fs_ok sb D -> clean sb D ip ipp ->
  0 <= off <= i_size ip -> 0 <= n -> off + n <= MAXFILE * BSIZE -> source user w src off n f ->
  exists tot ip' ipp' c',
    xv6fs_writei sb ip ipp user src off n w = Ok (tot, ip', ipp') (set_cache c' w) /\
    let D' := bc_disk c' in
    idle sb c' /\ 0 <= tot <= n /\ (tot < n -> disk_full sb D') /\
    fs_ok sb D' /\ clean sb D' ip' ipp' /\ i_size ip' = Z.max (i_size ip) (off + tot) /\
    (forall k, 0 <= k < i_size ip' ->
       content sb D' (i_inum ip) k =
       if decide (off <= k < off + tot) then f k else content sb D (i_inum ip) k) /\
    others_same sb D D' (i_inum ip).
Proof.
  intros D Hi Hm Hok Hc Ho Hn Hmax Hsrc. pose proof (id_sb _ _ Hi) as Hsb.
  pose proof (clean_no_holes _ _ _ _ Hok Hc) as [Hsz Hmap].
  pose proof (cl_alloc _ _ _ _ Hc) as [Hin Hty].
  pose proof (clean_iwf _ _ _ _ Hok Hc) as Hw.
  destruct (wp_elim _ _ _ (writei_wp sb ip ipp user src off n f w Hi Hm Hw
    (cl_dev _ _ _ _ Hc) ltac:(lia) Hsz Ho Hn Hmax Hsrc))
    as (r & w' & Hrun & tot & ipp' & c' & D1 & -> & -> & Ht & Hi' & Hfull & HD1 & Hwr & HD').
  set (ip' := set_size _ ip) in *. fold D in Hwr. pose proof (idle_disk_ok _ _ Hi) as HDok.
  assert (Hst : staged sb D D1 (i_inum ip) ipp' (dinode_of ip' ipp'))
    by (eapply wrote_staged; try done; lia).
  assert (Hrep : replaces sb D (iupdate_disk sb D1 (i_inum ip) (dinode_of ip' ipp')) (i_inum ip))
    by (by eapply staged_replaces).
  exists tot, ip', ipp', c'. split; [done|]. cbv zeta. rewrite HD'.
  split_and!; try done; try lia.
  - intros Hlt b Hb. rewrite iupdate_in_use by (done || lia). by apply Hfull.
  - by eapply replaces_ok.
  - eapply staged_clean; try done; [apply Hc|]. by rewrite (cl_inode _ _ _ _ Hc) in Hty.
  - intros k Hk. erewrite staged_content by done.
    unfold content. rewrite (fbyte_addrs _ _ ipp k (clean_addrs _ _ _ _ Hc)).
    destruct (decide (off <= k < off + tot)); [by apply Hwr|].
    change (i_size ip') with (Z.max (i_size ip) (off + tot)) in Hk.
    apply (wr_old _ _ _ _ _ _ _ _ Hwr); [lia|done|]. apply Hmap. lia.
  - by eapply replaces_others.
Qed.

(** Claim C1: writing to a file of a consistent file system puts exactly the
    source bytes at the requested offset, stores the whole request unless the
    disk runs full, grows the file when the write ends past its end, changes no
    other file, and leaves the file system consistent with the in-memory inode
    written back. *)
Theorem writei_consistent ip ipp user src off n f w :
  let D := bc_disk (fw_cache w) in
  idle sb (fw_cache w) -> minv w -> fs_ok sb D -> clean sb D ip ipp ->
  0 <= off <= i_size ip -> 0 <= n -> off + n <= MAXFILE * BSIZE -> source user w src off n f ->
  exists tot ip' ipp' w',
    xv6fs_writei sb ip ipp user src off n w = Ok (tot, ip', ipp') w' /\
    let D' := bc_disk (fw_cache w') in
    idle sb (fw_cache w') /\ 0 <= tot <= n /\ (tot < n -> disk_full sb D') /\
    fs_ok sb D' /\ clean sb D' ip' ipp' /\ i_size ip' = Z.max (i_size ip) (off + tot) /\
    (forall k, 0 <= k < i_size ip' ->
       content sb D' (i_inum ip) k =
       if decide (off <= k < off + tot) then f k else content sb D (i_inum ip) k) /\
    others_same sb D D' (i_inum ip).
Proof.
  intros D Hi Hm Hok Hc Ho Hn Hmax Hsrc.
  destruct (writei_fs ip ipp user src off n f w Hi Hm Hok Hc Ho Hn Hmax Hsrc)
    as (tot & ip' & ipp' & c' & Hrun & Hpost).
  by exists tot, ip', ipp', (set_cache c' w).
Qed.

(** Claim C7: reading from a file of a consistent file system delivers exactly
    the bytes of the file at the requested offset, as many as were asked for and
    the file has (none past the end or when offset plus length overflows), and
    changes neither the disk nor any other memory. *)
Theorem readi_content ip ipp user dst off n w :
  let D := bc_disk (fw_cache w) in
  let len := read_len (i_size ip) off n in
  idle sb (fw_cache w) -> minv w -> fs_ok sb D -> clean sb D ip ipp ->
  word_ok off -> word_ok n -> accessible user w dst len ->
  exists w',
    xv6fs_readi sb ip ipp user dst off n w = Ok (len, ipp) w' /\
    idle sb (fw_cache w') /\ bc_disk (fw_cache w') = D /\
    (forall a, mget (negb user) w' a = mget (negb user) w a) /\
    (forall a, mget user w' a =
       if decide (dst <= a < dst + len) then Some (content sb D (i_inum ip) (off + (a - dst)))
       else mget user w a).
Proof.
  intros D len Hi Hm Hok Hc Ho Hn Hacc.
  destruct (wp_elim _ _ _ (readi_wp sb ip ipp user dst off n w Hi Hm (clean_iwf _ _ _ _ Hok Hc)
    (clean_no_holes _ _ _ _ Hok Hc) (cl_dev _ _ _ _ Hc) Ho Hn Hacc))
    as (r & w' & Hrun & -> & Hi' & HD' & _ & Hneg & Hr).
  exists w'. split_and!; try done.
  { intros a. unfold mget. destruct user; cbn in *; by rewrite Hneg. }
  intros a. rewrite Hr. unfold content.
  by rewrite (fbyte_addrs _ (ifile sb D (i_inum ip)) ipp _ (clean_addrs _ _ _ _ Hc)).
Qed.

(** Claim C10: truncating a file of a consistent file system frees exactly the
    blocks it owned, leaves it empty with its inode written back, changes no
    other file and keeps the file system consistent. *)
Theorem itrunc_consistent ip ipp c :
  let D := bc_disk c in
  idle sb c -> fs_ok sb D -> clean sb D ip ipp ->
  exists ip' ipp' c', xv6fs_itrunc sb ip ipp c = Ok (ip', ipp') c' /\
    let D' := bc_disk c' in
    idle sb c' /\ fs_ok sb D' /\ clean sb D' ip' ipp' /\ i_size ip' = 0 /\
    (forall b, 0 <= b < size sb ->
       in_use sb D' b = true <-> in_use sb D b = true /\ ~ owned D ipp b) /\
    others_same sb D D' (i_inum ip).
Proof.
  intros D Hi Hok Hc. pose proof (id_sb _ _ Hi) as Hsb. pose proof (cl_alloc _ _ _ _ Hc) as [Hin Hty].
  pose proof (idle_disk_ok _ _ Hi) as HDok.
  destruct (wp_elim _ _ _ (itrunc_wp sb ip ipp c Hi (clean_iwf _ _ _ _ Hok Hc) (cl_dev _ _ _ _ Hc) ltac:(lia)))
    as ([ip' ipp'] & c' & Hrun & Hi' & E1 & Hnum & Hz & D1 & HD1 & Hf & HD'). cbn [fst snd] in *. subst ip'.
  assert (Hst : staged sb D D1 (i_inum ip) ipp' (dinode_of (set_size 0 ip) ipp'))
    by (by eapply frees_staged).
  assert (Hrep : replaces sb D (bc_disk c') (i_inum ip)) by (rewrite HD'; by eapply staged_replaces).
  exists (set_size 0 ip), ipp', c'. split; [done|]. cbv zeta. split_and!; try done.
  - by eapply replaces_ok.
  - rewrite HD'. eapply staged_clean; try done; [apply Hc|]. by rewrite (cl_inode _ _ _ _ Hc) in Hty.
  - intros b Hb. rewrite HD', iupdate_in_use by (done || lia). by apply Hf.
  - by eapply replaces_others.
Qed.

(** The search of [xv6fs_ialloc] takes the free inode with the lowest number and
    makes it an empty file of the requested type, changing no other file and
    keeping the file system consistent, or changes nothing when every inode is
    allocated. *)
Theorem ialloc_consistent type c :
  let D := bc_disk c in
  idle sb c -> fs_ok sb D -> short_ok type -> type <> 0 ->
  exists r c', ialloc_scan sb ROOTDEV type c = Ok r c' /\ idle sb c' /\
    let D' := bc_disk c' in
    match r with
    | None => D' = D /\ forall i, 1 <= i < ninodes sb -> allocated sb D i
    | Some i => 1 <= i < ninodes sb /\ ~ allocated sb D i /\
        (forall j, 1 <= j < i -> allocated sb D j) /\ fs_ok sb D' /\
        disk_inode sb D' i = fresh_dinode type /\ others_same sb D D' i
    end.
Proof.
  intros D Hi Hok Hty Hne. pose proof (id_sb _ _ Hi) as Hsb. pose proof (idle_disk_ok _ _ Hi) as HDok.
  pose proof (sbo_ninodes _ Hsb).
  destruct (wp_elim _ _ _ (ialloc_loop_wp sb (Z.to_nat (ninodes sb)) type 1 c Hi ltac:(lia) ltac:(lia)))
    as (r & c' & Hrun & Hi' & Hr). exists r, c'. split_and!; [done..|]. destruct r as [i|]; cbv zeta.
  - destruct Hr as (Hir & Hfree & Hlow & HD').
    assert (Hna : ~ allocated sb D i) by (intros [_ ?]; done).
    assert (Hst : staged sb D D i (dxi (fresh_dinode type)) (fresh_dinode type)) by (by apply fresh_staged).
    assert (Hrep : replaces sb D (bc_disk c') i) by (rewrite HD'; by eapply staged_replaces).
    split_and!; try done; try lia.
    + intros j Hj. split; [lia|by apply Hlow].
    + by eapply replaces_ok.
    + rewrite HD'. by eapply staged_self.
    + by eapply replaces_others.
  - destruct Hr as [HD' Hall]. split; [done|]. intros i Hir. split; [done|by apply Hall].
Qed.
End ops.

(** ** A small consistent file system *)

Definition root_dinode : dinode := {|
  d_type := T_DIR; d_major := 0; d_minor := 0; d_nlink := 1; d_size := 0;
  d_addrs := replicate NADDRS 0 |}.

(** The small disk with an empty root directory and an empty file, inode 2. *)
Definition ex_disk : gmap Z block :=
  iupdate_disk ex_sb (iupdate_disk ex_sb ex_raw 1 root_dinode) 2 (fresh_dinode T_FILE).

Lemma ex_free_inodes : forall i, 1 <= i < 16 -> ~ allocated ex_sb ex_raw i.
Proof.
  intros i Hi [_ Ht]. apply Ht.
  assert (Hall : forallb (fun i => d_type (disk_inode ex_sb ex_raw i) =? 0) (seqZ 1 15) = true)
    by (vm_compute; reflexivity).
  rewrite forallb_forall in Hall. apply Z.eqb_eq, Hall, list_elem_of_In, elem_of_seqZ. lia.
Qed.

Lemma ex_raw_fs_ok : fs_ok ex_sb ex_raw.
Proof.
  split.
  - intros i Ha. by apply (ex_free_inodes i (proj1 Ha)) in Ha.
  - intros i j b Ha. by apply (ex_free_inodes i (proj1 Ha)) in Ha.
  - intros b Hb Hu. change (nmeta ex_sb) with 5 in Hb. change (size ex_sb) with 40 in Hb.
    rewrite ex_raw_in_use in Hu by lia. apply Z.ltb_lt in Hu. lia.
Qed.

Lemma empty_staged sb D i di :
  1 <= i < ninodes sb -> ~ allocated sb D i -> dinode_ok di -> d_addrs di = replicate NADDRS 0 ->
  d_size di = 0 -> staged sb D D i (dxi di) di.
Proof.
  intros Hi Hna Hdi E Ez. assert (E' : addrs (dxi di) = replicate NADDRS 0) by done.
  split; try done; try (by apply empty_iwf); auto.
  - rewrite Ez. done.
  - rewrite Ez. intros k Hk. lia.
  - intros b Hb. by apply empty_not_owned in Hb.
  - intros _ b. by apply empty_not_owned.
Qed.

Lemma root_dinode_ok : dinode_ok root_dinode.
Proof.
  split; cbn [root_dinode d_type d_major d_minor d_nlink d_size d_addrs];
    try (unfold short_ok, word_ok, T_DIR; lia); [done|]. apply Forall_replicate. unfold word_ok. lia.
Qed.

Lemma fresh_dinode_ok type : short_ok type -> dinode_ok (fresh_dinode type).
Proof. intros Ht. split; try done. apply Forall_replicate. done. Qed.

Lemma ex_disk_ok : disk_ok ex_disk.
Proof.
  unfold ex_disk, iupdate_disk. apply disk_ok_insert; [apply disk_ok_insert; [apply ex_raw_ok|]|];
    (apply put_dinode_ok; [reflexivity|]).
  - apply ex_raw_ok.
  - apply disk_ok_insert; [apply ex_raw_ok|]. apply put_dinode_ok; [reflexivity|apply ex_raw_ok].
Qed.

Lemma ex_disk_fs_ok : fs_ok ex_sb ex_disk.
Proof.
  pose proof ex_sb_ok as Hsb.
  assert (Hst1 : staged ex_sb ex_raw ex_raw 1 (dxi root_dinode) root_dinode).
  { apply empty_staged; try done; [apply ex_free_inodes; lia|apply root_dinode_ok]. }
  assert (HD1 : disk_ok (iupdate_disk ex_sb ex_raw 1 root_dinode)).
  { apply disk_ok_insert; [apply ex_raw_ok|]. apply put_dinode_ok; [reflexivity|apply ex_raw_ok]. }
  assert (Hok1 : fs_ok ex_sb (iupdate_disk ex_sb ex_raw 1 root_dinode)).
  { eapply replaces_ok; [apply ex_raw_fs_ok|]. eapply staged_replaces; try done; [apply ex_raw_ok|apply ex_raw_fs_ok]. }
  eapply replaces_ok; [exact Hok1|]. eapply staged_replaces; try done.
  apply empty_staged; try done; [|by apply fresh_dinode_ok].
  intros [_ Ht]. apply Ht. vm_compute. reflexivity.
Qed.

Lemma ex_idle : idle ex_sb (Bio.boot ex_disk 1).
Proof.
  assert (Hm : mounted NBUF ex_sb (Bio.boot ex_disk 1))
    by (apply ex_mounted; [apply ex_disk_ok|vm_compute; reflexivity|done]).
  split; [apply Hm|apply ex_sb_ok|apply Hm|]. apply (Bio.boot_view ex_disk 1 ex_disk_ok).
Qed.

Lemma ex_disk_view : bc_disk (Bio.boot ex_disk 1) = ex_disk.
Proof. apply (Bio.boot_view ex_disk 1 ex_disk_ok). Qed.

(** Inode 2 in memory. *)
Definition ex_ip : inode := {|
  i_op := true; i_sb := true; i_inum := 2; i_ref := 1; i_lock := initsleeplock; i_type := T_FILE;
  i_dev := ROOTDEV; i_size := 0; i_nlink := 0; i_private := 0x80001000 |}.
Definition ex_ipp : xv6fs_inode := dxi (fresh_dinode T_FILE).

Lemma ex_clean : clean ex_sb ex_disk ex_ip ex_ipp.
Proof. repeat split; try done; vm_compute; congruence. Qed.

(** The machine with a kernel buffer of four bytes. *)
Definition ex_w : fsw Bio.bio unit :=
  {| fw_cache := Bio.boot ex_disk 1; fw_user := tt; fw_kbuf := [72; 105; 33; 10] |}.

Lemma ex_minv : minv ex_w.
Proof. split_and!; [done| |done]. cbn. repeat constructor; unfold byte_ok; lia. Qed.

Lemma ex_write_all :
  match xv6fs_writei ex_sb ex_ip ex_ipp false 0 0 4 ex_w with Ok (t, _, _) _ => t | Stop _ => -1 end = 4.
Proof. vm_compute. reflexivity. Qed.

Lemma ex_write_inum :
  match xv6fs_writei ex_sb ex_ip ex_ipp false 0 0 4 ex_w with Ok (_, ip, _) _ => i_inum ip | Stop _ => -1 end = 2.
Proof. vm_compute. reflexivity. Qed.

Lemma writei_consistent_witness :
  exists ip' ipp' w',
    xv6fs_writei ex_sb ex_ip ex_ipp false 0 0 4 ex_w = Ok (4, ip', ipp') w' /\
    fs_ok ex_sb (bc_disk (fw_cache w')) /\ i_size ip' = 4 /\
    content ex_sb (bc_disk (fw_cache w')) 2 1 = 105.
Proof.
  destruct (writei_consistent ex_sb ex_ip ex_ipp false 0 0 4
    (fun k => [72; 105; 33; 10] !!! Z.to_nat k) ex_w)
    as (tot & ip' & ipp' & w' & Hrun & _ & _ & _ & Hok & _ & Hsz & Hcont & _).
  - exact ex_idle.
  - exact ex_minv.
  - cbn [ex_w fw_cache]. rewrite ex_disk_view. exact ex_disk_fs_ok.
  - cbn [ex_w fw_cache]. rewrite ex_disk_view. exact ex_clean.
  - cbn. lia.
  - lia.
  - vm_compute. discriminate.
  - intros k Hk. assert (k = 0 \/ k = 1 \/ k = 2 \/ k = 3) as [->|[->|[->| ->]]] by lia; reflexivity.
  - pose proof ex_write_all as E. rewrite Hrun in E. subst tot.
    exists ip', ipp', w'. change (i_size ex_ip) with 0 in Hsz.
    split_and!; [exact Hrun|exact Hok|exact Hsz|]. rewrite Hcont by lia. reflexivity.
Defined.

(** The small file system after the four bytes of the kernel buffer were
    written to inode 2. *)
Lemma ex_written :
  exists ip' ipp' c',
    xv6fs_writei ex_sb ex_ip ex_ipp false 0 0 4 ex_w = Ok (4, ip', ipp') (set_cache c' ex_w) /\
    idle ex_sb c' /\ fs_ok ex_sb (bc_disk c') /\ clean ex_sb (bc_disk c') ip' ipp' /\
    i_size ip' = 4 /\ i_inum ip' = 2 /\
    forall k, 0 <= k < 4 -> content ex_sb (bc_disk c') 2 k = [72; 105; 33; 10] !!! Z.to_nat k.
Proof.
  destruct (writei_fs ex_sb ex_ip ex_ipp false 0 0 4
    (fun k => [72; 105; 33; 10] !!! Z.to_nat k) ex_w)
    as (tot & ip' & ipp' & c' & Hrun & Hi & _ & _ & Hok & Hc & Hsz & Hcont & _).
  - exact ex_idle.
  - exact ex_minv.
  - cbn [ex_w fw_cache]. rewrite ex_disk_view. exact ex_disk_fs_ok.
  - cbn [ex_w fw_cache]. rewrite ex_disk_view. exact ex_clean.
  - cbn. lia.
  - lia.
  - vm_compute. discriminate.
  - intros k Hk. assert (k = 0 \/ k = 1 \/ k = 2 \/ k = 3) as [->|[->|[->| ->]]] by lia; reflexivity.
  - pose proof ex_write_all as E. rewrite Hrun in E. subst tot.
    exists ip', ipp', c'. change (i_size ex_ip) with 0 in Hsz.
    split_and!; [exact Hrun|exact Hi|exact Hok|exact Hc|exact Hsz|..].
    + pose proof ex_write_inum as E. rewrite Hrun in E. exact E.
    + intros k Hk. rewrite Hcont by lia. by rewrite decide_True by lia.
Qed.

Lemma readi_content_witness :
  exists ip' ipp' w1 w2,
    xv6fs_readi ex_sb ip' ipp' false 0 1 9 w1 = Ok (3, ipp') w2 /\
    mget false w2 0 = Some 105 /\ mget false w2 2 = Some 10 /\ mget false w2 3 = Some 10.
Proof.
  destruct ex_written as (ip' & ipp' & c' & _ & Hi & Hok & Hc & Hsz & Hin & Hcont).
  destruct (readi_content ex_sb ip' ipp' false 0 1 9 (set_cache c' ex_w)) as (w2 & Hrun & _ & _ & _ & Hget).
  - exact Hi.
  - exact ex_minv.
  - exact Hok.
  - exact Hc.
  - unfold word_ok; lia.
  - unfold word_ok; lia.
  - rewrite Hsz. intros a Ha. change (read_len 4 1 9) with 3 in Ha.
    assert (a = 0 \/ a = 1 \/ a = 2) as [->|[->| ->]] by lia; eexists; reflexivity.
  - rewrite Hsz, Hin in *. change (read_len 4 1 9) with 3 in *. exists ip', ipp', (set_cache c' ex_w), w2.
    cbn [fw_cache set_cache] in Hget.
    split_and!; [exact Hrun|..]; rewrite Hget; [rewrite decide_True, Hcont by lia..|]; reflexivity.
Defined.

Lemma itrunc_consistent_witness :
  exists ip' ipp' c', xv6fs_itrunc ex_sb ex_ip ex_ipp (Bio.boot ex_disk 1) = Ok (ip', ipp') c' /\
    fs_ok ex_sb (bc_disk c') /\ i_size ip' = 0.
Proof.
  destruct (itrunc_consistent ex_sb ex_ip ex_ipp (Bio.boot ex_disk 1))
    as (ip' & ipp' & c' & Hrun & _ & Hok & _ & Hsz & _).
  - exact ex_idle.
  - rewrite ex_disk_view. exact ex_disk_fs_ok.
  - rewrite ex_disk_view. exact ex_clean.
  - exists ip', ipp', c'. split_and!; [exact Hrun|exact Hok|exact Hsz].
Defined.

Lemma ialloc_consistent_witness :
  exists c', ialloc_scan ex_sb ROOTDEV T_FILE (Bio.boot ex_disk 1) = Ok (Some 3) c' /\
    fs_ok ex_sb (bc_disk c') /\ disk_inode ex_sb (bc_disk c') 3 = fresh_dinode T_FILE.
Proof.
  assert (H3 : ~ allocated ex_sb ex_disk 3) by (intros [_ Ht]; apply Ht; vm_compute; reflexivity).
  destruct (ialloc_consistent ex_sb T_FILE (Bio.boot ex_disk 1)) as (r & c' & Hrun & _ & Hr).
  - exact ex_idle.
  - rewrite ex_disk_view. exact ex_disk_fs_ok.
  - unfold short_ok, T_FILE. lia.
  - discriminate.
  - rewrite ex_disk_view in Hr. cbv zeta in Hr. destruct r as [i|].
    + destruct Hr as (Hi & Hn & Hlow & Hok & Hin & _). assert (i = 3) as ->.
      { destruct (decide (i < 3)) as [Hlt|].
        - exfalso. apply Hn. assert (i = 1 \/ i = 2) as [->| ->] by lia;
            (split; [cbn; lia|vm_compute; discriminate]).
        - destruct (decide (i = 3)); [done|]. exfalso. apply H3, Hlow. lia. }
      exists c'. split_and!; [exact Hrun|exact Hok|exact Hin].
    + exfalso. apply H3, Hr. cbn. lia.
Defined.
