(* ===== verification/Cstring.v ===== *)
(** * String and memory functions (kernel/string.c)

    Memory is a list of bytes and a pointer an index into it; a read past the
    end gives 0.  The loops are transcribed with the count as fuel, since every
    one of them counts [n] down. *)

From S2P Require Import Prelude.

Local Open Scope nat_scope.

(** ** Memory operations *)

(** [for(i = 0; i < n; i++) cdst[i] = c] *)
Fixpoint memset_loop (n i : nat) (dst : nat) (c : Z) (m : list Z) : list Z :=
  match n with
  | O => m
  | S n => memset_loop n (S i) dst c (<[dst + i := u8 c]> m)
  end.

Definition memset (m : list Z) (dst : nat) (c : Z) (n : nat) : list Z := memset_loop n 0 dst c m.

Fixpoint memcmp (s1 s2 : list Z) (n : nat) : Z :=
  match n with
  | O => 0%Z
  | S n =>
      if negb (hd 0%Z s1 =? hd 0%Z s2)%Z then (hd 0 s1 - hd 0 s2)%Z
      else memcmp (tl s1) (tl s2) n
  end.

(** [while(n-- > 0) *d++ = *s++] and [while(n-- > 0) *--d = *--s] *)
Fixpoint copy_up (n d s : nat) (m : list Z) : list Z :=
  match n with
  | O => m
  | S n => copy_up n (S d) (S s) (<[d := m !!! s]> m)
  end.

Fixpoint copy_down (n d s : nat) (m : list Z) : list Z :=
  match n with
  | O => m
  | S n => copy_down n (d - 1) (s - 1) (<[d - 1 := m !!! (s - 1)]> m)
  end.

Definition memmove (m : list Z) (dst src n : nat) : list Z :=
  if n =? 0 then m
  else if (src <? dst) && (dst <? src + n) then copy_down n (dst + n) (src + n) m
  else copy_up n dst src m.

Definition memcpy (m : list Z) (dst src n : nat) : list Z := memmove m dst src n.

(** ** Strings *)

Fixpoint strncmp (p q : list Z) (n : nat) : Z :=
  match n with
  | O => 0%Z
  | S n' =>
      if negb (hd 0%Z p =? 0)%Z && (hd 0%Z p =? hd 0%Z q)%Z then strncmp (tl p) (tl q) n'
      else (hd 0 p - hd 0 q)%Z
  end.

(** The [n] bytes [strncpy] stores: the string with its nul, then nuls. *)
Fixpoint strncpy (t : list Z) (n : nat) : list Z :=
  match n with
  | O => []
  | S n =>
      if (hd 0%Z t =? 0)%Z then 0%Z :: replicate n 0%Z
      else hd 0%Z t :: strncpy (tl t) n
  end.

(** The bytes [safestrcpy] stores when [n > 0]: at most [n - 1] characters and
    a nul. *)
Fixpoint safestrcpy_loop (t : list Z) (n : nat) : list Z :=
  match n with
  | O => [0%Z]
  | S n =>
      if (hd 0%Z t =? 0)%Z then [0%Z; 0%Z]
      else hd 0%Z t :: safestrcpy_loop (tl t) n
  end.

Definition safestrcpy (t : list Z) (n : nat) : list Z :=
  match n with
  | O => []
  | S n => safestrcpy_loop t n
  end.

(** The characters before the nul. *)
Fixpoint cstr (s : list Z) : list Z :=
  match s with
  | [] => []
  | c :: s => if (c =? 0)%Z then [] else c :: cstr s
  end.

Fixpoint strlen (s : list Z) : nat :=
  match s with
  | [] => 0
  | c :: s => if (c =? 0)%Z then 0 else S (strlen s)
  end.

(** ** Copies *)

Lemma memset_loop_lookup n i dst c m j :
  dst + i + n <= length m ->
  memset_loop n i dst c m !! j =
  if decide (dst + i <= j < dst + i + n) then Some (u8 c) else m !! j.
Proof.
  revert i m. induction n as [|n IH]; intros i m Hl; cbn [memset_loop].
  - by rewrite decide_False by lia.
  - rewrite IH by (rewrite length_insert; lia).
    destruct (decide (j = dst + i)) as [->|Hne].
    + rewrite decide_False, decide_True by lia. by rewrite list_lookup_insert_eq by lia.
    + rewrite list_lookup_insert_ne by done.
      destruct (decide (dst + S i <= j < dst + S i + n)), (decide (dst + i <= j < dst + i + S n)); done || lia.
Qed.

Lemma copy_up_lookup n d s m j :
  d + n <= length m -> s + n <= length m -> d <= s \/ s + n <= d ->
  copy_up n d s m !! j = if decide (d <= j < d + n) then m !! (s + (j - d)) else m !! j.
Proof.
  revert d s m. induction n as [|n IH]; intros d s m Hd Hs Ho; cbn [copy_up].
  - by rewrite decide_False by lia.
  - rewrite IH by (rewrite ?length_insert; lia).
    destruct (decide (j = d)) as [->|Hne].
    + rewrite decide_False, decide_True by lia. rewrite list_lookup_insert_eq by lia.
      rewrite Nat.sub_diag, Nat.add_0_r. by rewrite list_lookup_lookup_total_lt by lia.
    + destruct (decide (S d <= j < S d + n)), (decide (d <= j < d + S n)); try lia.
      * rewrite list_lookup_insert_ne by lia. f_equal. lia.
      * by rewrite list_lookup_insert_ne.
Qed.

Lemma copy_down_lookup n d s m j :
  n <= s -> s < d -> d <= length m ->
  copy_down n d s m !! j = if decide (d - n <= j < d) then m !! (s - n + (j - (d - n))) else m !! j.
Proof.
  revert d s m. induction n as [|n IH]; intros d s m Hs Hsd Hd; cbn [copy_down].
  - by rewrite decide_False by lia.
  - rewrite IH by (rewrite ?length_insert; lia).
    destruct (decide (j = d - 1)) as [->|Hne].
    + rewrite decide_False, decide_True by lia. rewrite list_lookup_insert_eq by lia.
      rewrite <-list_lookup_lookup_total_lt by lia. f_equal. lia.
    + destruct (decide (d - 1 - n <= j < d - 1)), (decide (d - S n <= j < d)); try lia.
      * rewrite list_lookup_insert_ne by lia. f_equal. lia.
      * by rewrite list_lookup_insert_ne.
Qed.

Lemma lookup_splice_slice (m : list Z) dst src n j :
  dst + n <= length m -> src + n <= length m ->
  splice dst (slice src n m) m !! j =
  if decide (dst <= j < dst + n) then m !! (src + (j - dst)) else m !! j.
Proof.
  intros Hd Hs. pose proof (slice_length src n m Hs) as Hl. destruct (decide _).
  - rewrite lookup_splice_new by lia. by rewrite lookup_slice by lia.
  - by rewrite lookup_splice_old by lia.
Qed.

(** [memmove] stores a copy of the source region as it was before
    the call at the destination and changes no other byte, also when the two
    regions overlap in either direction. *)
Theorem memmove_copies (m : list Z) (dst src n : nat) :
  dst + n <= length m -> src + n <= length m ->
  memmove m dst src n = splice dst (slice src n m) m.
Proof.
  intros Hd Hs. apply list_eq. intros j. rewrite lookup_splice_slice by done. unfold memmove.
  destruct (Nat.eqb_spec n 0) as [->|Hn]; [by rewrite decide_False by lia|].
  destruct ((src <? dst) && (dst <? src + n)) eqn:E.
  - apply andb_prop in E as [E1%Nat.ltb_lt E2%Nat.ltb_lt].
    rewrite copy_down_lookup by lia.
    destruct (decide (dst + n - n <= j < dst + n)), (decide (dst <= j < dst + n)); try lia; [|done].
    f_equal. lia.
  - apply andb_false_iff in E as [E%Nat.ltb_ge|E%Nat.ltb_ge]; rewrite copy_up_lookup by lia; done.
Qed.

Lemma memmove_copies_witness :
  memmove [1; 2; 3; 4; 5]%Z 1 0 3 = [1; 1; 2; 3; 5]%Z /\
  memmove [1; 2; 3; 4; 5]%Z 0 2 3 = [3; 4; 5; 4; 5]%Z.
Proof.
  split; (rewrite memmove_copies; [reflexivity|cbn; lia|cbn; lia]).
Defined.

(** ** Strings *)

Lemma strlen_cstr s : strlen s = length (cstr s).
Proof. induction s as [|c s IH]; [done|]. cbn. destruct (c =? 0)%Z; cbn; auto. Qed.

Lemma cstr_tl p : hd 0%Z p <> 0%Z -> cstr p = hd 0%Z p :: cstr (tl p).
Proof. destruct p as [|c p]; [done|]. cbn. intros Hc. by destruct (Z.eqb_spec c 0). Qed.

Lemma cstr_nil p : hd 0%Z p = 0%Z -> cstr p = [].
Proof. destruct p as [|c p]; [done|]. cbn. by intros ->. Qed.

Lemma strncmp_zero p q n : strncmp p q n = 0%Z <-> take n (cstr p) = take n (cstr q).
Proof.
  revert p q. induction n as [|n IH]; intros p q; cbn [strncmp]; [done|].
  destruct (Z.eqb_spec (hd 0%Z p) 0) as [Hp|Hp]; cbn [negb andb].
  - rewrite (cstr_nil p Hp), Hp. destruct (Z.eqb_spec (hd 0%Z q) 0) as [Hq|Hq].
    + rewrite (cstr_nil q Hq), Hq. done.
    + rewrite (cstr_tl q Hq). cbn. split; [lia|done].
  - rewrite (cstr_tl p Hp). destruct (Z.eqb_spec (hd 0%Z p) (hd 0%Z q)) as [Heq|Hne].
    + rewrite IH, Heq, (cstr_tl q) by congruence. cbn. split; [by intros ->|congruence].
    + split; [lia|]. destruct (decide (hd 0%Z q = 0%Z)) as [Hq|Hq].
      * by rewrite (cstr_nil q Hq).
      * rewrite (cstr_tl q Hq). cbn. intros [= ? _]. done.
Qed.

Lemma strncpy_length t n : length (strncpy t n) = n.
Proof.
  revert t. induction n as [|n IH]; intros t; cbn; [done|].
  destruct (_ =? _)%Z; cbn; [by rewrite length_replicate|by rewrite IH].
Qed.

Lemma cstr_strncpy t n : cstr (strncpy t n) = take n (cstr t).
Proof.
  revert t. induction n as [|n IH]; intros t; cbn [strncpy]; [by rewrite take_0|].
  destruct (Z.eqb_spec (hd 0%Z t) 0) as [Ht|Ht].
  - by rewrite (cstr_nil t Ht).
  - rewrite (cstr_tl t Ht). cbn [cstr]. destruct (Z.eqb_spec (hd 0%Z t) 0); [done|].
    cbn [take]. by rewrite IH.
Qed.

Lemma strncpy_cstr t n : strncpy (cstr t) n = strncpy t n.
Proof.
  revert t. induction n as [|n IH]; intros t; cbn [strncpy]; [done|].
  destruct (Z.eqb_spec (hd 0%Z t) 0) as [Ht|Ht].
  - by rewrite (cstr_nil t Ht).
  - rewrite (cstr_tl t Ht). cbn [hd tl]. destruct (Z.eqb_spec (hd 0%Z t) 0); [done|]. by rewrite IH.
Qed.

Lemma strncpy_take t n : strncpy (take n t) n = strncpy t n.
Proof.
  revert t. induction n as [|n IH]; intros t; cbn [strncpy]; [done|].
  destruct t as [|c t]; [done|]. cbn [take hd tl]. by rewrite IH.
Qed.

Lemma strncpy_idemp t n : strncpy (strncpy t n) n = strncpy t n.
Proof. by rewrite <-strncpy_cstr, cstr_strncpy, strncpy_take, strncpy_cstr. Qed.

Lemma strncpy_bytes t n : Forall byte_ok t -> Forall byte_ok (strncpy t n).
Proof.
  assert (H0 : byte_ok 0) by (unfold byte_ok; lia).
  revert t. induction n as [|n IH]; intros t Ht; cbn [strncpy]; [constructor|].
  destruct (_ =? _)%Z; constructor; auto.
  - by apply Forall_replicate.
  - destruct Ht; done.
  - apply IH. destruct Ht; cbn; auto.
Qed.

(** [safestrcpy] into a buffer of [n > 0] bytes never writes past
    the buffer and always leaves a nul-terminated string there: the first
    [n - 1] characters of the source. *)
Theorem safestrcpy_terminates (t : list Z) (n : nat) :
  length (safestrcpy t (S n)) <= S n /\
  cstr (safestrcpy t (S n)) = take n (cstr t) /\
  0%Z ∈ safestrcpy t (S n).
Proof.
  cbn [safestrcpy]. revert t. induction n as [|n IH]; intros t; cbn [safestrcpy_loop].
  - rewrite take_0. split_and!; [cbn; lia|done|by left].
  - destruct (Z.eqb_spec (hd 0%Z t) 0) as [Ht|Ht].
    + rewrite (cstr_nil t Ht). split_and!; [cbn; lia|done|by left].
    + destruct (IH (tl t)) as (Hl & Hc & Hin). rewrite (cstr_tl t Ht). split_and!.
      * cbn. lia.
      * cbn. destruct (Z.eqb_spec (hd 0%Z t) 0); [done|]. by rewrite Hc.
      * by right.
Qed.
