(* ===== verification/VfsState.v ===== *)
(** * Kernel file-system state (kernel/fs/vfs.c, vfs.h)

    The in-memory tables of the virtual file system and the memory its code
    touches: the buffer cache, the calling process's memory, the page
    allocator, the pages that hold [struct xv6fs_inode]s, the inode table, the
    file table and the calling process's descriptors. *)

From S2P Require Import Prelude Sleeplock Layout Kalloc BlockCache Blocks Inode UserMem FileIO.

(** [struct file]; [f_op] tells whether the operations pointer is set. *)
Inductive fdtype : Type := FD_NONE | FD_PIPE | FD_INODE | FD_DEVICE.

Record file : Type := {
  f_type : fdtype;
  f_op : bool;
  f_ref : Z;
  f_off : Z;
  f_readable : bool;
  f_writable : bool;
  f_inode : option nat;
}.

#[global] Instance fdtype_eq_dec : EqDecision fdtype.
Proof. solve_decision. Defined.

Definition inode0 : inode := {|
  i_op := false; i_sb := false; i_inum := 0; i_ref := 0; i_lock := initsleeplock;
  i_type := 0; i_dev := 0; i_size := 0; i_nlink := 0; i_private := 0 |}.
Definition file0 : file := {|
  f_type := FD_NONE; f_op := false; f_ref := 0; f_off := 0; f_readable := false;
  f_writable := false; f_inode := None |}.

#[global] Instance inode_inhabited : Inhabited inode := populate inode0.
#[global] Instance file_inhabited : Inhabited file := populate file0.

Definition set_fref (r : Z) (f : file) : file :=
  {| f_type := f_type f; f_op := f_op f; f_ref := r; f_off := f_off f;
     f_readable := f_readable f; f_writable := f_writable f; f_inode := f_inode f |}.
Definition set_ftype (t : fdtype) (f : file) : file :=
  {| f_type := t; f_op := f_op f; f_ref := f_ref f; f_off := f_off f;
     f_readable := f_readable f; f_writable := f_writable f; f_inode := f_inode f |}.
Definition set_fop (o : bool) (f : file) : file :=
  {| f_type := f_type f; f_op := o; f_ref := f_ref f; f_off := f_off f;
     f_readable := f_readable f; f_writable := f_writable f; f_inode := f_inode f |}.
Definition set_foff (o : Z) (f : file) : file :=
  {| f_type := f_type f; f_op := f_op f; f_ref := f_ref f; f_off := o;
     f_readable := f_readable f; f_writable := f_writable f; f_inode := f_inode f |}.
Definition set_fopen (ino : nat) (r w : bool) (f : file) : file :=
  {| f_type := f_type f; f_op := f_op f; f_ref := f_ref f; f_off := f_off f;
     f_readable := r; f_writable := w; f_inode := Some ino |}.

(** [struct dentry]: a page of its own and a page behind [private]; what is
    kept in the latter is either a [uint] or a string. *)
Record dentry : Type := {
  de_page : Z;
  de_inode : option nat;
  de_name : list Z;
  de_private : Z;
  de_uint : Z;
  de_str : list Z;
}.

(** The first word of a page fresh from [kalloc], which fills it with 5. *)
Definition junk32 : Z := 0x05050505.

(** The devices behind [devsw[CONSOLE]]: their state and their entry points,
    which take [user], an address and a count. *)
Class Devsw (U V : Type) : Type := {
  dev_read : Z -> Z -> Z -> M (V * U) Z;
  dev_write : Z -> Z -> Z -> M (V * U) Z;
}.

(** [root], when it is set: the index of [root->root] in the inode table. *)
Record kst (C U V : Type) : Type := {
  ks_cache : C;
  ks_user : U;
  ks_dev : V;
  ks_km : Kalloc.kmem;
  ks_sb : xv6fs_super_block;
  ks_priv : gmap Z xv6fs_inode;
  ks_itab : list inode;
  ks_ftab : list file;
  ks_root : option nat;
  ks_pid : Z;
  ks_sz : Z;
  ks_args : list Z;
  ks_cwd : nat;
  ks_ofile : list (option nat);
}.
Arguments ks_cache {C U V}. Arguments ks_user {C U V}. Arguments ks_dev {C U V}.
Arguments ks_km {C U V}. Arguments ks_sb {C U V}. Arguments ks_priv {C U V}.
Arguments ks_itab {C U V}. Arguments ks_ftab {C U V}. Arguments ks_root {C U V}.
Arguments ks_pid {C U V}. Arguments ks_sz {C U V}. Arguments ks_args {C U V}.
Arguments ks_cwd {C U V}. Arguments ks_ofile {C U V}.

Section State.
Context {C U V : Type}.
Notation K := (kst C U V).

Definition with_cache (c : C) (k : K) : K :=
  {| ks_cache := c; ks_user := ks_user k; ks_dev := ks_dev k; ks_km := ks_km k; ks_sb := ks_sb k;
     ks_priv := ks_priv k; ks_itab := ks_itab k; ks_ftab := ks_ftab k; ks_root := ks_root k;
     ks_pid := ks_pid k; ks_sz := ks_sz k; ks_args := ks_args k; ks_cwd := ks_cwd k;
     ks_ofile := ks_ofile k |}.
Definition with_user (u : U) (k : K) : K :=
  {| ks_cache := ks_cache k; ks_user := u; ks_dev := ks_dev k; ks_km := ks_km k; ks_sb := ks_sb k;
     ks_priv := ks_priv k; ks_itab := ks_itab k; ks_ftab := ks_ftab k; ks_root := ks_root k;
     ks_pid := ks_pid k; ks_sz := ks_sz k; ks_args := ks_args k; ks_cwd := ks_cwd k;
     ks_ofile := ks_ofile k |}.
Definition with_dev (v : V) (k : K) : K :=
  {| ks_cache := ks_cache k; ks_user := ks_user k; ks_dev := v; ks_km := ks_km k; ks_sb := ks_sb k;
     ks_priv := ks_priv k; ks_itab := ks_itab k; ks_ftab := ks_ftab k; ks_root := ks_root k;
     ks_pid := ks_pid k; ks_sz := ks_sz k; ks_args := ks_args k; ks_cwd := ks_cwd k;
     ks_ofile := ks_ofile k |}.
Definition with_km (m : Kalloc.kmem) (k : K) : K :=
  {| ks_cache := ks_cache k; ks_user := ks_user k; ks_dev := ks_dev k; ks_km := m; ks_sb := ks_sb k;
     ks_priv := ks_priv k; ks_itab := ks_itab k; ks_ftab := ks_ftab k; ks_root := ks_root k;
     ks_pid := ks_pid k; ks_sz := ks_sz k; ks_args := ks_args k; ks_cwd := ks_cwd k;
     ks_ofile := ks_ofile k |}.
Definition with_sb (sb : xv6fs_super_block) (k : K) : K :=
  {| ks_cache := ks_cache k; ks_user := ks_user k; ks_dev := ks_dev k; ks_km := ks_km k; ks_sb := sb;
     ks_priv := ks_priv k; ks_itab := ks_itab k; ks_ftab := ks_ftab k; ks_root := ks_root k;
     ks_pid := ks_pid k; ks_sz := ks_sz k; ks_args := ks_args k; ks_cwd := ks_cwd k;
     ks_ofile := ks_ofile k |}.
Definition with_priv (p : gmap Z xv6fs_inode) (k : K) : K :=
  {| ks_cache := ks_cache k; ks_user := ks_user k; ks_dev := ks_dev k; ks_km := ks_km k; ks_sb := ks_sb k;
     ks_priv := p; ks_itab := ks_itab k; ks_ftab := ks_ftab k; ks_root := ks_root k;
     ks_pid := ks_pid k; ks_sz := ks_sz k; ks_args := ks_args k; ks_cwd := ks_cwd k;
     ks_ofile := ks_ofile k |}.
Definition with_itab (t : list inode) (k : K) : K :=
  {| ks_cache := ks_cache k; ks_user := ks_user k; ks_dev := ks_dev k; ks_km := ks_km k; ks_sb := ks_sb k;
     ks_priv := ks_priv k; ks_itab := t; ks_ftab := ks_ftab k; ks_root := ks_root k;
     ks_pid := ks_pid k; ks_sz := ks_sz k; ks_args := ks_args k; ks_cwd := ks_cwd k;
     ks_ofile := ks_ofile k |}.
Definition with_ftab (t : list file) (k : K) : K :=
  {| ks_cache := ks_cache k; ks_user := ks_user k; ks_dev := ks_dev k; ks_km := ks_km k; ks_sb := ks_sb k;
     ks_priv := ks_priv k; ks_itab := ks_itab k; ks_ftab := t; ks_root := ks_root k;
     ks_pid := ks_pid k; ks_sz := ks_sz k; ks_args := ks_args k; ks_cwd := ks_cwd k;
     ks_ofile := ks_ofile k |}.
Definition with_root (r : option nat) (k : K) : K :=
  {| ks_cache := ks_cache k; ks_user := ks_user k; ks_dev := ks_dev k; ks_km := ks_km k; ks_sb := ks_sb k;
     ks_priv := ks_priv k; ks_itab := ks_itab k; ks_ftab := ks_ftab k; ks_root := r;
     ks_pid := ks_pid k; ks_sz := ks_sz k; ks_args := ks_args k; ks_cwd := ks_cwd k;
     ks_ofile := ks_ofile k |}.
Definition with_cwd (i : nat) (k : K) : K :=
  {| ks_cache := ks_cache k; ks_user := ks_user k; ks_dev := ks_dev k; ks_km := ks_km k; ks_sb := ks_sb k;
     ks_priv := ks_priv k; ks_itab := ks_itab k; ks_ftab := ks_ftab k; ks_root := ks_root k;
     ks_pid := ks_pid k; ks_sz := ks_sz k; ks_args := ks_args k; ks_cwd := i;
     ks_ofile := ks_ofile k |}.
Definition with_ofile (o : list (option nat)) (k : K) : K :=
  {| ks_cache := ks_cache k; ks_user := ks_user k; ks_dev := ks_dev k; ks_km := ks_km k; ks_sb := ks_sb k;
     ks_priv := ks_priv k; ks_itab := ks_itab k; ks_ftab := ks_ftab k; ks_root := ks_root k;
     ks_pid := ks_pid k; ks_sz := ks_sz k; ks_args := ks_args k; ks_cwd := ks_cwd k;
     ks_ofile := o |}.

Definition nd_inode (k : K) (i : nat) : inode := ks_itab k !!! i.
Definition nd_file (k : K) (f : nat) : file := ks_ftab k !!! f.

(** Update one inode or file in place. *)
Definition upd_inode (i : nat) (g : inode -> inode) : M K unit :=
  modify (fun k => with_itab (alter g i (ks_itab k)) k).
Definition upd_file (f : nat) (g : file -> file) : M K unit :=
  modify (fun k => with_ftab (alter g f (ks_ftab k)) k).

(** Component operations on the larger state. *)
Definition onCache {A} (m : M C A) : M K A := lift ks_cache with_cache m.
Definition onKm {A} (m : M Kalloc.kmem A) : M K A := lift ks_km with_km m.
Definition onDev {A} (m : M (V * U) A) : M K A :=
  lift (fun k => (ks_dev k, ks_user k)) (fun vu k => with_dev vu.1 (with_user vu.2 k)) m.

(** Run a transfer with the local variable [kb] as the kernel buffer; the
    buffer afterwards is returned. *)
Definition onIO {A} (kb : list Z) (m : M (fsw C U) A) : M K (A * list Z) :=
  fun k =>
    match m {| fw_cache := ks_cache k; fw_user := ks_user k; fw_kbuf := kb |} with
    | Ok a w => Ok (a, fw_kbuf w) (with_user (fw_user w) (with_cache (fw_cache w) k))
    | Stop e => Stop e
    end.

End State.
