(* ===== verification/Vfs.v ===== *)
(** * Inodes, directories and path names (kernel/fs/vfs.c, xv6fs/fs.c)

    The operations of [vfs.c] and the directory part of [fs.c] on the kernel
    state of [VfsState.v].  Inodes and files are indices into their tables; a
    null inode or file pointer is [None].  Dereferencing a null pointer, or a
    page that is not there, stops with [SFault]. *)

From S2P Require Import Prelude Sleeplock Layout Kalloc BlockCache Blocks Inode UserMem FileIO Cstring VfsState.

(** ** Names *)

Definition DIRSIZ : nat := 14.
Definition DENTRY_SIZE : Z := 16.
Definition slash : Z := 47.

(** [struct xv6fs_dentry] *)
Definition dent_inum (kb : list Z) : Z := le_dec (slice 0 2 kb).
Definition dent_name (kb : list Z) : list Z := slice 2 DIRSIZ kb.
Definition dent_bytes (inum : Z) (name : list Z) : list Z := le_enc 2 inum ++ name.

Definition namecmp (s t : list Z) : Z := strncmp s t DIRSIZ.

(** The loop that skips slashes. *)
Fixpoint skip_slashes (path : list Z) : list Z :=
  match path with
  | c :: rest => if c =? slash then skip_slashes rest else path
  | [] => []
  end.

(** The loop up to the next slash or the nul: the element and the rest. *)
Fixpoint path_elem (path : list Z) : list Z * list Z :=
  match path with
  | c :: rest =>
      if c =? slash then ([], path)
      else let '(e, r) := path_elem rest in (c :: e, r)
  | [] => ([], [])
  end.

(** The rest of the path and the contents of [name]; [None] is the result 0.
    A path is the characters before its nul. *)
Definition skipelem (path name : list Z) : option (list Z * list Z) :=
  let path := skip_slashes path in
  match path with
  | [] => None
  | _ =>
      let '(s, rest) := path_elem path in
      let len := length s in
      let name :=
        if (DIRSIZ <=? len)%nat then splice 0 (take DIRSIZ s) name
        else splice 0 (s ++ [0]) name in
      Some (skip_slashes rest, name)
  end.

Section Vfs.
Context {C U V : Type} `{BC : BlockCache C} `{UM : UserMem U}.
(** [end] of the kernel image, for [kfree]'s check. *)
Context (kend : Z).
Notation K := (kst C U V).

Definition kalloc : M K Z := onKm Kalloc.kalloc.
Definition kfree (pa : Z) : M K unit := onKm (Kalloc.kfree kend pa).

Definition inode_at (i : nat) : M K inode := gets (fun k => nd_inode k i).

(** The [xv6fs_inode] that [ip->private] points to. *)
Definition priv (i : nat) : M K xv6fs_inode :=
  fun k => match ks_priv k !! i_private (nd_inode k i) with
           | Some x => Ok x k
           | None => Stop (SFault "private")
           end.
Definition set_priv (i : nat) (x : xv6fs_inode) : M K unit :=
  modify (fun k => with_priv (<[i_private (nd_inode k i) := x]> (ks_priv k)) k).

(** [ip->op->...] *)
Definition need_op (i : nat) : M K unit :=
  ip <- inode_at i ;;
  if i_op ip then ret tt else halt (SFault "op").

(** ** The inode table *)

Definition iinit : M K unit :=
  modify (fun k => with_itab (map (set_lock initsleeplock) (ks_itab k)) k).

(** The scan of [iget] from index [i] on: a live match, or the first slot
    with [ref == 0] seen. *)
Fixpoint iget_scan (l : list inode) (i : nat) (empty : option nat) (dev inum : Z)
    : nat + option nat :=
  match l with
  | [] => inr empty
  | ip :: l =>
      if (0 <? i_ref ip) && (i_dev ip =? dev) && (i_inum ip =? inum) then inl i
      else iget_scan l (S i)
             (match empty with
              | Some e => Some e
              | None => if i_ref ip =? 0 then Some i else None
              end) dev inum
  end.

Definition iget_take (dev inum : Z) (ip : inode) : inode := {|
  i_op := true; i_sb := i_sb ip; i_inum := inum; i_ref := 1; i_lock := i_lock ip;
  i_type := i_type ip; i_dev := dev; i_size := i_size ip; i_nlink := i_nlink ip;
  i_private := 0 |}.

Definition iget (dev inum : Z) : M K nat :=
  tab <- gets ks_itab ;;
  match iget_scan tab 0 None dev inum with
  | inl i => upd_inode i (fun ip => set_ref (s32 (i_ref ip + 1)) ip) ;; ret i
  | inr None => panic "iget: no inodes"
  | inr (Some i) => upd_inode i (iget_take dev inum) ;; ret i
  end.

Definition idup (i : nat) : M K nat :=
  upd_inode i (fun ip => set_ref (s32 (i_ref ip + 1)) ip) ;; ret i.

(** [readblock(ip)] on the inode in the table. *)
Definition read_block (i : nat) : M K unit :=
  ip <- inode_at i ;;
  if i_private ip =? 0 then
    page <- kalloc ;;
    if page =? 0 then halt (SFault "xv6fs_inode")
    else
      sb <- gets ks_sb ;;
      ' (ip, ipp) <- onCache (readblock sb page ip) ;;
      upd_inode i (fun _ => ip) ;;
      modify (fun k => with_priv (<[page := ipp]> (ks_priv k)) k)
  else ret tt.

Definition lock_inode (i : nat) : M K unit :=
  ip <- inode_at i ;;
  pid <- gets ks_pid ;;
  match acquiresleep pid (i_lock ip) with
  | None => halt (SBlock "inode")
  | Some l => upd_inode i (set_lock l)
  end.

Definition ilock (i : nat) : M K unit :=
  ip <- inode_at i ;;
  if i_ref ip <? 1 then panic "ilock"
  else
    lock_inode i ;;
    need_op i ;;
    read_block i.

Definition iunlock (i : nat) : M K unit :=
  ip <- inode_at i ;;
  pid <- gets ks_pid ;;
  if negb (holdingsleep pid (i_lock ip)) || (i_ref ip <? 1) then panic "iunlock"
  else upd_inode i (fun ip => set_lock (releasesleep (i_lock ip)) ip).

Definition iupdate (i : nat) : M K unit :=
  ip <- inode_at i ;;
  ipp <- priv i ;;
  sb <- gets ks_sb ;;
  onCache (xv6fs_iupdate sb ip ipp).

Definition itrunc (i : nat) : M K unit :=
  ip <- inode_at i ;;
  ipp <- priv i ;;
  sb <- gets ks_sb ;;
  ' (ip, ipp) <- onCache (xv6fs_itrunc sb ip ipp) ;;
  upd_inode i (fun _ => ip) ;;
  set_priv i ipp.

(** The page of the freed [xv6fs_inode] is not valid any more. *)
Definition iput (i : nat) : M K unit :=
  ip <- inode_at i ;;
  (if (i_ref ip =? 1) && negb (i_private ip =? 0) && (i_nlink ip =? 0) then
     lock_inode i ;;
     need_op i ;;
     itrunc i ;;
     upd_inode i (set_type 0) ;;
     iupdate i ;;
     kfree (i_private ip) ;;
     modify (fun k => with_priv (delete (i_private ip) (ks_priv k)) k) ;;
     upd_inode i (fun ip => set_lock (releasesleep (i_lock ip)) ip)
   else ret tt) ;;
  upd_inode i (fun ip => set_ref (s32 (i_ref ip - 1)) ip).

Definition iunlockput (i : nat) : M K unit :=
  iunlock i ;;
  iput i.

Record stat : Type := {
  st_dev : Z;
  st_ino : Z;
  st_type : Z;
  st_nlink : Z;
  st_size : Z;
}.

Definition stati (ip : inode) : stat := {|
  st_dev := s32 (i_dev ip); st_ino := i_inum ip; st_type := i_type ip;
  st_nlink := i_nlink ip; st_size := i_size ip |}.

(** [xv6fs_ialloc(root, type)] *)
Definition xv6fs_ialloc (type : Z) : M K (option nat) :=
  r <- gets ks_root ;;
  match r with
  | None => halt (SFault "root")
  | Some ri =>
      rip <- inode_at ri ;;
      sb <- gets ks_sb ;;
      o <- onCache (ialloc_scan sb (i_dev rip) type) ;;
      match o with
      | None => ret None
      | Some inum =>
          i <- iget (i_dev rip) inum ;;
          upd_inode i (fun ip => {|
            i_op := true; i_sb := true; i_inum := i_inum ip; i_ref := i_ref ip;
            i_lock := i_lock ip; i_type := i_type ip; i_dev := 1; i_size := i_size ip;
            i_nlink := i_nlink ip; i_private := 0 |}) ;;
          ret (Some i)
      end
  end.

(** ** Transfers *)

(** [xv6fs_readi] and [xv6fs_writei] on the inode in the table, with [kb] the
    caller's local buffer.  Every caller has locked the inode, so that
    [ip->private] is set. *)
Definition readi (i : nat) (user : bool) (dst off n : Z) (kb : list Z) : M K (Z * list Z) :=
  ip <- inode_at i ;;
  ipp <- priv i ;;
  sb <- gets ks_sb ;;
  ' (r, ipp, kb) <- onIO kb (xv6fs_readi sb ip ipp user dst off n) ;;
  set_priv i ipp ;;
  ret (r, kb).

Definition writei (i : nat) (user : bool) (src off n : Z) (kb : list Z) : M K Z :=
  ip <- inode_at i ;;
  ipp <- priv i ;;
  sb <- gets ks_sb ;;
  ' (r, ip, ipp, _) <- onIO kb (xv6fs_writei sb ip ipp user src off n) ;;
  upd_inode i (fun _ => ip) ;;
  set_priv i ipp ;;
  ret r.

(** ** Directories *)

(** A local [struct xv6fs_dentry] before anything was read into it. *)
Definition de0 : list Z := replicate (Z.to_nat DENTRY_SIZE) 0.

(** One round per entry of the directory. *)
Definition dir_fuel (size : Z) : nat := Z.to_nat (size / DENTRY_SIZE) + 2.

Fixpoint dirlookup_loop (fuel : nat) (dp : nat) (name : list Z) (off : Z) (de : list Z)
    : M K (option (Z * Z)) :=
  match fuel with
  | O => ret None
  | S fuel =>
      ip <- inode_at dp ;;
      if off <? i_size ip then
        ' (r, de) <- readi dp false 0 off DENTRY_SIZE de ;;
        if negb (r =? DENTRY_SIZE) then panic "dirlookup read"
        else if dent_inum de =? 0 then
          dirlookup_loop fuel dp name (u32 (off + DENTRY_SIZE)) de
        else if namecmp name (dent_name de) =? 0 then ret (Some (off, dent_inum de))
        else dirlookup_loop fuel dp name (u32 (off + DENTRY_SIZE)) de
      else ret None
  end.

Definition xv6fs_dirlookup (dp : nat) (name : list Z) : M K dentry :=
  ip <- inode_at dp ;;
  if negb (i_type ip =? T_DIR) then panic "dirlookup not DIR"
  else
    o <- dirlookup_loop (dir_fuel (i_size ip)) dp name 0 de0 ;;
    page <- kalloc ;;
    p <- (if page =? 0 then halt (SFault "dentry") else kalloc) ;;
    match o with
    | Some (off, inum) =>
        if p =? 0 then halt (SFault "dentry private")
        else
          i <- iget (i_dev ip) inum ;;
          ret {| de_page := page; de_inode := Some i; de_name := replicate DIRSIZ 5;
                 de_private := p; de_uint := off; de_str := [] |}
    | None =>
        ret {| de_page := page; de_inode := None; de_name := replicate DIRSIZ 5;
               de_private := p; de_uint := junk32; de_str := [] |}
    end.

(** [kfree(de->private); kfree(de)] *)
Definition free_dentry (de : dentry) : M K unit :=
  kfree (de_private de) ;;
  kfree (de_page de).

(** The loop of [xv6fs_link] that looks for an empty entry. *)
Fixpoint link_scan (fuel : nat) (dp : nat) (dir_ret : dentry) (off : Z) (de : list Z) : M K Z :=
  match fuel with
  | O => ret off
  | S fuel =>
      ip <- inode_at dp ;;
      if off <? i_size ip then
        ' (r, de) <- readi dp false 0 off DENTRY_SIZE de ;;
        if negb (r =? DENTRY_SIZE) then
          free_dentry dir_ret ;;
          panic "dirlink read"
        else if dent_inum de =? 0 then ret off
        else link_scan fuel dp dir_ret (off + DENTRY_SIZE) de
      else ret off
  end.

Definition xv6fs_link (target : dentry) : M K Z :=
  match de_inode target with
  | None => halt (SFault "link")
  | Some dp =>
      let name := strncpy (de_name target) DIRSIZ in
      let inum := de_uint target in
      dir_ret <- xv6fs_dirlookup dp name ;;
      match de_inode dir_ret with
      | Some ip =>
          iput ip ;;
          free_dentry dir_ret ;;
          ret (-1)
      | None =>
          ip <- inode_at dp ;;
          off <- link_scan (dir_fuel (i_size ip)) dp dir_ret 0 de0 ;;
          r <- writei dp false 0 off DENTRY_SIZE (dent_bytes inum (strncpy name DIRSIZ)) ;;
          free_dentry dir_ret ;;
          if negb (r =? DENTRY_SIZE) then ret (-1) else ret 0
      end
  end.

Definition dirlink (dp : nat) (name : list Z) (inum : Z) : M K Z :=
  page <- kalloc ;;
  p <- (if page =? 0 then halt (SFault "dentry") else kalloc) ;;
  if p =? 0 then halt (SFault "dentry private")
  else
    need_op dp ;;
    let temp := {| de_page := page; de_inode := Some dp; de_name := strncpy name DIRSIZ;
                   de_private := p; de_uint := inum; de_str := [] |} in
    r <- xv6fs_link temp ;;
    free_dentry temp ;;
    ret r.

Fixpoint isdirempty_loop (fuel : nat) (dp : nat) (off : Z) (de : list Z) : M K bool :=
  match fuel with
  | O => ret true
  | S fuel =>
      ip <- inode_at dp ;;
      if off <? i_size ip then
        ' (r, de) <- readi dp false 0 off DENTRY_SIZE de ;;
        if negb (r =? DENTRY_SIZE) then panic "isdirempty: readi"
        else if negb (dent_inum de =? 0) then ret false
        else isdirempty_loop fuel dp (off + DENTRY_SIZE) de
      else ret true
  end.

Definition xv6fs_isdirempty (dp : nat) : M K bool :=
  ip <- inode_at dp ;;
  isdirempty_loop (dir_fuel (i_size ip)) dp (2 * DENTRY_SIZE) de0.

(** ** Path names *)

Definition name0 : list Z := replicate DIRSIZ 0.

(** One round per element; every element has at least one character. *)
Fixpoint namex_loop (fuel : nat) (ip : nat) (path : list Z) (nameiparent : bool) (name : list Z)
    : M K (option nat * list Z) :=
  match fuel with
  | O => ret (None, name)
  | S fuel =>
      match skipelem path name with
      | None =>
          if nameiparent then
            iput ip ;;
            ret (None, name)
          else ret (Some ip, name)
      | Some (path, name) =>
          ilock ip ;;
          nd <- inode_at ip ;;
          if negb (i_type nd =? T_DIR) then
            iunlockput ip ;;
            ret (None, name)
          else if nameiparent && bool_decide (path = []) then
            iunlock ip ;;
            ret (Some ip, name)
          else
            need_op ip ;;
            next <- xv6fs_dirlookup ip name ;;
            match de_inode next with
            | None =>
                iunlockput ip ;;
                free_dentry next ;;
                ret (None, name)
            | Some i =>
                iunlockput ip ;;
                namex_loop fuel i path nameiparent name
            end
      end
  end.

Definition namex (path : list Z) (nameiparent : bool) (name : list Z) : M K (option nat * list Z) :=
  r <- gets ks_root ;;
  cwd <- gets ks_cwd ;;
  ip <- (if hd 0 path =? slash then
           match r with
           | None => iget 1 1
           | Some ri => ret ri
           end
         else idup cwd) ;;
  namex_loop (S (length path)) ip path nameiparent name.

Definition namei (path : list Z) : M K (option nat) :=
  ' (o, _) <- namex path false name0 ;;
  ret o.

Definition nameiparent (path name : list Z) : M K (option nat * list Z) :=
  namex path true name.

End Vfs.
