(* ===== verification/VfsFile.v ===== *)
(** * Files (kernel/fs/vfs.c and the file operations of xv6fs/fs.c)

    [vfs_init], [xv6fs_unlink], [xv6fs_create], [xv6fs_open],
    [xv6fs_fileclose] and the open-file table: [filealloc], [filedup],
    [filestat], [fileread] and [filewrite]. *)

From S2P Require Import Prelude Sleeplock Layout Kalloc BlockCache Blocks Inode UserMem FileIO Cstring VfsState Vfs.

Definition O_RDONLY : Z := 0x000.
Definition O_WRONLY : Z := 0x001.
Definition O_RDWR : Z := 0x002.
Definition O_CREATE : Z := 0x200.
Definition O_TRUNC : Z := 0x400.

(** [omode & flag] as a condition. *)
Definition has_flag (omode flag : Z) : bool := negb (Z.land omode flag =? 0).

Definition dot : list Z := [46].
Definition dotdot : list Z := [46; 46].

(** [struct stat] as [copyout] sees it; the four bytes of padding between
    [nlink] and [size] are whatever the stack held. *)
Definition bytes_of_stat (pad : list Z) (st : stat) : list Z :=
  le_enc 4 (st_dev st) ++ le_enc 4 (st_ino st) ++ le_enc 2 (st_type st) ++
  le_enc 2 (st_nlink st) ++ pad ++ le_enc 8 (st_size st).

Section VfsFile.
Context {C U V : Type} `{BC : BlockCache C} `{UM : UserMem U} `{DV : Devsw U V}.
Context (kend : Z).
Notation K := (kst C U V).

Definition vfs_init : M K unit :=
  page <- kalloc ;;
  if page =? 0 then halt (SFault "root")
  else
    sb <- onCache xv6fs_fsinit ;;
    modify (with_sb sb) ;;
    i <- iget 1 1 ;;
    modify (with_root (Some i)) ;;
    read_block i ;;
    kalloc ;;
    ret tt.

(** [d->private] holds the path. *)
Definition xv6fs_unlink (d : dentry) : M K Z :=
  let path := cstr (strncpy (de_str d) (Z.to_nat MAXPATH)) in
  ' (o, name) <- nameiparent kend path name0 ;;
  match o with
  | None => ret (-1)
  | Some dp =>
      ilock dp ;;
      if (namecmp name dot =? 0) || (namecmp name dotdot =? 0) then
        iunlockput kend dp ;;
        ret (-1)
      else
        dir_ret <- xv6fs_dirlookup dp name ;;
        if de_private dir_ret =? 0 then halt (SFault "dentry private")
        else
          let off := de_uint dir_ret in
          let bad := free_dentry kend dir_ret ;; iunlockput kend dp ;; ret (-1) in
          match de_inode dir_ret with
          | None => bad
          | Some ip =>
              ilock ip ;;
              nd <- inode_at ip ;;
              if i_nlink nd <? 1 then panic "unlink: nlink < 1"
              else
                e <- (if i_type nd =? T_DIR then need_op ip ;; xv6fs_isdirempty ip
                      else ret true) ;;
                if negb e then
                  iunlockput kend ip ;;
                  bad
                else
                  r <- writei dp false 0 off DENTRY_SIZE de0 ;;
                  if negb (r =? DENTRY_SIZE) then panic "unlink: writei"
                  else
                    nd <- inode_at ip ;;
                    (if i_type nd =? T_DIR then
                       upd_inode dp (fun x => set_nlink (s16 (i_nlink x - 1)) x) ;;
                       iupdate dp
                     else ret tt) ;;
                    iunlockput kend dp ;;
                    upd_inode ip (fun x => set_nlink (s16 (i_nlink x - 1)) x) ;;
                    iupdate ip ;;
                    iunlockput kend ip ;;
                    free_dentry kend dir_ret ;;
                    ret 0
          end
  end.

(** The result and [target->inode]. *)
Definition xv6fs_create (dp : nat) (target : dentry) (type major minor : Z)
    : M K (Z * option nat) :=
  let name := strncpy (de_str target) DIRSIZ in
  ilock dp ;;
  dir_ret <- xv6fs_dirlookup dp name ;;
  match de_inode dir_ret with
  | Some ip =>
      iunlockput kend dp ;;
      ilock ip ;;
      nd <- inode_at ip ;;
      if (type =? T_FILE) && ((i_type nd =? T_FILE) || (i_type nd =? T_DEVICE)) then
        free_dentry kend dir_ret ;;
        ret (1, Some ip)
      else
        iunlockput kend ip ;;
        free_dentry kend dir_ret ;;
        ret (0, de_inode target)
  | None =>
      o <- xv6fs_ialloc type ;;
      match o with
      | None =>
          iunlockput kend dp ;;
          free_dentry kend dir_ret ;;
          ret (0, de_inode target)
      | Some ip =>
          ilock ip ;;
          ipp <- priv ip ;;
          set_priv ip (set_dev_numbers major minor ipp) ;;
          upd_inode ip (set_nlink 1) ;;
          iupdate ip ;;
          ind <- inode_at ip ;;
          dnd <- inode_at dp ;;
          dots <- (if type =? T_DIR then
                     r <- dirlink kend ip dot (i_inum ind) ;;
                     if r <? 0 then ret false
                     else
                       r <- dirlink kend ip dotdot (i_inum dnd) ;;
                       ret (negb (r <? 0))
                   else ret true) ;;
          ok <- (if dots then
                   r <- dirlink kend dp name (i_inum ind) ;;
                   ret (negb (r <? 0))
                 else ret false) ;;
          if ok then
            (if type =? T_DIR then
               upd_inode dp (fun x => set_nlink (s16 (i_nlink x + 1)) x) ;;
               iupdate dp
             else ret tt) ;;
            iunlockput kend dp ;;
            free_dentry kend dir_ret ;;
            ret (1, Some ip)
          else
            upd_inode ip (set_nlink 0) ;;
            iupdate ip ;;
            iunlockput kend ip ;;
            iunlockput kend dp ;;
            free_dentry kend dir_ret ;;
            ret (0, de_inode target)
      end
  end.

(** ** Open files *)

Fixpoint filealloc_scan (l : list file) (i : nat) : option nat :=
  match l with
  | [] => None
  | f :: l => if f_ref f =? 0 then Some i else filealloc_scan l (S i)
  end.

Definition filealloc : M K (option nat) :=
  tab <- gets ks_ftab ;;
  match filealloc_scan tab 0 with
  | Some f => upd_file f (set_fref 1) ;; ret (Some f)
  | None => ret None
  end.

Definition file_at (f : nat) : M K file := gets (fun k => nd_file k f).

Definition filedup (f : nat) : M K nat :=
  fl <- file_at f ;;
  if f_ref fl <? 1 then panic "filedup"
  else
    upd_file f (fun x => set_fref (s32 (f_ref x + 1)) x) ;;
    ret f.

Definition xv6fs_open (ip : nat) (omode : Z) : M K (option nat) :=
  nd <- inode_at ip ;;
  bad <- (if i_type nd =? T_DEVICE then
            ipp <- priv ip ;;
            ret ((xi_major ipp <? 0) || (NDEV <=? xi_major ipp))
          else ret false) ;;
  if bad then
    iunlockput kend ip ;;
    ret None
  else
    o <- filealloc ;;
    match o with
    | None =>
        iunlockput kend ip ;;
        ret None
    | Some f =>
        (if i_type nd =? T_DEVICE then upd_file f (set_ftype FD_DEVICE)
         else upd_file f (fun x => set_foff 0 (set_ftype FD_INODE x))) ;;
        upd_file f (set_fopen ip (negb (has_flag omode O_WRONLY))
                      (has_flag omode O_WRONLY || has_flag omode O_RDWR)) ;;
        ret (Some f)
    end.

Definition xv6fs_fileclose (f : nat) : M K unit :=
  fl <- file_at f ;;
  if f_ref fl <? 1 then panic "fileclose"
  else
    upd_file f (set_fref (f_ref fl - 1)) ;;
    if 0 <? f_ref fl - 1 then ret tt
    else
      upd_file f (fun x => set_ftype FD_NONE (set_fref 0 x)) ;;
      match f_type fl, f_inode fl with
      | FD_INODE, Some ip => iput kend ip
      | FD_DEVICE, Some ip => iput kend ip
      | FD_INODE, None => halt (SFault "file inode")
      | FD_DEVICE, None => halt (SFault "file inode")
      | _, _ => ret tt
      end.

(** [f->inode] of an open file. *)
Definition file_inode (fl : file) : M K nat :=
  match f_inode fl with
  | Some i => ret i
  | None => halt (SFault "file inode")
  end.

Definition user_copyout (va : Z) (src : list Z) : M K bool :=
  fun k => let '(u, ok) := copyout va src (ks_user k) in Ok ok (with_user u k).

Definition filestat (pad : list Z) (f : nat) (addr : Z) : M K Z :=
  fl <- file_at f ;;
  match f_type fl with
  | FD_INODE | FD_DEVICE =>
      i <- file_inode fl ;;
      ilock i ;;
      ip <- inode_at i ;;
      let st := stati ip in
      iunlock i ;;
      ok <- user_copyout addr (bytes_of_stat pad st) ;;
      if ok then ret 0 else ret (-1)
  | _ => ret (-1)
  end.

Definition fileread (f : nat) (addr n : Z) : M K Z :=
  fl <- file_at f ;;
  if negb (f_readable fl) then ret (-1)
  else
    match f_type fl with
    | FD_DEVICE => onDev (dev_read 1 addr n)
    | FD_INODE =>
        i <- file_inode fl ;;
        ilock i ;;
        need_op i ;;
        ' (r, _) <- readi i true addr (u32 (f_off fl)) (u32 n) [] ;;
        (if 0 <? r then upd_file f (fun x => set_foff (s32 (f_off x + r)) x) else ret tt) ;;
        iunlock i ;;
        ret r
    | _ => ret 0
    end.

(** [max] of [filewrite], and its loop: every round writes at least one byte
    or ends the loop. *)
Definition write_max : Z := (MAXOPBLOCKS - 1 - 1 - 2) / 2 * BSIZE.

Fixpoint filewrite_loop (fuel : nat) (f i : nat) (addr n k : Z) : M K Z :=
  match fuel with
  | O => ret k
  | S fuel =>
      if k <? n then
        let n1 := if write_max <? n - k then write_max else n - k in
        ilock i ;;
        need_op i ;;
        fl <- file_at f ;;
        r <- writei i true (u64 (addr + k)) (u32 (f_off fl)) (u32 n1) [] ;;
        (if 0 <? r then upd_file f (fun x => set_foff (s32 (f_off x + r)) x) else ret tt) ;;
        iunlock i ;;
        if negb (r =? n1) then ret k
        else filewrite_loop fuel f i addr n (k + r)
      else ret k
  end.

Definition filewrite (f : nat) (addr n : Z) : M K Z :=
  fl <- file_at f ;;
  if negb (f_writable fl) then ret (-1)
  else
    match f_type fl with
    | FD_DEVICE => onDev (dev_write 1 addr n)
    | FD_INODE =>
        i <- file_inode fl ;;
        k <- filewrite_loop (Z.to_nat (n / write_max) + 2) f i addr n 0 ;;
        ret (if k =? n then n else -1)
    | _ => ret 0
    end.

End VfsFile.
