(* ===== verification/Sysfile.v ===== *)
(** * File-system system calls (kernel/fs/sysfile.c, argument fetching of
    kernel/syscall.c) *)

From S2P Require Import Prelude Sleeplock Layout Kalloc BlockCache Blocks Inode UserMem FileIO Cstring VfsState Vfs VfsFile.

Section Sysfile.
Context {C U V : Type} `{BC : BlockCache C} `{UM : UserMem U} `{DV : Devsw U V}.
Context (kend : Z).
Notation K := (kst C U V).

(** ** Arguments *)

(** Register [a<n>] of the trap frame. *)
Definition argraw (n : nat) : M K Z :=
  if (n <? 6)%nat then gets (fun k => ks_args k !!! n) else panic "argraw".

Definition argint (n : nat) : M K Z :=
  a <- argraw n ;;
  ret (s32 a).

Definition argaddr (n : nat) : M K Z := argraw n.

(** [Some v]: the result 0 with [*ip = v]. *)
Definition fetchaddr (addr : Z) : M K (option Z) :=
  sz <- gets ks_sz ;;
  if (sz <=? addr) || (sz <? u64 (addr + 8)) then ret None
  else
    u <- gets ks_user ;;
    let '(bytes, ok) := copyin addr 8 u in
    ret (if ok : bool then Some (le_dec bytes) else None).

(** [Some s]: the string in [buf], whose length is the result. *)
Definition fetchstr (addr : Z) (max : Z) : M K (option (list Z)) :=
  u <- gets ks_user ;;
  ret (copyinstr addr max u).

Definition argstr (n : nat) (max : Z) : M K (option (list Z)) :=
  addr <- argaddr n ;;
  fetchstr addr max.

(** The descriptor and the file, or [None] for -1. *)
Definition argfd (n : nat) : M K (option (Z * nat)) :=
  fd <- argint n ;;
  if (fd <? 0) || (Z.of_nat NOFILE <=? fd) then ret None
  else
    o <- gets ks_ofile ;;
    match o !!! Z.to_nat fd with
    | None => ret None
    | Some f => ret (Some (fd, f))
    end.

Fixpoint fdalloc_scan (l : list (option nat)) (i : nat) : option nat :=
  match l with
  | [] => None
  | None :: _ => Some i
  | Some _ :: l => fdalloc_scan l (S i)
  end.

Definition fdalloc (f : nat) : M K Z :=
  o <- gets ks_ofile ;;
  match fdalloc_scan o 0 with
  | None => ret (-1)
  | Some fd =>
      modify (with_ofile (<[fd := Some f]> o)) ;;
      ret (Z.of_nat fd)
  end.

(** ** System calls; the results are those of the C functions before the
    conversion to [uint64] *)

Definition sys_dup : M K Z :=
  a <- argfd 0 ;;
  match a with
  | None => ret (-1)
  | Some (_, f) =>
      fd <- fdalloc f ;;
      if fd <? 0 then ret (-1)
      else
        filedup f ;;
        ret fd
  end.

Definition sys_read : M K Z :=
  p <- argaddr 1 ;;
  n <- argint 2 ;;
  a <- argfd 0 ;;
  match a with
  | None => ret (-1)
  | Some (_, f) => fileread f p n
  end.

Definition sys_write : M K Z :=
  p <- argaddr 1 ;;
  n <- argint 2 ;;
  a <- argfd 0 ;;
  match a with
  | None => ret (-1)
  | Some (_, f) => filewrite f p n
  end.

(** [f->op->close(f)] *)
Definition close_file (f : nat) : M K unit :=
  fl <- file_at f ;;
  if f_op fl then xv6fs_fileclose kend f else halt (SFault "file op").

Definition sys_close : M K Z :=
  a <- argfd 0 ;;
  match a with
  | None => ret (-1)
  | Some (fd, f) =>
      modify (fun k => with_ofile (<[Z.to_nat fd := None]> (ks_ofile k)) k) ;;
      close_file f ;;
      ret 0
  end.

Definition sys_fstat (pad : list Z) : M K Z :=
  st <- argaddr 1 ;;
  a <- argfd 0 ;;
  match a with
  | None => ret (-1)
  | Some (_, f) => filestat pad f st
  end.

Definition sys_link : M K Z :=
  old <- argstr 0 MAXPATH ;;
  match old with
  | None => ret (-1)
  | Some old =>
      new <- argstr 1 MAXPATH ;;
      match new with
      | None => ret (-1)
      | Some new =>
          o <- namei kend old ;;
          match o with
          | None => ret (-1)
          | Some ip =>
              ilock ip ;;
              nd <- inode_at ip ;;
              if i_type nd =? T_DIR then
                iunlockput kend ip ;;
                ret (-1)
              else
                upd_inode ip (fun x => set_nlink (s16 (i_nlink x + 1)) x) ;;
                need_op ip ;;
                iupdate ip ;;
                iunlock ip ;;
                let bad :=
                  ilock ip ;;
                  upd_inode ip (fun x => set_nlink (s16 (i_nlink x - 1)) x) ;;
                  need_op ip ;;
                  iupdate ip ;;
                  iunlockput kend ip ;;
                  ret (-1) in
                ' (o, name) <- nameiparent kend new name0 ;;
                match o with
                | None => bad
                | Some dp =>
                    ilock dp ;;
                    dnd <- inode_at dp ;;
                    ind <- inode_at ip ;;
                    fail <- (if negb (i_dev dnd =? i_dev ind) then ret true
                             else
                               r <- dirlink kend dp name (i_inum ind) ;;
                               ret (r <? 0)) ;;
                    if fail : bool then
                      iunlockput kend dp ;;
                      bad
                    else
                      iunlockput kend dp ;;
                      iput kend ip ;;
                      ret 0
                end
          end
      end
  end.

Definition sys_unlink : M K Z :=
  path <- argstr 0 MAXPATH ;;
  match path with
  | None => ret (-1)
  | Some path =>
      page <- kalloc ;;
      p <- (if page =? 0 then halt (SFault "dentry") else kalloc) ;;
      if p =? 0 then halt (SFault "dentry private")
      else
        r <- gets ks_root ;;
        match r with
        | None => halt (SFault "root")
        | Some _ =>
            let temp := {| de_page := page; de_inode := None; de_name := replicate DIRSIZ 5;
                           de_private := p; de_uint := junk32;
                           de_str := strncpy path (Z.to_nat MAXPATH) |} in
            ret_ <- xv6fs_unlink kend temp ;;
            free_dentry kend temp ;;
            ret ret_
        end
  end.

(** [create]: [strncpy] copies up to [MAXPATH] bytes out of the fourteen of
    [name]; only the first fourteen are used afterwards. *)
Definition create (path : list Z) (type major minor : Z) : M K (option nat) :=
  ' (o, name) <- nameiparent kend path name0 ;;
  match o with
  | None => ret None
  | Some dp =>
      page <- kalloc ;;
      p <- (if page =? 0 then halt (SFault "dentry") else kalloc) ;;
      if p =? 0 then halt (SFault "dentry private")
      else
        need_op dp ;;
        let temp := {| de_page := page; de_inode := None; de_name := replicate DIRSIZ 5;
                       de_private := p; de_uint := junk32;
                       de_str := strncpy name (Z.to_nat MAXPATH) |} in
        ' (r, ip) <- xv6fs_create kend dp temp type major minor ;;
        free_dentry kend temp ;;
        ret (if r =? 1 then ip else None)
  end.

Definition sys_open : M K Z :=
  omode <- argint 1 ;;
  path <- argstr 0 MAXPATH ;;
  match path with
  | None => ret (-1)
  | Some path =>
      o <- (if has_flag omode O_CREATE then create path T_FILE 0 0
            else
              o <- namei kend path ;;
              match o with
              | None => ret None
              | Some ip =>
                  ilock ip ;;
                  nd <- inode_at ip ;;
                  if (i_type nd =? T_DIR) && negb (omode =? O_RDONLY) then
                    iunlockput kend ip ;;
                    ret None
                  else ret (Some ip)
              end) ;;
      match o with
      | None => ret (-1)
      | Some ip =>
          need_op ip ;;
          fo <- xv6fs_open kend ip omode ;;
          match fo with
          | None =>
              iunlockput kend ip ;;
              ret (-1)
          | Some f =>
              fd <- fdalloc f ;;
              if fd <? 0 then
                close_file f ;;
                iunlockput kend ip ;;
                ret (-1)
              else
                nd <- inode_at ip ;;
                upd_file f (set_fop (i_op nd)) ;;
                (if has_flag omode O_TRUNC && (i_type nd =? T_FILE) then
                   need_op ip ;;
                   itrunc ip
                 else ret tt) ;;
                iunlock ip ;;
                ret fd
          end
      end
  end.

Definition sys_mkdir : M K Z :=
  path <- argstr 0 MAXPATH ;;
  match path with
  | None => ret (-1)
  | Some path =>
      o <- create path T_DIR 0 0 ;;
      match o with
      | None => ret (-1)
      | Some ip =>
          iunlockput kend ip ;;
          ret 0
      end
  end.

Definition sys_mknod : M K Z :=
  major <- argint 1 ;;
  minor <- argint 2 ;;
  path <- argstr 0 MAXPATH ;;
  match path with
  | None => ret (-1)
  | Some path =>
      o <- create path T_DEVICE (s16 major) (s16 minor) ;;
      match o with
      | None => ret (-1)
      | Some ip =>
          iunlockput kend ip ;;
          ret 0
      end
  end.

Definition sys_chdir : M K Z :=
  path <- argstr 0 MAXPATH ;;
  match path with
  | None => ret (-1)
  | Some path =>
      o <- namei kend path ;;
      match o with
      | None => ret (-1)
      | Some ip =>
          ilock ip ;;
          nd <- inode_at ip ;;
          if negb (i_type nd =? T_DIR) then
            iunlockput kend ip ;;
            ret (-1)
          else
            iunlock ip ;;
            cwd <- gets ks_cwd ;;
            iput kend cwd ;;
            modify (with_cwd ip) ;;
            ret 0
      end
  end.

Definition sys_pipe : M K Z := ret 0.

End Sysfile.
