(* ===== verification/VfsSpec.v ===== *)
(** * Path elements and the inode table: correctness

    [skipelem] against a reference definition of a path's elements, the inode
    table's invariant (a live inode has exactly one slot), and [xv6fs_ialloc] on
    the disk and the table together. *)

From S2P Require Import Prelude Sleeplock Layout Kalloc BlockCache Bio Blocks Inode BlockMap InodeOps UserMem FileIO FsInv Cstring VfsState Vfs VfsFile Sysfile.

(** ** Path elements *)

(** The elements of a path: the maximal runs of characters other than the
    slash.  The reference definition collects the element read so far in
    [cur]. *)
Fixpoint elems_from (cur path : list Z) : list (list Z) :=
  match path with
  | [] => match cur with [] => [] | _ => [cur] end
  | c :: path =>
      if c =? slash then
        match cur with [] => elems_from [] path | _ => cur :: elems_from [] path end
      else elems_from (cur ++ [c]) path
  end.
Definition elems (path : list Z) : list (list Z) := elems_from [] path.

Lemma elems_skip path : elems (skip_slashes path) = elems path.
Proof.
  unfold elems. induction path as [|c path IH]; [done|]. cbn [skip_slashes elems_from].
  destruct (Z.eqb_spec c slash) as [->|Hne]; [done|]. cbn [elems_from].
  by rewrite (proj2 (Z.eqb_neq c slash)).
Qed.

Lemma path_elem_app path : (path_elem path).1 ++ (path_elem path).2 = path.
Proof.
  induction path as [|c path IH]; [done|]. cbn. destruct (Z.eqb_spec c slash); [done|].
  destruct (path_elem path) as [e r]. cbn in *. by rewrite IH.
Qed.

Lemma path_elem_noslash path : Forall (fun c => c <> slash) (path_elem path).1.
Proof.
  induction path as [|c path IH]; [constructor|]. cbn. destruct (Z.eqb_spec c slash); [constructor|].
  destruct (path_elem path) as [e r]. by constructor.
Qed.

Lemma path_elem_rest path :
  (path_elem path).2 = [] \/ exists r, (path_elem path).2 = slash :: r.
Proof.
  induction path as [|c path IH]; [by left|]. cbn. destruct (Z.eqb_spec c slash) as [->|]; [right; eauto|].
  by destruct (path_elem path).
Qed.

Lemma elems_from_app cur e rest :
  Forall (fun c => c <> slash) e -> elems_from cur (e ++ rest) = elems_from (cur ++ e) rest.
Proof.
  intros He. revert cur. induction He as [|c e Hc He IH]; intros cur; cbn [app elems_from].
  - by rewrite app_nil_r.
  - rewrite (proj2 (Z.eqb_neq c slash)) by done. by rewrite IH, <-app_assoc.
Qed.

Lemma elems_cons e rest :
  Forall (fun c => c <> slash) e -> e <> [] -> rest = [] \/ (exists r, rest = slash :: r) ->
  elems (e ++ rest) = e :: elems (skip_slashes rest).
Proof.
  intros He Hne Hr. unfold elems at 1. rewrite elems_from_app by done. cbn [app].
  rewrite elems_skip. destruct Hr as [->|[r ->]]; cbn [elems_from].
  - by destruct e.
  - rewrite Z.eqb_refl. by destruct e.
Qed.

Lemma skip_slashes_head path : hd_error (skip_slashes path) <> Some slash.
Proof.
  induction path as [|c path IH]; [done|]. cbn. destruct (Z.eqb_spec c slash); [done|].
  cbn. congruence.
Qed.

Lemma skip_slashes_length path : (length (skip_slashes path) <= length path)%nat.
Proof. induction path as [|c path IH]; [done|]. cbn. destruct (c =? slash); cbn; lia. Qed.

(** The contents of [name] after an element was stored there. *)
Lemma name_store e name :
  length name = DIRSIZ -> Forall (fun c => c <> 0) e ->
  let name' := if (DIRSIZ <=? length e)%nat then splice 0 (take DIRSIZ e) name
               else splice 0 (e ++ [0]) name in
  length name' = DIRSIZ /\ strncpy name' DIRSIZ = strncpy e DIRSIZ.
Proof.
  intros Hl He name'. unfold name'. destruct (Nat.leb_spec DIRSIZ (length e)).
  - assert (Ht : length (take DIRSIZ e) = DIRSIZ) by (rewrite length_take; lia).
    split; [by rewrite splice_length by lia|]. unfold splice. rewrite take_0, Ht, drop_ge by (rewrite Hl; lia).
    rewrite app_nil_r. cbn [app]. apply strncpy_take.
  - split; [rewrite splice_length; [done|]; rewrite length_app; cbn; lia|].
    unfold splice. rewrite take_0. cbn [app]. rewrite <-app_assoc. cbn [app].
    rewrite <-strncpy_cstr, <-(strncpy_cstr e). f_equal.
    generalize (drop (0 + length (e ++ [0])) name) as t. intros t.
    clear -He. induction He as [|c e Hc He IH]; [done|]. cbn. destruct (Z.eqb_spec c 0); [done|].
    by rewrite IH.
Qed.

(** [skipelem] splits a path exactly as the reference definition
    does: it returns 0 iff the path has no element left, and otherwise stores
    the first element in [name] (cut at fourteen characters, as [strncpy] cuts
    it) and returns a strictly shorter path, without leading slashes, that
    holds the remaining elements. *)
Theorem skipelem_elems (path name : list Z) :
  length name = DIRSIZ -> Forall (fun c => c <> 0) path ->
  match skipelem path name with
  | None => elems path = []
  | Some (rest, name') =>
      exists e, elems path = e :: elems rest /\ e <> [] /\ Forall (fun c => c <> slash) e /\
        length name' = DIRSIZ /\ strncpy name' DIRSIZ = strncpy e DIRSIZ /\
        (length rest < length path)%nat /\ hd_error rest <> Some slash
  end.
Proof.
  intros Hl Hnul. unfold skipelem. rewrite <-elems_skip.
  pose proof (skip_slashes_length path) as Hlen. pose proof (skip_slashes_head path) as Hhd.
  assert (Hnul' : Forall (fun c => c <> 0) (skip_slashes path)).
  { clear -Hnul. induction Hnul; [constructor|]. cbn. by destruct (_ =? _); [|constructor]. }
  destruct (skip_slashes path) as [|c p] eqn:E; [done|]. set (q := c :: p) in *.
  pose proof (path_elem_app q) as Happ. pose proof (path_elem_noslash q) as Hns.
  pose proof (path_elem_rest q) as Hrest.
  assert (Hne : (path_elem q).1 <> []).
  { unfold q in *. cbn in *. destruct (Z.eqb_spec c slash); [congruence|]. by destruct (path_elem p). }
  clearbody q. destruct (path_elem q) as [e r]. cbn [fst snd] in *.
  assert (Hne0 : Forall (fun c => c <> 0) e) by (rewrite <-Happ in Hnul'; by apply Forall_app in Hnul' as [? _]).
  destruct (name_store e name Hl Hne0) as [H1 H2]. exists e. split_and!; try done.
  - rewrite <-Happ. by apply elems_cons.
  - pose proof (skip_slashes_length r) as Hr. assert (length (e ++ r) = length q) as Hq by (by rewrite Happ).
    rewrite length_app in Hq. destruct e; [done|]. cbn in Hq. lia.
  - apply skip_slashes_head.
Qed.

(** "/ab//c" *)
Lemma skipelem_elems_witness :
  skipelem [47; 97; 98; 47; 47; 99] name0 = Some ([99], [97; 98; 0; 0; 0; 0; 0; 0; 0; 0; 0; 0; 0; 0]) /\
  exists e, elems [47; 97; 98; 47; 47; 99] = e :: elems [99] /\ e <> [].
Proof.
  split; [reflexivity|].
  assert (Hn : Forall (fun c => c <> 0) [47; 97; 98; 47; 47; 99]) by (repeat constructor; lia).
  pose proof (skipelem_elems [47; 97; 98; 47; 47; 99] name0 eq_refl Hn) as H.
  change (skipelem [47; 97; 98; 47; 47; 99] name0)
    with (Some ([99], [97; 98; 0; 0; 0; 0; 0; 0; 0; 0; 0; 0; 0; 0])) in H.
  destruct H as (e & H1 & H2 & _). exists e. split; [exact H1|exact H2].
Defined.

(** ** The inode table *)

(** Slot [ip] caches inode [inum] of device [dev]. *)
Definition live (dev inum : Z) (ip : inode) : bool :=
  (0 <? i_ref ip) && (i_dev ip =? dev) && (i_inum ip =? inum).

Record itab_ok (t : list inode) : Prop := {
  it_len : length t = NINODE;
  it_ref : forall i, (i < NINODE)%nat -> 0 <= i_ref (t !!! i) < 2 ^ 31 - 1;
  it_uniq : forall i j dev inum, (i < NINODE)%nat -> (j < NINODE)%nat ->
    live dev inum (t !!! i) = true -> live dev inum (t !!! j) = true -> i = j;
}.

Lemma iget_scan_spec l i e dev inum :
  match iget_scan l i e dev inum with
  | inl j => (i <= j < i + length l)%nat /\ live dev inum (l !!! (j - i)%nat) = true
  | inr e' =>
      (forall j, (j < length l)%nat -> live dev inum (l !!! j) = false) /\
      match e' with
      | None => e = None /\ forall j, (j < length l)%nat -> i_ref (l !!! j) <> 0
      | Some j => e = Some j \/
          (e = None /\ (i <= j < i + length l)%nat /\ i_ref (l !!! (j - i)%nat) = 0 /\
           forall j', (j' < j - i)%nat -> i_ref (l !!! j') <> 0)
      end
  end.
Proof.
  revert i e. induction l as [|ip l IH]; intros i e; cbn [iget_scan length].
  { split; [lia|]. destruct e; [by left|]. split; [done|lia]. }
  fold (live dev inum ip). destruct (live dev inum ip) eqn:El.
  { rewrite Nat.sub_diag. split; [lia|done]. }
  set (e1 := match e with Some e => Some e | None => if i_ref ip =? 0 then Some i else None end).
  specialize (IH (S i) e1). destruct (iget_scan l (S i) e1 dev inum) as [j|e'].
  - destruct IH as [Hj Hl]. replace (j - i)%nat with (S (j - S i)) by lia. split; [lia|done].
  - destruct IH as [Hn He]. split.
    { intros [|j] Hj; [done|]. apply Hn. lia. }
    destruct e' as [j|].
    + destruct He as [He|(He & Hj & Hz & Hb)]; unfold e1 in He; destruct e as [e|]; try done.
      * by left.
      * right. destruct (Z.eqb_spec (i_ref ip) 0); [|done]. injection He as <-.
        rewrite Nat.sub_diag. split_and!; [done|lia|lia|done|lia].
      * right. destruct (Z.eqb_spec (i_ref ip) 0); [done|].
        replace (j - i)%nat with (S (j - S i)) by lia. split_and!; [done|lia|lia|done|].
        intros [|j'] Hj'; [done|]. apply Hb. lia.
    + destruct He as [He Hb]. unfold e1 in He. destruct e as [e|]; [done|].
      destruct (Z.eqb_spec (i_ref ip) 0); [done|]. split; [done|].
      intros [|j] Hj; [done|]. apply Hb. lia.
Qed.

(** Changing the slot [j] to a live one of [(dev, inum)] when no other slot
    caches that inode. *)
Lemma itab_ok_alter t g j dev inum :
  itab_ok t -> (j < NINODE)%nat -> 0 <= i_ref (g (t !!! j)) < 2 ^ 31 - 1 ->
  i_dev (g (t !!! j)) = dev -> i_inum (g (t !!! j)) = inum ->
  (forall i, (i < NINODE)%nat -> i <> j -> live dev inum (t !!! i) = false) ->
  itab_ok (alter g j t).
Proof.
  intros [Hl Hr Hu] Hj Hg Hd Hi Hn.
  assert (Hsame : forall i, (i < NINODE)%nat -> alter g j t !!! i = if decide (i = j) then g (t !!! j) else t !!! i).
  { intros i Hi'. destruct (decide (i = j)) as [->|Hne].
    - by rewrite list_lookup_total_alter_eq by lia.
    - by rewrite list_lookup_total_alter_ne. }
  assert (Hself : forall d n, live d n (g (t !!! j)) = true -> d = dev /\ n = inum).
  { unfold live. intros d n [[_ ?%Z.eqb_eq]%andb_prop ?%Z.eqb_eq]%andb_prop. split; congruence. }
  split.
  - by rewrite length_alter.
  - intros i Hi'. rewrite Hsame by done. destruct (decide (i = j)); [done|by apply Hr].
  - intros i i' d n Hi1 Hi2. rewrite !Hsame by done.
    destruct (decide (i = j)) as [->|], (decide (i' = j)) as [->|]; try done; try (intros H1 H2).
    + apply Hself in H1 as [-> ->]. rewrite Hn in H2 by done. done.
    + apply Hself in H2 as [-> ->]. rewrite Hn in H1 by done. done.
    + by apply (Hu i i' d n).
Qed.

Section itable.
Context {C U V : Type}.
Notation K := (kst C U V).
Implicit Types (k : K).

(** [iget] gives an inode one slot of the inode table and only one:
    if the inode is cached it returns that slot with one more reference and its
    contents kept, otherwise it takes the first free slot for it with one
    reference and nothing loaded, and it panics only when no slot is free; the
    other slots and the rest of the kernel state do not change. *)
Theorem iget_one_slot k dev inum :
  itab_ok (ks_itab k) -> (forall i, (i < NINODE)%nat -> i_ref (nd_inode k i) < 2 ^ 31 - 2) ->
  match iget dev inum k with
  | Ok j k' =>
      (j < NINODE)%nat /\ itab_ok (ks_itab k') /\ k' = with_itab (ks_itab k') k /\
      live dev inum (nd_inode k' j) = true /\
      (forall i, i <> j -> nd_inode k' i = nd_inode k i) /\
      ((exists i, (i < NINODE)%nat /\ live dev inum (nd_inode k i) = true) ->
         nd_inode k' j = set_ref (i_ref (nd_inode k j) + 1) (nd_inode k j)) /\
      ((forall i, (i < NINODE)%nat -> live dev inum (nd_inode k i) = false) ->
         i_ref (nd_inode k j) = 0 /\ i_ref (nd_inode k' j) = 1 /\ i_private (nd_inode k' j) = 0 /\
         forall i, (i < j)%nat -> i_ref (nd_inode k i) <> 0)
  | Stop e => e = SPanic "iget: no inodes" /\
      forall i, (i < NINODE)%nat ->
        i_ref (nd_inode k i) <> 0 /\ live dev inum (nd_inode k i) = false
  end.
Proof.
  intros Hok Hmax. pose proof (it_len _ Hok) as Hl. unfold iget, bind, gets.
  pose proof (iget_scan_spec (ks_itab k) 0 None dev inum) as Hs.
  destruct (iget_scan (ks_itab k) 0 None dev inum) as [j|[j|]].
  - destruct Hs as [Hj Hlive]. rewrite Nat.sub_0_r in Hlive. rewrite Hl in Hj.
    assert (Hj' : (j < NINODE)%nat) by lia. pose proof (it_ref _ Hok j Hj') as Hr.
    pose proof (Hmax j Hj') as Hm. unfold nd_inode in Hm.
    assert (Enew : alter (fun ip => set_ref (s32 (i_ref ip + 1)) ip) j (ks_itab k) !!! j =
      set_ref (i_ref (ks_itab k !!! j) + 1) (ks_itab k !!! j)).
    { rewrite list_lookup_total_alter_eq by lia. by rewrite s32_small by lia. }
    cbn. unfold nd_inode. cbn. rewrite Enew.
    assert (Hlive2 := Hlive). unfold live in Hlive2. zify_bool.
    split_and!; try done.
    + apply (itab_ok_alter _ _ _ dev inum); try done; cbn; [rewrite s32_small by lia; lia|].
      intros i Hi Hne. destruct (live dev inum (ks_itab k !!! i)) eqn:E; [|done].
      exfalso. apply Hne. by apply (it_uniq _ Hok i j dev inum).
    + unfold live. cbn. rewrite (proj2 (Z.ltb_lt 0 _)), (proj2 (Z.eqb_eq (i_dev _) _)), (proj2 (Z.eqb_eq (i_inum _) _)) by lia. done.
    + intros i Hne. by rewrite list_lookup_total_alter_ne.
    + intros Hn. rewrite Hn in Hlive by done. done.
  - destruct Hs as [Hn [?|(_ & Hj & Hz & Hb)]]; [done|]. rewrite Hl in *. rewrite Nat.sub_0_r in *.
    assert (Hj' : (j < NINODE)%nat) by lia.
    assert (Enew : alter (iget_take dev inum) j (ks_itab k) !!! j = iget_take dev inum (ks_itab k !!! j))
      by (by rewrite list_lookup_total_alter_eq by lia).
    cbn. unfold nd_inode. cbn. rewrite Enew. split_and!; try done.
    + apply (itab_ok_alter _ _ _ dev inum); try done. intros i Hi _. by apply Hn.
    + unfold live. cbn. by rewrite !Z.eqb_refl.
    + intros i Hne. by rewrite list_lookup_total_alter_ne.
    + intros (i & Hi & Hlv). rewrite Hn in Hlv by done. done.
  - destruct Hs as [Hn [_ Hb]]. rewrite Hl in *. split; [done|]. intros i Hi. split; [by apply Hb|by apply Hn].
Qed.
End itable.

(** ** [xv6fs_ialloc] *)

Section ialloc.
Context {C U V : Type} `{BL : BlockCacheLaws C}.
Notation K := (kst C U V).

(** Inode [inum] of the disk of [k] is the free one with the lowest number, and
    the disk of [k'] has it as an empty file of type [type], with everything else
    as it was. *)
Definition allocates (type inum : Z) (k k' : K) : Prop :=
  let sb := ks_sb k in let D := bc_disk (ks_cache k) in let D' := bc_disk (ks_cache k') in
  1 <= inum < ninodes sb /\ ~ allocated sb D inum /\ (forall j, 1 <= j < inum -> allocated sb D j) /\
  idle sb (ks_cache k') /\ fs_ok sb D' /\ disk_inode sb D' inum = fresh_dinode type /\ others_same sb D D' inum.

(** Slot [j] is the inode's, with one more reference and nothing loaded; the other
    slots and the rest of the kernel's state are as they were. *)
Definition slot_given (inum : Z) (j : nat) (k k' : K) : Prop :=
  (j < NINODE)%nat /\ itab_ok (ks_itab k') /\ live ROOTDEV inum (nd_inode k' j) = true /\
  i_private (nd_inode k' j) = 0 /\ i_ref (nd_inode k' j) = i_ref (nd_inode k j) + 1 /\
  (forall i, i <> j -> nd_inode k' i = nd_inode k i) /\
  k' = with_itab (ks_itab k') (with_cache (ks_cache k') k).

Lemma slot_given_take k c' k1 inum j (g : inode -> inode) :
  (forall ip, i_ref (g ip) = i_ref ip /\ i_inum (g ip) = i_inum ip /\ i_dev (g ip) = ROOTDEV /\ i_private (g ip) = 0) ->
  (j < NINODE)%nat -> itab_ok (ks_itab k1) -> k1 = with_itab (ks_itab k1) (with_cache c' k) ->
  live ROOTDEV inum (nd_inode k1 j) = true -> (forall i, i <> j -> nd_inode k1 i = nd_inode k i) ->
  i_ref (nd_inode k1 j) = i_ref (nd_inode k j) + 1 ->
  slot_given inum j k (with_itab (alter g j (ks_itab k1)) k1).
Proof.
  intros Hg Hj Hok Hk1 Hl Ho Hr. destruct (Hg (ks_itab k1 !!! j)) as (G1 & G2 & G3 & G4).
  assert (Hlen : length (ks_itab k1) = NINODE) by apply Hok.
  assert (Enew : alter g j (ks_itab k1) !!! j = g (ks_itab k1 !!! j)) by (rewrite list_lookup_total_alter_eq by lia; done).
  pose proof Hl as Hl'. unfold live, nd_inode in Hl'. zify_bool. unfold slot_given, nd_inode in *. cbn [ks_itab with_itab].
  rewrite Enew. split_and!; try done.
  - apply (itab_ok_alter _ _ _ ROOTDEV inum); try done; [rewrite G1; by apply Hok|lia|].
    intros i Hi Hne. destruct (live ROOTDEV inum (ks_itab k1 !!! i)) eqn:E; [|done].
    exfalso. apply Hne. by apply (it_uniq _ Hok i j ROOTDEV inum).
  - unfold live. rewrite G1, G2, G3. apply andb_true_intro. split; [apply andb_true_intro; split|]; lia.
  - by rewrite G1.
  - intros i Hne. rewrite list_lookup_total_alter_ne by done. by apply Ho.
  - rewrite Hk1. done.
Qed.

(** Claim C22: [xv6fs_ialloc] takes the free inode with the lowest number, marks
    it on the disk as an empty file of the requested type, keeps the file system
    consistent and every other file unchanged, and returns its slot in the inode
    table, with one more reference.  It returns null exactly when no inode of the
    disk is free, and then changes nothing; it panics exactly when there is a free
    inode but neither a slot that has it nor a free one. *)
Theorem xv6fs_ialloc_allocates (k : K) ri type :
  ks_root k = Some ri -> i_dev (nd_inode k ri) = ROOTDEV -> idle (ks_sb k) (ks_cache k) ->
  fs_ok (ks_sb k) (bc_disk (ks_cache k)) -> itab_ok (ks_itab k) ->
  (forall i, (i < NINODE)%nat -> i_ref (nd_inode k i) < 2 ^ 31 - 2) -> short_ok type -> type <> 0 ->
  match xv6fs_ialloc type k with
  | Ok (Some j) k' => exists inum, allocates type inum k k' /\ slot_given inum j k k'
  | Ok None k' => bc_disk (ks_cache k') = bc_disk (ks_cache k) /\ k' = with_cache (ks_cache k') k /\
      forall i, 1 <= i < ninodes (ks_sb k) -> allocated (ks_sb k) (bc_disk (ks_cache k)) i
  | Stop e => e = SPanic "iget: no inodes" /\
      exists inum, 1 <= inum < ninodes (ks_sb k) /\ ~ allocated (ks_sb k) (bc_disk (ks_cache k)) inum /\
        forall i, (i < NINODE)%nat -> i_ref (nd_inode k i) <> 0 /\ live ROOTDEV inum (nd_inode k i) = false
  end.
Proof.
  intros Hroot Hdev Hi Hfs Htab Hmax Hty Hne. unfold xv6fs_ialloc, onCache, lift, inode_at, bind at 1, gets at 1.
  rewrite Hroot. unfold bind at 1, gets at 1. unfold bind at 1, gets at 1. unfold bind at 1. rewrite Hdev.
  destruct (ialloc_consistent (ks_sb k) type (ks_cache k) Hi Hfs Hty Hne) as (r & c' & Hrun & Hi' & Hr). rewrite Hrun.
  cbv zeta in Hr. destruct r as [inum|]; [|destruct Hr as [HD Hall]; done].
  pose proof (iget_one_slot (with_cache c' k) ROOTDEV inum Htab Hmax) as Hget.
  destruct Hr as (Hr1 & Hr2 & Hr3 & Hr4 & Hr5 & Hr6). unfold bind at 1.
  destruct (iget ROOTDEV inum (with_cache c' k)) as [j k1|e].
  - destruct Hget as (Hj & Hok & Hk1 & Hl & Ho & Hcached & Hnew). cbn. exists inum. split.
    + unfold allocates. assert (Ec : ks_cache k1 = c') by (rewrite Hk1; done). cbn. rewrite Ec. done.
    + apply (slot_given_take k c' k1); try done.
      assert (Hdec : (exists i, (i < NINODE)%nat /\ live ROOTDEV inum (nd_inode (with_cache c' k) i) = true) \/
        (forall i, (i < NINODE)%nat -> live ROOTDEV inum (nd_inode (with_cache c' k) i) = false)).
      { destruct (decide (Exists (fun ip => live ROOTDEV inum ip = true) (ks_itab k))) as [He|He].
        - left. apply Exists_exists in He as (ip & (i & Hip)%list_elem_of_lookup & Hlive). exists i.
          split; [rewrite <-(it_len _ Htab); by eapply lookup_lt_Some|].
          unfold nd_inode. cbn. by rewrite (list_lookup_total_correct _ _ _ Hip).
        - right. intros i Hlt. unfold nd_inode. cbn. apply not_true_is_false. intros Hlive. apply He, Exists_exists.
          exists (ks_itab k !!! i). split; [|done]. apply list_elem_of_lookup_total_2. by rewrite (it_len _ Htab). }
      destruct Hdec as [He|He]; [by rewrite (Hcached He)|]. destruct (Hnew He) as (Z0 & -> & _). unfold nd_inode in *. cbn in Z0 |- *. by rewrite Z0.
  - destruct Hget as [-> Hno]. split; [done|]. exists inum. split_and!; try done; lia.
Qed.
End ialloc.

(** A kernel with the root inode in slot 3 and nothing else cached. *)
Definition ex_kst : kst unit unit unit := {|
  ks_cache := tt; ks_user := tt; ks_dev := tt; ks_km := Kalloc.kempty; ks_sb := ex_sb; ks_priv := ∅;
  ks_itab := <[3%nat := set_ref 1 (iget_take ROOTDEV ROOTINO inode0)]> (replicate NINODE inode0);
  ks_ftab := []; ks_root := None; ks_pid := 1; ks_sz := 0; ks_args := []; ks_cwd := 3%nat;
  ks_ofile := [] |}.

Lemma ex_itab i :
  (i < NINODE)%nat ->
  ks_itab ex_kst !!! i = if decide (i = 3%nat) then set_ref 1 (iget_take ROOTDEV ROOTINO inode0) else inode0.
Proof.
  intros Hi. cbn [ks_itab ex_kst]. case_decide as E.
  - subst i. by rewrite list_lookup_total_insert_eq by (rewrite length_replicate; lia).
  - rewrite list_lookup_total_insert_ne by done. rewrite list_lookup_total_alt, lookup_replicate_2 by done. done.
Qed.

Lemma ex_itab_ok : itab_ok (ks_itab ex_kst).
Proof.
  split.
  - reflexivity.
  - intros i Hi. rewrite ex_itab by done. case_decide; cbn; lia.
  - intros i j dev inum Hi Hj. rewrite !ex_itab by done. case_decide; case_decide; try done; by subst.
Qed.

Lemma ex_refs i : (i < NINODE)%nat -> i_ref (nd_inode ex_kst i) < 2 ^ 31 - 2.
Proof. intros Hi. unfold nd_inode. rewrite ex_itab by done. case_decide; cbn; lia. Qed.

Lemma iget_one_slot_witness :
  iget ROOTDEV ROOTINO ex_kst = Ok 3%nat (with_itab (alter (set_ref 2) 3%nat (ks_itab ex_kst)) ex_kst) /\
  itab_ok (ks_itab (with_itab (alter (set_ref 2) 3%nat (ks_itab ex_kst)) ex_kst)).
Proof.
  assert (Hrun : iget ROOTDEV ROOTINO ex_kst =
    Ok 3%nat (with_itab (alter (set_ref 2) 3%nat (ks_itab ex_kst)) ex_kst)) by (by vm_compute).
  split; [exact Hrun|].
  pose proof (iget_one_slot ex_kst ROOTDEV ROOTINO ex_itab_ok ex_refs) as H. rewrite Hrun in H.
  destruct H as (_ & H & _). exact H.
Defined.

(** The example disk of FsInv, with the root inode in slot 3. *)
Definition ex_kfs : kst Bio.bio unit unit := {|
  ks_cache := Bio.boot ex_disk 1; ks_user := tt; ks_dev := tt; ks_km := Kalloc.kempty; ks_sb := ex_sb; ks_priv := ∅;
  ks_itab := ks_itab ex_kst; ks_ftab := []; ks_root := Some 3%nat; ks_pid := 1; ks_sz := 0; ks_args := [];
  ks_cwd := 3%nat; ks_ofile := [] |}.

Lemma xv6fs_ialloc_allocates_witness :
  exists j k' inum, xv6fs_ialloc T_FILE ex_kfs = Ok (Some j) k' /\ allocates T_FILE inum ex_kfs k' /\
    slot_given inum j ex_kfs k'.
Proof.
  assert (H3 : ~ allocated ex_sb ex_disk 3) by (intros [_ Ht]; apply Ht; vm_compute; reflexivity).
  assert (Hv : bc_disk (ks_cache ex_kfs) = ex_disk) by exact ex_disk_view.
  assert (H : fs_ok (ks_sb ex_kfs) (bc_disk (ks_cache ex_kfs))) by (rewrite Hv; exact ex_disk_fs_ok).
  pose proof (xv6fs_ialloc_allocates ex_kfs 3 T_FILE eq_refl eq_refl ex_idle H ex_itab_ok ex_refs
    ltac:(unfold short_ok, T_FILE; lia) ltac:(done)) as Hres.
  destruct (xv6fs_ialloc T_FILE ex_kfs) as [[j|] k'|e].
  - destruct Hres as (inum & Ha & Hs). by exists j, k', inum.
  - exfalso. destruct Hres as (_ & _ & Hall). rewrite Hv in Hall. apply H3, Hall. cbn. lia.
  - exfalso. destruct Hres as (_ & inum & _ & _ & Hno). destruct (Hno 0%nat ltac:(unfold NINODE; lia)) as [Hz _].
    apply Hz. reflexivity.
Defined.
