(* ===== verification/Mkfs.v ===== *)
(** * The image builder (mkfs/mkfs.c)

    [mkfs fs.img files...] runs on the build host and writes the disk the
    kernel boots from.  The state is the image file and the two allocation
    counters.  The host's system calls are the class [Host]: which files can be
    opened, the chunks in which they are read, and which of the calls on the
    image fail; [HostLaws] states what [read] promises.  [die] and a failed
    [assert] end the program and are modelled as stops.  The host is
    little-endian, as the code needs ([IBLOCK] and [balloc] use the fields of
    [sb] without converting them back).

    [MkfsSpec.v] proves what the image holds in the end. *)

From S2P Require Import Prelude Sleeplock BlockCache Bio Blocks Inode Cstring VfsState Vfs.

(** ** Globals *)

Definition FSSIZE : Z := 2000.
Definition LOGSIZE : Z := 10 * 3.
Definition NINODES : Z := 200.

Definition nbitmap : Z := FSSIZE / (BSIZE * 8) + 1.
Definition ninodeblocks : Z := NINODES / IPB + 1.
Definition nlog : Z := LOGSIZE.
Definition nmeta : Z := 2 + nlog + ninodeblocks + nbitmap.
Definition nblocks : Z := FSSIZE - nmeta.

(** The image file ([img], [img_len] blocks long), [freeinode], [freeblock],
    and the number of system calls made on the image so far. *)
Record mkfs : Type := {
  img : gmap Z block;
  img_len : Z;
  freeinode : Z;
  freeblock : Z;
  ios : nat;
}.

Class Host : Type := {
  (** [open(argv[1], O_RDWR|O_CREAT|O_TRUNC, 0666)] succeeds *)
  creat : list Z -> bool;
  (** [None]: [open] fails; otherwise what the successive calls of [read]
      return until the first one that returns nothing *)
  open_read : list Z -> option (list (list Z));
  (** the n-th call of [lseek], [read] or [write] on the image succeeds *)
  io : nat -> bool;
}.

(** [read(fd, buf, BSIZE)] returns at most [BSIZE] bytes. *)
Definition chunk_ok (c : list Z) : Prop :=
  (0 < length c <= Z.to_nat BSIZE)%nat /\ Forall byte_ok c.

Class HostLaws `{Host} : Prop :=
  read_law : forall path chunks, open_read path = Some chunks -> Forall chunk_ok chunks.

(** ** Byte order *)

Definition xshort (x : Z) : Z := le_dec [u8 x; u8 (Z.shiftr x 8)].
Definition xint (x : Z) : Z :=
  le_dec [u8 x; u8 (Z.shiftr x 8); u8 (Z.shiftr x 16); u8 (Z.shiftr x 24)].

Definition sb : xv6fs_super_block := {|
  magic := FSMAGIC;
  size := xint FSSIZE;
  Blocks.nblocks := xint nblocks;
  ninodes := xint NINODES;
  Blocks.nlog := xint nlog;
  logstart := xint 2;
  inodestart := xint (2 + nlog);
  bmapstart := xint (2 + nlog + ninodeblocks) |}.

(** ** Sectors and inodes *)

Definition die {A} (s : string) : M mkfs A := panic s.
Definition assert (c : bool) : M mkfs unit := if c then ret tt else panic "assert".

Definition set_img (D : gmap Z block) (n : Z) (s : mkfs) : mkfs :=
  {| img := D; img_len := n; freeinode := freeinode s; freeblock := freeblock s; ios := ios s |}.
Definition set_freeinode (i : Z) (s : mkfs) : mkfs :=
  {| img := img s; img_len := img_len s; freeinode := i; freeblock := freeblock s; ios := ios s |}.
Definition set_freeblock (b : Z) (s : mkfs) : mkfs :=
  {| img := img s; img_len := img_len s; freeinode := freeinode s; freeblock := b; ios := ios s |}.
Definition set_ios (n : nat) (s : mkfs) : mkfs :=
  {| img := img s; img_len := img_len s; freeinode := freeinode s; freeblock := freeblock s; ios := n |}.

Section Mkfs.
Context `{HT : Host}.

Definition syscall (what : string) : M mkfs unit :=
  n <- gets ios ;;
  modify (set_ios (S n)) ;;
  if io n then ret tt else die what.

(** The block at file offset [sec * BSIZE], a [uint]. *)
Definition sector (sec : Z) : Z := u32 (sec * BSIZE) / BSIZE.

Definition wsect (sec : Z) (buf : block) : M mkfs unit :=
  syscall "lseek" ;;
  syscall "write" ;;
  modify (fun s => set_img (<[sector sec := buf]> (img s)) (Z.max (img_len s) (sector sec + 1)) s).

(** At the end of the file [read] returns less than [BSIZE]. *)
Definition rsect (sec : Z) : M mkfs block :=
  syscall "lseek" ;;
  syscall "read" ;;
  n <- gets img_len ;;
  if sector sec <? n then gets (fun s => dblk (img s) (sector sec)) else die "read".

Definition winode (inum : Z) (ip : dinode) : M mkfs unit :=
  let bn := IBLOCK inum sb in
  buf <- rsect bn ;;
  wsect bn (put_dinode inum ip buf).

Definition rinode (inum : Z) : M mkfs dinode :=
  let bn := IBLOCK inum sb in
  buf <- rsect bn ;;
  ret (get_dinode inum buf).

Definition ialloc (type : Z) : M mkfs Z :=
  inum <- gets freeinode ;;
  modify (set_freeinode (u32 (inum + 1))) ;;
  winode inum {| d_type := s16 (xshort type); d_major := 0; d_minor := 0; d_nlink := s16 (xshort 1);
                 d_size := xint 0; d_addrs := replicate NADDRS 0 |} ;;
  ret inum.

(** The loop of [balloc]: bits [i] to [i + k - 1]. *)
Fixpoint balloc_loop (k : nat) (i : Z) (buf : block) : block :=
  match k with
  | O => buf
  | S k => balloc_loop k (i + 1) (set_bit i buf)
  end.

Definition balloc (used : Z) : M mkfs unit :=
  assert (used <? BSIZE * 8) ;;
  wsect (bmapstart sb) (balloc_loop (Z.to_nat used) 0 zero_block).

(** ** [iappend] *)

(** [freeblock++] *)
Definition next_block : M mkfs Z :=
  b <- gets freeblock ;;
  modify (set_freeblock (u32 (b + 1))) ;;
  ret b.

Definition set_daddr (i : nat) (a : Z) (din : dinode) : dinode :=
  {| d_type := d_type din; d_major := d_major din; d_minor := d_minor din; d_nlink := d_nlink din;
     d_size := d_size din; d_addrs := <[i := a]> (d_addrs din) |}.
Definition set_dsize (n : Z) (din : dinode) : dinode :=
  {| d_type := d_type din; d_major := d_major din; d_minor := d_minor din; d_nlink := d_nlink din;
     d_size := n; d_addrs := d_addrs din |}.

(** [if(xint(din.addrs[i]) == 0) din.addrs[i] = xint(freeblock++);] *)
Definition fill_addr (i : nat) (din : dinode) : M mkfs dinode :=
  if xint (d_addrs din !!! i) =? 0 then
    b <- next_block ;;
    ret (set_daddr i (xint b) din)
  else ret din.

(** Entry [j] of the indirect block [a], filled if it is empty. *)
Definition indirect_entry (a : Z) (j : nat) : M mkfs Z :=
  indirect <- rsect a ;;
  indirect <-
    (if get32 (4 * j) indirect =? 0 then
       b <- next_block ;;
       let indirect := put32 (4 * j) (xint b) indirect in
       wsect a indirect ;;
       ret indirect
     else ret indirect) ;;
  ret (xint (get32 (4 * j) indirect)).

(** The block [x] of the file's block [fbn]. *)
Definition iappend_block (din : dinode) (fbn : Z) : M mkfs (dinode * Z) :=
  if fbn <? NDIRECT then
    din <- fill_addr (Z.to_nat fbn) din ;;
    ret (din, xint (d_addrs din !!! Z.to_nat fbn))
  else
    din <- fill_addr (Z.to_nat NDIRECT) din ;;
    x <- indirect_entry (xint (d_addrs din !!! Z.to_nat NDIRECT)) (Z.to_nat (fbn - NDIRECT)) ;;
    ret (din, x).

(** The loop of [iappend]; [n] rounds are enough, each copies a byte. *)
Fixpoint iappend_loop (fuel : nat) (din : dinode) (off : Z) (p : list Z) (n : Z)
    : M mkfs (dinode * Z) :=
  match fuel with
  | O => ret (din, off)
  | S fuel =>
      if 0 <? n then
        let fbn := off / BSIZE in
        assert (fbn <? MAXFILE) ;;
        ' (din, x) <- iappend_block din fbn ;;
        let left := u32 ((fbn + 1) * BSIZE - off) in
        let n1 := if u32 n <? left then u32 n else left in
        buf <- rsect x ;;
        wsect x (splice (Z.to_nat (off - fbn * BSIZE)) (take (Z.to_nat n1) p) buf) ;;
        iappend_loop fuel din (u32 (off + n1)) (drop (Z.to_nat n1) p) (s32 (n - n1))
      else ret (din, off)
  end.

Definition iappend (inum : Z) (p : list Z) (n : Z) : M mkfs unit :=
  din <- rinode inum ;;
  let off := xint (d_size din) in
  ' (din, off) <- iappend_loop (S (Z.to_nat n)) din off p n ;;
  winode inum (set_dsize (xint off) din).

(** ** [main] *)

Fixpoint zero_image (k : nat) (i : Z) : M mkfs unit :=
  match k with
  | O => ret tt
  | S k => wsect i zero_block ;; zero_image k (i + 1)
  end.

(** [while((cc = read(fd, buf, sizeof(buf))) > 0) iappend(inum, buf, cc);] *)
Fixpoint append_all (inum : Z) (chunks : list (list Z)) : M mkfs unit :=
  match chunks with
  | [] => ret tt
  | c :: chunks => iappend inum c (Z.of_nat (length c)) ;; append_all inum chunks
  end.

Definition user_prefix : list Z := [117; 115; 101; 114; 47].
Definition underscore : Z := 95.

(** The name without [user/]. *)
Definition short_name (path : list Z) : list Z :=
  if strncmp path user_prefix 5 =? 0 then drop 5 path else path.

(** [if(shortname[0] == '_') shortname += 1;] *)
Definition skip_underscore (name : list Z) : list Z :=
  if hd 0 name =? underscore then tl name else name.

(** The bytes of a [struct xv6fs_dentry] whose name was zeroed first. *)
Definition dentry_of (inum : Z) (name : list Z) : list Z :=
  dent_bytes (xshort inum) (strncpy name DIRSIZ).

Definition add_file (rootino : Z) (path : list Z) : M mkfs unit :=
  let shortname := short_name path in
  assert (negb (existsb (Z.eqb slash) shortname)) ;;
  match open_read path with
  | None => die "open"
  | Some chunks =>
      let shortname := skip_underscore shortname in
      inum <- ialloc T_FILE ;;
      iappend rootino (dentry_of inum shortname) DENTRY_SIZE ;;
      append_all inum chunks
  end.

Fixpoint add_files (rootino : Z) (paths : list (list Z)) : M mkfs unit :=
  match paths with
  | [] => ret tt
  | path :: paths => add_file rootino path ;; add_files rootino paths
  end.

(** The last part of [main]: the size of the root directory in whole blocks,
    and the bitmap. *)
Definition finish (rootino : Z) : M mkfs unit :=
  din <- rinode rootino ;;
  let off := xint (d_size din) in
  let off := u32 ((off / BSIZE + 1) * BSIZE) in
  winode rootino (set_dsize (xint off) din) ;;
  b <- gets freeblock ;;
  balloc (s32 b).

Definition dot : list Z := [46].
Definition dotdot : list Z := [46; 46].

Definition main (args : list (list Z)) : M mkfs unit :=
  match args with
  | [] => die "Usage: mkfs fs.img files..."
  | image :: files =>
      assert (BSIZE mod DINODE_SIZE =? 0) ;;
      assert (BSIZE mod DENTRY_SIZE =? 0) ;;
      (if creat image then ret tt else die "open") ;;
      modify (set_freeblock nmeta) ;;
      zero_image (Z.to_nat FSSIZE) 0 ;;
      wsect 1 (splice 0 (bytes_of_sb sb) zero_block) ;;
      rootino <- ialloc T_DIR ;;
      assert (rootino =? ROOTINO) ;;
      iappend rootino (dentry_of rootino dot) DENTRY_SIZE ;;
      iappend rootino (dentry_of rootino dotdot) DENTRY_SIZE ;;
      add_files rootino files ;;
      finish rootino
  end.

End Mkfs.

(** The state when [main] starts: the image was truncated by [open]. *)
Definition mkfs_init : mkfs :=
  {| img := ∅; img_len := 0; freeinode := 1; freeblock := 0; ios := 0 |}.
