(* ===== verification/MkfsSpec.v ===== *)
(** * What the image builder leaves on the disk (mkfs/mkfs.c)

    The invariant [image] says that the image, with the bitmap [balloc] would
    write now, is a consistent file system ([FsInv.fs_ok]) holding a list of
    files; [ialloc] adds an empty file to the list and [iappend] appends to one
    of them.  On this sealed image, taking the next free block is the kernel's
    [balloc] and a round of [iappend] is the kernel's [bmap] followed by a
    write into the block, so the lemmas of [BlockMap.v] and [FsInv.v] apply. *)

From S2P Require Import Prelude Sleeplock BlockCache Bio Blocks Inode BlockMap UserMem FileIO FsInv Cstring VfsState Vfs Mkfs.

(** ** The layout *)

Lemma sb_ok_mkfs : sb_ok sb.
Proof. split; try (vm_compute; split; congruence); vm_compute; congruence. Qed.

Lemma sb_size : size sb = 2000. Proof. reflexivity. Qed.
Lemma sb_ninodes : ninodes sb = 200. Proof. reflexivity. Qed.
Lemma sb_bmapstart : bmapstart sb = 45. Proof. reflexivity. Qed.
Lemma sb_inodestart : inodestart sb = 32. Proof. reflexivity. Qed.
Lemma sb_nmeta : Blocks.nmeta sb = 46. Proof. reflexivity. Qed.

Lemma xint_small x : 0 <= x < 2 ^ 32 -> xint x = x.
Proof.
  intros Hx. unfold xint, u8. cbn [le_dec]. rewrite !Z.shiftr_div_pow2 by lia.
  change (2 ^ 8) with 256. change (2 ^ 16) with (256 * 256). change (2 ^ 24) with (256 * 256 * 256).
  rewrite <-!Z.div_div by lia.
  pose proof (Z.div_mod x 256). pose proof (Z.div_mod (x / 256) 256).
  pose proof (Z.div_mod (x / 256 / 256) 256).
  assert (x / 256 / 256 / 256 < 256) by (rewrite !Z.div_div by lia; apply Z.div_lt_upper_bound; lia).
  assert (0 <= x / 256 / 256 / 256) by (rewrite !Z.div_div by lia; apply Z.div_pos; lia).
  rewrite (Z.mod_small (x / 256 / 256 / 256)) by lia. lia.
Qed.

Lemma xshort_small x : 0 <= x < 2 ^ 16 -> xshort x = x.
Proof.
  intros Hx. unfold xshort, u8. cbn [le_dec]. rewrite Z.shiftr_div_pow2 by lia.
  change (2 ^ 8) with 256. pose proof (Z.div_mod x 256).
  assert (x / 256 < 256) by (apply Z.div_lt_upper_bound; lia).
  assert (0 <= x / 256) by (apply Z.div_pos; lia).
  rewrite (Z.mod_small (x / 256)) by lia. lia.
Qed.

Lemma sector_small sec : 0 <= sec < FSSIZE -> sector sec = sec.
Proof.
  intros Hs. unfold sector, FSSIZE, BSIZE in *. rewrite u32_small by lia. by apply Z.div_mul.
Qed.

Lemma IBLOCK_mkfs i : 0 <= i < NINODES -> 32 <= IBLOCK i sb < 45.
Proof.
  intros Hi. destruct (IBLOCK_range sb i sb_ok_mkfs Hi) as [E ?].
  rewrite sb_bmapstart, sb_inodestart in *. assert (0 <= i / IPB) by (apply Z.div_pos; [lia|done]). lia.
Qed.

Lemma BBLOCK_mkfs b : 0 <= b < FSSIZE -> BBLOCK b sb = bmapstart sb /\ b mod BPB = b.
Proof.
  intros Hb. unfold BBLOCK, BPB, BSIZE, FSSIZE in *. rewrite sb_bmapstart.
  rewrite Z.div_small, Z.mod_small by lia. done.
Qed.

(** ** The bitmap and the disk it describes *)

Definition bitmap (fb : Z) : block := balloc_loop (Z.to_nat fb) 0 zero_block.

(** The image as a disk, once the bitmap for [fb] is written. *)
Definition seal (fb : Z) (D : gmap Z block) : gmap Z block := <[bmapstart sb := bitmap fb]> D.

Lemma balloc_loop_snoc k i buf :
  balloc_loop (S k) i buf = set_bit (i + Z.of_nat k) (balloc_loop k i buf).
Proof.
  revert i buf. induction k as [|k IH]; intros i buf; [cbn; f_equal; lia|].
  cbn [balloc_loop] in *. rewrite IH. f_equal. lia.
Qed.

Lemma bitmap_next fb : 0 <= fb -> bitmap (fb + 1) = set_bit fb (bitmap fb).
Proof.
  intros Hf. unfold bitmap. rewrite Z2Nat.inj_add by lia. rewrite Nat.add_1_r, balloc_loop_snoc.
  f_equal. lia.
Qed.

Lemma bitmap_spec fb :
  0 <= fb <= BPB -> block_ok (bitmap fb) /\ forall b, 0 <= b < BPB -> bit_at (bitmap fb) b = (b <? fb).
Proof.
  intros [H0 H1]. revert H1. pattern fb. apply natlike_ind; [|clear fb H0; intros fb H0 IH H1|done].
  - intros _. split; [apply zero_block_ok|]. intros b Hb. change (bitmap 0) with zero_block. unfold bit_at, bit_byte.
    rewrite (proj2 (Z.ltb_ge b 0)) by lia. unfold zero_block. rewrite lookup_total_replicate_2.
    + apply Z.bits_0.
    + unfold BPB, BSIZE in *. pose proof (Z.div_lt_upper_bound b 8 1024). lia.
  - change (Z.succ fb) with (fb + 1) in *. destruct (IH ltac:(lia)) as [Hok Hb].
    rewrite bitmap_next by done. split; [by apply set_bit_ok|]. intros b Hbr.
    rewrite bit_at_set by (done || lia). rewrite Hb by done.
    destruct (Z.eqb_spec fb b), (Z.ltb_spec b fb), (Z.ltb_spec b (fb + 1)); lia || done.
Qed.

Lemma in_use_seal fb D b :
  0 <= fb <= FSSIZE -> 0 <= b < FSSIZE -> in_use sb (seal fb D) b = (b <? fb).
Proof.
  intros Hf Hb. unfold in_use. destruct (BBLOCK_mkfs b Hb) as [-> ->].
  unfold seal. rewrite dblk_insert_eq. apply bitmap_spec; unfold FSSIZE, BPB, BSIZE in *; lia.
Qed.

Lemma seal_disk_ok fb D : 0 <= fb <= FSSIZE -> disk_ok D -> disk_ok (seal fb D).
Proof.
  intros Hf HD. apply disk_ok_insert; [done|]. apply bitmap_spec. unfold FSSIZE, BPB, BSIZE in *. lia.
Qed.

Lemma seal_insert fb D b d : b <> bmapstart sb -> seal fb (<[b := d]> D) = <[b := d]> (seal fb D).
Proof. intros Hb. unfold seal. by rewrite insert_insert_ne by congruence. Qed.

Lemma dblk_seal fb D b : b <> bmapstart sb -> dblk (seal fb D) b = dblk D b.
Proof. intros Hb. unfold seal. by rewrite dblk_insert_ne by congruence. Qed.

(** The blocks from [fb] on have not been used. *)
Definition unused (D : gmap Z block) (fb : Z) : Prop :=
  forall b, fb <= b < FSSIZE -> D !! b = Some zero_block.

(** Taking the next block is the kernel's [balloc] on the sealed image. *)
Lemma seal_next fb D :
  nmeta <= fb < FSSIZE -> unused D fb -> seal (fb + 1) D = balloc_disk sb (seal fb D) fb.
Proof.
  intros Hf Hu. change nmeta with 46 in Hf. unfold balloc_disk.
  destruct (BBLOCK_mkfs fb ltac:(lia)) as [-> ->].
  unfold seal at 2 3. rewrite dblk_insert_eq, insert_insert_eq, <-bitmap_next by lia.
  rewrite insert_id; [done|]. rewrite lookup_insert_ne by (rewrite sb_bmapstart; lia).
  apply Hu. lia.
Qed.

(** ** Running without host errors *)

Section specs.
Context `{HT : Host} (Hio : forall n, io n = true).

(** The image has [FSSIZE] blocks with contents [D]. *)
Definition holds_at (s : mkfs) (D : gmap Z block) (fi fb : Z) : Prop :=
  img s = D /\ img_len s = FSSIZE /\ freeinode s = fi /\ freeblock s = fb.

Lemma syscall_wp what Q s : Q tt (set_ios (S (ios s)) s) -> wp (syscall what) Q s.
Proof. intros HQ. unfold wp, syscall, bind, gets, modify. rewrite Hio. exact HQ. Qed.

Lemma wsect_wp sec buf D fi fb Q s :
  holds_at s D fi fb -> 0 <= sec < FSSIZE ->
  (forall s', holds_at s' (<[sec := buf]> D) fi fb -> Q tt s') -> wp (wsect sec buf) Q s.
Proof.
  intros (HD & Hl & Hi & Hb) Hs HQ. unfold wsect. apply wp_bind, syscall_wp, wp_bind, syscall_wp, wp_modify.
  rewrite sector_small by done. apply HQ. split_and!; cbn; [congruence|lia|done|done].
Qed.

Lemma rsect_wp sec D fi fb Q s :
  holds_at s D fi fb -> 0 <= sec < FSSIZE ->
  (forall s', holds_at s' D fi fb -> Q (dblk D sec) s') -> wp (rsect sec) Q s.
Proof.
  intros (HD & Hl & Hi & Hb) Hs HQ. unfold rsect. apply wp_bind, syscall_wp, wp_bind, syscall_wp.
  apply wp_bind, wp_gets. cbn [img_len set_ios]. rewrite sector_small, Hl by done.
  rewrite (proj2 (Z.ltb_lt _ _)) by lia. apply wp_gets. cbn [img set_ios]. rewrite HD.
  by apply HQ.
Qed.

Lemma winode_wp i di D fi fb Q s :
  holds_at s D fi fb -> 0 <= i < NINODES ->
  (forall s', holds_at s' (iupdate_disk sb D i di) fi fb -> Q tt s') -> wp (winode i di) Q s.
Proof.
  intros Hs Hi HQ. pose proof (IBLOCK_mkfs i Hi). unfold winode.
  apply wp_bind. eapply rsect_wp; [done|unfold FSSIZE; lia|]. intros s1 H1.
  eapply wsect_wp; [done|unfold FSSIZE; lia|]. done.
Qed.

Lemma rinode_wp i D fi fb Q s :
  holds_at s D fi fb -> 0 <= i < NINODES ->
  (forall s', holds_at s' D fi fb -> Q (disk_inode sb D i) s') -> wp (rinode i) Q s.
Proof.
  intros Hs Hi HQ. pose proof (IBLOCK_mkfs i Hi). unfold rinode.
  apply wp_bind. eapply rsect_wp; [done|unfold FSSIZE; lia|]. intros s1 H1.
  apply wp_ret. by apply HQ.
Qed.

Lemma next_block_wp D fi fb Q s :
  holds_at s D fi fb -> 0 <= fb < FSSIZE ->
  (forall s', holds_at s' D fi (fb + 1) -> Q fb s') -> wp next_block Q s.
Proof.
  intros (HD & Hl & Hi & Hb) Hf HQ. unfold next_block.
  apply wp_bind, wp_gets, wp_bind, wp_modify, wp_ret. rewrite Hb. apply HQ.
  split_and!; cbn; try done. apply u32_small. unfold FSSIZE in Hf. lia.
Qed.

(** ** One block of [iappend] *)

(** Taking the next block for an empty address of the inode. *)
Lemma next_fill fb D ipp i :
  let V := seal fb D in
  nmeta <= fb < FSSIZE -> disk_ok D -> unused D fb -> iwf sb V ipp -> (i <= IND)%nat ->
  slot V ipp i = 0 ->
  in_use sb V fb = false /\ disk_ok V /\ iwf sb (seal (fb + 1) D) (set_addr i fb ipp) /\
  forall t, (t < NSLOTS)%nat ->
    slot (seal (fb + 1) D) (set_addr i fb ipp) t = if decide (t = i) then fb else slot V ipp t.
Proof.
  intros V Hf HD Hu Hw Hi H0. change nmeta with 46 in Hf. unfold FSSIZE in Hf.
  assert (Hfree : in_use sb V fb = false).
  { unfold V. rewrite in_use_seal by (unfold FSSIZE; lia). apply Z.ltb_irrefl. }
  assert (HV : disk_ok V) by (apply seal_disk_ok; [unfold FSSIZE; lia|done]).
  assert (Hr : Blocks.nmeta sb <= fb < size sb) by (rewrite sb_nmeta, sb_size; lia).
  rewrite seal_next by (done || (unfold FSSIZE; change nmeta with 46; lia)). fold V.
  split_and!; [done|done|by apply iwf_fill_addr; try apply sb_ok_mkfs|].
  intros t Ht. by apply slot_fill_addr; try apply sb_ok_mkfs.
Qed.

Lemma fill_direct fb D ipp bn :
  let V := seal fb D in
  nmeta <= fb < FSSIZE -> disk_ok D -> unused D fb -> iwf sb V ipp -> 0 <= bn < NDIRECT ->
  slot V ipp (bslot bn) = 0 ->
  bmap_post sb V ipp bn fb (set_addr (Z.to_nat bn) fb ipp) (seal (fb + 1) D).
Proof.
  intros V Hf HD Hu Hw Hbn H0. assert (Hi : (Z.to_nat bn <= IND)%nat) by (unfold NDIRECT in Hbn; lia).
  assert (Eb : bslot bn = Z.to_nat bn) by (unfold bslot; by rewrite (proj2 (Z.ltb_lt _ _)) by lia).
  rewrite Eb in H0.
  destruct (next_fill fb D ipp (Z.to_nat bn) Hf HD Hu Hw Hi H0) as (Hfree & HV & Hw' & Hsl). fold V in Hfree, HV, Hsl.
  pose proof (seal_next fb D Hf Hu) as En. fold V in En. change nmeta with 46 in Hf. unfold FSSIZE in Hf.
  assert (Hr : Blocks.nmeta sb <= fb < size sb) by (rewrite sb_nmeta, sb_size; lia).
  apply bmap_post_fill; try done; rewrite ?Eb; try done; try apply sb_ok_mkfs.
  - rewrite En. by apply grows_balloc; try apply sb_ok_mkfs.
  - by apply slot_bound.
  - rewrite En. apply dblk_balloc_new.
  - intros b Hb. rewrite En. by apply in_use_balloc_new; try apply sb_ok_mkfs.
Qed.

(** Same inode but for the block list. *)
Definition same_meta (din din' : dinode) : Prop :=
  (d_type din', d_major din', d_minor din', d_nlink din', d_size din') =
  (d_type din, d_major din, d_minor din, d_nlink din, d_size din).

Definition is0 (x : Z) : Z := if x =? 0 then 1 else 0.

Lemma iwf_addr_small fb D din i :
  iwf sb (seal fb D) (dxi din) -> (i <= IND)%nat -> xint (d_addrs din !!! i) = d_addrs din !!! i.
Proof.
  intros Hw Hi. pose proof (iwf_addrs_ok sb _ _ sb_ok_mkfs Hw) as Ha. apply xint_small.
  assert (Hl : (i < length (d_addrs din))%nat).
  { pose proof (iw_len _ _ _ Hw) as Hl. cbn in Hl. rewrite Hl. unfold NADDRS, NDIRECT. lia. }
  apply (Forall_lookup_total_1 _ _ _ Ha Hl).
Qed.

Lemma fill_addr_wp i din D fi fb Q s :
  holds_at s D fi fb -> iwf sb (seal fb D) (dxi din) -> (i <= IND)%nat ->
  let a := d_addrs din !!! i in
  nmeta <= fb -> fb + is0 a <= FSSIZE ->
  (forall s', holds_at s' D fi (fb + is0 a) ->
     Q (if a =? 0 then set_daddr i fb din else din) s') ->
  wp (fill_addr i din) Q s.
Proof.
  intros Hs Hw Hi a Hf Hmax HQ. unfold fill_addr. rewrite (iwf_addr_small fb D) by done. fold a.
  unfold is0 in *. change nmeta with 46 in Hf. destruct (a =? 0).
  - apply wp_bind. eapply next_block_wp; [done|lia|]. intros s1 H1. apply wp_ret.
    rewrite xint_small by (unfold FSSIZE in Hmax; lia). by apply HQ.
  - apply wp_ret, HQ. by rewrite Z.add_0_r.
Qed.

(** What [iappend_block] leaves behind: the state of the kernel's [bmap]. *)
Definition block_post (D : gmap Z block) (fi fb : Z) (din : dinode) (bn : Z) (din' : dinode) (x : Z)
    (s' : mkfs) : Prop :=
  let V := seal fb D in
  let n := is0 (slot V (dxi din) (bslot bn)) +
           (if bn <? NDIRECT then 0 else is0 (slot V (dxi din) IND)) in
  exists D', holds_at s' D' fi (fb + n) /\ disk_ok D' /\ unused D' (fb + n) /\ x <> 0 /\
    same_meta din din' /\
    (bn < NDIRECT -> slot (seal (fb + n) D') (dxi din') IND = slot V (dxi din) IND) /\
    bmap_post sb V (dxi din) bn x (dxi din') (seal (fb + n) D').

Lemma indirect_entry_wp din D fi fb bn Q s :
  let V := seal fb D in
  let a := d_addrs din !!! IND in
  let n := is0 (slot V (dxi din) (bslot bn)) in
  holds_at s D fi fb -> disk_ok D -> unused D fb -> iwf sb V (dxi din) -> a <> 0 ->
  NDIRECT <= bn < MAXFILE -> nmeta <= fb -> fb + n <= FSSIZE ->
  (forall x s' D', holds_at s' D' fi (fb + n) -> disk_ok D' -> unused D' (fb + n) -> x <> 0 ->
     bmap_post sb V (dxi din) bn x (dxi din) (seal (fb + n) D') -> Q x s') ->
  wp (indirect_entry a (Z.to_nat (bn - NDIRECT))) Q s.
Proof.
  intros V a n Hs HD Hu Hw Ha Hbn Hf Hmax HQ. set (j := Z.to_nat (bn - NDIRECT)).
  change nmeta with 46 in Hf. unfold FSSIZE in Hmax.
  assert (HV : disk_ok V) by (apply seal_disk_ok; [unfold FSSIZE; unfold n, is0 in Hmax; destruct (_ =? 0); lia|done]).
  destruct (so_used _ _ _ (iw_slots _ _ _ Hw) IND (slot_bound IND ltac:(lia)) Ha) as [Har Hau].
  change (slot V (dxi din) IND) with a in Har, Hau. rewrite sb_nmeta, sb_size in Har.
  assert (Hb : bslot bn = (13 + j)%nat) by (apply bslot_ind; [lia|done]).
  assert (Hj : (j < Z.to_nat NINDIRECT)%nat).
  { unfold j. change MAXFILE with 268 in Hbn. change NDIRECT with 12 in *. change NINDIRECT with 256. lia. }
  assert (E : slot V (dxi din) (bslot bn) = get32 (4 * j) (dblk D a)).
  { rewrite Hb, slot13 by done. fold a. f_equal. apply dblk_seal. rewrite sb_bmapstart. cbn. lia. }
  unfold indirect_entry. apply wp_bind. eapply rsect_wp; [done|unfold FSSIZE; lia|]. intros s1 H1.
  apply wp_bind. rewrite <-E. destruct (Z.eqb_spec (slot V (dxi din) (bslot bn)) 0) as [H0|Hne].
  - unfold n, is0 in *. rewrite (proj2 (Z.eqb_eq _ _) H0) in *.
    apply wp_bind. eapply next_block_wp; [done|unfold FSSIZE; lia|]. intros s2 H2.
    assert (Hw32 : word_ok fb) by (unfold word_ok; lia).
    assert (Hlen : (4 * j + 4 <= length (dblk D a))%nat).
    { destruct (HD a) as [-> _]. change (Z.to_nat NINDIRECT) with 256%nat in Hj. unfold BSIZE. lia. }
    rewrite xint_small by (unfold word_ok in Hw32; lia).
    apply wp_bind. eapply wsect_wp; [done|unfold FSSIZE; lia|]. intros s3 H3. apply wp_ret, wp_ret.
    rewrite get32_put32 by done. rewrite xint_small by (unfold word_ok in Hw32; lia).
    apply (HQ _ _ _ H3).
    + apply disk_ok_insert; [done|]. apply put32_ok; [done|]. by destruct (HD a) as [<- _].
    + intros b Hbr. rewrite lookup_insert_ne; [apply Hu; lia|]. intros ->.
      unfold V in Hau. rewrite in_use_seal in Hau by (unfold FSSIZE; lia). apply Z.ltb_lt in Hau. lia.
    + lia.
    + rewrite seal_insert by (rewrite sb_bmapstart; lia).
      rewrite seal_next by (done || (unfold FSSIZE; change nmeta with 46; lia)). fold V.
      rewrite <-(dblk_seal fb D a) by (rewrite sb_bmapstart; lia). fold V.
      assert (in_use sb V fb = false) by (unfold V; rewrite in_use_seal by (unfold FSSIZE; lia); apply Z.ltb_irrefl).
      apply (bmap_post_ind sb V (dxi din) bn j fb); try done; try apply sb_ok_mkfs; try lia.
      * congruence.
      * rewrite sb_nmeta, sb_size. lia.
  - unfold n, is0 in *. rewrite (proj2 (Z.eqb_neq _ _) Hne), Z.add_0_r in *.
    apply wp_ret, wp_ret. rewrite <-E, xint_small.
    + apply (HQ _ _ _ H1); try done. by apply bmap_post_same.
    + destruct (so_used _ _ _ (iw_slots _ _ _ Hw) (bslot bn)) as [Hr _]; [apply bslot_bound; unfold NDIRECT in *; lia|done|].
      rewrite sb_nmeta, sb_size in Hr. lia.
Qed.

Lemma iappend_block_wp din D fi fb bn s :
  let V := seal fb D in
  let n := is0 (slot V (dxi din) (bslot bn)) +
           (if bn <? NDIRECT then 0 else is0 (slot V (dxi din) IND)) in
  holds_at s D fi fb -> disk_ok D -> unused D fb -> iwf sb V (dxi din) ->
  0 <= bn < MAXFILE -> nmeta <= fb -> fb + n <= FSSIZE ->
  wp (iappend_block din bn) (fun r s' => block_post D fi fb din bn r.1 r.2 s') s.
Proof.
  intros V n Hs HD Hu Hw Hbn Hf Hmax. unfold iappend_block, block_post. fold V.
  pose proof Hf as Hf'. change nmeta with 46 in Hf'.
  destruct (Z.ltb_spec bn NDIRECT) as [Hlt|Hge]; cbv zeta in *.
  - assert (Hi : (Z.to_nat bn <= IND)%nat) by (unfold NDIRECT in Hlt; lia).
    assert (Eb : bslot bn = Z.to_nat bn) by (unfold bslot; by rewrite (proj2 (Z.ltb_lt _ _)) by lia).
    assert (Es : slot V (dxi din) (bslot bn) = d_addrs din !!! Z.to_nat bn).
    { rewrite Eb. unfold slot. by rewrite (proj2 (Nat.leb_le _ _) Hi). }
    unfold n in *. rewrite Es, Z.add_0_r in *. apply wp_bind.
    eapply fill_addr_wp; [done|done|done|done|done|]. intros s1 H1. apply wp_ret. cbn [fst snd].
    exists D. unfold is0 in *. destruct (Z.eqb_spec (d_addrs din !!! Z.to_nat bn) 0) as [H0|Hne].
    + assert (Hl : (Z.to_nat bn < length (d_addrs din))%nat).
      { pose proof (iw_len _ _ _ Hw) as Hl. cbn in Hl. rewrite Hl. unfold NADDRS, NDIRECT in *. lia. }
      cbn [set_daddr d_addrs]. rewrite list_lookup_total_insert_eq by done.
      unfold FSSIZE in Hmax. rewrite xint_small by lia.
      split_and!; try done; [intros b Hb; apply Hu; lia|lia| |].
      * intros _. rewrite !slot_ind. cbn. rewrite list_lookup_total_insert_ne; [done|].
        unfold NDIRECT in Hlt. lia.
      * apply (fill_direct fb D (dxi din) bn); try done; [unfold FSSIZE; lia|lia|by rewrite <-H0].
    + rewrite Z.add_0_r in *. rewrite (iwf_addr_small fb D) by done.
      split_and!; try done. fold V. rewrite <-Es. apply bmap_post_same; [done|congruence].
  - assert (En : Z.to_nat NDIRECT = IND) by done. rewrite En.
    assert (Ei : slot V (dxi din) IND = d_addrs din !!! IND) by done.
    unfold n in *. rewrite Ei in *. set (a := d_addrs din !!! IND) in *.
    set (m := slot V (dxi din) (bslot bn)) in *.
    assert (Hm : 0 <= is0 m <= 1) by (unfold is0; destruct (m =? 0); lia).
    apply wp_bind. eapply fill_addr_wp; [done|done|done|done|fold a; lia|]. fold a. intros s1 H1.
    destruct (Z.eqb_spec a 0) as [H0|Hne]; unfold is0 in *.
    + rewrite (proj2 (Z.eqb_eq _ _) H0) in *.
      destruct (next_fill fb D (dxi din) IND) as (Hfree & HV & Hw1 & Hsl); try done; [split; [done|clear -Hmax Hm; destruct (m =? 0); lia]|].
      set (din1 := set_daddr IND fb din). change (set_addr IND fb (dxi din)) with (dxi din1) in Hw1, Hsl.
      assert (Ha1 : d_addrs din1 !!! IND = fb) by exact (Hsl IND (slot_bound IND ltac:(lia))).
      assert (Hb : (bslot bn < NSLOTS)%nat /\ bslot bn <> IND) by by apply bslot_bound.
      assert (Em : slot (seal (fb + 1) D) (dxi din1) (bslot bn) = m) by (rewrite Hsl by apply Hb; by rewrite decide_False by apply Hb).
      assert (Ham : m = 0).
      { unfold m. rewrite (bslot_ind bn _ Hge eq_refl). unfold slot. cbn [Nat.leb].
        cbn [addrs dxi]. fold a. by rewrite H0. }
      apply wp_bind. rewrite (iwf_addr_small (fb + 1) D) by done.
      eapply (indirect_entry_wp din1 D fi (fb + 1)); unfold is0; rewrite ?Em, ?Ham in *; try done; try lia.
      { intros b Hb'. apply Hu. lia. }
      change (if 0 =? 0 then 1 else 0) with 1 in *.
      intros x s2 D2 H2 HD2 Hu2 Hx Hp. apply wp_ret. cbn [fst snd]. exists D2.
      replace (fb + (1 + 1)) with (fb + 1 + 1) by lia. split_and!; try done; [intros; lia|].
      apply (bmap_post_trans sb V (dxi din) bn fb (seal (fb + 1) D)); try done; try apply sb_ok_mkfs.
      * lia.
      * rewrite sb_nmeta, sb_size. unfold FSSIZE in Hmax. lia.
      * apply seal_next; [unfold FSSIZE in *; change nmeta with 46; lia|done].
    + rewrite (proj2 (Z.eqb_neq _ _) Hne), !Z.add_0_r in *. apply wp_bind.
      rewrite (iwf_addr_small fb D) by done. fold a.
      eapply (indirect_entry_wp din D fi fb); unfold is0; fold V m; try done; try lia.
      intros x s2 D2 H2 HD2 Hu2 Hx Hp. apply wp_ret. cbn [fst snd]. exists D2.
      by split_and!.
Qed.

(** ** The file under construction *)

(** A file of exactly [off] bytes: the blocks of these bytes are there, no
    others, and what follows the last byte in its block is zero. *)
Record exactly (V : gmap Z block) (ipp : xv6fs_inode) (off : Z) : Prop := {
  ex_mapped : forall k, 0 <= k < off -> mapped V ipp k;
  ex_blocks : forall bn, 0 <= bn < MAXFILE -> slot V ipp (bslot bn) <> 0 -> bn * BSIZE < off;
  ex_ind : slot V ipp IND <> 0 -> NDIRECT * BSIZE < off;
  ex_tail : forall k, off <= k < MAXFILE * BSIZE -> mapped V ipp k -> fbyte V ipp k = 0;
}.

Lemma bmap_slot V ipp bn x ipp' V1 bn' :
  bmap_post sb V ipp bn x ipp' V1 -> 0 <= bn < MAXFILE -> 0 <= bn' < MAXFILE -> bn' <> bn ->
  slot V1 ipp' (bslot bn') = slot V ipp (bslot bn').
Proof.
  intros (_ & _ & Hk & _) Hb Hb' Hne. destruct (bslot_bound _ Hb') as [? ?].
  apply Hk; [done| |done]. intros E. apply Hne. apply bslot_inj in E; lia.
Qed.

Lemma bmap_tail V ipp bn x ipp' V1 off k :
  bmap_post sb V ipp bn x ipp' V1 -> iwf sb V ipp -> exactly V ipp off -> bn = off / BSIZE ->
  0 <= off < MAXFILE * BSIZE -> off <= k < MAXFILE * BSIZE -> mapped V1 ipp' k -> fbyte V1 ipp' k = 0.
Proof.
  intros Hp Hw He -> Ho Hk Hm. pose proof (file_block k ltac:(lia)) as Hkb.
  pose proof (file_block off Ho) as Hob.
  pose proof Hp as (_ & _ & _ & Hr & Hsame & Hfresh & _).
  destruct (decide (k / BSIZE = off / BSIZE)) as [E|E].
  - destruct (decide (slot V ipp (bslot (off / BSIZE)) = 0)) as [H0|Hne].
    + unfold fbyte, mapped in *. rewrite E in *. rewrite <-Hr in *. destruct (Hfresh H0 Hm) as [_ ->].
      unfold zero_block. apply lookup_total_replicate_2. pose proof (Z.mod_pos_bound k BSIZE BSIZE_pos). lia.
    + destruct (Hsame Hne) as [-> ->]. by apply (ex_tail _ _ _ He).
  - exfalso. unfold mapped in Hm. rewrite (bmap_slot _ _ _ _ _ _ _ Hp) in Hm by done.
    apply (ex_blocks _ _ _ He) in Hm; [|done]. apply E.
    pose proof (Z.div_le_mono off k BSIZE BSIZE_pos ltac:(lia)).
    pose proof (Z.div_mod off BSIZE ltac:(done)). pose proof (Z.mod_pos_bound off BSIZE BSIZE_pos). nia.
Qed.

(** One block more. *)
Lemma exactly_step V ipp off m f x ipp' V1 d :
  let bn := off / BSIZE in
  let V2 := <[x := d]> V1 in
  iwf sb V ipp -> 0 <= off -> 0 < m -> off + m <= MAXFILE * BSIZE ->
  exactly V ipp off -> bmap_post sb V ipp bn x ipp' V1 -> x <> 0 ->
  (bn < NDIRECT -> slot V1 ipp' IND = slot V ipp IND) ->
  wrote sb V1 ipp' off m f V2 ipp' -> exactly V2 ipp' (off + m).
Proof.
  intros bn V2 Hw Ho Hm Hmax He Hp Hx Hi Hwr. pose proof Hp as (Hw1 & _ & _ & Hr & _).
  pose proof (file_block off ltac:(lia)) as Hob. fold bn in Hob. destruct (bslot_bound _ Hob) as [Hbs Hbi].
  pose proof (Z.div_mod off BSIZE ltac:(done)) as Hdm. fold bn in Hdm.
  pose proof (Z.mod_pos_bound off BSIZE BSIZE_pos) as Hmod.
  assert (Hsl : forall t, slot V2 ipp' t = slot V1 ipp' t).
  { apply slot_same_ind. intros Ha. apply dblk_insert_ne. rewrite Hr, <-(slot_ind V1). intros E.
    apply Hbi. apply (so_inj _ _ _ (iw_slots _ _ _ Hw1)); try done; [by apply slot_bound|congruence]. }
  split.
  - intros k Hk. destruct (decide (k < off)) as [Hlt|]; [|apply Hwr; lia].
    eapply wrote_mapped; [exact Hwr|lia|].
    eapply wrote_mapped; [eapply (bmap_wrote sb V ipp bn x ipp' V1 off f); try done; apply sb_ok_mkfs|lia|].
    apply He. lia.
  - intros bn' Hb'. rewrite Hsl. intros Hne. destruct (decide (bn' = bn)) as [->|Hn]; [nia|].
    rewrite (bmap_slot _ _ _ _ _ _ _ Hp) in Hne by done. apply (ex_blocks _ _ _ He) in Hne; [lia|done].
  - rewrite Hsl. intros Hne. destruct (decide (bn < NDIRECT)) as [Hlt|]; [|nia].
    rewrite Hi in Hne by done. apply (ex_ind _ _ _ He) in Hne. lia.
  - intros k Hk. unfold mapped. rewrite Hsl. intros Hne.
    rewrite (wr_old _ _ _ _ _ _ _ _ Hwr) by (done || lia).
    eapply bmap_tail; try done; lia.
Qed.

(** The number of blocks of a file of [n] bytes, with the indirect block. *)
Definition blocks_of (n : Z) : Z :=
  let k := (n + (BSIZE - 1)) / BSIZE in
  k + (if NDIRECT <? k then 1 else 0).

Lemma blocks_of_mono m n : m <= n -> blocks_of m <= blocks_of n.
Proof.
  intros Hmn. unfold blocks_of. cbv zeta.
  pose proof (Z.div_le_mono (m + (BSIZE - 1)) (n + (BSIZE - 1)) BSIZE BSIZE_pos ltac:(lia)).
  destruct (Z.ltb_spec NDIRECT ((m + (BSIZE - 1)) / BSIZE)), (Z.ltb_spec NDIRECT ((n + (BSIZE - 1)) / BSIZE)); lia.
Qed.

Lemma blocks_of_in n q r : n = BSIZE * q + r -> 0 < r <= BSIZE ->
  blocks_of n = q + 1 + (if NDIRECT <=? q then 1 else 0).
Proof.
  intros E Hr. unfold blocks_of. cbv zeta.
  replace ((n + (BSIZE - 1)) / BSIZE) with (q + 1).
  - destruct (Z.ltb_spec NDIRECT (q + 1)), (Z.leb_spec NDIRECT q); lia.
  - apply (Z.div_unique _ _ _ (r - 1)); lia.
Qed.

Lemma mapped_ind V ipp k : 0 <= k < MAXFILE * BSIZE -> NDIRECT <= k / BSIZE -> mapped V ipp k -> slot V ipp IND <> 0.
Proof.
  intros Hk Hd Hm E. apply Hm. rewrite (bslot_ind _ _ Hd eq_refl). rewrite slot_ind in E. unfold slot.
  rewrite (proj2 (Nat.leb_gt _ IND)) by lia. by rewrite E.
Qed.

(** What [iappend_block] takes is what the longer file needs. *)
Lemma blocks_step V ipp off m :
  let bn := off / BSIZE in
  0 <= off -> 0 < m <= BSIZE - off mod BSIZE -> off < MAXFILE * BSIZE -> exactly V ipp off ->
  is0 (slot V ipp (bslot bn)) + (if bn <? NDIRECT then 0 else is0 (slot V ipp IND)) =
  blocks_of (off + m) - blocks_of off.
Proof.
  intros bn Ho Hm Hmax He. pose proof (file_block off ltac:(lia)) as Hob. fold bn in Hob.
  pose proof (Z.div_mod off BSIZE ltac:(done)) as Hdm. fold bn in Hdm.
  pose proof (Z.mod_pos_bound off BSIZE BSIZE_pos) as Hmod.
  rewrite (blocks_of_in (off + m) bn (off mod BSIZE + m)) by lia. unfold is0.
  destruct (decide (off mod BSIZE = 0)) as [H0|H0].
  - assert (Hs : slot V ipp (bslot bn) = 0).
    { destruct (decide (slot V ipp (bslot bn) = 0)) as [|Hne]; [done|].
      apply (ex_blocks _ _ _ He) in Hne; [nia|done]. }
    rewrite Hs. cbn [Z.eqb]. destruct (Z.ltb_spec bn NDIRECT) as [Hlt|Hge].
    + rewrite (proj2 (Z.leb_gt NDIRECT bn)) by done.
      destruct (decide (bn = 0)) as [E|]; [unfold blocks_of; replace off with 0 by lia; rewrite E; done|].
      rewrite (blocks_of_in off (bn - 1) BSIZE) by lia. rewrite (proj2 (Z.leb_gt NDIRECT (bn - 1))) by lia. lia.
    + rewrite (proj2 (Z.leb_le NDIRECT bn)) by done. assert (0 < NDIRECT) by done.
      rewrite (blocks_of_in off (bn - 1) BSIZE) by lia.
      destruct (Z.eqb_spec (slot V ipp IND) 0) as [Hz|Hne].
      * destruct (Z.leb_spec NDIRECT (bn - 1)) as [Hp|]; [exfalso|lia].
        assert (E : (off - 1) / BSIZE = bn - 1) by (symmetry; apply (Z.div_unique _ _ _ (BSIZE - 1)); unfold BSIZE in *; lia).
        apply (mapped_ind V ipp (off - 1)) in Hz; [done| |lia|apply He]; unfold BSIZE in *; lia.
      * apply (ex_ind _ _ _ He) in Hne. rewrite (proj2 (Z.leb_le NDIRECT (bn - 1))) by nia. lia.
  - assert (E : (off - 1) / BSIZE = bn) by (symmetry; apply (Z.div_unique _ _ _ (off mod BSIZE - 1)); lia).
    assert (Hm1 : mapped V ipp (off - 1)) by (apply He; nia).
    rewrite (blocks_of_in off bn (off mod BSIZE)) by lia.
    assert (Hs : slot V ipp (bslot bn) <> 0) by (unfold mapped in Hm1; by rewrite E in Hm1).
    rewrite (proj2 (Z.eqb_neq _ _) Hs). destruct (Z.ltb_spec bn NDIRECT) as [Hlt|Hge].
    + rewrite (proj2 (Z.leb_gt NDIRECT bn)) by done. lia.
    + rewrite (proj2 (Z.leb_le NDIRECT bn)) by done.
      rewrite (proj2 (Z.eqb_neq _ _)); [lia|]. apply (mapped_ind V ipp (off - 1)); [nia|lia|done].
Qed.

(** ** The loop of [iappend] *)

Record appending (V0 : gmap Z block) (din0 : dinode) (off0 : Z) (f : Z -> Z) (fi : Z)
    (D : gmap Z block) (fb : Z) (din : dinode) (off : Z) (s : mkfs) : Prop := {
  ap_state : holds_at s D fi fb;
  ap_disk : disk_ok D;
  ap_unused : unused D fb;
  ap_fb : nmeta <= fb <= FSSIZE;
  ap_off : 0 <= off0 <= off;
  ap_exact : exactly (seal fb D) (dxi din) off;
  ap_wrote : wrote sb V0 (dxi din0) off0 (off - off0) f (seal fb D) (dxi din);
  ap_meta : same_meta din0 din;
}.

(** The bytes [p] are those of [f] from [off] on. *)
Definition bytes_at (f : Z -> Z) (off : Z) (p : list Z) : Prop :=
  Forall byte_ok p /\ forall i, (i < length p)%nat -> p !! i = Some (f (off + Z.of_nat i)).

Lemma bytes_at_drop f off p m :
  bytes_at f off p -> (m <= length p)%nat -> bytes_at f (off + Z.of_nat m) (drop m p).
Proof.
  intros [Hb Hp] Hm. split; [by apply Forall_drop|]. intros i Hi. rewrite length_drop in Hi.
  rewrite lookup_drop, Hp by lia. do 2 f_equal. lia.
Qed.

Lemma blocks_need V ipp off m n fb :
  let bn := off / BSIZE in
  0 <= off -> 0 < m <= BSIZE - off mod BSIZE -> m <= n -> off < MAXFILE * BSIZE -> exactly V ipp off ->
  fb + (blocks_of (off + n) - blocks_of off) <= FSSIZE ->
  fb + (is0 (slot V ipp (bslot bn)) + (if bn <? NDIRECT then 0 else is0 (slot V ipp IND))) <= FSSIZE.
Proof.
  intros bn Ho Hm Hmn Hmax He Hf. unfold bn. rewrite (blocks_step V ipp off m) by done.
  pose proof (blocks_of_mono (off + m) (off + n) ltac:(lia)). lia.
Qed.

(** The block was mapped (state [D1], [fb1]) and is now written. *)
Lemma append_write V0 din0 off0 f fi D fb din off din1 x D1 fb1 m bytes s s1 s2 :
  let b := splice (Z.to_nat (off - off / BSIZE * BSIZE)) bytes (dblk D1 x) in
  appending V0 din0 off0 f fi D fb din off s ->
  0 < m <= BSIZE - off mod BSIZE -> off + m <= MAXFILE * BSIZE ->
  length bytes = Z.to_nat m -> bytes_at f off bytes ->
  holds_at s1 D1 fi fb1 -> disk_ok D1 -> unused D1 fb1 -> nmeta <= fb1 <= FSSIZE -> x <> 0 ->
  same_meta din din1 ->
  (off / BSIZE < NDIRECT -> slot (seal fb1 D1) (dxi din1) IND = slot (seal fb D) (dxi din) IND) ->
  bmap_post sb (seal fb D) (dxi din) (off / BSIZE) x (dxi din1) (seal fb1 D1) ->
  holds_at s2 (<[x := b]> D1) fi fb1 ->
  appending V0 din0 off0 f fi (<[x := b]> D1) fb1 din1 (off + m) s2.
Proof.
  intros b Ha Hm Hmax Hlen [Hby Hbs] H1 HD1 Hu1 Hf1 Hx Hmeta Hi Hp H2.
  set (V := seal fb D) in *. set (V1 := seal fb1 D1) in *.
  pose proof (ap_off _ _ _ _ _ _ _ _ _ _ Ha) as Ho.
  pose proof (wr_iwf _ _ _ _ _ _ _ _ (ap_wrote _ _ _ _ _ _ _ _ _ _ Ha)) as Hw. fold V in Hw.
  pose proof Hp as (Hw1 & _ & _ & Hr & _).
  destruct (bslot_bound _ (file_block off ltac:(lia))) as [Hbs1 _].
  destruct (so_used _ _ _ (iw_slots _ _ _ Hw1) _ Hbs1) as [Hxr Hxu]; [congruence|].
  rewrite <-Hr in Hxr, Hxu. rewrite sb_nmeta, sb_size in Hxr.
  assert (Hmod : off - off / BSIZE * BSIZE = off mod BSIZE) by (rewrite Z.mod_eq by done; lia).
  pose proof (Z.mod_pos_bound off BSIZE BSIZE_pos) as Hmb.
  assert (HV1 : disk_ok V1) by (apply seal_disk_ok; [change nmeta with 46 in Hf1; lia|done]).
  assert (Hwb : wrote sb V1 (dxi din1) off m f (<[x := b]> V1) (dxi din1)).
  { unfold b. rewrite Hmod, <-(dblk_seal fb1 D1 x) by (rewrite sb_bmapstart; lia). fold V1.
    rewrite Hr. apply wrote_block; try done; try apply sb_ok_mkfs; try lia.
    - unfold mapped. congruence.
    - intros i Hi'. apply Hbs. lia. }
  split; try done.
  - apply disk_ok_insert; [done|]. apply block_ok_splice; [done|done|].
    rewrite Hlen. unfold BSIZE in *. lia.
  - intros b' Hb'. rewrite lookup_insert_ne; [by apply Hu1|]. intros <-.
    unfold V1 in Hxu. rewrite in_use_seal in Hxu by (unfold FSSIZE in *; change nmeta with 46 in *; lia).
    apply Z.ltb_lt in Hxu. lia.
  - lia.
  - rewrite seal_insert by (rewrite sb_bmapstart; lia). fold V1.
    eapply (exactly_step V (dxi din) off m f x (dxi din1) V1); try done; try lia. apply Ha.
  - rewrite seal_insert by (rewrite sb_bmapstart; lia). fold V1.
    replace (off + m - off0) with (off - off0 + (0 + m)) by lia.
    eapply wrote_trans; [apply sb_ok_mkfs|lia|lia|lia|lia|apply Ha|]. fold V.
    replace (off0 + (off - off0)) with off by lia.
    eapply (wrote_trans _ _ _ off 0 m); [apply sb_ok_mkfs|lia|lia|lia|lia| |].
    + by eapply bmap_wrote; try apply sb_ok_mkfs.
    + by rewrite Z.add_0_r.
  - pose proof (ap_meta _ _ _ _ _ _ _ _ _ _ Ha). unfold same_meta in *. congruence.
Qed.

Lemma iappend_loop_wp V0 din0 off0 f fi fuel D fb din off p n s :
  appending V0 din0 off0 f fi D fb din off s ->
  n = Z.of_nat (length p) -> bytes_at f off p -> off + n <= MAXFILE * BSIZE ->
  fb + (blocks_of (off + n) - blocks_of off) <= FSSIZE -> n < Z.of_nat fuel ->
  wp (iappend_loop fuel din off p n) (fun r s' => exists D' din',
    r = (din', off + n) /\
    appending V0 din0 off0 f fi D' (fb + (blocks_of (off + n) - blocks_of off)) din' (off + n) s') s.
Proof.
  revert D fb din off p n s. induction fuel as [|fuel IH]; intros D fb din off p n s Ha En Hp Hmax Hf Hfuel; [lia|].
  cbn [iappend_loop]. destruct (Z.ltb_spec 0 n) as [Hn|Hn]; last first.
  { replace n with 0 by lia. rewrite Z.add_0_r, Z.sub_diag, Z.add_0_r. apply wp_ret. eauto. }
  cbv zeta. pose proof (ap_off _ _ _ _ _ _ _ _ _ _ Ha) as Ho. pose proof (file_block off ltac:(lia)) as Hob.
  pose proof (ap_fb _ _ _ _ _ _ _ _ _ _ Ha) as Hfb.
  pose proof (Z.mod_pos_bound off BSIZE BSIZE_pos) as Hmb. assert (HM : MAXFILE * BSIZE = 274432) by done.
  assert (Hdm : (off / BSIZE + 1) * BSIZE - off = BSIZE - off mod BSIZE) by (rewrite Z.mod_eq by done; lia).
  rewrite Hdm, (u32_small (BSIZE - _)), (u32_small n) by (unfold BSIZE in *; lia).
  set (m := if n <? BSIZE - off mod BSIZE then n else BSIZE - off mod BSIZE).
  assert (Hm : 0 < m <= BSIZE - off mod BSIZE /\ m <= n) by (unfold m; destruct (Z.ltb_spec n (BSIZE - off mod BSIZE)); lia).
  rewrite (proj2 (Z.ltb_lt _ MAXFILE)) by lia. apply wp_bind. apply wp_ret, wp_bind.
  pose proof (ap_exact _ _ _ _ _ _ _ _ _ _ Ha) as He.
  assert (Hneed := blocks_need (seal fb D) (dxi din) off m n fb ltac:(lia) (proj1 Hm) (proj2 Hm) ltac:(lia) He Hf).
  pose proof Ha as [Hst HD Hu _ _ _ Hwr _].
  eapply wp_mono; [exact (iappend_block_wp din D fi fb _ s Hst HD Hu (wr_iwf _ _ _ _ _ _ _ _ Hwr) Hob (proj1 Hfb) Hneed)|].
  intros [din1 x] s1. unfold block_post. cbn [fst snd].
  rewrite (blocks_step (seal fb D) (dxi din) off m) by (done || lia).
  set (fb1 := fb + _). intros (D1 & H1 & HD1 & Hu1 & Hx & Hmeta & Hi & Hb).
  assert (Hf1 : nmeta <= fb1 <= FSSIZE).
  { pose proof (blocks_of_mono off (off + m) ltac:(lia)). pose proof (blocks_of_mono (off + m) (off + n) ltac:(lia)).
    unfold fb1. lia. }
  assert (Hxr : 46 <= x < 2000).
  { pose proof Hb as (Hw1 & _ & _ & Hr & _). destruct (bslot_bound _ Hob) as [Hbs _].
    destruct (so_used _ _ _ (iw_slots _ _ _ Hw1) _ Hbs) as [Hxr _]; [congruence|].
    rewrite <-Hr, sb_nmeta, sb_size in Hxr. done. }
  apply wp_bind. eapply rsect_wp; [exact H1|unfold FSSIZE; lia|]. intros s2 H2.
  apply wp_bind. eapply wsect_wp; [exact H2|unfold FSSIZE; lia|]. intros s3 H3.
  rewrite (u32_small (off + m)) by lia. rewrite s32_small by lia.
  destruct (bytes_at_drop f off p (Z.to_nat m) Hp ltac:(lia)) as [Hd1 Hd2]. rewrite Z2Nat.id in Hd2 by lia.
  assert (Ha1 := append_write V0 din0 off0 f fi D fb din off din1 x D1 fb1 m (take (Z.to_nat m) p) s s1 s3 Ha).
  cbv zeta in Ha1. specialize (Ha1 (proj1 Hm) ltac:(lia)).
  replace (off + n) with (off + m + (n - m)) by lia.
  replace (fb + (blocks_of (off + m + (n - m)) - blocks_of off))
    with (fb1 + (blocks_of (off + m + (n - m)) - blocks_of (off + m))) by (unfold fb1; lia).
  eapply IH; try done.
  - apply Ha1; try done; [rewrite length_take; lia|].
    split; [apply Forall_take, Hp|]. intros i Hi'. rewrite length_take in Hi'.
    rewrite lookup_take_lt by lia. apply Hp. lia.
  - rewrite length_drop. lia.
  - lia.
  - unfold fb1. replace (off + m + (n - m)) with (off + n) by lia. lia.
  - lia.
Qed.

(** ** The image as a list of files *)

(** A file: its type and its bytes.  File number [i] is inode [i + 1]. *)
Notation hfile := (Z * list Z)%type.

Definition meta_of (di : dinode) : Z * Z * Z * Z * Z :=
  (d_type di, d_major di, d_minor di, d_nlink di, d_size di).

Record stored (V : gmap Z block) (i : Z) (f : hfile) : Prop := {
  st_meta : meta_of (disk_inode sb V i) = (f.1, 0, 0, 1, Z.of_nat (length f.2));
  st_exact : exactly V (ifile sb V i) (Z.of_nat (length f.2));
  st_bytes : forall k b, f.2 !! k = Some b -> content sb V i (Z.of_nat k) = b;
}.

Fixpoint blocks_total (files : list hfile) : Z :=
  match files with
  | [] => 0
  | f :: files => blocks_of (Z.of_nat (length f.2)) + blocks_total files
  end.

Definition type_ok (ty : Z) : Prop := ty = T_DIR \/ ty = T_FILE.

Record image (files : list hfile) (D : gmap Z block) (fi fb : Z) : Prop := {
  im_disk : disk_ok D;
  im_unused : unused D fb;
  im_fb : fb = nmeta + blocks_total files;
  im_fi : fi = 1 + Z.of_nat (length files);
  im_room : fb <= FSSIZE /\ fi <= NINODES;
  im_fs : fs_ok sb (seal fb D);
  im_sb : dblk D 1 = splice 0 (bytes_of_sb sb) zero_block;
  im_files : forall i f, files !! i = Some f -> type_ok f.1 /\ stored (seal fb D) (1 + Z.of_nat i) f;
  im_free : forall i, fi <= i < NINODES -> d_type (disk_inode sb (seal fb D) i) = 0;
}.

Lemma blocks_of_pos n : 0 <= n -> 0 <= blocks_of n.
Proof. intros Hn. apply (blocks_of_mono 0 n Hn). Qed.

Lemma blocks_total_pos files : 0 <= blocks_total files.
Proof.
  induction files as [|f files IH]; cbn; [done|]. pose proof (blocks_of_pos (Z.of_nat (length f.2)) ltac:(lia)). lia.
Qed.

Lemma blocks_total_app files files' : blocks_total (files ++ files') = blocks_total files + blocks_total files'.
Proof. induction files as [|f files IH]; cbn; [done|]. rewrite IH. lia. Qed.

Lemma blocks_total_insert files i f f' :
  files !! i = Some f ->
  blocks_total (<[i := f']> files) =
  blocks_total files + (blocks_of (Z.of_nat (length f'.2)) - blocks_of (Z.of_nat (length f.2))).
Proof.
  revert i. induction files as [|g files IH]; intros [|i] Hi; try done.
  - injection Hi as ->. cbn. lia.
  - change (<[S i := f']> (g :: files)) with (g :: <[i := f']> files). cbn [blocks_total].
    rewrite (IH i Hi). lia.
Qed.

Lemma exactly_same V V' ipp ipp' off :
  (forall s, slot V' ipp' s = slot V ipp s) ->
  (forall k, 0 <= k < MAXFILE * BSIZE -> mapped V ipp k -> fbyte V' ipp' k = fbyte V ipp k) ->
  0 <= off -> exactly V ipp off -> exactly V' ipp' off.
Proof.
  intros Hs Hf Ho []. split; unfold mapped in *; intros *; rewrite ?Hs; auto.
  intros Hk Hm. rewrite Hf by (done || lia). auto.
Qed.

Lemma meta_inv di ty ma mi nl n :
  meta_of di = (ty, ma, mi, nl, n) -> d_type di = ty /\ d_size di = n.
Proof. intros E. by injection E. Qed.

Lemma stored_allocated V i f : 1 <= i < NINODES -> type_ok f.1 -> stored V i f -> allocated sb V i.
Proof.
  intros Hi Hty [Hm _ _]. split; [done|]. destruct (meta_inv _ _ _ _ _ _ Hm) as [-> _].
  by destruct Hty as [->| ->].
Qed.

(** The other files stay. *)
Lemma stored_replaces V V' i j f :
  fs_ok sb V -> replaces sb V V' i -> j <> i -> 1 <= j < NINODES -> type_ok f.1 ->
  stored V j f -> stored V' j f.
Proof.
  intros Hok Hr Hne Hj Hty Hst. pose proof (stored_allocated _ _ _ Hj Hty Hst) as Ha.
  destruct Hst as [Hm He Hb].
  assert (Ed : disk_inode sb V' j = disk_inode sb V j) by (apply Hr; [rewrite sb_ninodes; unfold NINODES in Hj; lia|done]).
  assert (Ei : ifile sb V' j = ifile sb V j) by (unfold ifile; by rewrite Ed).
  destruct (file_frame sb V V' (ifile sb V j)) as (_ & Hsl & Hf).
  { apply Hok, Ha. }
  { intros b Hbo. by apply (rp_block _ _ _ _ Hr j b). }
  split.
  - by rewrite Ed.
  - rewrite Ei. by eapply exactly_same; [| |lia|].
  - intros k b Hk. rewrite <-(Hb k b Hk).
    apply (replaces_other _ _ _ _ _ Hok Hr Hne Ha). apply lookup_lt_Some in Hk.
    unfold fsize. destruct (meta_inv _ _ _ _ _ _ Hm) as [_ ->]. lia.
Qed.

Lemma seal_iupdate fb D i di :
  0 <= i < NINODES -> seal fb (iupdate_disk sb D i di) = iupdate_disk sb (seal fb D) i di.
Proof.
  intros Hi. pose proof (IBLOCK_mkfs i Hi). unfold iupdate_disk.
  rewrite seal_insert by (rewrite sb_bmapstart; lia). by rewrite dblk_seal by (rewrite sb_bmapstart; lia).
Qed.

Lemma seal_inode fb D i : 0 <= i < NINODES -> disk_inode sb (seal fb D) i = disk_inode sb D i.
Proof.
  intros Hi. pose proof (IBLOCK_mkfs i Hi). unfold disk_inode.
  by rewrite dblk_seal by (rewrite sb_bmapstart; lia).
Qed.

(** Writing inode [i] of the image. *)
Lemma iupdate_image D i di fb :
  0 <= i < NINODES -> nmeta <= fb -> length (d_addrs di) = NADDRS -> disk_ok D ->
  let D' := iupdate_disk sb D i di in
  disk_ok D' /\ (unused D fb -> unused D' fb) /\ dblk D' 1 = dblk D 1.
Proof.
  intros Hi Hf Hl HD D'. pose proof (IBLOCK_mkfs i Hi). change nmeta with 46 in Hf. split_and!.
  - apply disk_ok_insert; [done|]. by apply put_dinode_ok.
  - intros Hu b Hb. unfold D', iupdate_disk. rewrite lookup_insert_ne by lia. by apply Hu.
  - unfold D', iupdate_disk. by rewrite dblk_insert_ne by lia.
Qed.

(** Replacing or adding the file number [i]. *)
Lemma image_step files files' D fi fb D1 fb1 i ipp' di f :
  let n := 1 + Z.of_nat i in
  let V1 := seal fb1 D1 in
  image files D fi fb ->
  disk_ok D1 -> unused D1 fb1 -> dblk D1 1 = dblk D 1 ->
  fb1 = nmeta + blocks_total files' -> fb1 <= FSSIZE ->
  (length files <= length files')%nat -> 1 + Z.of_nat (length files') <= NINODES ->
  staged sb (seal fb D) V1 n ipp' di ->
  files' !! i = Some f -> type_ok f.1 ->
  meta_of di = (f.1, 0, 0, 1, Z.of_nat (length f.2)) ->
  exactly V1 ipp' (Z.of_nat (length f.2)) ->
  (forall k b, f.2 !! k = Some b -> fbyte V1 ipp' (Z.of_nat k) = b) ->
  (forall j g, j <> i -> files' !! j = Some g -> files !! j = Some g) ->
  image files' (iupdate_disk sb D1 n di) (1 + Z.of_nat (length files')) fb1.
Proof.
  intros n V1 Him HD1 Hu1 H1 Hfb1 Hmax Hlen Hfi Hst Hf Hty Hmeta Hex Hby Hoth.
  pose proof (lookup_lt_Some _ _ _ Hf) as Hlt. pose proof (blocks_total_pos files') as Hpos.
  assert (Hn : 1 <= n < NINODES) by (unfold n; lia).
  pose proof (blocks_total_pos files). pose proof (im_fb _ _ _ _ Him). pose proof (im_room _ _ _ _ Him).

  assert (HV1 : disk_ok V1) by (apply seal_disk_ok; [change nmeta with 46 in *; lia|done]).
  pose proof (im_fs _ _ _ _ Him) as Hok.
  pose proof (staged_replaces sb _ _ _ _ _ sb_ok_mkfs HV1 Hok Hst) as Hrep.
  destruct (iupdate_image D1 n di fb1) as (HD' & Hu' & E1); [lia|lia| |done|].
  { rewrite (sg_addrs _ _ _ _ _ _ Hst). apply (sg_iwf _ _ _ _ _ _ Hst). }
  assert (Es : seal fb1 (iupdate_disk sb D1 n di) = iupdate_disk sb V1 n di) by (apply seal_iupdate; lia).
  split; rewrite ?Es; try done.
  - by apply Hu'.
  - by eapply replaces_ok.
  - rewrite E1, H1. apply Him.
  - intros j g Hg. pose proof (lookup_lt_Some _ _ _ Hg). destruct (decide (j = i)) as [->|Hne].
    + replace g with f in * by congruence. split; [done|]. fold n.
      destruct (staged_frame sb _ _ _ _ _ sb_ok_mkfs Hst) as (_ & Hsl & Hfr).
      assert (Ea : addrs (ifile sb (iupdate_disk sb V1 n di) n) = addrs ipp') by (by eapply staged_file).
      assert (Ec : forall k, 0 <= k < Z.of_nat (length f.2) ->
        content sb (iupdate_disk sb V1 n di) n k = fbyte V1 ipp' k).
      { intros k Hk. eapply staged_content; try done. destruct (meta_inv _ _ _ _ _ _ Hmeta) as [_ ->]. done. }
      split.
      * replace (disk_inode sb _ n) with di; [done|]. symmetry. by eapply staged_self.
      * eapply exactly_same; [..|exact Hex]; [intros t; rewrite (slot_addrs _ _ _ _ Ea); apply Hsl| |lia].
        intros k Hk Hm. rewrite (fbyte_addrs _ _ _ _ Ea). by apply Hfr.
      * intros k b Hk. rewrite Ec; [by apply Hby|]. apply lookup_lt_Some in Hk. lia.
    + destruct (im_files _ _ _ _ Him j g (Hoth j g Hne Hg)) as [Htg Hsg]. split; [done|].
      eapply stored_replaces; try done; unfold n; lia.
  - intros j Hj. rewrite (rp_inode _ _ _ _ Hrep); [|rewrite sb_ninodes; unfold NINODES in *; lia|unfold n; lia].
    apply Him. rewrite (im_fi _ _ _ _ Him). lia.
Qed.

Lemma ialloc_wp files D fb type s :
  let fi := 1 + Z.of_nat (length files) in
  holds_at s D fi fb -> image files D fi fb -> fi < NINODES -> type_ok type ->
  wp (ialloc type) (fun i s' => i = fi /\ exists D', holds_at s' D' (fi + 1) fb /\
    image (files ++ [(type, [])]) D' (fi + 1) fb) s.
Proof.
  intros fi Hs Him Hfi Hty. unfold ialloc. pose proof Hs as (HD & Hl & Hi & Hb).
  apply wp_bind, wp_gets, wp_bind, wp_modify. rewrite Hi. unfold NINODES in Hfi.
  assert (Hs1 : holds_at (set_freeinode (u32 (fi + 1)) s) D (fi + 1) fb)
    by (split_and!; try done; cbn; apply u32_small; lia).
  set (di := Build_dinode _ _ _ _ _ _). apply wp_bind.
  eapply winode_wp; [exact Hs1|unfold NINODES; lia|]. intros s2 Hs2. apply wp_ret. split; [done|].
  exists (iupdate_disk sb D fi di). split; [done|].
  assert (Hdi : dinode_ok di /\ meta_of di = (type, 0, 0, 1, 0)).
  { destruct Hty as [->| ->]; (split; [split; try done; apply Forall_replicate; done|done]). }
  assert (Eb : blocks_total (files ++ [(type, [])]) = blocks_total files)
    by (rewrite blocks_total_app; change (blocks_total [(type, [])]) with 0; lia).
  pose proof (im_room _ _ _ _ Him) as [Hr1 Hr2].
  replace (fi + 1) with (1 + Z.of_nat (length (files ++ [(type, [])])))
    by (rewrite length_app; cbn; unfold fi; lia).
  assert (Ea : d_addrs di = replicate NADDRS 0) by done.
  eapply (image_step files _ D fi fb D fb (length files) (dxi di)); try done; try apply Him.
  - by rewrite Eb, (im_fb _ _ _ _ Him).
  - rewrite length_app. lia.
  - rewrite length_app. cbn. unfold NINODES. lia.
  - apply empty_staged; try done; [rewrite sb_ninodes; fold fi; lia| |apply Hdi].
    intros [_ Ht]. apply Ht, Him. unfold NINODES. fold fi. lia.
  - by apply list_lookup_middle.
  - exact Hty.
  - apply Hdi.
  - assert (E0 := empty_slots (seal fb D) (dxi di)).
    split; unfold mapped; intros *; rewrite ?(E0 _ Ea); try done. cbn. lia.
  - intros k b Hk. apply lookup_lt_Some in Hk. cbn in Hk. lia.
  - intros j g Hj Hg. rewrite lookup_app in Hg. destruct (files !! j) eqn:Ej; [congruence|].
    apply list_lookup_singleton_Some in Hg as [Hg _]. apply lookup_ge_None in Ej. lia.
Qed.

(** ** [iappend] appends *)

Lemma wrote_nothing V ipp off f : iwf sb V ipp -> wrote sb V ipp off 0 f V ipp.
Proof.
  intros Hw. split; try done; try apply grows_refl; [intros k Hk; lia|..]; by left.
Qed.

(** The in-memory inode the kernel would have for a file of the image. *)
Definition mem_inode (i : Z) (f : hfile) : inode := {|
  i_op := true; i_sb := true; i_inum := i; i_ref := 1; i_lock := initsleeplock; i_type := f.1;
  i_dev := ROOTDEV; i_size := Z.of_nat (length f.2); i_nlink := 1; i_private := 0 |}.

Lemma stored_clean V i f :
  1 <= i < NINODES -> type_ok f.1 -> stored V i f -> clean sb V (mem_inode i f) (dxi (disk_inode sb V i)).
Proof.
  intros Hi Hty Hst. split; try done.
  - by eapply stored_allocated.
  - pose proof (st_meta _ _ _ Hst) as Hm. unfold meta_of in Hm. cbn [i_inum mem_inode].
    revert Hm. generalize (disk_inode sb V i) as di. intros []. cbn. unfold dinode_of. cbn. congruence.
Qed.

Lemma appended_dinode V i f n din1 :
  stored V i f -> same_meta (disk_inode sb V i) din1 -> Z.of_nat (length f.2) <= n ->
  dinode_of (set_size (Z.max (Z.of_nat (length f.2)) n) (mem_inode i f)) (dxi din1) = set_dsize n din1 /\
  meta_of (set_dsize n din1) = (f.1, 0, 0, 1, n).
Proof.
  intros Hst Hm1 Hn. pose proof (st_meta _ _ _ Hst) as Hm. unfold same_meta in Hm1. unfold meta_of in *.
  rewrite Hm in Hm1. unfold dinode_of, set_dsize.
  cbn [mem_inode set_size i_type i_nlink i_size dxi xi_major xi_minor addrs d_type d_major d_minor d_nlink d_size d_addrs].
  rewrite Z.max_r by done. by injection Hm1 as -> -> -> -> _.
Qed.

(** The bytes file [i] gets. *)
Definition joined (f : hfile) (p : list Z) (k : Z) : Z := (f.2 ++ p) !!! Z.to_nat k.

Lemma joined_bytes f p : Forall byte_ok p -> bytes_at (joined f p) (Z.of_nat (length f.2)) p.
Proof.
  intros Hp. split; [done|]. intros k Hk. unfold joined. rewrite lookup_total_app_r by lia.
  destruct (lookup_lt_is_Some_2 p k Hk) as [b Hb]. rewrite Hb. f_equal. symmetry.
  apply list_lookup_total_correct. rewrite <-Hb. f_equal. lia.
Qed.

(** Writing the inode at the end of [iappend]. *)
Lemma append_image files D fi fb i f p D1 fb1 din1 s :
  let V := seal fb D in
  let ino := 1 + Z.of_nat i in
  let len := Z.of_nat (length f.2) in
  let n := Z.of_nat (length p) in
  image files D fi fb -> files !! i = Some f -> len + n <= MAXFILE * BSIZE ->
  fb1 = fb + (blocks_of (len + n) - blocks_of len) ->
  appending V (disk_inode sb V ino) len (joined f p) fi D1 fb1 din1 (len + n) s ->
  image (<[i := (f.1, f.2 ++ p)]> files) (iupdate_disk sb D1 ino (set_dsize (len + n) din1)) fi fb1.
Proof.
  intros V ino len n Him Hf Hmax Hfb1 [_ HD1 Hu1 Hf1 _ Hex1 Hwr1 Hm1].
  pose proof (lookup_lt_Some _ _ _ Hf) as Hlt. pose proof (im_fi _ _ _ _ Him) as Hfi.
  pose proof (im_room _ _ _ _ Him) as [Hr1 Hr2]. pose proof (im_fb _ _ _ _ Him) as Hfb.
  pose proof (blocks_total_pos files) as Hbp.
  destruct (im_files _ _ _ _ Him i f Hf) as [Hty Hst]. fold V in Hst. fold ino in Hst.
  assert (Hi : 1 <= ino < NINODES) by (unfold ino; lia).
  assert (HV : disk_ok V) by (apply seal_disk_ok; [change nmeta with 46 in *; lia|apply Him]).
  replace (len + n - len) with n in Hwr1 by lia.
  destruct (appended_dinode V ino f (len + n) din1 Hst Hm1 ltac:(lia)) as [Ed Em].
  assert (Hst1 := wrote_staged sb V (mem_inode ino f) _ len n _ _ _ sb_ok_mkfs HV (im_fs _ _ _ _ Him)
    (stored_clean V ino f Hi Hty Hst) ltac:(cbn; unfold len; lia) ltac:(lia) Hmax Hwr1).
  cbv zeta in Hst1. cbn [i_size mem_inode] in Hst1. fold len in Ed, Hst1. rewrite Ed in Hst1.
  rewrite Hfi, <-(length_insert files i (f.1, f.2 ++ p)).
  assert (El : Z.of_nat (length (f.2 ++ p)) = len + n) by (rewrite length_app; unfold len, n; lia).
  eapply (image_step files _ D fi fb D1 fb1 i (dxi din1) _ (f.1, f.2 ++ p)); cbn [fst snd]; rewrite ?El; try done.
  - pose proof (gr_meta _ _ _ _ (wr_grows _ _ _ _ _ _ _ _ Hwr1) 1 ltac:(rewrite sb_bmapstart; lia)) as E.
    unfold V in E. by rewrite !dblk_seal in E by (rewrite sb_bmapstart; lia).
  - rewrite (blocks_total_insert _ _ _ _ Hf). cbn [snd]. rewrite El. fold len. lia.
  - lia.
  - rewrite length_insert. lia.
  - rewrite length_insert. lia.
  - by rewrite list_lookup_insert_eq.
  - intros k b Hk. pose proof (lookup_lt_Some _ _ _ Hk) as Hkl.
    destruct (decide (len <= Z.of_nat k)) as [Hge|Hlt'].
    + transitivity (joined f p (Z.of_nat k)); [apply Hwr1; lia|].
      unfold joined. rewrite Nat2Z.id. by apply list_lookup_total_correct.
    + rewrite (wr_old _ _ _ _ _ _ _ _ Hwr1) by (try lia; apply (st_exact _ _ _ Hst); fold len; lia).
      apply (st_bytes _ _ _ Hst). by rewrite lookup_app_l in Hk by (unfold len in Hlt'; lia).
  - intros j h Hj Hh. by rewrite list_lookup_insert_ne in Hh.
Qed.

Lemma iappend_wp files D fi fb i f p n s :
  holds_at s D fi fb -> image files D fi fb -> files !! i = Some f ->
  n = Z.of_nat (length p) -> Forall byte_ok p ->
  let len := Z.of_nat (length f.2) in
  len + n <= MAXFILE * BSIZE ->
  let fb' := fb + (blocks_of (len + n) - blocks_of len) in
  fb' <= FSSIZE ->
  wp (iappend (1 + Z.of_nat i) p n) (fun _ s' => exists D', holds_at s' D' fi fb' /\
    image (<[i := (f.1, f.2 ++ p)]> files) D' fi fb') s.
Proof.
  intros Hs Him Hf En Hp len Hmax fb' Hfb'. pose proof (lookup_lt_Some _ _ _ Hf) as Hlt.
  pose proof (im_room _ _ _ _ Him) as [Hr1 Hr2]. pose proof (im_fi _ _ _ _ Him) as Hfi.
  destruct (im_files _ _ _ _ Him i f Hf) as [Hty Hst]. set (V := seal fb D) in *.
  set (ino := 1 + Z.of_nat i) in *. assert (Hi : 1 <= ino < NINODES) by (unfold ino; lia).
  pose proof (clean_iwf sb _ _ _ (im_fs _ _ _ _ Him) (stored_clean V ino f Hi Hty Hst)) as Hw.
  pose proof (blocks_total_pos files) as Hbp. pose proof (im_fb _ _ _ _ Him) as Hfb.
  assert (HM : MAXFILE * BSIZE = 274432) by done.
  destruct (meta_inv _ _ _ _ _ _ (st_meta _ _ _ Hst)) as [_ Esz]. fold len in Esz.
  unfold iappend. apply wp_bind. eapply rinode_wp; [done|lia|]. intros s1 Hs1.
  rewrite <-(seal_inode fb) by lia. fold V. rewrite Esz, xint_small by (unfold len in *; lia).
  assert (Ha : appending V (disk_inode sb V ino) len (joined f p) fi D fb (disk_inode sb V ino) len s1).
  { split; [done|apply Him|apply Him|lia|unfold len; lia|apply (st_exact _ _ _ Hst)| |done].
    rewrite Z.sub_diag. by apply wrote_nothing. }
  apply wp_bind. eapply wp_mono.
  { eapply (iappend_loop_wp _ _ _ _ _ _ _ _ _ _ _ _ _ Ha En); [by apply joined_bytes|done|done|lia]. }
  fold fb'. intros r s2 (D1 & din1 & -> & Ha1). pose proof (ap_state _ _ _ _ _ _ _ _ _ _ Ha1) as Hs2.
  rewrite xint_small by (unfold len in *; lia). eapply winode_wp; [done|lia|]. intros s3 Hs3.
  eexists. split; [exact Hs3|]. subst n. by eapply append_image.
Qed.

(** ** [main] *)

Definition built (files : list hfile) (s : mkfs) : Prop :=
  exists D fb, holds_at s D (1 + Z.of_nat (length files)) fb /\
    image files D (1 + Z.of_nat (length files)) fb.

Lemma built_ialloc files type s :
  built files s -> 1 + Z.of_nat (length files) < NINODES -> type_ok type ->
  wp (ialloc type) (fun i s' => i = 1 + Z.of_nat (length files) /\ built (files ++ [(type, [])]) s') s.
Proof.
  intros (D & fb & Hs & Him) Hn Hty. eapply wp_mono; [by apply (ialloc_wp files D fb)|].
  intros i s' (-> & D' & Hs' & Him'). split; [done|]. exists D', fb.
  rewrite length_app. cbn [length]. by replace (1 + Z.of_nat (length files + 1)) with (1 + Z.of_nat (length files) + 1) by lia.
Qed.

Lemma built_iappend files i f p n s :
  built files s -> files !! i = Some f -> n = Z.of_nat (length p) -> Forall byte_ok p ->
  Z.of_nat (length f.2) + n <= MAXFILE * BSIZE ->
  blocks_total (<[i := (f.1, f.2 ++ p)]> files) <= nblocks ->
  wp (iappend (1 + Z.of_nat i) p n) (fun _ s' => built (<[i := (f.1, f.2 ++ p)]> files) s') s.
Proof.
  intros (D & fb & Hs & Him) Hf En Hp Hmax Hbl.
  rewrite (blocks_total_insert _ _ _ _ Hf) in Hbl. cbn [snd] in Hbl. rewrite length_app, Nat2Z.inj_add, <-En in Hbl.
  pose proof (im_fb _ _ _ _ Him). unfold nblocks in Hbl.
  eapply wp_mono; [eapply (iappend_wp files D _ fb i f p n); try done; lia|].
  intros _ s' (D' & Hs' & Him'). eexists D', _. rewrite length_insert. done.
Qed.

Lemma append_all_wp files i f chunks s :
  built files s -> files !! i = Some f -> Forall chunk_ok chunks ->
  Z.of_nat (length (f.2 ++ concat chunks)) <= MAXFILE * BSIZE ->
  blocks_total (<[i := (f.1, f.2 ++ concat chunks)]> files) <= nblocks ->
  wp (append_all (1 + Z.of_nat i) chunks)
    (fun _ s' => built (<[i := (f.1, f.2 ++ concat chunks)]> files) s') s.
Proof.
  revert files f s. induction chunks as [|c chunks IH]; intros files f s Hb Hf Hc Hmax Hbl; cbn [append_all concat] in *.
  - apply wp_ret. rewrite app_nil_r in *. rewrite list_insert_id; [done|]. rewrite Hf. by destruct f.
  - apply Forall_cons in Hc as [[_ Hcb] Hc]. rewrite app_assoc in *.
    pose proof (lookup_lt_Some _ _ _ Hf) as Hlt. set (g := (f.1, f.2 ++ c)).
    assert (Hg : <[i := g]> files !! i = Some g) by (by apply list_lookup_insert_eq).
    apply wp_bind. eapply wp_mono; [apply (built_iappend files i f c); try done|].
    + rewrite length_app in Hmax. rewrite length_app in Hmax. lia.
    + rewrite (blocks_total_insert _ _ _ _ Hf) in Hbl. rewrite (blocks_total_insert _ _ _ _ Hf). cbn [snd] in *.
      pose proof (blocks_of_mono (Z.of_nat (length (f.2 ++ c))) (Z.of_nat (length ((f.2 ++ c) ++ concat chunks)))
        ltac:(rewrite !length_app; lia)). lia.
    + intros [] s1 Hb1. eapply wp_mono; [apply (IH _ g _ Hb1 Hg Hc Hmax)|].
      * by rewrite list_insert_insert_eq.
      * intros [] s2 Hb2. by rewrite list_insert_insert_eq in Hb2.
Qed.

(** What is read on the host, and the name in the root directory. *)
Definition host_data (path : list Z) : list Z := concat (default [] (open_read path)).
Definition file_name (path : list Z) : list Z := skip_underscore (short_name path).

Record path_ok (path : list Z) : Prop := {
  po_open : is_Some (open_read path);
  po_name : slash ∉ short_name path;
  po_chars : Forall byte_ok path;
  po_size : Z.of_nat (length (host_data path)) <= MAXFILE * BSIZE;
}.

Fixpoint entries (inum : Z) (paths : list (list Z)) : list Z :=
  match paths with
  | [] => []
  | path :: paths => dentry_of inum (file_name path) ++ entries (inum + 1) paths
  end.

Lemma dentry_length inum name : length (dentry_of inum name) = 16%nat.
Proof. unfold dentry_of, dent_bytes. by rewrite length_app, le_enc_length, strncpy_length. Qed.

Lemma dentry_bytes inum name : Forall byte_ok name -> Forall byte_ok (dentry_of inum name).
Proof.
  intros Hn. unfold dentry_of, dent_bytes. apply Forall_app.
  split; [apply le_enc_bytes|by apply strncpy_bytes].
Qed.

Lemma file_name_bytes path : Forall byte_ok path -> Forall byte_ok (file_name path).
Proof.
  intros Hp. assert (Hs : Forall byte_ok (short_name path)).
  { unfold short_name. destruct (strncmp _ _ _ =? 0); [by apply Forall_drop|done]. }
  unfold file_name, skip_underscore. destruct (hd 0 _ =? underscore); [|done].
  by apply Forall_tail.
Qed.

Lemma entries_length inum paths : length (entries inum paths) = (16 * length paths)%nat.
Proof.
  revert inum. induction paths as [|p ps IH]; intros inum; cbn [entries length]; [done|].
  rewrite length_app, dentry_length, IH. lia.
Qed.

Context `{HL : !HostLaws}.

Notation hosted paths := (map (fun path => (T_FILE, host_data path)) paths).

Lemma add_file_wp rb fs path s :
  let inum := 2 + Z.of_nat (length fs) in
  let files' := (T_DIR, rb ++ dentry_of inum (file_name path)) :: fs ++ [(T_FILE, host_data path)] in
  built ((T_DIR, rb) :: fs) s -> path_ok path -> inum < NINODES ->
  Z.of_nat (length rb) + 16 <= MAXFILE * BSIZE -> blocks_total files' <= nblocks ->
  wp (add_file ROOTINO path) (fun _ s' => built files' s') s.
Proof.
  intros inum files' Hb [[chunks Ho] Hsl Hch Hsz] Hi Hrb Hbl. unfold add_file. cbv zeta.
  assert (Hd : host_data path = concat chunks) by (unfold host_data; by rewrite Ho).
  replace (existsb (Z.eqb slash) (short_name path)) with false.
  2: { symmetry. apply not_true_iff_false. rewrite existsb_exists. intros (c & Hc & Ec%Z.eqb_eq).
       apply Hsl. rewrite Ec. by apply list_elem_of_In. }
  apply wp_bind, wp_ret. rewrite Ho. fold (file_name path). apply wp_bind.
  eapply wp_mono; [apply (built_ialloc _ T_FILE s Hb); [cbn [length]; unfold inum in Hi; lia|by right]|].
  intros i s1 [-> Hb1]. cbn [length].
  replace (1 + Z.of_nat (S (length fs))) with inum by (unfold inum; lia).
  set (de := dentry_of inum (file_name path)) in *. cbn [app] in Hb1.
  unfold files' in Hbl. cbn [blocks_total snd] in Hbl. rewrite blocks_total_app in Hbl. cbn [blocks_total snd] in Hbl.
  pose proof (blocks_of_pos (Z.of_nat (length (host_data path))) ltac:(lia)).
  assert (Hde : Z.of_nat (length de) = 16) by (unfold de; by rewrite dentry_length).
  apply wp_bind. eapply wp_mono; [apply (built_iappend _ 0 (T_DIR, rb) de DENTRY_SIZE s1 Hb1); try done|].
  - apply dentry_bytes, file_name_bytes, Hch.
  - change (<[0%nat := ?x]> (?y :: ?l)) with (x :: l). cbn [blocks_total fst snd]. rewrite blocks_total_app.
    change (blocks_total [(T_FILE, [])]) with 0. lia.
  - intros [] s2 Hb2. change (<[0%nat := ?x]> (?y :: ?l)) with (x :: l) in Hb2. cbn [fst snd] in Hb2.
    replace inum with (1 + Z.of_nat (S (length fs))) by (unfold inum; lia).
    assert (Ei : <[S (length fs) := (T_FILE, [] ++ concat chunks)]> ((T_DIR, rb ++ de) :: fs ++ [(T_FILE, [])]) = files').
    { unfold files'. change (<[S (length fs) := ?x]> (?y :: ?l)) with (y :: <[length fs := x]> l).
      rewrite insert_app_r_alt, Nat.sub_diag by done. by rewrite Hd. }
    eapply wp_mono; [apply (append_all_wp _ (S (length fs)) (T_FILE, []) chunks s2 Hb2)|].
    + cbn [lookup list_lookup]. by apply list_lookup_middle.
    + by eapply read_law.
    + cbn [snd]. by rewrite app_nil_l, <-Hd.
    + cbn [fst snd]. rewrite Ei. unfold files'. cbn [blocks_total snd]. rewrite blocks_total_app.
      cbn [blocks_total snd]. lia.
    + intros [] s3. cbn [fst snd]. by rewrite Ei.
Qed.

Lemma add_files_wp rb fs paths s :
  let inum := 2 + Z.of_nat (length fs) in
  let files' := (T_DIR, rb ++ entries inum paths) :: fs ++ hosted paths in
  built ((T_DIR, rb) :: fs) s -> Forall path_ok paths ->
  inum + Z.of_nat (length paths) <= NINODES ->
  Z.of_nat (length rb + 16 * length paths) <= MAXFILE * BSIZE -> blocks_total files' <= nblocks ->
  wp (add_files ROOTINO paths) (fun _ s' => built files' s') s.
Proof.
  revert rb fs s. induction paths as [|p ps IH]; intros rb fs s inum files' Hb Hp Hi Hrb Hbl; cbn [add_files].
  - apply wp_ret. unfold files'. cbn. by rewrite !app_nil_r.
  - apply Forall_cons in Hp as [Hp Hps]. cbn [length] in Hi, Hrb.
    set (rb' := rb ++ dentry_of inum (file_name p)). set (fs' := fs ++ [(T_FILE, host_data p)]).
    assert (Ef : files' = (T_DIR, rb' ++ entries (2 + Z.of_nat (length fs')) ps) :: fs' ++ hosted ps).
    { unfold files', rb', fs'. cbn [entries map]. rewrite <-!app_assoc, length_app. cbn [length].
      by replace (2 + Z.of_nat (length fs + 1)) with (inum + 1) by (unfold inum; lia). }
    rewrite Ef in *. apply wp_bind. eapply wp_mono; [apply (add_file_wp rb fs p s Hb Hp)|].
    + unfold inum in Hi. lia.
    + lia.
    + fold inum rb' fs'. cbn [blocks_total snd] in *. rewrite blocks_total_app in Hbl.
      pose proof (blocks_total_pos (hosted ps)).
      pose proof (blocks_of_mono (Z.of_nat (length rb')) (Z.of_nat (length (rb' ++ entries (2 + Z.of_nat (length fs')) ps)))
        ltac:(rewrite length_app; lia)). lia.
    + intros [] s1 Hb1. fold inum rb' fs' in Hb1. apply IH; try done.
      * unfold fs'. rewrite length_app. cbn [length]. unfold inum in Hi. lia.
      * unfold rb'. rewrite length_app, dentry_length. lia.
Qed.

(** The empty image. *)
Lemma zero_image_wp k i s :
  0 <= i -> i + Z.of_nat k <= FSSIZE -> img_len s = i -> disk_ok (img s) ->
  (forall b, 0 <= b < i -> img s !! b = Some zero_block) ->
  wp (zero_image k i) (fun _ s' => disk_ok (img s') /\ img_len s' = i + Z.of_nat k /\
    freeinode s' = freeinode s /\ freeblock s' = freeblock s /\
    forall b, 0 <= b < i + Z.of_nat k -> img s' !! b = Some zero_block) s.
Proof.
  revert i s. induction k as [|k IH]; intros i s Hi Hk Hl HD Hz; cbn [zero_image].
  - apply wp_ret. rewrite Z.add_0_r. done.
  - unfold wsect. apply wp_bind, wp_bind, syscall_wp, wp_bind, syscall_wp, wp_modify.
    rewrite sector_small by lia. replace (i + Z.of_nat (S k)) with (i + 1 + Z.of_nat k) by lia.
    eapply wp_mono; [apply (IH (i + 1)); cbn; try lia; [by apply disk_ok_insert, zero_block_ok|]|].
    + intros b Hb. destruct (decide (b = i)) as [->|]; [apply lookup_insert_eq|].
      rewrite lookup_insert_ne by done. apply Hz. lia.
    + intros [] s' (? & ? & ? & ? & ?). done.
Qed.

Lemma zero_dinode i : d_type (get_dinode i zero_block) = 0.
Proof.
  unfold get_dinode, dinode_of_bytes, get16, slice, zero_block. cbn [d_type].
  rewrite drop_replicate, take_replicate, drop_replicate, take_replicate.
  pose proof (dino_off_bound i). change (Z.to_nat DINODE_SIZE) with 64%nat in *.
  replace (2 `min` (64 `min` (Z.to_nat BSIZE - dino_off i) - 0))%nat with 2%nat by lia. reflexivity.
Qed.

Lemma empty_image D :
  disk_ok D -> (forall b, 0 <= b < FSSIZE -> D !! b = Some zero_block) ->
  image [] (<[1 := splice 0 (bytes_of_sb sb) zero_block]> D) 1 nmeta.
Proof.
  intros HD Hz. set (D' := <[1 := _]> D).
  assert (HD' : disk_ok D').
  { apply disk_ok_insert; [done|]. apply block_ok_splice; [apply zero_block_ok| |vm_compute; lia].
    unfold bytes_of_sb. rewrite !Forall_app. split_and!; apply le_enc_bytes. }
  assert (Hfree : forall i, 0 <= i < NINODES -> d_type (disk_inode sb (seal nmeta D') i) = 0).
  { intros i Hi. rewrite seal_inode by done. unfold disk_inode. pose proof (IBLOCK_mkfs i Hi).
    unfold D'. rewrite dblk_insert_ne by lia. unfold dblk. rewrite Hz by (unfold FSSIZE; lia). apply zero_dinode. }
  assert (Hna : forall i, ~ allocated sb (seal nmeta D') i).
  { intros i [Hi Ht]. apply Ht, Hfree. rewrite sb_ninodes in Hi. unfold NINODES. lia. }
  split; try done.
  - intros b Hb. change nmeta with 46 in Hb. unfold D'. rewrite lookup_insert_ne by lia. apply Hz. lia.
  - split; [intros i Ha|intros i j b Ha|intros b Hb Hu]; try (by apply Hna in Ha).
    rewrite sb_nmeta, sb_size in Hb. rewrite in_use_seal in Hu by (unfold FSSIZE; change nmeta with 46; lia).
    apply Z.ltb_lt in Hu. change nmeta with 46 in Hu. lia.
  - apply dblk_insert_eq.
  - intros i Hi. apply Hfree. lia.
Qed.

(** The root directory with its size rounded up. *)
Definition root_size (len : Z) : Z := (len / BSIZE + 1) * BSIZE.

Lemma root_staged V rb :
  let len := Z.of_nat (length rb) in
  let din := disk_inode sb V ROOTINO in
  disk_ok V -> fs_ok sb V -> stored V ROOTINO (T_DIR, rb) -> len mod BSIZE <> 0 ->
  root_size len <= MAXFILE * BSIZE ->
  staged sb V V ROOTINO (dxi din) (set_dsize (root_size len) din).
Proof.
  intros len din HV Hok Hst Hmod Hmax. assert (Hi : 1 <= ROOTINO < NINODES) by done.
  pose proof (stored_allocated V ROOTINO (T_DIR, rb) Hi (or_introl eq_refl) Hst) as Ha.
  pose proof (st_exact _ _ _ Hst) as He. cbn [snd] in He. fold len in He.
  assert (Hsz : 0 <= root_size len < 2 ^ 32).
  { unfold root_size. pose proof (Z.div_pos len BSIZE ltac:(lia) BSIZE_pos). unfold root_size in Hmax.
    change (MAXFILE * BSIZE) with 274432 in Hmax. unfold BSIZE in *. lia. }
  split; try done; try (by left).
  - apply (fk_iwf _ _ _ (fo_file _ _ Hok _ Ha)).
  - destruct (get_dinode_ok ROOTINO _ (HV (IBLOCK ROOTINO sb))). by split; try exact Hsz.
  - cbn. lia.
  - cbn [d_size set_dsize]. intros k Hk. destruct (decide (k < len)) as [|Hge]; [apply (ex_mapped _ _ _ He); lia|].
    pose proof (Z.div_mod len BSIZE ltac:(done)) as Hdm. pose proof (Z.mod_pos_bound len BSIZE BSIZE_pos) as Hmb.
    assert (Ek : k / BSIZE = len / BSIZE).
    { apply Z.le_antisymm; [|apply Z.div_le_mono; [done|lia]].
      apply Z.lt_succ_r, Z.div_lt_upper_bound; [done|]. unfold root_size in Hk. lia. }
    assert (El : (len - 1) / BSIZE = len / BSIZE)
      by (symmetry; apply (Z.div_unique _ _ _ (len mod BSIZE - 1)); lia).
    pose proof (Z.div_pos len BSIZE ltac:(lia) BSIZE_pos).
    pose proof (ex_mapped _ _ _ He (len - 1) ltac:(unfold BSIZE in *; lia)) as Hm.
    unfold mapped in *. by rewrite Ek, <-El.
  - cbn [d_type set_dsize]. intros Ht. by destruct (proj2 Ha).
Qed.

(** Directory entry [j] of the root directory. *)
Definition dir_entry (D : gmap Z block) (j : Z) : list Z :=
  map (content sb D ROOTINO) (seqZ (16 * j) 16).

(** What [mkfs] leaves on the image. *)
Record booted (D : gmap Z block) (paths : list (list Z)) : Prop := {
  bt_sb : sb_of_bytes (dblk D 1) = sb;
  bt_disk : disk_ok D;
  bt_meta : meta_used sb D;
  bt_fs : fs_ok sb D;
  bt_root : meta_of (disk_inode sb D ROOTINO) =
    (T_DIR, 0, 0, 1, root_size (16 * (2 + Z.of_nat (length paths))));
  bt_dot : dir_entry D 0 = dentry_of ROOTINO dot /\ dir_entry D 1 = dentry_of ROOTINO dotdot;
  bt_names : forall i path, paths !! i = Some path ->
    dir_entry D (2 + Z.of_nat i) = dentry_of (2 + Z.of_nat i) (file_name path);
  bt_end : forall j, 2 + Z.of_nat (length paths) <= j -> 16 * (j + 1) <= fsize sb D ROOTINO ->
    dir_entry D j = replicate 16 0;
  bt_files : forall i path, paths !! i = Some path ->
    meta_of (disk_inode sb D (2 + Z.of_nat i)) = (T_FILE, 0, 0, 1, Z.of_nat (length (host_data path))) /\
    forall k b, host_data path !! k = Some b -> content sb D (2 + Z.of_nat i) (Z.of_nat k) = b;
  bt_free : forall i, 2 + Z.of_nat (length paths) <= i -> ~ allocated sb D i;
}.

Definition root_bytes (paths : list (list Z)) : list Z :=
  (dentry_of ROOTINO dot ++ dentry_of ROOTINO dotdot) ++ entries 2 paths.

Lemma root_bytes_length paths : Z.of_nat (length (root_bytes paths)) = 16 * (2 + Z.of_nat (length paths)).
Proof. unfold root_bytes. rewrite !length_app, !dentry_length, entries_length. lia. Qed.

Lemma entries_lookup inum paths i path j :
  paths !! i = Some path -> (j < 16)%nat ->
  entries inum paths !! (16 * i + j)%nat = dentry_of (inum + Z.of_nat i) (file_name path) !! j.
Proof.
  revert inum i. induction paths as [|p ps IH]; intros inum i Hi Hj; [done|]. cbn [entries].
  destruct i as [|i].
  - injection Hi as ->. rewrite Z.add_0_r, lookup_app_l by (rewrite dentry_length; lia). done.
  - rewrite lookup_app_r by (rewrite dentry_length; lia). rewrite dentry_length.
    replace (16 * S i + j - 16)%nat with (16 * i + j)%nat by lia.
    rewrite (IH (inum + 1) i Hi Hj). do 2 f_equal. lia.
Qed.

(** Entries are determined by the bytes of the directory. *)
Lemma dir_entry_eq D j e :
  length e = 16%nat ->
  (forall k, (k < 16)%nat -> content sb D ROOTINO (16 * j + Z.of_nat k) = e !!! k) -> dir_entry D j = e.
Proof.
  intros Hl Hk. apply (list_eq_same_length _ _ 16); [done| |].
  { unfold dir_entry. by rewrite length_map, length_seqZ. }
  intros k x y Hlt Hx Hy. unfold dir_entry in Hx. apply list_lookup_fmap_Some in Hx as (z & -> & Hz).
  apply lookup_seqZ in Hz as [-> _]. rewrite Hk by done. by apply list_lookup_total_correct.
Qed.

Lemma meta_set_dsize di ty ma mi nl n n' :
  meta_of di = (ty, ma, mi, nl, n) -> meta_of (set_dsize n' di) = (ty, ma, mi, nl, n').
Proof. unfold meta_of. cbn. congruence. Qed.

(** The entries of a directory with the bytes [root_bytes], zero after them. *)
Lemma entries_of_bytes D paths :
  let len := 16 * (2 + Z.of_nat (length paths)) in
  (forall k b, root_bytes paths !! k = Some b -> content sb D ROOTINO (Z.of_nat k) = b) ->
  (forall k, len <= k < fsize sb D ROOTINO -> content sb D ROOTINO k = 0) ->
  (dir_entry D 0 = dentry_of ROOTINO dot /\ dir_entry D 1 = dentry_of ROOTINO dotdot) /\
  (forall i path, paths !! i = Some path ->
    dir_entry D (2 + Z.of_nat i) = dentry_of (2 + Z.of_nat i) (file_name path)) /\
  (forall j, 2 + Z.of_nat (length paths) <= j -> 16 * (j + 1) <= fsize sb D ROOTINO ->
    dir_entry D j = replicate 16 0).
Proof.
  intros len Hb Hz.
  assert (Hent : forall j (e : list Z), 0 <= j -> length e = 16%nat ->
    (forall k, (k < 16)%nat -> root_bytes paths !! (16 * Z.to_nat j + k)%nat = e !! k) -> dir_entry D j = e).
  { intros j e Hj Hl He. apply dir_entry_eq; [done|]. intros k Hk.
    destruct (lookup_lt_is_Some_2 e k ltac:(lia)) as [b Heb]. rewrite (list_lookup_total_correct _ _ _ Heb).
    rewrite <-(Hb (16 * Z.to_nat j + k)%nat b); [f_equal; lia|]. by rewrite He. }
  assert (Hdots : length (dentry_of ROOTINO dot ++ dentry_of ROOTINO dotdot) = 32%nat)
    by (by rewrite length_app, !dentry_length).
  split_and!.
  - apply Hent; [done|apply dentry_length|]. intros k Hk. unfold root_bytes.
    rewrite lookup_app_l by (rewrite Hdots; lia). by rewrite lookup_app_l by (rewrite dentry_length; lia).
  - apply Hent; [done|apply dentry_length|]. intros k Hk. unfold root_bytes.
    rewrite lookup_app_l by (rewrite Hdots; lia). rewrite lookup_app_r by (rewrite dentry_length; lia).
    rewrite dentry_length. f_equal. lia.
  - intros i path Hi. apply Hent; [lia|apply dentry_length|]. intros k Hk. unfold root_bytes.
    rewrite lookup_app_r by (rewrite Hdots; lia). rewrite Hdots, <-(entries_lookup 2 paths i path k Hi Hk).
    f_equal. lia.
  - intros j Hj Hs. apply dir_entry_eq; [apply length_replicate|]. intros k Hk.
    rewrite lookup_total_replicate_2 by done. apply Hz. unfold len. lia.
Qed.

(** The root inode with its final size on an image that has everything else. *)
Lemma finished paths D fb :
  let files := (T_DIR, root_bytes paths) :: hosted paths in
  let V := seal fb D in
  let len := 16 * (2 + Z.of_nat (length paths)) in
  let di := set_dsize (root_size len) (disk_inode sb V ROOTINO) in
  image files D (1 + Z.of_nat (length files)) fb -> nmeta <= fb <= FSSIZE -> disk_ok V ->
  staged sb V V ROOTINO (dxi (disk_inode sb V ROOTINO)) di ->
  root_size len <= MAXFILE * BSIZE ->
  booted (iupdate_disk sb V ROOTINO di) paths.
Proof.
  intros files V len di Him Hfb HV Hstg Hmax. set (D' := iupdate_disk sb V ROOTINO di).
  pose proof (im_fs _ _ _ _ Him) as Hok. fold V in Hok. change nmeta with 46 in Hfb. unfold FSSIZE in Hfb.
  pose proof (staged_replaces sb _ _ _ _ _ sb_ok_mkfs HV Hok Hstg) as Hrep. fold D' in Hrep.
  destruct (im_files _ _ _ _ Him 0%nat _ eq_refl) as [_ Hst]. fold V in Hst.
  change (1 + Z.of_nat 0) with ROOTINO in Hst.
  assert (Hroot : disk_inode sb D' ROOTINO = di) by (by eapply staged_self).
  pose proof (root_bytes_length paths) as Hrl. fold len in Hrl.
  pose proof (st_exact _ _ _ Hst) as Hex. cbn [snd] in Hex. rewrite Hrl in Hex.
  assert (Hc : forall k, 0 <= k < root_size len ->
    content sb D' ROOTINO k = fbyte V (ifile sb V ROOTINO) k) by (intros k Hk; by eapply staged_content).
  assert (Hlt : len < root_size len).
  { unfold root_size. pose proof (Z.div_mod len BSIZE ltac:(done)). pose proof (Z.mod_pos_bound len BSIZE BSIZE_pos). lia. }
  destruct (entries_of_bytes D' paths) as (Hdot & Hnames & Hend).
  { intros k b Hk. pose proof (lookup_lt_Some _ _ _ Hk). rewrite Hc by lia. by apply (st_bytes _ _ _ Hst). }
  { fold len. unfold fsize. rewrite Hroot. cbn [d_size di set_dsize]. intros k Hk. rewrite Hc by (unfold len in *; lia).
    apply (ex_tail _ _ _ Hex); [lia|]. apply (sg_mapped _ _ _ _ _ _ Hstg). cbn [d_size di set_dsize]. unfold len in *. lia. }
  assert (Hlen : length files = S (length paths)) by (unfold files; cbn [length]; by rewrite length_map).
  pose proof (im_room _ _ _ _ Him) as [_ Hni]. rewrite Hlen in Hni.
  split; try done.
  - unfold D', iupdate_disk. rewrite dblk_insert_ne by done. unfold V. rewrite dblk_seal by done.
    rewrite (im_sb _ _ _ _ Him). vm_compute. reflexivity.
  - apply disk_ok_insert; [done|]. apply put_dinode_ok; [|done].
    rewrite (sg_addrs _ _ _ _ _ _ Hstg). apply (sg_iwf _ _ _ _ _ _ Hstg).
  - intros b Hbr. rewrite sb_nmeta in Hbr. unfold D'.
    rewrite iupdate_in_use by (done || apply sb_ok_mkfs || (rewrite sb_size; lia)).
    unfold V. rewrite in_use_seal by (unfold FSSIZE; lia). apply Z.ltb_lt. lia.
  - by eapply replaces_ok.
  - rewrite Hroot. eapply meta_set_dsize, (st_meta _ _ _ Hst).
  - intros i path Hi. pose proof (lookup_lt_Some _ _ _ Hi).
    destruct (im_files _ _ _ _ Him (S i) (T_FILE, host_data path)) as [Hty Hsi].
    { transitivity ((fun path => (T_FILE, host_data path)) <$> paths !! i); [apply list_lookup_fmap|by rewrite Hi]. }
    fold V in Hsi. replace (1 + Z.of_nat (S i)) with (2 + Z.of_nat i) in Hsi by lia.
    apply (stored_replaces _ D' ROOTINO) in Hsi; try done; [|unfold ROOTINO; lia|unfold NINODES in *; lia].
    split; [apply (st_meta _ _ _ Hsi)|apply (st_bytes _ _ _ Hsi)].
  - intros i Hi [Hir Ht]. rewrite sb_ninodes in Hir. apply Ht.
    rewrite (rp_inode _ _ _ _ Hrep); [|rewrite sb_ninodes; lia|unfold ROOTINO; lia].
    apply (im_free _ _ _ _ Him). rewrite Hlen. unfold NINODES. lia.
Qed.

Lemma finish_wp paths s :
  let files := (T_DIR, root_bytes paths) :: hosted paths in
  built files s -> (2 + Z.of_nat (length paths)) mod 64 <> 0 ->
  wp (finish ROOTINO) (fun _ s' => booted (img s') paths) s.
Proof.
  intros files (D & fb & Hs & Him) Hmod. set (V := seal fb D).
  pose proof (im_fb _ _ _ _ Him) as Hfb. pose proof (blocks_total_pos files) as Hbp.
  pose proof (im_room _ _ _ _ Him) as [Hr1 Hr2]. unfold FSSIZE in Hr1. change nmeta with 46 in Hfb.
  set (len := 16 * (2 + Z.of_nat (length paths))).
  assert (Hn : Z.of_nat (length paths) <= 198).
  { revert Hr2. unfold files, NINODES. cbn [length]. rewrite length_map. lia. }
  assert (Hlm : len mod BSIZE <> 0).
  { unfold len. pose proof (Z.mul_mod_distr_l (2 + Z.of_nat (length paths)) 64 16 ltac:(lia) ltac:(lia)) as E.
    change (16 * 64) with BSIZE in E. rewrite E. lia. }
  assert (Hrs : 0 <= root_size len <= 4096).
  { unfold root_size. assert (0 <= len / BSIZE <= 3); [|unfold BSIZE in *; lia].
    split; [apply Z.div_pos; [unfold len; lia|done]|].
    apply Z.lt_succ_r, Z.div_lt_upper_bound; [done|unfold len, BSIZE; lia]. }
  destruct (im_files _ _ _ _ Him 0%nat _ eq_refl) as [_ Hst]. fold V in Hst.
  change (1 + Z.of_nat 0) with ROOTINO in Hst.
  assert (HV : disk_ok V) by (apply seal_disk_ok; [unfold FSSIZE; lia|apply Him]).
  assert (Hok : fs_ok sb V) by apply Him.
  assert (Hstg : staged sb V V ROOTINO (dxi (disk_inode sb V ROOTINO)) (set_dsize (root_size len) (disk_inode sb V ROOTINO))).
  { unfold len. rewrite <-root_bytes_length. apply root_staged; rewrite ?root_bytes_length; try done.
    fold len. change (MAXFILE * BSIZE) with 274432. lia. }
  unfold finish. apply wp_bind. eapply rinode_wp; [done|done|]. intros s1 Hs1.
  rewrite <-(seal_inode fb) by done. fold V.
  destruct (meta_inv _ _ _ _ _ _ (st_meta _ _ _ Hst)) as [_ Esz]. cbn [snd] in Esz.
  rewrite root_bytes_length in Esz. fold len in Esz. rewrite Esz, (xint_small len) by (unfold len; lia).
  fold (root_size len). rewrite u32_small, xint_small by lia. apply wp_bind.
  eapply winode_wp; [done|done|]. intros s2 Hs2. apply wp_bind, wp_gets.
  pose proof Hs2 as (_ & _ & _ & ->). rewrite s32_small by lia. unfold balloc, assert.
  rewrite (proj2 (Z.ltb_lt _ _)) by (unfold BSIZE; lia). apply wp_bind, wp_ret.
  eapply wsect_wp; [done|unfold FSSIZE; rewrite sb_bmapstart; lia|]. intros s3 (-> & _). fold (bitmap fb).
  fold (seal fb (iupdate_disk sb D ROOTINO (set_dsize (root_size len) (disk_inode sb V ROOTINO)))).
  rewrite seal_iupdate by done. fold V.
  apply finished; try done; [change nmeta with 46; unfold FSSIZE; lia|].
  fold len. change (MAXFILE * BSIZE) with 274432. lia.
Qed.

(** The sizes of the files and of the root directory, in blocks. *)
Definition blocks_needed (paths : list (list Z)) : Z :=
  blocks_total ((T_DIR, root_bytes paths) :: hosted paths).

Lemma dots_ok : Forall byte_ok dot /\ Forall byte_ok dotdot.
Proof. split; repeat (apply List.Forall_cons; [done|]); apply List.Forall_nil. Qed.

Lemma root_entry_wp rb e s :
  built [(T_DIR, rb)] s -> Z.of_nat (length rb) <= 16 -> Forall byte_ok e ->
  wp (iappend ROOTINO (dentry_of ROOTINO e) DENTRY_SIZE)
    (fun _ s' => built [(T_DIR, rb ++ dentry_of ROOTINO e)] s') s.
Proof.
  intros Hb Hrb He. apply (built_iappend [(T_DIR, rb)] 0 (T_DIR, rb)); try done.
  - by rewrite dentry_length.
  - by apply dentry_bytes.
  - cbn [snd]. change (MAXFILE * BSIZE) with 274432. unfold DENTRY_SIZE. lia.
  - change (<[0%nat := ?x]> [?y]) with [x]. cbn [blocks_total fst snd]. rewrite length_app, dentry_length.
    pose proof (blocks_of_mono (Z.of_nat (length rb + 16)) 1024 ltac:(lia)).
    change (blocks_of 1024) with 1 in *. change nblocks with 1954. lia.
Qed.

Lemma main_wp image_path paths :
  creat image_path = true -> Forall path_ok paths ->
  Z.of_nat (length paths) <= NINODES - 2 -> (2 + Z.of_nat (length paths)) mod 64 <> 0 ->
  blocks_needed paths <= nblocks ->
  wp (main (image_path :: paths)) (fun _ s => booted (img s) paths) mkfs_init.
Proof.
  intros Hcr Hp Hn Hmod Hbl. unfold NINODES in Hn. unfold main.
  change (BSIZE mod DINODE_SIZE =? 0) with true. change (BSIZE mod DENTRY_SIZE =? 0) with true.
  apply wp_bind, wp_ret, wp_bind, wp_ret. rewrite Hcr. apply wp_bind, wp_ret, wp_bind, wp_modify, wp_bind.
  eapply wp_mono; [apply zero_image_wp; try done; [apply disk_ok_empty|intros b Hb; lia]|].
  intros [] s1 (HD1 & Hl1 & Hi1 & Hf1 & Hz1). apply wp_bind.
  eapply (wsect_wp _ _ (img s1) 1 nmeta); [split_and!; [done|exact Hl1|exact Hi1|exact Hf1]|done|]. intros s2 Hs2.
  assert (Hb2 : built [] s2) by (eexists _, _; split; [exact Hs2|by apply empty_image]).
  apply wp_bind. eapply wp_mono; [apply (built_ialloc [] T_DIR s2 Hb2); [done|by left]|].
  intros i s3 [-> Hb3]. apply wp_bind, wp_ret. cbn [app] in Hb3.
  apply wp_bind. eapply wp_mono; [apply (root_entry_wp [] dot _ Hb3); [done|apply dots_ok]|].
  intros [] s4 Hb4. apply wp_bind.
  eapply wp_mono; [apply (root_entry_wp _ dotdot _ Hb4); [done|apply dots_ok]|].
  intros [] s5 Hb5. cbn [app] in Hb5. apply wp_bind.
  eapply wp_mono; [apply (add_files_wp _ [] paths s5 Hb5 Hp)|].
  - cbn [length]. unfold NINODES. lia.
  - rewrite length_app, !dentry_length. change (MAXFILE * BSIZE) with 274432. lia.
  - exact Hbl.
  - intros [] s6 Hb6. by apply finish_wp.
Qed.
End specs.

(** ** The kernel mounts the image *)

Lemma booted_mounts `{HT : Host} D paths :
  booted D paths -> wp xv6fs_fsinit (fun sb' c => sb' = sb /\ idle sb c) (Bio.boot D 1).
Proof.
  intros Hb. destruct (Bio.boot_view D 1 (bt_disk _ _ Hb)) as (HI & HD & Hh).
  assert (Hid : idle sb (Bio.boot D 1))
    by (split; [done|apply sb_ok_mkfs|rewrite HD; apply Hb|done]).
  unfold xv6fs_fsinit. apply wp_bind. eapply wp_mono.
  { apply readsb_wp; [done|by eapply idle_unheld|by eapply idle_room; [|unfold NBUF; lia]]. }
  intros sb' c' (-> & HI' & HD' & Hh'). rewrite HD, (bt_sb _ _ Hb).
  change (magic sb =? FSMAGIC) with true. apply wp_ret. split; [done|].
  split; [done|apply sb_ok_mkfs|rewrite HD'; apply Hid|by rewrite Hh'].
Qed.

(** Claim C8: [mkfs], when the image can be created and every write to it
    succeeds, run on at most 198 files that can be read and whose blocks fit on
    the image, ends and leaves a file system the kernel mounts: the super block decodes to the
    layout, [fs_ok] holds (every block in use belongs to exactly one file),
    the root directory lists [.], [..] and each file under its short name with
    its inode number, and each file has exactly the bytes read on the host.
    Excluded are numbers of files that fill the last block of the directory
    exactly (their number plus two is a multiple of 64), where the code gives
    the directory a size one block too large. *)
Theorem mkfs_builds `{HT : Host, HL : !HostLaws} image_path paths :
  (forall n, io n = true) -> creat image_path = true -> Forall path_ok paths ->
  Z.of_nat (length paths) <= NINODES - 2 -> (2 + Z.of_nat (length paths)) mod 64 <> 0 ->
  blocks_needed paths <= nblocks ->
  exists s, main (image_path :: paths) mkfs_init = Ok tt s /\ booted (img s) paths /\
    wp xv6fs_fsinit (fun sb' c => sb' = sb /\ idle sb c) (Bio.boot (img s) 1).
Proof.
  intros Hio Hcr Hp Hn Hmod Hbl.
  destruct (wp_elim _ _ _ (main_wp Hio image_path paths Hcr Hp Hn Hmod Hbl)) as ([] & s & Hrun & Hb).
  exists s. split; [exact Hrun|split; [exact Hb|by apply (booted_mounts _ paths)]].
Qed.

(** [mkfs fs.img user/_cat README]; the first file is read in two pieces. *)
Definition ex_cat : list Z := [117; 115; 101; 114; 47; 95; 99; 97; 116].
Definition ex_readme : list Z := [82; 69; 65; 68; 77; 69].

#[local] Instance ex_host : Host := {|
  creat := fun _ => true;
  open_read := fun path =>
    if bool_decide (path = ex_cat) then Some [replicate 1024 7; [1; 2; 3]]
    else if bool_decide (path = ex_readme) then Some [[120; 118; 54]]
    else None;
  io := fun _ => true |}.

Lemma small_chunk_ok c : (0 < length c <= 1024)%nat -> forallb (fun b => (0 <=? b) && (b <? 256)) c = true -> chunk_ok c.
Proof.
  intros Hl Hb. split; [done|]. apply Forall_forall. intros b Hin. rewrite forallb_forall in Hb.
  apply list_elem_of_In in Hin. specialize (Hb b Hin). unfold byte_ok. lia.
Qed.

#[local] Instance ex_host_laws : HostLaws.
Proof.
  intros path chunks Ho. unfold open_read, ex_host in Ho.
  assert (Hc : chunks = [replicate 1024 7; [1; 2; 3]] \/ chunks = [[120; 118; 54]]).
  { destruct (bool_decide (path = ex_cat)); [left; congruence|].
    destruct (bool_decide (path = ex_readme)); [right; congruence|done]. }
  clear Ho. destruct Hc as [->| ->];
    repeat (apply List.Forall_cons; [apply small_chunk_ok; [rewrite ?length_replicate; cbn [length]; lia|vm_compute; reflexivity]|]);
    apply List.Forall_nil.
Qed.

Lemma ex_paths_ok : Forall path_ok [ex_cat; ex_readme].
Proof.
  apply List.Forall_cons; [|apply List.Forall_cons; [|apply List.Forall_nil]]; split.
  1, 5: eexists; reflexivity.
  1, 4: apply (bool_decide_unpack _); vm_compute; exact I.
  1, 3: repeat (apply List.Forall_cons; [unfold byte_ok; lia|]); apply List.Forall_nil.
  all: vm_compute; congruence.
Qed.

Lemma mkfs_builds_witness :
  exists s, main [[102]; ex_cat; ex_readme] mkfs_init = Ok tt s /\ booted (img s) [ex_cat; ex_readme] /\
    wp xv6fs_fsinit (fun sb' c => sb' = sb /\ idle sb c) (Bio.boot (img s) 1).
Proof.
  apply (mkfs_builds [102] [ex_cat; ex_readme]);
    [reflexivity|reflexivity|apply ex_paths_ok|vm_compute; congruence|vm_compute; congruence|vm_compute; congruence].
Defined.
