(* ===== verification/Vm.v ===== *)
(** * Virtual memory (kernel/vm.c)

    Page tables in memory, as the three-level walk sees them, and the copies
    between kernel and user memory.  Physical memory is kept in two views, the
    page-table entries (by their address) and the bytes; a page is used through
    one of them at a time.  What was never written reads as 0: every page is
    cleared or copied over before it is read. *)

From S2P Require Import Prelude Layout Kalloc UserMem.

Module Vm.

Record vmem : Type := {
  ptes : gmap Z Z;
  bytes : gmap Z Z;
  vkm : Kalloc.kmem;
}.

Definition set_ptes (p : gmap Z Z) (m : vmem) : vmem :=
  {| ptes := p; bytes := bytes m; vkm := vkm m |}.
Definition set_bytes (b : gmap Z Z) (m : vmem) : vmem :=
  {| ptes := ptes m; bytes := b; vkm := vkm m |}.
Definition set_vkm (k : Kalloc.kmem) (m : vmem) : vmem :=
  {| ptes := ptes m; bytes := bytes m; vkm := k |}.

(** [*pte], and the byte at a physical address. *)
Definition pte_at (m : vmem) (a : Z) : Z := default 0 (ptes m !! a).
Definition byte_at (m : vmem) (a : Z) : Z := default 0 (bytes m !! a).

Definition in_page (p a : Z) : bool := (p <=? a) && (a <? p + PGSIZE).

(** [memset(p, 0, PGSIZE)] *)
Definition zero_page (p : Z) (m : vmem) : vmem :=
  set_ptes (filter (fun kv => in_page p kv.1 = false) (ptes m))
    (set_bytes (filter (fun kv => in_page p kv.1 = false) (bytes m)) m).

(** Store and load [n] consecutive bytes. *)
Fixpoint store_bytes (a : Z) (l : list Z) (b : gmap Z Z) : gmap Z Z :=
  match l with
  | [] => b
  | x :: l => store_bytes (a + 1) l (<[a := x]> b)
  end.
Definition load_bytes (m : vmem) (a n : Z) : list Z := map (byte_at m) (seqZ a n).

(** [pte & flag] as a condition. *)
Definition pte_flag (pte flag : Z) : bool := negb (Z.land pte flag =? 0).

Section Vm.
Context (kend : Z).

Definition kalloc : M vmem Z := lift vkm set_vkm Kalloc.kalloc.
Definition kfree (pa : Z) : M vmem unit := lift vkm set_vkm (Kalloc.kfree kend pa).
Definition set_pte (a v : Z) : M vmem unit := modify (fun m => set_ptes (<[a := v]> (ptes m)) m).
Definition clear_page (p : Z) : M vmem unit := modify (zero_page p).

(** The address of entry [PX(level, va)] of the table at [pagetable]. *)
Definition pte_addr (pagetable level va : Z) : Z := pagetable + 8 * PX level va.

(** The levels [level, ..., 1] of the walk; 0 is the null pointer. *)
Fixpoint walk_levels (level : nat) (pagetable va : Z) (alloc : bool) : M vmem Z :=
  match level with
  | O => ret (pte_addr pagetable 0 va)
  | S l =>
      let a := pte_addr pagetable (Z.of_nat level) va in
      pte <- gets (fun m => pte_at m a) ;;
      if pte_flag pte PTE_V then walk_levels l (PTE2PA pte) va alloc
      else if negb alloc then ret 0
      else
        page <- kalloc ;;
        if page =? 0 then ret 0
        else
          clear_page page ;;
          set_pte a (Z.lor (PA2PTE page) PTE_V) ;;
          walk_levels l page va alloc
  end.

Definition walk (pagetable va : Z) (alloc : bool) : M vmem Z :=
  if MAXVA <=? va then panic "walk" else walk_levels 2 pagetable va alloc.

Definition walkaddr (pagetable va : Z) : M vmem Z :=
  if MAXVA <=? va then ret 0
  else
    a <- walk pagetable va false ;;
    if a =? 0 then ret 0
    else
      pte <- gets (fun m => pte_at m a) ;;
      if negb (pte_flag pte PTE_V) then ret 0
      else if negb (pte_flag pte PTE_U) then ret 0
      else ret (PTE2PA pte).

(** One page per round, from [a] to [last].  Where [va + size] wraps around,
    [last] is below [a] and the loop runs off the address space; the fuel ends
    before that, with a stop. *)
Fixpoint mappages_loop (fuel : nat) (pagetable a last pa perm : Z) : M vmem Z :=
  match fuel with
  | O => halt (SFault "mappages: wrapped range")
  | S fuel =>
      pte <- walk pagetable a true ;;
      if pte =? 0 then ret (-1)
      else
        v <- gets (fun m => pte_at m pte) ;;
        if pte_flag v PTE_V then panic "mappages: remap"
        else
          set_pte pte (Z.lor (Z.lor (PA2PTE pa) perm) PTE_V) ;;
          if a =? last then ret 0
          else mappages_loop fuel pagetable (u64 (a + PGSIZE)) last (u64 (pa + PGSIZE)) perm
  end.

Definition mappages (pagetable va size pa perm : Z) : M vmem Z :=
  if size =? 0 then panic "mappages: size"
  else
    let a := PGROUNDDOWN va in
    let last := PGROUNDDOWN (u64 (va + size - 1)) in
    mappages_loop (S (Z.to_nat ((last - a) / PGSIZE))) pagetable a last pa perm.

Definition kvmmap (kpgtbl va pa sz perm : Z) : M vmem unit :=
  r <- mappages kpgtbl va sz pa perm ;;
  if r =? 0 then ret tt else panic "kvmmap".

Fixpoint uvmunmap_loop (n : nat) (pagetable a : Z) (do_free : bool) : M vmem unit :=
  match n with
  | O => ret tt
  | S n =>
      pte <- walk pagetable a false ;;
      if pte =? 0 then panic "uvmunmap: walk"
      else
        v <- gets (fun m => pte_at m pte) ;;
        if negb (pte_flag v PTE_V) then panic "uvmunmap: not mapped"
        else if PTE_FLAGS v =? PTE_V then panic "uvmunmap: not a leaf"
        else
          (if do_free then kfree (PTE2PA v) else ret tt) ;;
          set_pte pte 0 ;;
          uvmunmap_loop n pagetable (a + PGSIZE) do_free
  end.

Definition uvmunmap (pagetable va npages : Z) (do_free : bool) : M vmem unit :=
  if negb (va mod PGSIZE =? 0) then panic "uvmunmap: not aligned"
  else uvmunmap_loop (Z.to_nat npages) pagetable va do_free.

Definition uvmcreate : M vmem Z :=
  pagetable <- kalloc ;;
  if pagetable =? 0 then ret 0
  else
    clear_page pagetable ;;
    ret pagetable.

(** [memset] through a null pointer faults. *)
Definition uvmfirst (pagetable : Z) (src : list Z) : M vmem unit :=
  if PGSIZE <=? Z.of_nat (length src) then panic "uvmfirst: more than a page"
  else
    mem <- kalloc ;;
    if mem =? 0 then halt (SFault "uvmfirst")
    else
      clear_page mem ;;
      mappages pagetable 0 PGSIZE mem (Z.lor (Z.lor (Z.lor PTE_W PTE_R) PTE_X) PTE_U) ;;
      modify (fun m => set_bytes (store_bytes mem src (bytes m)) m).

Definition uvmdealloc (pagetable oldsz newsz : Z) : M vmem Z :=
  if oldsz <=? newsz then ret oldsz
  else
    (if PGROUNDUP newsz <? PGROUNDUP oldsz then
       let npages := s32 ((PGROUNDUP oldsz - PGROUNDUP newsz) / PGSIZE) in
       uvmunmap pagetable (PGROUNDUP newsz) npages true
     else ret tt) ;;
    ret newsz.

Fixpoint uvmalloc_loop (fuel : nat) (pagetable oldsz a newsz xperm : Z) : M vmem Z :=
  match fuel with
  | O => ret newsz
  | S fuel =>
      if a <? newsz then
        mem <- kalloc ;;
        if mem =? 0 then
          uvmdealloc pagetable a oldsz ;;
          ret 0
        else
          clear_page mem ;;
          r <- mappages pagetable a PGSIZE mem (Z.lor (Z.lor PTE_R PTE_U) xperm) ;;
          if negb (r =? 0) then
            kfree mem ;;
            uvmdealloc pagetable a oldsz ;;
            ret 0
          else uvmalloc_loop fuel pagetable oldsz (a + PGSIZE) newsz xperm
      else ret newsz
  end.

Definition uvmalloc (pagetable oldsz newsz xperm : Z) : M vmem Z :=
  if newsz <? oldsz then ret oldsz
  else
    let oldsz := PGROUNDUP oldsz in
    uvmalloc_loop (S (Z.to_nat ((newsz - oldsz) / PGSIZE + 1))) pagetable oldsz oldsz newsz xperm.

(** The entries [i, ..., 511] of the table, with [sub] for the tables below. *)
Fixpoint freewalk_entries (n : nat) (sub : Z -> M vmem unit) (pagetable i : Z) : M vmem unit :=
  match n with
  | O => ret tt
  | S n =>
      pte <- gets (fun m => pte_at m (pagetable + 8 * i)) ;;
      (if pte_flag pte PTE_V && (Z.land pte (Z.lor (Z.lor PTE_R PTE_W) PTE_X) =? 0) then
         sub (PTE2PA pte) ;;
         set_pte (pagetable + 8 * i) 0
       else if pte_flag pte PTE_V then panic "freewalk: leaf"
       else ret tt) ;;
      freewalk_entries n sub pagetable (i + 1)
  end.

(** A table of level 0 has no tables below: a well-formed page table needs
    [depth] 3. *)
Fixpoint freewalk (depth : nat) (pagetable : Z) : M vmem unit :=
  match depth with
  | O => halt (SFault "freewalk")
  | S depth =>
      freewalk_entries 512 (freewalk depth) pagetable 0 ;;
      kfree pagetable
  end.

Definition uvmfree (pagetable sz : Z) : M vmem unit :=
  (if 0 <? sz then uvmunmap pagetable 0 (PGROUNDUP sz / PGSIZE) true else ret tt) ;;
  freewalk 3 pagetable.

(** [memmove(mem, pa, PGSIZE)] *)
Definition copy_page (dst src : Z) : M vmem unit :=
  modify (fun m => set_bytes (store_bytes dst (load_bytes m src PGSIZE) (bytes m)) m).

Fixpoint uvmcopy_loop (fuel : nat) (old new i sz : Z) : M vmem Z :=
  match fuel with
  | O => ret 0
  | S fuel =>
      if i <? sz then
        pte <- walk old i false ;;
        if pte =? 0 then panic "uvmcopy: pte should exist"
        else
          v <- gets (fun m => pte_at m pte) ;;
          if negb (pte_flag v PTE_V) then panic "uvmcopy: page not present"
          else
            mem <- kalloc ;;
            if mem =? 0 then
              uvmunmap new 0 (i / PGSIZE) true ;;
              ret (-1)
            else
              copy_page mem (PTE2PA v) ;;
              r <- mappages new i PGSIZE mem (PTE_FLAGS v) ;;
              if negb (r =? 0) then
                kfree mem ;;
                uvmunmap new 0 (i / PGSIZE) true ;;
                ret (-1)
              else uvmcopy_loop fuel old new (i + PGSIZE) sz
      else ret 0
  end.

Definition uvmcopy (old new sz : Z) : M vmem Z :=
  uvmcopy_loop (S (Z.to_nat (sz / PGSIZE + 1))) old new 0 sz.

Definition uvmclear (pagetable va : Z) : M vmem unit :=
  pte <- walk pagetable va false ;;
  if pte =? 0 then panic "uvmclear"
  else
    v <- gets (fun m => pte_at m pte) ;;
    set_pte pte (Z.land v (u64 (Z.lnot PTE_U))).

(** ** Copies: one page per round *)

Definition copy_fuel (len : Z) : nat := Z.to_nat (len / PGSIZE) + 3.

(** [true] is the result 0. *)
Fixpoint copyout_loop (fuel : nat) (pagetable dstva : Z) (src : list Z) : M vmem bool :=
  match fuel with
  | O => ret true
  | S fuel =>
      let len := Z.of_nat (length src) in
      if 0 <? len then
        let va0 := PGROUNDDOWN dstva in
        pa0 <- walkaddr pagetable va0 ;;
        if pa0 =? 0 then ret false
        else
          let n := Z.min (PGSIZE - (dstva - va0)) len in
          modify (fun m => set_bytes
            (store_bytes (pa0 + (dstva - va0)) (take (Z.to_nat n) src) (bytes m)) m) ;;
          copyout_loop fuel pagetable (u64 (va0 + PGSIZE)) (drop (Z.to_nat n) src)
      else ret true
  end.

Definition copyout (pagetable dstva : Z) (src : list Z) : M vmem bool :=
  copyout_loop (copy_fuel (Z.of_nat (length src))) pagetable dstva src.

(** The bytes copied so far, and whether the result is 0. *)
Fixpoint copyin_loop (fuel : nat) (pagetable srcva len : Z) : M vmem (list Z * bool) :=
  match fuel with
  | O => ret ([], true)
  | S fuel =>
      if 0 <? len then
        let va0 := PGROUNDDOWN srcva in
        pa0 <- walkaddr pagetable va0 ;;
        if pa0 =? 0 then ret ([], false)
        else
          let n := Z.min (PGSIZE - (srcva - va0)) len in
          l <- gets (fun m => load_bytes m (pa0 + (srcva - va0)) n) ;;
          ' (l', ok) <- copyin_loop fuel pagetable (u64 (va0 + PGSIZE)) (len - n) ;;
          ret (l ++ l', ok)
      else ret ([], true)
  end.

Definition copyin (pagetable srcva len : Z) : M vmem (list Z * bool) :=
  copyin_loop (copy_fuel len) pagetable srcva len.

(** The characters of [l] up to a nul, and whether there was one. *)
Fixpoint until_nul (l : list Z) : list Z * bool :=
  match l with
  | [] => ([], false)
  | c :: l => if c =? 0 then ([], true) else let '(s, b) := until_nul l in (c :: s, b)
  end.

(** The string, or [None] for the result -1. *)
Fixpoint copyinstr_loop (fuel : nat) (pagetable srcva max : Z) : M vmem (option (list Z)) :=
  match fuel with
  | O => ret None
  | S fuel =>
      if 0 <? max then
        let va0 := PGROUNDDOWN srcva in
        pa0 <- walkaddr pagetable va0 ;;
        if pa0 =? 0 then ret None
        else
          let n := Z.min (PGSIZE - (srcva - va0)) max in
          l <- gets (fun m => load_bytes m (pa0 + (srcva - va0)) n) ;;
          let '(s, got_null) := until_nul l in
          if got_null : bool then ret (Some s)
          else
            o <- copyinstr_loop fuel pagetable (u64 (va0 + PGSIZE)) (max - n) ;;
            ret (option_map (app s) o)
      else ret None
  end.

Definition copyinstr (pagetable srcva max : Z) : M vmem (option (list Z)) :=
  copyinstr_loop (copy_fuel max) pagetable srcva max.

(** ** The kernel's page table *)

(** [proc_mapstacks] of kernel/proc.c: a page for each process's kernel stack. *)
Fixpoint proc_mapstacks (n : nat) (p : Z) (kpgtbl : Z) : M vmem unit :=
  match n with
  | O => ret tt
  | S n =>
      pa <- kalloc ;;
      if pa =? 0 then panic "kalloc"
      else
        kvmmap kpgtbl (KSTACK p) pa PGSIZE (Z.lor PTE_R PTE_W) ;;
        proc_mapstacks n (p + 1) kpgtbl
  end.

(** [etext] and [trampoline] are set by the linker. *)
Definition kvmmake (etext trampoline : Z) : M vmem Z :=
  kpgtbl <- kalloc ;;
  if kpgtbl =? 0 then halt (SFault "kvmmake")
  else
    clear_page kpgtbl ;;
    kvmmap kpgtbl UART0 UART0 PGSIZE (Z.lor PTE_R PTE_W) ;;
    kvmmap kpgtbl VIRTIO0 VIRTIO0 PGSIZE (Z.lor PTE_R PTE_W) ;;
    kvmmap kpgtbl PLIC PLIC 0x400000 (Z.lor PTE_R PTE_W) ;;
    kvmmap kpgtbl KERNBASE KERNBASE (etext - KERNBASE) (Z.lor PTE_R PTE_X) ;;
    kvmmap kpgtbl etext etext (PHYSTOP - etext) (Z.lor PTE_R PTE_W) ;;
    kvmmap kpgtbl TRAMPOLINE trampoline PGSIZE (Z.lor PTE_R PTE_X) ;;
    proc_mapstacks NPROC 0 kpgtbl ;;
    ret kpgtbl.

End Vm.

(** ** Translation *)

(** What the processor does with a user address in Sv39, by the privileged
    architecture and not by the code: three tables indexed by 9 bits of the
    address each, bit 0 of an entry for valid, bit 4 for accessible in user
    mode, the page number from bit 10 on. *)
Definition vpn (level va : Z) : Z := va / 2 ^ (12 + 9 * level) mod 2 ^ 9.
Definition sv39_page (e : Z) : Z := e / 2 ^ 10 * 2 ^ 12 mod 2 ^ 64.
Definition sv39_next (m : vmem) (t level va : Z) : option Z :=
  let e := pte_at m (t + 8 * vpn level va) in
  if Z.testbit e 0 then Some (sv39_page e) else None.

(** The physical page behind the page of [va] for user code, 0 if there is none.
    The kernel uses half of the address space, and keeps no entry at the null
    address. *)
Definition xlate (m : vmem) (pt va : Z) : Z :=
  if MAXVA <=? va then 0
  else
    match sv39_next m pt 2 va ≫= fun t => sv39_next m t 1 va with
    | None => 0
    | Some t =>
        let a := t + 8 * vpn 0 va in
        let e := pte_at m a in
        if negb (a =? 0) && Z.testbit e 0 && Z.testbit e 4 then sv39_page e else 0
    end.

Lemma PX_vpn level va : 0 <= level -> PX level va = vpn level va.
Proof.
  intros Hl. unfold PX, PXSHIFT, PGSHIFT, PXMASK, vpn. change 0x1FF with (Z.ones 9).
  by rewrite Z.land_ones, Z.shiftr_div_pow2 by lia.
Qed.

Lemma PTE2PA_page e : PTE2PA e = sv39_page e.
Proof. unfold PTE2PA, sv39_page, u64. by rewrite Z.shiftl_mul_pow2, Z.shiftr_div_pow2 by lia. Qed.

Lemma pte_flag_bit e n : 0 <= n -> pte_flag e (2 ^ n) = Z.testbit e n.
Proof.
  intros Hn. unfold pte_flag. destruct (Z.testbit e n) eqn:E.
  - apply negb_true_iff, Z.eqb_neq. intros H. apply (f_equal (fun z => Z.testbit z n)) in H.
    by rewrite Z.land_spec, E, Z.pow2_bits_true, Z.bits_0 in H.
  - apply negb_false_iff, Z.eqb_eq, Z.bits_inj'. intros i Hi. rewrite Z.land_spec, Z.bits_0, Z.pow2_bits_eqb by done.
    destruct (Z.eqb_spec n i) as [<-|]; [by rewrite E|apply andb_false_r].
Qed.

Lemma walk_levels_xlate pt va m :
  walk_levels 2 pt va false m =
  Ok (match sv39_next m pt 2 va ≫= fun t => sv39_next m t 1 va with None => 0 | Some t => t + 8 * vpn 0 va end) m.
Proof.
  cbn [walk_levels]. unfold bind, gets, pte_addr, sv39_next.
  rewrite !PX_vpn, (pte_flag_bit _ 0) by done. change (Z.of_nat 2) with 2. change (Z.of_nat 1) with 1.
  destruct (Z.testbit _ 0); [|done]. cbn [mbind option_bind]. rewrite PTE2PA_page, (pte_flag_bit _ 0) by done.
  destruct (Z.testbit _ 0); [|done]. by rewrite PTE2PA_page.
Qed.

(** [walkaddr] finds what the processor would. *)
Lemma walkaddr_xlate pt va m : walkaddr pt va m = Ok (xlate m pt va) m.
Proof.
  unfold walkaddr, walk, xlate. destruct (MAXVA <=? va); [done|]. unfold bind at 1. rewrite walk_levels_xlate.
  destruct (sv39_next m pt 2 va ≫= _) as [t|]; [|done]. cbv zeta. destruct (_ =? 0); [done|].
  unfold bind, gets. rewrite (pte_flag_bit _ 0), (pte_flag_bit _ 4), PTE2PA_page by done.
  by repeat destruct (Z.testbit _ _).
Qed.

Lemma xlate_ptes m m' pt va : ptes m' = ptes m -> xlate m' pt va = xlate m pt va.
Proof. intros E. unfold xlate, sv39_next, pte_at. by rewrite E. Qed.

Lemma xlate_aligned m pt va : xlate m pt va mod PGSIZE = 0 /\ 0 <= xlate m pt va.
Proof.
  unfold xlate. destruct (MAXVA <=? va); [done|]. destruct (_ ≫= _); [|done]. cbv zeta. destruct (_ && _); [|done].
  unfold sv39_page. change (2 ^ 12) with PGSIZE. change (2 ^ 64) with (2 ^ 52 * PGSIZE).
  rewrite Z.mul_mod_distr_r by done. split; [by apply Z.mod_mul|]. apply Z.mul_nonneg_nonneg; [|done]. by apply Z.mod_pos_bound.
Qed.

Lemma xlate_high m pt va : MAXVA <= va -> xlate m pt va = 0.
Proof. intros H. unfold xlate. by rewrite (proj2 (Z.leb_le _ _)). Qed.

(** ** The user's view of memory *)

(** A process's memory: the machine and its page table. *)
Record uvm : Type := { u_mem : vmem; u_pt : Z }.

Definition page_of (a : Z) : Z := a - a mod PGSIZE.

(** The byte at user address [a], if the page is mapped for user access. *)
Definition ubyte (u : uvm) (a : Z) : option Z :=
  if decide (0 <= a < MAXVA) then
    let pa := xlate (u_mem u) (u_pt u) (page_of a) in
    if pa =? 0 then None else Some (byte_at (u_mem u) (pa + a mod PGSIZE))
  else None.

(** Bytes are bytes, and no two user pages share a physical page. *)
Record uinv (u : uvm) : Prop := {
  ui_byte : map_Forall (fun _ v => byte_ok v) (bytes (u_mem u));
  ui_inj : forall p q, 0 <= p -> p mod PGSIZE = 0 -> 0 <= q -> q mod PGSIZE = 0 ->
    xlate (u_mem u) (u_pt u) p <> 0 ->
    xlate (u_mem u) (u_pt u) p = xlate (u_mem u) (u_pt u) q -> p = q;
}.

Definition run_copyout (va : Z) (src : list Z) (u : uvm) : uvm * bool :=
  match copyout (u_pt u) va src (u_mem u) with
  | Ok ok m => ({| u_mem := m; u_pt := u_pt u |}, ok)
  | Stop _ => (u, false)
  end.
Definition run_copyin (va len : Z) (u : uvm) : list Z * bool :=
  match copyin (u_pt u) va len (u_mem u) with
  | Ok r _ => r
  | Stop _ => ([], false)
  end.
Definition run_copyinstr (va max : Z) (u : uvm) : option (list Z) :=
  match copyinstr (u_pt u) va max (u_mem u) with
  | Ok r _ => r
  | Stop _ => None
  end.

#[global] Instance vm_user : UserMem uvm := {|
  UserMem.copyout := run_copyout;
  UserMem.copyin := run_copyin;
  UserMem.copyinstr := run_copyinstr;
|}.

Lemma PGSIZE_pos : 0 < PGSIZE.
Proof. done. Qed.

Lemma MAXVA_val : MAXVA = 2 ^ 38.
Proof. done. Qed.

Lemma page_of_aligned a : page_of a mod PGSIZE = 0.
Proof.
  unfold page_of. pose proof (Z.div_mod a PGSIZE ltac:(done)).
  replace (a - a mod PGSIZE) with (a / PGSIZE * PGSIZE) by lia. by apply Z.mod_mul.
Qed.

(** Addresses of the page of [a]. *)
Lemma page_of_same a x :
  page_of a <= x < page_of a + PGSIZE -> page_of x = page_of a /\ x mod PGSIZE = x - page_of a.
Proof.
  unfold page_of. intros Hx. pose proof (Z.div_mod a PGSIZE ltac:(done)).
  assert (Hm : x mod PGSIZE = x - (a - a mod PGSIZE)).
  { symmetry. apply (Z.mod_unique _ _ (a / PGSIZE)); lia. }
  lia.
Qed.

Lemma page_of_other a x :
  ~ (page_of a <= x < page_of a + PGSIZE) -> page_of x <> page_of a.
Proof.
  intros Hx E. apply Hx. rewrite <-E. unfold page_of. pose proof (Z.mod_pos_bound x PGSIZE PGSIZE_pos). lia.
Qed.

Lemma store_bytes_lookup a l b x :
  store_bytes a l b !! x =
  if decide (a <= x < a + Z.of_nat (length l)) then l !! Z.to_nat (x - a) else b !! x.
Proof.
  revert a b. induction l as [|v l IH]; intros a b; cbn [store_bytes].
  - cbn. by rewrite decide_False by lia.
  - rewrite IH. cbn [length]. destruct (decide (x = a)) as [->|Hne].
    + rewrite decide_False, decide_True by lia. rewrite lookup_insert_eq, Z.sub_diag. done.
    + rewrite lookup_insert_ne by done.
      destruct (decide (a + 1 <= x < a + 1 + Z.of_nat (length l))),
        (decide (a <= x < a + Z.of_nat (S (length l)))); try lia; [|done].
      replace (Z.to_nat (x - a)) with (S (Z.to_nat (x - (a + 1)))) by lia. done.
Qed.

Lemma store_bytes_ok a l b :
  Forall byte_ok l -> map_Forall (fun _ v => byte_ok v) b ->
  map_Forall (fun _ v => byte_ok v) (store_bytes a l b).
Proof.
  intros Hl Hb x v. rewrite store_bytes_lookup. destruct (decide _).
  - intros Hx. by eapply Forall_lookup_1.
  - apply Hb.
Qed.

Lemma page_round a : 0 <= a < MAXVA -> PGROUNDDOWN a = page_of a.
Proof. intros Ha. rewrite MAXVA_val in Ha. apply PGROUNDDOWN_spec. lia. Qed.

Lemma load_bytes_lookup m a n i :
  (i < Z.to_nat n)%nat -> load_bytes m a n !! i = Some (byte_at m (a + Z.of_nat i)).
Proof.
  intros Hi. unfold load_bytes. change (map (byte_at m) (seqZ a n)) with (byte_at m <$> seqZ a n).
  rewrite list_lookup_fmap, lookup_seqZ_lt by lia. done.
Qed.

Lemma load_bytes_length m a n : length (load_bytes m a n) = Z.to_nat n.
Proof. unfold load_bytes. by rewrite length_map, length_seqZ. Qed.

Lemma page_bound a : 0 <= a < MAXVA -> 0 <= page_of a /\ page_of a + PGSIZE <= MAXVA.
Proof.
  intros Ha. unfold page_of. pose proof (Z.mod_pos_bound a PGSIZE PGSIZE_pos).
  pose proof (Z.div_mod a PGSIZE ltac:(done)). rewrite MAXVA_val in *. unfold PGSIZE in *. lia.
Qed.

(** A page is mapped as a whole. *)
Lemma ubyte_page u a x :
  0 <= a < MAXVA -> page_of a <= x < page_of a + PGSIZE ->
  xlate (u_mem u) (u_pt u) (page_of a) <> 0 ->
  ubyte u x = Some (byte_at (u_mem u) (xlate (u_mem u) (u_pt u) (page_of a) + (x - page_of a))).
Proof.
  intros Ha Hx Hp. destruct (page_bound a Ha). unfold ubyte. rewrite decide_True by lia.
  destruct (page_of_same a x Hx) as [-> ->]. by rewrite (proj2 (Z.eqb_neq _ 0)).
Qed.

Lemma ubyte_some_xlate u a :
  is_Some (ubyte u a) -> 0 <= a < MAXVA /\ xlate (u_mem u) (u_pt u) (page_of a) <> 0.
Proof.
  unfold ubyte. destruct (decide (0 <= a < MAXVA)); [|by intros [? ?]].
  destruct (Z.eqb_spec (xlate (u_mem u) (u_pt u) (page_of a)) 0); [by intros [? ?]|done].
Qed.

Definition with_bytes (u : uvm) (b : gmap Z Z) : uvm :=
  {| u_mem := set_bytes b (u_mem u); u_pt := u_pt u |}.

Lemma xlate_with_bytes u b va :
  xlate (u_mem (with_bytes u b)) (u_pt u) va = xlate (u_mem u) (u_pt u) va.
Proof. by apply xlate_ptes. Qed.

(** Storing within one user page. *)
Lemma store_page u a l :
  uinv u -> 0 <= a < MAXVA -> xlate (u_mem u) (u_pt u) (page_of a) <> 0 ->
  Forall byte_ok l -> Z.of_nat (length l) <= PGSIZE - a mod PGSIZE ->
  let u' := with_bytes u
    (store_bytes (xlate (u_mem u) (u_pt u) (page_of a) + a mod PGSIZE) l (bytes (u_mem u))) in
  uinv u' /\
  forall x, ubyte u' x =
    if decide (a <= x < a + Z.of_nat (length l)) then l !! Z.to_nat (x - a) else ubyte u x.
Proof.
  intros [Hb Hi] Ha Hp Hl Hn u'. set (pa := xlate _ _ _) in *.
  assert (Hx : forall va, xlate (u_mem u') (u_pt u) va = xlate (u_mem u) (u_pt u) va)
    by (intros; apply xlate_with_bytes).
  split.
  { split; [by apply store_bytes_ok|]. intros p q. cbn [u_pt u' with_bytes]. rewrite !Hx. apply Hi. }
  intros x. pose proof (Z.mod_pos_bound a PGSIZE PGSIZE_pos). unfold ubyte. cbv zeta. cbn [u_pt u' with_bytes].
  fold u'. rewrite Hx.
  assert (Hin : a <= x < a + Z.of_nat (length l) -> page_of a <= x < page_of a + PGSIZE)
    by (unfold page_of; lia).
  destruct (page_bound a Ha). destruct (decide (0 <= x < MAXVA)).
  2:{ rewrite decide_False by lia. done. }
  destruct (Z.eqb_spec (xlate (u_mem u) (u_pt u) (page_of x)) 0) as [Hz|Hz].
  { rewrite decide_False; [done|]. intros Hr. destruct (page_of_same a x (Hin Hr)) as [E _].
    rewrite E in Hz. done. }
  unfold byte_at, u'. cbn [u_mem with_bytes set_bytes bytes]. rewrite store_bytes_lookup.
  destruct (decide (page_of a <= x < page_of a + PGSIZE)) as [Hr|Hr].
  - destruct (page_of_same a x Hr) as [E Em]. rewrite E, Em. fold pa.
    assert (Eo : x - page_of a - a mod PGSIZE = x - a) by (unfold page_of; lia).
    destruct (decide (a <= x < a + Z.of_nat (length l))).
    + rewrite decide_True by lia. replace (pa + (x - page_of a) - (pa + a mod PGSIZE)) with (x - a) by lia.
      destruct (lookup_lt_is_Some_2 l (Z.to_nat (x - a))) as [v ->]; [lia|done].
    + by rewrite decide_False by lia.
  - destruct (decide (a <= x < a + Z.of_nat (length l))) as [Hc|_]; [by apply Hin in Hc|].
    rewrite decide_False; [done|].
    pose proof (page_of_other a x Hr) as Hne. pose proof (Z.mod_pos_bound x PGSIZE PGSIZE_pos).
    assert (xlate (u_mem u) (u_pt u) (page_of x) <> pa).
    { intros E. apply Hne. destruct (page_bound x); [done|].
      apply Hi; [done|apply page_of_aligned|done|apply page_of_aligned|done|done]. }
    destruct (xlate_aligned (u_mem u) (u_pt u) (page_of x)) as [A1 _].
    destruct (xlate_aligned (u_mem u) (u_pt u) (page_of a)) as [A2 _]. fold pa in A2.
    apply Z.mod_divide in A1 as [z1 E1]; [|done]. apply Z.mod_divide in A2 as [z2 E2]; [|done].
    rewrite E1, E2 in *. unfold PGSIZE in *. lia.
Qed.

Lemma page_of_high a : MAXVA <= a -> MAXVA <= page_of a.
Proof.
  intros Ha. unfold page_of. pose proof (Z.mod_pos_bound a PGSIZE PGSIZE_pos).
  pose proof (Z.div_mod a PGSIZE ltac:(done)). rewrite MAXVA_val in *. unfold PGSIZE in *. lia.
Qed.

(** The first page of a range: unmapped, or inside user memory. *)
Lemma first_page u va :
  0 <= va < 2 ^ 64 ->
  PGROUNDDOWN va = page_of va /\
  (xlate (u_mem u) (u_pt u) (page_of va) <> 0 -> 0 <= va < MAXVA).
Proof.
  intros Hva. split; [by apply PGROUNDDOWN_spec|]. intros Hx.
  destruct (decide (va < MAXVA)); [lia|]. rewrite xlate_high in Hx; [done|]. apply page_of_high. lia.
Qed.

Definition uaccess (u : uvm) (va n : Z) : Prop := range_all (fun a => is_Some (ubyte u a)) va n.

(** Splitting a range at the end of the first page. *)
Lemma uaccess_split u va n len :
  0 <= va < MAXVA -> xlate (u_mem u) (u_pt u) (page_of va) <> 0 ->
  n = Z.min (PGSIZE - va mod PGSIZE) len -> 0 < len ->
  uaccess u va len <-> uaccess u (page_of va + PGSIZE) (len - n).
Proof.
  intros Ha Hx -> Hl. pose proof (Z.mod_pos_bound va PGSIZE PGSIZE_pos).
  split; intros Hr a Hin.
  - apply Hr. unfold page_of in *. lia.
  - destruct (decide (a < page_of va + PGSIZE)).
    + rewrite (ubyte_page u va a Ha); [eauto| |done]. unfold page_of in *. lia.
    + apply Hr. unfold page_of in *. lia.
Qed.

Lemma uaccess_first u va len : uaccess u va len -> 0 < len -> xlate (u_mem u) (u_pt u) (page_of va) <> 0.
Proof. intros Hr Hl. destruct (ubyte_some_xlate u va (Hr va ltac:(lia))) as [_ ?]. done. Qed.

Definition copyout_post (u : uvm) (va : Z) (src : list Z) (ok : bool) (u' : uvm) : Prop :=
  uinv u' /\ u_pt u' = u_pt u /\ ptes (u_mem u') = ptes (u_mem u) /\
  (uaccess u va (Z.of_nat (length src)) -> ok = true /\
   forall a, ubyte u' a =
     if decide (va <= a < va + Z.of_nat (length src)) then src !! Z.to_nat (a - va) else ubyte u a) /\
  (~ uaccess u va (Z.of_nat (length src)) -> ok = false).

Lemma copyout_nil u va : uinv u -> copyout_post u va [] true u.
Proof.
  intros Hu. split_and!; try done.
  - intros _. split; [done|]. intros a. by rewrite decide_False by (cbn; lia).
  - intros Hn. destruct Hn. intros a Ha. cbn in Ha. lia.
Qed.

(** The first page was written, [u1], and then the rest. *)
Lemma copyout_post_step u u1 u' va src n ok :
  0 <= va < MAXVA -> xlate (u_mem u) (u_pt u) (page_of va) <> 0 ->
  n = Z.min (PGSIZE - va mod PGSIZE) (Z.of_nat (length src)) -> src <> [] ->
  u_pt u1 = u_pt u -> ptes (u_mem u1) = ptes (u_mem u) ->
  (forall x, ubyte u1 x = if decide (va <= x < va + n) then src !! Z.to_nat (x - va) else ubyte u x) ->
  copyout_post u1 (page_of va + PGSIZE) (drop (Z.to_nat n) src) ok u' ->
  copyout_post u va src ok u'.
Proof.
  intros Hva Hx En Hne Hpt Hptes Hb (Hu' & Hpt' & Hptes' & Hok & Hfail).
  pose proof (Z.mod_pos_bound va PGSIZE PGSIZE_pos).
  assert (Hl : 0 < Z.of_nat (length src)) by (destruct src; [done|cbn [length]; lia]).
  assert (Hdrop : Z.of_nat (length (drop (Z.to_nat n) src)) = Z.of_nat (length src) - n)
    by (rewrite length_drop; lia).
  assert (Heq : forall a k, uaccess u1 a k <-> uaccess u a k).
  { intros a k. unfold uaccess, range_all.
    assert (Hs : forall x, is_Some (ubyte u1 x) <-> is_Some (ubyte u x)).
    { intros x. rewrite Hb. destruct (decide _); [|done].
      rewrite (ubyte_page u va x Hva); [|unfold page_of; lia|done].
      split; [eauto|]. intros _. apply lookup_lt_is_Some_2. lia. }
    by setoid_rewrite Hs. }
  rewrite Hdrop, !Heq in Hok, Hfail.
  rewrite <-(uaccess_split u va n (Z.of_nat (length src)) Hva Hx En Hl) in Hok, Hfail.
  split_and!; try congruence; [|done]. intros Ha. destruct (Hok Ha) as [-> Hb']. split; [done|].
  intros a. rewrite Hb', Hb. unfold page_of.
  destruct (decide (va <= a < va + n)) as [H1|H1].
  - rewrite decide_False, decide_True by lia. done.
  - destruct (decide (va - va mod PGSIZE + PGSIZE <= a < va - va mod PGSIZE + PGSIZE + (Z.of_nat (length src) - n))).
    + rewrite decide_True by lia. rewrite lookup_drop. f_equal. lia.
    + by rewrite decide_False by lia.
Qed.

Lemma next_page_mod va : (page_of va + PGSIZE) mod PGSIZE = 0.
Proof.
  replace (page_of va + PGSIZE) with (page_of va + 1 * PGSIZE) by lia.
  rewrite Z.mod_add by done. apply page_of_aligned.
Qed.

Lemma copyout_loop_spec fuel u va src :
  uinv u -> 0 <= va < 2 ^ 64 -> Forall byte_ok src ->
  src = [] \/ va mod PGSIZE + Z.of_nat (length src) <= Z.of_nat fuel * PGSIZE ->
  exists ok m', copyout_loop fuel (u_pt u) va src (u_mem u) = Ok ok m' /\
    copyout_post u va src ok {| u_mem := m'; u_pt := u_pt u |}.
Proof.
  revert u va src. induction fuel as [|fuel IH]; intros u va src Hu Hva Hsrc Hf;
    pose proof (Z.mod_pos_bound va PGSIZE PGSIZE_pos) as Hmod;
    (destruct (decide (src = [])) as [->|Hne];
      [exists true, (u_mem u); split; [done|]; destruct u; by apply copyout_nil|]);
    assert (Hl : 0 < Z.of_nat (length src)) by (destruct src; [done|cbn [length]; lia]).
  { destruct Hf as [|Hf]; [done|]. lia. }
  cbn [copyout_loop]. rewrite (proj2 (Z.ltb_lt _ _) Hl).
  destruct (first_page u va Hva) as [Ep Hlow]. rewrite Ep.
  unfold bind at 1. rewrite walkaddr_xlate.
  destruct (Z.eqb_spec (xlate (u_mem u) (u_pt u) (page_of va)) 0) as [Hz|Hz].
  { exists false, (u_mem u). split; [done|]. destruct u. split_and!; try done.
    intros Ha. by apply uaccess_first in Ha. }
  specialize (Hlow Hz). replace (va - page_of va) with (va mod PGSIZE) by (unfold page_of; lia).
  set (n := Z.min (PGSIZE - va mod PGSIZE) (Z.of_nat (length src))).
  assert (Ht : Z.of_nat (length (take (Z.to_nat n) src)) = n) by (rewrite length_take; lia).
  destruct (store_page u va (take (Z.to_nat n) src) Hu Hlow Hz) as [Hu1 Hb1];
    [by apply Forall_take|lia|].
  set (u1 := with_bytes _ _) in *. rewrite Ht in Hb1.
  destruct (page_bound va Hlow) as [Hp0 Hp1]. pose proof MAXVA_val.
  destruct (IH u1 (page_of va + PGSIZE) (drop (Z.to_nat n) src)) as (ok & m' & Hrun & Hpost);
    [done|unfold PGSIZE in *; lia|by apply Forall_drop| |].
  { destruct Hf as [->|Hf]; [done|]. rewrite length_drop, next_page_mod.
    destruct (decide (n = Z.of_nat (length src))); [left; apply drop_ge; lia|right; lia]. }
  exists ok, m'. split.
  { unfold bind, modify. rewrite u64_small by (unfold PGSIZE in *; lia). exact Hrun. }
  apply (copyout_post_step u u1 _ va src n ok); [done|done|done|done|done|done| |exact Hpost].
  intros x. rewrite Hb1.
  destruct (decide _); [|done]. by rewrite lookup_take_lt by lia.
Qed.

Lemma copyin_loop_spec fuel u va len :
  0 <= va < 2 ^ 64 -> 0 <= len ->
  len = 0 \/ va mod PGSIZE + len <= Z.of_nat fuel * PGSIZE ->
  exists l ok, copyin_loop fuel (u_pt u) va len (u_mem u) = Ok (l, ok) (u_mem u) /\
    (uaccess u va len -> ok = true /\ length l = Z.to_nat len /\
       forall i, (i < Z.to_nat len)%nat -> l !! i = ubyte u (va + Z.of_nat i)) /\
    (~ uaccess u va len -> ok = false).
Proof.
  revert va len. induction fuel as [|fuel IH]; intros va len Hva Hlen Hf;
    pose proof (Z.mod_pos_bound va PGSIZE PGSIZE_pos) as Hmod;
    (destruct (decide (len = 0)) as [->|Hne];
      [exists [], true; split_and!; [done|intros _; split_and!; [done|done|cbn; lia]|]; intros Hn;
       destruct Hn; intros a Ha; lia|]).
  { lia. }
  cbn [copyin_loop]. rewrite (proj2 (Z.ltb_lt 0 len)) by lia.
  destruct (first_page u va Hva) as [Ep Hlow]. rewrite Ep.
  unfold bind at 1. rewrite walkaddr_xlate.
  destruct (Z.eqb_spec (xlate (u_mem u) (u_pt u) (page_of va)) 0) as [Hz|Hz].
  { exists [], false. split_and!; try done. intros Ha. apply uaccess_first in Ha; [done|lia]. }
  specialize (Hlow Hz). replace (va - page_of va) with (va mod PGSIZE) by (unfold page_of; lia).
  set (n := Z.min (PGSIZE - va mod PGSIZE) len).
  destruct (page_bound va Hlow) as [Hp0 Hp1]. pose proof MAXVA_val.
  destruct (IH (page_of va + PGSIZE) (len - n)) as (l & ok & Hrun & Hok & Hfail);
    [unfold PGSIZE in *; lia|lia|rewrite next_page_mod; lia|].
  set (l0 := load_bytes (u_mem u) (xlate (u_mem u) (u_pt u) (page_of va) + va mod PGSIZE) n).
  exists (l0 ++ l), ok. split.
  { unfold bind, gets. rewrite u64_small by (unfold PGSIZE in *; lia). rewrite Hrun. done. }
  rewrite (uaccess_split u va n len Hlow Hz) by (done || lia).
  split; [|done]. intros Ha. destruct (Hok Ha) as (-> & Hl & Hi). split_and!; [done| |].
  - rewrite length_app, Hl. unfold l0. rewrite load_bytes_length. lia.
  - intros i Hlt. destruct (decide (i < Z.to_nat n)%nat) as [H1|H1].
    + rewrite lookup_app_l by (unfold l0; rewrite load_bytes_length; done).
      unfold l0. rewrite load_bytes_lookup by done.
      rewrite (ubyte_page u va (va + Z.of_nat i) Hlow); [|unfold page_of; lia|done].
      do 2 f_equal. unfold page_of. lia.
    + rewrite lookup_app_r by (unfold l0; rewrite load_bytes_length; lia).
      unfold l0. rewrite load_bytes_length, Hi by lia. f_equal. unfold page_of. lia.
Qed.

Lemma copy_fuel_enough va len : 0 <= len -> va mod PGSIZE + len <= Z.of_nat (copy_fuel len) * PGSIZE.
Proof.
  intros Hn. unfold copy_fuel. pose proof (Z.mod_pos_bound va PGSIZE PGSIZE_pos).
  pose proof (Z.div_mod len PGSIZE ltac:(done)). pose proof (Z.mod_pos_bound len PGSIZE PGSIZE_pos).
  assert (0 <= len / PGSIZE) by (apply Z.div_pos; lia). unfold PGSIZE in *. lia.
Qed.

Lemma run_copyout_spec u va src :
  uinv u -> 0 <= va < 2 ^ 64 -> Forall byte_ok src ->
  copyout_post u va src (run_copyout va src u).2 (run_copyout va src u).1.
Proof.
  intros Hu Hva Hs. unfold run_copyout, copyout.
  destruct (copyout_loop_spec (copy_fuel (Z.of_nat (length src))) u va src) as (ok & m' & -> & Hp);
    [done|done|done|right; apply copy_fuel_enough; lia|done].
Qed.

Lemma run_copyout_unmapped u va src :
  0 <= va < 2 ^ 64 -> src <> [] -> ubyte u va = None -> run_copyout va src u = (u, false).
Proof.
  intros Hva Hne Hn. unfold run_copyout, copyout.
  assert (Hl : 0 < Z.of_nat (length src)) by (destruct src; [done|cbn [length]; lia]).
  pose proof (copy_fuel_enough va (Z.of_nat (length src)) ltac:(lia)) as Hf.
  pose proof (Z.mod_pos_bound va PGSIZE PGSIZE_pos). destruct (copy_fuel _) as [|fuel]; [lia|].
  cbn [copyout_loop]. rewrite (proj2 (Z.ltb_lt _ _) Hl).
  destruct (first_page u va Hva) as [Ep Hlow]. rewrite Ep. unfold bind at 1. rewrite walkaddr_xlate.
  destruct (Z.eqb_spec (xlate (u_mem u) (u_pt u) (page_of va)) 0) as [Hz|Hz]; [by destruct u|].
  rewrite (ubyte_page u va va (Hlow Hz)) in Hn; [done| |done].
  pose proof (Z.mod_pos_bound va PGSIZE PGSIZE_pos). unfold page_of. lia.
Qed.

(** [vm.c] keeps the promises the file system relies on. *)
#[global] Instance vm_laws : UserMemLaws uvm.
Proof.
  refine {| um_inv := uinv; um_byte := ubyte |}.
  - intros u a v [Hb _] Ha. destruct (ubyte_some_xlate u a) as [Hr _]; [by rewrite Ha|].
    split; [|rewrite MAXVA_val in Hr; lia].
    unfold ubyte in Ha. rewrite decide_True in Ha by done. destruct (_ =? 0); [done|].
    injection Ha as <-. unfold byte_at. destruct (bytes (u_mem u) !! _) eqn:E; [by eapply Hb|].
    cbn. unfold byte_ok. lia.
  - intros u va src Hu Hva Hs. apply (run_copyout_spec u va src Hu Hva Hs).
  - intros u va src Hu Hva Hs Ha. destruct (run_copyout_spec u va src Hu Hva Hs) as (_ & _ & _ & Hok & _).
    by apply Hok.
  - intros u va src Hu Hva Hs Hn. destruct (run_copyout_spec u va src Hu Hva Hs) as (_ & _ & _ & _ & Hf).
    by apply Hf.
  - apply run_copyout_unmapped.
  - intros u va len Hu Hva Hl Ha. unfold UserMem.copyin, vm_user, run_copyin, copyin.
    destruct (copyin_loop_spec (copy_fuel len) u va len) as (l & ok & -> & Hok & _);
      [done|done|right; by apply copy_fuel_enough|]. by apply Hok.
  - intros u va len Hu Hva Hl Ha. unfold UserMem.copyin, vm_user, run_copyin, copyin.
    destruct (copyin_loop_spec (copy_fuel len) u va len) as (l & ok & -> & _ & Hf);
      [done|done|right; by apply copy_fuel_enough|]. by apply Hf.
Defined.

(** Claim C35: copying bytes out to a user range and reading the range back
    gives the same bytes; the copy succeeds exactly when every page of the range
    is mapped for user access, as the processor translates addresses ([xlate]),
    and changes no other user byte and no page table. *)
Theorem copyout_copyin (u : uvm) (va : Z) (src : list Z) :
  uinv u -> 0 <= va < 2 ^ 64 -> Forall byte_ok src ->
  exists ok m', copyout (u_pt u) va src (u_mem u) = Ok ok m' /\
    let u' := {| u_mem := m'; u_pt := u_pt u |} in
    uinv u' /\ ptes m' = ptes (u_mem u) /\
    (ok = false <-> ~ uaccess u va (Z.of_nat (length src))) /\
    (uaccess u va (Z.of_nat (length src)) ->
       copyin (u_pt u) va (Z.of_nat (length src)) m' = Ok (src, true) m' /\
       forall a, ~ (va <= a < va + Z.of_nat (length src)) -> ubyte u' a = ubyte u a).
Proof.
  intros Hu Hva Hs. set (len := Z.of_nat (length src)).
  destruct (copyout_loop_spec (copy_fuel len) u va src) as (ok & m' & Hrun & Hu' & _ & Hpt & Hok & Hf);
    [done|done|done|right; apply copy_fuel_enough; lia|].
  exists ok, m'. fold len in Hok, Hf. split; [done|]. cbv zeta. split_and!; [done|done| |].
  - split; [|by apply Hf]. intros -> Ha. by destruct (Hok Ha) as [? _].
  - intros Ha. destruct (Hok Ha) as [-> Hb].
    split; [|intros a Hn; rewrite Hb; by rewrite decide_False].
    destruct (copyin_loop_spec (copy_fuel len) {| u_mem := m'; u_pt := u_pt u |} va len)
      as (l & ok & Hin & Hin_ok & _); [done|lia|right; apply copy_fuel_enough; lia|].
    destruct Hin_ok as (-> & Hl & Hi).
    { intros a Hr. rewrite Hb, decide_True by done. apply lookup_lt_is_Some_2. lia. }
    unfold copyin. cbn [u_mem u_pt] in Hin. rewrite Hin. do 2 f_equal. apply list_eq_same_length with (Z.to_nat len); try lia.
    intros i x y Hi1 Hx Hy. rewrite Hi, Hb, decide_True in Hx by lia.
    replace (Z.to_nat (va + Z.of_nat i - va)) with i in Hx by lia. congruence.
Qed.

End Vm.
