(* ===== verification/Riscv.v ===== *)
(** * Registers and the assembly files (riscv.h, trampoline.S, kernelvec.S, swtch.S, entry.S)

    The general registers and the control and status registers the kernel
    uses, the accessors of [kernel/riscv.h], and the assembly routines as lists
    of instructions with an evaluator.  The C function [kernelvec] calls is a
    parameter; so is the page-table walk of the hardware.

    The theorems: [uservec] saves every user register in the trapframe and
    [userret] loads every one of them back; [kernelvec] gives back every
    register but [tp] to the interrupted kernel code; [swtch] stores one context
    and loads the other; [timervec] asks for the next tick and disturbs no
    register. *)

From S2P Require Import Prelude Layout Vm.

(** ** Registers *)

Inductive reg : Type :=
| ra | sp | gp | tp | t0 | t1 | t2 | s0 | s1 | a0 | a1 | a2 | a3 | a4 | a5 | a6 | a7
| s2 | s3 | s4 | s5 | s6 | s7 | s8 | s9 | s10 | s11 | t3 | t4 | t5 | t6.
#[global] Instance reg_eq_dec : EqDecision reg.
Proof. solve_decision. Defined.

Inductive csr : Type :=
| mhartid | mstatus | mepc | sstatus | sip | sie | mie | sepc | medeleg | mideleg | stvec
| mtvec | pmpcfg0 | pmpaddr0 | satp | mscratch | sscratch | scause | stval.
#[global] Instance csr_eq_dec : EqDecision csr.
Proof. solve_decision. Defined.

Definition upd {A} `{EqDecision A} (x : A) (v : Z) (f : A -> Z) : A -> Z :=
  fun y => if decide (y = x) then v else f y.

Lemma upd_eq {A} `{EqDecision A} (x : A) v f : upd x v f x = v.
Proof. unfold upd. by rewrite decide_True. Qed.

Lemma upd_ne {A} `{EqDecision A} (x y : A) v f : x <> y -> upd x v f y = f y.
Proof. intros Hn. unfold upd. by rewrite decide_False by congruence. Qed.

(** ** kernel/riscv.h *)

Definition MSTATUS_MPP_MASK : Z := Z.shiftl 3 11.
Definition MSTATUS_MPP_S : Z := Z.shiftl 1 11.
Definition MSTATUS_MIE : Z := Z.shiftl 1 3.
Definition SSTATUS_SPP : Z := Z.shiftl 1 8.
Definition SSTATUS_SPIE : Z := Z.shiftl 1 5.
Definition SSTATUS_SIE : Z := Z.shiftl 1 1.
Definition SIE_SEIE : Z := Z.shiftl 1 9.
Definition SIE_STIE : Z := Z.shiftl 1 5.
Definition SIE_SSIE : Z := Z.shiftl 1 1.
Definition MIE_MTIE : Z := Z.shiftl 1 7.
Definition SATP_SV39 : Z := Z.shiftl 8 60.
Definition MAKE_SATP (pagetable : Z) : Z := Z.lor SATP_SV39 (Z.shiftr pagetable 12).

(** A state with the control and status registers and [tp] in it. *)
Class HasCsrs (S : Type) : Type := {
  get_csr : csr -> S -> Z;
  set_csr : csr -> Z -> S -> S;
  get_tp : S -> Z;
  set_tp : Z -> S -> S;
}.

Class HasCsrsLaws (S : Type) `{HasCsrs S} : Prop := {
  get_set_csr : forall c v s, get_csr c (set_csr c v s) = v;
  get_set_csr_ne : forall c c' v s, c <> c' -> get_csr c' (set_csr c v s) = get_csr c' s;
  get_tp_csr : forall c v s, get_tp (set_csr c v s) = get_tp s;
}.

Section Accessors.
Context {S : Type} `{HC : HasCsrs S}.

Definition csrr (c : csr) : M S Z := gets (get_csr c).
Definition csrw (c : csr) (x : Z) : M S unit := modify (set_csr c (u64 x)).

Definition r_mhartid : M S Z := csrr mhartid.
Definition r_mstatus : M S Z := csrr mstatus.
Definition w_mstatus (x : Z) : M S unit := csrw mstatus x.
Definition w_mepc (x : Z) : M S unit := csrw mepc x.
Definition r_sstatus : M S Z := csrr sstatus.
Definition w_sstatus (x : Z) : M S unit := csrw sstatus x.
Definition r_sip : M S Z := csrr sip.
Definition w_sip (x : Z) : M S unit := csrw sip x.
Definition r_sie : M S Z := csrr sie.
Definition w_sie (x : Z) : M S unit := csrw sie x.
Definition r_mie : M S Z := csrr mie.
Definition w_mie (x : Z) : M S unit := csrw mie x.
Definition w_sepc (x : Z) : M S unit := csrw sepc x.
Definition r_sepc : M S Z := csrr sepc.
Definition w_medeleg (x : Z) : M S unit := csrw medeleg x.
Definition w_mideleg (x : Z) : M S unit := csrw mideleg x.
Definition w_stvec (x : Z) : M S unit := csrw stvec x.
Definition w_mtvec (x : Z) : M S unit := csrw mtvec x.
Definition w_pmpcfg0 (x : Z) : M S unit := csrw pmpcfg0 x.
Definition w_pmpaddr0 (x : Z) : M S unit := csrw pmpaddr0 x.
Definition w_satp (x : Z) : M S unit := csrw satp x.
Definition r_satp : M S Z := csrr satp.
Definition w_mscratch (x : Z) : M S unit := csrw mscratch x.
Definition r_scause : M S Z := csrr scause.
Definition r_stval : M S Z := csrr stval.
Definition r_tp : M S Z := gets get_tp.
Definition w_tp (x : Z) : M S unit := modify (set_tp (u64 x)).

Definition intr_on : M S unit := x <- r_sstatus ;; w_sstatus (Z.lor x SSTATUS_SIE).
Definition intr_off : M S unit := x <- r_sstatus ;; w_sstatus (Z.land x (Z.lnot SSTATUS_SIE)).
Definition intr_get : M S bool := x <- r_sstatus ;; ret (negb (Z.land x SSTATUS_SIE =? 0)).
End Accessors.

(** ** Instructions *)

Inductive instr : Type :=
| sd (r : reg) (off : Z) (base : reg)
| ld (r : reg) (off : Z) (base : reg)
| csrw_ (c : csr) (r : reg)
| csrr_ (r : reg) (c : csr)
| csrrw_ (r : reg) (c : csr) (rs : reg)
| li (r : reg) (v : Z)
| addi (r rs : reg) (v : Z)
| add (r rs rt : reg)
| mul (r rs rt : reg)
| sfence_vma
| call (f : string).

(** Where control goes after the last instruction. *)
Inductive next : Type := jr (a : Z) | sret | mret.

(** Memory is the physical memory by byte; [mach_m] is machine mode, in which
    addresses are not translated. *)
Record mach : Type := {
  regs : reg -> Z;
  csrs : csr -> Z;
  mem : gmap Z Z;
  mach_m : bool;
}.

Definition set_reg (r : reg) (v : Z) (m : mach) : mach :=
  {| regs := upd r v (regs m); csrs := csrs m; mem := mem m; mach_m := mach_m m |}.
Definition set_ctl (c : csr) (v : Z) (m : mach) : mach :=
  {| regs := regs m; csrs := upd c v (csrs m); mem := mem m; mach_m := mach_m m |}.
Definition set_memory (b : gmap Z Z) (m : mach) : mach :=
  {| regs := regs m; csrs := csrs m; mem := b; mach_m := mach_m m |}.

#[global] Instance mach_csrs : HasCsrs mach := {|
  get_csr c m := csrs m c;
  set_csr := set_ctl;
  get_tp m := regs m tp;
  set_tp v m := set_reg tp v m |}.

#[global] Instance mach_csrs_laws : HasCsrsLaws mach.
Proof. split; intros; cbn; [apply upd_eq|by apply upd_ne|done]. Qed.

Definition byte_in (b : gmap Z Z) (a : Z) : Z := default 0 (b !! a).
Definition load64 (b : gmap Z Z) (a : Z) : Z := le_dec (map (byte_in b) (seqZ a 8)).
Definition store64 (a v : Z) (b : gmap Z Z) : gmap Z Z := Vm.store_bytes a (le_enc 8 v) b.

Section Run.
(** The hardware walk of the page table in [satp], and the C functions. *)
Context (walk : Z -> Z -> Z) (cfun : string -> mach -> mach).

Definition addr_of (m : mach) (va : Z) : Z :=
  if mach_m m then u64 va else walk (csrs m satp) (u64 va).

Definition step (i : instr) (m : mach) : mach :=
  match i with
  | sd r off base => set_memory (store64 (addr_of m (regs m base + off)) (regs m r) (mem m)) m
  | ld r off base => set_reg r (load64 (mem m) (addr_of m (regs m base + off))) m
  | csrw_ c r => set_ctl c (regs m r) m
  | csrr_ r c => set_reg r (csrs m c) m
  | csrrw_ r c rs => set_reg r (csrs m c) (set_ctl c (regs m rs) m)
  | li r v => set_reg r (u64 v) m
  | addi r rs v => set_reg r (u64 (regs m rs + v)) m
  | add r rs rt => set_reg r (u64 (regs m rs + regs m rt)) m
  | mul r rs rt => set_reg r (u64 (regs m rs * regs m rt)) m
  | sfence_vma => m
  | call f => cfun f m
  end.

Fixpoint run (l : list instr) (m : mach) : mach :=
  match l with
  | [] => m
  | i :: l => run l (step i m)
  end.

Lemma run_app l l' m : run (l ++ l') m = run l' (run l m).
Proof. revert m. induction l as [|i l IH]; intros m; [done|]. apply IH. Qed.
End Run.

(** ** kernel/trampoline.S *)

Definition uservec : list instr :=
  [csrw_ sscratch a0; li a0 TRAPFRAME;
   sd ra 40 a0; sd sp 48 a0; sd gp 56 a0; sd tp 64 a0; sd t0 72 a0; sd t1 80 a0; sd t2 88 a0;
   sd s0 96 a0; sd s1 104 a0; sd a1 120 a0; sd a2 128 a0; sd a3 136 a0; sd a4 144 a0;
   sd a5 152 a0; sd a6 160 a0; sd a7 168 a0; sd s2 176 a0; sd s3 184 a0; sd s4 192 a0;
   sd s5 200 a0; sd s6 208 a0; sd s7 216 a0; sd s8 224 a0; sd s9 232 a0; sd s10 240 a0;
   sd s11 248 a0; sd t3 256 a0; sd t4 264 a0; sd t5 272 a0; sd t6 280 a0;
   csrr_ t0 sscratch; sd t0 112 a0;
   ld sp 8 a0; ld tp 32 a0; ld t0 16 a0; ld t1 0 a0;
   sfence_vma; csrw_ satp t1; sfence_vma].
(** [jr t0] *)
Definition uservec_next (m : mach) : next := jr (regs m t0).

Definition userret : list instr :=
  [sfence_vma; csrw_ satp a0; sfence_vma; li a0 TRAPFRAME;
   ld ra 40 a0; ld sp 48 a0; ld gp 56 a0; ld tp 64 a0; ld t0 72 a0; ld t1 80 a0; ld t2 88 a0;
   ld s0 96 a0; ld s1 104 a0; ld a1 120 a0; ld a2 128 a0; ld a3 136 a0; ld a4 144 a0;
   ld a5 152 a0; ld a6 160 a0; ld a7 168 a0; ld s2 176 a0; ld s3 184 a0; ld s4 192 a0;
   ld s5 200 a0; ld s6 208 a0; ld s7 216 a0; ld s8 224 a0; ld s9 232 a0; ld s10 240 a0;
   ld s11 248 a0; ld t3 256 a0; ld t4 264 a0; ld t5 272 a0; ld t6 280 a0;
   ld a0 112 a0].
Definition userret_next : next := sret.

(** ** kernel/swtch.S *)

Definition swtch : list instr :=
  [sd ra 0 a0; sd sp 8 a0; sd s0 16 a0; sd s1 24 a0; sd s2 32 a0; sd s3 40 a0; sd s4 48 a0;
   sd s5 56 a0; sd s6 64 a0; sd s7 72 a0; sd s8 80 a0; sd s9 88 a0; sd s10 96 a0; sd s11 104 a0;
   ld ra 0 a1; ld sp 8 a1; ld s0 16 a1; ld s1 24 a1; ld s2 32 a1; ld s3 40 a1; ld s4 48 a1;
   ld s5 56 a1; ld s6 64 a1; ld s7 72 a1; ld s8 80 a1; ld s9 88 a1; ld s10 96 a1; ld s11 104 a1].
(** [ret] *)
Definition swtch_next (m : mach) : next := jr (regs m ra).

(** ** kernel/kernelvec.S *)

Definition kernelvec : list instr :=
  [addi sp sp (-256);
   sd ra 0 sp; sd sp 8 sp; sd gp 16 sp; sd tp 24 sp; sd t0 32 sp; sd t1 40 sp; sd t2 48 sp;
   sd s0 56 sp; sd s1 64 sp; sd a0 72 sp; sd a1 80 sp; sd a2 88 sp; sd a3 96 sp; sd a4 104 sp;
   sd a5 112 sp; sd a6 120 sp; sd a7 128 sp; sd s2 136 sp; sd s3 144 sp; sd s4 152 sp;
   sd s5 160 sp; sd s6 168 sp; sd s7 176 sp; sd s8 184 sp; sd s9 192 sp; sd s10 200 sp;
   sd s11 208 sp; sd t3 216 sp; sd t4 224 sp; sd t5 232 sp; sd t6 240 sp;
   call "kerneltrap";
   ld ra 0 sp; ld sp 8 sp; ld gp 16 sp; ld t0 32 sp; ld t1 40 sp; ld t2 48 sp;
   ld s0 56 sp; ld s1 64 sp; ld a0 72 sp; ld a1 80 sp; ld a2 88 sp; ld a3 96 sp; ld a4 104 sp;
   ld a5 112 sp; ld a6 120 sp; ld a7 128 sp; ld s2 136 sp; ld s3 144 sp; ld s4 152 sp;
   ld s5 160 sp; ld s6 168 sp; ld s7 176 sp; ld s8 184 sp; ld s9 192 sp; ld s10 200 sp;
   ld s11 208 sp; ld t3 216 sp; ld t4 224 sp; ld t5 232 sp; ld t6 240 sp;
   addi sp sp 256].
Definition kernelvec_next : next := sret.

Definition timervec : list instr :=
  [csrrw_ a0 mscratch a0;
   sd a1 0 a0; sd a2 8 a0; sd a3 16 a0;
   ld a1 24 a0; ld a2 32 a0; ld a3 0 a1; add a3 a3 a2; sd a3 0 a1;
   li a1 2; csrw_ sip a1;
   ld a3 16 a0; ld a2 8 a0; ld a1 0 a0;
   csrrw_ a0 mscratch a0].
Definition timervec_next : next := mret.

(** ** kernel/entry.S *)

(** [la sp, stack0], then the stack of this hart; [call start]. *)
Definition entry (stack0 : Z) : list instr :=
  [li sp stack0; li a0 (1024 * 4); csrr_ a1 mhartid; addi a1 a1 1; mul a0 a0 a1; add sp sp a0;
   call "start"].

(** ** Words in memory *)

Lemma byte_in_store a v b x :
  byte_in (store64 a v b) x = if decide (a <= x < a + 8) then le_enc 8 v !!! Z.to_nat (x - a) else byte_in b x.
Proof.
  unfold byte_in, store64. rewrite Vm.store_bytes_lookup, le_enc_length.
  change (Z.of_nat 8) with 8. destruct (decide (a <= x < a + 8)); [|done].
  destruct (lookup_lt_is_Some_2 (le_enc 8 v) (Z.to_nat (x - a))) as [y Hy]; [rewrite le_enc_length; lia|].
  rewrite Hy. symmetry. by apply list_lookup_total_correct.
Qed.

Lemma load_store_u64 a v b : load64 (store64 a v b) a = u64 v.
Proof.
  unfold load64.
  replace (map (byte_in (store64 a v b)) (seqZ a 8)) with (le_enc 8 v).
  { by rewrite le_dec_enc. }
  apply (list_eq_same_length _ _ 8); [by rewrite length_map|by rewrite le_enc_length|].
  intros i x y Hi Hx Hy. apply list_lookup_fmap_Some in Hy as (z & -> & Hz).
  apply lookup_seqZ in Hz as [-> _]. rewrite byte_in_store, decide_True by lia.
  replace (Z.to_nat (a + Z.of_nat i - a)) with i by lia. symmetry. by apply list_lookup_total_correct.
Qed.

Lemma load_store_same a v b : 0 <= v < 2 ^ 64 -> load64 (store64 a v b) a = v.
Proof. intros Hv. rewrite load_store_u64. by apply u64_small. Qed.

Lemma load_ext b b' a : (forall x, a <= x < a + 8 -> byte_in b x = byte_in b' x) -> load64 b a = load64 b' a.
Proof.
  intros Hb. unfold load64. f_equal. apply map_ext_in. intros x Hx. apply Hb.
  apply list_elem_of_In, elem_of_seqZ in Hx. lia.
Qed.

Definition apart (o o' : Z) : Prop := o + 8 <= o' \/ o' + 8 <= o.

Lemma load_store_apart a a' v b : apart a a' -> load64 (store64 a v b) a' = load64 b a'.
Proof.
  intros Ha. apply load_ext. intros x Hx. rewrite byte_in_store, decide_False; [done|].
  unfold apart in Ha. lia.
Qed.

(** ** Runs of stores and of loads *)

Definition saves (l : list (reg * Z)) (base : reg) : list instr := map (fun ro => sd ro.1 ro.2 base) l.
Definition loads (l : list (reg * Z)) (base : reg) : list instr := map (fun ro => ld ro.1 ro.2 base) l.

Fixpoint apart_all (l : list (reg * Z)) : Prop :=
  match l with
  | [] => True
  | ro :: l => Forall (fun ro' => apart ro.2 ro'.2) l /\ apart_all l
  end.

Section Runs.
Context (walk : Z -> Z -> Z) (cfun : string -> mach -> mach).
Notation exec := (run walk cfun).

(** The words [off(base)] are at [p + off]. *)
Definition mapped_at (m : mach) (base : reg) (p : Z) (l : list (reg * Z)) : Prop :=
  Forall (fun ro => addr_of walk m (regs m base + ro.2) = p + ro.2) l.

Lemma run_saves l base p m :
  mapped_at m base p l -> apart_all l -> (forall r, 0 <= regs m r < 2 ^ 64) ->
  let m' := exec (saves l base) m in
  regs m' = regs m /\ csrs m' = csrs m /\ mach_m m' = mach_m m /\
  (forall r o, (r, o) ∈ l -> load64 (mem m') (p + o) = regs m r) /\
  (forall x, Forall (fun ro => ~ (p + ro.2 <= x < p + ro.2 + 8)) l -> byte_in (mem m') x = byte_in (mem m) x).
Proof.
  revert m. induction l as [|[r o] l IH]; intros m Hmap Hap Hr.
  { split_and!; try done. intros r o Hin. by apply not_elem_of_nil in Hin. }
  apply Forall_cons in Hmap as [Ho Hmap]. destruct Hap as [Hap1 Hap]. cbn [fst snd] in *.
  cbn [saves map run]. fold (saves l base). cbn [step fst snd]. rewrite Ho.
  set (m1 := set_memory (store64 (p + o) (regs m r) (mem m)) m).
  destruct (IH m1) as (Er & Ec & Em & Hs & Hf); [done|done|done|].
  split_and!; try done.
  - intros r' o' [[= -> ->]|Hin]%elem_of_cons; [|by apply Hs].
    rewrite <-(load_store_same (p + o) (regs m r) (mem m)) by done.
    apply load_ext. intros x Hx. apply (Hf x). eapply Forall_impl; [exact Hap1|].
    intros [r1 o1] H1. unfold apart in H1. cbn [fst snd] in *. lia.
  - intros x [Hx Hl]%Forall_cons. rewrite Hf by done. unfold m1. cbn [mem set_memory].
    rewrite byte_in_store. by rewrite decide_False.
Qed.

Lemma run_loads l base p m :
  mapped_at m base p l -> NoDup l.*1 ->
  (forall o, (base, o) ∈ l -> load64 (mem m) (p + o) = regs m base) ->
  let m' := exec (loads l base) m in
  csrs m' = csrs m /\ mach_m m' = mach_m m /\ mem m' = mem m /\
  (forall r o, (r, o) ∈ l -> regs m' r = load64 (mem m) (p + o)) /\
  (forall r, r ∉ l.*1 -> regs m' r = regs m r).
Proof.
  revert m. induction l as [|[r o] l IH]; intros m Hmap Hnd Hb.
  { split_and!; try done. intros r o Hin. by apply not_elem_of_nil in Hin. }
  apply Forall_cons in Hmap as [Ho Hmap]. apply NoDup_cons in Hnd as [Hni Hnd]. cbn [fst snd] in *.
  cbn [loads map run]. fold (loads l base). cbn [step fst snd]. rewrite Ho.
  set (m1 := set_reg r (load64 (mem m) (p + o)) m).
  assert (Eb : regs m1 base = regs m base).
  { unfold m1. cbn [regs set_reg]. destruct (decide (r = base)) as [->|Hne]; [|by apply upd_ne].
    rewrite upd_eq. apply Hb. by left. }
  destruct (IH m1) as (Ec & Em & Emem & Hl & Hf).
  { unfold mapped_at. by rewrite Eb. }
  { done. }
  { intros o' Hin. rewrite Eb. apply Hb. by right. }
  split_and!; try done.
  - intros r' o' [[= -> ->]|Hin]%elem_of_cons; [|by apply Hl].
    rewrite Hf by done. unfold m1. cbn [regs set_reg]. apply upd_eq.
  - intros r' Hn. cbn [fmap list_fmap] in Hn. apply not_elem_of_cons in Hn as [Hne Hn].
    rewrite Hf by done. unfold m1. cbn [regs set_reg]. by apply upd_ne.
Qed.
End Runs.

(** ** [uservec] and [userret] *)

(** [struct trapframe]: where each user register is kept. *)
Definition tf_off (r : reg) : Z :=
  match r with
  | ra => 40 | sp => 48 | gp => 56 | tp => 64 | t0 => 72 | t1 => 80 | t2 => 88
  | s0 => 96 | s1 => 104 | a0 => 112 | a1 => 120 | a2 => 128 | a3 => 136 | a4 => 144
  | a5 => 152 | a6 => 160 | a7 => 168 | s2 => 176 | s3 => 184 | s4 => 192 | s5 => 200
  | s6 => 208 | s7 => 216 | s8 => 224 | s9 => 232 | s10 => 240 | s11 => 248
  | t3 => 256 | t4 => 264 | t5 => 272 | t6 => 280
  end.

Definition user_slots : list (reg * Z) :=
  map (fun r => (r, tf_off r))
    [ra; sp; gp; tp; t0; t1; t2; s0; s1; a1; a2; a3; a4; a5; a6; a7;
     s2; s3; s4; s5; s6; s7; s8; s9; s10; s11; t3; t4; t5; t6].

Lemma user_slots_spec r : r <> a0 -> (r, tf_off r) ∈ user_slots.
Proof. intros Hr. apply (bool_decide_unpack _). by destruct r. Qed.

Lemma user_slots_range : Forall (fun ro => 40 <= ro.2 <= 280 /\ apart 112 ro.2) user_slots.
Proof. unfold user_slots. cbn [map tf_off]. repeat (apply List.Forall_cons; [unfold apart; cbn; lia|]). apply List.Forall_nil. Qed.

Lemma tf_off_a0 tf r : r <> a0 -> apart (tf + 112) (tf + tf_off r).
Proof.
  intros Hr. pose proof user_slots_range as Hall. rewrite Forall_forall in Hall.
  destruct (Hall _ (user_slots_spec r Hr)) as [_ Hap]. unfold apart in *. cbn [snd] in Hap. lia.
Qed.

Lemma user_slots_apart : apart_all user_slots.
Proof.
  unfold user_slots. cbn [map tf_off apart_all].
  repeat (split; [repeat (apply List.Forall_cons; [unfold apart; cbn; lia|]); apply List.Forall_nil|]). done.
Qed.

Lemma user_slots_regs : NoDup user_slots.*1 /\ a0 ∉ user_slots.*1.
Proof. split; apply (bool_decide_unpack _); vm_compute; exact I. Qed.

(** What [uservec] loads for the kernel. *)
Definition kernel_slots : list (reg * Z) := [(sp, 8); (tp, 32); (t0, 16); (t1, 0)].

Lemma uservec_parts :
  uservec = [csrw_ sscratch a0; li a0 TRAPFRAME] ++ saves user_slots a0 ++
    [csrr_ t0 sscratch; sd t0 112 a0] ++ loads kernel_slots a0 ++ [sfence_vma; csrw_ satp t1; sfence_vma].
Proof. reflexivity. Qed.

Lemma userret_parts :
  userret = [sfence_vma; csrw_ satp a0; sfence_vma; li a0 TRAPFRAME] ++ loads user_slots a0 ++ [ld a0 112 a0].
Proof. reflexivity. Qed.

Section Trampoline.
Context (walk : Z -> Z -> Z) (cfun : string -> mach -> mach).
Context (usatp tf : Z).
(** The user page table maps the trapframe page. *)
Hypothesis Hwalk : forall o, 0 <= o < PGSIZE -> walk usatp (TRAPFRAME + o) = tf + o.
Notation exec := (run walk cfun).

Lemma trapframe_addr m o :
  mach_m m = false -> csrs m satp = usatp -> regs m a0 = TRAPFRAME -> 0 <= o < 4096 ->
  addr_of walk m (regs m a0 + o) = tf + o.
Proof.
  intros Hm Hs Ha Ho. unfold addr_of. rewrite Hm, Hs, Ha, u64_small; [by apply Hwalk|].
  change TRAPFRAME with 0x3fffffe000. lia.
Qed.

Lemma trapframe_mapped m :
  mach_m m = false -> csrs m satp = usatp -> regs m a0 = TRAPFRAME -> mapped_at walk m a0 tf user_slots.
Proof.
  intros Hm Hs Ha. eapply Forall_impl; [apply user_slots_range|]. intros [r o] [Ho _]. cbn [snd] in *.
  apply trapframe_addr; [done..|lia].
Qed.

Lemma kernel_mapped m :
  mach_m m = false -> csrs m satp = usatp -> regs m a0 = TRAPFRAME -> mapped_at walk m a0 tf kernel_slots.
Proof.
  intros Hm Hs Ha. unfold kernel_slots.
  repeat (apply List.Forall_cons; [by apply trapframe_addr; cbn|]). apply List.Forall_nil.
Qed.

(** The user [a0], which was set aside in [sscratch]. *)
Lemma uservec_a0 m :
  mach_m m = false -> csrs m satp = usatp -> regs m a0 = TRAPFRAME ->
  let m' := exec [csrr_ t0 sscratch; sd t0 112 a0] m in
  mach_m m' = mach_m m /\ csrs m' = csrs m /\ regs m' a0 = regs m a0 /\
  mem m' = store64 (tf + 112) (csrs m sscratch) (mem m).
Proof.
  intros Hm Hs Ha. cbn [run step]. split_and!; try done. cbn [mem set_memory set_reg].
  rewrite (trapframe_addr (set_reg t0 (csrs m sscratch) m)) by (done || lia). done.
Qed.

(** The part of [uservec] that saves all registers but [a0]. *)
Lemma uservec_regs m :
  mach_m m = false -> csrs m satp = usatp -> (forall r, 0 <= regs m r < 2 ^ 64) ->
  exists m3, exec (saves user_slots a0) (exec [csrw_ sscratch a0; li a0 TRAPFRAME] m) = m3 /\
  mach_m m3 = false /\ csrs m3 satp = usatp /\ regs m3 a0 = TRAPFRAME /\ csrs m3 sscratch = regs m a0 /\
  (forall r, r <> a0 -> load64 (mem m3) (tf + tf_off r) = regs m r) /\
  (forall x, ~ (tf + 40 <= x < tf + 288) -> byte_in (mem m3) x = byte_in (mem m) x).
Proof.
  intros Hm Hs Hr. set (m2 := exec [csrw_ sscratch a0; li a0 TRAPFRAME] m).
  assert (Ha : regs m2 a0 = TRAPFRAME) by (apply upd_eq).
  assert (E2 : forall r, r <> a0 -> regs m2 r = regs m r) by (intros r Hne; apply upd_ne; congruence).
  assert (Ex : csrs m2 sscratch = regs m a0) by (apply upd_eq).
  assert (Hs2 : csrs m2 satp = usatp) by (rewrite <-Hs; by apply upd_ne).
  assert (Hm2 : mach_m m2 = false) by exact Hm.
  assert (Hb2 : mem m2 = mem m) by reflexivity. clearbody m2.
  destruct (run_saves walk cfun user_slots a0 tf m2) as (Er & Ec & Em & Hsv & Hfr).
  { by apply trapframe_mapped. }
  { apply user_slots_apart. }
  { intros r. destruct (decide (r = a0)) as [->|Hne]; [rewrite Ha; by vm_compute|rewrite E2 by done; apply Hr]. }
  eexists. split; [reflexivity|]. cbn zeta in *. rewrite Er, Ec, Em, <-Hb2. split_and!; try done.
  - intros r Hne. rewrite (Hsv r _ (user_slots_spec r Hne)). by apply E2.
  - intros x Hx. apply Hfr. eapply Forall_impl; [apply user_slots_range|]. intros [r o] [Ho _]. cbn [snd] in *. lia.
Qed.

(** The part that loads what the kernel needs. *)
Lemma uservec_kernel m :
  mach_m m = false -> csrs m satp = usatp -> regs m a0 = TRAPFRAME ->
  exists m', exec [sfence_vma; csrw_ satp t1; sfence_vma] (exec (loads kernel_slots a0) m) = m' /\
  mem m' = mem m /\ regs m' sp = load64 (mem m) (tf + 8) /\ regs m' tp = load64 (mem m) (tf + 32) /\
  regs m' t0 = load64 (mem m) (tf + 16) /\ csrs m' satp = load64 (mem m) (tf + 0).
Proof.
  intros Hm Hs Ha. destruct (run_loads walk cfun kernel_slots a0 tf m) as (_ & _ & Eb & Hld & _).
  { by apply kernel_mapped. }
  { apply (bool_decide_unpack _). vm_compute. exact I. }
  { intros o Hin. unfold kernel_slots in Hin. set_solver. }
  eexists. split; [reflexivity|]. cbn zeta in *. set (m2 := exec (loads kernel_slots a0) m) in *. clearbody m2.
  cbn [run step set_ctl regs mem csrs]. rewrite upd_eq. unfold kernel_slots in Hld.
  split_and!; [done|apply Hld; set_solver..].
Qed.

Lemma uservec_saves m :
  mach_m m = false -> csrs m satp = usatp -> (forall r, 0 <= regs m r < 2 ^ 64) ->
  let m1 := exec uservec m in
  (forall r, load64 (mem m1) (tf + tf_off r) = regs m r) /\
  (forall x, ~ (tf + 40 <= x < tf + 288) -> byte_in (mem m1) x = byte_in (mem m) x) /\
  regs m1 sp = load64 (mem m) (tf + 8) /\ regs m1 tp = load64 (mem m) (tf + 32) /\
  csrs m1 satp = load64 (mem m) (tf + 0) /\ uservec_next m1 = jr (load64 (mem m) (tf + 16)).
Proof.
  intros Hm Hs Hr m1. unfold m1. clear m1. rewrite uservec_parts, !run_app.
  destruct (uservec_regs m Hm Hs Hr) as (m3 & -> & Hm3 & Hs3 & Ha3 & Hx3 & Hsv & Hfr).
  destruct (uservec_a0 m3 Hm3 Hs3 Ha3) as (Em4 & Ec4 & Ea4 & Eb4). rewrite Hx3 in Eb4.
  set (m4 := exec [csrr_ t0 sscratch; sd t0 112 a0] m3) in *. clearbody m4.
  destruct (uservec_kernel m4) as (m5 & -> & Eb5 & Hsp & Htp & Ht0 & Hst); [congruence..|].
  assert (Hframe : forall x, ~ (tf + 40 <= x < tf + 288) -> byte_in (mem m4) x = byte_in (mem m) x).
  { intros x Hx. rewrite Eb4, byte_in_store, decide_False by lia. by apply Hfr. }
  assert (Hk : forall o, 0 <= o <= 32 -> load64 (mem m4) (tf + o) = load64 (mem m) (tf + o)).
  { intros o Ho. apply load_ext. intros x Hx. apply Hframe. lia. }
  unfold uservec_next. rewrite Eb5, Hsp, Htp, Ht0, Hst, !Hk by lia. split_and!; try done.
  intros r. rewrite Eb4. destruct (decide (r = a0)) as [->|Hne]; [by apply load_store_same|].
  rewrite load_store_apart by (by apply tf_off_a0). by apply Hsv.
Qed.

(** Every register is loaded from its word of the trapframe. *)
Lemma userret_loads m :
  mach_m m = false -> regs m a0 = usatp ->
  let m' := exec userret m in
  (forall r, regs m' r = load64 (mem m) (tf + tf_off r)) /\ csrs m' satp = usatp /\ mem m' = mem m.
Proof.
  intros Hm Ha m'. unfold m'. clear m'. rewrite userret_parts, !run_app. set (m1 := exec [sfence_vma; csrw_ satp a0; sfence_vma; li a0 TRAPFRAME] m).
  assert (Hs1 : csrs m1 satp = usatp) by (rewrite <-Ha; apply upd_eq).
  assert (Hm1 : mach_m m1 = false) by exact Hm.
  assert (Ha1 : regs m1 a0 = TRAPFRAME) by (apply upd_eq).
  assert (Hb1 : mem m1 = mem m) by reflexivity. clearbody m1.
  destruct user_slots_regs as [Hnd Hna].
  destruct (run_loads walk cfun user_slots a0 tf m1) as (Ec & Em & Eb & Hld & Hoth).
  { by apply trapframe_mapped. }
  { done. }
  { intros o Hin. destruct Hna. apply list_elem_of_fmap. by exists (a0, o). }
  cbn zeta in Ec, Em, Eb, Hld, Hoth. set (m2 := exec (loads user_slots a0) m1) in *.
  assert (Ha2 : regs m2 a0 = TRAPFRAME) by (by rewrite Hoth).
  clearbody m2. cbn [run step set_reg regs mem csrs].
  rewrite (trapframe_addr m2) by (congruence || lia). rewrite Eb, Hb1. split_and!; [|congruence|congruence].
  intros r. destruct (decide (r = a0)) as [->|Hne]; [by rewrite upd_eq|].
  rewrite upd_ne by congruence. by rewrite (Hld r _ (user_slots_spec r Hne)), Hb1.
Qed.
End Trampoline.

(** ** [kernelvec] *)

Definition kvec_slots : list (reg * Z) :=
  [(ra, 0); (sp, 8); (gp, 16); (tp, 24); (t0, 32); (t1, 40); (t2, 48); (s0, 56); (s1, 64);
   (a0, 72); (a1, 80); (a2, 88); (a3, 96); (a4, 104); (a5, 112); (a6, 120); (a7, 128);
   (s2, 136); (s3, 144); (s4, 152); (s5, 160); (s6, 168); (s7, 176); (s8, 184); (s9, 192);
   (s10, 200); (s11, 208); (t3, 216); (t4, 224); (t5, 232); (t6, 240)].

Definition kvec_loads : list (reg * Z) := filter (fun ro => ro.1 <> tp) kvec_slots.

Lemma kernelvec_parts :
  kernelvec = [addi sp sp (-256)] ++ saves kvec_slots sp ++ [call "kerneltrap"] ++
    loads kvec_loads sp ++ [addi sp sp 256].
Proof. reflexivity. Qed.

Lemma kvec_slots_range : Forall (fun ro => 0 <= ro.2 <= 240) kvec_slots.
Proof. repeat (apply List.Forall_cons; [cbn; lia|]). apply List.Forall_nil. Qed.

Lemma kvec_slots_apart : apart_all kvec_slots.
Proof.
  unfold kvec_slots. cbn [apart_all].
  repeat (split; [repeat (apply List.Forall_cons; [unfold apart; cbn; lia|]); apply List.Forall_nil|]). done.
Qed.

Lemma kvec_reg r : exists o, (r, o) ∈ kvec_slots.
Proof.
  assert (Hin : r ∈ kvec_slots.*1) by (apply (bool_decide_unpack _); by destruct r).
  apply list_elem_of_fmap in Hin as ([r' o] & -> & Hin). by exists o.
Qed.

Lemma kvec_loads_nodup : NoDup kvec_loads.*1.
Proof. apply (bool_decide_unpack _). vm_compute. exact I. Qed.

Lemma kvec_loads_elem r o : (r, o) ∈ kvec_loads <-> r <> tp /\ (r, o) ∈ kvec_slots.
Proof. unfold kvec_loads. by rewrite list_elem_of_filter. Qed.

Section Kernelvec.
Context (walk : Z -> Z -> Z) (cfun : string -> mach -> mach).
Notation exec := (run walk cfun).

Lemma frame_mapped m base p (l : list (reg * Z)) :
  mach_m m = false -> 0 <= regs m base <= 2 ^ 64 - 256 ->
  (forall o, 0 <= o < 256 -> walk (csrs m satp) (regs m base + o) = p + o) ->
  Forall (fun ro => 0 <= ro.2 <= 240) l -> mapped_at walk m base p l.
Proof.
  intros Hm Hsp Hw Hl. eapply Forall_impl; [exact Hl|]. intros [r o] Ho. cbn [snd] in *.
  unfold addr_of. rewrite Hm, u64_small by lia. apply Hw. lia.
Qed.

(** The handler runs below the frame: it returns with [sp] where it was, on the
    same page table, and has not written into the 256 bytes. *)
Record returns_above (p : Z) (m m' : mach) : Prop := {
  rt_mode : mach_m m' = false;
  rt_sp : regs m' sp = regs m sp;
  rt_satp : csrs m' satp = csrs m satp;
  rt_frame : forall x, p <= x < p + 256 -> byte_in (mem m') x = byte_in (mem m) x;
}.

Lemma kernelvec_restores m p :
  let frame := regs m sp - 256 in
  mach_m m = false -> (forall r, 0 <= regs m r < 2 ^ 64) -> 0 <= frame ->
  (forall o, 0 <= o < 256 -> walk (csrs m satp) (frame + o) = p + o) ->
  (forall m1, regs m1 sp = frame -> csrs m1 = csrs m -> returns_above p m1 (cfun "kerneltrap" m1)) ->
  exists m1, csrs m1 = csrs m /\
    let m2 := cfun "kerneltrap" m1 in
    let m' := exec kernelvec m in
    (forall r, r <> tp -> regs m' r = regs m r) /\ regs m' tp = regs m2 tp /\
    csrs m' = csrs m2 /\ mem m' = mem m2.
Proof.
  intros frame Hm Hr Hf Hw Hcall. rewrite kernelvec_parts, !run_app.
  set (m0 := exec [addi sp sp (-256)] m).
  assert (Hsp0 : regs m0 sp = frame).
  { transitivity (u64 (regs m sp + -256)); [apply upd_eq|]. specialize (Hr sp). apply u64_small. unfold frame in *. lia. }
  assert (Hr0 : forall r, r <> sp -> regs m0 r = regs m r) by (intros r Hne; apply upd_ne; congruence).
  assert (Hc0 : csrs m0 = csrs m) by reflexivity. assert (Hm0 : mach_m m0 = false) by exact Hm. clearbody m0.
  assert (Hrange : 0 <= frame <= 2 ^ 64 - 256) by (specialize (Hr sp); unfold frame in *; lia).
  destruct (run_saves walk cfun kvec_slots sp p m0) as (Er1 & Ec1 & Em1 & Hsv & _).
  { apply frame_mapped; [done|by rewrite Hsp0|by rewrite Hsp0, Hc0|apply kvec_slots_range]. }
  { apply kvec_slots_apart. }
  { intros r. destruct (decide (r = sp)) as [->|Hne]; [rewrite Hsp0; lia|by rewrite Hr0]. }
  cbn zeta in Er1, Ec1, Em1, Hsv. set (m1 := exec (saves kvec_slots sp) m0) in *. clearbody m1.
  exists m1. split; [congruence|]. cbn zeta. cbn [run step].
  assert (Hret := Hcall m1 ltac:(congruence) ltac:(congruence)).
  set (m2 := cfun "kerneltrap" m1) in *. clearbody m2. destruct Hret as [Hm2 Hsp2 Hsa2 Hfr2].
  assert (Hld2 : forall r o, (r, o) ∈ kvec_slots -> load64 (mem m2) (p + o) = regs m0 r).
  { intros r o Hin. rewrite <-(Hsv r o Hin). apply load_ext. intros x Hx. apply Hfr2.
    pose proof kvec_slots_range as Hall. rewrite Forall_forall in Hall. specialize (Hall _ Hin). cbn in Hall. lia. }
  destruct (run_loads walk cfun kvec_loads sp p m2) as (Ec3 & Em3 & Eb3 & Hld & Hoth).
  { apply frame_mapped; [done|rewrite Hsp2, Er1, Hsp0; lia|rewrite Hsp2, Er1, Hsp0, Hsa2, Ec1, Hc0; done|].
    apply Forall_forall. intros [r o] [_ Hin]%kvec_loads_elem. pose proof kvec_slots_range as Hall.
    rewrite Forall_forall in Hall. by apply (Hall (r, o)). }
  { apply kvec_loads_nodup. }
  { intros o [_ Hin]%kvec_loads_elem. rewrite (Hld2 sp o Hin), Hsp2, Er1. done. }
  cbn zeta in Ec3, Em3, Eb3, Hld, Hoth. set (m3 := exec (loads kvec_loads sp) m2) in *. clearbody m3.
  cbn [set_reg regs csrs mem].
  assert (Hr3 : forall r, r <> tp -> regs m3 r = regs m0 r).
  { intros r Hne. destruct (kvec_reg r) as [o Hin]. rewrite (Hld r o) by (by apply kvec_loads_elem). by apply Hld2. }
  split_and!; try done.
  - intros r Hne. destruct (decide (r = sp)) as [->|Hns].
    + rewrite upd_eq, Hr3, Hsp0 by done. specialize (Hr sp). unfold frame. rewrite u64_small; lia.
    + rewrite upd_ne by congruence. rewrite Hr3 by done. by apply Hr0.
  - rewrite upd_ne by done. apply Hoth. apply (bool_decide_unpack _). vm_compute. exact I.
Qed.
End Kernelvec.

(** ** [swtch] *)

(** [struct context] *)
Definition ctx_slots : list (reg * Z) :=
  [(ra, 0); (sp, 8); (s0, 16); (s1, 24); (s2, 32); (s3, 40); (s4, 48); (s5, 56); (s6, 64);
   (s7, 72); (s8, 80); (s9, 88); (s10, 96); (s11, 104)].

Lemma swtch_parts : swtch = saves ctx_slots a0 ++ loads ctx_slots a1.
Proof. reflexivity. Qed.

Lemma ctx_slots_range : Forall (fun ro => 0 <= ro.2 <= 104) ctx_slots.
Proof. repeat (apply List.Forall_cons; [cbn; lia|]). apply List.Forall_nil. Qed.

Lemma ctx_slots_apart : apart_all ctx_slots.
Proof.
  unfold ctx_slots. cbn [apart_all].
  repeat (split; [repeat (apply List.Forall_cons; [unfold apart; cbn; lia|]); apply List.Forall_nil|]). done.
Qed.

Lemma ctx_slots_regs : NoDup ctx_slots.*1 /\ a1 ∉ ctx_slots.*1.
Proof. split; apply (bool_decide_unpack _); vm_compute; exact I. Qed.

Section Swtch.
Context (walk : Z -> Z -> Z) (cfun : string -> mach -> mach).
Notation exec := (run walk cfun).

(** [base] points to a context at physical address [p]. *)
Definition points_to (m : mach) (base : reg) (p : Z) : Prop :=
  mach_m m = false /\ 0 <= regs m base <= 2 ^ 64 - 112 /\
  forall o, 0 <= o < 112 -> walk (csrs m satp) (regs m base + o) = p + o.

Lemma points_to_mapped m base p : points_to m base p -> mapped_at walk m base p ctx_slots.
Proof.
  intros (Hm & Hb & Hw). eapply Forall_impl; [apply ctx_slots_range|]. intros [r o] Ho. cbn [snd] in *.
  unfold addr_of. rewrite Hm, u64_small by lia. apply Hw. lia.
Qed.

Lemma swtch_saves_loads m old new :
  points_to m a0 old -> points_to m a1 new -> (forall r, 0 <= regs m r < 2 ^ 64) ->
  old + 112 <= new \/ new + 112 <= old ->
  let m' := exec swtch m in
  (forall r o, (r, o) ∈ ctx_slots -> load64 (mem m') (old + o) = regs m r) /\
  (forall r o, (r, o) ∈ ctx_slots -> regs m' r = load64 (mem m) (new + o)) /\
  (forall r, r ∉ ctx_slots.*1 -> regs m' r = regs m r) /\
  (forall x, ~ (old <= x < old + 112) -> byte_in (mem m') x = byte_in (mem m) x).
Proof.
  intros Ho Hn Hr Hd. rewrite swtch_parts, run_app.
  destruct (run_saves walk cfun ctx_slots a0 old m) as (Er & Ec & Em & Hsv & Hfr);
    [by apply points_to_mapped|apply ctx_slots_apart|done|].
  cbn zeta in *. set (m1 := exec (saves ctx_slots a0) m) in *. clearbody m1.
  assert (Hfr1 : forall x, ~ (old <= x < old + 112) -> byte_in (mem m1) x = byte_in (mem m) x).
  { intros x Hx. apply Hfr. eapply Forall_impl; [apply ctx_slots_range|]. intros [r o] H1. cbn [snd] in *. lia. }
  destruct (run_loads walk cfun ctx_slots a1 new m1) as (_ & _ & Eb & Hld & Hoth).
  { apply points_to_mapped. unfold points_to. by rewrite Em, Er, Ec. }
  { apply ctx_slots_regs. }
  { intros o Hin. destruct (proj2 ctx_slots_regs). apply list_elem_of_fmap. by exists (a1, o). }
  cbn zeta in *. rewrite Eb. split_and!; try done.
  - intros r o Hin. rewrite (Hld r o Hin). apply load_ext. intros x Hx. apply Hfr1.
    pose proof ctx_slots_range as Hall. rewrite Forall_forall in Hall. specialize (Hall _ Hin). cbn in Hall. lia.
  - intros r Hni. rewrite Hoth by done. by rewrite Er.
Qed.
End Swtch.

(** ** [timervec] *)

Definition timer_slots : list (reg * Z) := [(a1, 0); (a2, 8); (a3, 16)].

Definition next_tick : list instr :=
  [ld a1 24 a0; ld a2 32 a0; ld a3 0 a1; add a3 a3 a2; sd a3 0 a1; li a1 2; csrw_ sip a1].

Lemma timervec_parts :
  timervec = [csrrw_ a0 mscratch a0] ++ saves timer_slots a0 ++ next_tick ++
    loads (rev timer_slots) a0 ++ [csrrw_ a0 mscratch a0].
Proof. reflexivity. Qed.

Lemma timer_slots_regs : NoDup (rev timer_slots).*1 /\ a0 ∉ (rev timer_slots).*1.
Proof. split; apply (bool_decide_unpack _); vm_compute; exact I. Qed.

Section Timervec.
Context (walk : Z -> Z -> Z) (cfun : string -> mach -> mach).
Notation exec := (run walk cfun).

Lemma addr_of_m m a : mach_m m = true -> 0 <= a < 2 ^ 64 -> addr_of walk m a = a.
Proof. intros Hm Ha. unfold addr_of. by rewrite Hm, u64_small. Qed.

Lemma timer_mapped m s :
  mach_m m = true -> regs m a0 = s -> 0 <= s <= 2 ^ 64 - 40 ->
  mapped_at walk m a0 s timer_slots /\ mapped_at walk m a0 s (rev timer_slots).
Proof.
  intros Hm Ha Hs. rewrite <-Ha in *. unfold timer_slots. cbn [rev app].
  split; repeat (apply List.Forall_cons; [apply addr_of_m; [done|cbn; lia]|]); apply List.Forall_nil.
Qed.

(** The middle part adds the interval to [mtimecmp] and raises the software
    interrupt. *)
Lemma next_tick_step m s c :
  mach_m m = true -> regs m a0 = s -> 0 <= s <= 2 ^ 64 - 40 -> c = load64 (mem m) (s + 24) ->
  0 <= c <= 2 ^ 64 - 8 ->
  let m' := exec next_tick m in
  mach_m m' = true /\ (forall r, r <> a1 -> r <> a2 -> r <> a3 -> regs m' r = regs m r) /\
  csrs m' = upd sip 2 (csrs m) /\
  mem m' = store64 c (u64 (load64 (mem m) c + load64 (mem m) (s + 32))) (mem m).
Proof.
  intros Hm Ha Hs Hc Hcr. unfold next_tick. cbn [run].
  assert (E1 : step walk cfun (ld a1 24 a0) m = set_reg a1 c m).
  { cbn [step]. rewrite Ha, addr_of_m by (done || lia). by rewrite Hc. }
  rewrite E1. set (x1 := set_reg a1 c m).
  assert (E2 : step walk cfun (ld a2 32 a0) x1 = set_reg a2 (load64 (mem m) (s + 32)) x1).
  { cbn [step]. change (regs x1 a0) with (regs m a0). by rewrite Ha, addr_of_m by (done || lia). }
  rewrite E2. set (x2 := set_reg a2 _ x1).
  assert (E3 : step walk cfun (ld a3 0 a1) x2 = set_reg a3 (load64 (mem m) c) x2).
  { cbn [step]. change (regs x2 a1) with c. by rewrite Z.add_0_r, addr_of_m by (done || lia). }
  rewrite E3. set (x3 := set_reg a3 _ x2). set (v := u64 (load64 (mem m) c + load64 (mem m) (s + 32))).
  assert (E4 : step walk cfun (add a3 a3 a2) x3 = set_reg a3 v x3) by reflexivity.
  rewrite E4. set (x4 := set_reg a3 v x3).
  assert (E5 : step walk cfun (sd a3 0 a1) x4 = set_memory (store64 c v (mem m)) x4).
  { cbn [step]. change (regs x4 a1) with c. by rewrite Z.add_0_r, addr_of_m by (done || lia). }
  rewrite E5. split_and!; try done.
  intros r H1 H2 H3. cbn [step set_ctl set_reg set_memory regs x4 x3 x2 x1].
  by rewrite !upd_ne by congruence.
Qed.

Lemma swap_a0 m :
  exists m', exec [csrrw_ a0 mscratch a0] m = m' /\
  regs m' a0 = csrs m mscratch /\ (forall r, r <> a0 -> regs m' r = regs m r) /\
  csrs m' mscratch = regs m a0 /\ (forall c, c <> mscratch -> csrs m' c = csrs m c) /\
  mem m' = mem m /\ mach_m m' = mach_m m.
Proof.
  eexists. split; [reflexivity|]. split_and!; try done; try apply upd_eq; intros; apply upd_ne; congruence.
Qed.

Lemma timervec_ticks m :
  let s := csrs m mscratch in
  let c := load64 (mem m) (s + 24) in
  let m' := exec timervec m in
  mach_m m = true -> (forall r, 0 <= regs m r < 2 ^ 64) -> 0 <= s <= 2 ^ 64 - 40 -> 0 <= c <= 2 ^ 64 - 8 ->
  c + 8 <= s \/ s + 40 <= c ->
  (forall r, regs m' r = regs m r) /\ csrs m' mscratch = s /\ csrs m' sip = 2 /\
  load64 (mem m') c = u64 (load64 (mem m) c + load64 (mem m) (s + 32)) /\
  (forall x, ~ (s <= x < s + 24) -> ~ (c <= x < c + 8) -> byte_in (mem m') x = byte_in (mem m) x).
Proof.
  intros s c m' Hm Hr Hs Hc Hd. unfold m'. clear m'. rewrite timervec_parts, !run_app.
  destruct (swap_a0 m) as (m0 & -> & Ha0 & Hr0 & Hx0 & _ & Hb0 & Hm0). fold s in Ha0. rewrite Hm in Hm0.
  destruct (run_saves walk cfun timer_slots a0 s m0) as (Er1 & Ec1 & Em1 & Hsv & Hfr).
  { by apply timer_mapped. }
  { repeat split; repeat (apply List.Forall_cons; [unfold apart; cbn; lia|]); apply List.Forall_nil. }
  { intros r. destruct (decide (r = a0)) as [->|Hne]; [rewrite Ha0; lia|by rewrite Hr0]. }
  cbn zeta in *. set (m1 := exec (saves timer_slots a0) m0) in *. clearbody m1.
  assert (Hfr1 : forall x, ~ (s <= x < s + 24) -> byte_in (mem m1) x = byte_in (mem m) x).
  { intros x Hx. rewrite <-Hb0. apply Hfr. repeat (apply List.Forall_cons; [cbn; lia|]). apply List.Forall_nil. }
  assert (Hl1 : forall a, a + 8 <= s \/ s + 24 <= a -> load64 (mem m1) a = load64 (mem m) a).
  { intros a Ha. apply load_ext. intros x Hx. apply Hfr1. lia. }
  destruct (next_tick_step m1 s c) as (Em2 & Hr2 & Ec2 & Eb2); [congruence|congruence|done|by rewrite Hl1 by lia|done|].
  rewrite !Hl1 in Eb2 by lia. set (m2 := exec next_tick m1) in *. clearbody m2.
  assert (Ha2 : regs m2 a0 = s) by (rewrite Hr2 by done; congruence).
  destruct (run_loads walk cfun (rev timer_slots) a0 s m2) as (Ec3 & Em3 & Eb3 & Hld & Hoth).
  { by apply timer_mapped. }
  { apply timer_slots_regs. }
  { intros o Hin. unfold timer_slots in Hin. cbn [rev app] in Hin. set_solver. }
  cbn zeta in *. set (m3 := exec (loads (rev timer_slots) a0) m2) in *. clearbody m3.
  assert (Hr3 : forall r o, (r, o) ∈ timer_slots -> regs m3 r = regs m r).
  { intros r o Hin. rewrite (Hld r o) by (clear -Hin; unfold timer_slots in *; cbn [rev app]; set_solver).
    rewrite Eb2, load_store_apart; [rewrite (Hsv r o Hin); apply Hr0; clear -Hin; unfold timer_slots in Hin; set_solver|].
    assert (0 <= o <= 16) by (clear -Hin; unfold timer_slots in Hin; set_solver by lia). unfold apart. lia. }
  destruct (swap_a0 m3) as (m4 & -> & Ha4 & Hr4 & Hx4 & Hc4 & Hb4 & _). rewrite Hb4, Eb3, Eb2. split_and!.
  - intros r. destruct (decide (r = a0)) as [->|Hne].
    + rewrite Ha4, Ec3, Ec2, upd_ne by done. congruence.
    + rewrite Hr4 by done. destruct (decide (r ∈ timer_slots.*1)) as [Hin|Hni].
      * apply list_elem_of_fmap in Hin as ([r' o] & -> & Hin). by apply (Hr3 r' o).
      * rewrite Hoth by (clear -Hni; unfold timer_slots in *; cbn [rev app fmap list_fmap fst] in *; set_solver).
        rewrite Hr2, Er1 by (clear -Hni; intros ->; apply Hni; unfold timer_slots; cbn [fmap list_fmap fst]; set_solver). by apply Hr0.
  - by rewrite Hx4, Hoth by apply timer_slots_regs.
  - rewrite Hc4, Ec3, Ec2 by done. apply upd_eq.
  - apply load_store_same. apply u64_range.
  - intros x H1 H2. rewrite byte_in_store, decide_False by done. by apply Hfr1.
Qed.
End Timervec.

(** ** [_entry] *)

Lemma entry_stack walk cfun stack0 m :
  0 <= stack0 < 2 ^ 63 -> 0 <= csrs m mhartid < 64 ->
  exists m1, run walk cfun (entry stack0) m = cfun "start" m1 /\
    regs m1 sp = stack0 + 4096 * (csrs m mhartid + 1) /\ csrs m1 = csrs m /\ mem m1 = mem m.
Proof.
  intros Hs Hh. eexists. split; [reflexivity|]. split_and!; [|done|done].
  transitivity (u64 (u64 stack0 + u64 (u64 (1024 * 4) * u64 (csrs m mhartid + 1)))); [reflexivity|].
  rewrite (u64_small stack0), (u64_small (1024 * 4)), (u64_small (csrs m mhartid + 1)) by lia.
  rewrite (u64_small (1024 * 4 * _)), u64_small by lia. lia.
Qed.

(** ** A trap from user space and back *)

(** Claim C18: [uservec] and [userret] are transparent to the user program.
    [uservec] enters the kernel on the kernel's stack and page table, with the
    hart number in [tp], at the address kept in the trapframe, and writes only
    the register words of the trapframe; and if the kernel leaves these words as
    they are, every one of the 31 user registers is back when [userret] ends,
    on the user page table. *)
Theorem trampoline_roundtrip walk cfun usatp tf m m2 :
  (forall o, 0 <= o < PGSIZE -> walk usatp (TRAPFRAME + o) = tf + o) ->
  mach_m m = false -> csrs m satp = usatp -> (forall r, 0 <= regs m r < 2 ^ 64) ->
  let m1 := run walk cfun uservec m in
  mach_m m2 = false -> regs m2 a0 = usatp ->
  (forall r, load64 (mem m2) (tf + tf_off r) = load64 (mem m1) (tf + tf_off r)) ->
  let m' := run walk cfun userret m2 in
  (regs m1 sp = load64 (mem m) (tf + 8) /\ regs m1 tp = load64 (mem m) (tf + 32) /\
   csrs m1 satp = load64 (mem m) (tf + 0) /\ uservec_next m1 = jr (load64 (mem m) (tf + 16))) /\
  (forall x, ~ (tf + 40 <= x < tf + 288) -> byte_in (mem m1) x = byte_in (mem m) x) /\
  (forall r, regs m' r = regs m r) /\ csrs m' satp = usatp /\ mem m' = mem m2.
Proof.
  intros Hw Hm Hs Hr m1 Hm2 Ha2 Hkeep m'.
  destruct (uservec_saves walk cfun usatp tf Hw m Hm Hs Hr) as (Hsv & Hfr & Hk). fold m1 in Hsv, Hfr, Hk.
  destruct (userret_loads walk cfun usatp tf Hw m2 Hm2 Ha2) as (Hld & Hst & Hb). fold m' in Hld, Hst, Hb.
  split; [exact Hk|]. split; [exact Hfr|]. split; [|exact (conj Hst Hb)].
  intros r. rewrite Hld, Hkeep. apply Hsv.
Qed.

(** A user program whose registers hold their own offsets. *)
Definition ex_walk (s va : Z) : Z := va - TRAPFRAME + 0x87000000.
Definition ex_user : mach :=
  {| regs := tf_off; csrs := fun c => if decide (c = satp) then 77 else 0; mem := ∅; mach_m := false |}.
Definition ex_kernel (b : gmap Z Z) : mach :=
  {| regs := fun _ => 77; csrs := fun _ => 0; mem := b; mach_m := false |}.

Lemma ex_kernel_mem b : mem (ex_kernel b) = b.
Proof. reflexivity. Qed.

Definition ex_saved : gmap Z Z := mem (run ex_walk (fun _ m => m) uservec ex_user).

Lemma trampoline_roundtrip_witness :
  csrs ex_user satp = 77 /\
  forall r, regs (run ex_walk (fun _ m => m) userret (ex_kernel ex_saved)) r = tf_off r.
Proof.
  split; [reflexivity|].
  edestruct (trampoline_roundtrip ex_walk (fun _ m => m) 77 0x87000000 ex_user (ex_kernel ex_saved))
    as (_ & _ & H & _); [..|exact H].
  - intros o _. unfold ex_walk. lia.
  - reflexivity.
  - reflexivity.
  - intros r. destruct r; cbn; lia.
  - reflexivity.
  - reflexivity.
  - intros r. rewrite ex_kernel_mem. reflexivity.
Defined.
