(* ===== verification/Start.v ===== *)
(** * Start-up (kernel/start.c, kernel/main.c)

    [start] and [timerinit] run in machine mode on every hart; the registers of
    the CLINT and [timer_scratch] are words of memory.  [main] is its list of
    calls, each with the shared data it initializes and relies on; the harts
    run it with stores that wait in a buffer and loads that may be stale, which
    only [__sync_synchronize] orders.  The theorems: after [start] the timer
    handler of [kernelvec.S] finds all it needs and asks for the next tick one
    interval later; and every call of [main], on every hart, finds initialized
    what it relies on, with every hart able to reach the scheduler. *)

From stdpp Require Import finite.
From S2P Require Import Prelude Layout Riscv.

Definition NCPU : Z := 8.
Definition CLINT : Z := 0x2000000.
Definition CLINT_MTIMECMP (hartid : Z) : Z := CLINT + 0x4000 + 8 * hartid.
Definition CLINT_MTIME : Z := CLINT + 0xBFF8.

Section Start.
(** The addresses of [main], [timervec] and [timer_scratch]. *)
Context (main_addr timervec_addr timer_scratch : Z).

Definition read64 (a : Z) : M mach Z := gets (fun m => load64 (mem m) a).
Definition write64 (a v : Z) : M mach unit := modify (fun m => set_memory (store64 a v (mem m)) m).

Definition interval : Z := 1000000.

(** [&timer_scratch[id][0]] *)
Definition scratch_of (id : Z) : Z := timer_scratch + 8 * 5 * id.

Definition timerinit : M mach unit :=
  x <- r_mhartid ;;
  let id := s32 x in
  now <- read64 CLINT_MTIME ;;
  write64 (CLINT_MTIMECMP id) (u64 (now + interval)) ;;
  let scratch := scratch_of id in
  write64 (scratch + 8 * 3) (CLINT_MTIMECMP id) ;;
  write64 (scratch + 8 * 4) interval ;;
  w_mscratch scratch ;;
  w_mtvec timervec_addr ;;
  x <- r_mstatus ;;
  w_mstatus (Z.lor x MSTATUS_MIE) ;;
  x <- r_mie ;;
  w_mie (Z.lor x MIE_MTIE).

(** Up to the [mret]. *)
Definition start : M mach unit :=
  x <- r_mstatus ;;
  let x := Z.land x (Z.lnot MSTATUS_MPP_MASK) in
  let x := Z.lor x MSTATUS_MPP_S in
  w_mstatus x ;;
  w_mepc main_addr ;;
  w_satp 0 ;;
  w_medeleg 0xffff ;;
  w_mideleg 0xffff ;;
  x <- r_sie ;;
  w_sie (Z.lor (Z.lor (Z.lor x SIE_SEIE) SIE_STIE) SIE_SSIE) ;;
  w_pmpaddr0 0x3fffffffffffff ;;
  w_pmpcfg0 0xf ;;
  timerinit ;;
  x <- r_mhartid ;;
  w_tp (s32 x).

End Start.

(** ** kernel/main.c *)

(** The calls of [main], in the order of the file; [await_started] is the loop
    of the harts other than 0, [set_started] the store [started = 1],
    [synchronize] is [__sync_synchronize]. *)
Inductive init_call : Type :=
| consoleinit | printfinit | printf | kinit | kvminit | kvminithart | procinit | trapinit
| trapinithart | plicinit | plicinithart | binit | iinit | fileinit | virtio_disk_init | userinit
| synchronize | set_started | await_started | scheduler.

Definition main0 : list init_call :=
  [consoleinit; printfinit; printf; printf; printf; kinit; kvminit; kvminithart; procinit; trapinit;
   trapinithart; plicinit; plicinithart; binit; iinit; fileinit; virtio_disk_init; userinit;
   synchronize; set_started; scheduler].
Definition main_other : list init_call :=
  [await_started; synchronize; printf; kvminithart; trapinithart; plicinithart; scheduler].

(** [if(cpuid() == 0)] *)
Definition calls_of (h : nat) : list init_call := if decide (h = 0%nat) then main0 else main_other.

(** The shared data that has to be initialized: the console and its driver, the
    device switch, the lock of [printf], the page allocator, the kernel page
    table, the process table with its locks, [tickslock], the priorities of the
    interrupt controller, the buffer cache, the inode table, the disk and its
    queue, the first process, and [started]. *)
Inductive region : Type :=
| r_cons | r_uart | r_devsw | r_pr | r_kmem | r_kernel_pagetable | r_proc | r_tickslock | r_plic
| r_bcache | r_itable | r_disk | r_initproc | r_started.
#[global] Instance region_eq_dec : EqDecision region.
Proof. solve_decision. Defined.
#[global, program] Instance region_finite : Finite region :=
  {| enum := [r_cons; r_uart; r_devsw; r_pr; r_kmem; r_kernel_pagetable; r_proc; r_tickslock; r_plic;
              r_bcache; r_itable; r_disk; r_initproc; r_started] |}.
Next Obligation. by apply (bool_decide_unpack _). Qed.
Next Obligation. by intros []; apply (bool_decide_unpack _). Qed.

(** What each hart has to set up of its own: the page table register, the trap
    vector, and its context of the interrupt controller. *)
Inductive hartreg : Type := h_satp | h_stvec | h_senable.
#[global] Instance hartreg_eq_dec : EqDecision hartreg.
Proof. solve_decision. Defined.

(** What a call initializes.  [fileinit] has an empty body. *)
Definition writes (c : init_call) : list region :=
  match c with
  | consoleinit => [r_cons; r_uart; r_devsw]
  | printfinit => [r_pr]
  | kinit => [r_kmem]
  | kvminit => [r_kernel_pagetable]
  | procinit => [r_proc]
  | trapinit => [r_tickslock]
  | plicinit => [r_plic]
  | binit => [r_bcache]
  | iinit => [r_itable]
  | virtio_disk_init => [r_disk]
  | userinit => [r_initproc]
  | set_started => [r_started]
  | _ => []
  end.

(** What the scheduler relies on: it turns interrupts on and runs processes,
    which may make any system call. *)
Definition kernel_data : list region :=
  [r_cons; r_uart; r_devsw; r_pr; r_kmem; r_kernel_pagetable; r_proc; r_tickslock; r_plic; r_bcache;
   r_itable; r_disk; r_initproc].

(** What a call uses that another one initializes: [printf] takes [pr.lock] and
    writes to the serial port; [kvminit], [virtio_disk_init] and [userinit]
    allocate pages; [userinit] takes a slot of the process table. *)
Definition reads (c : init_call) : list region :=
  match c with
  | printf => [r_pr; r_uart]
  | kvminit | virtio_disk_init => [r_kmem]
  | kvminithart => [r_kernel_pagetable]
  | userinit => [r_proc; r_kmem]
  | scheduler => kernel_data
  | _ => []
  end.

Definition sets (c : init_call) : list hartreg :=
  match c with
  | kvminithart => [h_satp] | trapinithart => [h_stvec] | plicinithart => [h_senable] | _ => []
  end.
Definition uses (c : init_call) : list hartreg :=
  match c with scheduler => [h_satp; h_stvec; h_senable] | _ => [] end.

(** Memory is not sequentially consistent: the stores of a hart wait in
    [b_pending] and reach [b_memory] in any order, and what a hart has seen of
    the memory, [b_view], grows in any order too. *)
Record boot : Type := {
  b_pc : nat -> nat;               (** the number of calls the hart has made *)
  b_pending : nat -> gset region;
  b_memory : gset region;
  b_view : nat -> gset region;
  b_regs : nat -> list hartreg;
}.

Definition boot0 : boot :=
  {| b_pc _ := 0%nat; b_pending _ := ∅; b_memory := ∅; b_view _ := ∅; b_regs _ := [] |}.

Definition at_hart {A} (h : nat) (v : A) (f : nat -> A) (h' : nat) : A :=
  if decide (h' = h) then v else f h'.

Definition next_call (b : boot) (h : nat) : option init_call := calls_of h !! b_pc b h.

(** When the hart gets past the call: the loop ends once [started] is seen, the
    barrier waits for the hart's own stores, the scheduler does not return. *)
Definition passes (c : init_call) (h : nat) (b : boot) : Prop :=
  match c with
  | await_started => r_started ∈ b_view b h
  | synchronize => b_pending b h = ∅
  | scheduler => False
  | _ => True
  end.

(** What the call does.  After the barrier the hart sees the whole memory. *)
Definition make_call (c : init_call) (h : nat) (b : boot) : boot :=
  {| b_pc := at_hart h (S (b_pc b h)) (b_pc b);
     b_pending := at_hart h (b_pending b h ∪ list_to_set (writes c)) (b_pending b);
     b_memory := b_memory b;
     b_view := at_hart h (b_view b h ∪ list_to_set (writes c) ∪
       match c with synchronize => b_memory b | _ => ∅ end) (b_view b);
     b_regs := at_hart h (sets c ++ b_regs b h) (b_regs b) |}.

(** A store of the hart reaches memory. *)
Definition drain (h : nat) (r : region) (b : boot) : boot :=
  {| b_pc := b_pc b; b_pending := at_hart h (b_pending b h ∖ {[r]}) (b_pending b);
     b_memory := {[r]} ∪ b_memory b; b_view := b_view b; b_regs := b_regs b |}.
(** The hart sees what is in memory. *)
Definition notice (h : nat) (r : region) (b : boot) : boot :=
  {| b_pc := b_pc b; b_pending := b_pending b; b_memory := b_memory b;
     b_view := at_hart h ({[r]} ∪ b_view b h) (b_view b); b_regs := b_regs b |}.

(** One step of one hart; the harts run in any order. *)
Inductive boot_step (b : boot) : boot -> Prop :=
| bs_call h c : next_call b h = Some c -> passes c h b -> boot_step b (make_call c h b)
| bs_drain h r : r ∈ b_pending b h -> boot_step b (drain h r b)
| bs_notice h r : r ∈ b_memory b -> boot_step b (notice h r b).

(** ** [start] and the timer *)

Section StartSpec.
Context (main_addr timervec_addr timer_scratch : Z).

(** The memory [timerinit] leaves. *)
Definition timer_mem (id : Z) (b : gmap Z Z) : gmap Z Z :=
  store64 (scratch_of timer_scratch id + 8 * 4) interval
    (store64 (scratch_of timer_scratch id + 8 * 3) (CLINT_MTIMECMP id)
      (store64 (CLINT_MTIMECMP id) (u64 (load64 b CLINT_MTIME + interval)) b)).

(** The state [start] reaches. *)
Record started (id : Z) (m m1 : mach) : Prop := {
  sd_mpp : Z.testbit (csrs m1 mstatus) 11 = true /\ Z.testbit (csrs m1 mstatus) 12 = false;
  sd_mie : Z.testbit (csrs m1 mstatus) 3 = true /\ Z.testbit (csrs m1 mie) 7 = true;
  sd_sie : Z.testbit (csrs m1 sie) 9 = true /\ Z.testbit (csrs m1 sie) 5 = true /\ Z.testbit (csrs m1 sie) 1 = true;
  sd_mepc : csrs m1 mepc = u64 main_addr;
  sd_satp : csrs m1 satp = 0;
  sd_deleg : csrs m1 medeleg = 0xffff /\ csrs m1 mideleg = 0xffff;
  sd_pmp : csrs m1 pmpaddr0 = 0x3fffffffffffff /\ csrs m1 pmpcfg0 = 0xf;
  sd_mtvec : csrs m1 mtvec = u64 timervec_addr;
  sd_mscratch : csrs m1 mscratch = u64 (scratch_of timer_scratch id);
  sd_tp : regs m1 tp = u64 id;
  sd_regs : forall r, r <> tp -> regs m1 r = regs m r;
  sd_mem : mem m1 = timer_mem id (mem m);
  sd_mode : mach_m m1 = mach_m m;
}.

Lemma u64_bit x n : 0 <= n < 64 -> Z.testbit (u64 x) n = Z.testbit x n.
Proof. intros Hn. unfold u64. by rewrite Z.mod_pow2_bits_low by lia. Qed.

Ltac csr_tac := repeat (rewrite upd_eq || rewrite upd_ne by done).

(** A bit set by an [or], through what comes after. *)
Lemma lor_bit x y n : 0 <= n < 64 -> Z.testbit y n = true -> Z.testbit (u64 (Z.lor x y)) n = true.
Proof. intros Hn Hy. rewrite u64_bit, Z.lor_spec, Hy by done. apply orb_true_r. Qed.
Lemma lor_bit_l x y n : 0 <= n < 64 -> Z.testbit x n = true -> Z.testbit (u64 (Z.lor x y)) n = true.
Proof. intros Hn Hx. by rewrite u64_bit, Z.lor_spec, Hx by done. Qed.
Lemma lor_bit_ne x y n b : 0 <= n < 64 -> Z.testbit x n = b -> Z.testbit y n = false -> Z.testbit (u64 (Z.lor x y)) n = b.
Proof. intros Hn Hx Hy. rewrite u64_bit, Z.lor_spec, Hx, Hy by done. apply orb_false_r. Qed.

Lemma start_wp m :
  wp (start main_addr timervec_addr timer_scratch)
    (fun _ m1 => started (s32 (csrs m mhartid)) m m1) m.
Proof.
  unfold start, timerinit. repeat (apply wp_bind || apply wp_gets || apply wp_modify).
  cbn [csrs regs mem mach_m set_ctl set_reg set_memory set_csr set_tp get_csr mach_csrs].
  split; cbn [csrs regs mem mach_m set_ctl set_reg set_memory set_csr set_tp get_csr mach_csrs]; csr_tac.
  - split.
    + apply lor_bit_l; [lia|]. by apply lor_bit.
    + apply lor_bit_ne; [lia| |done]. apply lor_bit_ne; [lia| |done]. rewrite Z.land_spec, Z.lnot_spec by lia.
      apply andb_false_r.
  - split; by apply lor_bit.
  - split_and!; [|apply lor_bit_l; [lia|]|by apply lor_bit].
    + apply lor_bit_l; [lia|]. rewrite !Z.lor_spec. change (Z.testbit SIE_SEIE 9) with true.
      by rewrite orb_true_r.
    + rewrite Z.lor_spec. change (Z.testbit SIE_STIE 5) with true. apply orb_true_r.
  - reflexivity.
  - reflexivity.
  - done.
  - done.
  - reflexivity.
  - reflexivity.
  - reflexivity.
  - intros r Hr. by rewrite upd_ne by congruence.
  - reflexivity.
  - reflexivity.
Qed.
End StartSpec.

(** After [start] on hart [h], the timer interrupts of this hart come every
    [interval]: the first is asked for at [mtime + interval], and the handler
    [timervec], whenever it runs before the kernel touches its scratch area,
    moves the comparison register one interval on, raises the software
    interrupt and disturbs no register. *)
Theorem start_timer main_addr timervec_addr timer_scratch walk cfun h m :
  0 <= h < NCPU -> csrs m mhartid = h -> mach_m m = true -> (forall r, 0 <= regs m r < 2 ^ 64) ->
  KERNBASE <= timer_scratch <= PHYSTOP -> 0 <= load64 (mem m) CLINT_MTIME < 2 ^ 63 ->
  exists m1, start main_addr timervec_addr timer_scratch m = Ok tt m1 /\
    started main_addr timervec_addr timer_scratch h m m1 /\
    load64 (mem m1) (CLINT_MTIMECMP h) = load64 (mem m) CLINT_MTIME + interval /\
    let m2 := run walk cfun timervec m1 in
    (forall r, regs m2 r = regs m1 r) /\ csrs m2 sip = 2 /\ csrs m2 mscratch = csrs m1 mscratch /\
    load64 (mem m2) (CLINT_MTIMECMP h) = load64 (mem m) CLINT_MTIME + 2 * interval.
Proof.
  intros Hh Hid Hm Hr Hts Hnow. unfold NCPU in Hh.
  destruct (wp_elim _ _ _ (start_wp main_addr timervec_addr timer_scratch m)) as ([] & m1 & E & Hs).
  rewrite Hid, s32_small in Hs by lia. exists m1. split; [exact E|]. split; [exact Hs|].
  change KERNBASE with 0x80000000 in Hts. change PHYSTOP with 0x88000000 in Hts.
  set (sc := scratch_of timer_scratch h). set (c := CLINT_MTIMECMP h). set (now := load64 (mem m) CLINT_MTIME) in *.
  assert (Hsc : 0x80000000 <= sc < 0x89000000) by (unfold sc, scratch_of; lia).
  assert (Hc : 0x2004000 <= c < 0x2005000) by (unfold c, CLINT_MTIMECMP, CLINT; lia).
  assert (Em : csrs m1 mscratch = sc) by (rewrite (sd_mscratch _ _ _ _ _ _ Hs); apply u64_small; unfold sc in *; lia).
  assert (Hl : load64 (mem m1) c = now + interval /\ load64 (mem m1) (sc + 24) = c /\ load64 (mem m1) (sc + 32) = interval).
  { rewrite (sd_mem _ _ _ _ _ _ Hs). unfold timer_mem. fold sc c now.
    change (8 * 4) with 32. change (8 * 3) with 24. split_and!.
    - rewrite !load_store_apart by (unfold apart; lia). rewrite load_store_u64, !u64_small by (rewrite ?u64_small by (unfold interval; lia); unfold interval; lia). done.
    - rewrite load_store_apart by (unfold apart; lia). apply load_store_same. lia.
    - apply load_store_same. unfold interval. lia. }
  destruct Hl as (Hc1 & Hsc1 & Hi1). split; [exact Hc1|].
  destruct (timervec_ticks walk cfun m1) as (R1 & R2 & R3 & R4 & _); rewrite ?Em, ?Hsc1; try lia.
  - rewrite (sd_mode _ _ _ _ _ _ Hs). exact Hm.
  - intros r. destruct (decide (r = tp)) as [->|Hne]; [|rewrite (sd_regs _ _ _ _ _ _ Hs) by done; apply Hr].
    rewrite (sd_tp _ _ _ _ _ _ Hs). apply u64_range.
  - rewrite Em, Hsc1, Hi1, Hc1 in R4. cbv zeta. split; [exact R1|]. split; [exact R3|].
    split; [by rewrite R2|]. rewrite R4, u64_small by (unfold interval; lia). lia.
Qed.

(** ** The order of start-up *)

Notation reachable := (rtc boot_step boot0).

(** What a list of calls has initialized. *)
Definition written (l : list init_call) : list region := l ≫= writes.
Definition set_up (l : list init_call) : list hartreg := l ≫= sets.

Lemma calls_of_0 : calls_of 0 = main0.
Proof. done. Qed.
Lemma calls_of_other h : h <> 0%nat -> calls_of h = main_other.
Proof. intros. by apply decide_False. Qed.

Lemma at_hart_eq {A} h (v : A) f : at_hart h v f h = v.
Proof. by apply decide_True. Qed.
Lemma at_hart_ne {A} h h' (v : A) f : h' <> h -> at_hart h v f h' = f h'.
Proof. intros. by apply decide_False. Qed.

(** Hart 0 has seen its own stores, and they are on their way; after its barrier
    they have arrived.  Nobody else stores anything, or sees [started] before
    the rest has arrived. *)
Record boot_inv (b : boot) : Prop := {
  bi_pc : forall h, (b_pc b h < length (calls_of h))%nat;
  bi_own : list_to_set (written (take (b_pc b 0%nat) main0)) ⊆ b_view b 0%nat;
  bi_way : list_to_set (written (take (b_pc b 0%nat) main0)) ⊆ b_memory b ∪ b_pending b 0%nat;
  bi_fence : (19 <= b_pc b 0%nat)%nat -> list_to_set kernel_data ⊆ b_memory b;
  bi_started : r_started ∈ b_memory b ∪ b_pending b 0%nat -> (19 <= b_pc b 0%nat)%nat;
  bi_quiet : forall h, h <> 0%nat -> b_pending b h = ∅;
  bi_seen : forall h, h <> 0%nat -> b_view b h ⊆ b_memory b;
  bi_loop : forall h, h <> 0%nat -> (1 <= b_pc b h)%nat -> (19 <= b_pc b 0%nat)%nat;
  bi_all : forall h, h <> 0%nat -> (2 <= b_pc b h)%nat -> list_to_set kernel_data ⊆ b_view b h;
  bi_regs : forall h, set_up (take (b_pc b h) (calls_of h)) ⊆ b_regs b h;
}.

Lemma boot0_inv : boot_inv boot0.
Proof.
  split; cbn [boot0 b_pc b_pending b_memory b_view b_regs]; try set_solver by lia.
  intros h. unfold calls_of. destruct (decide _); cbn; lia.
Qed.

(** Facts about the two lists of calls. *)
Lemma main0_reads n c : main0 !! n = Some c -> reads c ⊆ written (take n main0).
Proof.
  do 21 (destruct n as [|n]; [intros [= <-]; apply (bool_decide_unpack _); vm_compute; exact I|]).
  discriminate.
Qed.
Lemma main_other_reads n c :
  main_other !! n = Some c -> reads c ⊆ kernel_data /\ (n < 2 -> reads c = [])%nat.
Proof.
  do 7 (destruct n as [|n]; [intros [= <-]; split; [apply (bool_decide_unpack _); vm_compute; exact I|
    intros; first [reflexivity | lia]]|]). discriminate.
Qed.
Lemma main0_uses n c : main0 !! n = Some c -> uses c ⊆ set_up (take n main0).
Proof.
  do 21 (destruct n as [|n]; [intros [= <-]; apply (bool_decide_unpack _); vm_compute; exact I|]).
  discriminate.
Qed.
Lemma main_other_uses n c : main_other !! n = Some c -> uses c ⊆ set_up (take n main_other).
Proof.
  do 7 (destruct n as [|n]; [intros [= <-]; apply (bool_decide_unpack _); vm_compute; exact I|]).
  discriminate.
Qed.
Lemma main_other_writes n c : main_other !! n = Some c -> writes c = [].
Proof. do 7 (destruct n as [|n]; [intros [= <-]; reflexivity|]). discriminate. Qed.

Lemma main0_fence n : main0 !! n = Some synchronize -> n = 18%nat.
Proof. do 21 (destruct n as [|n]; [try discriminate; reflexivity|]). discriminate. Qed.
Lemma main0_started n c : main0 !! n = Some c -> r_started ∈ writes c -> n = 19%nat.
Proof.
  do 21 (destruct n as [|n]; [intros [= <-] Hin; first [reflexivity | exfalso; revert Hin;
    apply (bool_decide_unpack _); vm_compute; exact I]|]). discriminate.
Qed.
Lemma main0_await n c : main0 !! n = Some c -> c <> await_started.
Proof. do 21 (destruct n as [|n]; [intros [= <-]; discriminate|]). discriminate. Qed.
Lemma written_18 : kernel_data ⊆ written (take 18 main0).
Proof. apply (bool_decide_unpack _). vm_compute. exact I. Qed.

Lemma written_S l n c : l !! n = Some c -> written (take (S n) l) = written (take n l) ++ writes c.
Proof. intros H. unfold written. by rewrite (take_S_r _ _ _ H), bind_app, bind_singleton. Qed.
Lemma set_up_S l n c : l !! n = Some c -> set_up (take (S n) l) = set_up (take n l) ++ sets c.
Proof. intros H. unfold set_up. by rewrite (take_S_r _ _ _ H), bind_app, bind_singleton. Qed.

(** Every list of calls ends with the scheduler. *)
Lemma calls_last h n c : calls_of h !! n = Some c -> c <> scheduler -> (S n < length (calls_of h))%nat.
Proof.
  unfold calls_of. destruct (decide _).
  - do 21 (destruct n as [|n]; [intros [= <-] Hc; first [by destruct Hc | cbn; lia]|]). discriminate.
  - do 7 (destruct n as [|n]; [intros [= <-] Hc; first [by destruct Hc | cbn; lia]|]). discriminate.
Qed.

Lemma regs_call b h c :
  next_call b h = Some c -> (forall h', set_up (take (b_pc b h') (calls_of h')) ⊆ b_regs b h') ->
  forall h', set_up (take (b_pc (make_call c h b) h') (calls_of h')) ⊆ b_regs (make_call c h b) h'.
Proof.
  intros Hc Hr h'. cbn [make_call b_pc b_regs]. specialize (Hr h'). destruct (decide (h' = h)) as [->|Hne].
  - rewrite !at_hart_eq, (set_up_S _ _ _ Hc). set_solver.
  - by rewrite !at_hart_ne.
Qed.

Lemma pc_call b h c :
  next_call b h = Some c -> c <> scheduler -> (forall h', b_pc b h' < length (calls_of h'))%nat ->
  forall h', (b_pc (make_call c h b) h' < length (calls_of h'))%nat.
Proof.
  intros Hc Hs Hp h'. cbn [make_call b_pc]. destruct (decide (h' = h)) as [->|Hne].
  - rewrite at_hart_eq. by eapply calls_last.
  - by rewrite at_hart_ne.
Qed.

Lemma call_inv_0 b c :
  boot_inv b -> next_call b 0 = Some c -> passes c 0 b -> boot_inv (make_call c 0 b).
Proof.
  intros I Hc Hp. assert (c <> scheduler) by (by intros ->).
  pose proof (regs_call _ _ _ Hc (bi_regs _ I)). pose proof (pc_call _ _ _ Hc ltac:(done) (bi_pc _ I)).
  assert (Hc' : main0 !! b_pc b 0%nat = Some c) by exact Hc.
  split; cbn [make_call b_pc b_pending b_memory b_view b_regs]; rewrite ?at_hart_eq; try done.
  - rewrite (written_S _ _ _ Hc'), list_to_set_app_L. pose proof (bi_own _ I) as Ho. clear -Ho. set_solver.
  - rewrite (written_S _ _ _ Hc'), list_to_set_app_L. pose proof (bi_way _ I) as Hy. clear -Hy. set_solver.
  - intros Hn. destruct (decide (19 <= b_pc b 0)%nat); [by apply I|]. assert (Hn' : b_pc b 0%nat = 18%nat) by lia.
    rewrite Hn' in Hc'. injection Hc' as <-. pose proof (bi_way _ I) as Hy. cbn in Hp.
    rewrite Hp, Hn' in Hy. pose proof written_18 as Hk. intros x Hx. apply elem_of_list_to_set, Hk in Hx.
    specialize (Hy x). rewrite elem_of_list_to_set in Hy. specialize (Hy Hx). clear -Hy.
    set_solver.
  - intros Hs. destruct (decide (r_started ∈ writes c)) as [Hw|Hw].
    + rewrite (main0_started _ _ Hc' Hw). lia.
    + assert (19 <= b_pc b 0%nat)%nat by (apply (bi_started _ I); clear -Hs Hw; set_solver). lia.
  - intros h Hh. rewrite at_hart_ne by done. by apply I.
  - intros h Hh. rewrite at_hart_ne by done. by apply I.
  - intros h Hh. rewrite at_hart_ne by done. intros Hn. pose proof (bi_loop _ I h Hh Hn). lia.
  - intros h Hh. rewrite !at_hart_ne by done. by apply I.
Qed.

Lemma call_inv_other b h c :
  h <> 0%nat -> boot_inv b -> next_call b h = Some c -> passes c h b -> boot_inv (make_call c h b).
Proof.
  intros Hh I Hc Hp. assert (c <> scheduler) by (by intros ->).
  pose proof (regs_call _ _ _ Hc (bi_regs _ I)). pose proof (pc_call _ _ _ Hc ltac:(done) (bi_pc _ I)).
  assert (Hc' : main_other !! b_pc b h = Some c) by (by rewrite <- (calls_of_other h)).
  pose proof (main_other_writes _ _ Hc') as Hw. pose proof (bi_seen _ I h Hh) as Hv.
  split; cbn [make_call b_pc b_pending b_memory b_view b_regs];
    rewrite ?Hw, ?(at_hart_ne h 0) by done; try done; try apply I; intros h' Hh';
    (destruct (decide (h' = h)) as [->|Hne]; [rewrite !at_hart_eq|rewrite !at_hart_ne by done; by apply I]).
  - rewrite (bi_quiet _ I) by done. clear. set_solver.
  - clear -Hv. destruct c; set_solver.
  - intros _. destruct (decide (1 <= b_pc b h)%nat); [by eapply (bi_loop _ I)|].
    assert (Hn : b_pc b h = 0%nat) by lia. rewrite Hn in Hc'. injection Hc' as <-. cbn in Hp.
    apply (bi_started _ I). clear -Hv Hp. set_solver.
  - intros Hn. destruct (decide (2 <= b_pc b h)%nat).
    + pose proof (bi_all _ I h Hh ltac:(done)) as Ha. revert Ha. clear. generalize kernel_data. set_solver.
    + assert (Hn' : b_pc b h = 1%nat) by lia. rewrite Hn' in Hc'. injection Hc' as <-.
      pose proof (bi_fence _ I (bi_loop _ I h Hh ltac:(lia))) as Hf. revert Hf. clear. generalize kernel_data. set_solver.
Qed.

Lemma drain_inv b h r : boot_inv b -> r ∈ b_pending b h -> boot_inv (drain h r b).
Proof.
  intros I Hr. destruct (decide (h = 0%nat)) as [->|Hh]; [|by rewrite (bi_quiet _ I h Hh) in Hr].
  split; cbn [drain b_pc b_pending b_memory b_view b_regs]; rewrite ?at_hart_eq; try apply I.
  - intros x Hx. pose proof (bi_way _ I x Hx) as Hy. clear -Hy. destruct (decide (x = r)); set_solver.
  - intros Hn. pose proof (bi_fence _ I Hn) as Hf. revert Hf. clear. generalize kernel_data. set_solver.
  - intros Hs. apply (bi_started _ I). clear -Hs Hr. set_solver.
  - intros h Hh. rewrite at_hart_ne by done. by apply I.
  - intros h Hh. pose proof (bi_seen _ I h Hh) as Hv. clear -Hv. set_solver.
Qed.

Lemma notice_inv b h r : boot_inv b -> r ∈ b_memory b -> boot_inv (notice h r b).
Proof.
  intros I Hr. split; cbn [notice b_pc b_pending b_memory b_view b_regs]; try apply I.
  - pose proof (bi_own _ I) as Ho. unfold at_hart. destruct (decide _) as [<-|]; [|done].
    clear -Ho. set_solver.
  - intros h' Hh'. pose proof (bi_seen _ I h' Hh') as Hv. unfold at_hart. destruct (decide _) as [->|]; [|done].
    clear -Hv Hr. set_solver.
  - intros h' Hh' Hn. pose proof (bi_all _ I h' Hh' Hn) as Ha. unfold at_hart. destruct (decide _) as [->|]; [|done].
    revert Ha. clear. generalize kernel_data. set_solver.
Qed.

Lemma boot_step_inv b b' : boot_inv b -> boot_step b b' -> boot_inv b'.
Proof.
  intros I [h c Hc Hp|h r Hr|h r Hr].
  - destruct (decide (h = 0%nat)) as [->|]; [by apply call_inv_0|by apply call_inv_other].
  - by apply drain_inv.
  - by apply notice_inv.
Qed.

Lemma boot_run_inv b b' : boot_inv b -> rtc boot_step b b' -> boot_inv b'.
Proof. intros I Hs. induction Hs; eauto using boot_step_inv. Qed.

(** ** Progress *)

(** The stores of a hart can all reach memory. *)
Lemma drain_all h b : exists b', rtc boot_step b b' /\ b_pending b' h = ∅ /\
  b_pc b' = b_pc b /\ b_view b' = b_view b.
Proof.
  remember (size (b_pending b h)) as n eqn:En. revert b En.
  induction (lt_wf n) as [n _ IH]. intros b ->.
  destruct (set_choose_or_empty (b_pending b h)) as [[r Hr]|He].
  - destruct (IH (size (b_pending (drain h r b) h))) with (b := drain h r b) as (b' & Hs & Hp & Hc & Hv); [|done|].
    + cbn [drain b_pending]. rewrite at_hart_eq. apply subset_size. set_solver.
    + exists b'. split; [eapply rtc_l; [by apply (bs_drain _ h r)|exact Hs]|]. done.
  - exists b. split; [done|]. split; [by apply leibniz_equiv|done].
Qed.

(** A hart can make its next call, unless it waits or has reached the scheduler. *)
Lemma next_call_runs h b c :
  next_call b h = Some c -> c <> scheduler -> (c = await_started -> r_started ∈ b_view b h) ->
  exists b', rtc boot_step b b' /\ b_pc b' h = S (b_pc b h).
Proof.
  intros Hc Hs Hw. destruct (drain_all h b) as (b1 & Hr & Hp & Epc & Ev).
  exists (make_call c h b1). split.
  - eapply rtc_r; [exact Hr|]. apply bs_call; [unfold next_call; by rewrite Epc|].
    destruct c; cbn; rewrite ?Ev; auto.
  - cbn [make_call b_pc]. by rewrite at_hart_eq, Epc.
Qed.

(** Past its loop, a hart can reach the scheduler. *)
Lemma hart_runs h n b :
  boot_inv b -> (length (calls_of h) = S (b_pc b h + n))%nat ->
  (h <> 0%nat -> 1 <= b_pc b h)%nat ->
  exists b', rtc boot_step b b' /\ next_call b' h = Some scheduler.
Proof.
  revert b. induction n as [|n IH]; intros b I Hl Hn.
  - exists b. split; [done|]. unfold next_call, calls_of in *. destruct (decide _).
    + by replace (b_pc b h) with 20%nat by (cbn in Hl; lia).
    + by replace (b_pc b h) with 6%nat by (cbn in Hl; lia).
  - destruct (lookup_lt_is_Some_2 (calls_of h) (b_pc b h)) as [c Hc]; [lia|].
    assert (Hs : c <> scheduler /\ c <> await_started).
    { unfold calls_of in *. destruct (decide (h = 0%nat)).
      - assert (Hk : (b_pc b h < 20)%nat) by (cbn in Hl; lia). revert Hk Hc. clear. generalize (b_pc b h).
        intros k Hk. do 20 (destruct k as [|k]; [intros [= <-]; done|]). lia.
      - specialize (Hn ltac:(done)). assert (Hk : (b_pc b h < 6)%nat) by (cbn in Hl; lia). revert Hn Hk Hc. clear.
        generalize (b_pc b h). intros k Hn Hk. destruct k as [|k]; [lia|].
        do 5 (destruct k as [|k]; [intros [= <-]; done|]). lia. }
    destruct (next_call_runs h b c Hc) as (b1 & Hr & Epc); [apply Hs|by intros ->; destruct Hs|].
    destruct (IH b1) as (b' & Hr' & Hc'); [by eapply boot_run_inv|lia|lia|].
    exists b'. split; [by etrans|done].
Qed.

Lemma hart0_runs b : boot_inv b -> exists b', rtc boot_step b b' /\ next_call b' 0 = Some scheduler.
Proof.
  intros I. pose proof (bi_pc _ I 0%nat). apply (hart_runs 0 (length main0 - S (b_pc b 0%nat))); [done| |done].
  change (calls_of 0) with main0 in *. lia.
Qed.

(** Once hart 0 is in the scheduler, another hart can see [started]. *)
Lemma other_leaves h b :
  h <> 0%nat -> boot_inv b -> next_call b 0 = Some scheduler ->
  exists b', rtc boot_step b b' /\ (1 <= b_pc b' h)%nat.
Proof.
  intros Hh I H0. destruct (decide (1 <= b_pc b h)%nat); [by exists b|].
  destruct (drain_all 0 b) as (b1 & Hr & Hp & Epc & Ev). pose proof (boot_run_inv _ _ I Hr) as I1.
  assert (Hn0 : b_pc b1 0%nat = 20%nat).
  { rewrite Epc. unfold next_call in H0. revert H0. change (calls_of 0) with main0. generalize (b_pc b 0%nat).
    intros k. do 21 (destruct k as [|k]; [try discriminate; reflexivity|]). discriminate. }
  assert (Hm : r_started ∈ b_memory b1).
  { pose proof (bi_way _ I1 r_started) as Hw. rewrite Hn0, Hp, elem_of_list_to_set in Hw.
    rewrite elem_of_union in Hw. destruct Hw as [?|Hw]; [|done|by apply elem_of_empty in Hw].
    apply (bool_decide_unpack _). vm_compute. exact Logic.I. }
  destruct (next_call_runs h (notice h r_started b1) await_started) as (b2 & Hr2 & Ep2); [|done| |].
  - unfold next_call. cbn [notice b_pc]. rewrite calls_of_other, Epc by done. by replace (b_pc b h) with 0%nat by lia.
  - intros _. cbn [notice b_view]. rewrite at_hart_eq. set_solver.
  - exists b2. split; [|lia]. etrans; [exact Hr|]. eapply rtc_l; [by apply (bs_notice _ h r_started)|exact Hr2].
Qed.

Lemma reaches_scheduler h b : boot_inv b -> exists b', rtc boot_step b b' /\ next_call b' h = Some scheduler.
Proof.
  intros I. destruct (decide (h = 0%nat)) as [->|Hh]; [by apply hart0_runs|].
  destruct (hart0_runs b I) as (b1 & Hr1 & Hc1). pose proof (boot_run_inv _ _ I Hr1) as I1.
  destruct (other_leaves h b1 Hh I1 Hc1) as (b2 & Hr2 & Hn). pose proof (boot_run_inv _ _ I1 Hr2) as I2.
  pose proof (bi_pc _ I2 h). destruct (hart_runs h (length (calls_of h) - S (b_pc b2 h)) b2 I2) as (b3 & Hr3 & Hc3); [lia|done|].
  exists b3. split; [|done]. etrans; [exact Hr1|]. by etrans.
Qed.

(** When a hart makes a call, it has seen what the call relies on. *)
Lemma call_ready b h c :
  boot_inv b -> next_call b h = Some c ->
  list_to_set (reads c) ⊆ b_view b h /\ uses c ⊆ b_regs b h.
Proof.
  intros I Hc. pose proof (bi_regs _ I h) as Hr. destruct (decide (h = 0%nat)) as [->|Hh].
  - change (calls_of 0) with main0 in *. split; [|by etrans; [eapply main0_uses|]].
    pose proof (bi_own _ I) as Ho. pose proof (main0_reads _ _ Hc) as Hd. revert Ho Hd. clear.
    generalize (written (take (b_pc b 0%nat) main0)). set_solver.
  - unfold next_call in Hc. rewrite calls_of_other in * by done.
    split; [|by etrans; [eapply main_other_uses|]].
    destruct (main_other_reads _ _ Hc) as [Hd H2]. destruct (decide (b_pc b h < 2)%nat) as [Hn|Hn].
    + rewrite H2 by done. set_solver.
    + pose proof (bi_all _ I h Hh ltac:(lia)) as Ha. revert Ha Hd. clear. generalize kernel_data. set_solver.
Qed.

(** Claim C39: start-up on a machine whose stores and loads may be reordered
    between barriers.  Whatever the harts do, each calls an initialization
    routine, [printf], or the scheduler, only when it has seen the
    initialization of the data the call relies on, and enters the scheduler with
    its page table, trap vector and interrupt context set; and from every
    reachable state every hart can get to the scheduler. *)
Theorem boot_initialized b h :
  reachable b ->
  (forall c, next_call b h = Some c -> list_to_set (reads c) ⊆ b_view b h /\ uses c ⊆ b_regs b h) /\
  exists b', rtc boot_step b b' /\ next_call b' h = Some scheduler.
Proof.
  intros Hr. pose proof (boot_run_inv _ _ boot0_inv Hr) as I.
  split; [intros c; by apply call_ready|by apply reaches_scheduler].
Qed.

(** Hart 0 initializes the console while its stores are still on their way. *)
Lemma boot_initialized_witness :
  (forall c, next_call (make_call consoleinit 0 boot0) 0 = Some c ->
    list_to_set (reads c) ⊆ b_view (make_call consoleinit 0 boot0) 0%nat /\
    uses c ⊆ b_regs (make_call consoleinit 0 boot0) 0%nat) /\
  exists b', rtc boot_step (make_call consoleinit 0 boot0) b' /\ next_call b' 0 = Some scheduler.
Proof.
  apply boot_initialized. eapply rtc_l; [|apply rtc_refl]. apply (bs_call boot0 0 consoleinit); [reflexivity|exact I].
Defined.
