(* ===== verification/PageTable.v ===== *)
(** * Page tables as trees

    The invariant [ptok] of a page table under construction, with a ghost map
    [G] from table pages to the indices that lead to them, and what [walk],
    [mappages] and [uvmunmap] do to the mapping that a page table stands for. *)

From S2P Require Import Prelude Layout Kalloc UserMem Vm.
Import Vm.

(** ** Bit fields *)

Lemma PX_div level va :
  0 <= level -> 0 <= va -> PX level va = (va / 2 ^ (12 + 9 * level)) mod 512.
Proof.
  intros Hl Hv. unfold PX, PXSHIFT, PGSHIFT, PXMASK. change 0x1FF with (Z.ones 9).
  rewrite Z.land_ones, Z.shiftr_div_pow2 by lia. done.
Qed.

Lemma PX_range level va : 0 <= level -> 0 <= va -> 0 <= PX level va < 512.
Proof. intros. rewrite PX_div by done. by apply Z.mod_pos_bound. Qed.

(** An address has 38 bits, so half of the root is not used. *)
Lemma PX_low va : 0 <= va < MAXVA -> PX 2 va < 256.
Proof.
  intros Hva. rewrite PX_div by lia. rewrite MAXVA_val in Hva. change (2 ^ (12 + 9 * 2)) with 1073741824.
  change (2 ^ 38) with 274877906944 in *. Z.to_euclidean_division_equations. lia.
Qed.

(** The address of the page with the given indices. *)
Definition va_of (i j k : Z) : Z := i * 2 ^ 30 + j * 2 ^ 21 + k * 2 ^ 12.

Lemma PX_va_of i j k :
  0 <= i < 256 -> 0 <= j < 512 -> 0 <= k < 512 ->
  0 <= va_of i j k < MAXVA /\ PX 2 (va_of i j k) = i /\ PX 1 (va_of i j k) = j /\ PX 0 (va_of i j k) = k.
Proof.
  intros Hi Hj Hk. unfold va_of.
  assert (0 <= i * 2 ^ 30 + j * 2 ^ 21 + k * 2 ^ 12 < MAXVA) by (rewrite MAXVA_val; lia).
  rewrite !PX_div by lia. change (12 + 9 * 2) with 30. change (12 + 9 * 1) with 21. change (12 + 9 * 0) with 12.
  split; [done|]. change (2 ^ 30) with 1073741824. change (2 ^ 21) with 2097152. change (2 ^ 12) with 4096.
  Z.to_euclidean_division_equations. lia.
Qed.

(** The three indices determine the page. *)
Lemma PX_page va va' :
  0 <= va < MAXVA -> 0 <= va' < MAXVA ->
  PX 2 va = PX 2 va' -> PX 1 va = PX 1 va' -> PX 0 va = PX 0 va' -> page_of va = page_of va'.
Proof.
  rewrite MAXVA_val. intros Hv Hv'. rewrite !PX_div by lia. unfold page_of, PGSIZE.
  change (12 + 9 * 2) with 30. change (12 + 9 * 1) with 21. change (12 + 9 * 0) with 12.
  change (2 ^ 30) with 1073741824. change (2 ^ 21) with 2097152. change (2 ^ 12) with 4096.
  change (2 ^ 38) with 274877906944 in *.
  intros H2 H1 H0. Z.to_euclidean_division_equations. lia.
Qed.

Lemma PX_same va level : 0 <= level -> 0 <= va -> PX level (page_of va) = PX level va.
Proof.
  intros Hl Hv. pose proof (Z.mod_pos_bound va PGSIZE PGSIZE_pos).
  assert (0 <= page_of va) by (unfold page_of; pose proof (Z.mod_le va PGSIZE); lia).
  rewrite !PX_div by lia. f_equal.
  rewrite Z.pow_add_r, <-!Z.div_div by lia. change (2 ^ 12) with PGSIZE. f_equal.
  unfold page_of. pose proof (Z.div_mod va PGSIZE ltac:(done)).
  replace (va - va mod PGSIZE) with (va / PGSIZE * PGSIZE) by lia. by rewrite Z.div_mul.
Qed.

(** Entries and flags. *)
Lemma PA2PTE_val pa : 0 <= pa < 2 ^ 56 -> pa mod PGSIZE = 0 -> PA2PTE pa = pa / PGSIZE * 1024.
Proof.
  intros Hp _. unfold PA2PTE. rewrite Z.shiftl_mul_pow2, Z.shiftr_div_pow2 by lia.
  change (2 ^ 12) with PGSIZE. change (2 ^ 10) with 1024. change (2 ^ 56) with (PGSIZE * 2 ^ 44) in Hp.
  apply u64_small.
  assert (pa / PGSIZE < 2 ^ 44) by (apply Z.div_lt_upper_bound; [done|lia]).
  assert (0 <= pa / PGSIZE) by (apply Z.div_pos; lia). lia.
Qed.

Lemma PTE2PA_lor pa fl :
  0 <= pa < 2 ^ 56 -> pa mod PGSIZE = 0 -> 0 <= fl < 1024 -> PTE2PA (Z.lor (PA2PTE pa) fl) = pa.
Proof.
  intros Hp Ha Hf. rewrite PA2PTE_val by done. unfold PTE2PA. rewrite Z.shiftr_lor.
  rewrite (Z.shiftr_div_pow2 fl), (Z.div_small fl), Z.lor_0_r by (done || lia).
  rewrite Z.shiftr_div_pow2 by lia. change (2 ^ 10) with 1024. rewrite Z.div_mul by done.
  rewrite Z.shiftl_mul_pow2 by lia. change (2 ^ 12) with PGSIZE.
  apply Z.mod_divide in Ha as [q ->]; [|done]. rewrite Z.div_mul by done. apply u64_small.
  unfold PGSIZE in *. lia.
Qed.

(** An entry for a table has none of the flags of a leaf. *)
Lemma PA2PTE_flags pa :
  0 <= pa < 2 ^ 56 -> pa mod PGSIZE = 0 ->
  Z.land (Z.lor (PA2PTE pa) PTE_V) (Z.lor (Z.lor PTE_R PTE_W) PTE_X) = 0.
Proof.
  intros Hp Ha. change (Z.lor (Z.lor PTE_R PTE_W) PTE_X) with (Z.land (Z.ones 10) 14).
  rewrite Z.land_assoc, Z.land_lor_distr_l, Z.land_ones, PA2PTE_val by (done || lia).
  change (2 ^ 10) with 1024. by rewrite Z.mod_mul.
Qed.

Lemma pte_flag_V v : pte_flag (Z.lor v PTE_V) PTE_V = true.
Proof.
  unfold pte_flag. apply negb_true_iff, Z.eqb_neq. intros E.
  assert (Hb : Z.testbit (Z.land (Z.lor v PTE_V) PTE_V) 0 = false) by (rewrite E; apply Z.bits_0).
  rewrite Z.land_spec, Z.lor_spec in Hb. change (Z.testbit PTE_V 0) with true in Hb.
  by rewrite orb_true_r in Hb.
Qed.

Lemma lor_range a b : 0 <= a < 1024 -> 0 <= b < 1024 -> 0 <= Z.lor a b < 1024.
Proof.
  intros Ha Hb. split; [apply Z.lor_nonneg; lia|].
  destruct (decide (Z.lor a b = 0)) as [->|Hne]; [lia|].
  assert (0 < Z.lor a b) by (pose proof (proj2 (Z.lor_nonneg a b)); lia).
  change 1024 with (2 ^ 10). apply Z.log2_lt_pow2; [done|].
  rewrite Z.log2_lor by lia. apply Z.max_lub_lt.
  - destruct (decide (a = 0)) as [->|]; [done|]. apply Z.log2_lt_pow2; lia.
  - destruct (decide (b = 0)) as [->|]; [done|]. apply Z.log2_lt_pow2; lia.
Qed.

(** Two entries of table pages at the same address. *)
Lemma entry_inj t t' i i' :
  t mod PGSIZE = 0 -> t' mod PGSIZE = 0 -> 0 <= i < 512 -> 0 <= i' < 512 ->
  t + 8 * i = t' + 8 * i' -> t = t' /\ i = i'.
Proof.
  intros [q ->]%Z.mod_divide [q' ->]%Z.mod_divide Hi Hi' E; [|done..]. unfold PGSIZE in *. lia.
Qed.

(** ** The tree *)

Record ptok (m : vmem) (pt : Z) (G : gmap Z (list Z)) : Prop := {
  pk_root : G !! pt = Some [];
  pk_page : forall t p, G !! t = Some p ->
    t mod PGSIZE = 0 /\ 0 < t < 2 ^ 56 /\ (length p <= 2)%nat;
  pk_next : forall t p i, G !! t = Some p -> (length p < 2)%nat -> 0 <= i < 512 ->
    pte_flag (pte_at m (t + 8 * i)) PTE_V = true ->
    G !! PTE2PA (pte_at m (t + 8 * i)) = Some (p ++ [i]);
  pk_parent : forall t' p i, G !! t' = Some (p ++ [i]) ->
    exists t, G !! t = Some p /\ 0 <= i < 512 /\
      pte_flag (pte_at m (t + 8 * i)) PTE_V = true /\ PTE2PA (pte_at m (t + 8 * i)) = t';
  pk_root_uniq : forall t, G !! t = Some [] -> t = pt;
  pk_low : forall t i p, G !! t = Some (i :: p) -> i < 256;
  pk_flags : forall t p i, G !! t = Some p -> (length p < 2)%nat -> 0 <= i < 512 ->
    pte_flag (pte_at m (t + 8 * i)) PTE_V = true ->
    Z.land (pte_at m (t + 8 * i)) (Z.lor (Z.lor PTE_R PTE_W) PTE_X) = 0;
}.

Section tree.
Context (m : vmem) (pt : Z) (G : gmap Z (list Z)) (Hok : ptok m pt G).

(** A path leads to one table. *)
Lemma path_table t t' p : G !! t = Some p -> G !! t' = Some p -> t = t'.
Proof.
  revert t t'. induction p as [|i p IH] using rev_ind; intros t t' Ht Ht'.
  - by rewrite (pk_root_uniq _ _ _ Hok t Ht), (pk_root_uniq _ _ _ Hok t' Ht').
  - destruct (pk_parent _ _ _ Hok _ _ _ Ht) as (a & Ha & _ & _ & <-).
    destruct (pk_parent _ _ _ Hok _ _ _ Ht') as (b & Hb & _ & _ & <-).
    by rewrite (IH a b Ha Hb).
Qed.
End tree.

(** The table of level 0 for [va], and the leaf entry of [va] (0 if there is
    no such table). *)
Definition next_table (m : vmem) (t level va : Z) : option Z :=
  let v := pte_at m (pte_addr t level va) in
  if pte_flag v PTE_V then Some (PTE2PA v) else None.
Definition leaf_table (m : vmem) (pt va : Z) : option Z :=
  t1 ← next_table m pt 2 va; next_table m t1 1 va.
Definition leaf_pte (m : vmem) (pt va : Z) : Z :=
  match leaf_table m pt va with
  | Some t => pte_at m (pte_addr t 0 va)
  | None => 0
  end.

Lemma leaf_table_path m pt G va t :
  ptok m pt G -> 0 <= va ->
  leaf_table m pt va = Some t <-> G !! t = Some [PX 2 va; PX 1 va].
Proof.
  intros Hok Hv. pose proof (PX_range 2 va ltac:(lia) Hv). pose proof (PX_range 1 va ltac:(lia) Hv).
  unfold leaf_table, next_table, pte_addr. split.
  - destruct (pte_flag (pte_at m (pt + 8 * PX 2 va)) PTE_V) eqn:E2; [|done]. cbn.
    pose proof (pk_next _ _ _ Hok pt [] (PX 2 va) (pk_root _ _ _ Hok) ltac:(cbn; lia) ltac:(lia) E2) as H2.
    destruct (pte_flag (pte_at m (_ + 8 * PX 1 va)) PTE_V) eqn:E1; [|done]. intros [= <-].
    apply (pk_next _ _ _ Hok _ _ (PX 1 va) H2); [cbn; lia|lia|done].
  - intros Ht. destruct (pk_parent _ _ _ Hok t [PX 2 va] (PX 1 va) Ht) as (t1 & H1 & _ & E1 & P1).
    destruct (pk_parent _ _ _ Hok t1 [] (PX 2 va) H1) as (t2 & H2 & _ & E2 & P2).
    rewrite (pk_root_uniq _ _ _ Hok t2 H2) in *. rewrite E2. cbn. rewrite P2, E1. by rewrite P1.
Qed.

(** ** Growing the tree *)

Lemma pte_at_zero_page q m a : pte_at (zero_page q m) a = if in_page q a then 0 else pte_at m a.
Proof.
  unfold pte_at, zero_page. cbn [ptes set_ptes set_bytes].
  destruct (in_page q a) eqn:E.
  - rewrite (proj2 (map_lookup_filter_None _ _ _)); [done|]. right. intros v _ H. cbn in H. congruence.
  - destruct (ptes m !! a) as [v|] eqn:Ea.
    + by rewrite (map_lookup_filter_Some_2 _ (ptes m) a v).
    + rewrite (proj2 (map_lookup_filter_None _ _ _)); [done|by left].
Qed.

Lemma byte_at_zero_page q m a : byte_at (zero_page q m) a = if in_page q a then 0 else byte_at m a.
Proof.
  unfold byte_at, zero_page. cbn [bytes set_ptes set_bytes].
  destruct (in_page q a) eqn:E.
  - rewrite (proj2 (map_lookup_filter_None _ _ _)); [done|]. right. intros v _ H. cbn in H. congruence.
  - destruct (bytes m !! a) as [v|] eqn:Ea.
    + by rewrite (map_lookup_filter_Some_2 _ (bytes m) a v).
    + rewrite (proj2 (map_lookup_filter_None _ _ _)); [done|by left].
Qed.

Lemma in_page_table q t i :
  q mod PGSIZE = 0 -> t mod PGSIZE = 0 -> 0 <= i < 512 -> in_page q (t + 8 * i) = bool_decide (q = t).
Proof.
  intros [z ->]%Z.mod_divide [z' ->]%Z.mod_divide Hi; [|done..]. unfold in_page, PGSIZE.
  destruct (bool_decide_reflect (z * 4096 = z' * 4096)) as [E|E].
  - apply andb_true_iff. split; [apply Z.leb_le|apply Z.ltb_lt]; lia.
  - apply andb_false_iff. destruct (decide (z * 4096 <= z' * 4096 + 8 * i)).
    + right. apply Z.ltb_ge. lia.
    + left. apply Z.leb_gt. lia.
Qed.

(** The memory with the new table [q] hung below entry [i] of [t]. *)
Definition add_table (m : vmem) (t i q : Z) : vmem :=
  let m := zero_page q m in set_ptes (<[t + 8 * i := Z.lor (PA2PTE q) PTE_V]> (ptes m)) m.

Lemma pte_at_add m t i q t' i' :
  q mod PGSIZE = 0 -> t mod PGSIZE = 0 -> t' mod PGSIZE = 0 -> 0 <= i < 512 -> 0 <= i' < 512 ->
  pte_at (add_table m t i q) (t' + 8 * i') =
  if decide (t' = t /\ i' = i) then Z.lor (PA2PTE q) PTE_V
  else if decide (t' = q) then 0 else pte_at m (t' + 8 * i').
Proof.
  intros Hq Ht Ht' Hi Hi'. unfold add_table, pte_at at 1. cbn [ptes set_ptes].
  destruct (decide (t' = t /\ i' = i)) as [[-> ->]|Hne].
  - by rewrite lookup_insert_eq.
  - rewrite lookup_insert_ne by (intros E; destruct (entry_inj t t' i i'); naive_solver).
    fold (pte_at (zero_page q m) (t' + 8 * i')). rewrite pte_at_zero_page, in_page_table by done.
    destruct (decide (t' = q)) as [->|Hq']; [by rewrite bool_decide_true|].
    by rewrite bool_decide_false by congruence.
Qed.

Lemma ptok_add m pt G t p i q :
  ptok m pt G -> G !! t = Some p -> (length p < 2)%nat -> 0 <= i < 512 -> (p = [] -> i < 256) ->
  pte_flag (pte_at m (t + 8 * i)) PTE_V = false ->
  G !! q = None -> q mod PGSIZE = 0 -> 0 < q < 2 ^ 56 ->
  ptok (add_table m t i q) pt (<[q := p ++ [i]]> G).
Proof.
  intros Hok Ht Hlen Hi Hlow Hinv Hq Hqa Hqr. destruct (pk_page _ _ _ Hok t p Ht) as [Hta _].
  assert (Hne : t <> q) by congruence.
  assert (Hfl : PTE2PA (Z.lor (PA2PTE q) PTE_V) = q) by (apply PTE2PA_lor; [lia|done|done]).
  split.
  - rewrite lookup_insert_ne; [apply Hok|]. intros ->. by rewrite (pk_root _ _ _ Hok) in Hq.
  - intros t' p' [[-> <-]|[_ H]]%lookup_insert_Some; [|by apply Hok].
    split_and!; [done|lia|lia|]. rewrite length_app. cbn. lia.
  - intros t' p' i' Hl Hp' Hi'. apply lookup_insert_Some in Hl as [[<- <-]|[Hn Hl]].
    + rewrite pte_at_add by done. rewrite decide_False by naive_solver. by rewrite decide_True.
    + destruct (pk_page _ _ _ Hok t' p' Hl) as [Ha _]. rewrite pte_at_add by done.
      destruct (decide (t' = t /\ i' = i)) as [[-> ->]|Hd].
      * intros _. rewrite Hfl, lookup_insert_eq. congruence.
      * rewrite decide_False by congruence. intros Hv.
        pose proof (pk_next _ _ _ Hok _ _ _ Hl Hp' Hi' Hv) as Hnx. rewrite lookup_insert_ne; [done|congruence].
  - intros t' p' i' Hl. apply lookup_insert_Some in Hl as [[<- E]|[Hn Hl]].
    + apply app_inj_tail in E as [<- <-]. exists t. rewrite lookup_insert_ne by congruence.
      rewrite pte_at_add by done. rewrite decide_True by done. split_and!; try done; try lia. apply pte_flag_V.
    + destruct (pk_parent _ _ _ Hok _ _ _ Hl) as (a & Ha & Hi' & Hv & Hp).
      destruct (pk_page _ _ _ Hok a p' Ha) as [Haa _].
      exists a. rewrite lookup_insert_ne by congruence. rewrite pte_at_add by done.
      rewrite decide_False by (intros [-> ->]; congruence). rewrite decide_False by congruence. done.
  - intros t' Hl. apply lookup_insert_Some in Hl as [[_ E]|[_ Hl]]; [by destruct p|by apply Hok].
  - intros t' i' p' Hl. apply lookup_insert_Some in Hl as [[_ E]|[_ Hl]]; [|by eapply (pk_low _ _ _ Hok)].
    destruct p as [|i0 p]; injection E as <- <-; [by apply Hlow|by eapply (pk_low _ _ _ Hok)].
  - intros t' p' i' Hl Hp' Hi'. apply lookup_insert_Some in Hl as [[<- <-]|[Hn Hl]].
    + rewrite pte_at_add by done. rewrite decide_False by naive_solver. by rewrite decide_True.
    + destruct (pk_page _ _ _ Hok t' p' Hl) as [Ha _]. rewrite pte_at_add by done.
      case_decide; [intros _; apply PA2PTE_flags; (done || lia)|].
      rewrite decide_False by congruence. by apply (pk_flags _ _ _ Hok t' p').
Qed.

(** [m'], [G'] have the tables of [m], [G] with their leaf entries, and new
    leaf tables that are empty; only the pages of [l] were touched. *)
Record extends (m : vmem) (G : gmap Z (list Z)) (l : list Z) (m' : vmem) (G' : gmap Z (list Z))
    (l' : list Z) : Prop := {
  ex_sub : G ⊆ G';
  ex_leaf : forall t p i, G !! t = Some p -> length p = 2%nat -> 0 <= i < 512 ->
    pte_at m' (t + 8 * i) = pte_at m (t + 8 * i);
  ex_new : forall t p i, G' !! t = Some p -> G !! t = None -> length p = 2%nat -> 0 <= i < 512 ->
    pte_at m' (t + 8 * i) = 0;
  ex_byte : forall a, (forall q, q ∈ l -> in_page q a = false) -> byte_at m' a = byte_at m a;
  ex_free : exists used, l = used ++ l';
  ex_bytes : bytes m' ⊆ bytes m;
  ex_tables : forall t, G !! t = None -> is_Some (G' !! t) -> t ∈ l;
  ex_used : forall q, q ∈ l -> q ∈ l' \/ is_Some (G' !! q);
  ex_pte : forall t i, t mod PGSIZE = 0 -> G !! t = None -> t ∉ l -> 0 <= i < 512 ->
    pte_at m' (t + 8 * i) = pte_at m (t + 8 * i);
}.

Lemma extends_refl m G l : extends m G l m G l.
Proof.
  split; try done; [congruence|by exists []| |by left]. intros t Hn [? ?]. congruence.
Qed.

Lemma extends_trans m G l m1 G1 l1 m2 G2 l2 :
  extends m G l m1 G1 l1 -> extends m1 G1 l1 m2 G2 l2 -> extends m G l m2 G2 l2.
Proof.
  intros [S1 L1 N1 B1 [u1 F1] C1 T1 D1 P1] [S2 L2 N2 B2 [u2 F2] C2 T2 D2 P2].
  assert (Hsub : l1 ⊆ l) by set_solver.
  assert (HT : forall t, G !! t = None -> t ∉ l -> G1 !! t = None).
  { intros t Hn Hl. destruct (G1 !! t) eqn:E; [|done]. exfalso. apply Hl, T1; [done|]. by rewrite E. }
  split.
  - by transitivity G1.
  - intros t p i Ht Hl Hi. rewrite (L2 t p i), (L1 t p i); try done. by eapply lookup_weaken.
  - intros t p i Ht Hn Hl Hi. destruct (G1 !! t) as [p'|] eqn:E.
    + assert (p' = p) as -> by (pose proof (lookup_weaken _ _ _ _ E S2); congruence).
      rewrite (L2 t p i) by done. by apply (N1 t p).
    + by apply (N2 t p).
  - intros a Ha. rewrite B2, B1; [done|done|]. intros q Hq. apply Ha. rewrite F1. set_solver.
  - exists (u1 ++ u2). by rewrite F1, F2, app_assoc.
  - by transitivity (bytes m1).
  - intros t Hn Hs. destruct (G1 !! t) eqn:E; [apply T1; [done|by rewrite E]|]. apply Hsub. by apply T2.
  - intros q Hq. destruct (D1 q Hq) as [Hq1|[p Hp]]; [by apply D2|right].
    exists p. by eapply lookup_weaken.
  - intros t i Ha Hn Hl Hi. rewrite P2, P1; try done; [by apply HT|]. intros H. by apply Hl, Hsub.
Qed.

(** The mapping does not change. *)
Lemma extends_leaf_pte m pt G l m' G' l' va :
  ptok m pt G -> ptok m' pt G' -> extends m G l m' G' l' -> 0 <= va ->
  leaf_pte m' pt va = leaf_pte m pt va.
Proof.
  intros Hok Hok' He Hv. pose proof (PX_range 0 va ltac:(lia) Hv). unfold leaf_pte, pte_addr.
  destruct (leaf_table m pt va) as [t|] eqn:E.
  - apply (leaf_table_path _ _ G) in E as Hg; [|done..].
    pose proof (lookup_weaken _ _ _ _ Hg (ex_sub _ _ _ _ _ _ He)) as Hg'.
    apply (leaf_table_path _ _ G' va t Hok' Hv) in Hg'. rewrite Hg'. by apply (ex_leaf _ _ _ _ _ _ He t _ _ Hg).
  - destruct (leaf_table m' pt va) as [t|] eqn:E'; [|done].
    apply (leaf_table_path _ _ G') in E' as Hg; [|done..].
    apply (ex_new _ _ _ _ _ _ He t _ _ Hg); [|done|done].
    destruct (G !! t) as [p|] eqn:Ep; [|done]. exfalso.
    pose proof (lookup_weaken _ _ _ _ Ep (ex_sub _ _ _ _ _ _ He)). simplify_eq.
    apply (leaf_table_path _ _ G va t Hok Hv) in Ep. congruence.
Qed.

Section walk.
Context (kend : Z) (Hkend : 0 < kend).

(** The free pages are [l] and none of them is a table. *)
Definition free_pages (m : vmem) (G : gmap Z (list Z)) (l : list Z) : Prop :=
  Kalloc.klist kend (vkm m) l /\ forall q, q ∈ l -> G !! q = None.

Lemma page_ok_range q : Kalloc.page_ok kend q -> q mod PGSIZE = 0 /\ 0 < q < 2 ^ 56.
Proof.
  intros [Ha Hr]. split; [done|]. change PHYSTOP with 0x88000000 in Hr. lia.
Qed.

Lemma vkalloc_spec m l :
  Kalloc.klist kend (vkm m) l ->
  wp kalloc (fun r m' => ptes m' = ptes m /\ bytes m' = bytes m /\
    match l with
    | [] => r = 0 /\ m' = m
    | q :: l' => r = q /\ q <> 0 /\ Kalloc.klist kend (vkm m') l' /\ Kalloc.page_ok kend q
    end) m.
Proof.
  intros Hl. unfold kalloc. apply wp_lift. destruct l as [|q l].
  - unfold wp. rewrite (Kalloc.kalloc_nil kend) by done. by destruct m.
  - eapply wp_mono; [by apply (Kalloc.kalloc_cons kend)|]. cbn beta. intros r k' [-> Hk].
    destruct Hl as [_ _ Hf]. apply Forall_cons in Hf as [Hq _].
    split_and!; try done. destruct (page_ok_range q Hq). lia.
Qed.

(** The indices of the levels [level, ..., 1]. *)
Fixpoint path_from (level : nat) (va : Z) : list Z :=
  match level with
  | O => []
  | S l => PX (Z.of_nat level) va :: path_from l va
  end.

Lemma walk_levels_spec level pt t p va m G l :
  ptok m pt G -> free_pages m G l -> 0 <= va < MAXVA -> G !! t = Some p -> (length p + level = 2)%nat ->
  wp (walk_levels level t va true) (fun a m' => exists G' l',
    ptok m' pt G' /\ free_pages m' G' l' /\ extends m G l m' G' l' /\
    (a = 0 /\ l' = [] /\ (length l < level)%nat \/
     exists t0, G' !! t0 = Some (p ++ path_from level va) /\ a = t0 + 8 * PX 0 va /\
       (length l <= length l' + level)%nat)) m.
Proof.
  revert t p m G l. induction level as [|lv IH]; intros t p m G l Hok Hfree Hva Ht Hlen; cbn [walk_levels].
  { apply wp_ret. exists G, l. split_and!; try done; [apply extends_refl|]. right. exists t.
    cbn. rewrite app_nil_r, Nat.add_0_r. done. }
  pose proof (PX_range (Z.of_nat (S lv)) va ltac:(lia) ltac:(lia)) as Hpx.
  assert (Hlow : p = [] -> PX (Z.of_nat (S lv)) va < 256).
  { intros ->. replace (S lv) with 2%nat by (cbn in Hlen; lia). by apply PX_low. }
  set (i := PX (Z.of_nat (S lv)) va) in *. unfold pte_addr. fold i.
  apply wp_bind, wp_gets. destruct (pte_flag (pte_at m (t + 8 * i)) PTE_V) eqn:Ev.
  - pose proof (pk_next _ _ _ Hok t p i Ht ltac:(lia) Hpx Ev) as Hn.
    eapply wp_mono; [apply (IH _ (p ++ [i]) m G l); try done; rewrite length_app; cbn; lia|].
    cbn beta. intros a m' (G' & l' & H1 & H2 & H3 & H4). exists G', l'. split_and!; try done.
    rewrite <-app_assoc in H4. destruct H4 as [(? & ? & ?)|(t0 & ? & ? & ?)]; [left|right; exists t0];
      split_and!; (done || lia).
  - cbn [negb]. destruct Hfree as [Hl Hdis]. wp_use (vkalloc_spec m l Hl).
    intros q m1 (E1 & E2 & Hq). destruct l as [|q' l'].
    + destruct Hq as [-> ->]. apply wp_ret. exists G, []. split_and!; try done; [apply extends_refl|].
      left. cbn. split_and!; (done || lia).
    + destruct Hq as (-> & Hq0 & Hl1 & Hqok). destruct (page_ok_range q' Hqok) as [Hqa Hqr].
      rewrite (proj2 (Z.eqb_neq q' 0)) by done. apply wp_bind, wp_modify, wp_bind, wp_modify.
      assert (Hqn : G !! q' = None) by (apply Hdis; set_solver).
      set (m2 := set_ptes _ _).
      assert (Hok1 : ptok m1 pt G).
      { destruct Hok as [K1 K2 K3 K4 K5 K6 K7]. split; try done.
        - intros t' p' i'. unfold pte_at. rewrite E1. apply K3.
        - intros t' p' i'. unfold pte_at. rewrite E1. apply K4.
        - intros t' p' i'. unfold pte_at. rewrite E1. apply K7. }
      assert (Ev1 : pte_flag (pte_at m1 (t + 8 * i)) PTE_V = false) by (unfold pte_at; by rewrite E1).
      pose proof (ptok_add m1 pt G t p i q' Hok1 Ht ltac:(lia) Hpx Hlow Ev1 Hqn Hqa Hqr) as Hok2.
      change (add_table m1 t i q') with m2 in Hok2.
      assert (Hnl : q' ∉ l') by (destruct Hl as [_ Hnd _]; by apply NoDup_cons in Hnd as [? _]).
      assert (Hext : extends m G (q' :: l') m2 (<[q' := p ++ [i]]> G) l').
      { destruct (pk_page _ _ _ Hok t p Ht) as [Hta _]. change m2 with (add_table m1 t i q'). split.
        - by apply insert_subseteq.
        - intros t' p' i' Ht' Hp' Hi'. destruct (pk_page _ _ _ Hok t' p' Ht') as [Ha _].
          rewrite pte_at_add by done. rewrite decide_False by (intros [-> ->]; simplify_eq; lia).
          rewrite decide_False by congruence. unfold pte_at. by rewrite E1.
        - intros t' p' i' Ht' Hn' Hp' Hi'. apply lookup_insert_Some in Ht' as [[<- <-]|[_ Ht']]; [|congruence].
          rewrite pte_at_add by done. rewrite decide_False by (intros [-> ->]; congruence).
          by rewrite decide_True.
        - intros a Ha. unfold add_table. change (byte_at (set_ptes ?x ?y) a) with (byte_at y a).
          rewrite byte_at_zero_page, (Ha q') by set_solver. unfold byte_at. by rewrite E2.
        - by exists [q'].
        - rewrite <-E2. apply map_filter_subseteq.
        - intros t' Hn' [x Hx]. apply lookup_insert_Some in Hx as [[-> _]|[_ Hx]]; [by left|congruence].
        - intros x [->|Hx]%elem_of_cons; [right; rewrite lookup_insert_eq; eauto|by left].
        - intros t' i' Ha' Hn' Hl' Hi'. rewrite pte_at_add by done.
          rewrite decide_False by (intros [-> ->]; congruence). rewrite decide_False by (intros ->; set_solver).
          unfold pte_at. by rewrite E1. }
      eapply wp_mono; [apply (IH q' (p ++ [i]) m2 (<[q' := p ++ [i]]> G) l'); try done|].
      * split; [exact Hl1|]. intros x Hx. rewrite lookup_insert_ne by (intros ->; done). apply Hdis. set_solver.
      * apply lookup_insert_eq.
      * rewrite length_app. cbn. lia.
      * cbn beta. intros a m' (G' & l2 & H1 & H2 & H3 & H4). exists G', l2. split_and!; try done.
        -- by eapply extends_trans.
        -- rewrite <-app_assoc in H4. cbn [length]. destruct H4 as [(? & ? & ?)|(t0 & ? & ? & ?)];
             [left|right; exists t0]; split_and!; (done || lia).
Qed.

Lemma walk_alloc pt va m G l :
  ptok m pt G -> free_pages m G l -> 0 <= va < MAXVA ->
  wp (walk pt va true) (fun a m' => exists G' l',
    ptok m' pt G' /\ free_pages m' G' l' /\ extends m G l m' G' l' /\
    (a = 0 /\ l' = [] /\ (length l < 2)%nat \/
     exists t0, G' !! t0 = Some [PX 2 va; PX 1 va] /\ a = t0 + 8 * PX 0 va /\ a <> 0 /\
       (length l <= length l' + 2)%nat)) m.
Proof.
  intros Hok Hf Hva. unfold walk. rewrite (proj2 (Z.leb_gt _ _)) by lia.
  eapply wp_mono; [apply (walk_levels_spec 2 pt pt [] va m G l); try done; apply Hok|].
  cbn beta. intros a m' (G' & l' & H1 & H2 & H3 & H4). exists G', l'. split_and!; try done.
  destruct H4 as [H4|(t0 & Ht & -> & Hlen)]; [by left|right]. exists t0. split_and!; [done|done| |done].
  pose proof (pk_page _ _ _ H1 t0 _ Ht). pose proof (PX_range 0 va ltac:(lia) ltac:(lia)). lia.
Qed.
End walk.

(** Without allocation, the walk finds the leaf entry or returns 0. *)
Lemma walk_find m pt va :
  0 <= va < MAXVA ->
  walk pt va false m =
  Ok (match leaf_table m pt va with Some t => pte_addr t 0 va | None => 0 end) m.
Proof.
  intros Hva. unfold walk. rewrite (proj2 (Z.leb_gt _ _)) by lia.
  unfold leaf_table, next_table. cbn [walk_levels]. unfold bind, gets.
  change (Z.of_nat 2) with 2. change (Z.of_nat 1) with 1.
  destruct (pte_flag (pte_at m (pte_addr pt 2 va)) PTE_V); [|done]. cbn [mbind option_bind].
  by destruct (pte_flag (pte_at m (pte_addr (PTE2PA (pte_at m (pte_addr pt 2 va))) 1 va)) PTE_V).
Qed.

(** ** Writing a leaf entry *)

Definition put_pte (m : vmem) (a v : Z) : vmem := set_ptes (<[a := v]> (ptes m)) m.

Section leaf.
Context (m : vmem) (pt : Z) (G : gmap Z (list Z)) (Hok : ptok m pt G).

Lemma pte_at_put t p i v t' p' i' :
  G !! t = Some p -> 0 <= i < 512 -> G !! t' = Some p' -> 0 <= i' < 512 ->
  pte_at (put_pte m (t + 8 * i) v) (t' + 8 * i') =
  if decide (t' = t /\ i' = i) then v else pte_at m (t' + 8 * i').
Proof.
  intros Ht Hi Ht' Hi'. destruct (pk_page _ _ _ Hok t p Ht) as [Ha _].
  destruct (pk_page _ _ _ Hok t' p' Ht') as [Ha' _]. unfold pte_at, put_pte. cbn [ptes set_ptes].
  destruct (decide (t' = t /\ i' = i)) as [[-> ->]|Hne]; [by rewrite lookup_insert_eq|].
  rewrite lookup_insert_ne; [done|]. intros E. destruct (entry_inj t t' i i'); naive_solver.
Qed.

Lemma ptok_put t p i v :
  G !! t = Some p -> length p = 2%nat -> 0 <= i < 512 -> ptok (put_pte m (t + 8 * i) v) pt G.
Proof.
  intros Ht Hp Hi. destruct Hok as [K1 K2 K3 K4 K5 K6 K7]. split; try done.
  - intros t' p' i' Ht' Hp' Hi'. rewrite (pte_at_put t p i v t' p') by done.
    rewrite decide_False by (intros [-> _]; simplify_eq; lia). by apply K3.
  - intros t' p' i' Ht'. destruct (K4 t' p' i' Ht') as (a & Ha & Hi' & Hv). exists a.
    rewrite (pte_at_put t p i v a p') by done.
    rewrite decide_False; [done|]. intros [-> _]. simplify_eq.
    destruct (K2 t' _ Ht') as (_ & _ & Hl). rewrite length_app in Hl. cbn in Hl. lia.
  - intros t' p' i' Ht' Hp' Hi'. rewrite (pte_at_put t p i v t' p') by done.
    rewrite decide_False by (intros [-> _]; simplify_eq; lia). by apply (K7 t' p').
Qed.

Lemma leaf_pte_put t va v va' :
  G !! t = Some [PX 2 va; PX 1 va] -> 0 <= va < MAXVA -> 0 <= va' < MAXVA ->
  leaf_pte (put_pte m (t + 8 * PX 0 va) v) pt va' =
  if decide (page_of va' = page_of va) then v else leaf_pte m pt va'.
Proof.
  intros Ht Hva Hva'. pose proof (PX_range 0 va ltac:(lia) ltac:(lia)) as Hi.
  pose proof (PX_range 0 va' ltac:(lia) ltac:(lia)) as Hi'.
  pose proof (ptok_put t _ (PX 0 va) v Ht eq_refl Hi) as Hok'.
  assert (Hlt : leaf_table (put_pte m (t + 8 * PX 0 va) v) pt va' = leaf_table m pt va').
  { apply option_eq. intros t'. by rewrite !(leaf_table_path _ _ G) by (done || lia). }
  unfold leaf_pte. rewrite Hlt. destruct (leaf_table m pt va') as [t'|] eqn:E.
  - apply (leaf_table_path _ _ G) in E; [|done|lia]. unfold pte_addr.
    rewrite (pte_at_put t _ (PX 0 va) v t' _ (PX 0 va') Ht Hi E Hi').
    destruct (decide (page_of va' = page_of va)) as [Hp|Hp].
    + rewrite decide_True; [done|]. rewrite <-(PX_same va' 0), Hp, PX_same by lia.
      split; [|done]. eapply (path_table m pt G Hok); [exact E|].
      rewrite <-(PX_same va' 2), <-(PX_same va' 1), Hp, !PX_same by lia. done.
    + rewrite decide_False; [done|]. intros [-> E0]. simplify_eq. apply Hp. by apply PX_page.
  - destruct (decide (page_of va' = page_of va)) as [Hp|Hp]; [|done]. exfalso.
    assert (Hs : leaf_table m pt va' = Some t); [|congruence]. apply (leaf_table_path _ _ G); [done|lia|].
    by rewrite <-(PX_same va' 2), <-(PX_same va' 1), Hp, !PX_same by lia.
Qed.
End leaf.

(** ** [mappages] *)

Definition map_entry (pa perm : Z) : Z := Z.lor (Z.lor (PA2PTE pa) perm) PTE_V.
Definition unmapped_page (m : vmem) (pt va : Z) : Prop := pte_flag (leaf_pte m pt va) PTE_V = false.

(** What holds of the page table and of the free pages before and after. *)
Record table_state (kend : Z) (m : vmem) (pt : Z) (G : gmap Z (list Z)) (l : list Z) : Prop := {
  ts_ok : ptok m pt G;
  ts_free : free_pages kend m G l;
  ts_pages : forall t, is_Some (G !! t) -> Kalloc.page_ok kend t;
}.

(** Only free pages were taken and written, and the tables' entries. *)
Record took (m : vmem) (G : gmap Z (list Z)) (l : list Z) (m' : vmem) (G' : gmap Z (list Z))
    (l' : list Z) : Prop := {
  tk_sub : G ⊆ G';
  tk_tables : forall t, G !! t = None -> is_Some (G' !! t) -> t ∈ l;
  tk_used : forall q, q ∈ l -> q ∈ l' \/ is_Some (G' !! q);
  tk_free : exists used, l = used ++ l';
  tk_byte : forall a, (forall q, q ∈ l -> in_page q a = false) -> byte_at m' a = byte_at m a;
  tk_bytes : bytes m' ⊆ bytes m;
  tk_pte : forall t i, t mod PGSIZE = 0 -> G !! t = None -> t ∉ l -> 0 <= i < 512 ->
    pte_at m' (t + 8 * i) = pte_at m (t + 8 * i);
}.

Lemma took_sub m G l m' G' l' : took m G l m' G' l' -> l' ⊆ l.
Proof. intros [_ _ _ [u ->] _ _ _]. set_solver. Qed.

Lemma took_none m G l m' G' l' t : took m G l m' G' l' -> G !! t = None -> t ∉ l -> G' !! t = None.
Proof.
  intros Ht Hn Hl. destruct (G' !! t) eqn:E; [|done]. exfalso. apply Hl.
  apply (tk_tables _ _ _ _ _ _ Ht); [done|by rewrite E].
Qed.

Lemma took_trans m G l m1 G1 l1 m2 G2 l2 :
  took m G l m1 G1 l1 -> took m1 G1 l1 m2 G2 l2 -> took m G l m2 G2 l2.
Proof.
  intros T1 T2. pose proof (took_sub _ _ _ _ _ _ T1) as Hsub.
  pose proof (fun t => took_none _ _ _ _ _ _ t T1) as HN.
  destruct T1 as [S1 N1 D1 [u1 F1] B1 C1 P1], T2 as [S2 N2 D2 [u2 F2] B2 C2 P2]. split.
  - by etrans.
  - intros t Hn Hs. destruct (G1 !! t) eqn:E; [apply N1; [done|by rewrite E]|]. apply Hsub. by apply N2.
  - intros q Hq. destruct (D1 q Hq) as [Hq1|[p Hp]]; [by apply D2|right].
    exists p. by eapply lookup_weaken.
  - exists (u1 ++ u2). by rewrite F1, F2, app_assoc.
  - intros a Ha. rewrite B2, B1; [done|done|]. intros q Hq. apply Ha. by apply Hsub.
  - by etrans.
  - intros t i Ha Hn Hl Hi. rewrite P2, P1; try done; [by apply HN|]. intros H. by apply Hl, Hsub.
Qed.

(** Every table is a page of the allocator's. *)
Lemma took_pages kend m G l m' G' l' :
  Kalloc.klist kend (vkm m) l -> took m G l m' G' l' ->
  (forall t, is_Some (G !! t) -> Kalloc.page_ok kend t) ->
  forall t, is_Some (G' !! t) -> Kalloc.page_ok kend t.
Proof.
  intros [_ _ Hf] Htk Hp t Ht. destruct (G !! t) eqn:E; [apply Hp; by rewrite E|].
  rewrite Forall_forall in Hf. by apply Hf, (tk_tables _ _ _ _ _ _ Htk).
Qed.

Lemma extends_took m G l m' G' l' : extends m G l m' G' l' -> took m G l m' G' l'.
Proof. by intros []. Qed.

(** An entry of one of the tables changes. *)
Lemma took_put m G l m1 pt G1 l1 t p i v :
  took m G l m1 G1 l1 -> ptok m1 pt G1 -> G1 !! t = Some p -> 0 <= i < 512 ->
  took m G l (put_pte m1 (t + 8 * i) v) G1 l1.
Proof.
  intros Htk Hok Ht Hi. pose proof (fun t => took_none _ _ _ _ _ _ t Htk) as HN.
  destruct Htk as [S1 N1 D1 F1 B1 C1 P1]. split; try done.
  intros t' i' Ha' Hn' Hl' Hi'. rewrite <-P1 by done. unfold pte_at, put_pte. cbn [ptes set_ptes].
  rewrite lookup_insert_ne; [done|]. intros E. destruct (pk_page _ _ _ Hok t p Ht) as [Ha _].
  destruct (entry_inj t t' i i') as [-> _]; [done..|]. rewrite HN in Ht by done. done.
Qed.

Lemma page_of_id a : a mod PGSIZE = 0 -> page_of a = a.
Proof. unfold page_of. lia. Qed.

Section mappages.
Context (kend : Z) (Hkend : 0 < kend) (pt perm : Z).

(** The entries of [a, ..., last] are set, the others are as before. *)
Definition maps_to (m m' : vmem) (a last pa : Z) : Prop :=
  forall va, 0 <= va < MAXVA ->
    leaf_pte m' pt va =
    if decide (a <= page_of va <= last) then map_entry (pa + (page_of va - a)) perm
    else leaf_pte m pt va.

(** One round: the walk runs out of memory, or any value can be put in the
    entry it returns. *)
Lemma map_round a m G l :
  table_state kend m pt G l -> 0 <= a < MAXVA -> a mod PGSIZE = 0 ->
  wp (walk pt a true) (fun e m1 => exists G1 l1,
    if e =? 0 then (length l < 2)%nat /\ table_state kend m1 pt G1 [] /\ took m G l m1 G1 [] /\
      forall va, 0 <= va < MAXVA -> leaf_pte m1 pt va = leaf_pte m pt va
    else (length l <= length l1 + 2)%nat /\ pte_at m1 e = leaf_pte m pt a /\
      forall v, table_state kend (put_pte m1 e v) pt G1 l1 /\ took m G l (put_pte m1 e v) G1 l1 /\
        forall va, 0 <= va < MAXVA -> leaf_pte (put_pte m1 e v) pt va =
          if decide (page_of va = a) then v else leaf_pte m pt va) m.
Proof.
  intros [Hok Hf Hpg] Ha Hal. eapply wp_mono; [by apply (walk_alloc kend Hkend pt a m G l Hok Hf)|].
  cbn beta. intros e m1 (G1 & l1 & Hok1 & Hf1 & Hex & He). exists G1, l1.
  pose proof (extends_took _ _ _ _ _ _ Hex) as Htk.
  pose proof (took_pages kend _ _ _ _ _ _ (proj1 Hf) Htk Hpg) as Hpg1.
  assert (Hleaf : forall va, 0 <= va < MAXVA -> leaf_pte m1 pt va = leaf_pte m pt va)
    by (intros; eapply extends_leaf_pte; (done || lia)).
  destruct He as [(-> & -> & Hlen)|(t & Ht & -> & Hne & Hlen)]; [done|].
  rewrite (proj2 (Z.eqb_neq _ 0)) by done. split; [done|]. split.
  { rewrite <-Hleaf by done. unfold leaf_pte.
    by rewrite (proj2 (leaf_table_path m1 pt G1 a t Hok1 ltac:(lia)) Ht). }
  intros v. split_and!.
  - split; [|exact Hf1|exact Hpg1]. apply (ptok_put _ _ _ Hok1 t _ _ _ Ht eq_refl). apply PX_range; lia.
  - apply (took_put m G l m1 pt G1 l1 t [PX 2 a; PX 1 a]); try done. apply PX_range; lia.
  - intros va Hva. rewrite (leaf_pte_put _ _ _ Hok1 t a _ va Ht), (page_of_id a) by done.
    case_decide; [done|by apply Hleaf].
Qed.

Lemma mappages_loop_S n a last pa :
  mappages_loop (S n) pt a last pa perm =
  (pte <- walk pt a true ;;
   if pte =? 0 then ret (-1)
   else
     v <- gets (fun m => pte_at m pte) ;;
     if pte_flag v PTE_V then panic "mappages: remap"
     else
       set_pte pte (map_entry pa perm) ;;
       if a =? last then ret 0
       else mappages_loop n pt (u64 (a + PGSIZE)) last (u64 (pa + PGSIZE)) perm).
Proof. done. Qed.

(** The pages of [a, ..., last] and the page [a] before them. *)
Lemma maps_to_cons m m2 m' a last pa :
  a mod PGSIZE = 0 -> a + PGSIZE <= last ->
  (forall va, 0 <= va < MAXVA -> leaf_pte m2 pt va =
     if decide (page_of va = a) then map_entry pa perm else leaf_pte m pt va) ->
  maps_to m2 m' (a + PGSIZE) last (pa + PGSIZE) -> maps_to m m' a last pa.
Proof.
  intros Hal Hle Hput Hm va Hva. rewrite (Hm va Hva), Hput by done.
  assert (Hd : page_of va = a \/ a + PGSIZE <= page_of va \/ page_of va < a).
  { pose proof (page_of_aligned va) as Hq. apply Z.mod_divide in Hq as [z Hz]; [|done].
    apply Z.mod_divide in Hal as [z' Hz']; [|done]. unfold PGSIZE in *. lia. }
  destruct Hd as [Hd|[Hd|Hd]].
  - rewrite decide_False, decide_True, decide_True by (unfold PGSIZE in *; lia). f_equal. lia.
  - destruct (decide (a + PGSIZE <= page_of va <= last)).
    + rewrite decide_True by (unfold PGSIZE in *; lia). f_equal. lia.
    + rewrite !decide_False by (unfold PGSIZE in *; lia). done.
  - rewrite !decide_False by (unfold PGSIZE in *; lia). done.
Qed.

Lemma mappages_loop_wp n a pa m G l :
  table_state kend m pt G l -> 0 <= a -> a mod PGSIZE = 0 -> a + Z.of_nat n * PGSIZE < MAXVA ->
  0 <= pa -> pa + Z.of_nat n * PGSIZE < 2 ^ 64 ->
  (forall va, 0 <= va < MAXVA -> a <= page_of va <= a + Z.of_nat n * PGSIZE -> unmapped_page m pt va) ->
  wp (mappages_loop (S n) pt a (a + Z.of_nat n * PGSIZE) pa perm) (fun r m' => exists G' l',
    table_state kend m' pt G' l' /\ took m G l m' G' l' /\
    (r = 0 /\ maps_to m m' a (a + Z.of_nat n * PGSIZE) pa \/
     r = -1 /\ l' = [] /\ (length l < 2 * S n)%nat /\ forall va, 0 <= va < MAXVA ->
       ~ (a <= page_of va <= a + Z.of_nat n * PGSIZE) -> leaf_pte m' pt va = leaf_pte m pt va)) m.
Proof.
  revert a pa m G l. induction n as [|n IH]; intros a pa m G l Hst Ha Hal Hlast Hpa Hpl Hun;
    rewrite mappages_loop_S; assert (Ha' : 0 <= a < MAXVA) by (unfold PGSIZE in *; lia);
    (wp_use (map_round a m G l Hst Ha' Hal)); intros e m1 (G1 & l1 & He);
    destruct (Z.eqb_spec e 0) as [->|Hne].
  1,3: apply wp_ret; exists G1, []; destruct He as (? & ? & ? & ?); split_and!; [done..|right];
    split_and!; [done..|lia|]; by auto.
  all: destruct He as (Hlen & Hv & He); apply wp_bind, wp_gets; rewrite Hv.
  all: rewrite Hun by (rewrite ?page_of_id by done; unfold PGSIZE; lia).
  all: apply wp_bind, wp_modify; destruct (He (map_entry pa perm)) as (Hst2 & Htk & Hput);
    unfold put_pte in Hst2, Htk, Hput; set (m2 := set_ptes _ m1) in *.
  - rewrite (proj2 (Z.eqb_eq _ _)) by lia. apply wp_ret. exists G1, l1. split_and!; try done. left.
    split; [done|]. intros va Hva. rewrite Hput by done.
    destruct (decide (page_of va = a)) as [E|E].
    + rewrite decide_True by lia. f_equal. lia.
    + rewrite decide_False by lia. done.
  - rewrite (proj2 (Z.eqb_neq _ _)) by (unfold PGSIZE; lia).
    rewrite !u64_small by (rewrite ?MAXVA_val in *; unfold PGSIZE in *; lia).
    replace (a + Z.of_nat (S n) * PGSIZE) with (a + PGSIZE + Z.of_nat n * PGSIZE) in * by lia.
    eapply wp_mono; [apply (IH (a + PGSIZE) (pa + PGSIZE) m2 G1 l1 Hst2)|].
    + unfold PGSIZE; lia.
    + by rewrite Z.add_mod, Hal, Z_mod_same_full by done.
    + done.
    + unfold PGSIZE; lia.
    + unfold PGSIZE in *; lia.
    + intros va Hva Hr. unfold unmapped_page. rewrite Hput, decide_False by (done || (unfold PGSIZE in *; lia)).
      apply Hun; [done|]. unfold PGSIZE in *; lia.
    + cbn beta. intros r m' (G' & l' & Hst' & Htk' & Hr). exists G', l'.
      split_and!; [done|by eapply took_trans|].
      destruct Hr as [[-> Hm]|(-> & -> & Hlen' & Hm)]; [left|right]; split_and!; try done; [|lia|].
      * eapply (maps_to_cons m m2); [done|unfold PGSIZE; lia|done|done].
      * intros va Hva Hn. rewrite (Hm va Hva), Hput, decide_False; (done || (unfold PGSIZE in *; lia)).
Qed.
End mappages.

(** One page: what uvmalloc, uvmcopy and uvmfirst call it for. *)
Lemma mappages_page kend pt perm a pa m G l :
  0 < kend -> table_state kend m pt G l -> 0 <= a < MAXVA -> a mod PGSIZE = 0 -> unmapped_page m pt a ->
  wp (mappages pt a PGSIZE pa perm) (fun r m' => exists G' l',
    table_state kend m' pt G' l' /\ took m G l m' G' l' /\
    (r = 0 /\ (length l <= length l' + 2)%nat /\ (forall va, 0 <= va < MAXVA -> leaf_pte m' pt va =
       if decide (page_of va = a) then map_entry pa perm else leaf_pte m pt va) \/
     r = -1 /\ l' = [] /\ (length l < 2)%nat /\
       forall va, 0 <= va < MAXVA -> leaf_pte m' pt va = leaf_pte m pt va)) m.
Proof.
  intros Hk Hst Ha Hal Hun. unfold mappages. rewrite (proj2 (Z.eqb_neq _ _)) by done.
  assert (Hp : page_of (a + PGSIZE - 1) = a).
  { destruct (page_of_same a (a + PGSIZE - 1)) as [-> _]; rewrite page_of_id by done; unfold PGSIZE; lia. }
  destruct (page_bound a Ha) as [_ Hb]. rewrite page_of_id in Hb by done. pose proof MAXVA_val.
  rewrite u64_small by (unfold PGSIZE in *; lia).
  rewrite !page_round, Hp, page_of_id, Z.sub_diag by (done || (unfold PGSIZE in *; lia)).
  rewrite mappages_loop_S. wp_use (map_round kend Hk pt a m G l Hst Ha Hal).
  intros e m1 (G1 & l1 & He). destruct (Z.eqb_spec e 0) as [->|Hne].
  - apply wp_ret. exists G1, []. destruct He as (? & ? & ? & ?). split_and!; [done..|]. right. done.
  - destruct He as (Hlen & Hv & He). apply wp_bind, wp_gets. rewrite Hv, Hun. apply wp_bind, wp_modify.
    destruct (He (map_entry pa perm)) as (Hst2 & Htk & Hput). rewrite Z.eqb_refl. apply wp_ret.
    exists G1, l1. split_and!; try done. by left.
Qed.

(** ** An empty page table *)

Lemma pte_at_zeroed q m i : q mod PGSIZE = 0 -> 0 <= i < 512 -> pte_at (zero_page q m) (q + 8 * i) = 0.
Proof. intros Hq Hi. by rewrite pte_at_zero_page, in_page_table, bool_decide_true. Qed.

Lemma empty_table kend m q l :
  0 < kend -> Kalloc.klist kend (vkm m) l -> q ∉ l -> Kalloc.page_ok kend q ->
  table_state kend (zero_page q m) q {[q := []]} l /\
  (forall va, 0 <= va < MAXVA -> leaf_pte (zero_page q m) q va = 0).
Proof.
  intros Hk Hl Hq Hqok. destruct (page_ok_range kend Hk q Hqok) as [Hqa Hqr].
  assert (Hz : forall i, 0 <= i < 512 -> pte_flag (pte_at (zero_page q m) (q + 8 * i)) PTE_V = false)
    by (intros i Hi; by rewrite pte_at_zeroed).
  split; [split; [split|split|]|].
  - apply lookup_singleton_eq.
  - intros t p [-> <-]%lookup_singleton_Some. cbn. lia.
  - intros t p i [-> <-]%lookup_singleton_Some _ Hi. by rewrite Hz.
  - intros t p i [-> E]%lookup_singleton_Some. by destruct p.
  - by intros t [-> _]%lookup_singleton_Some.
  - by intros t i p [_ [=]]%lookup_singleton_Some.
  - intros t p i [-> <-]%lookup_singleton_Some _ Hi. by rewrite Hz.
  - done.
  - intros a Ha. apply lookup_singleton_None. congruence.
  - by intros t [p [-> _]%lookup_singleton_Some].
  - intros va Hva. unfold leaf_pte, leaf_table, next_table, pte_addr. by rewrite Hz by (apply PX_range; lia).
Qed.

Lemma uvmcreate_spec kend m q l :
  0 < kend -> Kalloc.klist kend (vkm m) (q :: l) ->
  wp uvmcreate (fun r m' => r = q /\ table_state kend m' q {[q := []]} l /\ bytes m' ⊆ bytes m /\
    (forall x, in_page q x = false -> byte_at m' x = byte_at m x /\ pte_at m' x = pte_at m x) /\
    forall va, 0 <= va < MAXVA -> leaf_pte m' q va = 0) m.
Proof.
  intros Hk Hl. unfold uvmcreate. wp_use (vkalloc_spec kend Hk m (q :: l) Hl).
  intros r m1 (Ep & Eb & -> & Hq0 & Hl1 & Hq). rewrite (proj2 (Z.eqb_neq q 0)) by done.
  apply wp_bind, wp_modify, wp_ret. split; [done|].
  destruct (empty_table kend m1 q l) as [? ?]; try done; [by destruct Hl as [_ [? _]%NoDup_cons _]|].
  split_and!; try done; [rewrite <-Eb; apply map_filter_subseteq|]. intros x Hx.
  rewrite byte_at_zero_page, pte_at_zero_page, Hx. unfold byte_at, pte_at. by rewrite Eb, Ep.
Qed.

(** ** [uvmunmap] *)

Section unmap.
Context (kend pt : Z) (Hkend : 0 < kend).

(** A page the page table maps as a leaf. *)
Definition leaf_mapped (m : vmem) (va : Z) : Prop :=
  let v := leaf_pte m pt va in pte_flag v PTE_V = true /\ PTE_FLAGS v <> PTE_V.

(** The physical pages behind the [n] pages from [a] on. *)
Definition mapped_pages (m : vmem) (a : Z) (n : nat) : list Z :=
  map (fun i => PTE2PA (leaf_pte m pt (a + Z.of_nat i * PGSIZE))) (seq 0 n).

Lemma mapped_pages_S m a n :
  mapped_pages m a (S n) = PTE2PA (leaf_pte m pt a) :: mapped_pages m (a + PGSIZE) n.
Proof.
  unfold mapped_pages. cbn [seq map]. f_equal; [do 2 f_equal; lia|]. rewrite <-seq_shift, map_map.
  apply map_ext. intros i. do 2 f_equal. lia.
Qed.

Lemma leaf_walk m G a :
  ptok m pt G -> 0 <= a < MAXVA -> pte_flag (leaf_pte m pt a) PTE_V = true ->
  exists t, G !! t = Some [PX 2 a; PX 1 a] /\ walk pt a false m = Ok (t + 8 * PX 0 a) m /\
    t + 8 * PX 0 a <> 0 /\ pte_at m (t + 8 * PX 0 a) = leaf_pte m pt a.
Proof.
  intros Hok Ha. rewrite walk_find by done. unfold leaf_pte.
  destruct (leaf_table m pt a) as [t|] eqn:E; [|done]. intros _. exists t.
  apply (leaf_table_path _ _ G) in E; [|done|lia]. split_and!; try done.
  pose proof (pk_page _ _ _ Hok t _ E). pose proof (PX_range 0 a ltac:(lia) ltac:(lia)). lia.
Qed.

Lemma vkfree_spec m q l :
  Kalloc.klist kend (vkm m) l -> Kalloc.page_ok kend q -> q ∉ l ->
  wp (kfree kend q) (fun _ m' => ptes m' = ptes m /\ bytes m' = bytes m /\
    Kalloc.klist kend (vkm m') (q :: l)) m.
Proof.
  intros Hl Hq Hn. unfold kfree. apply wp_lift.
  eapply wp_mono; [by eapply Kalloc.kfree_ok|]. by intros [] k'.
Qed.

(** Freeing pages that are not tables. *)
Definition may_free (G : gmap Z (list Z)) (l pas : list Z) : Prop :=
  NoDup (pas ++ l) /\ forall q, q ∈ pas -> Kalloc.page_ok kend q /\ G !! q = None.

Lemma same_ptes m m' : ptes m' = ptes m -> forall va, leaf_pte m' pt va = leaf_pte m pt va.
Proof. intros E va. unfold leaf_pte, leaf_table, next_table, pte_at. by rewrite E. Qed.

Lemma ptok_ptes m m' G : ptes m' = ptes m -> ptok m pt G -> ptok m' pt G.
Proof.
  intros E [K1 K2 K3 K4 K5 K6 K7]. split; try done.
  - intros t p i. unfold pte_at. rewrite E. apply K3.
  - intros t p i. unfold pte_at. rewrite E. apply K4.
  - intros t p i. unfold pte_at. rewrite E. apply K7.
Qed.

(** The entries outside of the tables. *)
Definition same_outside (G : gmap Z (list Z)) (m m' : vmem) : Prop :=
  forall t i, t mod PGSIZE = 0 -> G !! t = None -> 0 <= i < 512 -> pte_at m' (t + 8 * i) = pte_at m (t + 8 * i).

Lemma same_outside_put G m t p i v :
  ptok m pt G -> G !! t = Some p -> 0 <= i < 512 -> same_outside G m (put_pte m (t + 8 * i) v).
Proof.
  intros Hok Ht Hi t' i' Ha Hn Hi'. unfold pte_at, put_pte. cbn [ptes set_ptes].
  rewrite lookup_insert_ne; [done|]. intros E. destruct (pk_page _ _ _ Hok t p Ht) as [Hta _].
  destruct (entry_inj t t' i i') as [-> _]; congruence.
Qed.

(** One round: the page's entry is cleared, its page freed or kept. *)
Lemma unmap_round n a do_free m G l Q :
  table_state kend m pt G l -> 0 <= a < MAXVA -> a mod PGSIZE = 0 -> leaf_mapped m a ->
  (do_free = true -> may_free G l (mapped_pages m a (S n))) ->
  (forall m2, table_state kend m2 pt G (if do_free then PTE2PA (leaf_pte m pt a) :: l else l) ->
    bytes m2 = bytes m ->
    (forall va, 0 <= va < MAXVA -> leaf_pte m2 pt va =
      if decide (page_of va = a) then 0 else leaf_pte m pt va) ->
    same_outside G m m2 ->
    wp (uvmunmap_loop kend n pt (a + PGSIZE) do_free) Q m2) ->
  wp (uvmunmap_loop kend (S n) pt a do_free) Q m.
Proof.
  intros [Hok Hf Hpg] Ha Hal [HV HF] Hfree Hk. cbn [uvmunmap_loop].
  destruct (leaf_walk m G a Hok Ha HV) as (t & Ht & Hw & Hne & Hat).
  apply wp_bind. unfold wp at 1. rewrite Hw. rewrite (proj2 (Z.eqb_neq _ 0)) by done.
  apply wp_bind, wp_gets. rewrite Hat, HV. cbn [negb]. rewrite (proj2 (Z.eqb_neq _ PTE_V)) by done.
  assert (Hstep : wp (if do_free then kfree kend (PTE2PA (leaf_pte m pt a)) else ret tt)
    (fun _ m1 => ptes m1 = ptes m /\ bytes m1 = bytes m /\
       free_pages kend m1 G (if do_free then PTE2PA (leaf_pte m pt a) :: l else l)) m).
  { destruct do_free; [|by apply wp_ret]. destruct Hf as [Hl Hd].
    destruct (Hfree eq_refl) as [Hnd Hpas]. rewrite mapped_pages_S in Hnd, Hpas.
    cbn [app] in Hnd. apply NoDup_cons in Hnd as [Hnin _]. destruct (Hpas _ ltac:(by left)) as [Hp HG].
    eapply wp_mono; [apply (vkfree_spec m _ l Hl Hp); set_solver|]. cbn beta. intros _ m1 (? & ? & ?).
    split_and!; try done. split; [done|]. intros q [->|]%elem_of_cons; auto. }
  wp_use Hstep. intros [] m1 (E1 & E2 & Hf1). apply wp_bind, wp_modify.
  pose proof (ptok_ptes m m1 G E1 Hok) as Hok1. apply Hk.
  - split; [|exact Hf1|exact Hpg]. apply (ptok_put _ _ _ Hok1 t _ _ _ Ht eq_refl). apply PX_range; lia.
  - done.
  - intros va Hva. fold (put_pte m1 (t + 8 * PX 0 a) 0).
    rewrite (leaf_pte_put _ _ _ Hok1 t a _ va Ht), (page_of_id a) by done. by rewrite (same_ptes m m1).
  - intros t' i' Ha' Hn' Hi'. fold (put_pte m1 (t + 8 * PX 0 a) 0).
    rewrite (same_outside_put G m1 t _ _ 0 Hok1 Ht) by (done || (apply PX_range; lia)).
    unfold pte_at. by rewrite E1.
Qed.

Lemma uvmunmap_loop_wp n a do_free m G l :
  table_state kend m pt G l -> 0 <= a -> a mod PGSIZE = 0 -> a + Z.of_nat n * PGSIZE <= MAXVA ->
  (forall va, 0 <= va < MAXVA -> a <= page_of va < a + Z.of_nat n * PGSIZE -> leaf_mapped m va) ->
  (do_free = true -> may_free G l (mapped_pages m a n)) ->
  wp (uvmunmap_loop kend n pt a do_free) (fun _ m' =>
    table_state kend m' pt G (if do_free then rev (mapped_pages m a n) ++ l else l) /\
    bytes m' = bytes m /\ same_outside G m m' /\
    forall va, 0 <= va < MAXVA -> leaf_pte m' pt va =
      if decide (a <= page_of va < a + Z.of_nat n * PGSIZE) then 0 else leaf_pte m pt va) m.
Proof.
  revert a m l. induction n as [|n IH]; intros a m l Hst Ha Hal Hle Hmap Hfree.
  { cbn [uvmunmap_loop]. apply wp_ret. split_and!; [by destruct do_free|done|by intros ? ?|].
    intros va Hva. by rewrite decide_False by lia. }
  assert (Ha' : 0 <= a < MAXVA) by (unfold PGSIZE in *; lia).
  assert (Hal' : (a + PGSIZE) mod PGSIZE = 0) by (by rewrite Z.add_mod, Hal, Z_mod_same_full by done).
  apply (unmap_round n a do_free m G l); try done.
  { apply Hmap; [done|]. rewrite page_of_id by done. unfold PGSIZE; lia. }
  intros m2 Hst2 E2 Hput Hout2.
  assert (Hpas : mapped_pages m2 (a + PGSIZE) n = mapped_pages m (a + PGSIZE) n).
  { apply map_ext_in. intros i [_ Hin]%in_seq. f_equal. rewrite Hput by (unfold PGSIZE in *; lia).
    rewrite decide_False; [done|]. rewrite page_of_id; [unfold PGSIZE; lia|].
    by rewrite Z.mod_add by done. }
  eapply wp_mono; [apply (IH (a + PGSIZE) m2 _ Hst2); try done|].
  - unfold PGSIZE; lia.
  - lia.
  - intros va Hva Hr. unfold leaf_mapped. rewrite Hput, decide_False by (done || (unfold PGSIZE in *; lia)).
    apply Hmap; [done|unfold PGSIZE in *; lia].
  - rewrite Hpas. intros ->. destruct (Hfree eq_refl) as [Hnd Hp]. rewrite mapped_pages_S in Hnd, Hp.
    split; [|intros q Hq; apply Hp; by right]. by rewrite <-Permutation_middle.
  - cbn beta. intros _ m' (Hst' & E' & Hout' & Hl'). rewrite Hpas in Hst'. rewrite mapped_pages_S.
    split_and!; [|congruence|intros t i Ht Hn Hi; by rewrite Hout', Hout2|].
    + destruct do_free; [|done]. cbn [rev]. by rewrite <-app_assoc.
    + intros va Hva. rewrite Hl', Hput by done. pose proof (page_of_aligned va) as Hq.
      apply Z.mod_divide in Hq as [z Hz]; [|done]. apply Z.mod_divide in Hal as [z' Hz']; [|done].
      repeat case_decide; (done || (unfold PGSIZE in *; lia)).
Qed.
End unmap.

(** ** The mapping as the processor reads it *)

Lemma xlate_leaf m pt G va :
  ptok m pt G -> 0 <= va < MAXVA ->
  xlate m pt va =
  let v := leaf_pte m pt va in
  if pte_flag v PTE_V && pte_flag v PTE_U then PTE2PA v else 0.
Proof.
  intros Hok Hva. enough (Hw : walkaddr pt va m = Ok (let v := leaf_pte m pt va in
    if pte_flag v PTE_V && pte_flag v PTE_U then PTE2PA v else 0) m) by (rewrite walkaddr_xlate in Hw; by injection Hw).
  unfold walkaddr. rewrite (proj2 (Z.leb_gt _ _)) by lia.
  unfold bind at 1. rewrite walk_find by done. unfold leaf_pte.
  destruct (leaf_table m pt va) as [t|] eqn:E; [|done]. cbv zeta.
  apply (leaf_table_path _ _ G) in E; [|done|lia]. pose proof (pk_page _ _ _ Hok t _ E).
  pose proof (PX_range 0 va ltac:(lia) ltac:(lia)). unfold pte_addr.
  rewrite (proj2 (Z.eqb_neq _ 0)) by lia. unfold bind, gets.
  by destruct (pte_flag _ PTE_V), (pte_flag _ PTE_U).
Qed.

(** ** Theorems *)

Lemma mappages_wp (kend pt va size pa perm : Z) (m : vmem) (G : gmap Z (list Z)) (l : list Z) :
  0 < kend -> table_state kend m pt G l ->
  0 <= va -> 0 < size -> va + size <= MAXVA -> 0 <= pa -> pa + size + PGSIZE <= 2 ^ 64 ->
  (forall x, 0 <= x < MAXVA -> page_of va <= page_of x <= page_of (va + size - 1) ->
     unmapped_page m pt x) ->
  wp (mappages pt va size pa perm) (fun r m' => exists G' l',
    table_state kend m' pt G' l' /\ took m G l m' G' l' /\
    (r = 0 /\ maps_to pt perm m m' (page_of va) (page_of (va + size - 1)) pa \/
     r = -1 /\ l' = [] /\
     (Z.of_nat (length l) < 2 * ((page_of (va + size - 1) - page_of va) / PGSIZE + 1)) /\ forall x, 0 <= x < MAXVA ->
       ~ (page_of va <= page_of x <= page_of (va + size - 1)) -> leaf_pte m' pt x = leaf_pte m pt x)) m.
Proof.
  intros Hk Hst Hva Hsz Hmax Hpa Hpl Hun. pose proof MAXVA_val as HM.
  assert (Hpg : forall x, page_of x <= x < page_of x + PGSIZE)
    by (intros x; unfold page_of; pose proof (Z.mod_pos_bound x PGSIZE PGSIZE_pos); lia).
  pose proof (Hpg va). pose proof (Hpg (va + size - 1)).
  destruct (page_bound va ltac:(lia)) as [Hp0 _].
  pose proof (page_of_aligned va) as Ha. pose proof (page_of_aligned (va + size - 1)) as Hl.
  assert (E : exists n : nat, page_of (va + size - 1) = page_of va + Z.of_nat n * PGSIZE).
  { apply Z.mod_divide in Ha as [z Hz]; [|done]. apply Z.mod_divide in Hl as [z' Hz']; [|done].
    exists (Z.to_nat (z' - z)). unfold PGSIZE in *. lia. }
  destruct E as [n E]. unfold mappages. rewrite (proj2 (Z.eqb_neq _ _)) by lia.
  rewrite u64_small, !page_round by lia. rewrite E.
  replace (page_of va + Z.of_nat n * PGSIZE - page_of va) with (Z.of_nat n * PGSIZE) by lia.
  rewrite Z.div_mul, Nat2Z.id by done. rewrite E in *.
  eapply wp_mono; [apply (mappages_loop_wp kend Hk pt perm n (page_of va) pa m G l Hst Hp0
    (page_of_aligned va)); (done || (unfold PGSIZE in *; lia))|].
  cbn beta. intros r m' (G' & l' & ? & ? & Hpost). exists G', l'. split_and!; try done.
  destruct Hpost as [Hpost|(-> & -> & Hlen & Hpost)]; [by left|right].
  split_and!; (done || lia).
Qed.

(** [mappages] on a range of unmapped pages ends, and either returns
    0 and has set the leaf entry of each page of the range to the physical
    page at the same distance from [pa] with [perm] and [PTE_V], and no other
    leaf entry; or returns -1, only when fewer than two free pages for each page of the
    range were there for the tables, and has changed no entry outside the range.  It takes pages from the free list
    only, and the page table stays a tree. *)
Theorem mappages_maps (kend pt va size pa perm : Z) (m : vmem) (G : gmap Z (list Z)) (l : list Z) :
  0 < kend -> table_state kend m pt G l ->
  0 <= va -> 0 < size -> va + size <= MAXVA -> 0 <= pa -> pa + size + PGSIZE <= 2 ^ 64 ->
  (forall x, 0 <= x < MAXVA -> page_of va <= page_of x <= page_of (va + size - 1) ->
     unmapped_page m pt x) ->
  exists r m' G' l', mappages pt va size pa perm m = Ok r m' /\
    table_state kend m' pt G' l' /\ took m G l m' G' l' /\
    (r = 0 /\ maps_to pt perm m m' (page_of va) (page_of (va + size - 1)) pa \/
     r = -1 /\ l' = [] /\
     (Z.of_nat (length l) < 2 * ((page_of (va + size - 1) - page_of va) / PGSIZE + 1)) /\ forall x, 0 <= x < MAXVA ->
       ~ (page_of va <= page_of x <= page_of (va + size - 1)) -> leaf_pte m' pt x = leaf_pte m pt x).
Proof.
  intros. destruct (wp_elim _ _ _ (mappages_wp kend pt va size pa perm m G l
    ltac:(done) ltac:(done) ltac:(done) ltac:(done) ltac:(done) ltac:(done) ltac:(done) ltac:(done)))
    as (r & m' & Hr & G' & l' & Hpost). by exists r, m', G', l'.
Qed.

(** [uvmunmap] on a range of mapped leaf pages ends, clears exactly
    their leaf entries, keeps the tables and every byte, and with [do_free]
    puts their physical pages, and nothing else, on the free list. *)
Theorem uvmunmap_unmaps (kend pt va npages : Z) (do_free : bool) (m : vmem) (G : gmap Z (list Z))
    (l : list Z) :
  0 < kend -> table_state kend m pt G l ->
  0 <= va -> va mod PGSIZE = 0 -> 0 <= npages -> va + npages * PGSIZE <= MAXVA ->
  (forall x, 0 <= x < MAXVA -> va <= page_of x < va + npages * PGSIZE -> leaf_mapped pt m x) ->
  (do_free = true -> may_free kend G l (mapped_pages pt m va (Z.to_nat npages))) ->
  exists m', uvmunmap kend pt va npages do_free m = Ok tt m' /\
    table_state kend m' pt G
      (if do_free then rev (mapped_pages pt m va (Z.to_nat npages)) ++ l else l) /\
    bytes m' = bytes m /\
    forall x, 0 <= x < MAXVA -> leaf_pte m' pt x =
      if decide (va <= page_of x < va + npages * PGSIZE) then 0 else leaf_pte m pt x.
Proof.
  intros Hk Hst Hva Hal Hn Hmax Hmap Hfree. unfold uvmunmap. rewrite Hal. cbn [negb Z.eqb].
  rewrite <-(Z2Nat.id npages) in Hmax, Hmap by done.
  destruct (wp_elim _ _ _ (uvmunmap_loop_wp kend pt Hk (Z.to_nat npages) va do_free m G l Hst Hva Hal
    Hmax Hmap Hfree)) as ([] & m' & Hr & H1 & H2 & _ & H4). rewrite Z2Nat.id in H4 by done. by exists m'.
Qed.

(** ** Witnesses: a machine with four free pages *)

Definition boot_mem : vmem := {| ptes := ∅; bytes := ∅; vkm := Kalloc.kempty |}.

Lemma kend4_pos : 0 < Kalloc.kend4.
Proof. done. Qed.

Lemma subseteq_empty (b : gmap Z Z) : b ⊆ ∅ -> b = ∅.
Proof.
  intros H. apply map_empty. intros i. destruct (b !! i) as [v|] eqn:E; [|done].
  by apply (lookup_weaken _ _ _ _ E) in H.
Qed.

(** The free pages, in the order the allocator hands them out. *)
Lemma ex_free_pages :
  exists k, Kalloc.klist Kalloc.kend4 k (rev (Kalloc.pages Kalloc.kend4 PHYSTOP)).
Proof.
  destruct (wp_elim _ _ _ (Kalloc.kinit_list Kalloc.kend4 kend4_pos Kalloc.kempty
    ltac:(vm_compute; congruence) ltac:(split; [done|constructor|constructor]))) as ([] & k & _ & Hk).
  by exists k.
Qed.

(** An empty page table and three free pages. *)
Lemma ex_table :
  exists m q l, length l = 3%nat /\ bytes m = ∅ /\ table_state Kalloc.kend4 m q {[q := []]} l /\
    forall va, 0 <= va < MAXVA -> leaf_pte m q va = 0.
Proof.
  destruct ex_free_pages as [k Hk].
  assert (Hl : exists q l, rev (Kalloc.pages Kalloc.kend4 PHYSTOP) = q :: l /\ length l = 3%nat).
  { do 2 eexists. split; vm_compute; reflexivity. }
  destruct Hl as (q & l & E & Hlen). rewrite E in Hk.
  destruct (wp_elim _ _ _ (uvmcreate_spec Kalloc.kend4 (set_vkm k boot_mem) q l kend4_pos Hk))
    as (r & m' & _ & _ & Hst & Hb & _ & Hz).
  exists m', q, l. split_and!; try done. by apply subseteq_empty.
Qed.

Lemma mappages_maps_witness :
  exists m q l, table_state Kalloc.kend4 m q {[q := []]} l /\
  exists r m' G' l', mappages q 0 PGSIZE KERNBASE PTE_R m = Ok r m' /\
    table_state Kalloc.kend4 m' q G' l' /\ took m {[q := []]} l m' G' l' /\
    (r = 0 /\ maps_to q PTE_R m m' (page_of 0) (page_of (0 + PGSIZE - 1)) KERNBASE \/
     r = -1 /\ l' = [] /\
     (Z.of_nat (length l) < 2 * ((page_of (0 + PGSIZE - 1) - page_of 0) / PGSIZE + 1)) /\
     forall x, 0 <= x < MAXVA -> ~ (page_of 0 <= page_of x <= page_of (0 + PGSIZE - 1)) ->
       leaf_pte m' q x = leaf_pte m q x).
Proof.
  destruct ex_table as (m & q & l & _ & _ & Hst & Hz). exists m, q, l. split; [done|].
  apply (mappages_maps Kalloc.kend4); try done.
  intros x Hx _. unfold unmapped_page. by rewrite Hz.
Defined.

(** The first page of the table mapped to [KERNBASE]. *)
Lemma ex_mapped :
  exists m q G l, bytes m = ∅ /\ table_state Kalloc.kend4 m q G l /\
    forall va, 0 <= va < MAXVA -> leaf_pte m q va =
      if decide (page_of va = 0) then map_entry KERNBASE (Z.lor (Z.lor PTE_R PTE_W) PTE_U) else 0.
Proof.
  destruct ex_table as (m & q & l & Hlen & Hb & Hst & Hz).
  destruct (wp_elim _ _ _ (mappages_page Kalloc.kend4 q (Z.lor (Z.lor PTE_R PTE_W) PTE_U) 0 KERNBASE m _ l
    kend4_pos Hst ltac:(done) ltac:(done) ltac:(unfold unmapped_page; by rewrite Hz)))
    as (r & m' & _ & G' & l' & Hst' & Htk & [(-> & _ & Hm)|(_ & _ & Hl & _)]); [|lia].
  exists m', q, G', l'. split_and!; [|done|].
  - destruct Htk as [_ _ _ _ _ Hs _]. rewrite Hb in Hs. by apply subseteq_empty.
  - intros va Hva. rewrite Hm by done. case_decide; [done|by apply Hz].
Qed.

Lemma uvmunmap_unmaps_witness :
  exists m q G l, table_state Kalloc.kend4 m q G l /\
  exists m', uvmunmap Kalloc.kend4 q 0 1 false m = Ok tt m' /\
    table_state Kalloc.kend4 m' q G l /\ bytes m' = bytes m /\
    forall x, 0 <= x < MAXVA -> leaf_pte m' q x =
      if decide (0 <= page_of x < 0 + 1 * PGSIZE) then 0 else leaf_pte m q x.
Proof.
  destruct ex_mapped as (m & q & G & l & _ & Hst & Hm). exists m, q, G, l. split; [done|].
  apply (uvmunmap_unmaps Kalloc.kend4 q 0 1 false m G l); try done.
  intros x Hx Hr. unfold leaf_mapped. cbv zeta. rewrite Hm by done.
  rewrite decide_True; [by vm_compute|].
  pose proof (page_of_aligned x) as Ha. apply Z.mod_divide in Ha as [z Hz]; [|done]. unfold PGSIZE in *. lia.
Defined.

Lemma copyout_copyin_witness :
  exists u, uaccess u 10 3 /\
  exists ok m', copyout (u_pt u) 10 [1; 2; 3] (u_mem u) = Ok ok m' /\
    let u' := {| u_mem := m'; u_pt := u_pt u |} in
    uinv u' /\ ptes m' = ptes (u_mem u) /\
    (ok = false <-> ~ uaccess u 10 3) /\
    (uaccess u 10 3 ->
       copyin (u_pt u) 10 3 m' = Ok ([1; 2; 3], true) m' /\
       forall a, ~ (10 <= a < 10 + 3) -> ubyte u' a = ubyte u a).
Proof.
  destruct ex_mapped as (m & q & G & l & Hb & [Hok _ _] & Hm).
  assert (Hx : forall a, 0 <= a < MAXVA ->
    xlate m q a = if decide (page_of a = 0) then KERNBASE else 0).
  { intros a Ha. rewrite (xlate_leaf m q G) by done. rewrite Hm by done. by case_decide. }
  exists {| u_mem := m; u_pt := q |}. split.
  - intros a Ha. unfold ubyte. cbn [u_mem u_pt]. rewrite decide_True by (rewrite MAXVA_val; lia).
    destruct (page_of_same 0 a) as [E _]; [change (page_of 0) with 0; unfold PGSIZE; lia|]. rewrite E, Hx by done.
    by rewrite decide_True.
  - apply (copyout_copyin {| u_mem := m; u_pt := q |} 10 [1; 2; 3]).
    + split; cbn [u_mem u_pt]; [rewrite Hb; by intros ? ? ?|].
      assert (Hz : forall a, 0 <= a -> a mod PGSIZE = 0 -> xlate m q a <> 0 -> a = 0).
      { intros a H0 Ha Hne. destruct (decide (MAXVA <= a)); [by rewrite xlate_high in Hne|].
        rewrite Hx, page_of_id in Hne by (done || lia). by case_decide. }
      intros p p' ? ? ? ? Hp E. rewrite (Hz p), (Hz p') by (done || congruence). done.
    + lia.
    + repeat constructor; unfold byte_ok; lia.
Defined.
