(* ===== verification/KernelMap.v ===== *)
(** * The kernel's address space: [kvmmake], [kvminit], [kvminithart] of
    kernel/vm.c and [proc_mapstacks] of kernel/proc.c

    The page table the kernel runs on, entry by entry.  The tables it needs are
    counted, so that enough free memory at boot is shown to be enough: two new
    tables at most for each region of 2 megabytes that is touched. *)

From S2P Require Import Prelude Layout Kalloc Vm Riscv PageTable.
Import Vm.

(** ** Code *)

(** A hart, the memory and the global [kernel_pagetable]. *)
Record kvm : Type := { kv_mem : vmem; kv_pt : Z; kv_csrs : csr -> Z; kv_tp : Z }.

Definition set_kmem (m : vmem) (s : kvm) : kvm :=
  {| kv_mem := m; kv_pt := kv_pt s; kv_csrs := kv_csrs s; kv_tp := kv_tp s |}.
Definition set_kpt (pt : Z) (s : kvm) : kvm :=
  {| kv_mem := kv_mem s; kv_pt := pt; kv_csrs := kv_csrs s; kv_tp := kv_tp s |}.

#[global] Instance kvm_csrs : HasCsrs kvm := {|
  get_csr c s := kv_csrs s c;
  set_csr c v s := {| kv_mem := kv_mem s; kv_pt := kv_pt s; kv_csrs := Riscv.upd c v (kv_csrs s); kv_tp := kv_tp s |};
  get_tp := kv_tp;
  set_tp v s := {| kv_mem := kv_mem s; kv_pt := kv_pt s; kv_csrs := kv_csrs s; kv_tp := v |} |}.

Definition kvminit (etext trampoline : Z) : M kvm unit :=
  pt <- lift kv_mem set_kmem (kvmmake etext trampoline) ;;
  modify (set_kpt pt).

(** The two fences order the writes to the table, which are in order here. *)
Definition kvminithart : M kvm unit :=
  pt <- gets kv_pt ;;
  w_satp (MAKE_SATP pt).

(** ** Counting tables *)

Definition region (a : Z) : Z := a / 2 ^ 21.

Lemma region_PX a b :
  0 <= a -> 0 <= b -> region a = region b -> PX 2 a = PX 2 b /\ PX 1 a = PX 1 b.
Proof.
  unfold region. intros Ha Hb E. rewrite !PX_div by lia. change (12 + 9 * 2) with (21 + 9). change (12 + 9 * 1) with 21.
  rewrite !Z.pow_add_r, <- !Z.div_div by done. by rewrite E.
Qed.

Lemma leaf_table_region m pt a b :
  0 <= a -> 0 <= b -> region a = region b -> leaf_table m pt a = leaf_table m pt b.
Proof. intros Ha Hb [E2 E1]%region_PX; [|done..]. unfold leaf_table, next_table, pte_addr. by rewrite E2, E1. Qed.

(** With its tables there, the walk allocates nothing. *)
Lemma walk_present m pt va t :
  0 <= va < MAXVA -> leaf_table m pt va = Some t -> walk pt va true m = Ok (pte_addr t 0 va) m.
Proof.
  intros Hva Ht. unfold walk. rewrite (proj2 (Z.leb_gt _ _)) by lia.
  unfold leaf_table, next_table in Ht. cbn [walk_levels]. unfold bind, gets.
  change (Z.of_nat 2) with 2. change (Z.of_nat 1) with 1.
  destruct (pte_flag (pte_at m (pte_addr pt 2 va)) PTE_V) eqn:E2; [|done]. cbn -[pte_addr] in Ht.
  destruct (pte_flag (pte_at m (pte_addr (PTE2PA _) 1 va)) PTE_V) eqn:E1; [|done]. by injection Ht as <-.
Qed.

(** The pages the walk to [a] may take. *)
Definition cost (m : vmem) (pt a : Z) : nat := if leaf_table m pt a is Some _ then 0 else 2.

Section counting.
Context (kend : Z) (Hkend : 0 < kend) (pt perm : Z).

Lemma map_round_cost a m G l :
  table_state kend m pt G l -> 0 <= a < MAXVA -> a mod PGSIZE = 0 -> (cost m pt a <= length l)%nat ->
  wp (walk pt a true) (fun e m1 => e <> 0 /\ exists G1 l1,
    (length l <= length l1 + cost m pt a)%nat /\ pte_at m1 e = leaf_pte m pt a /\
    forall v, table_state kend (put_pte m1 e v) pt G1 l1 /\ took m G l (put_pte m1 e v) G1 l1 /\
      cost (put_pte m1 e v) pt a = 0%nat /\
      forall va, 0 <= va < MAXVA -> leaf_pte (put_pte m1 e v) pt va =
        if decide (page_of va = a) then v else leaf_pte m pt va) m.
Proof.
  intros Hst Ha Hal Hlen. destruct Hst as [Hok Hf Hpg].
  assert (Hput : forall m1 G1 l1 t, ptok m1 pt G1 -> free_pages kend m1 G1 l1 -> took m G l m1 G1 l1 ->
    G1 !! t = Some [PX 2 a; PX 1 a] ->
    (forall va, 0 <= va < MAXVA -> leaf_pte m1 pt va = leaf_pte m pt va) ->
    forall v, table_state kend (put_pte m1 (t + 8 * PX 0 a) v) pt G1 l1 /\
      took m G l (put_pte m1 (t + 8 * PX 0 a) v) G1 l1 /\ cost (put_pte m1 (t + 8 * PX 0 a) v) pt a = 0%nat /\
      forall va, 0 <= va < MAXVA -> leaf_pte (put_pte m1 (t + 8 * PX 0 a) v) pt va =
        if decide (page_of va = a) then v else leaf_pte m pt va).
  { intros m1 G1 l1 t Hok1 Hf1 Htk Ht Hleaf v. pose proof (PX_range 0 a ltac:(lia) ltac:(lia)) as H0.
    assert (Hok2 : ptok (put_pte m1 (t + 8 * PX 0 a) v) pt G1) by (by apply (ptok_put _ _ _ Hok1 t _ _ _ Ht)).
    split_and!.
    - split; [done|exact Hf1|]. by apply (took_pages kend _ _ _ _ _ _ (proj1 Hf) Htk Hpg).
    - by apply (took_put m G l m1 pt G1 l1 t [PX 2 a; PX 1 a]).
    - unfold cost. by rewrite (proj2 (leaf_table_path _ pt G1 a t Hok2 ltac:(lia)) Ht).
    - intros va Hva. rewrite (leaf_pte_put _ _ _ Hok1 t a _ va Ht), (page_of_id a) by done.
      case_decide; [done|by apply Hleaf]. }
  unfold cost in *. destruct (leaf_table m pt a) as [t|] eqn:Et.
  - unfold wp. rewrite (walk_present m pt a t Ha Et). apply (leaf_table_path _ _ G) in Et as Ht; [|done|lia].
    pose proof (pk_page _ _ _ Hok t _ Ht). pose proof (PX_range 0 a ltac:(lia) ltac:(lia)).
    unfold pte_addr. split; [lia|]. exists G, l. split_and!; [lia| |].
    + unfold leaf_pte. by rewrite Et.
    + apply Hput; try done. apply extends_took, extends_refl.
  - eapply wp_mono; [by apply (walk_alloc kend Hkend pt a m G l Hok Hf)|].
    intros e m1 (G1 & l1 & Hok1 & Hf1 & Hex & [(_ & _ & ?)|(t & Ht & -> & Hne & Hl)]); [lia|].
    split; [done|]. exists G1, l1. split; [done|].
    assert (Hleaf : forall va, 0 <= va < MAXVA -> leaf_pte m1 pt va = leaf_pte m pt va)
      by (intros; eapply extends_leaf_pte; (done || lia)).
    split; [|apply Hput; try done; by apply extends_took].
    rewrite <- Hleaf by done. unfold leaf_pte. by rewrite (proj2 (leaf_table_path m1 pt G1 a t Hok1 ltac:(lia)) Ht).
Qed.

(** The next page is in the same region or begins the next one. *)
Lemma next_region a : 0 <= a -> a mod PGSIZE = 0 ->
  region (a + PGSIZE) = region a \/ region (a + PGSIZE) = region a + 1.
Proof. intros Ha _. unfold region, PGSIZE. change (2 ^ 21) with 2097152. Z.to_euclidean_division_equations. lia. Qed.

Lemma region_mono a b : a <= b -> region a <= region b.
Proof. intros H. unfold region. by apply Z.div_le_mono. Qed.

Definition budget (m : vmem) (a last : Z) : Z := Z.of_nat (cost m pt a) + 2 * (region last - region a).

Lemma budget_cost m a last (n : nat) : a <= last -> budget m a last <= Z.of_nat n -> (cost m pt a <= n)%nat.
Proof. intros Hle. pose proof (region_mono a last Hle). unfold budget. lia. Qed.

Lemma budget_next m m2 a last :
  0 <= a -> a mod PGSIZE = 0 -> a + PGSIZE <= last -> cost m2 pt a = 0%nat ->
  budget m2 (a + PGSIZE) last + Z.of_nat (cost m pt a) <= budget m a last.
Proof.
  intros Ha Hal Hle Hc. unfold budget. assert (cost m2 pt (a + PGSIZE) <= 2)%nat by (unfold cost; case_match; lia).
  destruct (next_region a Ha Hal) as [E|E]; [|lia]. rewrite E.
  assert (cost m2 pt (a + PGSIZE) = 0%nat); [|lia]. unfold cost in *.
  by rewrite (leaf_table_region m2 pt (a + PGSIZE) a) by (done || (unfold PGSIZE; lia)).
Qed.

Lemma mappages_loop_cost n a pa m G l :
  table_state kend m pt G l -> 0 <= a -> a mod PGSIZE = 0 -> a + Z.of_nat n * PGSIZE < MAXVA ->
  0 <= pa -> pa + Z.of_nat n * PGSIZE < 2 ^ 64 ->
  (forall va, 0 <= va < MAXVA -> a <= page_of va <= a + Z.of_nat n * PGSIZE -> unmapped_page m pt va) ->
  budget m a (a + Z.of_nat n * PGSIZE) <= Z.of_nat (length l) ->
  wp (mappages_loop (S n) pt a (a + Z.of_nat n * PGSIZE) pa perm) (fun r m' => r = 0 /\ exists G' l',
    table_state kend m' pt G' l' /\ took m G l m' G' l' /\
    Z.of_nat (length l) <= Z.of_nat (length l') + budget m a (a + Z.of_nat n * PGSIZE) /\
    maps_to pt perm m m' a (a + Z.of_nat n * PGSIZE) pa) m.
Proof.
  revert a pa m G l. induction n as [|n IH]; intros a pa m G l Hst Ha Hal Hlast Hpa Hpl Hun Hb;
    rewrite mappages_loop_S; assert (Ha' : 0 <= a < MAXVA) by (unfold PGSIZE in *; lia);
    assert (Hc0 : (cost m pt a <= length l)%nat) by (eapply budget_cost; [|exact Hb]; unfold PGSIZE; lia);
    (wp_use (map_round_cost a m G l Hst Ha' Hal Hc0));
    intros e m1 (Hne & G1 & l1 & Hlen & Hv & He); rewrite (proj2 (Z.eqb_neq _ _) Hne).
  all: apply wp_bind, wp_gets; rewrite Hv.
  all: rewrite Hun by (rewrite ?page_of_id by done; unfold PGSIZE; lia).
  all: apply wp_bind, wp_modify; destruct (He (map_entry pa perm)) as (Hst2 & Htk & Hc & Hput);
    unfold put_pte in Hst2, Htk, Hput, Hc; set (m2 := set_ptes _ m1) in *.
  - rewrite (proj2 (Z.eqb_eq _ _)) by lia. apply wp_ret. split; [done|]. exists G1, l1.
    pose proof (region_mono a (a + Z.of_nat 0 * PGSIZE) ltac:(lia)).
    split_and!; try done; [unfold budget in *; lia|]. intros va Hva. rewrite Hput by done.
    destruct (decide (page_of va = a)) as [E|E].
    + rewrite decide_True by lia. f_equal. lia.
    + rewrite decide_False by lia. done.
  - rewrite (proj2 (Z.eqb_neq _ _)) by (unfold PGSIZE; lia).
    rewrite !u64_small by (rewrite ?MAXVA_val in *; unfold PGSIZE in *; lia).
    replace (a + Z.of_nat (S n) * PGSIZE) with (a + PGSIZE + Z.of_nat n * PGSIZE) in * by lia.
    pose proof (budget_next m m2 a (a + PGSIZE + Z.of_nat n * PGSIZE) Ha Hal ltac:(unfold PGSIZE; lia) Hc) as Hbn.
    eapply wp_mono; [apply (IH (a + PGSIZE) (pa + PGSIZE) m2 G1 l1 Hst2)|].
    + unfold PGSIZE; lia.
    + by rewrite Z.add_mod, Hal, Z_mod_same_full by done.
    + done.
    + unfold PGSIZE; lia.
    + unfold PGSIZE in *; lia.
    + intros va Hva Hr. unfold unmapped_page. rewrite Hput, decide_False by (done || (unfold PGSIZE in *; lia)).
      apply Hun; [done|]. unfold PGSIZE in *; lia.
    + lia.
    + intros r m' (-> & G' & l' & Hst' & Htk' & Hl' & Hm). split; [done|]. exists G', l'.
      split_and!; [done|by eapply took_trans|lia|]. eapply (maps_to_cons pt perm m m2); [done|unfold PGSIZE; lia|done|done].
Qed.
End counting.

(** [kvmmap] on page-aligned ranges, with [tables] for the worst case. *)
Definition tables (va size : Z) : Z := 2 * (region (va + size - 1) - region va + 1).

Lemma region_page x : region (page_of x) = region x.
Proof.
  unfold region, page_of, PGSIZE. change (2 ^ 21) with 2097152. Z.to_euclidean_division_equations. lia.
Qed.

Lemma kvmmap_wp kend pt va pa size perm m G l :
  0 < kend -> table_state kend m pt G l ->
  0 <= va -> va mod PGSIZE = 0 -> 0 < size -> va + size <= MAXVA -> 0 <= pa -> pa + size + PGSIZE <= 2 ^ 64 ->
  (forall x, 0 <= x < MAXVA -> va <= page_of x < va + size -> leaf_pte m pt x = 0) ->
  tables va size <= Z.of_nat (length l) ->
  wp (kvmmap pt va pa size perm) (fun _ m' => exists G' l',
    table_state kend m' pt G' l' /\ took m G l m' G' l' /\
    Z.of_nat (length l) <= Z.of_nat (length l') + tables va size /\
    forall x, 0 <= x < MAXVA -> leaf_pte m' pt x =
      if decide (va <= page_of x < va + size) then map_entry (pa + (page_of x - va)) perm else leaf_pte m pt x) m.
Proof.
  intros Hk Hst Hva Hal Hsz Hmax Hpa Hpl Hun Htab. pose proof MAXVA_val as HM.
  assert (Hpg : forall x, page_of x <= x < page_of x + PGSIZE)
    by (intros x; unfold page_of; pose proof (Z.mod_pos_bound x PGSIZE PGSIZE_pos); lia).
  pose proof (Hpg (va + size - 1)). pose proof (page_of_aligned (va + size - 1)) as Hl.
  assert (Hin : forall x, va <= page_of x < va + size <-> va <= page_of x <= page_of (va + size - 1)).
  { intros x. pose proof (page_of_aligned x) as Hx. apply Z.mod_divide in Hx as [z Hz]; [|done].
    apply Z.mod_divide in Hl as [z' Hz']; [|done]. unfold PGSIZE in *. lia. }
  assert (E : exists n : nat, page_of (va + size - 1) = va + Z.of_nat n * PGSIZE).
  { apply Z.mod_divide in Hal as [z Hz]; [|done]. apply Z.mod_divide in Hl as [z' Hz']; [|done].
    exists (Z.to_nat (z' - z)). unfold PGSIZE in *. lia. }
  destruct E as [n E]. unfold kvmmap, mappages. rewrite (proj2 (Z.eqb_neq _ _)) by lia. apply wp_bind.
  rewrite u64_small, !page_round, (page_of_id va) by (done || lia). rewrite E.
  replace (va + Z.of_nat n * PGSIZE - va) with (Z.of_nat n * PGSIZE) by lia.
  rewrite Z.div_mul, Nat2Z.id by done.
  assert (Hbud : budget pt m va (va + Z.of_nat n * PGSIZE) <= tables va size).
  { unfold budget, tables. rewrite <- E, region_page. assert (cost m pt va <= 2)%nat by (unfold cost; case_match; lia). lia. }
  eapply wp_mono; [apply (mappages_loop_cost kend Hk pt perm n va pa m G l Hst Hva Hal); try lia|].
  - intros x Hx Hr. unfold unmapped_page. rewrite Hun; [done|done|]. apply Hin. by rewrite E.
  - intros r m' (-> & G' & l' & Hst' & Htk & Hlen & Hm). cbn [Z.eqb]. apply wp_ret. exists G', l'.
    split_and!; [done|done|lia|]. intros x Hx. rewrite (Hm x Hx), <- E.
    destruct (decide (va <= page_of x <= page_of (va + size - 1))) as [H1|H1].
    + by rewrite decide_True by (apply Hin; exact H1).
    + by rewrite decide_False by (intros H2; apply H1, Hin, H2).
Qed.

(** ** The map *)

Section kernel.
Context (kend : Z) (Hkend : 0 < kend) (etext trampoline : Z).
Hypothesis Hetext : KERNBASE < etext < PHYSTOP /\ etext mod PGSIZE = 0.
Hypothesis Htramp : 0 <= trampoline < PHYSTOP.

(** What [kvmmake] has mapped before the stacks, at page [p]. *)
Definition fixed_map (p : Z) : Z :=
  if decide (TRAMPOLINE <= p < TRAMPOLINE + PGSIZE) then map_entry (trampoline + (p - TRAMPOLINE)) (Z.lor PTE_R PTE_X)
  else if decide (etext <= p < PHYSTOP) then map_entry p (Z.lor PTE_R PTE_W)
  else if decide (KERNBASE <= p < etext) then map_entry p (Z.lor PTE_R PTE_X)
  else if decide (PLIC <= p < PLIC + 0x400000) then map_entry p (Z.lor PTE_R PTE_W)
  else if decide (VIRTIO0 <= p < VIRTIO0 + PGSIZE) then map_entry p (Z.lor PTE_R PTE_W)
  else if decide (UART0 <= p < UART0 + PGSIZE) then map_entry p (Z.lor PTE_R PTE_W)
  else 0.

(** The mapping is [f] on pages, and the pages [S] are neither free nor tables. *)
Definition stands (pt : Z) (f : Z -> Z) (S : list Z) (m : vmem) (l : list Z) : Prop :=
  exists G, table_state kend m pt G l /\ (forall q, q ∈ S -> G !! q = None /\ q ∉ l) /\
    forall x, 0 <= x < MAXVA -> leaf_pte m pt x = f (page_of x).

Definition override (va pa size perm : Z) (f : Z -> Z) (p : Z) : Z :=
  if decide (va <= p < va + size) then map_entry (pa + (p - va)) perm else f p.

Lemma kvmmap_stands pt f S va pa size perm m l :
  stands pt f S m l -> 0 <= va -> va mod PGSIZE = 0 -> 0 < size -> va + size <= MAXVA -> 0 <= pa ->
  pa + size + PGSIZE <= 2 ^ 64 -> (forall p, va <= p < va + size -> f p = 0) ->
  tables va size <= Z.of_nat (length l) ->
  wp (kvmmap pt va pa size perm) (fun _ m' => exists l', stands pt (override va pa size perm f) S m' l' /\
    l' ⊆ l /\ Z.of_nat (length l) <= Z.of_nat (length l') + tables va size) m.
Proof.
  intros (G & Hst & HS & Hf) Hva Hal Hsz Hmax Hpa Hpl Hun Htab.
  eapply wp_mono; [apply (kvmmap_wp kend pt va pa size perm m G l Hkend Hst); try done|].
  - intros x Hx Hr. rewrite Hf by done. by apply Hun.
  - intros [] m' (G' & l' & Hst' & Htk & Hlen & Hm). pose proof (took_sub _ _ _ _ _ _ Htk) as Hsub.
    exists l'. split_and!; [|done|done]. exists G'. split_and!; [done| |].
    + intros q Hq. destruct (HS q Hq) as [Hn Hl]. split; [by eapply took_none|set_solver].
    + intros x Hx. rewrite (Hm x Hx). unfold override. case_decide; [done|by apply Hf].
Qed.

(** The pages all of [kvmmake] needs, at most. *)
Definition KPAGES : Z := 333.

Lemma tables_bounds :
  tables UART0 PGSIZE = 2 /\ tables VIRTIO0 PGSIZE = 2 /\ tables PLIC 0x400000 = 4 /\ tables TRAMPOLINE PGSIZE = 2 /\
  tables KERNBASE (etext - KERNBASE) + tables etext (PHYSTOP - etext) <= 130.
Proof.
  split_and!; [done..|]. unfold tables. pose proof (region_mono (KERNBASE + (etext - KERNBASE) - 1) etext ltac:(lia)) as H.
  replace (etext + (PHYSTOP - etext) - 1) with (PHYSTOP - 1) by lia.
  assert (region (PHYSTOP - 1) - region KERNBASE = 63) by done. lia.
Qed.

Lemma tables_pos va size : 0 < size -> 0 < tables va size.
Proof. intros H. unfold tables. pose proof (region_mono va (va + size - 1) ltac:(lia)). lia. Qed.

(** Before the stacks. *)
Definition kvmmake_fixed (pt : Z) : M vmem unit :=
  kvmmap pt UART0 UART0 PGSIZE (Z.lor PTE_R PTE_W) ;;
  kvmmap pt VIRTIO0 VIRTIO0 PGSIZE (Z.lor PTE_R PTE_W) ;;
  kvmmap pt PLIC PLIC 0x400000 (Z.lor PTE_R PTE_W) ;;
  kvmmap pt KERNBASE KERNBASE (etext - KERNBASE) (Z.lor PTE_R PTE_X) ;;
  kvmmap pt etext etext (PHYSTOP - etext) (Z.lor PTE_R PTE_W) ;;
  kvmmap pt TRAMPOLINE trampoline PGSIZE (Z.lor PTE_R PTE_X).

Lemma stands_ext pt f g S m l : (forall p, f p = g p) -> stands pt f S m l -> stands pt g S m l.
Proof. intros E (G & H1 & H2 & H3). exists G. split_and!; [done|done|]. intros x Hx. by rewrite H3. Qed.

Ltac numbers :=
  unfold UART0, VIRTIO0, PLIC, TRAMPOLINE, PHYSTOP, KERNBASE, PGSIZE in *; pose proof MAXVA_val as HMAX;
  change (2 ^ 38) with 274877906944 in HMAX; change (2 ^ 64) with 18446744073709551616 in *; rewrite ?HMAX in *; lia.
(** The conditions of [kvmmap_stands] for one of the ranges. *)
Ltac range_ok :=
  first [ eassumption | reflexivity | lia | numbers
        | intros p Hp; unfold override; rewrite ?decide_False by numbers; reflexivity ].

Lemma kvmmake_fixed_wp pt m l :
  stands pt (fun _ => 0) [] m l -> 140 <= Z.of_nat (length l) ->
  wp (kvmmake_fixed pt) (fun _ m' => exists l', stands pt fixed_map [] m' l' /\ l' ⊆ l /\
    Z.of_nat (length l) <= Z.of_nat (length l') + 140) m.
Proof.
  intros H0 Hl. destruct tables_bounds as (T1 & T2 & T3 & T4 & T5). destruct Hetext as [He Hea].
  pose proof (tables_pos KERNBASE (etext - KERNBASE) ltac:(lia)) as P1. pose proof (tables_pos etext (PHYSTOP - etext) ltac:(lia)) as P2.
  unfold kvmmake_fixed. apply wp_bind. eapply wp_mono; [eapply kvmmap_stands; range_ok|]. intros [] m1 (l1 & H1 & S1 & L1).
  apply wp_bind. eapply wp_mono; [eapply kvmmap_stands; range_ok|]. intros [] m2 (l2 & H2 & S2 & L2).
  apply wp_bind. eapply wp_mono; [eapply kvmmap_stands; range_ok|]. intros [] m3 (l3 & H3 & S3 & L3).
  apply wp_bind. eapply wp_mono; [eapply kvmmap_stands; range_ok|]. intros [] m4 (l4 & H4 & S4 & L4).
  apply wp_bind. eapply wp_mono; [eapply kvmmap_stands; range_ok|]. intros [] m5 (l5 & H5 & S5 & L5).
  eapply wp_mono; [eapply kvmmap_stands; range_ok|]. intros [] m6 (l6 & H6 & S6 & L6).
  exists l6. split_and!; [|set_solver|lia]. eapply stands_ext; [|exact H6]. intros p. unfold override, fixed_map.
  replace (etext + (PHYSTOP - etext)) with PHYSTOP by lia. replace (KERNBASE + (etext - KERNBASE)) with etext by lia.
  assert (E : forall a, a + (p - a) = p) by (intros; lia). by rewrite !E.
Qed.

(** *** The stacks *)

(** The map with the stacks [stacks] of processes 0, 1, ... *)
Fixpoint kernel_map (stacks : list Z) (i : Z) (f : Z -> Z) (p : Z) : Z :=
  match stacks with
  | [] => f p
  | pa :: stacks => kernel_map stacks (i + 1) (override (KSTACK i) pa PGSIZE (Z.lor PTE_R PTE_W) f) p
  end.

Lemma KSTACK_facts i : 0 <= i < 64 ->
  0 <= KSTACK i /\ KSTACK i mod PGSIZE = 0 /\ KSTACK i + PGSIZE <= MAXVA /\ tables (KSTACK i) PGSIZE = 2 /\
  PHYSTOP <= KSTACK i /\ KSTACK i + 2 * PGSIZE <= TRAMPOLINE.
Proof.
  clear. intros Hi. unfold KSTACK, tables, region, TRAMPOLINE. pose proof MAXVA_val as HM. change (2 ^ 38) with 274877906944 in HM.
  rewrite HM. unfold PHYSTOP, KERNBASE, PGSIZE. change (2 ^ 21) with 2097152.
  split_and!; Z.to_euclidean_division_equations; lia.
Qed.

Lemma proc_mapstacks_wp n pt S f i m l :
  stands pt f S m l -> 0 <= i -> i + Z.of_nat n <= 64 -> 3 * Z.of_nat n <= Z.of_nat (length l) ->
  (forall j p, i <= j < 64 -> KSTACK j <= p < KSTACK j + PGSIZE -> f p = 0) ->
  wp (proc_mapstacks n i pt) (fun _ m' => exists stacks l', length stacks = n /\
    stands pt (kernel_map stacks i f) (stacks ++ S) m' l' /\ l' ⊆ l /\
    NoDup stacks /\ stacks ⊆ l /\ Forall (Kalloc.page_ok kend) stacks) m.
Proof.
  revert S f i m l. induction n as [|n IH]; intros S f i m l Hs Hi Hn Hl Hf; cbn [proc_mapstacks].
  { apply wp_ret. exists [], l. split_and!; try done; [constructor|set_solver]. }
  destruct Hs as (G & [Hok [Hkl Hdis] Hpg] & HS & Hm). wp_use (vkalloc_spec kend Hkend m l Hkl).
  intros pa m1 (Ep & Eb & Hpa). destruct l as [|q l]; [cbn in Hl; lia|].
  destruct Hpa as (-> & Hq0 & Hkl1 & Hqok). rewrite (proj2 (Z.eqb_neq _ _) Hq0).
  assert (Hql : q ∉ l) by (destruct Hkl as [_ [? _]%NoDup_cons _]; done).
  destruct (page_ok_range kend Hkend q Hqok) as [_ Hqr]. destruct (KSTACK_facts i ltac:(lia)) as (K1 & K2 & K3 & K4 & _).
  assert (H1 : stands pt f (q :: S) m1 l).
  { exists G. split_and!.
    - split; [by apply (ptok_ptes pt m m1)|split; [done|]|done]. intros x Hx. apply Hdis. set_solver.
    - intros x [->|Hx]%elem_of_cons; [split; [apply Hdis; set_solver|done]|]. destruct (HS x Hx). set_solver.
    - intros x Hx. rewrite <- Hm by done. unfold leaf_pte, leaf_table, next_table, pte_at. by rewrite Ep. }
  apply wp_bind. eapply wp_mono; [apply (kvmmap_stands pt f (q :: S) (KSTACK i) q PGSIZE (Z.lor PTE_R PTE_W) m1 l H1); try done|].
  - lia.
  - change (2 ^ 56) with 72057594037927936 in Hqr. change (2 ^ 64) with 18446744073709551616. unfold PGSIZE. lia.
  - intros p Hp. apply (Hf i p); [lia|done].
  - cbn [length] in Hl. lia.
  - intros [] m2 (l2 & H2 & Hsub & Hlen). rewrite K4 in Hlen. cbn [length] in Hl.
    eapply wp_mono; [apply (IH (q :: S) _ (i + 1) m2 l2 H2); [lia|lia|lia|]|].
    + intros j p Hj Hp. unfold override. rewrite decide_False; [by apply (Hf j); [lia|]|].
      revert Hp. unfold KSTACK, PGSIZE. lia.
    + intros [] m3 (stacks & l3 & Hst & H3 & Hsub3 & Hnd & Hin & Hok3). exists (q :: stacks), l3. cbn [length kernel_map].
      assert (Hq2 : q ∉ l2) by set_solver. split_and!; [lia| |set_solver|constructor; [set_solver|done]|set_solver|by constructor].
      destruct H3 as (G3 & A1 & A2 & A3). exists G3. split_and!; [done| |done].
      intros x Hx. apply A2. set_solver.
Qed.

(** In the page of the stack of process [i]. *)
Definition on_stack (i va : Z) : Prop := KSTACK i <= va < KSTACK i + PGSIZE.

Lemma on_stack_one i j va : on_stack i va -> on_stack j va -> i = j.
Proof. unfold on_stack, KSTACK, PGSIZE. lia. Qed.

Lemma kernel_map_other stacks i f p :
  (forall j, i <= j < i + Z.of_nat (length stacks) -> ~ on_stack j p) -> kernel_map stacks i f p = f p.
Proof.
  revert i f. induction stacks as [|pa stacks IH]; intros i f H; [done|]. cbn [kernel_map]. rewrite IH.
  - unfold override. rewrite decide_False; [done|]. apply H. cbn [length]. lia.
  - intros j Hj. apply H. cbn [length]. lia.
Qed.

Lemma kernel_map_stack stacks k pa i f p :
  stacks !! k = Some pa -> on_stack (i + Z.of_nat k) p ->
  kernel_map stacks i f p = map_entry (pa + (p - KSTACK (i + Z.of_nat k))) (Z.lor PTE_R PTE_W).
Proof.
  revert k i f. induction stacks as [|pa' stacks IH]; intros [|k] i f Hk Hp; try done; cbn [kernel_map].
  - injection Hk as ->. replace (i + Z.of_nat 0) with i in * by lia. rewrite kernel_map_other.
    + unfold override. by rewrite decide_True.
    + intros j Hj Hjp. pose proof (on_stack_one _ _ _ Hjp Hp). lia.
  - replace (i + Z.of_nat (S k)) with (i + 1 + Z.of_nat k) in * by lia. by apply IH.
Qed.

Lemma on_stack_page i va : 0 <= i < 64 -> on_stack i va -> page_of va = KSTACK i.
Proof.
  intros Hi. destruct (KSTACK_facts i Hi) as (_ & Hal & _). unfold on_stack, page_of. revert Hal. unfold PGSIZE.
  intros. Z.to_euclidean_division_equations; lia.
Qed.

(** A page is on a stack as a whole. *)
Lemma page_on_stack i va : 0 <= i < 64 -> on_stack i (page_of va) -> on_stack i va.
Proof.
  intros Hi. destruct (KSTACK_facts i Hi) as (_ & Hal & _). unfold on_stack, page_of. revert Hal. unfold PGSIZE.
  intros. Z.to_euclidean_division_equations; lia.
Qed.

Lemma fixed_map_hole p : PHYSTOP <= p < TRAMPOLINE -> fixed_map p = 0.
Proof. intros Hp. destruct Hetext as [? _]. unfold fixed_map. rewrite !decide_False; [done|numbers..]. Qed.

Lemma kvmmake_wp m l :
  Kalloc.klist kend (vkm m) l -> KPAGES <= Z.of_nat (length l) ->
  wp (kvmmake etext trampoline) (fun pt m' => exists stacks l', length stacks = NPROC /\
    stands pt (kernel_map stacks 0 fixed_map) stacks m' l' /\ l' ⊆ l /\ NoDup stacks /\ stacks ⊆ l) m.
Proof.
  intros Hl Hlen. unfold KPAGES in Hlen. unfold kvmmake. wp_use (vkalloc_spec kend Hkend m l Hl).
  intros r m1 (_ & _ & Hr). destruct l as [|q l]; [cbn in Hlen; lia|]. cbn [length] in Hlen.
  destruct Hr as (-> & Hq0 & Hl1 & Hq). rewrite (proj2 (Z.eqb_neq _ _) Hq0). apply wp_bind, wp_modify.
  destruct (empty_table kend m1 q l) as [Hts Hz]; try done; [by destruct Hl as [_ [? _]%NoDup_cons _]|].
  assert (H0 : stands q (fun _ => 0) [] (zero_page q m1) l).
  { exists {[q := []]}. split_and!; [done|set_solver|done]. }
  pose proof (kvmmake_fixed_wp q _ l H0 ltac:(lia)) as Hfix. unfold kvmmake_fixed in Hfix.
  do 5 (apply wp_bind; eapply wp_mono; [exact (wp_bind_inv _ _ _ _ Hfix)|clear Hfix; intros [] ? Hfix]).
  apply wp_bind. eapply wp_mono; [exact Hfix|clear Hfix]. intros [] m2 (l2 & H2 & Hs2 & Hl2). change NPROC with 64%nat.
  apply wp_bind. eapply wp_mono; [apply (proc_mapstacks_wp 64 q [] fixed_map 0 m2 l2 H2); [lia|lia|lia|]|].
  - intros j p Hj Hp. destruct (KSTACK_facts j Hj) as (_ & _ & _ & _ & Hlo & Hhi). apply fixed_map_hole.
    unfold PGSIZE in *. lia.
  - intros [] m3 (stacks & l3 & Hlen3 & H3 & Hs3 & Hnd & Hsub & _). apply wp_ret. rewrite app_nil_r in H3.
    exists stacks, l3. split_and!; [done|done|set_solver|done|set_solver].
Qed.

(** What the hardware reads back from [satp]: Sv39, and the root in its low bits. *)
Lemma satp_value p : 0 <= p < 2 ^ 56 -> p mod PGSIZE = 0 ->
  MAKE_SATP p = 2 ^ 63 + p / 2 ^ 12 /\ u64 (MAKE_SATP p) = MAKE_SATP p.
Proof.
  intros Hp Hal. assert (E : MAKE_SATP p = 2 ^ 63 + p / 2 ^ 12).
  { unfold MAKE_SATP. rewrite <- Z.shiftr_div_pow2 by lia. change SATP_SV39 with (2 ^ 63). symmetry. apply Z.add_nocarry_lor.
    apply Z.bits_inj'. intros n Hn. rewrite Z.land_spec, Z.bits_0, Z.pow2_bits_eqb by lia.
    destruct (63 =? n) eqn:En; [|done]. apply Z.eqb_eq in En as <-. rewrite Z.shiftr_spec by done.
    apply (Z.testbit_false p); [done|]. rewrite Z.div_small; [done|]. split; [lia|].
    apply Z.lt_le_trans with (2 ^ 56); [lia|]. by apply Z.pow_le_mono_r. }
  split; [done|]. rewrite E. apply u64_small. revert Hp. change (2 ^ 56) with 72057594037927936. change (2 ^ 64) with 18446744073709551616.
  change (2 ^ 63) with 9223372036854775808. change (2 ^ 12) with 4096. intros. Z.to_euclidean_division_equations; lia.
Qed.

(** Claim C20: with 333 free pages or more, the kernel's page table is made
    without a panic and [satp] is set to it.  What each virtual address is mapped
    to is then: the devices, the text (read and execute) and the rest of RAM
    (read and write) at their own address, the trampoline at the top, the stack of
    process [i] at [KSTACK i] on a page of its own that the allocator no longer
    has, and nothing else; so the page above each stack is a guard. *)
Theorem kernel_space s l :
  Kalloc.klist kend (vkm (kv_mem s)) l -> KPAGES <= Z.of_nat (length l) ->
  exists s' stacks l', (kvminit etext trampoline ;; kvminithart) s = Ok tt s' /\
    kv_csrs s' satp = 2 ^ 63 + kv_pt s' / 2 ^ 12 /\ Kalloc.klist kend (vkm (kv_mem s')) l' /\ l' ⊆ l /\
    length stacks = NPROC /\ NoDup stacks /\ (forall q, q ∈ stacks -> q ∈ l /\ q ∉ l') /\
    (forall i pa va, stacks !! i = Some pa -> on_stack (Z.of_nat i) va ->
      leaf_pte (kv_mem s') (kv_pt s') va = map_entry pa (Z.lor PTE_R PTE_W)) /\
    (forall va, 0 <= va < MAXVA -> (forall i, 0 <= i < 64 -> ~ on_stack i va) ->
      leaf_pte (kv_mem s') (kv_pt s') va = fixed_map (page_of va)) /\
    (forall i va, 0 <= i < 64 -> KSTACK i + PGSIZE <= va < KSTACK i + 2 * PGSIZE ->
      leaf_pte (kv_mem s') (kv_pt s') va = 0).
Proof.
  intros Hl Hlen. destruct (wp_elim _ _ _ (kvmmake_wp _ l Hl Hlen)) as (pt & m' & E & stacks & l' & Hn & Hst & Hs & Hnd & Hin).
  destruct Hst as (G & [Hok [Hkl _] _] & HS & Hm). destruct (pk_page _ _ _ Hok _ _ (pk_root _ _ _ Hok)) as (Hpta & Hptr & _).
  destruct (satp_value pt ltac:(lia) Hpta) as [Esatp Eu].
  assert (Hoth : forall va, 0 <= va < MAXVA -> (forall i, 0 <= i < 64 -> ~ on_stack i va) ->
    leaf_pte m' pt va = fixed_map (page_of va)).
  { intros va Hva Hno. rewrite Hm by done. apply kernel_map_other. rewrite Hn. change NPROC with 64%nat.
    intros j Hj Hp. apply (Hno j); [lia|]. apply page_on_stack; [lia|done]. }
  exists (set_csr satp (MAKE_SATP pt) (set_kpt pt (set_kmem m' s))), stacks, l'. split_and!; try done.
  - unfold kvminit, kvminithart, w_satp, csrw, bind, lift, modify, gets. rewrite E. cbn [kv_pt set_kpt]. by rewrite Eu.
  - intros q Hq. split; [by apply Hin|by apply HS].
  - intros i pa va Hi Hva. pose proof (lookup_lt_Some _ _ _ Hi) as Hi64. rewrite Hn in Hi64. change NPROC with 64%nat in Hi64.
    destruct (KSTACK_facts (Z.of_nat i) ltac:(lia)) as (K1 & _ & K3 & _). cbn [kv_mem kv_pt set_csr kvm_csrs set_kpt set_kmem].
    rewrite Hm by (unfold on_stack in Hva; lia). rewrite (on_stack_page (Z.of_nat i) va ltac:(lia) Hva).
    rewrite (kernel_map_stack stacks i pa 0 fixed_map _ Hi); rewrite Z.add_0_l.
    + by rewrite Z.sub_diag, Z.add_0_r.
    + unfold on_stack, PGSIZE. lia.
  - intros i va Hi Hva. destruct (KSTACK_facts i Hi) as (K1 & K2 & K3 & _ & K5 & K6). cbn [kv_mem kv_pt set_csr kvm_csrs set_kpt set_kmem].
    pose proof MAXVA_val as HM. assert (HT : TRAMPOLINE < MAXVA) by done.
    rewrite Hoth; [|lia|].
    + apply fixed_map_hole. revert Hva K2 K5 K6. unfold page_of. generalize (KSTACK i) TRAMPOLINE PHYSTOP. unfold PGSIZE.
      intros a b c ? ? ? ?. Z.to_euclidean_division_equations; lia.
    + intros j Hj. revert Hva. unfold on_stack, KSTACK, PGSIZE. lia.
Qed.
End kernel.

(** A machine with 512 free pages. *)
Definition ex_kend : Z := PHYSTOP - 512 * PGSIZE.

Lemma ex_kfree : exists k l, Kalloc.klist ex_kend k l /\ length l = 512%nat.
Proof.
  destruct (wp_elim _ _ _ (Kalloc.kinit_list ex_kend ltac:(done) Kalloc.kempty
    ltac:(vm_compute; congruence) ltac:(split; [done|constructor|constructor]))) as ([] & k & _ & Hk).
  exists k, (rev (Kalloc.pages ex_kend PHYSTOP)). split; [done|]. by vm_compute.
Qed.

Definition ex_kvm (k : Kalloc.kmem) : kvm :=
  {| kv_mem := set_vkm k boot_mem; kv_pt := 0; kv_csrs := fun _ => 0; kv_tp := 0 |}.

Lemma kernel_space_witness :
  exists k s' (stacks : list Z), (kvminit (KERNBASE + 16 * PGSIZE) (KERNBASE + 7 * PGSIZE) ;; kvminithart) (ex_kvm k) = Ok tt s' /\
    length stacks = 64%nat /\ leaf_pte (kv_mem s') (kv_pt s') (KERNBASE + 100) = map_entry KERNBASE (Z.lor PTE_R PTE_X).
Proof.
  destruct ex_kfree as (k & l & Hk & Hl).
  destruct (kernel_space ex_kend ltac:(done) (KERNBASE + 16 * PGSIZE) (KERNBASE + 7 * PGSIZE) ltac:(done) ltac:(done) (ex_kvm k) l Hk)
    as (s' & stacks & l' & E & _ & _ & _ & Hn & _ & _ & _ & Ho & _); [by rewrite Hl|].
  exists k, s', stacks. split_and!; [done|done|]. rewrite Ho; [by vm_compute|done|].
  intros i Hi. destruct (KSTACK_facts i Hi) as (_ & _ & _ & _ & H & _). unfold on_stack. revert H. unfold PHYSTOP, KERNBASE. lia.
Defined.
