(* ===== verification/UserSpace.v ===== *)
(** * User address spaces (kernel/vm.c)

    The invariant [uspace] of a process's page table, and what growing
    ([uvmalloc]), shrinking ([uvmdealloc]) and loading the first program
    ([uvmfirst]) do to the user's memory, the failing paths included. *)

From S2P Require Import Prelude Layout Kalloc UserMem Vm PageTable.
Import Vm.

(** ** Pages *)

Lemma in_page_disjoint p q a :
  p mod PGSIZE = 0 -> q mod PGSIZE = 0 -> in_page p a = true -> p <> q -> in_page q a = false.
Proof.
  intros [z ->]%Z.mod_divide [z' ->]%Z.mod_divide; [|done..]. unfold in_page, PGSIZE. intros Ha Hne.
  zify_bool. apply andb_false_iff. destruct (decide (z' * 4096 <= a)).
  - right. apply Z.ltb_ge. lia.
  - left. apply Z.leb_gt. lia.
Qed.

Lemma aligned_lt x y : x mod PGSIZE = 0 -> y mod PGSIZE = 0 -> x < y -> x + PGSIZE <= y.
Proof. intros [z ->]%Z.mod_divide [z' ->]%Z.mod_divide; [|done..]. unfold PGSIZE. lia. Qed.

(** The tree is the same on machines that agree on the tables. *)
Lemma tables_same m m' pt G :
  ptok m pt G ->
  (forall t p i, G !! t = Some p -> 0 <= i < 512 -> pte_at m' (t + 8 * i) = pte_at m (t + 8 * i)) ->
  ptok m' pt G /\ forall va, 0 <= va -> leaf_pte m' pt va = leaf_pte m pt va.
Proof.
  intros Hok Hp.
  assert (Hok' : ptok m' pt G).
  { destruct Hok as [K1 K2 K3 K4 K5 K6 K7]. split; try done.
    - intros t p i Ht Hl Hi. rewrite (Hp t p) by done. by apply K3.
    - intros t p i Ht. destruct (K4 t p i Ht) as (a & Ha & Hi & Hv). exists a.
      by rewrite (Hp a p) by done.
    - intros t p i Ht Hl Hi. rewrite (Hp t p) by done. by apply (K7 t p). }
  split; [done|]. intros va Hva. unfold leaf_pte.
  assert (E : leaf_table m' pt va = leaf_table m pt va)
    by (apply option_eq; intros t; by rewrite !(leaf_table_path _ _ G)).
  rewrite E. destruct (leaf_table m pt va) as [t|] eqn:Et; [|done].
  apply (leaf_table_path _ _ G) in Et; [|done..]. by apply (Hp t _ _ Et), PX_range.
Qed.

(** Clearing a page that is not a table. *)
Lemma clear_page_ok m pt G q :
  ptok m pt G -> G !! q = None -> q mod PGSIZE = 0 ->
  ptok (zero_page q m) pt G /\ forall va, 0 <= va -> leaf_pte (zero_page q m) pt va = leaf_pte m pt va.
Proof.
  intros Hok Hq Hqa. apply tables_same; [done|]. intros t p i Ht Hi.
  destruct (pk_page _ _ _ Hok t p Ht) as [Ha _].
  rewrite pte_at_zero_page, in_page_table, bool_decide_false; congruence.
Qed.

Lemma leaf_pte_page m pt va : 0 <= va -> leaf_pte m pt va = leaf_pte m pt (page_of va).
Proof.
  intros Hva. unfold leaf_pte, leaf_table, next_table, pte_addr. by rewrite !PX_same by lia.
Qed.

(** ** The invariant *)

Definition valid (m : vmem) (pt va : Z) : bool := pte_flag (leaf_pte m pt va) PTE_V.
Definition phys (m : vmem) (pt va : Z) : Z := PTE2PA (leaf_pte m pt va).

(** The pages below [TRAPFRAME] are the process's own: none is free or a
    table, and no two of them share a physical page. *)
Record uspace (kend : Z) (m : vmem) (pt : Z) (G : gmap Z (list Z)) (l : list Z) : Prop := {
  us_table : table_state kend m pt G l;
  us_leaf : forall va, 0 <= va < TRAPFRAME -> valid m pt va = true ->
    PTE_FLAGS (leaf_pte m pt va) <> PTE_V /\ Kalloc.page_ok kend (phys m pt va) /\
    phys m pt va ∉ l /\ G !! phys m pt va = None;
  us_zero : forall va, 0 <= va < TRAPFRAME -> valid m pt va = false -> leaf_pte m pt va = 0;
  us_inj : forall va va', 0 <= va < TRAPFRAME -> 0 <= va' < TRAPFRAME ->
    valid m pt va = true -> valid m pt va' = true -> phys m pt va = phys m pt va' ->
    page_of va = page_of va';
}.

(** The process has the pages of [[0, sz)]. *)
Definition sized (m : vmem) (pt sz : Z) : Prop :=
  forall va, 0 <= va < TRAPFRAME -> valid m pt va = bool_decide (page_of va < sz).

(** What was mapped is mapped to the same bytes. *)
Definition keeps (m m' : vmem) (pt : Z) : Prop :=
  forall va, 0 <= va < TRAPFRAME -> valid m pt va = true ->
    leaf_pte m' pt va = leaf_pte m pt va /\
    forall x, in_page (phys m pt va) x = true -> byte_at m' x = byte_at m x.

Lemma keeps_refl m pt : keeps m m pt.
Proof. by intros va Hva Hv. Qed.

Lemma keeps_trans m m1 m2 pt : keeps m m1 pt -> keeps m1 m2 pt -> keeps m m2 pt.
Proof.
  intros H1 H2 va Hva Hv. destruct (H1 va Hva Hv) as [E1 B1].
  destruct (H2 va Hva) as [E2 B2]; [unfold valid; by rewrite E1|].
  split; [congruence|]. intros x Hx. rewrite B2, B1; try done. unfold phys. by rewrite E1.
Qed.

Lemma trapframe_max va : 0 <= va < TRAPFRAME -> 0 <= va < MAXVA.
Proof. unfold TRAPFRAME, TRAMPOLINE, PGSIZE. lia. Qed.
Lemma top_max va : TRAPFRAME <= va < MAXVA -> 0 <= va < MAXVA.
Proof. unfold TRAPFRAME, TRAMPOLINE. rewrite MAXVA_val. unfold PGSIZE. lia. Qed.
Lemma top_pos va : TRAPFRAME <= va < MAXVA -> 0 <= va.
Proof. intros ?%top_max. lia. Qed.
#[export] Hint Resolve trapframe_max top_max top_pos : core.

(** ** Whose pages they are *)

(** The pages of an address space: the free ones, its tables and its own. *)
Definition owns (m : vmem) (pt : Z) (G : gmap Z (list Z)) (l : list Z) (q : Z) : Prop :=
  q ∈ l \/ is_Some (G !! q) \/ exists va, 0 <= va < TRAPFRAME /\ valid m pt va = true /\ phys m pt va = q.

(** Pages outside of [P] keep their bytes and entries. *)
Definition untouched (P : Z -> Prop) (m m' : vmem) : Prop :=
  (forall p x, p mod PGSIZE = 0 -> ~ P p -> in_page p x = true -> byte_at m' x = byte_at m x) /\
  forall t i, t mod PGSIZE = 0 -> ~ P t -> 0 <= i < 512 -> pte_at m' (t + 8 * i) = pte_at m (t + 8 * i).

Lemma untouched_trans P m m1 m2 : untouched P m m1 -> untouched P m1 m2 -> untouched P m m2.
Proof.
  intros [B1 P1] [B2 P2]. split; [intros p x Hp Hn Hx|intros t i Ht Hn Hi].
  - by rewrite (B2 p), (B1 p).
  - by rewrite P2, P1.
Qed.

Lemma untouched_mono (P P' : Z -> Prop) m m' : (forall q, P q -> P' q) -> untouched P m m' -> untouched P' m m'.
Proof.
  intros E [B1 P1]. split; [intros p x Hp Hn Hx|intros t i Ht Hn Hi].
  - apply (B1 p); auto.
  - apply P1; auto.
Qed.

Lemma untouched_eq P m m' : ptes m' = ptes m -> bytes m' = bytes m -> untouched P m m'.
Proof. intros Ep Eb. split; intros; unfold byte_at, pte_at; by rewrite ?Ep, ?Eb. Qed.

(** No page is lost or gained, and no other page is touched; nor are the two
    entries from [TRAPFRAME] on. *)
Record conserves (pt : Z) (m : vmem) (G : gmap Z (list Z)) (l : list Z)
    (m' : vmem) (G' : gmap Z (list Z)) (l' : list Z) : Prop := {
  cv_owns : forall q, owns m' pt G' l' q <-> owns m pt G l q;
  cv_out : untouched (owns m pt G l) m m';
  cv_top : forall va, TRAPFRAME <= va < MAXVA -> leaf_pte m' pt va = leaf_pte m pt va;
  cv_bytes : map_Forall (fun _ v => byte_ok v) (bytes m) -> map_Forall (fun _ v => byte_ok v) (bytes m');
}.

Lemma conserves_refl pt m G l : conserves pt m G l m G l.
Proof. by split. Qed.

Lemma conserves_trans pt m G l m1 G1 l1 m2 G2 l2 :
  conserves pt m G l m1 G1 l1 -> conserves pt m1 G1 l1 m2 G2 l2 -> conserves pt m G l m2 G2 l2.
Proof.
  intros [O1 P1 T1 Y1] [O2 P2 T2 Y2]. split.
  - intros q. by rewrite O2.
  - eapply untouched_trans; [done|]. eapply untouched_mono; [apply O1|done].
  - intros va Hva. rewrite T2, T1; done.
  - auto.
Qed.

(** Machines that agree on tables and bytes. *)
Lemma conserves_eq pt m m' G l : ptes m' = ptes m -> bytes m' = bytes m -> conserves pt m G l m' G l.
Proof.
  intros Ep Eb. pose proof (same_ptes pt m m' Ep) as He. split.
  - intros q. unfold owns, valid, phys. by setoid_rewrite He.
  - by apply untouched_eq.
  - auto.
  - by rewrite Eb.
Qed.

(** The free pages in another order. *)
Lemma conserves_perm pt m G l l' : l ≡ₚ l' -> conserves pt m G l m G l'.
Proof. intros E. split; try done. intros q. unfold owns. by rewrite E. Qed.

(** At least [b] bytes of memory are free. *)
Definition spare (kend : Z) (m : vmem) (b : Z) : Prop :=
  exists l, Kalloc.klist kend (vkm m) l /\ b <= Z.of_nat (length l) * PGSIZE.

Lemma uspace_spare kend m pt G l b :
  0 < kend -> uspace kend m pt G l -> spare kend m b <-> b <= Z.of_nat (length l) * PGSIZE.
Proof.
  intros Hk [[_ [Hl _] _] _ _ _]. split; [|by exists l]. intros (l' & Hl' & Hb). by rewrite (Kalloc.klist_det kend Hk _ _ _ Hl Hl').
Qed.

(** Only the bytes differ. *)
Lemma uspace_bytes kend m m' pt G l :
  ptes m' = ptes m -> vkm m' = vkm m -> uspace kend m pt G l ->
  uspace kend m' pt G l /\ (forall sz, sized m pt sz -> sized m' pt sz) /\
  (forall q, owns m' pt G l q <-> owns m pt G l q).
Proof.
  intros Ep Ek [[U1 U2 U3] U4 U5 U6]. pose proof (same_ptes pt m m' Ep) as He. split_and!.
  - split.
    + split; [by apply (ptok_ptes pt m)|unfold free_pages; by rewrite Ek|done].
    + intros va. unfold valid, phys. rewrite He. apply U4.
    + intros va. unfold valid. rewrite He. apply U5.
    + intros va va'. unfold valid, phys. rewrite !He. apply U6.
  - intros sz Hs va Hva. unfold valid. rewrite He. by apply Hs.
  - intros q. unfold owns, valid, phys. by setoid_rewrite He.
Qed.

(** ** One more page *)

Lemma PTE2PA_entry pa perm :
  0 <= pa < 2 ^ 56 -> pa mod PGSIZE = 0 -> 0 <= perm < 1024 -> PTE2PA (map_entry pa perm) = pa.
Proof.
  intros Hp Ha Hf. unfold map_entry. rewrite <-Z.lor_assoc. apply PTE2PA_lor; [done..|].
  by apply lor_range.
Qed.

(** A leaf has one of the flags above [PTE_V]. *)
Lemma FLAGS_entry pa perm :
  0 <= pa < 2 ^ 56 -> pa mod PGSIZE = 0 -> 0 <= perm < 1024 ->
  PTE_FLAGS (map_entry pa perm) = Z.lor perm PTE_V.
Proof.
  intros Hp Ha Hf. unfold PTE_FLAGS, map_entry. rewrite <-Z.lor_assoc.
  change 0x3FF with (Z.ones 10). rewrite Z.land_lor_distr_l, !Z.land_ones by lia.
  rewrite PA2PTE_val by done. change (2 ^ 10) with 1024. rewrite Z.mod_mul by done.
  rewrite Z.lor_0_l. apply Z.mod_small. by apply lor_range.
Qed.

Section grow.
Context (kend : Z) (Hkend : 0 < kend) (pt : Z).

(** A page from the allocator is not used by anything. *)
Lemma fresh_page m G q l :
  uspace kend m pt G (q :: l) ->
  Kalloc.page_ok kend q /\ q mod PGSIZE = 0 /\ 0 < q < 2 ^ 56 /\ q ∉ l /\ G !! q = None /\
  forall va, 0 <= va < TRAPFRAME -> valid m pt va = true -> phys m pt va <> q.
Proof.
  intros [[Hok [Hl Hd] _] Hleaf _ _]. destruct Hl as [_ [Hn _]%NoDup_cons [Hq _]%Forall_cons].
  destruct (page_ok_range kend Hkend q Hq) as (? & ? & ?). split_and!; try done; [apply Hd; by left|].
  intros va Hva Hv E. destruct (Hleaf va Hva Hv) as (_ & _ & Hnl & _). apply Hnl. rewrite E. by left.
Qed.

(** The address space is the same on machines that agree on the tables. *)
Lemma uspace_free m m' G l l' :
  uspace kend m pt G l -> ptok m' pt G ->
  (forall va, 0 <= va -> leaf_pte m' pt va = leaf_pte m pt va) ->
  free_pages kend m' G l' -> l' ⊆ l -> uspace kend m' pt G l'.
Proof.
  intros [[_ _ Hpg] Hleaf Hz Hinj] Hok He Hf Hs. split; [done| | |]; unfold valid, phys in *.
  - intros va Hva. rewrite He by lia. intros Hv. destruct (Hleaf va Hva Hv) as (? & ? & Hn & ?).
    split_and!; try done. set_solver.
  - intros va Hva. rewrite He by lia. by apply Hz.
  - intros va va' Hva Hva'. rewrite !He by lia. by apply Hinj.
Qed.

(** A page no one uses. *)
Definition unused (m : vmem) (G : gmap Z (list Z)) (l : list Z) (q : Z) : Prop :=
  Kalloc.page_ok kend q /\ q ∉ l /\ G !! q = None /\
  forall va, 0 <= va < TRAPFRAME -> valid m pt va = true -> phys m pt va <> q.

(** Bytes outside the free pages are kept. *)
Lemma took_page_bytes m G l m' G' l' p x :
  free_pages kend m G l -> took m G l m' G' l' -> p mod PGSIZE = 0 -> p ∉ l -> in_page p x = true ->
  byte_at m' x = byte_at m x.
Proof.
  intros [[_ _ Hl] _] Htk Hp Hn Hx. apply (tk_byte _ _ _ _ _ _ Htk). intros q Hq.
  rewrite Forall_forall in Hl. destruct (Hl q Hq). eapply in_page_disjoint; [exact Hp|done|done|].
  congruence.
Qed.

Lemma took_untouched m G l m' G' l' :
  free_pages kend m G l -> took m G l m' G' l' -> untouched (fun q => q ∈ l \/ is_Some (G !! q)) m m'.
Proof.
  intros Hf Htk. split.
  - intros p x Hp Hn Hx. apply (took_page_bytes m G l m' G' l' p); try done. tauto.
  - intros t i Ht Hn Hi. apply (tk_pte _ _ _ _ _ _ Htk); try done; [|tauto].
    destruct (G !! t) eqn:E; [|done]. destruct Hn. right. eauto.
Qed.

Lemma took_keeps m G l m' G' l' :
  uspace kend m pt G l -> took m G l m' G' l' ->
  (forall va, 0 <= va < TRAPFRAME -> valid m pt va = true -> leaf_pte m' pt va = leaf_pte m pt va) ->
  keeps m m' pt.
Proof.
  intros Hu Htk He va Hva Hv. split; [by apply He|]. intros x Hx.
  destruct (us_leaf _ _ _ _ _ Hu va Hva Hv) as (_ & [Ha _] & Hn & _).
  apply (took_page_bytes m G l m' G' l' (phys m pt va)); try done. apply Hu.
Qed.

(** Taking pages for tables, with the pages [h] in hand. *)
Lemma took_owns m G l m' G' l' h :
  free_pages kend m G l -> took m G l m' G' l' ->
  (forall va, 0 <= va < TRAPFRAME -> leaf_pte m' pt va = leaf_pte m pt va) ->
  (forall q, owns m' pt G' (h ++ l') q <-> owns m pt G (h ++ l) q) /\ untouched (owns m pt G (h ++ l)) m m'.
Proof.
  intros Hf Htk He. pose proof (took_sub _ _ _ _ _ _ Htk) as Hsub. split.
  - intros q. unfold owns, valid, phys. rewrite !elem_of_app. split.
    + intros [[?|?]|[Hq|(va & Hva & Hv)]]; [tauto|set_solver| |].
      * destruct (G !! q) eqn:E; [right; left; eauto|]. left; right. by apply (tk_tables _ _ _ _ _ _ Htk).
      * right; right. exists va. by rewrite <-He by auto.
    + intros [[?|Hq]|[[p Hq]|(va & Hva & Hv)]]; [tauto| | |].
      * destruct (tk_used _ _ _ _ _ _ Htk q Hq); tauto.
      * right; left. exists p. eapply lookup_weaken; [done|apply Htk].
      * right; right. exists va. by rewrite He by auto.
  - eapply untouched_mono; [|by apply (took_untouched m G l m' G' l')]. unfold owns. set_solver.
Qed.

Lemma conserves_took m G l m' G' l' h :
  free_pages kend m G l -> took m G l m' G' l' ->
  (forall va, 0 <= va < MAXVA -> leaf_pte m' pt va = leaf_pte m pt va) ->
  conserves pt m G (h ++ l) m' G' (h ++ l').
Proof.
  intros Hf Htk He. destruct (took_owns m G l m' G' l' h) as [Ho Hout]; [done|done|auto|]. split; try done.
  - auto.
  - intros Hy a' v Hv. eapply Hy, lookup_weaken; [exact Hv|apply Htk].
Qed.

(** And putting one of them in the tables. *)
Lemma conserves_put m G l m' G' l' a q perm :
  free_pages kend m G l -> took m G l m' G' l' -> unused m G l q -> 0 <= perm < 1024 ->
  0 <= a < TRAPFRAME -> a mod PGSIZE = 0 -> valid m pt a = false ->
  (forall va, 0 <= va < MAXVA -> leaf_pte m' pt va =
     if decide (page_of va = a) then map_entry q perm else leaf_pte m pt va) ->
  conserves pt m G (q :: l) m' G' l'.
Proof.
  intros Hf Htk (Hq & _) Hperm Ha Hal Hva0 He. pose proof (took_sub _ _ _ _ _ _ Htk) as Hsub.
  destruct (page_ok_range kend Hkend q Hq) as [Hqa Hqr].
  assert (E1 : PTE2PA (map_entry q perm) = q) by (apply PTE2PA_entry; (done || lia)).
  split.
  - intros p. unfold owns, valid, phys. rewrite elem_of_cons. split.
    + intros [?|[Hp|(va & Hva & Hv)]]; [set_solver| |].
      * destruct (G !! p) eqn:E; [right; left; eauto|]. left; right. by apply (tk_tables _ _ _ _ _ _ Htk).
      * revert Hv. rewrite He by auto. case_decide; [rewrite E1; naive_solver|]. intros Hv. right; right. by exists va.
    + intros [[->|Hp]|[[p' Hp]|(va & Hva & Hv)]].
      * right; right. exists a. rewrite He, page_of_id, decide_True, E1 by auto.
        split_and!; [lia|lia|apply pte_flag_V|done].
      * destruct (tk_used _ _ _ _ _ _ Htk p Hp); tauto.
      * right; left. exists p'. eapply lookup_weaken; [done|apply Htk].
      * right; right. exists va. rewrite He by auto. rewrite decide_False; [done|]. intros Hpa.
        unfold valid in Hva0. rewrite leaf_pte_page, Hpa in Hv by lia. destruct Hv. congruence.
  - eapply untouched_mono; [|by apply (took_untouched m G l m' G' l')]. unfold owns. set_solver.
  - intros va Hva. rewrite He by auto.
    rewrite decide_False; [done|]. intros Hpa.
    pose proof (page_of_aligned va). pose proof (Z.mod_pos_bound va PGSIZE PGSIZE_pos).
    pose proof (aligned_lt a TRAPFRAME Hal eq_refl ltac:(lia)). unfold page_of in *. lia.
  - intros Hy a' v Hv. eapply Hy, lookup_weaken; [exact Hv|apply Htk].
Qed.

(** Clearing one of the pages. *)
Lemma conserves_clear m G l q :
  ptok m pt G -> G !! q = None -> q mod PGSIZE = 0 -> q ∈ l -> conserves pt m G l (zero_page q m) G l.
Proof.
  intros Hok HqG Hqa Hql. destruct (clear_page_ok m pt G q Hok HqG Hqa) as [_ He]. split.
  - intros p. unfold owns, valid, phys. split; (intros [?|[?|(va & Hva & Hv)]]; [tauto..|]);
      right; right; exists va; revert Hv; by rewrite He by lia.
  - split; [intros p x Hp Hn Hx; rewrite byte_at_zero_page, (in_page_disjoint p q); try done;
      intros ->; apply Hn; by left|].
    intros t i Ht Hn Hi. rewrite pte_at_zero_page, in_page_table, bool_decide_false; try done.
    intros ->. apply Hn. by left.
  - auto.
  - intros Hy a v Hv. eapply Hy, lookup_weaken; [exact Hv|apply map_filter_subseteq].
Qed.

(** The address space after a step that took pages and set the entry of page
    [a] to the unused page [q], or kept all entries. *)
Lemma uspace_took m G l m' G' l' :
  uspace kend m pt G l -> table_state kend m' pt G' l' -> took m G l m' G' l' ->
  (forall va, 0 <= va < TRAPFRAME -> leaf_pte m' pt va = leaf_pte m pt va) ->
  uspace kend m' pt G' l'.
Proof.
  intros [_ Hleaf Hz Hinj] Hst Htk He. split; [done| | |]; unfold valid, phys in *.
  - intros va Hva. rewrite He by auto. intros Hv. destruct (Hleaf va Hva Hv) as (? & ? & Hn & ?).
    split_and!; try done; [|by eapply took_none]. pose proof (took_sub _ _ _ _ _ _ Htk). set_solver.
  - intros va Hva. rewrite He by auto. by apply Hz.
  - intros va va' Hva Hva'. rewrite !He by auto. by apply Hinj.
Qed.

Lemma uspace_put m G l m' G' l' a q perm :
  uspace kend m pt G l -> table_state kend m' pt G' l' -> took m G l m' G' l' -> unused m G l q ->
  0 <= perm < 1024 -> Z.lor perm PTE_V <> PTE_V -> 0 <= a < TRAPFRAME -> a mod PGSIZE = 0 ->
  (forall va, 0 <= va < MAXVA -> leaf_pte m' pt va =
     if decide (page_of va = a) then map_entry q perm else leaf_pte m pt va) ->
  uspace kend m' pt G' l'.
Proof.
  intros [_ Hleaf Hz Hinj] Hst Htk (Hq & Hql & HqG & Hqu) Hperm HpV Ha Hal He.
  destruct (page_ok_range kend Hkend q Hq) as [Hqa Hqr].
  assert (E1 : PTE2PA (map_entry q perm) = q) by (apply PTE2PA_entry; (done || lia)).
  assert (E2 : PTE_FLAGS (map_entry q perm) = Z.lor perm PTE_V) by (apply FLAGS_entry; (done || lia)).
  pose proof (took_sub _ _ _ _ _ _ Htk) as Hsub. split; [done| | |]; unfold valid, phys in *.
  - intros va Hva. rewrite He by auto. case_decide as Hp; intros Hv.
    + rewrite E1, E2. split_and!; try done; [set_solver|by eapply took_none].
    + destruct (Hleaf va Hva Hv) as (? & ? & Hn & ?).
      split_and!; try done; [set_solver|by eapply took_none].
  - intros va Hva. rewrite He by auto. case_decide; [|by apply Hz].
    unfold map_entry. by rewrite pte_flag_V.
  - intros va va' Hva Hva'. rewrite !He by auto. repeat case_decide.
    + congruence.
    + rewrite E1. intros _ Hv' E. by destruct (Hqu va' Hva' Hv').
    + rewrite E1. intros Hv _ E. by destruct (Hqu va Hva Hv).
    + by apply Hinj.
Qed.

(** [mappages] for one page of the process. *)
Lemma map_own m G l q a perm :
  uspace kend m pt G l -> unused m G l q -> 0 <= perm < 1024 -> Z.lor perm PTE_V <> PTE_V ->
  0 <= a < TRAPFRAME -> a mod PGSIZE = 0 -> valid m pt a = false ->
  wp (mappages pt a PGSIZE q perm) (fun r m' => exists G' l', uspace kend m' pt G' l' /\
    took m G l m' G' l' /\ keeps m m' pt /\
    (r = 0 /\ conserves pt m G (q :: l) m' G' l' /\ (length l <= length l' + 2)%nat /\ (forall va, 0 <= va < MAXVA -> leaf_pte m' pt va =
       if decide (page_of va = a) then map_entry q perm else leaf_pte m pt va) \/
     r = -1 /\ conserves pt m G (q :: l) m' G' (q :: l') /\ (length l < 2)%nat /\ unused m' G' l' q /\
       forall va, 0 <= va < MAXVA -> leaf_pte m' pt va = leaf_pte m pt va)) m.
Proof.
  intros Hu Hq Hperm HpV Ha Hal Hv.
  eapply wp_mono; [by apply (mappages_page kend pt perm a q m G l Hkend (us_table _ _ _ _ _ Hu)); auto|].
  cbn beta. intros r m' (G' & l' & Hst & Htk & [(-> & Hlen & He)|(-> & -> & Hlen & He)]); exists G'.
  - exists l'. split_and!; try done; [by apply (uspace_put m G l m' G' l' a q perm)| |].
    2:{ left. split_and!; try done. apply (conserves_put m G l m' G' l' a q perm); try done. apply Hu. }
    apply (took_keeps m G l m' G' l'); try done. intros va Hva Hv'. rewrite He by auto.
    case_decide as Hp; [|done]. unfold valid in Hv, Hv'. rewrite leaf_pte_page, Hp in Hv' by lia. congruence.
  - exists []. assert (Hu' : uspace kend m' pt G' []) by (apply (uspace_took m G l m' G' []); auto).
    split_and!; try done; [apply (took_keeps m G l m' G' []); auto|right].
    assert (Hcv : conserves pt m G ([q] ++ l) m' G' ([q] ++ [])) by (apply conserves_took; try done; apply Hu).
    split_and!; try done. destruct Hq as (? & Hql & ? & Hqu). split_and!; try done; [set_solver|by eapply took_none|].
    intros va Hva. unfold valid, phys. rewrite He by auto. by apply Hqu.
Qed.

(** Removing a range of pages and freeing them. *)
Lemma mapped_pages_elem m a n q :
  q ∈ mapped_pages pt m a n <-> exists i, (i < n)%nat /\ q = phys m pt (a + Z.of_nat i * PGSIZE).
Proof.
  unfold mapped_pages. rewrite list_elem_of_In, in_map_iff. setoid_rewrite in_seq. unfold phys.
  split; intros (i & H1 & H2); exists i; (split; [lia|done]) || (split; [done|lia]).
Qed.

Section unmap_own.
Context (m : vmem) (G : gmap Z (list Z)) (l : list Z) (a : Z) (n : nat).
Context (Hu : uspace kend m pt G l) (Ha : 0 <= a) (Hal : a mod PGSIZE = 0).
Context (Hle : a + Z.of_nat n * PGSIZE <= TRAPFRAME).
Context (Hmap : forall va, 0 <= va < TRAPFRAME -> a <= page_of va < a + Z.of_nat n * PGSIZE ->
  valid m pt va = true).

Lemma own_page i :
  (i < n)%nat -> let va := a + Z.of_nat i * PGSIZE in
  0 <= va < TRAPFRAME /\ page_of va = va /\ valid m pt va = true.
Proof.
  intros Hi va. assert (E : page_of va = va) by (apply page_of_id; unfold va; by rewrite Z.mod_add).
  assert (0 <= va < TRAPFRAME) by (unfold va, PGSIZE in *; lia). split_and!; [lia|lia|done|].
  apply Hmap; [done|]. rewrite E. unfold va, PGSIZE. lia.
Qed.

Lemma own_low va :
  0 <= va < MAXVA -> a <= page_of va < a + Z.of_nat n * PGSIZE -> 0 <= va < TRAPFRAME.
Proof.
  intros Hva Hr. split; [lia|]. pose proof (Z.mod_pos_bound va PGSIZE PGSIZE_pos).
  pose proof (page_of_aligned va) as H1. apply Z.mod_divide in H1 as [z Hz]; [|done].
  apply Z.mod_divide in Hal as [z' Hz']; [|done]. unfold page_of, PGSIZE in *. lia.
Qed.

Lemma own_may_free : may_free kend G l (mapped_pages pt m a n).
Proof.
  split.
  - apply NoDup_app. split_and!.
    + apply NoDup_fmap_2_strong; [|apply NoDup_seq]. intros i j Hi Hj E.
      apply elem_of_seq in Hi, Hj. destruct (own_page i ltac:(lia)) as (A1 & A2 & A3).
      destruct (own_page j ltac:(lia)) as (B1 & B2 & B3).
      pose proof (us_inj _ _ _ _ _ Hu _ _ A1 B1 A3 B3 E) as Hp. rewrite A2, B2 in Hp. unfold PGSIZE in Hp. lia.
    + intros q (i & Hi & ->)%mapped_pages_elem. destruct (own_page i Hi) as (A1 & _ & A3).
      apply (us_leaf _ _ _ _ _ Hu _ A1 A3).
    + apply (us_table _ _ _ _ _ Hu).
  - intros q (i & Hi & ->)%mapped_pages_elem. destruct (own_page i Hi) as (A1 & _ & A3).
    destruct (us_leaf _ _ _ _ _ Hu _ A1 A3) as (_ & ? & _ & ?). done.
Qed.

(** The pages taken from the process are free. *)
Lemma unmap_conserves m' :
  bytes m' = bytes m -> same_outside G m m' ->
  (forall va, 0 <= va < MAXVA -> leaf_pte m' pt va =
    if decide (a <= page_of va < a + Z.of_nat n * PGSIZE) then 0 else leaf_pte m pt va) ->
  conserves pt m G l m' G (rev (mapped_pages pt m a n) ++ l).
Proof.
  intros Hb Hout He. split.
  - intros q. unfold owns. rewrite elem_of_app, (list_elem_of_In _ q), <-in_rev, <-list_elem_of_In, mapped_pages_elem.
    split.
    + intros [[(i & Hi & ->)|?]|[?|(va & Hva & Hv & <-)]]; [|tauto..|].
      * destruct (own_page i Hi) as (A1 & _ & A3). right; right. eauto.
      * right; right. exists va. revert Hv. unfold valid, phys. rewrite He by auto. by case_decide.
    + intros [?|[?|(va & Hva & Hv & <-)]]; [tauto..|].
      destruct (decide (a <= page_of va < a + Z.of_nat n * PGSIZE)) as [Hr|Hr].
      * left; left. pose proof (page_of_aligned va) as Hz. apply Z.mod_divide in Hz as [z Hz]; [|done].
        apply Z.mod_divide in Hal as [z' Hz']; [|done]. exists (Z.to_nat (z - z')).
        unfold phys. rewrite (leaf_pte_page m pt va) by lia. unfold PGSIZE in *. split; [lia|]. do 2 f_equal. lia.
      * right; right. exists va. unfold valid, phys. by rewrite He, decide_False by auto.
  - split; [intros p x _ _ _; unfold byte_at; by rewrite Hb|]. intros t i Ht Hn Hi. apply Hout; try done. destruct (G !! t) eqn:E; [|done]. destruct Hn. right; left. by rewrite E.
  - intros va Hva. rewrite He by auto. rewrite decide_False; [done|]. intros Hr.
    pose proof (own_low va (top_max va Hva) Hr). lia.
  - by rewrite Hb.
Qed.

Lemma unmap_own :
  wp (uvmunmap kend pt a (Z.of_nat n) true) (fun _ m' =>
    uspace kend m' pt G (rev (mapped_pages pt m a n) ++ l) /\ bytes m' = bytes m /\
    conserves pt m G l m' G (rev (mapped_pages pt m a n) ++ l) /\
    forall va, 0 <= va < MAXVA -> leaf_pte m' pt va =
      if decide (a <= page_of va < a + Z.of_nat n * PGSIZE) then 0 else leaf_pte m pt va) m.
Proof.
  unfold uvmunmap. rewrite Hal, Nat2Z.id. cbn [negb Z.eqb].
  assert (HT : TRAPFRAME <= MAXVA) by (vm_compute; congruence).
  eapply wp_mono; [apply (uvmunmap_loop_wp kend pt Hkend n a true m G l (us_table _ _ _ _ _ Hu)); try done; try lia|].
  - intros va Hva Hr. pose proof (own_low va Hva Hr) as Hl. pose proof (Hmap va Hl Hr) as Hv.
    split; [done|]. apply (us_leaf _ _ _ _ _ Hu va Hl Hv).
  - intros _. apply own_may_free.
  - cbn beta. intros _ m' (Hst & Hb & Hout & He). split; [|split; [done|split; [|done]]].
    2:{ apply unmap_conserves; try done. }
    assert (Hin : forall va, 0 <= va < TRAPFRAME -> valid m' pt va = true ->
      ~ (a <= page_of va < a + Z.of_nat n * PGSIZE) /\ leaf_pte m' pt va = leaf_pte m pt va).
    { intros va Hva. unfold valid. rewrite He by auto. by case_decide. }
    split; [done| | |].
    + intros va Hva Hv. destruct (Hin va Hva Hv) as [Hr E]. unfold valid, phys in *. rewrite E in *.
      destruct (us_leaf _ _ _ _ _ Hu va Hva Hv) as (? & ? & ? & ?). split_and!; try done.
      rewrite elem_of_app, list_elem_of_In, <-in_rev, <-list_elem_of_In, mapped_pages_elem.
      intros [(i & Hi & Eq)|?]; [|done]. destruct (own_page i Hi) as (A1 & A2 & A3). apply Hr.
      rewrite (us_inj _ _ _ _ _ Hu va _ Hva A1 Hv A3 Eq), A2. unfold PGSIZE. lia.
    + intros va Hva. unfold valid. rewrite He by auto. case_decide; [done|]. by apply Hu.
    + intros va va' Hva Hva' Hv Hv'. destruct (Hin va Hva Hv) as [_ E], (Hin va' Hva' Hv') as [_ E'].
      unfold valid, phys in *. rewrite E, E' in *. by apply Hu.
Qed.
End unmap_own.

(** A page goes back to the allocator. *)
Lemma uspace_kfree m m' G l q :
  uspace kend m pt G l -> unused m G l q -> ptes m' = ptes m -> Kalloc.klist kend (vkm m') (q :: l) ->
  uspace kend m' pt G (q :: l).
Proof.
  intros [[Hok [_ Hd] Hpg] Hleaf Hz Hinj] (_ & _ & HqG & Hqu) Hp Hl.
  pose proof (same_ptes pt m m' Hp) as He.
  split; unfold valid, phys in *.
  - split; [by apply (ptok_ptes pt m)| |done]. split; [done|]. intros x [->|Hx]%elem_of_cons; auto.
  - intros va Hva. rewrite He. intros Hv. destruct (Hleaf va Hva Hv) as (? & ? & Hn & ?).
    split_and!; try done. apply not_elem_of_cons. split; [by apply Hqu|done].
  - intros va Hva. rewrite He. by apply Hz.
  - intros va va' Hva Hva'. rewrite !He. by apply Hinj.
Qed.

(** Taking a page from the allocator. *)
Lemma own_kalloc m G l :
  uspace kend m pt G l ->
  wp kalloc (fun r m' => ptes m' = ptes m /\ bytes m' = bytes m /\
    match l with
    | [] => r = 0 /\ m' = m
    | q :: l' => r = q /\ q <> 0 /\ q mod PGSIZE = 0 /\ uspace kend m' pt G l' /\ unused m' G l' q
    end) m.
Proof.
  intros Hu. eapply wp_mono; [apply (vkalloc_spec kend Hkend m l), Hu|]. cbn beta.
  intros r m' (Ep & Eb & Hr). split_and!; [done..|]. destruct l as [|q l']; [done|].
  destruct Hr as (-> & Hq0 & Hl & _). destruct (fresh_page m G q l' Hu) as (Hq & Hqa & _ & Hql & HqG & Hqu).
  pose proof (same_ptes pt m m' Ep) as He. do 3 (split; [done|]). split.
  - apply (uspace_free m m' G (q :: l') l'); [done|apply (ptok_ptes pt m); [done|apply Hu]|by intros|..|set_solver].
    split; [done|]. intros x Hx. apply (us_table _ _ _ _ _ Hu). by right.
  - do 3 (split; [done|]). intros va Hva. unfold valid, phys. rewrite He. by apply Hqu.
Qed.

(** A page in hand gets its content; nothing else changes. *)
Definition filled (m : vmem) (G : gmap Z (list Z)) (l : list Z) (q : Z) (content : Z -> Z) (m' : vmem) : Prop :=
  uspace kend m' pt G l /\ unused m' G l q /\ keeps m m' pt /\ conserves pt m G (q :: l) m' G (q :: l) /\
  (forall va, 0 <= va -> leaf_pte m' pt va = leaf_pte m pt va) /\
  forall x, in_page q x = true -> byte_at m' x = content x.

Lemma own_clear m G l q :
  uspace kend m pt G l -> unused m G l q -> filled m G l q (fun _ => 0) (zero_page q m).
Proof.
  intros Hu (Hq & Hql & HqG & Hqu). assert (Hqa := proj1 Hq).
  destruct (clear_page_ok m pt G q) as [Hok He]; [apply Hu|done..|]. split_and!; [..|done|].
  - apply (uspace_free m _ G l l Hu Hok He); [|done]. apply Hu.
  - do 3 (split; [done|]). intros va Hva. unfold valid, phys. rewrite He by lia. by apply Hqu.
  - intros va Hva Hv. split; [apply He; lia|]. intros x Hx. rewrite byte_at_zero_page.
    destruct (us_leaf _ _ _ _ _ Hu va Hva Hv) as (_ & [Ha _] & _).
    by rewrite (in_page_disjoint (phys m pt va) q x Ha Hqa Hx (Hqu va Hva Hv)).
  - apply conserves_clear; [apply Hu|done|done|by left].
  - intros x Hx. by rewrite byte_at_zero_page, Hx.
Qed.

Lemma keeps_eq m m' : ptes m' = ptes m -> bytes m' = bytes m -> keeps m m' pt.
Proof.
  intros Ep Eb va _ _. split; [by apply same_ptes|]. intros x _. unfold byte_at. by rewrite Eb.
Qed.

(** A new page mapped at [a], or nothing. *)
Lemma own_alloc m G l a perm (fill : Z -> M vmem unit) (content : Z -> Z -> Z) (fail k : M vmem Z) Q :
  uspace kend m pt G l -> 0 <= perm < 1024 -> Z.lor perm PTE_V <> PTE_V ->
  0 <= a < TRAPFRAME -> a mod PGSIZE = 0 -> valid m pt a = false ->
  (forall m1 l1 q, l = q :: l1 -> ptes m1 = ptes m -> bytes m1 = bytes m -> uspace kend m1 pt G l1 ->
     unused m1 G l1 q -> wp (fill q) (fun _ m2 => filled m1 G l1 q (content q) m2) m1) ->
  (forall m' G' l', uspace kend m' pt G' l' -> keeps m m' pt -> conserves pt m G l m' G' l' ->
     (length l < 3)%nat ->
     (forall va, 0 <= va < MAXVA -> leaf_pte m' pt va = leaf_pte m pt va) -> wp fail Q m') ->
  (forall m' G' l' q, uspace kend m' pt G' l' -> keeps m m' pt -> conserves pt m G l m' G' l' ->
     Kalloc.page_ok kend q ->
     (length l <= length l' + 3)%nat ->
     (forall va, 0 <= va < MAXVA -> leaf_pte m' pt va =
        if decide (page_of va = a) then map_entry q perm else leaf_pte m pt va) ->
     (forall x, in_page q x = true -> byte_at m' x = content q x) -> wp k Q m') ->
  wp (mem <- kalloc ;;
      if mem =? 0 then fail
      else
        fill mem ;;
        r <- mappages pt a PGSIZE mem perm ;;
        if negb (r =? 0) then
          kfree kend mem ;;
          fail
        else k) Q m.
Proof.
  intros Hu Hperm HpV Ha Hal Hv Hfill Hfail Hk. wp_use (own_kalloc m G l Hu). intros mem m1 (Ep & Eb & Hm).
  destruct l as [|q l1];
    [destruct Hm as [-> ->]; by apply (Hfail m G []); [|apply keeps_refl|apply conserves_refl|cbn; lia|]|].
  destruct Hm as (-> & Hq0 & Hqa & Hu1 & Hq1). rewrite (proj2 (Z.eqb_neq q 0)) by done.
  wp_use (Hfill m1 l1 q eq_refl Ep Eb Hu1 Hq1). intros _ m2 (Hu2 & Hq2 & Hk2 & Hcv2 & He2 & Hc2).
  pose proof (keeps_trans _ _ _ _ (keeps_eq m m1 Ep Eb) Hk2) as Hkeep.
  pose proof (conserves_trans _ _ _ _ _ _ _ _ _ _ (conserves_eq pt m m1 G (q :: l1) Ep Eb) Hcv2) as Hcv.
  assert (He : forall va, 0 <= va -> leaf_pte m2 pt va = leaf_pte m pt va)
    by (intros va Hva; rewrite He2 by done; by apply same_ptes).
  wp_use (map_own m2 G l1 q a perm Hu2 Hq2 Hperm HpV Ha Hal); [unfold valid; rewrite He by lia; exact Hv|].
  intros r m3 (G3 & l3 & Hu3 & Htk & Hk3 & [(-> & Hcv3 & Hlen & He3)|(-> & Hcv3 & Hlen & Hq3 & He3)]);
    cbn [negb Z.eqb].
  - apply (Hk m3 G3 l3 q); [done|by eapply keeps_trans|by eapply conserves_trans|apply Hq2|cbn; lia| |].
    + intros va Hva. rewrite He3 by done. case_decide; [done|]. apply He; lia.
    + intros x Hx. rewrite (took_page_bytes m2 G l1 m3 G3 l3 q); try done; [by apply Hc2|apply Hu2|apply Hq2].
  - destruct Hq3 as (Hqok & Hql & Hrest).
    wp_use (vkfree_spec kend Hkend m3 q l3); [apply Hu3|done|done|]. intros [] m4 (Ep4 & Eb4 & Hl4).
    apply (Hfail m4 G3 (q :: l3)).
    + by apply (uspace_kfree m3 m4 G3 l3 q).
    + eapply keeps_trans; [exact Hkeep|]. eapply keeps_trans; [exact Hk3|by apply keeps_eq].
    + eapply conserves_trans; [exact Hcv|]. eapply conserves_trans; [exact Hcv3|by apply conserves_eq].
    + cbn. lia.
    + intros va Hva. rewrite (same_ptes pt m3 m4 Ep4), He3 by done. apply He; lia.
Qed.
End grow.

(** ** Shrinking and growing *)

Definition pgup (sz : Z) : Z := (sz + PGSIZE - 1) / PGSIZE * PGSIZE.

Lemma pgup_spec sz : sz <= pgup sz < sz + PGSIZE /\ pgup sz mod PGSIZE = 0.
Proof.
  unfold pgup. split; [|by apply Z.mod_mul].
  pose proof (Z.div_mod (sz + PGSIZE - 1) PGSIZE ltac:(done)).
  pose proof (Z.mod_pos_bound (sz + PGSIZE - 1) PGSIZE PGSIZE_pos). lia.
Qed.

Lemma pgup_id a : a mod PGSIZE = 0 -> pgup a = a.
Proof.
  intros [z ->]%Z.mod_divide; [|done]. unfold pgup.
  replace (z * PGSIZE + PGSIZE - 1) with (PGSIZE - 1 + z * PGSIZE) by lia.
  rewrite Z.div_add by done. done.
Qed.

Lemma PGROUNDUP_pgup sz : 0 <= sz <= TRAPFRAME -> PGROUNDUP sz = pgup sz.
Proof.
  intros H. apply PGROUNDUP_spec; [lia|]. unfold TRAPFRAME, TRAMPOLINE in H. rewrite MAXVA_val in H.
  unfold PGSIZE in *. lia.
Qed.

Lemma pgup_trapframe sz : sz <= TRAPFRAME -> pgup sz <= TRAPFRAME.
Proof.
  intros H. destruct (pgup_spec sz) as [[_ H1] H2]. apply Z.le_ngt. intros H3.
  apply aligned_lt in H3; [lia|done|done].
Qed.

Lemma pgup_mono x y : x <= y -> pgup x <= pgup y.
Proof.
  intros H. unfold pgup. apply Z.mul_le_mono_nonneg_r; [done|]. apply Z.div_le_mono; [done|lia].
Qed.

Lemma page_lt_pgup va sz : page_of va < sz <-> page_of va < pgup sz.
Proof.
  destruct (pgup_spec sz) as [H1 H2]. split; [lia|]. intros H. apply Z.lt_nge. intros H3.
  pose proof (aligned_lt _ _ (page_of_aligned va) H2 H). lia.
Qed.

Lemma sized_pgup m pt sz : sized m pt sz <-> sized m pt (pgup sz).
Proof.
  unfold sized. split; intros H va Hva; rewrite (H va Hva); apply bool_decide_ext;
    [|symmetry]; apply page_lt_pgup.
Qed.

Section resize.
Context (kend : Z) (Hkend : 0 < kend) (pt : Z).

(** The pages [uvmdealloc] frees, the last one first. *)
Definition freed_pages (m : vmem) (oldsz newsz : Z) : list Z :=
  rev (mapped_pages pt m (pgup newsz) (Z.to_nat ((pgup oldsz - pgup newsz) / PGSIZE))).

Lemma uvmdealloc_wp m G l oldsz newsz :
  uspace kend m pt G l -> sized m pt oldsz -> 0 <= newsz < oldsz -> oldsz <= TRAPFRAME ->
  wp (uvmdealloc kend pt oldsz newsz) (fun r m' => r = newsz /\
    uspace kend m' pt G (freed_pages m oldsz newsz ++ l) /\ sized m' pt newsz /\ bytes m' = bytes m /\
    conserves pt m G l m' G (freed_pages m oldsz newsz ++ l) /\
    forall va, 0 <= va < MAXVA -> leaf_pte m' pt va =
      if decide (pgup newsz <= page_of va < pgup oldsz) then 0 else leaf_pte m pt va) m.
Proof.
  intros Hu Hsz Hn Ho. unfold uvmdealloc, freed_pages. rewrite (proj2 (Z.leb_gt _ _)) by lia.
  rewrite !PGROUNDUP_pgup by lia. pose proof (pgup_spec newsz) as [N1 N2]. pose proof (pgup_spec oldsz) as [O1 O2].
  pose proof (pgup_trapframe oldsz Ho) as HT. pose proof (pgup_mono newsz oldsz ltac:(lia)) as HM.
  assert (Hz : forall m', (forall va, 0 <= va < MAXVA -> leaf_pte m' pt va =
      if decide (pgup newsz <= page_of va < pgup oldsz) then 0 else leaf_pte m pt va) -> sized m' pt newsz).
  { intros m' He. apply sized_pgup. apply sized_pgup in Hsz. intros va Hva. unfold valid. rewrite He by auto.
    specialize (Hsz va Hva). unfold valid in Hsz.
    destruct (decide (pgup newsz <= page_of va < pgup oldsz)) as [Hd|Hd].
    - rewrite bool_decide_false by lia. done.
    - rewrite Hsz. apply bool_decide_ext. lia. }
  destruct (Z.ltb_spec (pgup newsz) (pgup oldsz)) as [Hlt|Hge].
  - assert (E : exists n : nat, pgup oldsz = pgup newsz + Z.of_nat n * PGSIZE).
    { apply Z.mod_divide in N2 as [z Ez]; [|done]. apply Z.mod_divide in O2 as [z' Ez']; [|done].
      exists (Z.to_nat (z' - z)). unfold PGSIZE in *. lia. }
    destruct E as [n E].
    replace (pgup oldsz - pgup newsz) with (Z.of_nat n * PGSIZE) by lia. rewrite Z.div_mul, Nat2Z.id by done.
    unfold TRAPFRAME, TRAMPOLINE in *. rewrite MAXVA_val in *.
    rewrite s32_small by (unfold PGSIZE in *; lia).
    wp_use (unmap_own kend Hkend pt m G l (pgup newsz) n Hu).
    + lia.
    + done.
    + unfold TRAPFRAME, TRAMPOLINE. rewrite MAXVA_val. lia.
    + intros va Hva Hr. apply sized_pgup in Hsz. rewrite Hsz by done. apply bool_decide_true. lia.
    + intros _ m' (Hu' & Hb & Hcv & He). apply wp_ret. rewrite <-E in He. split_and!; try done. by apply Hz.
  - apply wp_bind, wp_ret, wp_ret. replace (pgup oldsz) with (pgup newsz) by lia.
    rewrite Z.sub_diag. split_and!; try done.
    + apply Hz. intros va Hva. by rewrite decide_False by lia.
    + intros va Hva. by rewrite decide_False by lia.
Qed.

(** A page of zeros, with the flags of the allocation. *)
Definition zero_mapped (m : vmem) (perm va : Z) : Prop :=
  valid m pt va = true /\ PTE_FLAGS (leaf_pte m pt va) = Z.lor perm PTE_V /\
  forall x, in_page (phys m pt va) x = true -> byte_at m x = 0.

Lemma zero_mapped_keeps m m' perm va :
  0 <= va < TRAPFRAME -> zero_mapped m perm va -> keeps m m' pt -> zero_mapped m' perm va.
Proof.
  intros Hva (Hv & Hf & Hb) Hk. destruct (Hk va Hva Hv) as [E Hx].
  unfold zero_mapped, valid, phys. rewrite E. split_and!; try done.
  intros x Hin. rewrite Hx by done. by apply Hb.
Qed.

Definition user_perm (xperm : Z) : Z := Z.lor (Z.lor PTE_R PTE_U) xperm.

Lemma user_perm_ok xperm :
  0 <= xperm < 1024 -> 0 <= user_perm xperm < 1024 /\ Z.lor (user_perm xperm) PTE_V <> PTE_V.
Proof.
  intros Hx. split; [by apply lor_range|]. intros E.
  assert (Hb : Z.testbit (Z.lor (user_perm xperm) PTE_V) 1 = false) by (by rewrite E).
  unfold user_perm in Hb. rewrite !Z.lor_spec in Hb. done.
Qed.

(** Undoing a partial allocation. *)
Lemma alloc_undo m G l base a :
  uspace kend m pt G l -> sized m pt a -> 0 <= base <= a -> a <= TRAPFRAME ->
  base mod PGSIZE = 0 -> a mod PGSIZE = 0 ->
  wp (uvmdealloc kend pt a base ;; ret 0) (fun r m' => r = 0 /\ exists l',
    uspace kend m' pt G l' /\ sized m' pt base /\ bytes m' = bytes m /\ conserves pt m G l m' G l' /\
    forall va, 0 <= va < MAXVA -> leaf_pte m' pt va =
      if decide (base <= page_of va < a) then 0 else leaf_pte m pt va) m.
Proof.
  intros Hu Hsz Hb Ha Hba Haa. destruct (decide (base = a)) as [->|Hne].
  - unfold uvmdealloc. rewrite (proj2 (Z.leb_le a a)) by lia. apply wp_bind, wp_ret, wp_ret.
    split; [done|]. exists l. split_and!; try done.
    intros va Hva. by rewrite decide_False by lia.
  - wp_use (uvmdealloc_wp m G l a base Hu Hsz); [lia|lia|]. intros r m' (_ & Hu' & Hsz' & Hby & Hcv & He).
    rewrite !pgup_id in He by done. apply wp_ret. split; [done|]. by exists (freed_pages m a base ++ l).
Qed.

Lemma sized_next m m' a q perm :
  sized m pt a -> a mod PGSIZE = 0 ->
  (forall va, 0 <= va < MAXVA -> leaf_pte m' pt va =
     if decide (page_of va = a) then map_entry q perm else leaf_pte m pt va) ->
  sized m' pt (a + PGSIZE).
Proof.
  intros Hsz Hal He va Hva. specialize (Hsz va Hva). unfold valid in *. rewrite He by auto.
  destruct (decide (page_of va = a)) as [->|Hne].
  - unfold map_entry. rewrite pte_flag_V, bool_decide_true; [done|]. unfold PGSIZE. lia.
  - rewrite Hsz. apply bool_decide_ext. split; [unfold PGSIZE; lia|]. intros Hlt.
    destruct (decide (a < page_of va)) as [Hd|]; [|lia].
    apply aligned_lt in Hd; [lia|done|apply page_of_aligned].
Qed.

Lemma zero_mapped_new m q perm va :
  Kalloc.page_ok kend q -> 0 <= perm < 1024 -> leaf_pte m pt va = map_entry q perm ->
  (forall x, in_page q x = true -> byte_at m x = 0) -> zero_mapped m perm va.
Proof.
  intros Hq Hp He Hz. destruct (page_ok_range kend Hkend q Hq). unfold zero_mapped, valid, phys. rewrite He.
  split_and!.
  - apply pte_flag_V.
  - apply FLAGS_entry; (done || lia).
  - rewrite PTE2PA_entry by (done || lia). done.
Qed.

Lemma pgup_next a newsz :
  a mod PGSIZE = 0 -> a < newsz -> pgup (Z.max (a + PGSIZE) newsz) = pgup newsz.
Proof.
  intros Ha Hlt. destruct (Z.max_spec (a + PGSIZE) newsz) as [[_ ->]|[Hle ->]]; [done|].
  destruct (pgup_spec newsz) as [H1 H2].
  assert (H3 : (a + PGSIZE) mod PGSIZE = 0) by (by rewrite Z.add_mod, Ha, Z_mod_same_full).
  rewrite pgup_id by done. pose proof (aligned_lt a (pgup newsz) Ha H2 ltac:(lia)).
  pose proof (pgup_mono _ _ Hle) as H4. rewrite (pgup_id (a + PGSIZE)) in H4 by done. lia.
Qed.

(** There are not enough pages to reach [TRAPFRAME]. *)
Lemma space_bound m G l a :
  uspace kend m pt G l -> sized m pt a -> a mod PGSIZE = 0 -> 0 <= a <= TRAPFRAME ->
  a + PGSIZE * Z.of_nat (length l) <= PHYSTOP.
Proof.
  intros Hu Hsz Hal Ha. apply Z.mod_divide in Hal as [z Hz]; [|done].
  assert (Hz0 : 0 <= z) by (unfold PGSIZE in *; lia).
  destruct (own_may_free kend pt m G l 0 (Z.to_nat z) Hu) as [Hnd Hok]; [done|done|unfold PGSIZE in *; lia| |].
  { intros va Hva Hr. rewrite Hsz by done. apply bool_decide_true. unfold PGSIZE in *. lia. }
  set (ps := mapped_pages pt m 0 (Z.to_nat z) ++ l) in *.
  assert (Hlen : length ps = (Z.to_nat z + length l)%nat)
    by (unfold ps, mapped_pages; by rewrite length_app, length_map, length_seq).
  assert (Hin : forall q, q ∈ ps -> Kalloc.page_ok kend q).
  { intros q [Hq|Hq]%elem_of_app; [by apply Hok|].
    destruct (us_table _ _ _ _ _ Hu) as [_ [[_ _ Hf] _] _]. rewrite Forall_forall in Hf. by apply Hf. }
  assert (Hlt : (length ((fun q : Z => (q / PGSIZE)%Z) <$> ps) <= length (seqZ 0 (PHYSTOP / PGSIZE)))%nat).
  { apply submseteq_length, NoDup_submseteq.
    - apply NoDup_fmap_2_strong; [|done]. intros x y Hx Hy E.
      destruct (Hin x Hx) as [Ax _], (Hin y Hy) as [Ay _]. apply Z.mod_divide in Ax as [zx ->]; [|done].
      apply Z.mod_divide in Ay as [zy ->]; [|done]. rewrite !Z.div_mul in E by done. by subst.
    - intros q (x & -> & Hx)%list_elem_of_fmap. destruct (Hin x Hx) as [_ Hr]. apply elem_of_seqZ.
      change PHYSTOP with 0x88000000 in *. unfold PGSIZE. Z.to_euclidean_division_equations. lia. }
  rewrite length_fmap, length_seqZ, Hlen in Hlt. change PHYSTOP with 0x88000000 in *. unfold PGSIZE in *.
  change (0x88000000 / 4096) with 557056 in *. lia.
Qed.

Lemma uvmalloc_loop_wp fuel base a newsz xperm m G l :
  uspace kend m pt G l -> sized m pt a -> 0 <= base <= a -> a <= TRAPFRAME ->
  base mod PGSIZE = 0 -> a mod PGSIZE = 0 -> 0 <= xperm < 1024 ->
  newsz <= a + (Z.of_nat fuel - 1) * PGSIZE -> (0 < fuel)%nat ->
  wp (uvmalloc_loop kend fuel pt base a newsz xperm) (fun r m' => exists G' l',
    uspace kend m' pt G' l' /\ conserves pt m G l m' G' l' /\
    (r = newsz /\ newsz <= PHYSTOP /\ sized m' pt (Z.max a newsz) /\ keeps m m' pt /\
       Z.of_nat (length l) * PGSIZE <= Z.of_nat (length l') * PGSIZE + 3 * (Z.max a (pgup newsz) - a) /\
       (forall va, 0 <= va < TRAPFRAME -> a <= page_of va < newsz -> zero_mapped m' (user_perm xperm) va) \/
     r = 0 /\ sized m' pt base /\ Z.of_nat (length l) * PGSIZE < 3 * (pgup newsz - a) /\
       forall va, 0 <= va < TRAPFRAME -> page_of va < base -> leaf_pte m' pt va = leaf_pte m pt va /\
         forall x, in_page (phys m pt va) x = true -> byte_at m' x = byte_at m x)) m.
Proof.
  revert a m G l. induction fuel as [|fuel IH]; intros a m G l Hu Hsz Hb Ha Hba Haa Hx Hf Hf0; [lia|].
  pose proof (space_bound m G l a Hu Hsz Haa ltac:(lia)) as Hbound.
  assert (HPT : PHYSTOP + PGSIZE <= TRAPFRAME) by (vm_compute; congruence).
  cbn [uvmalloc_loop]. destruct (Z.ltb_spec a newsz) as [Hlt|Hge].
  2:{ apply wp_ret. exists G, l. split; [done|]. split; [done|]. left. rewrite Z.max_l by lia.
      split_and!; [done|unfold PGSIZE in *; lia|done|apply keeps_refl|lia|]. intros va Hva Hr. lia. }
  assert (Hup : a + PGSIZE <= pgup newsz).
  { destruct (pgup_spec newsz). apply aligned_lt; (done || lia). }
  destruct (user_perm_ok xperm Hx) as [Hp1 Hp2]. assert (Hpg : page_of a = a) by (by apply page_of_id).
  assert (Hkept : forall va, 0 <= va < TRAPFRAME -> page_of va < base -> valid m pt va = true).
  { intros va Hva Hlo. rewrite Hsz by done. apply bool_decide_true. lia. }
  apply (own_alloc kend Hkend pt m G l a (user_perm xperm) clear_page (fun _ _ => 0)); try done.
  - unfold PGSIZE in *; lia.
  - rewrite Hsz by (unfold PGSIZE in *; lia). apply bool_decide_false. lia.
  - intros m1 l1 q _ _ _ Hu1 Hq1. by apply wp_modify, own_clear.
  - intros m1 G1 l1 Hu1 Hk1 Hcv1 Hlen He1.
    assert (Hsz1 : sized m1 pt a) by (intros va Hva; unfold valid; rewrite He1 by auto; by apply Hsz).
    eapply wp_mono; [by apply (alloc_undo m1 G1 l1 base a)|]. cbn beta.
    intros r m2 (-> & l2 & Hu2 & Hsz2 & Hb2 & Hcv2 & He2). exists G1, l2. split; [done|].
    split; [by eapply conserves_trans|]. right. split_and!; try done.
    { unfold PGSIZE in *. lia. }
    intros va Hva Hlo. destruct (Hk1 va Hva (Hkept va Hva Hlo)) as [E Hby]. split.
    + rewrite He2, decide_False by (auto || lia). done.
    + intros x Hin. rewrite <-Hby by done. unfold byte_at. by rewrite Hb2.
  - intros m1 G1 l1 q Hu1 Hk1 Hcv1 Hq Hlen He1 Hz.
    pose proof (sized_next m m1 a q _ Hsz Haa He1) as Hsz1.
    eapply wp_mono; [apply (IH (a + PGSIZE) m1 G1 l1 Hu1 Hsz1); try done|].
    + unfold PGSIZE in *; lia.
    + unfold PGSIZE in *; lia.
    + rewrite Z.add_mod, Haa, Z_mod_same_full; done.
    + lia.
    + unfold PGSIZE in *; lia.
    + cbn beta. intros r m2 (G2 & l2 & Hu2 & Hcv2 & Hr). exists G2, l2. split; [done|].
      split; [by eapply conserves_trans|].
      destruct Hr as [(-> & Hph & Hsz2 & Hk2 & Hc2 & Hz2)|(-> & Hsz2 & Hl2 & He2)]; [left|right]; split_and!; try done.
      * rewrite Z.max_r by lia. apply sized_pgup. apply sized_pgup in Hsz2. by rewrite pgup_next in Hsz2.
      * by eapply keeps_trans.
      * unfold PGSIZE in *. lia.
      * intros va Hva Hr. destruct (decide (page_of va = a)) as [Hp|Hp].
        -- apply (zero_mapped_keeps m1); [done| |done]. apply (zero_mapped_new m1 q); try done.
           by rewrite He1, decide_True by auto.
        -- apply Hz2; [done|]. split; [|lia]. apply aligned_lt; [done|apply page_of_aligned|lia].
      * unfold PGSIZE in *. lia.
      * intros va Hva Hlo. destruct (Hk1 va Hva (Hkept va Hva Hlo)) as [E Hby].
        destruct (He2 va Hva Hlo) as [E2 Hby2]. split; [congruence|]. intros x Hin.
        rewrite <-Hby by done. apply Hby2. unfold phys. by rewrite E.
Qed.
Lemma uvmalloc_wp oldsz newsz xperm m G l :
  uspace kend m pt G l -> sized m pt oldsz -> 0 <= oldsz <= newsz -> oldsz <= TRAPFRAME -> 0 <= xperm < 1024 ->
  wp (uvmalloc kend pt oldsz newsz xperm) (fun r m' => exists G' l', uspace kend m' pt G' l' /\
    conserves pt m G l m' G' l' /\ keeps m m' pt /\
    (r = newsz /\ newsz <= PHYSTOP /\ sized m' pt newsz /\
       (forall va, 0 <= va < TRAPFRAME -> pgup oldsz <= page_of va < newsz ->
          zero_mapped m' (user_perm xperm) va) /\
       Z.of_nat (length l) * PGSIZE <= Z.of_nat (length l') * PGSIZE + 3 * (pgup newsz - pgup oldsz) \/
     r = 0 /\ sized m' pt oldsz /\
       Z.of_nat (length l) * PGSIZE < 3 * (pgup newsz - pgup oldsz))) m.
Proof.
  intros Hu Hsz Hn Ht Hx. destruct (pgup_spec oldsz) as [H1 H2].
  pose proof (pgup_trapframe oldsz Ht) as H3. pose proof (proj1 (sized_pgup m pt oldsz) Hsz) as Hsz'.
  unfold uvmalloc. rewrite (proj2 (Z.ltb_ge _ _)) by lia. rewrite PGROUNDUP_pgup by lia. cbv zeta.
  set (fuel := S _).
  assert (Hf : newsz <= pgup oldsz + (Z.of_nat fuel - 1) * PGSIZE).
  { pose proof (Z.div_mod (newsz - pgup oldsz) PGSIZE ltac:(done)). unfold fuel.
    pose proof (Z.mod_pos_bound (newsz - pgup oldsz) PGSIZE PGSIZE_pos). unfold PGSIZE in *. lia. }
  eapply wp_mono; [apply (uvmalloc_loop_wp fuel (pgup oldsz) (pgup oldsz) newsz xperm m G l); (done || lia)|].
  cbn beta. intros r m' (G' & l' & Hu' & Hcv & Hpost). exists G', l'. split; [done|]. split; [done|].
  destruct Hpost as [(-> & Hph & Hs & Hkeep & Hc & Hz)|(-> & Hs & Hl & He)].
  + split; [done|]. left. pose proof (pgup_mono oldsz newsz ltac:(lia)). rewrite Z.max_r in Hc by lia. split_and!; try done.
    destruct (Z.max_spec (pgup oldsz) newsz) as [[_ E]|[Hle E]]; rewrite E in Hs; [done|].
    apply sized_pgup. replace (pgup newsz) with (pgup oldsz); [done|].
    pose proof (pgup_mono oldsz newsz). pose proof (pgup_mono _ _ Hle) as H4.
    rewrite (pgup_id (pgup oldsz)) in H4 by done. lia.
  + split; [|right; rewrite sized_pgup; split_and!; try done].
    intros va Hva Hv. apply He; [done|].
    rewrite Hsz' in Hv by done. by apply bool_decide_eq_true in Hv.
Qed.
End resize.

(** ** Theorems *)

(** [uvmdealloc] from [oldsz] to a smaller size ends, returns the new
    size and leaves the process with exactly the pages of its new size, each
    with its old entry; the pages in between, and no others, are freed, and no
    byte changes. *)
Theorem uvmdealloc_shrinks (kend pt oldsz newsz : Z) (m : vmem) (G : gmap Z (list Z)) (l : list Z) :
  0 < kend -> uspace kend m pt G l -> sized m pt oldsz -> 0 <= newsz < oldsz -> oldsz <= TRAPFRAME ->
  exists m', uvmdealloc kend pt oldsz newsz m = Ok newsz m' /\
    uspace kend m' pt G (freed_pages pt m oldsz newsz ++ l) /\ sized m' pt newsz /\
    bytes m' = bytes m /\
    forall va, 0 <= va < MAXVA -> leaf_pte m' pt va =
      if decide (pgup newsz <= page_of va < pgup oldsz) then 0 else leaf_pte m pt va.
Proof.
  intros Hk Hu Hsz Hn Ho.
  destruct (wp_elim _ _ _ (uvmdealloc_wp kend Hk pt m G l oldsz newsz Hu Hsz Hn Ho))
    as (r & m' & Hr & -> & H1 & H2 & H3 & _ & H5). by exists m'.
Qed.

(** Claim C24: [uvmalloc] from [oldsz] to [newsz], whatever [newsz] is, ends.
    For a [newsz] below [oldsz] it returns [oldsz] and does nothing.  Otherwise
    either it returns [newsz] and the process has exactly the pages of [newsz],
    the old ones with their entries and bytes, the new ones distinct pages of
    zeros with the flags R, U and [xperm]; or it returns 0, only when fewer than
    three free pages for each new page were there, and the process has exactly
    its old pages, entries and bytes.  On all paths no page is lost and no page
    of anyone else is touched. *)
Theorem uvmalloc_grows (kend pt oldsz newsz xperm : Z) (m : vmem) (G : gmap Z (list Z)) (l : list Z) :
  0 < kend -> uspace kend m pt G l -> sized m pt oldsz -> 0 <= oldsz <= TRAPFRAME -> 0 <= newsz ->
  0 <= xperm < 1024 ->
  exists r m' G' l', uvmalloc kend pt oldsz newsz xperm m = Ok r m' /\ uspace kend m' pt G' l' /\
    conserves pt m G l m' G' l' /\ keeps m m' pt /\
    (newsz < oldsz /\ r = oldsz /\ m' = m \/
     oldsz <= newsz /\ r = newsz /\ newsz <= PHYSTOP /\ sized m' pt newsz /\
       (forall va, 0 <= va < TRAPFRAME -> pgup oldsz <= page_of va < newsz ->
          zero_mapped pt m' (user_perm xperm) va) \/
     oldsz <= newsz /\ r = 0 /\ sized m' pt oldsz /\
       Z.of_nat (length l) < 3 * ((pgup newsz - pgup oldsz) / PGSIZE)).
Proof.
  intros Hk Hu Hsz Ht Hn Hx. destruct (decide (newsz < oldsz)) as [Hlt|Hge].
  { exists oldsz, m, G, l. unfold uvmalloc. rewrite (proj2 (Z.ltb_lt _ _) Hlt).
    split_and!; [done|done|apply conserves_refl|apply keeps_refl|by left]. }
  destruct (wp_elim _ _ _ (uvmalloc_wp kend Hk pt oldsz newsz xperm m G l Hu Hsz ltac:(lia) ltac:(lia) Hx))
    as (r & m' & Hr & G' & l' & Hu' & Hcv & Hkeep & Hpost). exists r, m', G', l'. split_and!; try done. right.
  destruct Hpost as [(-> & H1 & H2 & H3 & _)|(-> & H1 & H2)]; [left|right]; (split_and!; try done; try lia).
  destruct (pgup_spec newsz) as [_ A1], (pgup_spec oldsz) as [_ A2].
  apply Z.mod_divide in A1 as [z Ez]; [|done]. apply Z.mod_divide in A2 as [z' Ez']; [|done]. rewrite Ez, Ez' in *.
  rewrite <-Z.mul_sub_distr_r, Z.div_mul by done. unfold PGSIZE in *. lia.
Qed.

(** ** Witnesses: an empty process and one of a single page *)

Lemma ex_empty :
  exists m q l, length l = 3%nat /\ uspace Kalloc.kend4 m q {[q := []]} l /\ sized m q 0.
Proof.
  destruct ex_table as (m & q & l & Hlen & _ & Hst & Hz). exists m, q, l.
  assert (Hv : forall va, 0 <= va < TRAPFRAME -> valid m q va = false)
    by (intros va Hva; unfold valid; by rewrite Hz by auto).
  split_and!; [done| |].
  - split; [done| | |].
    + intros va Hva Hn. by rewrite Hv in Hn.
    + intros va Hva _. auto.
    + intros va va' Hva _ Hn. by rewrite Hv in Hn.
  - intros va Hva. rewrite Hv by done. symmetry. apply bool_decide_false.
    pose proof (page_bound va ltac:(auto)). lia.
Qed.

Lemma ex_one_page :
  exists m q G l, uspace Kalloc.kend4 m q G l /\ sized m q PGSIZE.
Proof.
  destruct ex_empty as (m & q & l & Hlen & Hu & Hsz).
  destruct (wp_elim _ _ _ (uvmalloc_loop_wp Kalloc.kend4 kend4_pos q 2 0 0 PGSIZE PTE_W m _ l Hu Hsz
    ltac:(lia) ltac:(by vm_compute) eq_refl eq_refl ltac:(done)
    ltac:(by vm_compute) ltac:(lia))) as (r & m' & _ & G' & l' & Hu' & _ & [(_ & _ & Hs & _)|(_ & _ & Hl & _)]).
  - by exists m', q, G', l'.
  - rewrite Hlen in Hl. by vm_compute in Hl.
Qed.

Lemma uvmdealloc_shrinks_witness :
  exists m q G l, sized m q PGSIZE /\
  exists m', uvmdealloc Kalloc.kend4 q PGSIZE 0 m = Ok 0 m' /\
    uspace Kalloc.kend4 m' q G (freed_pages q m PGSIZE 0 ++ l) /\ sized m' q 0 /\ bytes m' = bytes m /\
    forall va, 0 <= va < MAXVA -> leaf_pte m' q va =
      if decide (pgup 0 <= page_of va < pgup PGSIZE) then 0 else leaf_pte m q va.
Proof.
  destruct ex_one_page as (m & q & G & l & Hu & Hs). exists m, q, G, l. split; [done|].
  apply (uvmdealloc_shrinks Kalloc.kend4 q PGSIZE 0 m G l); try done; by vm_compute.
Defined.

Lemma uvmalloc_grows_witness :
  exists m q (l : list Z), sized m q 0 /\
  exists r m' G' l', uvmalloc Kalloc.kend4 q 0 (2 * PGSIZE) PTE_W m = Ok r m' /\
    uspace Kalloc.kend4 m' q G' l' /\ conserves q m {[q := []]} l m' G' l' /\ keeps m m' q /\
    (2 * PGSIZE < 0 /\ r = 0 /\ m' = m \/
     0 <= 2 * PGSIZE /\ r = 2 * PGSIZE /\ 2 * PGSIZE <= PHYSTOP /\ sized m' q (2 * PGSIZE) /\
       (forall va, 0 <= va < TRAPFRAME -> pgup 0 <= page_of va < 2 * PGSIZE ->
          zero_mapped q m' (user_perm PTE_W) va) \/
     0 <= 2 * PGSIZE /\ r = 0 /\ sized m' q 0 /\ Z.of_nat (length l) < 3 * ((pgup (2 * PGSIZE) - pgup 0) / PGSIZE)).
Proof.
  destruct ex_empty as (m & q & l & Hlen & Hu & Hsz). exists m, q, l. split; [done|].
  apply (uvmalloc_grows Kalloc.kend4 q 0 (2 * PGSIZE) PTE_W m {[q := []]} l); try done; by vm_compute.
Defined.
