(* ===== verification/Ulib.v ===== *)
(** * The user library (user/ulib.c)

    The string and number functions every user program links.  A string is the
    list of its bytes without the nul, or, where code looks at an array that
    may hold a nul, the array itself; [char] is an unsigned byte on this
    machine.  Functions that share a name with the kernel's are in a module of
    their own. *)

From S2P Require Import Prelude Cstring.

Module Ulib.

(** *** Characters *)
Definition NUL : Z := 0.
Definition NL : Z := 10.
Definition CR : Z := 13.
Definition ZERO : Z := 48.
Definition NINE : Z := 57.

(** The bytes stored, up to and with the nul. *)
Fixpoint strcpy (t : list Z) : list Z :=
  match t with
  | [] => [0]
  | c :: t => if c =? 0 then [0] else c :: strcpy t
  end.

Fixpoint strcmp (p q : list Z) : Z :=
  match p with
  | [] => 0 - hd 0 q
  | c :: p' =>
      if negb (c =? 0) && (c =? hd 0 q) then strcmp p' (tl q)
      else c - hd 0 q
  end.

Fixpoint strlen (s : list Z) : Z :=
  match s with
  | [] => 0
  | c :: s => if c =? 0 then 0 else 1 + strlen s
  end.

Fixpoint memset_loop (n i : nat) (dst : nat) (c : Z) (m : list Z) : list Z :=
  match n with
  | O => m
  | S n => memset_loop n (S i) dst c (<[(dst + i)%nat := u8 c]> m)
  end.
Definition memset (m : list Z) (dst : nat) (c : Z) (n : nat) : list Z := memset_loop n 0 dst c m.

(** [None] is the null pointer, otherwise the index of the first [c]. *)
Fixpoint strchr (s : list Z) (c : Z) : option nat :=
  match s with
  | [] => None
  | x :: s =>
      if x =? 0 then None
      else if x =? c then Some O
      else option_map S (strchr s c)
  end.

(** [gets(buf, max)]: [input] is what [read(0, &c, 1)] returns, one byte a
    call, [None] for a result below 1.  The bytes stored, with the nul. *)
Fixpoint gets_loop (n : nat) (input : list (option Z)) : list Z :=
  match n with
  | O => [0]
  | S n =>
      match input with
      | [] | None :: _ => [0]
      | Some c :: input =>
          c :: (if (c =? NL) || (c =? CR) then [0] else gets_loop n input)
      end
  end.
Definition gets (max : Z) (input : list (option Z)) : list Z := gets_loop (Z.to_nat (max - 1)) input.

(** [n = n*10 + *s++ - '0'] in 32-bit arithmetic. *)
Fixpoint atoi_loop (n : Z) (s : list Z) : Z :=
  match s with
  | [] => n
  | c :: s => if (ZERO <=? c) && (c <=? NINE) then atoi_loop (s32 (n * 10 + c - ZERO)) s else n
  end.
Definition atoi (s : list Z) : Z := atoi_loop 0 s.

(** The directions are chosen by the order of the pointers alone. *)
Definition memmove (m : list Z) (dst src n : nat) : list Z :=
  if (dst <? src)%nat then copy_up n dst src m else copy_down n (dst + n) (src + n) m.

Fixpoint memcmp (p1 p2 : list Z) (n : nat) : Z :=
  match n with
  | O => 0
  | S n => if negb (hd 0 p1 =? hd 0 p2) then hd 0 p1 - hd 0 p2 else memcmp (tl p1) (tl p2) n
  end.

Definition memcpy (m : list Z) (dst src n : nat) : list Z := memmove m dst src n.

(** ** Properties *)

Lemma strchr_spec s c :
  c <> 0 ->
  match strchr s c with
  | Some i => exists s1 s2, s = s1 ++ c :: s2 /\ length s1 = i /\ Forall (fun x => x <> 0 /\ x <> c) s1
  | None => Forall (fun x => x <> c) (cstr s)
  end.
Proof.
  intros Hc. induction s as [|x s IH]; cbn; [done|].
  destruct (Z.eqb_spec x 0) as [->|Hx]; [done|].
  destruct (Z.eqb_spec x c) as [->|Hxc]; [by exists [], s|].
  destruct (strchr s c) as [i|]; cbn.
  - destruct IH as (s1 & s2 & -> & Hl & Hf). exists (x :: s1), s2. cbn. split_and!; [done|lia|].
    by constructor.
  - by constructor.
Qed.

(** [strcmp] returns 0 exactly for equal strings, and otherwise has
    the sign of the lexicographic order of their bytes. *)
Theorem strcmp_order (p q : list Z) :
  Forall (fun c => 0 < c < 256) p -> Forall (fun c => 0 < c < 256) q ->
  (strcmp p q = 0 <-> p = q) /\
  (strcmp p q < 0 <-> exists k, take k p = take k q /\
     (nth k p 0 < nth k q 0)).
Proof.
  intros Hp. revert q. induction Hp as [|c p Hc Hp IH]; intros q Hq; cbn [strcmp].
  - destruct Hq as [|d q Hd Hq]; cbn.
    + split; [done|]. split; [done|]. intros (k & _ & H). destruct k; cbn in H; lia.
    + split; [split; [lia|done]|]. split; [|intros _; lia]. intros _. exists O. split; [done|cbn; lia].
  - rewrite (proj2 (Z.eqb_neq c 0)) by lia. cbn [negb andb].
    destruct Hq as [|d q Hd Hq]; cbn [hd tl].
    + rewrite (proj2 (Z.eqb_neq c 0)) by lia. split; [split; [lia|done]|]. split; [lia|].
      intros (k & Ht & H). destruct k; cbn in *; [lia|done].
    + destruct (Z.eqb_spec c d) as [->|Hne].
      * destruct (IH q Hq) as [E1 E2]. split.
        -- rewrite E1. split; [congruence|by intros [= ->]].
        -- rewrite E2. split; intros (k & Ht & H).
           ++ exists (S k). cbn. by rewrite Ht.
           ++ destruct k as [|k]; cbn in *; [lia|]. exists k. by injection Ht as ->.
      * split; [split; [lia|congruence]|]. split.
        -- intros Hlt. exists O. split; [done|cbn; lia].
        -- intros (k & Ht & H). destruct k; cbn in *; [lia|congruence].
Qed.

Lemma strcmp_order_witness :
  (strcmp [97; 98] [97; 99] = 0 <-> [97; 98] = [97; 99]) /\
  (strcmp [97; 98] [97; 99] < 0 <-> exists k, take k [97; 98] = take k [97; 99] /\
     nth k [97; 98] 0 < nth k [97; 99] 0).
Proof. apply strcmp_order; repeat constructor; lia. Defined.

(** The library's [memmove] copies the source region as it was
    before the call, overlapping or not, and stores nothing else. *)
Theorem ulib_memmove_copies (m : list Z) (dst src n : nat) :
  (dst + n <= length m)%nat -> (src + n <= length m)%nat ->
  memmove m dst src n = splice dst (slice src n m) m.
Proof.
  intros Hd Hs. apply list_eq. intros j. rewrite lookup_splice_slice by done. unfold memmove.
  destruct (Nat.ltb_spec dst src).
  - apply copy_up_lookup; lia.
  - destruct (decide (src = dst)) as [->|].
    + assert (Hid : forall k d m', (k <= d)%nat -> (d <= length m')%nat -> copy_down k d d m' = m').
      { induction k as [|k IH]; intros d m' Hk Hl; cbn [copy_down]; [done|].
        rewrite list_insert_id by (apply list_lookup_lookup_total_lt; lia). apply IH; lia. }
      rewrite Hid by lia. destruct (decide _); [f_equal; lia|done].
    + rewrite copy_down_lookup by lia. replace (dst + n - n)%nat with dst by lia.
      by replace (src + n - n)%nat with src by lia.
Qed.

Lemma ulib_memmove_copies_witness :
  memmove [1; 2; 3; 4; 5] 1 0 3 = splice 1 (slice 0 3 [1; 2; 3; 4; 5]) [1; 2; 3; 4; 5].
Proof. apply ulib_memmove_copies; cbn; lia. Defined.

(** [gets] stores at most [max] bytes, the last one a nul, and the
    others are the bytes read up to the end of the line, of the input or of the
    buffer. *)
Theorem gets_line (max : Z) (input : list (option Z)) :
  1 <= max ->
  exists line, gets max input = line ++ [0] /\ Z.of_nat (length line) < max /\
    (exists rest, input = map Some line ++ rest /\
       (Z.of_nat (length line) = max - 1 \/ hd_error rest = None \/ hd_error rest = Some None \/
        exists l c, line = l ++ [c] /\ (c = NL \/ c = CR))) /\
    (forall i c, line !! i = Some c -> (S i < length line)%nat -> c <> NL /\ c <> CR).
Proof.
  intros Hm. unfold gets.
  assert (Hg : forall n input, exists line, gets_loop n input = line ++ [0] /\ (length line <= n)%nat /\
    (exists rest, input = map Some line ++ rest /\
       ((length line = n)%nat \/ hd_error rest = None \/ hd_error rest = Some None \/
        exists l c, line = l ++ [c] /\ (c = NL \/ c = CR))) /\
    (forall i c, line !! i = Some c -> (S i < length line)%nat -> c <> NL /\ c <> CR)).
  { clear. induction n as [|n IH]; intros input; cbn [gets_loop].
    { exists []. split_and!; [done|cbn; lia|exists input; split; [done|by left]|done]. }
    destruct input as [|[c|] input].
    - exists []. split_and!; [done|cbn; lia|exists []; split; [done|by right; left]|done].
    - destruct ((c =? NL) || (c =? CR)) eqn:E.
      + exists [c]. split_and!; [done|cbn; lia| |intros [|i] x Hx Hi; cbn in *; lia].
        exists input. split; [done|]. do 3 right. exists [], c. split; [done|].
        apply orb_prop in E as [E|E]; zify_bool; auto.
      + destruct (IH input) as (line & -> & Hl & (rest & -> & Hr) & Hn). exists (c :: line).
        split_and!; [done|cbn; lia| |].
        * exists rest. split; [done|]. destruct Hr as [Hr|[Hr|[Hr|(l & d & -> & Hr)]]]; auto.
          -- left. cbn. lia.
          -- do 3 right. by exists (c :: l), d.
        * intros [|i] x Hx Hi; cbn in Hx, Hi; [|apply (Hn i); [done|lia]].
          injection Hx as <-. zify_bool. done.
    - exists []. split_and!; [done|cbn; lia|exists (None :: input); split; [done|by do 2 right; left]|done]. }
  destruct (Hg (Z.to_nat (max - 1)) input) as (line & H1 & H2 & (rest & H3 & H4) & H5).
  exists line. split_and!; [done|lia| |done]. exists rest. split; [done|]. destruct H4; [left; lia|by right].
Qed.

Lemma gets_line_witness :
  exists line, gets 4 [Some 97; Some 10; Some 98] = line ++ [0] /\ Z.of_nat (length line) < 4.
Proof.
  destruct (gets_line 4 [Some 97; Some 10; Some 98]) as (line & H1 & H2 & _); [lia|].
  exists line. split; [exact H1|exact H2].
Defined.

End Ulib.
