(* ===== verification/Printf.v ===== *)
(** * Formatted output (user/printf.c, kernel/printf.c)

    What the two printfs emit, as the list of the bytes passed to [putc] or
    [consputc].  The arguments behind [va_arg] are 64-bit slots; [str p] is the
    string at address [p]. *)

From S2P Require Import Prelude Ulib.

Module Printf.

Definition percent : Z := 37.
Definition minus : Z := 45.
(** "0123456789ABCDEF" and "0123456789abcdef" *)
Definition udigits : list Z := [48; 49; 50; 51; 52; 53; 54; 55; 56; 57; 65; 66; 67; 68; 69; 70].
Definition kdigits : list Z := [48; 49; 50; 51; 52; 53; 54; 55; 56; 57; 97; 98; 99; 100; 101; 102].
(** "(null)" *)
Definition null_str : list Z := [40; 110; 117; 108; 108; 41].

(** The do-while loop of [printint]: [buf] from index 0 on.  A 32-bit number
    has at most 32 digits in any base. *)
Fixpoint print_loop (fuel : nat) (digits : list Z) (base x : Z) : list Z :=
  match fuel with
  | O => []
  | S fuel =>
      digits !!! Z.to_nat (x mod base) ::
      (if negb (x / base =? 0) then print_loop fuel digits base (x / base) else [])
  end.

(** [xx] is an [int]; [-xx] is taken in 32 bits. *)
Definition printint (digits : list Z) (xx base : Z) (sgn : bool) : list Z :=
  let neg := sgn && (xx <? 0) in
  let x := if neg then u32 (- xx) else u32 xx in
  let buf := print_loop 32 digits base x in
  rev (if neg then buf ++ [minus] else buf).

Fixpoint printptr_loop (n : nat) (digits : list Z) (x : Z) : list Z :=
  match n with
  | O => []
  | S n => digits !!! Z.to_nat (Z.shiftr x 60) :: printptr_loop n digits (u64 (Z.shiftl x 4))
  end.
(** '0', 'x' and sixteen digits *)
Definition printptr (digits : list Z) (x : Z) : list Z := 48 :: 120 :: printptr_loop 16 digits x.

Section formats.
Context (str : Z -> list Z).

Definition print_str (p : Z) : list Z := if p =? 0 then null_str else str p.

(** [vprintf] of user/printf.c after [state]; [None] when an argument is
    missing. *)
Fixpoint vprintf_loop (fmt : list Z) (state : bool) (ap : list Z) : option (list Z) :=
  match fmt with
  | [] => Some []
  | c :: fmt =>
      if negb state then
        if c =? percent then vprintf_loop fmt true ap
        else app [c] <$> vprintf_loop fmt false ap
      else if c =? 100 then
        match ap with
        | [] => None
        | a :: ap => app (printint udigits (s32 a) 10 true) <$> vprintf_loop fmt false ap
        end
      else if c =? 108 then
        match ap with
        | [] => None
        | a :: ap => app (printint udigits (s32 a) 10 false) <$> vprintf_loop fmt false ap
        end
      else if c =? 120 then
        match ap with
        | [] => None
        | a :: ap => app (printint udigits (s32 a) 16 false) <$> vprintf_loop fmt false ap
        end
      else if c =? 112 then
        match ap with
        | [] => None
        | a :: ap => app (printptr udigits (u64 a)) <$> vprintf_loop fmt false ap
        end
      else if c =? 115 then
        match ap with
        | [] => None
        | a :: ap => app (print_str a) <$> vprintf_loop fmt false ap
        end
      else if c =? 99 then
        match ap with
        | [] => None
        | a :: ap => app [u8 a] <$> vprintf_loop fmt false ap
        end
      else if c =? percent then app [c] <$> vprintf_loop fmt false ap
      else app [percent; c] <$> vprintf_loop fmt false ap
  end.
Definition vprintf (fmt : list Z) (ap : list Z) : option (list Z) := vprintf_loop fmt false ap.

(** [printf] of kernel/printf.c: a conversion takes two characters at once. *)
Fixpoint kprintf (fmt : list Z) (ap : list Z) : option (list Z) :=
  match fmt with
  | [] => Some []
  | c :: fmt =>
      if negb (c =? percent) then app [c] <$> kprintf fmt ap
      else
        match fmt with
        | [] => Some []
        | c :: fmt =>
            if c =? 100 then
              match ap with
              | [] => None
              | a :: ap => app (printint kdigits (s32 a) 10 true) <$> kprintf fmt ap
              end
            else if c =? 120 then
              match ap with
              | [] => None
              | a :: ap => app (printint kdigits (s32 a) 16 true) <$> kprintf fmt ap
              end
            else if c =? 112 then
              match ap with
              | [] => None
              | a :: ap => app (printptr kdigits (u64 a)) <$> kprintf fmt ap
              end
            else if c =? 115 then
              match ap with
              | [] => None
              | a :: ap => app (print_str a) <$> kprintf fmt ap
              end
            else if c =? percent then app [percent] <$> kprintf fmt ap
            else app [percent; c] <$> kprintf fmt ap
        end
  end.
End formats.

(** ** Numbers read back *)

(** The value of a digit list, least significant first. *)
Fixpoint value (base : Z) (ds : list Z) : Z :=
  match ds with
  | [] => 0
  | d :: ds => d + base * value base ds
  end.

(** The digits of [x], least significant first. *)
Fixpoint digits_of (fuel : nat) (base x : Z) : list Z :=
  match fuel with
  | O => []
  | S fuel => x mod base :: (if negb (x / base =? 0) then digits_of fuel base (x / base) else [])
  end.

Lemma print_loop_digits fuel ds base x :
  print_loop fuel ds base x = map (fun d => ds !!! Z.to_nat d) (digits_of fuel base x).
Proof.
  revert x. induction fuel as [|fuel IH]; intros x; cbn; [done|]. f_equal.
  destruct (negb _); [apply IH|done].
Qed.

Lemma digits_of_value fuel base x :
  1 < base -> 0 <= x < base ^ Z.of_nat fuel ->
  value base (digits_of fuel base x) = x /\ Forall (fun d => 0 <= d < base) (digits_of fuel base x).
Proof.
  intros Hb. revert x. induction fuel as [|fuel IH]; intros x Hx; cbn [digits_of].
  { change (Z.of_nat 0) with 0 in Hx. rewrite Z.pow_0_r in Hx. split; [cbn; lia|constructor]. }
  rewrite Nat2Z.inj_succ, Z.pow_succ_r in Hx by lia.
  pose proof (Z.mod_pos_bound x base ltac:(lia)) as Hm. pose proof (Z.div_mod x base ltac:(lia)) as Hd.
  assert (Hq : 0 <= x / base < base ^ Z.of_nat fuel)
    by (split; [apply Z.div_pos; lia|apply Z.div_lt_upper_bound; lia]).
  destruct (Z.eqb_spec (x / base) 0) as [E|E]; cbn [negb value].
  - rewrite E in Hd. split; [lia|constructor; [done|constructor]].
  - destruct (IH _ Hq) as [-> Hf]. split; [lia|by constructor].
Qed.

(** At most [k] digits below [base ^ k]. *)
Lemma digits_of_length fuel base x k :
  1 < base -> (0 < k)%nat -> 0 <= x < base ^ Z.of_nat k -> (length (digits_of fuel base x) <= k)%nat.
Proof.
  intros Hb. revert x k. induction fuel as [|fuel IH]; intros x k Hk Hx; cbn [digits_of length]; [lia|].
  destruct (Z.eqb_spec (x / base) 0) as [E|E]; cbn [negb length]; [lia|].
  destruct k as [|[|k]]; [lia| |].
  - rewrite Z.pow_1_r in Hx. rewrite Z.div_small in E by lia. done.
  - apply le_n_S, IH; [lia|]. rewrite (Nat2Z.inj_succ (S k)), Z.pow_succ_r in Hx by lia.
    split; [apply Z.div_pos; lia|apply Z.div_lt_upper_bound; lia].
Qed.

Lemma udigits_dec d : 0 <= d < 10 -> udigits !!! Z.to_nat d = Ulib.ZERO + d.
Proof.
  intros Hd. assert (Hc : d = 0 \/ d = 1 \/ d = 2 \/ d = 3 \/ d = 4 \/ d = 5 \/ d = 6 \/ d = 7 \/ d = 8 \/ d = 9)
    by lia. repeat destruct Hc as [->|Hc]; try done. by subst d.
Qed.

(** [atoi] over the digits, most significant first. *)
Lemma atoi_digits ds acc :
  Forall (fun d => 0 <= d < 10) ds -> 0 <= acc ->
  acc * 10 ^ Z.of_nat (length ds) + value 10 ds < 2 ^ 31 ->
  Ulib.atoi_loop acc (rev (map (fun d => udigits !!! Z.to_nat d) ds)) =
  acc * 10 ^ Z.of_nat (length ds) + value 10 ds.
Proof.
  intros Hf. revert acc. induction ds as [|d ds IH] using rev_ind; intros acc Ha Hlt.
  { cbn in *. lia. }
  apply Forall_app in Hf as [Hf [Hd _]%Forall_cons].
  assert (Hv : forall l x, value 10 (l ++ [x]) = value 10 l + 10 ^ Z.of_nat (length l) * x).
  { clear. induction l as [|y l IHl]; intros x; cbn [app value length]; [lia|].
    rewrite IHl, Nat2Z.inj_succ, Z.pow_succ_r by lia. lia. }
  assert (Hp : 0 < 10 ^ Z.of_nat (length ds)) by (apply Z.pow_pos_nonneg; lia).
  assert (Hn : 0 <= value 10 ds).
  { clear -Hf. induction Hf as [|x l ? ? IHf]; cbn [value]; lia. }
  rewrite Hv, length_app, Nat2Z.inj_add, Z.pow_add_r in * by lia. cbn [length] in *.
  change (10 ^ Z.of_nat 1) with 10 in *. rewrite map_app, rev_app_distr. cbn [map rev app Ulib.atoi_loop].
  rewrite udigits_dec by done. unfold Ulib.ZERO, Ulib.NINE.
  rewrite (proj2 (Z.leb_le _ _)), (proj2 (Z.leb_le _ _)) by lia. cbn [andb].
  assert (E : s32 (acc * 10 + (48 + d) - 48) = acc * 10 + d) by (rewrite s32_small; nia).
  rewrite E, IH by (done || nia). lia.
Qed.

(** What [printint] prints of an [int] in decimal fits its 16-byte
    buffer and reads back as the number: [atoi] of the digits is its absolute
    value, and a minus sign comes first exactly when it is negative. *)
Theorem printint_atoi (xx : Z) :
  - 2 ^ 31 < xx < 2 ^ 31 ->
  let out := printint udigits xx 10 true in
  (length out <= 11)%nat /\
  (0 <= xx -> Ulib.atoi out = xx) /\
  (xx < 0 -> exists ds, out = minus :: ds /\ Ulib.atoi ds = - xx).
Proof.
  intros Hx out. unfold out, printint. cbn [andb].
  assert (Hr : forall x, 0 <= x < 2 ^ 31 ->
    let l := print_loop 32 udigits 10 x in (length l <= 10)%nat /\ Ulib.atoi (rev l) = x).
  { intros x Hx'. cbn zeta. rewrite print_loop_digits, length_map.
    destruct (digits_of_value 32 10 x) as [Hv Hf]; [lia|cbn; lia|]. split.
    - apply digits_of_length; [lia|lia|]. cbn. lia.
    - unfold Ulib.atoi. rewrite atoi_digits; rewrite ?Hv; (done || lia). }
  destruct (Z.ltb_spec xx 0) as [Hn|Hn].
  - rewrite u32_small by lia. destruct (Hr (- xx) ltac:(lia)) as [Hl Ha]. rewrite rev_app_distr. cbn [rev app].
    rewrite length_cons, length_rev. split_and!; [lia|lia|]. intros _. by eexists.
  - rewrite u32_small by lia. destruct (Hr xx ltac:(lia)) as [Hl Ha]. rewrite length_rev.
    split_and!; [lia|done|lia].
Qed.

Lemma printint_atoi_witness :
  printint udigits (-42) 10 true = [45; 52; 50] /\
  exists ds, printint udigits (-42) 10 true = minus :: ds /\ Ulib.atoi ds = 42.
Proof.
  split; [reflexivity|].
  destruct (printint_atoi (-42)) as (_ & _ & H); [lia|]. apply H. lia.
Defined.

(** ** Pointers *)

(** The digits' indices, and the number most significant digit first. *)
Fixpoint nibbles (n : nat) (x : Z) : list Z :=
  match n with
  | O => []
  | S n => Z.shiftr x 60 :: nibbles n (u64 (Z.shiftl x 4))
  end.
Definition hex_value (ds : list Z) : Z := fold_left (fun a d => 16 * a + d) ds 0.

Lemma printptr_loop_nibbles n ds x :
  printptr_loop n ds x = map (fun d => ds !!! Z.to_nat d) (nibbles n x).
Proof. revert x. induction n as [|n IH]; intros x; cbn; [done|]. by rewrite IH. Qed.

Lemma nibbles_value n x acc :
  (n <= 16)%nat -> 0 <= x < 2 ^ 64 ->
  fold_left (fun a d => 16 * a + d) (nibbles n x) acc =
    acc * 16 ^ Z.of_nat n + x / 16 ^ (16 - Z.of_nat n) /\
  Forall (fun d => 0 <= d < 16) (nibbles n x).
Proof.
  revert x acc. induction n as [|n IH]; intros x acc Hn Hx; cbn [nibbles fold_left].
  { change (16 - Z.of_nat 0) with 16. change (16 ^ 16) with (2 ^ 64). rewrite Z.div_small by lia.
    split; [cbn; lia|constructor]. }
  rewrite Z.shiftr_div_pow2, Z.shiftl_mul_pow2 by lia.
  set (q := x / 2 ^ 60). set (r := x mod 2 ^ 60).
  assert (Hqr : x = 2 ^ 60 * q + r) by (apply Z.div_mod; lia).
  assert (Hr : 0 <= r < 2 ^ 60) by (apply Z.mod_pos_bound; lia).
  assert (Hq : 0 <= q < 16) by (split; [apply Z.div_pos; lia|apply Z.div_lt_upper_bound; lia]).
  assert (Eu : u64 (x * 2 ^ 4) = 16 * r).
  { unfold u64. symmetry. apply Z.mod_unique with q; lia. }
  rewrite Eu. destruct (IH (16 * r) (16 * acc + q)) as [-> Hf]; [lia|lia|].
  split; [|by constructor]. rewrite Nat2Z.inj_succ.
  set (P := 16 ^ (15 - Z.of_nat n)). assert (HP : 0 < P) by (apply Z.pow_pos_nonneg; lia).
  assert (E1 : 16 ^ (16 - Z.of_nat n) = 16 * P).
  { replace (16 - Z.of_nat n) with (Z.succ (15 - Z.of_nat n)) by lia. rewrite Z.pow_succ_r by lia. done. }
  assert (E2 : 2 ^ 60 = 16 ^ Z.of_nat n * P).
  { unfold P. rewrite <-Z.pow_add_r by lia. replace (Z.of_nat n + (15 - Z.of_nat n)) with 15 by lia. done. }
  replace (16 - Z.succ (Z.of_nat n)) with (15 - Z.of_nat n) by lia. fold P.
  rewrite E1, Z.div_mul_cancel_l, Z.pow_succ_r by lia.
  rewrite Hqr, E2. replace (16 ^ Z.of_nat n * P * q + r) with (r + 16 ^ Z.of_nat n * q * P) by lia.
  rewrite Z.div_add by lia. lia.
Qed.

(** [printptr] prints "0x" and sixteen hexadecimal digits whose value
    is the pointer. *)
Theorem printptr_value (x : Z) :
  0 <= x < 2 ^ 64 ->
  exists ds, printptr udigits x = 48 :: 120 :: map (fun d => udigits !!! Z.to_nat d) ds /\
    length ds = 16%nat /\ Forall (fun d => 0 <= d < 16) ds /\ hex_value ds = x.
Proof.
  intros Hx. exists (nibbles 16 x). unfold printptr. rewrite printptr_loop_nibbles.
  destruct (nibbles_value 16 x 0) as [Hv Hf]; [lia|done|]. split_and!; try done.
  unfold hex_value. rewrite Hv. change (16 - Z.of_nat 16) with 0. rewrite Z.pow_0_r, Z.div_1_r. lia.
Qed.

Lemma printptr_value_witness :
  exists ds, printptr udigits 0x80001234 = 48 :: 120 :: map (fun d => udigits !!! Z.to_nat d) ds /\
    length ds = 16%nat /\ Forall (fun d => 0 <= d < 16) ds /\ hex_value ds = 0x80001234.
Proof. apply printptr_value. lia. Defined.

(** ** Numerals *)

(** The value of a digit, and of a string of them read from the left. *)
Definition digit_val (c : Z) : Z :=
  if (48 <=? c) && (c <=? 57) then c - 48 else if (65 <=? c) && (c <=? 70) then c - 55 else -1.
Definition number (base : Z) (l : list Z) : Z := fold_left (fun a c => a * base + digit_val c) l 0.

(** [l] is the way [n] is written in base [base]: digits of the base, without a
    superfluous zero at the front. *)
Definition numeral (base n : Z) (l : list Z) : Prop :=
  l <> [] /\ Forall (fun c => 0 <= digit_val c < base) l /\ number base l = n /\ (head l = Some 48 -> l = [48]).

(** A signed number. *)
Definition decimal (z : Z) (l : list Z) : Prop :=
  if decide (z < 0) then exists ds, l = minus :: ds /\ numeral 10 (- z) ds else numeral 10 z l.

Lemma udigits_val d : 0 <= d < 16 -> digit_val (udigits !!! Z.to_nat d) = d.
Proof.
  intros Hd. assert (Hn : (Z.to_nat d < 16)%nat) by lia. rewrite <- (Z2Nat.id d) at 2 by lia.
  revert Hn. generalize (Z.to_nat d) as n. intros n Hn. do 16 (destruct n as [|n]; [done|]). lia.
Qed.

Lemma udigits_zero d : 0 <= d < 16 -> udigits !!! Z.to_nat d = 48 -> d = 0.
Proof. intros Hd E. rewrite <- (udigits_val d Hd), E. done. Qed.

Lemma number_digits base ds :
  Forall (fun d => 0 <= d < 16) ds ->
  number base (rev (map (fun d => udigits !!! Z.to_nat d) ds)) = value base ds.
Proof.
  unfold number. rewrite <- fold_left_rev_right, rev_involutive. induction 1 as [|d ds Hd Hds IH]; [done|].
  cbn [map fold_right value]. rewrite IH, udigits_val by done. lia.
Qed.

Lemma digits_of_last fuel base x :
  1 < base -> 0 <= x < base ^ Z.of_nat fuel -> last (digits_of fuel base x) = Some 0 -> digits_of fuel base x = [0].
Proof.
  intros Hb. revert x. induction fuel as [|fuel IH]; intros x Hx; cbn [digits_of]; [done|].
  rewrite Nat2Z.inj_succ, Z.pow_succ_r in Hx by lia.
  assert (Hq : 0 <= x / base < base ^ Z.of_nat fuel)
    by (split; [apply Z.div_pos; lia|apply Z.div_lt_upper_bound; lia]).
  destruct (Z.eqb_spec (x / base) 0) as [E|E]; cbn [negb]; [by intros [= ->]|].
  destruct (digits_of_value fuel base (x / base) Hb Hq) as [Hv _]. intros Hl. exfalso.
  destruct (digits_of fuel base (x / base)) as [|d ds] eqn:Ed; [by cbn in Hv|].
  change (last (d :: ds) = Some 0) in Hl. rewrite <- Ed in Hl. apply (IH _ Hq) in Hl.
  rewrite <- Hv, <- Ed, Hl in E. cbn in E. lia.
Qed.

Lemma print_loop_numeral base x :
  2 <= base <= 16 -> 0 <= x < 2 ^ 32 -> numeral base x (rev (print_loop 32 udigits base x)).
Proof.
  intros Hb Hx. assert (Hp : 0 <= x < base ^ Z.of_nat 32).
  { split; [lia|]. apply Z.lt_le_trans with (2 ^ 32); [lia|]. apply Z.pow_le_mono_l. lia. }
  destruct (digits_of_value 32 base x) as [Hv Hf]; [lia|done|].
  assert (Hf' : Forall (fun d => 0 <= d < 16) (digits_of 32 base x)) by (eapply Forall_impl; [exact Hf|]; intros d Hd; cbn beta in *; lia).
  rewrite print_loop_digits. split_and!.
  - cbn [digits_of map rev]. intros E. by apply app_eq_nil in E as [_ ?].
  - apply Forall_rev, Forall_map. eapply Forall_impl; [exact Hf|]. intros d Hd. cbn beta in *. unfold compose. rewrite udigits_val by lia. done.
  - by rewrite number_digits.
  - intros Hh. rewrite rev_alt in Hh. change (head (reverse (map (fun d => udigits !!! Z.to_nat d) (digits_of 32 base x))) = Some 48) in Hh.
    rewrite head_reverse in Hh. change (map (fun d => udigits !!! Z.to_nat d) (digits_of 32 base x))
      with ((fun d => udigits !!! Z.to_nat d) <$> digits_of 32 base x) in Hh. rewrite fmap_last in Hh.
    destruct (last (digits_of 32 base x)) as [d|] eqn:El; [|done]. injection Hh as Hd.
    assert (d = 0) as ->.
    { apply udigits_zero; [|done]. apply last_Some in El as [l El]. rewrite El in Hf'. by apply Forall_app in Hf' as [_ [? _]%Forall_cons]. }
    by rewrite (digits_of_last 32 base x ltac:(lia) Hp El).
Qed.

Lemma printint_decimal z : - 2 ^ 31 <= z < 2 ^ 31 -> decimal z (printint udigits z 10 true).
Proof.
  intros Hz. unfold decimal, printint. cbn [andb]. destruct (Z.ltb_spec z 0); (case_decide; [|try lia]); try lia.
  - rewrite rev_app_distr. eexists. split; [done|]. rewrite u32_small by lia. apply print_loop_numeral; lia.
  - rewrite u32_small by lia. apply print_loop_numeral; lia.
Qed.

Lemma printint_hex z : numeral 16 (u32 z) (printint udigits z 16 false).
Proof. unfold printint. cbn [andb]. apply print_loop_numeral; [lia|apply u32_range]. Qed.

Lemma printptr_number x : 0 <= x < 2 ^ 64 ->
  exists ds, printptr udigits x = 48 :: 120 :: ds /\ length ds = 16%nat /\ Forall (fun c => 0 <= digit_val c < 16) ds /\
    number 16 ds = x.
Proof.
  intros Hx. destruct (printptr_value x Hx) as (ds & E & Hl & Hf & Hv).
  exists (map (fun d => udigits !!! Z.to_nat d) ds). rewrite length_map. split_and!; [done|done| |].
  - apply Forall_map. eapply Forall_impl; [exact Hf|]. intros d Hd. cbn. by rewrite udigits_val.
  - rewrite <- Hv. unfold number, hex_value. generalize 0. clear -Hf. induction Hf as [|d ds Hd Hf IH]; intros a; [done|].
    cbn [map fold_left]. rewrite udigits_val by done. rewrite IH. f_equal. lia.
Qed.

(** ** Formats *)

(** What a caller can ask for, by the comment above [vprintf]: characters, a
    number in decimal or hexadecimal, a pointer, a string, a percent sign.  The
    argument is a slot of 64 bits, of which an [int] takes the lower half. *)
Inductive item : Type :=
| Char (c : Z)
| Dec (a : Z)
| Hex (a : Z)
| Ptr (a : Z)
| Text (p : Z)
| Percent.

Definition item_format (i : item) : list Z :=
  match i with
  | Char c => [c]
  | Dec _ => [percent; 100]
  | Hex _ => [percent; 120]
  | Ptr _ => [percent; 112]
  | Text _ => [percent; 115]
  | Percent => [percent; percent]
  end.
Definition item_args (i : item) : list Z :=
  match i with
  | Dec a | Hex a | Ptr a | Text a => [a]
  | Char _ | Percent => []
  end.
Definition item_ok (i : item) : Prop := match i with Char c => c <> percent | _ => True end.

(** [out] is what the caller wants to see of [i]. *)
Definition shown (str : Z -> list Z) (i : item) (out : list Z) : Prop :=
  match i with
  | Char c => out = [c]
  | Dec a => decimal (s32 a) out
  | Hex a => numeral 16 (u32 a) out
  | Ptr a => exists ds, out = 48 :: 120 :: ds /\ length ds = 16%nat /\ Forall (fun c => 0 <= digit_val c < 16) ds /\
      number 16 ds = u64 a
  | Text p => out = if decide (p = 0) then null_str else str p
  | Percent => out = [percent]
  end.

Lemma s32_bounds a : - 2 ^ 31 <= s32 a < 2 ^ 31.
Proof. unfold s32. pose proof (Z.mod_pos_bound (a + 2 ^ 31) (2 ^ 32) ltac:(done)). lia. Qed.

Lemma u32_s32 a : u32 (s32 a) = u32 a.
Proof. unfold u32, s32. Z.div_mod_to_equations. lia. Qed.

Lemma vprintf_item str i fmt ap :
  item_ok i -> exists out, shown str i out /\
    vprintf str (item_format i ++ fmt) (item_args i ++ ap) = app out <$> vprintf str fmt ap.
Proof.
  intros Hi. unfold vprintf. destruct i as [c|a|a|a|p|]; cbn [item_format item_args app vprintf_loop negb shown].
  - exists [c]. split; [done|]. by rewrite (proj2 (Z.eqb_neq c percent) Hi).
  - exists (printint udigits (s32 a) 10 true). split; [apply printint_decimal, s32_bounds|done].
  - exists (printint udigits (s32 a) 16 false). split; [|done]. rewrite <- u32_s32. apply printint_hex.
  - exists (printptr udigits (u64 a)). split; [apply printptr_number, u64_range|done].
  - exists (print_str str p). split; [|done]. unfold print_str. case_decide as E; [by subst|].
    by rewrite (proj2 (Z.eqb_neq p 0) E).
  - by exists [percent].
Qed.



(** "%l" reads a 64-bit argument and prints its low 32 bits. *)
Lemma percent_l_truncates str : vprintf str [percent; 108] [2 ^ 32 + 7] = Some [55].
Proof. reflexivity. Qed.
End Printf.
