(* ===== verification/Syscalls.v ===== *)
(** * User programs as interaction trees

    The programs of user/ are the system calls they make (user/user.h) and what
    they do with the answers; [init] and the shell run for ever.  They are
    interaction trees over [progE].  A kernel is any relation between calls,
    states and answers; [runs] says that a program ends, whatever the kernel
    answers, in a state that satisfies a postcondition, and [safe] that every
    finite run of it follows a protocol. *)

From ITree Require Import ITree.
From S2P Require Import Prelude Printf Vfs.

Declare Scope prog_scope.
Delimit Scope prog_scope with prog.
Notation "'let*' p := t 'in' k" := (ITree.bind t (fun p => k))
  (at level 200, p pattern, t at level 100, k at level 200) : prog_scope.
Notation "t ;;; k" := (ITree.bind t (fun _ => k)) (at level 100, right associativity) : prog_scope.
Open Scope prog_scope.

(** The system calls that return, with what they return in registers and in the
    buffers passed to them: [Wait] the pid and the exit status. *)
Variant sysE : Type -> Type :=
| Fork : sysE Z
| Wait : sysE (Z * Z)
| Pipe : sysE (Z * (Z * Z))
| Write (fd : Z) (l : list Z) : sysE Z
| Read (fd n : Z) : sysE (Z * list Z)
| Close (fd : Z) : sysE Z
| Kill (pid : Z) : sysE Z
| Exec (path : list Z) (argv : list (list Z)) : sysE Z
| Open (path : list Z) (mode : Z) : sysE Z
| Mknod (path : list Z) (major minor : Z) : sysE Z
| Unlink (path : list Z) : sysE Z
| Fstat (fd : Z) : sysE (Z * Vfs.stat)
| Link (old new : list Z) : sysE Z
| Mkdir (path : list Z) : sysE Z
| Chdir (path : list Z) : sysE Z
| Dup (fd : Z) : sysE Z
| Getpid : sysE Z
| Sbrk (n : Z) : sysE Z
| Sleep (n : Z) : sysE Z
| Uptime : sysE Z.

Variant progE : Type -> Type :=
| Sys {X} (c : sysE X) : progE X
| Exit (st : Z) : progE Empty_set.

Notation prog := (itree progE).

Definition sys {X} (c : sysE X) : prog X := ITree.trigger (Sys c).
Definition exit {R} (st : Z) : prog R :=
  let* x := ITree.trigger (Exit st) in match x : Empty_set with end.

(** A store past the end of an array, after which C promises nothing: a program
    that comes to it never ends, so that no theorem on [runs] holds of it. *)
Definition overrun {R} : prog R := ITree.spin.

(** [_main] of user/ulib.c, where every program starts. *)
Definition _main (main : prog unit) : prog unit :=
  main ;;;
  exit 0.

(** ** Formatted output *)

Definition bytes (s : string) : list Z := map (fun a => Z.of_nat (Ascii.nat_of_ascii a)) (String.list_ascii_of_string s).
Definition NLs : list Z := [10].

Inductive arg : Type := Num (z : Z) | Str (s : list Z).

(** The arguments as words; a string is passed as a pointer. *)
Definition arg_word (i : nat) (a : arg) : Z := match a with Num z => z | Str _ => Z.of_nat i + 1 end.
Definition arg_str (args : list arg) (p : Z) : list Z :=
  match args !! Z.to_nat (p - 1) with Some (Str s) => s | _ => [] end.

Definition format (fmt : list Z) (args : list arg) : list Z :=
  default [] (Printf.vprintf (arg_str args) fmt (imap arg_word args)).

(** [putc] writes one byte at a time. *)
Fixpoint putcs (fd : Z) (l : list Z) : prog unit :=
  match l with
  | [] => Ret tt
  | c :: l => sys (Write fd [c]) ;;; putcs fd l
  end.
Definition fprintf (fd : Z) (fmt : list Z) (args : list arg) : prog unit := putcs fd (format fmt args).
Definition printf (fmt : list Z) (args : list arg) : prog unit := fprintf 1 fmt args.

(** ** Runs that end *)

Lemma observe_bind {E R R'} (t : itree E R) (k : R -> itree E R') :
  observe (ITree.bind t k) = match observe t with
    | RetF r => observe (k r)
    | TauF t => TauF (ITree.bind t k)
    | VisF e h => VisF e (fun x => ITree.bind (h x) k)
    end.
Proof. unfold observe at 1. cbn. by destruct (observe t). Qed.

Lemma observe_iter {E A R} (body : A -> itree E (A + R)) (x : A) :
  observe (ITree.iter body x) =
  observe (ITree.bind (body x) (fun lr => match lr with inl l => Tau (ITree.iter body l) | inr r => Ret r end)).
Proof. reflexivity. Qed.

Inductive outcome (R : Type) : Type := Returned (r : R) | Exited (st : Z).
Arguments Returned {R}.
Arguments Exited {R}.

Class Kernel (S : Type) : Type := ksys : forall X, sysE X -> S -> X -> S -> Prop.
Arguments ksys {S _ X}.

Section Runs.
Context {S : Type} `{K : Kernel S}.

Inductive runs {R : Type} (Q : outcome R -> S -> Prop) : itree' progE R -> S -> Prop :=
| runs_ret r s : Q (Returned r) s -> runs Q (RetF r) s
| runs_tau t s : runs Q (observe t) s -> runs Q (TauF t) s
| runs_exit st k s : Q (Exited st) s -> runs Q (VisF (Exit st) k) s
| runs_sys X (c : sysE X) k s :
    (forall x s', ksys c s x s' -> runs Q (observe (k x)) s') -> runs Q (VisF (Sys c) k) s.

Definition returning {R R' : Type} (P : R -> S -> Prop) (Q : outcome R' -> S -> Prop) (o : outcome R) (s : S) : Prop :=
  match o with Returned r => P r s | Exited st => Q (Exited st) s end.

Lemma runs_mono {R} (Q Q' : outcome R -> S -> Prop) t s :
  (forall o s, Q o s -> Q' o s) -> runs Q t s -> runs Q' t s.
Proof. intros HQ. induction 1; constructor; auto. Qed.

Lemma runs_bind {R R'} (t : prog R) (k : R -> prog R') Q s :
  runs (returning (fun r s => runs Q (observe (k r)) s) Q) (observe t) s ->
  runs Q (observe (ITree.bind t k)) s.
Proof.
  remember (observe t) as ot eqn:E. intros H. revert t E.
  induction H as [r s Hr|t' s Hr IH|st h s Hr|X c h s Hr IH]; intros t E;
    rewrite observe_bind, <- E.
  - exact Hr.
  - constructor. by apply IH.
  - constructor. exact Hr.
  - constructor. intros x s' Hx. by eapply IH.
Qed.

Lemma runs_call {X R} (c : sysE X) (k : X -> prog R) Q s :
  (forall x s', ksys c s x s' -> runs Q (observe (k x)) s') ->
  runs Q (observe (ITree.bind (sys c) k)) s.
Proof. intros H. rewrite observe_bind. constructor. intros x s' Hx. rewrite observe_bind. by apply H. Qed.

Lemma runs_return {R} (r : R) Q s : Q (Returned r) s -> runs Q (observe (Ret r : prog R)) s.
Proof. intros H. by constructor. Qed.

Lemma runs_ends {R} st Q s : Q (Exited st) s -> runs Q (observe (exit (R := R) st)) s.
Proof. intros H. cbn. by constructor. Qed.

Lemma runs_iter {A R} (body : A -> prog (A + R)) (x : A) Q s :
  runs (returning (fun r s => match r with
    | inl y => runs Q (observe (ITree.iter body y)) s
    | inr r => Q (Returned r) s end) Q) (observe (body x)) s ->
  runs Q (observe (ITree.iter body x)) s.
Proof.
  intros H. rewrite observe_iter. apply runs_bind. eapply runs_mono; [|exact H]. intros [[y|r]|st] s' Hs; cbn in *; [by constructor..|done].
Qed.
End Runs.

(** ** Protocols *)

(** [next q c x] is the state after the call [c] answered [x], or [None] when
    the call is not allowed in state [q].  A run of [n] steps is followed. *)
Section Safe.
Context {A : Type} (next : forall X, A -> sysE X -> X -> option A).

Fixpoint safe {R : Type} (n : nat) (Q : nat -> R -> A -> Prop) (t : prog R) (q : A) : Prop :=
  match n with
  | O => True
  | Datatypes.S n =>
      match observe t with
      | RetF r => Q n r q
      | TauF t => safe n Q t q
      | VisF e k =>
          match e in progE X return (X -> prog R) -> Prop with
          | Sys c => fun k => forall x, exists q', next _ q c x = Some q' /\ safe n Q (k x) q'
          | Exit _ => fun _ => True
          end k
      end
  end.

Lemma safe_return {R} n Q (r : R) q :
  (forall m, (m < n)%nat -> Q m r q) -> safe n Q (Ret r) q.
Proof. intros H. destruct n as [|n]; [done|]. apply (H n). lia. Qed.

Lemma safe_bind {R R'} n Q (t : prog R) (k : R -> prog R') q :
  safe n (fun m r q => safe (Datatypes.S m) Q (k r) q) t q -> safe n Q (ITree.bind t k) q.
Proof.
  revert t q. induction n as [|n IH]; intros t q; [done|].
  intros H. cbn [safe] in *. rewrite observe_bind. destruct (observe t) as [r|t'|X e h].
  - exact H.
  - by apply IH.
  - destruct e as [X c|st]; [|done]. intros x. destruct (H x) as (q' & Hq & Hs). exists q'. split; [done|].
    by apply IH.
Qed.

Lemma safe_call {X R} n Q (c : sysE X) (k : X -> prog R) q :
  (forall m x, (m < n)%nat -> exists q', next X q c x = Some q' /\ safe m Q (k x) q') ->
  safe n Q (ITree.bind (sys c) k) q.
Proof.
  intros H. destruct n as [|n]; [done|]. cbn [safe]. rewrite observe_bind. cbn. intros x.
  destruct (H n x ltac:(lia)) as (q' & Hq & Hs). exists q'. split; [done|].
  destruct n as [|n]; [done|]. cbn [safe] in *. by rewrite observe_bind.
Qed.

Lemma safe_putcs {R} n Q fd l (k : prog R) q :
  (forall b x, next Z q (Write fd [b]) x = Some q) ->
  (forall m, (m <= n)%nat -> safe m Q k q) ->
  safe n Q (putcs fd l ;;; k) q.
Proof.
  intros Hw. revert n. induction l as [|c l IH]; intros n Hk.
  - destruct n as [|n]; [done|]. cbn [safe]. rewrite observe_bind. apply (Hk (Datatypes.S n) ltac:(lia)).
  - cbn [putcs]. destruct n as [|n]; [done|]. cbn [safe]. rewrite !observe_bind. cbn. intros x. exists q.
    split; [apply Hw|]. destruct n as [|n]; [done|]. cbn [safe]. rewrite !observe_bind. cbn.
    specialize (IH (Datatypes.S n)). cbn [safe] in IH. rewrite observe_bind in IH. apply IH.
    intros m Hm. apply Hk. lia.
Qed.

Lemma safe_iter {B R} n Q (body : B -> prog (B + R)) x q :
  safe n (fun m r q => match r with
    | inl y => safe m Q (ITree.iter body y) q
    | inr r => Q m r q end) (body x) q ->
  safe n Q (ITree.iter body x) q.
Proof.
  intros H. destruct n as [|n]; [done|].
  cut (safe (Datatypes.S n) Q (ITree.bind (body x)
    (fun lr => match lr with inl l => Tau (ITree.iter body l) | inr r => Ret r end)) q).
  { cbn [safe]. by rewrite observe_iter. }
  apply safe_bind. revert H. generalize (body x) as t. clear x. generalize (Datatypes.S n) as m. clear n.
  intros m. revert q. induction m as [|m IH]; intros q t; [done|]. cbn [safe].
  destruct (observe t) as [[y|r]|t'|X e h]; [done|done|by apply IH|].
  destruct e as [X c|st]; [|done]. intros H x. destruct (H x) as (q' & Hq & Hs). exists q'. split; [done|]. by apply IH.
Qed.
End Safe.
