(* ===== verification/UserProg.v ===== *)
(** * The small user programs: user/cat.c, echo.c, ls.c, kill.c, ln.c, mkdir.c,
    rm.c, zombie.c, init.c and [stat] of user/ulib.c

    Each program is the interaction tree of its system calls.  [cat] and [echo]
    are shown to write what they should under any kernel that reads, writes and
    opens files as documented ([Files]); [init] is shown to keep exactly one
    shell running under any kernel at all. *)

From ITree Require Import ITree.
From S2P Require Import Prelude Inode Cstring VfsState Vfs VfsFile Ulib Printf Syscalls.

Module UserProg.

(** ** user/cat.c *)

(** The loop, with the last result of [read]. *)
Definition cat_loop (fd : Z) : prog Z :=
  ITree.iter (fun _ : unit =>
    let* (n, buf) := sys (Read fd 512) in
    if 0 <? n then
      let* w := sys (Write 1 (take (Z.to_nat n) buf)) in
      if negb (w =? n) then
        fprintf 2 (bytes "cat: write error" ++ NLs) [] ;;;
        exit 1
      else Ret (inl tt)
    else Ret (inr n)) tt.

Definition cat (fd : Z) : prog unit :=
  let* n := cat_loop fd in
  if n <? 0 then
    fprintf 2 (bytes "cat: read error" ++ NLs) [] ;;;
    exit 1
  else Ret tt.

Fixpoint cat_files (files : list (list Z)) : prog unit :=
  match files with
  | [] => exit 0
  | f :: files =>
      let* fd := sys (Open f 0) in
      if fd <? 0 then
        fprintf 2 (bytes "cat: cannot open %s" ++ NLs) [Str f] ;;;
        exit 1
      else
        cat fd ;;;
        sys (Close fd) ;;;
        cat_files files
  end.

Definition cat_main (argv : list (list Z)) : prog unit :=
  if Z.of_nat (length argv) <=? 1 then
    cat 0 ;;;
    exit 0
  else cat_files (drop 1 argv).

(** ** user/echo.c *)

Fixpoint echo_args (args : list (list Z)) : prog unit :=
  match args with
  | [] => exit 0
  | a :: args =>
      sys (Write 1 a) ;;;
      (match args with
       | _ :: _ => sys (Write 1 [32])
       | [] => sys (Write 1 [10])
       end) ;;;
      echo_args args
  end.

Definition echo_main (argv : list (list Z)) : prog unit := echo_args (drop 1 argv).

(** ** user/kill.c, ln.c, mkdir.c, rm.c, zombie.c *)

Fixpoint kill_args (args : list (list Z)) : prog unit :=
  match args with
  | [] => exit 0
  | a :: args => sys (Kill (Ulib.atoi a)) ;;; kill_args args
  end.

Definition kill_main (argv : list (list Z)) : prog unit :=
  if Z.of_nat (length argv) <? 2 then
    fprintf 2 (bytes "usage: kill pid..." ++ NLs) [] ;;;
    exit 1
  else kill_args (drop 1 argv).

Definition ln_main (argv : list (list Z)) : prog unit :=
  match argv with
  | [_; old; new] =>
      let* r := sys (Link old new) in
      (if r <? 0 then fprintf 2 (bytes "link %s %s: failed" ++ NLs) [Str old; Str new] else Ret tt) ;;;
      exit 0
  | _ =>
      fprintf 2 (bytes "Usage: ln old new" ++ NLs) [] ;;;
      exit 1
  end.

Fixpoint mkdir_args (args : list (list Z)) : prog unit :=
  match args with
  | [] => exit 0
  | a :: args =>
      let* r := sys (Mkdir a) in
      if r <? 0 then
        fprintf 2 (bytes "mkdir: %s failed to create" ++ NLs) [Str a] ;;;
        exit 0
      else mkdir_args args
  end.

Definition mkdir_main (argv : list (list Z)) : prog unit :=
  if Z.of_nat (length argv) <? 2 then
    fprintf 2 (bytes "Usage: mkdir files..." ++ NLs) [] ;;;
    exit 1
  else mkdir_args (drop 1 argv).

Fixpoint rm_args (args : list (list Z)) : prog unit :=
  match args with
  | [] => exit 0
  | a :: args =>
      let* r := sys (Unlink a) in
      if r <? 0 then
        fprintf 2 (bytes "rm: %s failed to delete" ++ NLs) [Str a] ;;;
        exit 0
      else rm_args args
  end.

Definition rm_main (argv : list (list Z)) : prog unit :=
  if Z.of_nat (length argv) <? 2 then
    fprintf 2 (bytes "Usage: rm files..." ++ NLs) [] ;;;
    exit 1
  else rm_args (drop 1 argv).

Definition zombie_main : prog unit :=
  let* pid := sys Fork in
  (if 0 <? pid then sys (Sleep 5) ;;; Ret tt else Ret tt) ;;;
  exit 0.

(** ** user/ls.c *)

Definition SLASH : Z := 47.

(** The loop of [fmtname] from [path + k] down, and its [p++]. *)
Fixpoint after_slash (path : list Z) (k : nat) : nat :=
  if path !!! k =? SLASH then S k
  else match k with O => O | S k => after_slash path k end.

Definition fmtname (path : list Z) : list Z :=
  let p := drop (after_slash path (length path)) path in
  if (DIRSIZ <=? length p)%nat then p else p ++ replicate (DIRSIZ - length p) 32.

(** [stat] of user/ulib.c *)
Definition stat (n : list Z) : prog (Z * Vfs.stat) :=
  let* fd := sys (Open n 0) in
  if fd <? 0 then Ret (-1, {| st_dev := 0; st_ino := 0; st_type := 0; st_nlink := 0; st_size := 0 |})
  else
    let* r := sys (Fstat fd) in
    sys (Close fd) ;;;
    Ret r.

(** [buf] is [path/] when [p] is set. *)
Definition ls_dir (fd : Z) (buf : list Z) : prog unit :=
  ITree.iter (fun _ : unit =>
    let* (n, de) := sys (Read fd 16) in
    if negb (n =? 16) then Ret (inr tt)
    else if dent_inum de =? 0 then Ret (inl tt)
    else
      let name := cstr (buf ++ dent_name de) in
      let* (r, st) := stat name in
      if r <? 0 then
        printf (bytes "ls: cannot stat %s" ++ NLs) [Str name] ;;;
        Ret (inl tt)
      else
        printf (bytes "%s %d %d %d" ++ NLs)
          [Str (fmtname name); Num (st_type st); Num (st_ino st); Num (st_size st)] ;;;
        Ret (inl tt)) tt.

Definition ls (path : list Z) : prog unit :=
  let* fd := sys (Open path 0) in
  if fd <? 0 then fprintf 2 (bytes "ls: cannot open %s" ++ NLs) [Str path]
  else
    let* (r, st) := sys (Fstat fd) in
    if r <? 0 then
      fprintf 2 (bytes "ls: cannot stat %s" ++ NLs) [Str path] ;;;
      sys (Close fd) ;;;
      Ret tt
    else
      (if (st_type st =? T_DEVICE) || (st_type st =? T_FILE) then
         printf (bytes "%s %d %d %l" ++ NLs)
           [Str (fmtname path); Num (st_type st); Num (st_ino st); Num (st_size st)]
       else if st_type st =? T_DIR then
         if 512 <? Z.of_nat (length path) + 1 + Z.of_nat DIRSIZ + 1
         then printf (bytes "ls: path too long" ++ NLs) []
         else ls_dir fd (path ++ [SLASH])
       else Ret tt) ;;;
      sys (Close fd) ;;;
      Ret tt.

Fixpoint ls_args (args : list (list Z)) : prog unit :=
  match args with
  | [] => exit 0
  | a :: args => ls a ;;; ls_args args
  end.

Definition ls_main (argv : list (list Z)) : prog unit :=
  if Z.of_nat (length argv) <? 2 then
    ls (bytes ".") ;;;
    exit 0
  else ls_args (drop 1 argv).

(** ** user/init.c *)

Definition CONSOLE : Z := 1.
Definition console : list Z := bytes "console".
Definition sh_argv : list (list Z) := [bytes "sh"].

(** The inner loop: until the shell [pid] has been waited for. *)
Definition init_wait (pid : Z) : prog unit :=
  ITree.iter (fun _ : unit =>
    let* (wpid, _) := sys Wait in
    if wpid =? pid then Ret (inr tt)
    else if wpid <? 0 then
      printf (bytes "init: wait returned an error" ++ NLs) [] ;;;
      exit 1
    else Ret (inl tt)) tt.

Definition init_loop : prog unit :=
  ITree.iter (fun _ : unit =>
    printf (bytes "init: starting sh" ++ NLs) [] ;;;
    let* pid := sys Fork in
    if pid <? 0 then
      printf (bytes "init: fork failed" ++ NLs) [] ;;;
      exit 1
    else if pid =? 0 then
      sys (Exec (bytes "sh") sh_argv) ;;;
      printf (bytes "init: exec sh failed" ++ NLs) [] ;;;
      exit 1
    else
      init_wait pid ;;;
      Ret (inl tt)) tt.

Definition init_main : prog unit :=
  let* fd := sys (Open console O_RDWR) in
  (if fd <? 0 then
     sys (Mknod console CONSOLE 0) ;;;
     sys (Open console O_RDWR) ;;;
     Ret tt
   else Ret tt) ;;;
  sys (Dup 0) ;;;
  sys (Dup 0) ;;;
  init_loop.

(** ** Files and output *)

(** What [cat] and [echo] rely on: descriptor 1 takes everything written to it,
    a read returns a part of what is left of the file, no more than was asked
    for, and nothing only at its end. *)
Class Files (S : Type) `{K : Kernel S} : Type := {
  file : S -> list Z -> option (list Z);
  unread : S -> Z -> option (list Z);
  stdout : S -> list Z;
  open_file : forall s p fd s', ksys (Open p 0) s fd s' ->
    (forall q, file s' q = file s q) /\ stdout s' = stdout s /\
    match file s p with
    | Some b => 0 <= fd /\ unread s' fd = Some b
    | None => fd < 0
    end;
  read_file : forall s fd n r l s' b, ksys (Read fd n) s (r, l) s' -> 0 < n -> unread s fd = Some b ->
    r = Z.of_nat (length l) /\ r <= n /\ (forall q, file s' q = file s q) /\ stdout s' = stdout s /\
    exists b', b = l ++ b' /\ unread s' fd = Some b' /\ (l = [] -> b = []);
  write_file : forall s fd l r s', ksys (Write fd l) s r s' ->
    (forall q, file s' q = file s q) /\ (forall fd', unread s' fd' = unread s fd') /\
    if fd =? 1 then r = Z.of_nat (length l) /\ stdout s' = stdout s ++ l else fd = 2 -> stdout s' = stdout s;
  close_file : forall s fd r s', ksys (Close fd) s r s' ->
    (forall q, file s' q = file s q) /\ stdout s' = stdout s;
}.

Section Copying.
Context {S : Type} `{FS : Files S}.

(** The states that differ from [s] only in what was written, [out], and in
    the descriptors. *)
Definition after (s : S) (out : list Z) (s' : S) : Prop :=
  (forall q, file s' q = file s q) /\ stdout s' = stdout s ++ out.

Lemma after_refl s : after s [] s.
Proof. split; [done|]. by rewrite app_nil_r. Qed.

Lemma after_trans s1 o1 s2 o2 s3 : after s1 o1 s2 -> after s2 o2 s3 -> after s1 (o1 ++ o2) s3.
Proof. intros [F1 O1] [F2 O2]. split; [intros q; by rewrite F2|]. by rewrite O2, O1, app_assoc. Qed.

(** Messages to descriptor 2 leave the output alone. *)
Lemma putcs_runs l s :
  runs (fun o s' => o = Returned tt /\ after s [] s') (observe (putcs 2 l)) s.
Proof.
  revert s. induction l as [|c l IH]; intros s; cbn [putcs].
  - apply runs_return. split; [done|apply after_refl].
  - apply runs_call. intros x s1 Hx. destruct (write_file _ _ _ _ _ Hx) as (F & _ & O).
    eapply runs_mono; [|apply IH]. intros o s' [-> Hs]. split; [done|].
    apply (after_trans s [] s1 [] s'); [|done]. split; [done|]. by rewrite O, app_nil_r.
Qed.

Lemma cat_loop_runs fd b s :
  unread s fd = Some b -> runs (fun o s' => o = Returned 0 /\ after s b s') (observe (cat_loop fd)) s.
Proof.
  remember (length b) as n eqn:En. revert b s En.
  induction n as [n IH] using lt_wf_ind. intros b s En Hb. unfold cat_loop. apply runs_iter, runs_call.
  intros [r l] s1 Hr. destruct (read_file _ _ _ _ _ _ _ Hr ltac:(lia) Hb) as (-> & _ & F1 & O1 & b' & -> & Hb' & He).
  destruct l as [|c l]; cbn [length].
  - change (0 <? Z.of_nat 0) with false. apply runs_return. specialize (He eq_refl). cbn in He. subst b'.
    split; [done|]. split; [done|]. by rewrite O1, app_nil_r.
  - rewrite (proj2 (Z.ltb_lt _ _)) by lia. rewrite Nat2Z.id.
    replace (take (Datatypes.S (length l)) (c :: l)) with (c :: l) by (symmetry; by apply (take_ge (c :: l))).
    apply runs_call. intros w s2 Hw. destruct (write_file _ _ _ _ _ Hw) as (F2 & U2 & -> & O2).
    cbn [length]. rewrite Z.eqb_refl. cbn [negb]. apply runs_return. cbn [returning].
    eapply runs_mono; [|apply (IH (length b')); [subst n; rewrite length_app; cbn; lia|done|by rewrite U2]].
    intros o s3 [-> Hs3]. split; [done|]. apply (after_trans s (c :: l) s2 b' s3); [|exact Hs3].
    split; [intros q; by rewrite F2|]. by rewrite O2, O1.
Qed.

Lemma cat_runs fd b s :
  unread s fd = Some b -> runs (fun o s' => o = Returned tt /\ after s b s') (observe (cat fd)) s.
Proof.
  intros Hb. unfold cat. apply runs_bind. eapply runs_mono; [|by apply cat_loop_runs].
  intros o s' [-> Hs]. cbn [returning]. change (0 <? 0) with false. by apply runs_return.
Qed.

Lemma putcs_out l s :
  runs (fun o s' => o = Returned tt /\ after s l s') (observe (putcs 1 l)) s.
Proof.
  revert s. induction l as [|c l IH]; intros s; cbn [putcs].
  - apply runs_return. split; [done|apply after_refl].
  - apply runs_call. intros x s1 Hx. destruct (write_file _ _ _ _ _ Hx) as (F & _ & _ & O).
    eapply runs_mono; [|apply IH]. intros o s' [-> Hs]. split; [done|]. by apply (after_trans s [c] s1 l s').
Qed.

(** *** Programs that go through their files *)

(** The output and the exit status such a program should give. *)
Fixpoint files_spec (f : list Z -> option (list Z)) (render : list Z -> list Z -> list Z)
    (complaint : list Z -> list Z) (files : list (list Z)) : list Z * Z :=
  match files with
  | [] => ([], 0)
  | p :: files =>
      match f p with
      | Some b => (render p b ++ (files_spec f render complaint files).1, (files_spec f render complaint files).2)
      | None => (complaint p, 1)
      end
  end.

Lemma files_spec_ext f g render complaint files :
  (forall p, f p = g p) -> files_spec f render complaint files = files_spec g render complaint files.
Proof. intros H. induction files as [|p files IH]; cbn; [done|]. by rewrite H, IH. Qed.

Section FilesLoop.
Context (loop : list (list Z) -> prog unit) (body : Z -> list Z -> prog unit) (complain : list Z -> prog unit).
Context (render : list Z -> list Z -> list Z) (complaint : list Z -> list Z) (ok : list Z -> Prop).
Hypothesis loop_nil : loop [] = exit 0.
Hypothesis loop_cons : forall f files, loop (f :: files) =
  let* fd := sys (Open f 0) in
  if fd <? 0 then complain f ;;; exit 1
  else body fd f ;;; sys (Close fd) ;;; loop files.
Hypothesis body_runs : forall fd f b s, unread s fd = Some b -> ok b ->
  runs (fun o s' => o = Returned tt /\ after s (render f b) s') (observe (body fd f)) s.
Hypothesis complain_runs : forall f s,
  runs (fun o s' => o = Returned tt /\ after s (complaint f) s') (observe (complain f)) s.

Lemma files_runs files s :
  (forall p b, p ∈ files -> file s p = Some b -> ok b) ->
  let spec := files_spec (file s) render complaint files in
  runs (fun o s' => o = Exited spec.2 /\ after s spec.1 s') (observe (loop files)) s.
Proof.
  revert s. induction files as [|p files IH]; intros s Hok; cbn zeta.
  { rewrite loop_nil. apply runs_ends. split; [done|apply after_refl]. }
  rewrite loop_cons. apply runs_call. intros fd s1 Ho. destruct (open_file _ _ _ _ Ho) as (F1 & O1 & Hfd).
  assert (A1 : after s [] s1) by (split; [done|by rewrite O1, app_nil_r]). cbn [files_spec].
  pose proof (fun b => Hok p b ltac:(set_solver)) as Hokp. destruct (file s p) as [b|].
  - destruct Hfd as [Hge Hb]. rewrite (proj2 (Z.ltb_ge _ _)) by lia. apply runs_bind.
    eapply runs_mono; [|by apply body_runs; auto]. intros o s2 [-> A2]. cbn [returning]. apply runs_call.
    intros r s3 Hc. destruct (close_file _ _ _ _ Hc) as [F3 O3].
    assert (A3 : after s (render p b) s3).
    { apply (after_trans s [] s1 _ s3 A1). split; [intros q; by rewrite F3, (proj1 A2)|by rewrite O3, (proj2 A2)]. }
    eapply runs_mono; [|apply IH]; [|intros q c Hq; rewrite (proj1 A3); apply Hok; set_solver].
    rewrite (files_spec_ext (file s3) (file s) _ _ files (proj1 A3)).
    intros o s4 [-> A4]. split; [done|]. by apply (after_trans s _ s3).
  - rewrite (proj2 (Z.ltb_lt _ _)) by lia. apply runs_bind. eapply runs_mono; [|apply complain_runs].
    intros o s2 [-> A2]. apply runs_ends. split; [done|]. by apply (after_trans s [] s1).
Qed.
End FilesLoop.

Lemma cat_files_runs files s :
  let spec := files_spec (file s) (fun _ b => b) (fun _ => []) files in
  runs (fun o s' => o = Exited spec.2 /\ after s spec.1 s') (observe (cat_files files)) s.
Proof.
  eapply (files_runs cat_files (fun fd _ => cat fd) _ _ _ (fun _ => True)); try done.
  - intros fd _ b s' Hb _. by apply cat_runs.
  - intros f s'. apply putcs_runs.
Qed.

(** Claim C31: [cat] ends and writes exactly the contents of its files, in order
    and however [read] cuts them into pieces, up to the first that cannot be
    opened, which makes the exit status 1; without arguments it writes its
    input. *)
Theorem cat_copies argv s :
  (length argv <= 1 -> exists b, unread s 0 = Some b)%nat ->
  runs (fun o s' =>
    if (length argv <=? 1)%nat then o = Exited 0 /\ after s (default [] (unread s 0)) s'
    else let spec := files_spec (file s) (fun _ b => b) (fun _ => []) (drop 1 argv) in
      o = Exited spec.2 /\ after s spec.1 s')
    (observe (cat_main argv)) s.
Proof.
  intros Hin. unfold cat_main. destruct (Nat.leb_spec (length argv) 1) as [Hl|Hl].
  - rewrite (proj2 (Z.leb_le _ _)) by lia. destruct (Hin Hl) as [b Hb]. rewrite Hb. apply runs_bind.
    eapply runs_mono; [|by apply cat_runs]. intros o s' [-> Hs]. cbn [returning]. by apply runs_ends.
  - rewrite (proj2 (Z.leb_gt _ _)) by lia. apply cat_files_runs.
Qed.

(** [echo] writes its arguments with spaces between them and a newline at the
    end, and nothing without arguments. *)
Fixpoint echo_spec (args : list (list Z)) : list Z :=
  match args with
  | [] => []
  | [a] => a ++ [10]
  | a :: args => a ++ [32] ++ echo_spec args
  end.

Theorem echo_writes argv s :
  runs (fun o s' => o = Exited 0 /\ after s (echo_spec (drop 1 argv)) s') (observe (echo_main argv)) s.
Proof.
  unfold echo_main. generalize (drop 1 argv) as args. intros args. clear argv. revert s.
  induction args as [|a args IH]; intros s; cbn [echo_args].
  { apply runs_ends. split; [done|apply after_refl]. }
  apply runs_call. intros r s1 Hw. destruct (write_file _ _ _ _ _ Hw) as (F1 & _ & _ & O1).
  set (c := match args with [] => [10] | _ => [32] end).
  assert (Hc : forall s2, runs (fun o s' => o = Exited 0 /\ after s (echo_spec (a :: args)) s')
      (observe (sys (Write 1 c) ;;; echo_args args)) s2 <->
    runs (fun o s' => o = Exited 0 /\ after s (echo_spec (a :: args)) s')
      (observe ((match args with _ :: _ => sys (Write 1 [32]) | [] => sys (Write 1 [10]) end) ;;; echo_args args)) s2).
  { intros s2. subst c. by destruct args. }
  apply Hc. apply runs_call. intros r2 s2 Hw2. destruct (write_file _ _ _ _ _ Hw2) as (F2 & _ & _ & O2).
  eapply runs_mono; [|apply IH]. intros o s3 [-> A3]. split; [done|].
  assert (A2 : after s (a ++ c) s2) by (split; [intros q; by rewrite F2|by rewrite O2, O1, app_assoc]).
  replace (echo_spec (a :: args)) with ((a ++ c) ++ echo_spec args); [by apply (after_trans _ _ s2)|].
  subst c. destruct args; cbn; by rewrite <- ?app_assoc, ?app_nil_r.
Qed.
End Copying.

(** ** One shell at a time *)

(** Where [init] is: it has no shell, it waits for shell [pid], or it is the
    child that becomes a shell. *)
Inductive phase : Type := NoShell | Shell (pid : Z) | Child.

Definition shell_protocol (X : Type) (q : phase) (c : sysE X) : X -> option phase :=
  match c in sysE X return X -> option phase with
  | Fork => fun pid =>
      match q with
      | NoShell => Some (if pid <? 0 then NoShell else if pid =? 0 then Child else Shell pid)
      | _ => None
      end
  | Wait => fun '(pid, _) =>
      match q with
      | Shell p => Some (if pid =? p then NoShell else Shell p)
      | _ => None
      end
  | Exec path argv => fun _ =>
      match q with
      | Child => if decide (path = bytes "sh" /\ argv = [bytes "sh"]) then Some Child else None
      | _ => None
      end
  | Write _ _ => fun _ => Some q
  | Open _ _ => fun _ => Some q
  | Dup _ => fun _ => Some q
  | Mknod _ _ _ => fun _ => Some q
  | _ => fun _ => None
  end.

Lemma safe_message {R} n Q fmt args (k : prog R) q :
  (forall m, (m <= n)%nat -> safe shell_protocol m Q k q) ->
  safe shell_protocol n Q (printf fmt args ;;; k) q.
Proof. intros Hk. by apply safe_putcs. Qed.

Lemma safe_exit {R} n Q q st : safe shell_protocol n Q (exit (R := R) st) q.
Proof. by destruct n. Qed.

Lemma init_wait_safe n pid Q :
  (forall m, (m <= n)%nat -> Q m tt NoShell) -> safe shell_protocol n Q (init_wait pid) (Shell pid).
Proof.
  induction n as [n IH] using lt_wf_ind. intros HQ. unfold init_wait. apply safe_iter, safe_call.
  intros m [x st] Hm. cbn [shell_protocol]. destruct (Z.eqb_spec x pid) as [->|Hne].
  - exists NoShell. split; [done|]. apply safe_return. intros m' Hm'. apply HQ. lia.
  - exists (Shell pid). split; [done|]. destruct (x <? 0).
    + apply safe_message. intros. apply safe_exit.
    + apply safe_return. intros m' Hm'. apply IH; [lia|]. intros m2 Hm2. apply HQ. lia.
Qed.

Lemma init_loop_safe n Q : safe shell_protocol n Q init_loop NoShell.
Proof.
  induction n as [n IH] using lt_wf_ind. unfold init_loop. apply safe_iter, safe_message.
  intros m Hm. apply safe_call. intros m1 pid Hm1. cbn [shell_protocol]. destruct (pid <? 0).
  { exists NoShell. split; [done|]. apply safe_message. intros. apply safe_exit. }
  destruct (Z.eqb_spec pid 0) as [->|Hne].
  - exists Child. split; [done|]. apply safe_call. intros m2 x Hm2. exists Child.
    split; [cbn; by rewrite decide_True|]. apply safe_message. intros. apply safe_exit.
  - exists (Shell pid). split; [done|]. apply safe_bind, init_wait_safe. intros m2 Hm2.
    apply safe_return. intros m3 Hm3. apply IH. lia.
Qed.

(** Claim C32: whatever the kernel answers, [init] starts a shell only when it
    has none, waits only for the one it has, and its child runs nothing but
    [sh]; it does so for ever unless [fork] or [wait] fails. *)
Theorem init_one_shell n : safe shell_protocol n (fun _ _ _ => False) init_main NoShell.
Proof.
  unfold init_main. apply safe_call. intros m fd Hm. exists NoShell. split; [done|].
  apply safe_bind. enough (H : forall m, safe shell_protocol m (fun _ _ _ => False)
    (sys (Dup 0) ;;; sys (Dup 0) ;;; init_loop) NoShell).
  { destruct (fd <? 0); [|apply safe_return; intros; apply H].
    apply safe_call. intros m1 x1 _. exists NoShell. split; [done|]. apply safe_call. intros m2 x2 _.
    exists NoShell. split; [done|]. apply safe_return. intros. apply H. }
  intros k. apply safe_call. intros m1 x1 _. exists NoShell. split; [done|]. apply safe_call. intros m2 x2 _.
  exists NoShell. split; [done|]. apply init_loop_safe.
Qed.

(** ** [fmtname] *)

(** The name after the last slash, padded with blanks to the width of a
    directory entry. *)
Lemma fmtname_last dir name :
  SLASH ∉ name -> fmtname (dir ++ SLASH :: name) = name ++ replicate (DIRSIZ - length name) 32.
Proof.
  intros Hn. unfold fmtname.
  assert (Hk : forall k, (length dir <= k <= length dir + S (length name))%nat ->
    after_slash (dir ++ SLASH :: name) k = S (length dir)).
  { induction k as [|k IH]; intros Hk; unfold after_slash; fold after_slash.
    - assert (dir = []) as -> by (destruct dir; [done|cbn in *; lia]). reflexivity.
    - destruct (decide (S k = length dir)) as [E|Hne].
      + rewrite E, list_lookup_total_middle by done. by rewrite Z.eqb_refl.
      + destruct (Z.eqb_spec ((dir ++ SLASH :: name) !!! S k) SLASH) as [E|_]; [|apply IH; lia].
        exfalso. rewrite lookup_total_app_r in E by lia.
        destruct (S k - length dir)%nat as [|j] eqn:Ej; [lia|].
        change ((SLASH :: name) !!! S j) with (name !!! j) in E.
        destruct (decide (j < length name)%nat) as [Hj|Hj].
        * apply Hn. rewrite <- E. eapply list_elem_of_lookup_2. by apply list_lookup_lookup_total_lt.
        * rewrite list_lookup_total_alt, lookup_ge_None_2 in E by lia. done. }
  rewrite Hk by (rewrite length_app; cbn; lia).
  replace (drop (S (length dir)) (dir ++ SLASH :: name)) with name
    by (rewrite <- (Nat.add_1_r (length dir)), <- drop_drop, drop_app_length; done).
  destruct (Nat.leb_spec DIRSIZ (length name)) as [Hd|Hd]; [|done].
  replace (DIRSIZ - length name)%nat with 0%nat by lia. by rewrite app_nil_r.
Qed.

(** ** A kernel with files in memory *)

Record ex_st : Type := { ex_files : list Z -> option (list Z); ex_fds : gmap Z (list Z); ex_out : list Z }.

(** Reads come in pieces of at most two bytes; descriptor 3 is opened. *)
Definition ex_ksys (X : Type) (c : sysE X) (s : ex_st) : X -> ex_st -> Prop :=
  match c in sysE X return X -> ex_st -> Prop with
  | Open p _ => fun fd s' =>
      match ex_files s p with
      | Some b => fd = 3 /\ s' = {| ex_files := ex_files s; ex_fds := <[3 := b]> (ex_fds s); ex_out := ex_out s |}
      | None => fd = -1 /\ s' = s
      end
  | Read fd n => fun r s' =>
      match ex_fds s !! fd with
      | Some b =>
          let k := Z.to_nat (Z.min 2 n) in
          r = (Z.of_nat (length (take k b)), take k b) /\
          s' = {| ex_files := ex_files s; ex_fds := <[fd := drop k b]> (ex_fds s); ex_out := ex_out s |}
      | None => r = (-1, []) /\ s' = s
      end
  | Write fd l => fun r s' =>
      r = Z.of_nat (length l) /\
      s' = {| ex_files := ex_files s; ex_fds := ex_fds s; ex_out := if fd =? 1 then ex_out s ++ l else ex_out s |}
  | _ => fun _ s' => s' = s
  end.
#[global] Instance ex_kernel : Kernel ex_st := ex_ksys.

#[global] Instance ex_files_ok : Files ex_st.
Proof.
  refine {| file := ex_files; unread s fd := ex_fds s !! fd; stdout := ex_out |}.
  - intros s p fd s' H. cbn in H. destruct (ex_files s p) as [b|]; destruct H as [-> ->].
    + split_and!; [done|done|lia|apply lookup_insert_eq].
    + split_and!; [done|done|lia].
  - intros s fd n r l s' b H Hn Hb. cbn in H, Hb. rewrite Hb in H. destruct H as [[= -> ->] ->].
    split_and!; try done; [rewrite length_take; lia|]. exists (drop (Z.to_nat (Z.min 2 n)) b).
    split_and!; [by rewrite take_drop|apply lookup_insert_eq|].
    intros E. apply (f_equal length) in E. rewrite length_take in E. destruct b; [done|cbn in E; lia].
  - intros s fd l r s' [-> ->]. split; [done|]. split; [done|]. cbn. by destruct (fd =? 1).
  - intros s fd r s' H. cbn in H. by subst s'.
Defined.

Definition ex_state : ex_st :=
  {| ex_files := fun p => if decide (p = bytes "a") then Some [1; 2; 3] else if decide (p = bytes "b") then Some [4] else None;
     ex_fds := ∅; ex_out := [] |}.

(** [cat a b c], where there is no [c]. *)
Lemma cat_copies_witness :
  runs (fun o s' => o = Exited 1 /\ ex_out s' = [1; 2; 3; 4])
    (observe (cat_main [bytes "cat"; bytes "a"; bytes "b"; bytes "c"])) ex_state.
Proof.
  eapply runs_mono; [|apply (cat_copies [bytes "cat"; bytes "a"; bytes "b"; bytes "c"] ex_state)].
  - intros o s' [-> [_ Hout]]. split; [reflexivity|exact Hout].
  - intros Hl. cbn [length] in Hl. lia.
Defined.
End UserProg.
