(* ===== verification/Grep.v ===== *)
(** * grep (user/grep.c)

    The matcher against the language of its patterns, and the lines of the
    buffer; the program itself is in Filters.v.  A C string is the list of its
    characters without the nul. *)

From S2P Require Import Prelude Cstring Ulib.

Module Grep.

Definition caret : Z := 94.
Definition star : Z := 42.
Definition dollar : Z := 36.
Definition dot : Z := 46.

(** ** The matcher *)

(** [matchstar(c, re, text)] with [here] for [matchhere(re, _)]. *)
Section matchstar.
Context (here : list Z -> bool) (c : Z).
Fixpoint matchstar (text : list Z) : bool :=
  if here text then true
  else
    match text with
    | [] => false
    | t :: text => if (t =? c) || (c =? dot) then matchstar text else false
    end.
End matchstar.

Fixpoint matchhere (re text : list Z) : bool :=
  match re with
  | [] => true
  | c :: re1 =>
      match re1 with
      | d :: re2 =>
          if d =? star then matchstar (matchhere re2) c text
          else
            match text with
            | [] => false
            | t :: text => if (c =? dot) || (c =? t) then matchhere re1 text else false
            end
      | [] =>
          if c =? dollar then match text with [] => true | _ => false end
          else
            match text with
            | [] => false
            | t :: text => if (c =? dot) || (c =? t) then matchhere re1 text else false
            end
      end
  end.

(** [do ... while( *text++ != 0)] *)
Fixpoint match_from (re text : list Z) : bool :=
  if matchhere re text then true
  else
    match text with
    | [] => false
    | _ :: text => match_from re text
    end.

Definition match_ (re text : list Z) : bool :=
  match re with
  | c :: re' => if c =? caret then matchhere re' text else match_from re text
  | [] => match_from re text
  end.

(** ** The language of a pattern *)

Inductive item : Type := One (c : Z) | Star (c : Z).

(** The items of a pattern without its caret, and whether it ends in an
    anchor. *)
Fixpoint parse (re : list Z) : list item * bool :=
  match re with
  | [] => ([], false)
  | c :: re1 =>
      match re1 with
      | d :: re2 =>
          if d =? star then let '(l, e) := parse re2 in (Star c :: l, e)
          else let '(l, e) := parse re1 in (One c :: l, e)
      | [] => if c =? dollar then ([], true) else ([One c], false)
      end
  end.

Definition char_matches (c t : Z) : Prop := c = dot \/ c = t.

Inductive lang : list item -> list Z -> Prop :=
| lang_nil : lang [] []
| lang_one c t l s : char_matches c t -> lang l s -> lang (One c :: l) (t :: s)
| lang_star_none c l s : lang l s -> lang (Star c :: l) s
| lang_star_more c t l s : char_matches c t -> lang (Star c :: l) s -> lang (Star c :: l) (t :: s).

(** [text] starts with a string of the language, and ends with it if the
    pattern is anchored. *)
Definition matches_here (re text : list Z) : Prop :=
  let '(l, e) := parse re in
  exists s rest, text = s ++ rest /\ lang l s /\ (e = true -> rest = []).

Definition matches (re text : list Z) : Prop :=
  match re with
  | c :: re' =>
      if c =? caret then matches_here re' text
      else exists pre text', text = pre ++ text' /\ matches_here re text'
  | [] => exists pre text', text = pre ++ text' /\ matches_here re text'
  end.

(** ** Correctness of the matcher *)

Lemma orb_char c t : (t =? c) || (c =? dot) = true <-> char_matches c t.
Proof. unfold char_matches. rewrite orb_true_iff, !Z.eqb_eq. naive_solver. Qed.

Lemma orb_char' c t : (c =? dot) || (c =? t) = true <-> char_matches c t.
Proof. unfold char_matches. by rewrite orb_true_iff, !Z.eqb_eq. Qed.

Lemma matchstar_spec here c text :
  matchstar here c text = true <->
  exists s rest, text = s ++ rest /\ Forall (char_matches c) s /\ here rest = true.
Proof.
  induction text as [|t text IH]; cbn [matchstar]; destruct (here _) eqn:Eh.
  - split; [|done]. intros _. by exists [], [].
  - split; [done|]. intros (s & rest & E & _ & H). symmetry in E. apply app_nil in E as [-> ->]. congruence.
  - split; [|done]. intros _. by exists [], (t :: text).
  - destruct ((t =? c) || (c =? dot)) eqn:Ec.
    + rewrite IH. apply orb_char in Ec. split.
      * intros (s & rest & -> & Hf & H). exists (t :: s), rest. split_and!; [done|by constructor|done].
      * intros (s & rest & E & Hf & H). destruct s as [|t' s]; cbn in E; [subst; congruence|].
        injection E as <- ->. apply Forall_cons in Hf as [_ Hf]. by exists s, rest.
    + split; [done|]. intros (s & rest & E & Hf & H). destruct s as [|t' s]; cbn in E; [subst; congruence|].
      injection E as <- ->. apply Forall_cons in Hf as [Hc _]. apply orb_char in Hc. congruence.
Qed.

Lemma lang_star c l s :
  lang (Star c :: l) s <-> exists s1 s2, s = s1 ++ s2 /\ Forall (char_matches c) s1 /\ lang l s2.
Proof.
  split.
  - remember (Star c :: l) as p eqn:Ep. intros H. revert Ep.
    induction H as [| |? ? ? H _|? ? ? ? Hc H IH]; intros Ep; simplify_eq.
    + by exists [], s.
    + destruct IH as (s1 & s2 & -> & Hf & Hl); [done|]. exists (t :: s1), s2.
      split_and!; [done|by constructor|done].
  - intros (s1 & s2 & -> & Hf & Hl). induction Hf; cbn; [by constructor|by constructor].
Qed.

(** The cases of [matches_here], as the code distinguishes them. *)
Lemma here_star c re text :
  matches_here (c :: star :: re) text <->
  exists s rest, text = s ++ rest /\ Forall (char_matches c) s /\ matches_here re rest.
Proof.
  unfold matches_here. cbn [parse]. rewrite Z.eqb_refl. destruct (parse re) as [l e]. split.
  - intros (s & rest & -> & (s1 & s2 & -> & Hf & Hl)%lang_star & He).
    exists s1, (s2 ++ rest). split_and!; [by rewrite app_assoc|done|]. by exists s2, rest.
  - intros (s & rest & -> & Hf & s2 & rest' & -> & Hl & He). exists (s ++ s2), rest'.
    split_and!; [by rewrite app_assoc| |done]. apply lang_star. by exists s, s2.
Qed.

Lemma here_one c re text :
  parse (c :: re) = (let '(l, e) := parse re in (One c :: l, e)) ->
  matches_here (c :: re) text <->
  exists t text', text = t :: text' /\ char_matches c t /\ matches_here re text'.
Proof.
  unfold matches_here. intros ->. destruct (parse re) as [l e]. split.
  - intros (s & rest & -> & Hl & He). inversion Hl; subst. eexists _, _. split_and!; [done|done|].
    by eexists _, _.
  - intros (t & text' & -> & Hc & s & rest & -> & Hl & He). exists (t :: s), rest.
    split_and!; [done|by constructor|done].
Qed.

Lemma matchhere_spec re text : matchhere re text = true <-> matches_here re text.
Proof.
  remember (length re) as n eqn:Hn. assert (Hle : (length re <= n)%nat) by lia. clear Hn.
  revert re text Hle. induction n as [|n IH]; intros re text Hle.
  { destruct re; [|cbn in Hle; lia]. split; [|done]. intros _. exists [], text. split_and!; [done|constructor|done]. }
  destruct re as [|c re1]; [apply (IH [] text); cbn; lia|]. cbn [length] in Hle.
  assert (Hchar : parse (c :: re1) = (let '(l, e) := parse re1 in (One c :: l, e)) ->
    match text with
    | [] => false
    | t :: text => if (c =? dot) || (c =? t) then matchhere re1 text else false
    end = true <-> matches_here (c :: re1) text).
  { intros Hp. rewrite here_one by done. destruct text as [|t text].
    - split; [done|]. by intros (? & ? & ? & _).
    - destruct ((c =? dot) || (c =? t)) eqn:Ec.
      + apply orb_char' in Ec. rewrite IH by lia. split.
        * intros H. by exists t, text.
        * by intros (? & ? & [= <- <-] & _ & H).
      + split; [done|]. intros (? & ? & [= <- <-] & Hc & _). apply orb_char' in Hc. congruence. }
  destruct re1 as [|d re2]; cbn [matchhere] in *.
  - destruct (Z.eqb_spec c dollar) as [->|Hd].
    + unfold matches_here. cbn [parse]. rewrite Z.eqb_refl. destruct text as [|t text].
      * split; [|done]. intros _. exists [], []. split_and!; [done|constructor|done].
      * split; [done|]. intros (s & rest & E & Hl & He). inversion Hl; subst. by rewrite He in E.
    + apply Hchar. cbn [parse]. by rewrite (proj2 (Z.eqb_neq c dollar)).
  - destruct (Z.eqb_spec d star) as [->|Hd].
    + rewrite matchstar_spec, here_star. cbn [length] in Hle.
      split; intros (s & rest & H1 & H2 & H3); exists s, rest; (split_and!; [done|done|]);
        destruct (IH re2 rest ltac:(lia)); auto.
    + apply Hchar. cbn [parse]. by rewrite (proj2 (Z.eqb_neq d star)).
Qed.

(** Claim C36: grep's matcher accepts a line exactly when some part of it (the
    beginning, for a pattern with a caret; up to the end, for one with a final
    dollar sign) is in the language of the pattern's items. *)
Theorem match_language (re text : list Z) : match_ re text = true <-> matches re text.
Proof.
  assert (Hfrom : match_from re text = true <->
    exists pre text', text = pre ++ text' /\ matches_here re text').
  { induction text as [|t text IH]; cbn [match_from]; destruct (matchhere re _) eqn:E.
    - apply matchhere_spec in E. split; [|done]. intros _. by exists [], [].
    - split; [done|]. intros (pre & text' & E' & H). symmetry in E'. apply app_nil in E' as [-> ->].
      apply matchhere_spec in H. congruence.
    - apply matchhere_spec in E. split; [|done]. intros _. by exists [], (t :: text).
    - rewrite IH. split.
      + intros (pre & text' & -> & H). by exists (t :: pre), text'.
      + intros (pre & text' & E' & H). destruct pre as [|t' pre]; cbn in E'.
        * subst text'. apply matchhere_spec in H. congruence.
        * injection E' as <- ->. by exists pre, text'. }
  unfold match_, matches. destruct re as [|c re']; [exact Hfrom|].
  destruct (c =? caret); [apply matchhere_spec|exact Hfrom].
Qed.
(** ** The line loop *)

(** [sizeof(buf)] *)
Definition BUFSZ : nat := 1024.

(** The inner loop on [p]: the bytes written, and the bytes from [p] on. *)
Fixpoint scan_lines (fuel : nat) (pattern p : list Z) : list Z * list Z :=
  match fuel with
  | O => ([], p)
  | S fuel =>
      match Ulib.strchr p Ulib.NL with
      | None => ([], p)
      | Some q =>
          let '(o, r) := scan_lines fuel pattern (drop (S q) p) in
          ((if match_ pattern (take q p) then take q p ++ [Ulib.NL] else []) ++ o, r)
      end
  end.

(** *** Lines *)

(** The complete lines of [s] when [cur] was read of the first one, and what
    follows the last newline. *)
Fixpoint lines_from (cur s : list Z) : list (list Z) :=
  match s with
  | [] => []
  | c :: s => if c =? Ulib.NL then cur :: lines_from [] s else lines_from (cur ++ [c]) s
  end.
Fixpoint last_from (cur s : list Z) : list Z :=
  match s with
  | [] => cur
  | c :: s => if c =? Ulib.NL then last_from [] s else last_from (cur ++ [c]) s
  end.
Definition lines (s : list Z) : list (list Z) := lines_from [] s.

Definition selected (pattern : list Z) (ls : list (list Z)) : list Z :=
  concat (map (fun l => l ++ [Ulib.NL]) (List.filter (match_ pattern) ls)).

(** No line fills the buffer: [n] bytes of the first one were read. *)
Fixpoint short_lines (n : nat) (s : list Z) : Prop :=
  (n < BUFSZ - 1)%nat /\
  match s with
  | [] => True
  | c :: s => if c =? Ulib.NL then short_lines 0 s else short_lines (S n) s
  end.

Lemma lines_from_app cur a b :
  lines_from cur (a ++ b) = lines_from cur a ++ lines_from (last_from cur a) b.
Proof.
  revert cur. induction a as [|c a IH]; intros cur; cbn; [done|].
  destruct (c =? Ulib.NL); [by rewrite IH|apply IH].
Qed.

Lemma last_from_app cur a b : last_from cur (a ++ b) = last_from (last_from cur a) b.
Proof.
  revert cur. induction a as [|c a IH]; intros cur; cbn; [done|]. by destruct (c =? Ulib.NL).
Qed.

Lemma short_lines_app cur a b :
  short_lines (length cur) (a ++ b) ->
  (length (last_from cur a) < BUFSZ - 1)%nat /\ short_lines (length (last_from cur a)) b.
Proof.
  revert cur. induction a as [|c a IH]; intros cur H; cbn [app last_from] in *.
  - split; [|done]. by destruct b; destruct H.
  - destruct H as [_ H]. destruct (c =? Ulib.NL); [by apply (IH [])|].
    apply IH. by rewrite length_app, Nat.add_1_r.
Qed.

Lemma lines_from_no_nl cur s : Forall (fun c => c <> Ulib.NL) s -> lines_from cur s = [] /\ last_from cur s = cur ++ s.
Proof.
  intros H. revert cur. induction H as [|c s Hc Hs IH]; intros cur; cbn; [by rewrite app_nil_r|].
  rewrite (proj2 (Z.eqb_neq c _)) by done. destruct (IH (cur ++ [c])) as [-> ->]. by rewrite <-app_assoc.
Qed.

Lemma last_from_no_nl cur s : Forall (fun c => c <> Ulib.NL) cur -> Forall (fun c => c <> Ulib.NL) (last_from cur s).
Proof.
  revert cur. induction s as [|c s IH]; intros cur H; cbn; [done|].
  destruct (Z.eqb_spec c Ulib.NL); apply IH; [constructor|]. apply Forall_app. by split; [|constructor].
Qed.

Lemma last_from_nul cur s :
  Forall (fun c => c <> 0) cur -> Forall (fun c => c <> 0) s -> Forall (fun c => c <> 0) (last_from cur s).
Proof.
  intros Hc Hs. revert cur Hc. induction Hs as [|c s H Hs IH]; intros cur Hc; cbn; [done|].
  destruct (c =? Ulib.NL); apply IH; [constructor|]. apply Forall_app. by split; [|constructor].
Qed.

Lemma cstr_no_nul s : Forall (fun c => c <> 0) s -> cstr s = s.
Proof.
  induction 1 as [|c s Hc Hs IH]; cbn; [done|]. rewrite (proj2 (Z.eqb_neq c 0)) by done. by rewrite IH.
Qed.

Lemma scan_lines_spec fuel pattern p :
  Forall (fun c => c <> 0) p -> (length p < fuel)%nat ->
  scan_lines fuel pattern p = (selected pattern (lines p), last_from [] p).
Proof.
  revert p. induction fuel as [|fuel IH]; intros p Hp Hl; [lia|]. cbn [scan_lines].
  pose proof (Ulib.strchr_spec p Ulib.NL ltac:(done)) as Hs.
  destruct (Ulib.strchr p Ulib.NL) as [q|].
  - destruct Hs as (s1 & s2 & -> & <- & Hs1). rewrite take_app_length.
    assert (Hdrop : drop (S (length s1)) (s1 ++ Ulib.NL :: s2) = s2)
      by (rewrite cons_middle, app_assoc; apply drop_app_length'; rewrite length_app; cbn; lia).
    rewrite Hdrop.
    apply Forall_app in Hp as [Hp1 [_ Hp2]%Forall_cons]. rewrite length_app in Hl. cbn in Hl.
    rewrite IH by (done || lia). unfold lines. rewrite lines_from_app.
    assert (Hnl : Forall (fun c => c <> Ulib.NL) s1) by (eapply Forall_impl; [exact Hs1|naive_solver]).
    destruct (lines_from_no_nl [] s1 Hnl) as [-> ->]. cbn.
    rewrite last_from_app. destruct (lines_from_no_nl [] s1 Hnl) as [_ ->]. cbn.
    unfold selected. cbn. by destruct (match_ pattern s1).
  - rewrite cstr_no_nul in Hs by done. unfold lines. by destruct (lines_from_no_nl [] p Hs) as [-> ->].
Qed.
End Grep.
