(* ===== verification/Wc.v ===== *)
(** * wc (user/wc.c)

    The counters of [wc], byte by byte as the program updates them, against the
    lines, words and bytes of the whole input.  The program itself is in
    Filters.v. *)

From S2P Require Import Prelude Cstring Ulib.

Module Wc.

(** " \r\t\n\v" *)
Definition separators : list Z := [32; 13; 9; 10; 11].
(** "%d %d %d %s\n" and "wc: read error\n" *)
Definition wc_format : list Z := [37; 100; 32; 37; 100; 32; 37; 100; 32; 37; 115; 10].
Definition read_error : list Z := [119; 99; 58; 32; 114; 101; 97; 100; 32; 101; 114; 114; 111; 114; 10].

Record counts : Type := { l : Z; w : Z; c : Z; inword : bool }.
Definition counts0 : counts := {| l := 0; w := 0; c := 0; inword := false |}.

(** The body of the [for] loop. *)
Definition count_byte (k : counts) (b : Z) : counts :=
  let l' := if b =? Ulib.NL then s32 (l k + 1) else l k in
  let c' := s32 (c k + 1) in
  match Ulib.strchr separators b with
  | Some _ => {| l := l'; w := w k; c := c'; inword := false |}
  | None =>
      if negb (inword k) then {| l := l'; w := s32 (w k + 1); c := c'; inword := true |}
      else {| l := l'; w := w k; c := c'; inword := inword k |}
  end.

(** ** The words of an input *)

Definition is_sep (b : Z) : bool := bool_decide (b ∈ separators).

(** Maximal runs of bytes other than separators; [cur] is the one being read. *)
Fixpoint words_from (cur s : list Z) : list (list Z) :=
  match s with
  | [] => match cur with [] => [] | _ => [cur] end
  | b :: s =>
      if is_sep b then
        match cur with [] => words_from [] s | _ => cur :: words_from [] s end
      else words_from (cur ++ [b]) s
  end.
Definition words (s : list Z) : list (list Z) := words_from [] s.
Definition newlines (s : list Z) : list Z := filter (fun b => b = Ulib.NL) s.

Lemma strchr_sep b : (if Ulib.strchr separators b then true else false) = is_sep b.
Proof.
  unfold is_sep. destruct (decide (b = 0)) as [->|Hb]; [done|].
  pose proof (Ulib.strchr_spec separators b Hb) as Hs. destruct (Ulib.strchr separators b).
  - destruct Hs as (s1 & s2 & E & _). symmetry. apply bool_decide_true. rewrite E. set_solver.
  - symmetry. apply bool_decide_false. intros Hin. change (cstr separators) with separators in Hs.
    rewrite Forall_forall in Hs. by apply (Hs b).
Qed.

(** The counters after [s], when the word [cur] is being read. *)
Lemma count_bytes s k cur :
  inword k = match cur with [] => false | _ => true end ->
  0 <= l k -> 0 <= w k -> 0 <= c k ->
  l k + Z.of_nat (length s) < 2 ^ 31 -> w k + Z.of_nat (length s) < 2 ^ 31 ->
  c k + Z.of_nat (length s) < 2 ^ 31 ->
  let k' := fold_left count_byte s k in
  l k' = l k + Z.of_nat (length (newlines s)) /\ c k' = c k + Z.of_nat (length s) /\
  w k' = w k + Z.of_nat (length (words_from cur s)) - (if inword k then 1 else 0).
Proof.
  revert k cur. induction s as [|b s IH]; intros k cur Hi Hl Hw Hc Hl' Hw' Hc'; cbn zeta; cbn [fold_left].
  { cbn. rewrite Hi. destruct cur; cbn; lia. }
  cbn [length] in *. rewrite Nat2Z.inj_succ in *.
  assert (El : l (count_byte k b) = l k + if decide (b = Ulib.NL) then 1 else 0).
  { unfold count_byte. destruct (Z.eqb_spec b Ulib.NL), (decide (b = Ulib.NL)); try done;
      repeat case_match; cbn; rewrite ?s32_small by lia; lia. }
  assert (Ec : c (count_byte k b) = c k + 1)
    by (unfold count_byte; repeat case_match; cbn; rewrite s32_small by lia; lia).
  assert (En : Z.of_nat (length (newlines (b :: s))) =
    (if decide (b = Ulib.NL) then 1 else 0) + Z.of_nat (length (newlines s))).
  { unfold newlines. rewrite filter_cons. destruct (decide (b = Ulib.NL)); cbn [length]; lia. }
  set (d := if decide (b = Ulib.NL) then 1 else 0) in *.
  assert (Hd : 0 <= d <= 1) by (unfold d; destruct (decide _); lia). clearbody d.
  pose proof (strchr_sep b) as Hsep. cbn [words_from].
  assert (Ew : w (count_byte k b) = w k + (if is_sep b || inword k then 0 else 1) /\
    inword (count_byte k b) = negb (is_sep b)).
  { unfold count_byte. destruct (Ulib.strchr separators b); rewrite <-Hsep; cbn; [lia|].
    destruct (inword k) eqn:E; cbn; [by rewrite ?E; split; [lia|]|]. rewrite s32_small by lia. lia. }
  destruct Ew as [Ew Ei]. destruct (is_sep b); cbn [orb negb] in *.
  - destruct (IH (count_byte k b) []) as (I1 & I2 & I3); [done|lia..|lia|].
    rewrite I1, I2, I3, El, Ec, Ew, En, Ei, Hi. destruct cur; cbn [length]; lia.
  - destruct (IH (count_byte k b) (cur ++ [b])) as (I1 & I2 & I3);
      [rewrite Ei; by destruct cur|destruct (inword k); lia..|].
    rewrite I1, I2, I3, El, Ec, Ew, En, Ei. destruct (inword k); lia.
Qed.
End Wc.
