(* ===== verification/Filters.v ===== *)
(** * grep and wc as programs: user/grep.c and user/wc.c

    [main] of the two programs and their reading loops as interaction trees,
    around the matcher of Grep and the counters of Wc.  Under any kernel that
    opens, reads and writes as documented they end and print, for each file in
    turn, the matching lines and the counts. *)

From ITree Require Import ITree.
From S2P Require Import Prelude Cstring Ulib Printf Grep Wc Syscalls UserProg.

Module Filters.
Import UserProg.

(** ** user/grep.c *)

(** The inner loop from [p] on: a [write] for each matching line; the bytes
    left at the end. *)
Fixpoint scan (fuel : nat) (pattern p : list Z) : prog (list Z) :=
  match fuel with
  | O => Ret p
  | S fuel =>
      match Ulib.strchr p Ulib.NL with
      | None => Ret p
      | Some q =>
          (if Grep.match_ pattern (take q p) then sys (Write 1 (take q p ++ [Ulib.NL])) ;;; Ret tt
           else Ret tt) ;;;
          scan fuel pattern (drop (S q) p)
      end
  end.

(** The outer loop, with the [m] bytes at the start of [buf], an array of
    [BUFSZ] bytes; the store of the nul is at index [m + n]. *)
Definition grep_from (pattern : list Z) (fd : Z) (m : list Z) : prog unit :=
  ITree.iter (fun m =>
    let* (n, l) := sys (Read fd (Z.of_nat Grep.BUFSZ - Z.of_nat (length m) - 1)) in
    if 0 <? n then
      let b := m ++ take (Z.to_nat n) l in
      if (Grep.BUFSZ <=? length b)%nat then overrun else
      let* m := scan (S (length b)) pattern b in
      Ret (inl m)
    else Ret (inr tt)) m.

Definition grep (pattern : list Z) (fd : Z) : prog unit := grep_from pattern fd [].

Fixpoint grep_files (pattern : list Z) (files : list (list Z)) : prog unit :=
  match files with
  | [] => exit 0
  | f :: files =>
      let* fd := sys (Open f 0) in
      if fd <? 0 then
        printf (bytes "grep: cannot open %s" ++ NLs) [Str f] ;;;
        exit 1
      else
        grep pattern fd ;;;
        sys (Close fd) ;;;
        grep_files pattern files
  end.

Definition grep_main (argv : list (list Z)) : prog unit :=
  match argv with
  | [] | [_] =>
      fprintf 2 (bytes "usage: grep pattern [file ...]" ++ NLs) [] ;;;
      exit 1
  | [_; pattern] =>
      grep pattern 0 ;;;
      exit 0
  | _ :: pattern :: files => grep_files pattern files
  end.

(** ** user/wc.c *)

Definition wc_loop (fd : Z) (k : Wc.counts) : prog (Z * Wc.counts) :=
  ITree.iter (fun k =>
    let* (n, buf) := sys (Read fd 512) in
    if 0 <? n then Ret (inl (fold_left Wc.count_byte (take (Z.to_nat n) buf) k))
    else Ret (inr (n, k))) k.

Definition wc (fd : Z) (name : list Z) : prog unit :=
  let* (n, k) := wc_loop fd Wc.counts0 in
  if n <? 0 then
    printf Wc.read_error [] ;;;
    exit 1
  else printf Wc.wc_format [Num (Wc.l k); Num (Wc.w k); Num (Wc.c k); Str name].

Fixpoint wc_files (files : list (list Z)) : prog unit :=
  match files with
  | [] => exit 0
  | f :: files =>
      let* fd := sys (Open f 0) in
      if fd <? 0 then
        printf (bytes "wc: cannot open %s" ++ NLs) [Str f] ;;;
        exit 1
      else
        wc fd f ;;;
        sys (Close fd) ;;;
        wc_files files
  end.

Definition wc_main (argv : list (list Z)) : prog unit :=
  if Z.of_nat (length argv) <=? 1 then
    wc 0 [] ;;;
    exit 0
  else wc_files (drop 1 argv).

(** ** What they print *)

Section Printing.
Context {S : Type} `{FS : Files S}.

(** The bytes behind the descriptors are as before. *)
Definition quiet (s s' : S) : Prop := forall fd, unread s' fd = unread s fd.

Lemma scan_runs fuel pattern p s :
  let '(out, rest) := Grep.scan_lines fuel pattern p in
  runs (fun o s' => o = Returned rest /\ after s out s' /\ quiet s s') (observe (scan fuel pattern p)) s.
Proof.
  revert p s. induction fuel as [|fuel IH]; intros p s; cbn [scan Grep.scan_lines].
  { apply runs_return. split_and!; [done|apply after_refl|done]. }
  destruct (Ulib.strchr p Ulib.NL) as [q|]; [|apply runs_return; split_and!; [done|apply after_refl|done]].
  pose proof (IH (drop (Datatypes.S q) p)) as Hr. destruct (Grep.scan_lines _ _ _) as [out rest].
  destruct (Grep.match_ pattern (take q p)).
  - apply runs_bind, runs_call. intros r s1 Hw. destruct (write_file _ _ _ _ _ Hw) as (F1 & U1 & _ & O1).
    apply runs_return. cbn [returning]. eapply runs_mono; [|apply Hr]. intros o s2 (-> & A2 & U2).
    split_and!; [done|by apply (after_trans _ _ s1)|intros fd; by rewrite U2].
  - apply runs_bind, runs_return. apply Hr.
Qed.

(** The input [grep] handles: no nul byte, and no line that fills the buffer. *)
Definition text (b : list Z) : Prop := Forall (fun c => c <> 0) b /\ Grep.short_lines 0 b.

Lemma grep_from_runs pattern fd m b s :
  unread s fd = Some b -> Forall (fun c => c <> 0) (m ++ b) -> Forall (fun c => c <> Ulib.NL) m ->
  Grep.short_lines (length m) b ->
  runs (fun o s' => o = Returned tt /\ after s (Grep.selected pattern (Grep.lines_from m b)) s')
    (observe (grep_from pattern fd m)) s.
Proof.
  remember (length b) as n eqn:En. revert m b s En. induction n as [n IH] using lt_wf_ind.
  intros m b s En Hb Hnul Hnl Hsh. unfold grep_from. apply runs_iter, runs_call. intros [r l] s1 Hr.
  assert (Hm : (length m < Grep.BUFSZ - 1)%nat) by (destruct b; apply Hsh).
  destruct (read_file _ _ _ _ _ _ _ Hr ltac:(lia) Hb) as (-> & Hle & F1 & O1 & b' & -> & Hb' & He).
  assert (A1 : after s [] s1) by (split; [done|by rewrite O1, app_nil_r]).
  destruct (decide (l = [])) as [->|Hne].
  { cbn [length]. change (0 <? Z.of_nat 0) with false. apply runs_return. specialize (He eq_refl).
    cbn [app] in He. subst b'. split; [done|exact A1]. }
  assert (Hl : (0 < length l)%nat) by (destruct l; [done|cbn; lia]).
  rewrite (proj2 (Z.ltb_lt 0 _)) by lia. rewrite Nat2Z.id, take_ge by lia. cbv zeta.
  rewrite (proj2 (Nat.leb_gt _ _)) by (rewrite length_app; lia).
  rewrite app_assoc in Hnul. apply Forall_app in Hnul as [Hn1 Hn2].
  pose proof (scan_runs (Datatypes.S (length (m ++ l))) pattern (m ++ l) s1) as Hscan.
  rewrite Grep.scan_lines_spec in Hscan by (done || lia). unfold Grep.lines in Hscan.
  destruct (Grep.lines_from_no_nl [] m Hnl) as [E1 E2]. cbn [app] in E2.
  rewrite (Grep.lines_from_app []), E1, Grep.last_from_app, E2 in Hscan. cbn [app] in Hscan.
  destruct (Grep.short_lines_app m l b' Hsh) as [_ Hsh']. apply Forall_app in Hn1 as [Hn0 Hn1].
  apply runs_bind. eapply runs_mono; [|exact Hscan]. intros o s2 (-> & A2 & U2). apply runs_return. cbn [returning].
  eapply runs_mono; [|apply (IH (length b')); [subst n; rewrite length_app; lia|done|by rewrite U2| | |exact Hsh']].
  - intros o s3 [-> A3]. split; [done|]. rewrite Grep.lines_from_app.
    replace (Grep.selected pattern (Grep.lines_from m l ++ Grep.lines_from (Grep.last_from m l) b'))
      with (Grep.selected pattern (Grep.lines_from m l) ++ Grep.selected pattern (Grep.lines_from (Grep.last_from m l) b'))
      by (unfold Grep.selected; by rewrite List.filter_app, map_app, concat_app).
    apply (after_trans s [] s1 _ s3 A1). by apply (after_trans s1 _ s2).
  - apply Forall_app. split; [by apply Grep.last_from_nul|done].
  - by apply Grep.last_from_no_nl.
Qed.

Lemma grep_runs pattern fd b s :
  unread s fd = Some b -> text b ->
  runs (fun o s' => o = Returned tt /\ after s (Grep.selected pattern (Grep.lines b)) s') (observe (grep pattern fd)) s.
Proof. intros Hb [Hn Hs]. by apply grep_from_runs. Qed.

(** Claim C30: [grep pattern files], on files without nul bytes and without a line
    of 1023 bytes or more, ends and never stores past its buffer.  It prints, for
    each file in turn, its complete lines that match the pattern, in order and
    however [read] cuts the file into pieces, up to the first file that cannot be
    opened, for which it prints a message and ends with status 1. *)
Theorem grep_main_prints name pattern files s :
  files <> [] -> (forall p b, p ∈ files -> file s p = Some b -> text b) ->
  let spec := files_spec (file s) (fun _ b => Grep.selected pattern (Grep.lines b))
    (fun f => format (bytes "grep: cannot open %s" ++ NLs) [Str f]) files in
  runs (fun o s' => o = Exited spec.2 /\ after s spec.1 s') (observe (grep_main (name :: pattern :: files))) s.
Proof.
  intros Hne Hok. destruct files as [|f files]; [done|].
  eapply (files_runs (grep_files pattern) (fun fd _ => grep pattern fd) _ _ _ text); try done.
  - intros fd _ b s' Hb Ht. by apply grep_runs.
  - intros g s'. apply putcs_out.
Qed.

Lemma wc_loop_runs fd b k s :
  unread s fd = Some b ->
  runs (fun o s' => o = Returned (0, fold_left Wc.count_byte b k) /\ after s [] s') (observe (wc_loop fd k)) s.
Proof.
  remember (length b) as n eqn:En. revert b k s En. induction n as [n IH] using lt_wf_ind.
  intros b k s En Hb. unfold wc_loop. apply runs_iter, runs_call. intros [r l] s1 Hr.
  destruct (read_file _ _ _ _ _ _ _ Hr ltac:(lia) Hb) as (-> & _ & F1 & O1 & b' & -> & Hb' & He).
  assert (A1 : after s [] s1) by (split; [done|by rewrite O1, app_nil_r]).
  destruct (decide (l = [])) as [->|Hne].
  { cbn [length]. change (0 <? Z.of_nat 0) with false. apply runs_return. specialize (He eq_refl).
    cbn [app] in He. subst b'. split; [done|exact A1]. }
  assert (Hl : (0 < length l)%nat) by (destruct l; [done|cbn; lia]).
  rewrite (proj2 (Z.ltb_lt 0 _)) by lia. rewrite Nat2Z.id, take_ge by lia. apply runs_return. cbn [returning].
  eapply runs_mono; [|apply (IH (length b')); [subst n; rewrite length_app; lia|done|done]].
  intros o s2 [-> A2]. rewrite fold_left_app. split; [done|]. by apply (after_trans s [] s1 []).
Qed.

(** The line [wc] prints for a file. *)
Definition wc_line (name b : list Z) : list Z :=
  format Wc.wc_format [Num (Z.of_nat (length (Wc.newlines b))); Num (Z.of_nat (length (Wc.words b)));
    Num (Z.of_nat (length b)); Str name].

Lemma wc_runs fd name b s :
  unread s fd = Some b -> Z.of_nat (length b) < 2 ^ 31 ->
  runs (fun o s' => o = Returned tt /\ after s (wc_line name b) s') (observe (wc fd name)) s.
Proof.
  intros Hb Hlen. unfold wc. apply runs_bind. eapply runs_mono; [|by apply (wc_loop_runs fd b)].
  intros o s1 [-> A1]. cbn [returning]. change (0 <? 0) with false. eapply runs_mono; [|apply putcs_out].
  intros o s2 [-> A2]. split; [done|]. apply (after_trans s [] s1 _ s2 A1).
  destruct (Wc.count_bytes b Wc.counts0 []) as (E1 & E2 & E3); try done; cbn [Wc.counts0 Wc.l Wc.w Wc.c Wc.inword]; try lia.
  rewrite E1, E2, E3 in A2. cbn [Wc.counts0 Wc.l Wc.w Wc.c Wc.inword] in A2.
  rewrite !Z.add_0_l, Z.sub_0_r in A2. exact A2.
Qed.

(** [wc files] prints the numbers of lines, words and bytes of each file. *)
Theorem wc_main_prints name files s :
  files <> [] -> (forall p b, p ∈ files -> file s p = Some b -> Z.of_nat (length b) < 2 ^ 31) ->
  let spec := files_spec (file s) wc_line (fun f => format (bytes "wc: cannot open %s" ++ NLs) [Str f]) files in
  runs (fun o s' => o = Exited spec.2 /\ after s spec.1 s') (observe (wc_main (name :: files))) s.
Proof.
  intros Hne Hok. unfold wc_main. rewrite (proj2 (Z.leb_gt _ _)) by (destruct files; [done|cbn; lia]).
  change (drop 1 (name :: files)) with files.
  eapply (files_runs wc_files wc _ _ _ (fun b => Z.of_nat (length b) < 2 ^ 31)); try done.
  - intros fd f b s' Hb Ht. by apply wc_runs.
  - intros g s'. apply putcs_out.
Qed.
End Printing.

(** [grep a f g], where [f] has the lines "ab" and "b" and there is no [g]. *)
Definition ex_grep : list (list Z) := [bytes "grep"; bytes "a"; bytes "f"; bytes "g"].
Definition ex_input : ex_st :=
  {| ex_files := fun p => if decide (p = bytes "f") then Some [97; 98; 10; 98; 10] else None; ex_fds := ∅; ex_out := [] |}.

Lemma grep_main_prints_witness :
  runs (fun o s' => o = Exited 1 /\ ex_out s' = [97; 98; 10] ++ bytes "grep: cannot open g" ++ [10])
    (observe (grep_main ex_grep)) ex_input.
Proof.
  eapply runs_mono; [|apply (grep_main_prints (bytes "grep") (bytes "a") [bytes "f"; bytes "g"] ex_input)].
  - intros o s' [-> [_ Hout]]. split; [reflexivity|exact Hout].
  - discriminate.
  - intros p b _ Hb. cbn in Hb. destruct (decide _); [|discriminate]. injection Hb as <-. split.
    + repeat constructor; discriminate.
    + cbn. unfold Grep.BUFSZ. repeat split; lia.
Defined.
End Filters.
