(* ===== verification/Sh.v ===== *)
(** * The shell's command parser (user/sh.c)

    The recursive-descent parser on the line the shell read.  A pointer into
    the line is the part of the line it points to, so that [es] is the empty
    list and [s < es] holds of the non-empty ones.  Command nodes are values;
    [parseexec] fills the exec node it allocated after [parseredirs] has wrapped
    it, so here the redirections are collected and wrapped around the finished
    node, the first one innermost. *)

From S2P Require Import Prelude Cstring Ulib VfsFile.

Module Sh.

(** ** Commands *)

Definition MAXARGS : nat := 10.

(** [W] is a word: a pair of pointers, or a string. *)
Inductive cmd (W : Type) : Type :=
| EXEC (argv : list W)
| REDIR (c : cmd W) (file : W) (mode fd : Z)
| PIPE (left right : cmd W)
| LIST (left right : cmd W)
| BACK (c : cmd W).
Arguments EXEC {W}. Arguments REDIR {W}. Arguments PIPE {W}. Arguments LIST {W}. Arguments BACK {W}.

Fixpoint cmd_map {V W} (f : V -> W) (c : cmd V) : cmd W :=
  match c with
  | EXEC argv => EXEC (map f argv)
  | REDIR c file mode fd => REDIR (cmd_map f c) (f file) mode fd
  | PIPE l r => PIPE (cmd_map f l) (cmd_map f r)
  | LIST l r => LIST (cmd_map f l) (cmd_map f r)
  | BACK c => BACK (cmd_map f c)
  end.

Fixpoint cmd_all {W} (P : W -> Prop) (c : cmd W) : Prop :=
  match c with
  | EXEC argv => Forall P argv
  | REDIR c file _ _ => cmd_all P c /\ P file
  | PIPE l r | LIST l r => cmd_all P l /\ cmd_all P r
  | BACK c => cmd_all P c
  end.

(** ** Tokens *)

(** " \t\r\n\v" and "<|>&;()" *)
Definition whitespace : list Z := [32; 9; 13; 10; 11].
Definition symbols : list Z := [60; 124; 62; 38; 59; 40; 41].
Definition LT : Z := 60.
Definition BAR : Z := 124.
Definition GT : Z := 62.
Definition AMP : Z := 38.
Definition SEMI : Z := 59.
Definition LPAREN : Z := 40.
Definition RPAREN : Z := 41.
Definition PLUS : Z := 43.
Definition WORD : Z := 97.

(** [strchr(toks, c)] as a condition, for [c] other than the nul. *)
Definition in_toks (toks : list Z) (c : Z) : bool :=
  match Ulib.strchr toks c with Some _ => true | None => false end.

Fixpoint skip_ws (s : list Z) : list Z :=
  match s with
  | [] => []
  | c :: s' => if in_toks whitespace c then skip_ws s' else s
  end.

Fixpoint skip_word (s : list Z) : list Z :=
  match s with
  | [] => []
  | c :: s' => if negb (in_toks whitespace c) && negb (in_toks symbols c) then skip_word s' else s
  end.

(** The result, [*q], [*eq] and [*ps]. *)
Definition gettoken (s : list Z) : Z * list Z * list Z * list Z :=
  let q := skip_ws s in
  match q with
  | [] => (0, q, q, [])
  | c :: r =>
      if (c =? BAR) || (c =? LPAREN) || (c =? RPAREN) || (c =? SEMI) || (c =? AMP) || (c =? LT) then
        (c, q, r, skip_ws r)
      else if c =? GT then
        match r with
        | d :: r' => if d =? GT then (PLUS, q, r', skip_ws r') else (c, q, r, skip_ws r)
        | [] => (c, q, r, skip_ws r)
        end
      else
        let eq := skip_word q in
        (WORD, q, eq, skip_ws eq)
  end.

(** The result and [*ps]. *)
Definition peek (s toks : list Z) : bool * list Z :=
  let s := skip_ws s in
  (match s with [] => false | c :: _ => in_toks toks c end, s).

(** ** The parser *)

(** A word as the pointers [q] and [eq]. *)
Notation ptrs := (list Z * list Z)%type.

(** [Panic] ends the child process with the message; [NoFuel] is not a
    behaviour of the code (see [parsecmd_total]). *)
Inductive result (A : Type) : Type :=
| Parsed (a : A) (s : list Z)
| Panic (msg : string)
| NoFuel.
Arguments Parsed {A}. Arguments Panic {A}. Arguments NoFuel {A}.

Definition pbind {A B} (m : result A) (k : A -> list Z -> result B) : result B :=
  match m with
  | Parsed a s => k a s
  | Panic msg => Panic msg
  | NoFuel => NoFuel
  end.

(** A redirection, and a command wrapped in redirections. *)
Record redir (W : Type) : Type := { r_file : W; r_mode : Z; r_fd : Z }.
Arguments r_file {W}. Arguments r_mode {W}. Arguments r_fd {W}.
Definition redirs {W} (c : cmd W) (rs : list (redir W)) : cmd W :=
  fold_left (fun c r => REDIR c (r_file r) (r_mode r) (r_fd r)) rs c.

Definition redir_of (tok : Z) (w : ptrs) : redir ptrs :=
  if tok =? LT then {| r_file := w; r_mode := O_RDONLY; r_fd := 0 |}
  else if tok =? GT then
    {| r_file := w; r_mode := Z.lor (Z.lor O_WRONLY O_CREATE) O_TRUNC; r_fd := 1 |}
  else {| r_file := w; r_mode := Z.lor O_WRONLY O_CREATE; r_fd := 1 |}.

Fixpoint parseredirs (n : nat) (s : list Z) : result (list (redir ptrs)) :=
  match n with
  | O => NoFuel
  | S n =>
      let '(b, s) := peek s [LT; GT] in
      if b then
        let '(tok, _, _, s) := gettoken s in
        let '(tok', q, eq, s) := gettoken s in
        if negb (tok' =? WORD) then Panic "missing file for redirection"
        else pbind (parseredirs n s) (fun rs s => Parsed (redir_of tok (q, eq) :: rs) s)
      else Parsed [] s
  end.

(** The loop of [parseexec] with [argc] arguments read. *)
Fixpoint parseargs (n : nat) (argc : nat) (s : list Z) : result (list ptrs * list (redir ptrs)) :=
  match n with
  | O => NoFuel
  | S n =>
      let '(b, s) := peek s [BAR; RPAREN; AMP; SEMI] in
      if negb b then
        let '(tok, q, eq, s) := gettoken s in
        if tok =? 0 then Parsed ([], []) s
        else if negb (tok =? WORD) then Panic "syntax"
        else if (MAXARGS <=? S argc)%nat then Panic "too many args"
        else
          pbind (parseredirs (S (length s)) s) (fun rs s =>
          pbind (parseargs n (S argc) s) (fun '(args, rs') s =>
          Parsed ((q, eq) :: args, rs ++ rs') s))
      else Parsed ([], []) s
  end.

Fixpoint parsebacks (n : nat) (c : cmd ptrs) (s : list Z) : result (cmd ptrs) :=
  match n with
  | O => NoFuel
  | S n =>
      let '(b, s) := peek s [AMP] in
      if b then
        let '(_, _, _, s) := gettoken s in
        parsebacks n (BACK c) s
      else Parsed c s
  end.

Fixpoint parseline (n : nat) (s : list Z) : result (cmd ptrs) :=
  match n with
  | O => NoFuel
  | S n =>
      pbind (parsepipe n s) (fun c s =>
      pbind (parsebacks (S (length s)) c s) (fun c s =>
      let '(b, s) := peek s [SEMI] in
      if b then
        let '(_, _, _, s) := gettoken s in
        pbind (parseline n s) (fun c' s => Parsed (LIST c c') s)
      else Parsed c s))
  end

with parsepipe (n : nat) (s : list Z) : result (cmd ptrs) :=
  match n with
  | O => NoFuel
  | S n =>
      pbind (parseexec n s) (fun c s =>
      let '(b, s) := peek s [BAR] in
      if b then
        let '(_, _, _, s) := gettoken s in
        pbind (parsepipe n s) (fun c' s => Parsed (PIPE c c') s)
      else Parsed c s)
  end

with parseexec (n : nat) (s : list Z) : result (cmd ptrs) :=
  match n with
  | O => NoFuel
  | S n =>
      let '(b, s) := peek s [LPAREN] in
      if b then parseblock n s
      else
        pbind (parseredirs (S (length s)) s) (fun rs s =>
        pbind (parseargs (S (length s)) 0 s) (fun '(args, rs') s =>
        Parsed (redirs (EXEC args) (rs ++ rs')) s))
  end

with parseblock (n : nat) (s : list Z) : result (cmd ptrs) :=
  match n with
  | O => NoFuel
  | S n =>
      let '(b, s) := peek s [LPAREN] in
      if negb b then Panic "parseblock"
      else
        let '(_, _, _, s) := gettoken s in
        pbind (parseline n s) (fun c s =>
        let '(b, s) := peek s [RPAREN] in
        if negb b then Panic "syntax - missing )"
        else
          let '(_, _, _, s) := gettoken s in
          pbind (parseredirs (S (length s)) s) (fun rs s => Parsed (redirs c rs) s))
  end.

(** Four calls at most for each character. *)
Definition parse_fuel (s : list Z) : nat := 4 * length s + 4.

(** [nulterminate] writes a nul at the end of each word; [line] is the line
    with its nul. *)
Definition cut (line : list Z) (w : ptrs) : list Z :=
  <[(length line - 1 - length w.2)%nat := 0]> line.
Fixpoint nulterminate (c : cmd ptrs) (line : list Z) : list Z :=
  match c with
  | EXEC argv => fold_left cut argv line
  | REDIR c file _ _ => cut (nulterminate c line) file
  | PIPE l r | LIST l r => nulterminate r (nulterminate l line)
  | BACK c => nulterminate c line
  end.

(** The command and the line after [nulterminate]; [buf] is the array, its
    string ends at the first nul. *)
Definition parsecmd (buf : list Z) : result (cmd ptrs * list Z) :=
  let s := cstr buf in
  pbind (parseline (parse_fuel s) s) (fun c s' =>
  let '(_, s') := peek s' [] in
  match s' with
  | [] => Parsed (c, nulterminate c (s ++ [0])) []
  | _ => Panic "syntax"
  end).

(** ** Progress *)

Lemma skip_ws_length s : (length (skip_ws s) <= length s)%nat.
Proof. induction s as [|c s IH]; cbn; [done|]. destruct (in_toks _ c); cbn; lia. Qed.

Lemma skip_word_length s : (length (skip_word s) <= length s)%nat.
Proof. induction s as [|c s IH]; cbn; [done|]. destruct (_ && _); cbn; lia. Qed.

Lemma skip_ws_head s c r : skip_ws s = c :: r -> in_toks whitespace c = false.
Proof.
  induction s as [|d s IH]; cbn; [done|]. destruct (in_toks whitespace d) eqn:E; [done|]. by intros [= <- <-].
Qed.

Lemma in_toks_elem toks c : Forall (fun x => x <> 0) toks -> in_toks toks c = bool_decide (c ∈ toks).
Proof.
  intros Ht. unfold in_toks. destruct (decide (c = 0)) as [->|Hc].
  - rewrite bool_decide_false; [|intros H; rewrite Forall_forall in Ht; by apply (Ht 0)].
    induction Ht as [|x toks Hx Ht IH]; cbn; [done|]. rewrite (proj2 (Z.eqb_neq x 0)) by done.
    by destruct (Ulib.strchr toks 0).
  - pose proof (Ulib.strchr_spec toks c Hc) as Hs. destruct (Ulib.strchr toks c).
    + destruct Hs as (s1 & s2 & -> & _). symmetry. apply bool_decide_true. set_solver.
    + symmetry. apply bool_decide_false. intros Hin.
      assert (E : cstr toks = toks).
      { clear -Ht. induction Ht as [|x l Hx Hl IH]; cbn; [done|].
        rewrite (proj2 (Z.eqb_neq x 0)) by done. by rewrite IH. }
      rewrite E, Forall_forall in Hs. by apply (Hs c).
Qed.

Lemma symbols_nonzero : Forall (fun x => x <> 0) symbols.
Proof. by repeat constructor. Qed.
Lemma whitespace_nonzero : Forall (fun x => x <> 0) whitespace.
Proof. by repeat constructor. Qed.

(** A character of a word. *)
Definition wordchar (c : Z) : bool := negb (in_toks whitespace c) && negb (in_toks symbols c).

Lemma gettoken_progress s :
  let '(tok, q, eq, s') := gettoken s in
  (length s' <= length s)%nat /\ (skip_ws s <> [] -> (length s' < length s)%nat) /\
  (tok <> 0 -> (length s' < length s)%nat).
Proof.
  unfold gettoken. pose proof (skip_ws_length s) as Hl. pose proof (skip_ws_head s) as Hh.
  destruct (skip_ws s) as [|c r] eqn:E; [split_and!; [cbn; lia|done|done]|]. cbn [length] in Hl.
  pose proof (skip_ws_length r) as Hr.
  destruct (_ || _) eqn:Es; [split_and!; lia|]. destruct (Z.eqb_spec c GT) as [->|Hg].
  - destruct r as [|d r']; [split_and!; cbn in *; lia|]. destruct (d =? GT); cbn [length] in *.
    + pose proof (skip_ws_length r'). split_and!; lia.
    + split_and!; cbn in *; lia.
  - pose proof (skip_ws_length (skip_word (c :: r))) as H1.
    assert (Hw : wordchar c = true).
    { unfold wordchar. rewrite (Hh c r eq_refl), in_toks_elem by apply symbols_nonzero. cbn.
      apply negb_true_iff, bool_decide_false. zify_bool. unfold symbols, BAR, LPAREN, RPAREN, SEMI, AMP, LT, GT in *.
      set_solver by lia. }
    assert (H2 : (length (skip_word (c :: r)) <= length r)%nat).
    { cbn [skip_word]. fold (wordchar c). rewrite Hw. apply skip_word_length. }
    split_and!; lia.
Qed.

Lemma peek_progress s toks :
  let '(b, s') := peek s toks in
  s' = skip_ws s /\ (length s' <= length s)%nat /\ (b = true -> skip_ws s <> []).
Proof.
  unfold peek. split_and!; [done|apply skip_ws_length|]. by destruct (skip_ws s).
Qed.

Lemma skip_ws_idemp s : skip_ws (skip_ws s) = skip_ws s.
Proof.
  destruct (skip_ws s) as [|c r] eqn:E; [done|]. cbn. by rewrite (skip_ws_head s c r E).
Qed.

(** Ends, and does not run ahead of the input. *)
Definition fine {A} (s : list Z) (m : result A) : Prop :=
  match m with
  | Parsed _ s' => (length s' <= length s)%nat
  | Panic _ => True
  | NoFuel => False
  end.

Lemma fine_bind {A B} s (m : result A) (k : A -> list Z -> result B) :
  fine s m -> (forall a s', (length s' <= length s)%nat -> fine s (k a s')) -> fine s (pbind m k).
Proof. destruct m as [a s'| |]; cbn; auto. Qed.

Lemma fine_mono {A} s s' (m : result A) : fine s' m -> (length s' <= length s)%nat -> fine s m.
Proof. destruct m; cbn; [lia|done|done]. Qed.

(** [peek] said yes, [gettoken] moves on. *)
Ltac token :=
  match goal with
  | |- context [peek ?s ?t] =>
      let H := fresh "Hpk" in
      pose proof (peek_progress s t) as H; destruct (peek s t) as [? ?]; destruct H as (-> & ? & ?)
  | |- context [gettoken ?s] =>
      let H := fresh "Htk" in
      pose proof (gettoken_progress s) as H; destruct (gettoken s) as [[[? ?] ?] ?];
      destruct H as (? & ? & ?); rewrite ?skip_ws_idemp in *
  end.

Lemma parseredirs_fine n s : (length s < n)%nat -> fine s (parseredirs n s).
Proof.
  revert s. induction n as [|n IH]; intros s Hn; [lia|]. cbn [parseredirs]. token.
  destruct b; [|done]. token. token. destruct (negb (_ =? WORD)); [done|].
  assert (skip_ws s <> []) by auto. eapply fine_bind; [eapply fine_mono; [apply IH|]; intuition lia|].
  intros rs s' Hs'. exact Hs'.
Qed.

Lemma parseargs_fine n argc s : (length s < n)%nat -> fine s (parseargs n argc s).
Proof.
  revert argc s. induction n as [|n IH]; intros argc s Hn; [lia|]. cbn [parseargs]. token.
  destruct b; [done|]. cbn [negb]. token.
  destruct (Z.eqb_spec z 0); [cbn; lia|]. destruct (negb (_ =? WORD)); [done|].
  destruct (MAXARGS <=? S argc)%nat; [done|].
  assert (Hlt : (length l1 < length s)%nat) by (intuition lia).
  apply (fine_mono s l1); [|lia]. apply fine_bind; [apply parseredirs_fine; lia|].
  intros rs s1 Hs1. apply fine_bind; [eapply fine_mono; [apply IH|]; lia|]. by intros [args rs'] s2 Hs2.
Qed.

Lemma parsebacks_fine n c s : (length s < n)%nat -> fine s (parsebacks n c s).
Proof.
  revert c s. induction n as [|n IH]; intros c s Hn; [lia|]. cbn [parsebacks]. token.
  destruct b; [|done]. token. assert (skip_ws s <> []) by auto.
  eapply fine_mono; [apply IH|]; intuition lia.
Qed.

Lemma parse_fine n :
  (forall s, (4 * length s + 3 < n)%nat -> fine s (parseline n s)) /\
  (forall s, (4 * length s + 2 < n)%nat -> fine s (parsepipe n s)) /\
  (forall s, (4 * length s + 1 < n)%nat -> fine s (parseexec n s)) /\
  (forall s, (4 * length s < n)%nat -> fine s (parseblock n s)).
Proof.
  induction n as [|n (IHl & IHp & IHe & IHb)]; split_and!; intros s Hn; try lia.
  - cbn [parseline]. apply fine_bind; [apply IHp; lia|]. intros c s1 Hs1.
    apply (fine_mono s s1); [|lia]. apply fine_bind; [apply parsebacks_fine; lia|]. intros c2 s2 Hs2. token.
    destruct b; [|cbn; lia]. token. assert (skip_ws s2 <> []) by auto.
    apply fine_bind; [eapply fine_mono; [apply IHl|]; intuition lia|]. by intros c' s'.
  - cbn [parsepipe]. apply fine_bind; [apply IHe; lia|]. intros c s1 Hs1. token.
    destruct b; [|cbn; lia]. token. assert (skip_ws s1 <> []) by auto.
    apply fine_bind; [eapply fine_mono; [apply IHp|]; intuition lia|]. by intros c' s'.
  - cbn [parseexec]. token. destruct b; [eapply fine_mono; [apply IHb|]; lia|].
    apply (fine_mono s (skip_ws s)); [|lia]. apply fine_bind; [apply parseredirs_fine; lia|]. intros rs s1 Hs1.
    apply (fine_mono _ s1); [|lia]. apply fine_bind; [apply parseargs_fine; lia|]. by intros [args rs'] s2.
  - cbn [parseblock]. token. destruct b; [|done]. cbn [negb]. token. assert (skip_ws s <> []) by auto.
    apply (fine_mono s l1); [|lia]. apply fine_bind; [apply IHl; intuition lia|]. intros c s1 Hs1. token.
    destruct b; [|done]. cbn [negb]. token. apply (fine_mono _ l4); [|lia].
    apply fine_bind; [apply parseredirs_fine; lia|]. by intros rs s2.
Qed.

(** The parser ends on every line, with a command or with a panic:
    the recursion of the four parsing functions and their loops never go on
    without consuming a character. *)
Theorem parsecmd_total (buf : list Z) :
  parsecmd buf <> NoFuel.
Proof.
  unfold parsecmd, parse_fuel. set (s := cstr buf).
  destruct (parse_fine (4 * length s + 4)) as [Hl _]. specialize (Hl s ltac:(lia)).
  destruct (parseline _ s) as [c s'| |]; [|done|done]. cbn [pbind]. token. by destruct (skip_ws s').
Qed.
(** ** Words *)

(** [w] delimits a word of [line]: word characters up to a character that is
    not one, or up to the end. *)
Definition word_ok (line : list Z) (w : ptrs) : Prop :=
  w.1 `suffix_of` line /\ exists cs, w.1 = cs ++ w.2 /\ cs <> [] /\
    Forall (fun c => wordchar c = true) cs /\
    match w.2 with [] => True | c :: _ => wordchar c = false end.

Lemma skip_ws_suffix s : skip_ws s `suffix_of` s.
Proof.
  induction s as [|c s IH]; cbn; [done|]. destruct (in_toks _ c); [|done]. by apply suffix_cons_r.
Qed.

Lemma skip_word_spec s :
  exists cs, s = cs ++ skip_word s /\ Forall (fun c => wordchar c = true) cs /\
    match skip_word s with [] => True | c :: _ => wordchar c = false end.
Proof.
  induction s as [|c s IH]; cbn [skip_word]; [by exists []|]. fold (wordchar c). destruct (wordchar c) eqn:E.
  - destruct IH as (cs & Es & Hf & Hn). exists (c :: cs). cbn. rewrite <-Es. by split_and!; [|constructor|].
  - by exists [].
Qed.

Lemma gettoken_words line s :
  s `suffix_of` line ->
  let '(tok, q, eq, s') := gettoken s in
  s' `suffix_of` line /\ (tok = WORD -> word_ok line (q, eq)).
Proof.
  intros Hs. unfold gettoken. pose proof (skip_ws_head s) as Hh.
  assert (Hq : skip_ws s `suffix_of` line) by (etrans; [apply skip_ws_suffix|done]).
  destruct (skip_ws s) as [|c r] eqn:E; [done|].
  assert (Hr : forall r', r' `suffix_of` r -> skip_ws r' `suffix_of` line).
  { intros r' Hr'. etrans; [apply skip_ws_suffix|]. etrans; [exact Hr'|]. by eapply suffix_cons_l. }
  destruct (_ || _) eqn:Es.
  { split; [by apply Hr|]. intros ->. by vm_compute in Es. }
  destruct (Z.eqb_spec c GT) as [->|Hg].
  { destruct r as [|d r']; [split; [by apply Hr|done]|].
    destruct (d =? GT); (split; [apply Hr|done]); [by apply suffix_cons_r|done]. }
  destruct (skip_word_spec (c :: r)) as (cs & Ec & Hf & Hn). split.
  - etrans; [apply skip_ws_suffix|]. etrans; [|exact Hq]. by exists cs.
  - intros _. split; [done|]. exists cs. split_and!; try done. intros ->. cbn [app] in Ec.
    rewrite <-Ec in Hn. revert Hn. unfold wordchar. rewrite (Hh c r eq_refl), in_toks_elem by apply symbols_nonzero.
    cbn. rewrite negb_false_iff, bool_decide_eq_true. zify_bool.
    unfold symbols, BAR, LPAREN, RPAREN, SEMI, AMP, LT, GT in *. set_solver by lia.
Qed.

(** What is parsed has property [P], and the rest is a rest of [line]. *)
Definition yields {A} (line : list Z) (P : A -> Prop) (m : result A) : Prop :=
  match m with
  | Parsed a s => P a /\ s `suffix_of` line
  | _ => True
  end.

Lemma yields_bind {A B} line (P : A -> Prop) (Q : B -> Prop) (m : result A) (k : A -> list Z -> result B) :
  yields line P m -> (forall a s, P a -> s `suffix_of` line -> yields line Q (k a s)) ->
  yields line Q (pbind m k).
Proof. destruct m; cbn; [intros [? ?]; auto|done|done]. Qed.

Section words.
Context (line : list Z).

Lemma peek_suffix s toks : s `suffix_of` line -> (peek s toks).2 `suffix_of` line.
Proof. intros Hs. etrans; [apply skip_ws_suffix|exact Hs]. Qed.

Ltac step :=
  match goal with
  | H : ?s `suffix_of` line |- context [peek ?s ?t] =>
      let H' := fresh "Hsuf" in
      pose proof (peek_suffix s t H) as H'; destruct (peek s t) as [? ?]; cbn [snd] in H'
  | H : ?s `suffix_of` line |- context [gettoken ?s] =>
      let H' := fresh "Htok" in
      pose proof (gettoken_words line s H) as H'; destruct (gettoken s) as [[[? ?] ?] ?];
      destruct H' as [? ?]
  | |- yields _ _ (if negb (_ =? WORD) then _ else _) =>
      case_match; [done|]; zify_bool
  end.

Definition redir_ok (r : redir ptrs) : Prop := word_ok line (r_file r).

Lemma redirs_all c rs : cmd_all (word_ok line) c -> Forall redir_ok rs -> cmd_all (word_ok line) (redirs c rs).
Proof.
  intros Hc Hr. revert c Hc. induction Hr as [|r rs Hr1 Hr2 IH]; intros c Hc; cbn; [done|]. by apply IH.
Qed.

Lemma parseredirs_words n s : s `suffix_of` line -> yields line (Forall redir_ok) (parseredirs n s).
Proof.
  revert s. induction n as [|n IH]; intros s Hs; [done|]. cbn [parseredirs]. step.
  destruct b; [|by split; [constructor|]]. step. step. step.
  eapply yields_bind; [by apply IH|]. intros rs s' Hr Hs'. split; [|done]. constructor; [|done].
  unfold redir_ok, redir_of. repeat case_match; cbn; auto.
Qed.

Lemma parseargs_words n argc s :
  s `suffix_of` line ->
  yields line (fun '(args, rs) => Forall (word_ok line) args /\ Forall redir_ok rs) (parseargs n argc s).
Proof.
  revert argc s. induction n as [|n IH]; intros argc s Hs; [done|]. cbn [parseargs]. step.
  destruct b; [by repeat split; try constructor|]. cbn [negb]. step.
  destruct (z =? 0); [by repeat split; try constructor|]. step.
  destruct (MAXARGS <=? S argc)%nat; [done|].
  eapply yields_bind; [by apply parseredirs_words|]. intros rs s1 Hr Hs1.
  eapply yields_bind; [by apply IH|]. intros [args rs'] s2 [Ha Hr'] Hs2. split; [|done].
  split; [constructor; auto|]. apply Forall_app. done.
Qed.

Lemma parsebacks_words n c s :
  cmd_all (word_ok line) c -> s `suffix_of` line -> yields line (cmd_all (word_ok line)) (parsebacks n c s).
Proof.
  revert c s. induction n as [|n IH]; intros c s Hc Hs; [done|]. cbn [parsebacks]. step.
  destruct b; [|done]. step. by apply IH.
Qed.

Lemma parse_words n :
  (forall s, s `suffix_of` line -> yields line (cmd_all (word_ok line)) (parseline n s)) /\
  (forall s, s `suffix_of` line -> yields line (cmd_all (word_ok line)) (parsepipe n s)) /\
  (forall s, s `suffix_of` line -> yields line (cmd_all (word_ok line)) (parseexec n s)) /\
  (forall s, s `suffix_of` line -> yields line (cmd_all (word_ok line)) (parseblock n s)).
Proof.
  induction n as [|n (IHl & IHp & IHe & IHb)]; split_and!; intros s Hs; try done.
  - cbn [parseline]. eapply yields_bind; [by apply IHp|]. intros c s1 Hc Hs1.
    eapply yields_bind; [by apply parsebacks_words|]. intros c2 s2 Hc2 Hs2. step. destruct b; [|done]. step.
    eapply yields_bind; [by apply IHl|]. by intros c' s' Hc' Hs'.
  - cbn [parsepipe]. eapply yields_bind; [by apply IHe|]. intros c s1 Hc Hs1. step. destruct b; [|done]. step.
    eapply yields_bind; [by apply IHp|]. by intros c' s' Hc' Hs'.
  - cbn [parseexec]. step. destruct b; [by apply IHb|].
    eapply yields_bind; [by apply parseredirs_words|]. intros rs s1 Hr Hs1.
    eapply yields_bind; [by apply parseargs_words|]. intros [args rs'] s2 [Ha Hr'] Hs2. split; [|done].
    apply redirs_all; [done|]. by apply Forall_app.
  - cbn [parseblock]. step. destruct b; [|done]. cbn [negb]. step.
    eapply yields_bind; [by apply IHl|]. intros c s1 Hc Hs1. step. destruct b; [|done]. cbn [negb]. step.
    eapply yields_bind; [by apply parseredirs_words|]. intros rs s2 Hr Hs2. split; [|done]. by apply redirs_all.
Qed.
End words.
(** ** [nulterminate] *)

Fixpoint words {W} (c : cmd W) : list W :=
  match c with
  | EXEC argv => argv
  | REDIR c file _ _ => words c ++ [file]
  | PIPE l r | LIST l r => words l ++ words r
  | BACK c => words c
  end.

(** The characters between the two pointers. *)
Definition word (w : ptrs) : list Z := take (length w.1 - length w.2) w.1.

(** The string at [w]'s first pointer in the line's array. *)
Definition string_at (line : list Z) (w : ptrs) : list Z :=
  cstr (drop (length line - 1 - length w.1) line).

Lemma cmd_all_words {W} (P : W -> Prop) c : cmd_all P c <-> Forall P (words c).
Proof. induction c; cbn; rewrite ?Forall_app, ?Forall_singleton; intuition. Qed.

Lemma nulterminate_cuts c line : nulterminate c line = fold_left cut (words c) line.
Proof.
  revert line. induction c as [argv|c IH file mode fd|l IHl r IHr|l IHl r IHr|c IH]; intros line; cbn;
    rewrite ?fold_left_app; cbn; congruence.
Qed.

Lemma cuts_length ws line : length (fold_left cut ws line) = length line.
Proof. revert line. induction ws; intros line; cbn; [done|]. rewrite IHws. apply length_insert. Qed.

Lemma cuts_lookup ws line i :
  (i < length line)%nat ->
  fold_left cut ws line !! i =
  if decide (i ∈ map (fun w : ptrs => (length line - 1 - length w.2)%nat) ws) then Some 0 else line !! i.
Proof.
  revert line. induction ws as [|w ws IH]; intros line Hi; cbn [fold_left map].
  - by rewrite decide_False by set_solver.
  - rewrite IH by (unfold cut; by rewrite length_insert).
    assert (El : length (cut line w) = length line) by (unfold cut; by rewrite length_insert).
    rewrite El. destruct (decide (i ∈ map _ ws)) as [Hin|Hin].
    + rewrite decide_True by set_solver. done.
    + unfold cut. destruct (decide (i = length line - 1 - length w.2)%nat) as [->|Hne].
      * rewrite list_lookup_insert_eq by lia. rewrite decide_True by set_solver. done.
      * rewrite list_lookup_insert_ne by done. rewrite decide_False by set_solver. done.
Qed.

Lemma cstr_prefix (l cs : list Z) :
  (forall i, (i < length cs)%nat -> l !! i = cs !! i) -> l !! length cs = Some 0 ->
  Forall (fun c => c <> 0) cs -> cstr l = cs.
Proof.
  revert l. induction cs as [|c cs IH]; intros l Hl H0 Hn; destruct l as [|d l]; cbn in *; try done.
  - by injection H0 as ->.
  - pose proof (Hl 0%nat ltac:(lia)) as E. injection E as ->. apply Forall_cons in Hn as [Hc Hn].
    rewrite (proj2 (Z.eqb_neq c 0)) by done. f_equal. apply IH; try done.
    intros i Hi. apply (Hl (S i)). lia.
Qed.

Lemma cstr_nonzero s : Forall (fun c => c <> 0) (cstr s).
Proof.
  induction s as [|c s IH]; cbn; [done|]. destruct (Z.eqb_spec c 0); by constructor.
Qed.

(** The ends of words are not inside words. *)
Lemma cuts_keep line ws w :
  Forall (fun c => c <> 0) line -> Forall (word_ok line) ws -> w ∈ ws ->
  string_at (fold_left cut ws (line ++ [0])) w = word w.
Proof.
  intros Hn Hok Hw. pose proof Hok as Hall. rewrite Forall_forall in Hall.
  destruct (Hall w Hw) as [[pre Hpre] (cs & Ecs & Hne & Hcs & _)].
  assert (El : length line = (length pre + length cs + length w.2)%nat)
    by (rewrite Hpre, Ecs, !length_app; lia).
  assert (Ew : word w = cs).
  { unfold word. rewrite Ecs, length_app. apply take_app_length'. lia. }
  rewrite Ew. unfold string_at. rewrite cuts_length, length_app. cbn [length].
  replace (length line + 1 - 1 - length w.1)%nat with (length pre)
    by (rewrite Ecs, length_app; lia).
  apply cstr_prefix.
  - intros i Hi. rewrite lookup_drop, cuts_lookup by (rewrite length_app; cbn; lia).
    rewrite length_app. cbn [length]. destruct (decide _) as [Hin|_].
    + exfalso. apply list_elem_of_In, in_map_iff in Hin as (w' & Ei & Hw'%list_elem_of_In).
      destruct (Hall w' Hw') as [[pre' Hpre'] (cs' & Ecs' & _ & _ & Hend)].
      assert (El' : length line = (length pre' + length cs' + length w'.2)%nat)
        by (rewrite Hpre', Ecs', !length_app; lia).
      destruct (cs !! i) as [c|] eqn:Ec; [|apply lookup_ge_None in Ec; lia].
      assert (Hc : line !! (length pre + i)%nat = Some c).
      { rewrite Hpre, Ecs, lookup_app_r by lia. rewrite lookup_app_l by lia. rewrite <-Ec. f_equal. lia. }
      assert (Hc' : w'.2 !! 0%nat = Some c).
      { rewrite <-Hc, Hpre', Ecs', lookup_app_r by lia. rewrite lookup_app_r by lia. f_equal. lia. }
      destruct w'.2 as [|d r]; [done|]. injection Hc' as ->.
      rewrite Forall_lookup in Hcs. rewrite (Hcs i c Ec) in Hend. done.
    + rewrite Hpre, Ecs, <-!app_assoc, lookup_app_r by lia. rewrite lookup_app_l by lia. f_equal. lia.
  - rewrite lookup_drop, cuts_lookup by (rewrite length_app; cbn; lia). rewrite length_app. cbn [length].
    rewrite decide_True; [done|]. apply list_elem_of_In, in_map_iff. exists w.
    split; [lia|by apply list_elem_of_In].
  - rewrite Hpre, Ecs, !Forall_app in Hn. by destruct Hn as (_ & ? & _).
Qed.

(** After [parsecmd] has cut the line into strings, every argument
    and file name of the command is the string the parser delimited: a
    non-empty run of word characters, and no cut falls inside another word. *)
Theorem parsecmd_strings (buf line' : list Z) (c : cmd ptrs) (s : list Z) :
  parsecmd buf = Parsed (c, line') s ->
  length line' = S (length (cstr buf)) /\
  forall w, w ∈ words c ->
    string_at line' w = word w /\ word w <> [] /\ Forall (fun c => wordchar c = true) (word w).
Proof.
  unfold parsecmd. destruct (parse_words (cstr buf) (parse_fuel (cstr buf))) as [Hl _].
  specialize (Hl (cstr buf) ltac:(done)). destruct (parseline _ _) as [c0 s0| |]; [|done|done].
  destruct Hl as [Hc _]. cbn [pbind]. destruct (peek s0 []) as [b s1]. destruct s1; [|done].
  intros [= <- <- <-]. rewrite cmd_all_words in Hc. rewrite nulterminate_cuts. split.
  - rewrite cuts_length, length_app. cbn. lia.
  - intros w Hw. split; [apply cuts_keep; try done; apply cstr_nonzero|].
    rewrite Forall_forall in Hc. destruct (Hc w Hw) as [_ (cs & Ecs & Hne & Hf & _)].
    assert (Ew : word w = cs) by (unfold word; rewrite Ecs, length_app; apply take_app_length'; lia).
    by rewrite Ew.
Qed.

(** "a b;c" *)
Lemma parsecmd_strings_witness :
  exists c line', parsecmd [97; 32; 98; 59; 99; 0] = Parsed (c, line') [] /\
    line' = [97; 0; 98; 0; 99; 0] /\ length line' = 6%nat /\
    forall w, w ∈ words c -> string_at line' w = word w.
Proof.
  eexists _, _. assert (H : parsecmd [97; 32; 98; 59; 99; 0] = Parsed (_, _) []) by (vm_compute; reflexivity).
  split; [exact H|]. split; [reflexivity|]. destruct (parsecmd_strings _ _ _ _ H) as [H1 H2].
  split; [exact H1|]. intros w Hw. apply (H2 w Hw).
Defined.
End Sh.
