(* ===== verification/ShPrint.v ===== *)
(** * The shell's grammar: printing and parsing back

    A printer for commands, and the proof that the parser of [Sh] reads back
    every command it prints: each operator has the precedence and the
    associativity the printer assumes. *)

From S2P Require Import Prelude Cstring Ulib VfsFile Sh.
Import Sh.

Definition SP : Z := 32.

(** A string the shell can take as one word. *)
Definition good_word (w : list Z) : Prop :=
  w <> [] /\ Forall (fun c => wordchar c = true) w /\ Forall (fun c => c <> 0) w.

Definition redir_sym (mode fd : Z) : option (list Z) :=
  if (mode =? O_RDONLY) && (fd =? 0) then Some [LT]
  else if (mode =? Z.lor (Z.lor O_WRONLY O_CREATE) O_TRUNC) && (fd =? 1) then Some [GT]
  else if (mode =? Z.lor O_WRONLY O_CREATE) && (fd =? 1) then Some [GT; GT]
  else None.

(** A command the shell can express. *)
Fixpoint good_cmd (c : cmd (list Z)) : Prop :=
  match c with
  | EXEC argv => (length argv < MAXARGS)%nat /\ Forall good_word argv
  | REDIR c file mode fd => good_cmd c /\ good_word file /\ is_Some (redir_sym mode fd)
  | PIPE l r | LIST l r => good_cmd l /\ good_cmd r
  | BACK c => good_cmd c
  end.

(** Levels: 0 for a simple command, 1 for a pipeline, 2 for one with
    ampersands, 3 for a line. *)
Definition paren (b : bool) (s : list Z) : list Z := if b then LPAREN :: SP :: s ++ [RPAREN; SP] else s.
Definition show_args (argv : list (list Z)) : list Z := concat (map (fun w => w ++ [SP]) argv).
Definition show_redir (file : list Z) (mode fd : Z) : list Z :=
  default [] (redir_sym mode fd) ++ SP :: file ++ [SP].
Fixpoint show (c : cmd (list Z)) (lvl : nat) : list Z :=
  match c with
  | EXEC argv => show_args argv
  | REDIR c file mode fd => show c 0 ++ show_redir file mode fd
  | PIPE l r => paren (lvl <? 1)%nat (show l 0 ++ [BAR; SP] ++ show r 1)
  | BACK c => paren (lvl <? 2)%nat (show c 2 ++ [AMP; SP])
  | LIST l r => paren (lvl <? 3)%nat (show l 2 ++ [SEMI; SP] ++ show r 3)
  end.

(** ** Tokens of printed text *)

(** No white space at the front. *)
Definition nows (s : list Z) : Prop := skip_ws s = s.

Lemma nows_cons c s : in_toks whitespace c = false -> nows (c :: s).
Proof. unfold nows. cbn. by intros ->. Qed.

Lemma nows_nil : nows [].
Proof. done. Qed.

Lemma wordchar_ws c : wordchar c = true -> in_toks whitespace c = false.
Proof. unfold wordchar. intros [H _]%andb_prop. by apply negb_true_iff in H. Qed.

Lemma wordchar_sym c : wordchar c = true -> in_toks symbols c = false.
Proof. unfold wordchar. intros [_ H]%andb_prop. by apply negb_true_iff in H. Qed.

Lemma peek_nows s toks :
  nows s -> peek s toks = (match s with [] => false | c :: _ => in_toks toks c end, s).
Proof. unfold nows, peek. by intros ->. Qed.

Lemma skip_word_app w r :
  Forall (fun c => wordchar c = true) w -> skip_word (w ++ SP :: r) = SP :: r.
Proof.
  induction 1 as [|c w Hc Hw IH]; cbn [app skip_word]; [done|]. fold (wordchar c). by rewrite Hc.
Qed.

(** A word character is not one of the symbols. *)
Lemma wordchar_ne c : wordchar c = true -> Forall (fun s => c <> s) symbols.
Proof.
  intros H%wordchar_sym. rewrite in_toks_elem in H by apply symbols_nonzero.
  apply bool_decide_eq_false in H. apply Forall_forall. intros s Hs ->. done.
Qed.

Lemma gettoken_word w r :
  good_word w -> nows r ->
  gettoken (w ++ SP :: r) = (WORD, w ++ SP :: r, SP :: r, r).
Proof.
  intros (Hne & Hw & _) Hr. destruct w as [|c w]; [done|].
  pose proof (skip_word_app (c :: w) r Hw) as Hs. apply Forall_cons in Hw as [Hc Hw].
  unfold gettoken. cbn [app] in *.
  assert (E : skip_ws (c :: w ++ SP :: r) = c :: w ++ SP :: r) by (by apply nows_cons, wordchar_ws).
  rewrite E. pose proof (wordchar_ne c Hc) as Hn. unfold symbols in Hn.
  repeat apply Forall_cons in Hn as [? Hn]. unfold BAR, LPAREN, RPAREN, SEMI, AMP, LT, GT.
  repeat (rewrite (proj2 (Z.eqb_neq c _)) by done). cbn [orb]. rewrite Hs. do 2 f_equal. exact Hr.
Qed.

Lemma word_app w r : word (w ++ SP :: r, SP :: r) = w.
Proof. unfold word. cbn [fst snd]. rewrite length_app. apply take_app_length'. lia. Qed.

Lemma gettoken_sym c r :
  c ∈ [BAR; LPAREN; RPAREN; SEMI; AMP; LT] -> nows r -> (gettoken (c :: SP :: r)).1.1.1 = c /\ (gettoken (c :: SP :: r)).2 = r.
Proof.
  intros Hc Hr. repeat (apply elem_of_cons in Hc as [->|Hc]); [..|by apply elem_of_nil in Hc];
    (split; [done|exact Hr]).
Qed.

(** ** Redirections *)

Definition redir_map (f : ptrs -> list Z) (r : redir ptrs) : redir (list Z) :=
  {| r_file := f (r_file r); r_mode := r_mode r; r_fd := r_fd r |}.
Definition good_redir (r : redir (list Z)) : Prop := good_word (r_file r) /\ is_Some (redir_sym (r_mode r) (r_fd r)).
Definition show_redirs (rs : list (redir (list Z))) : list Z :=
  concat (map (fun r => show_redir (r_file r) (r_mode r) (r_fd r)) rs).

(** What can follow a simple command. *)
Definition stop (s : list Z) : Prop :=
  match s with [] => True | c :: _ => in_toks [BAR; RPAREN; AMP; SEMI] c = true end.

Lemma stop_nows s : stop s -> nows s.
Proof.
  destruct s as [|c s]; [done|]. intros H. apply nows_cons. unfold stop in H.
  rewrite in_toks_elem in H by (by repeat constructor). apply bool_decide_eq_true in H.
  repeat (apply elem_of_cons in H as [->|H]); [done..|by apply elem_of_nil in H].
Qed.

Lemma stop_redir s : stop s -> peek s [LT; GT] = (false, s).
Proof.
  intros H. rewrite peek_nows by (by apply stop_nows). destruct s as [|c s]; [done|]. unfold stop in H.
  rewrite in_toks_elem in H by (by repeat constructor). apply bool_decide_eq_true in H.
  repeat (apply elem_of_cons in H as [->|H]); [done..|by apply elem_of_nil in H].
Qed.

Lemma show_redir_cons r s :
  good_redir r ->
  exists c s', show_redir (r_file r) (r_mode r) (r_fd r) ++ s = c :: s' /\ (c = LT \/ c = GT).
Proof.
  intros [_ [sym Hs]]. unfold show_redir. rewrite Hs. cbn [default].
  unfold redir_sym in Hs. repeat case_match; simplify_eq/=; eauto.
Qed.

Lemma show_redirs_nows rs s : Forall good_redir rs -> nows s -> nows (show_redirs rs ++ s).
Proof.
  intros [|r rs' Hr Hrs] Hs; [done|]. unfold show_redirs. cbn [map concat]. rewrite <-app_assoc.
  fold (show_redirs rs'). destruct (show_redir_cons r (show_redirs rs' ++ s) Hr) as (c & s' & -> & [-> | ->]); by apply nows_cons.
Qed.

Lemma gettoken_redir sym mode fd r :
  redir_sym mode fd = Some sym -> nows r ->
  exists tok q eq, gettoken (sym ++ SP :: r) = (tok, q, eq, r) /\
    forall w, r_mode (redir_of tok w) = mode /\ r_fd (redir_of tok w) = fd /\ r_file (redir_of tok w) = w.
Proof.
  unfold redir_sym, nows. intros Hs Hr.
  repeat case_match; simplify_eq/=; zify_bool; subst; (eexists _, _, _; split;
    [unfold gettoken; cbn; by rewrite Hr|by intros w]).
Qed.

Lemma parseredirs_one n r s :
  good_redir r -> nows s ->
  exists w tok, redir_map word (redir_of tok w) = r /\
    parseredirs (S n) (show_redir (r_file r) (r_mode r) (r_fd r) ++ s) =
    pbind (parseredirs n s) (fun rs s => Parsed (redir_of tok w :: rs) s).
Proof.
  intros Hr Hn. destruct (show_redir_cons r s Hr) as (c & s' & Ec & Hc).
  destruct Hr as [Hw [sym Hs]]. destruct r as [f m d]. cbn [r_file r_mode r_fd] in *.
  assert (Hgw := gettoken_word f s Hw Hn). assert (Hfw : nows (f ++ SP :: s)).
  { destruct Hw as (Hne & Hf & _). destruct f as [|x f]; [done|]. apply Forall_cons in Hf as [Hx _].
    by apply nows_cons, wordchar_ws. }
  destruct (gettoken_redir sym m d (f ++ SP :: s) Hs Hfw) as (tok & q & eq & Hg & Ht).
  exists (f ++ SP :: s, SP :: s), tok. split.
  { destruct (Ht (f ++ SP :: s, SP :: s)) as (E1 & E2 & E3). unfold redir_map. by rewrite E1, E2, E3, word_app. }
  cbn [parseredirs]. rewrite peek_nows by (rewrite Ec; apply nows_cons; by destruct Hc as [-> | ->]).
  assert (Eb : match show_redir f m d ++ s with [] => false | c :: _ => in_toks [LT; GT] c end = true)
    by (rewrite Ec; by destruct Hc as [-> | ->]).
  rewrite Eb. assert (Es : show_redir f m d ++ s = sym ++ SP :: f ++ SP :: s).
  { unfold show_redir. rewrite Hs. cbn [default]. by rewrite <-app_assoc, <-app_comm_cons, <-app_assoc. }
  by rewrite Es, Hg, Hgw.
Qed.

Lemma parseredirs_show n rs s :
  Forall good_redir rs -> nows s -> peek s [LT; GT] = (false, s) -> (length rs < n)%nat ->
  exists rs', parseredirs n (show_redirs rs ++ s) = Parsed rs' s /\ map (redir_map word) rs' = rs.
Proof.
  intros Hrs Hn Hp. revert n. induction Hrs as [|r rs Hr Hrs IH]; intros n Hlen.
  - destruct n as [|n]; [lia|]. exists []. cbn [show_redirs map concat app parseredirs]. by rewrite Hp.
  - destruct n as [|n]; [lia|]. cbn [length] in Hlen. unfold show_redirs. cbn [map concat]. rewrite <-app_assoc.
    fold (show_redirs rs).
    destruct (parseredirs_one n r (show_redirs rs ++ s) Hr (show_redirs_nows rs s Hrs Hn)) as (w & tok & Ew & ->).
    destruct (IH n ltac:(lia)) as (rs' & -> & Em). exists (redir_of tok w :: rs'). cbn. by rewrite Ew, Em.
Qed.

Lemma show_redirs_length rs s : Forall good_redir rs -> (length rs + length s <= length (show_redirs rs ++ s))%nat.
Proof.
  intros Hr. induction Hr as [|r rs Hr Hrs IH]; [done|]. unfold show_redirs. cbn [map concat length].
  rewrite <-app_assoc. fold (show_redirs rs). rewrite length_app. unfold show_redir at 1.
  rewrite length_app. cbn [length]. lia.
Qed.

(** ** Arguments *)

Lemma show_args_cons w argv s : show_args (w :: argv) ++ s = w ++ SP :: show_args argv ++ s.
Proof. unfold show_args. cbn [map concat]. by rewrite <-!app_assoc. Qed.

Lemma good_word_peek w s toks :
  good_word w -> (forall t, t ∈ toks -> t ∈ symbols) -> Forall (fun x => x <> 0) toks ->
  peek (w ++ s) toks = (false, w ++ s).
Proof.
  intros (Hne & Hw & _) Ht Hz. destruct w as [|c w]; [done|]. apply Forall_cons in Hw as [Hc _].
  cbn [app]. rewrite peek_nows by (by apply nows_cons, wordchar_ws). f_equal.
  rewrite in_toks_elem by done. apply bool_decide_false. intros Hin. apply Ht in Hin.
  pose proof (wordchar_ne c Hc) as Hn. rewrite Forall_forall in Hn. by apply (Hn c Hin).
Qed.

Lemma good_word_nows w s : good_word w -> nows (w ++ s).
Proof.
  intros (Hne & Hw & _). destruct w as [|c w]; [done|]. apply Forall_cons in Hw as [Hc _].
  by apply nows_cons, wordchar_ws.
Qed.

Lemma show_args_nows argv s : Forall good_word argv -> nows s -> nows (show_args argv ++ s).
Proof.
  intros [|w argv' Hw Ha] Hs; [done|]. rewrite show_args_cons. by apply good_word_nows.
Qed.

Lemma parseargs_stop n argc s : stop s -> parseargs (S n) argc s = Parsed ([], []) s.
Proof.
  intros Hs. cbn [parseargs]. rewrite peek_nows by (by apply stop_nows).
  destruct s as [|c s]; [done|]. unfold stop in Hs. by rewrite Hs.
Qed.

(** The arguments, then the redirections (if there are arguments). *)
Lemma parseargs_show n argc argv rs s :
  Forall good_word argv -> Forall good_redir rs -> stop s -> (argc + length argv < MAXARGS)%nat ->
  (length argv < n)%nat -> (argv = [] -> rs = []) ->
  exists args rs', parseargs n argc (show_args argv ++ show_redirs rs ++ s) = Parsed (args, rs') s /\
    map word args = argv /\ map (redir_map word) rs' = rs.
Proof.
  intros Ha Hr Hs. revert n argc. induction Ha as [|w argv Hw Ha IH]; intros n argc Hc Hn Hrs;
    (destruct n as [|n]; [lia|]).
  { rewrite Hrs by done. exists [], []. split; [by apply parseargs_stop|done]. }
  cbn [length] in *. rewrite show_args_cons. cbn [parseargs].
  rewrite good_word_peek; [|done|unfold symbols, BAR, RPAREN, AMP, SEMI; set_solver|by repeat constructor].
  assert (Hnw : nows (show_args argv ++ show_redirs rs ++ s))
    by (apply show_args_nows, show_redirs_nows; [done..|by apply stop_nows]).
  rewrite gettoken_word by done. cbn [negb]. change (WORD =? 0) with false.
  change (WORD =? WORD) with true. cbn [negb].
  assert (Em : (MAXARGS <=? S argc)%nat = false) by (apply Nat.leb_gt; lia). rewrite Em.
  set (t := show_args argv ++ show_redirs rs ++ s) in *.
  assert (Hred : exists rs1 rs2 t', parseredirs (S (length t)) t = Parsed rs1 t' /\
    map (redir_map word) rs1 ++ rs2 = rs /\
    exists args rs2', parseargs n (S argc) t' = Parsed (args, rs2') s /\
      map word args = argv /\ map (redir_map word) rs2' = rs2).
  { destruct argv as [|w2 argv].
    - subst t. cbn [show_args map concat app] in *.
      destruct (parseredirs_show (S (length (show_redirs rs ++ s))) rs s) as (rs' & -> & Er); try done.
      { by apply stop_nows. } { by apply stop_redir. }
      { pose proof (show_redirs_length rs s Hr). lia. }
      exists rs', [], s. split_and!; [done|by rewrite app_nil_r|]. exists [], []. destruct n; [lia|].
      split; [by apply parseargs_stop|done].
    - destruct (parseredirs_show (S (length t)) [] t) as (rs' & Ep & Er); [constructor|exact Hnw| |cbn; lia|].
      { subst t. rewrite show_args_cons. apply Forall_cons in Ha as [Hw2 _].
        apply good_word_peek; [done|unfold symbols, LT, GT; set_solver|by repeat constructor]. }
      destruct rs' as [|r rs']; [|done]. exists [], rs, t. split_and!; [exact Ep|done|].
      cbn [length] in *. apply IH; [lia|lia|done]. }
  destruct Hred as (rs1 & rs2 & t' & -> & E12 & args & rs2' & E2 & Ea & Er). cbn [pbind]. rewrite E2. cbn [pbind].
  eexists _, _. split; [done|]. cbn [map]. rewrite word_app, Ea, map_app, Er. done.
Qed.

(** ** Commands *)

Lemma cmd_map_redirs c rs :
  cmd_map word (redirs c rs) = redirs (cmd_map word c) (map (redir_map word) rs).
Proof. revert c. induction rs as [|r rs IH]; intros c; [done|]. exact (IH _). Qed.

(** What the parser does on a printed command at each level: a simple command
    with more redirections, a pipeline, a pipeline with [k] ampersands, a line;
    [rest] is what can follow. *)
Definition ends (toks : list Z) (s : list Z) : Prop :=
  match s with [] => True | c :: _ => in_toks toks c = true end.
Fixpoint backs (k : nat) (c : cmd (list Z)) : cmd (list Z) :=
  match k with O => c | S k => backs k (BACK c) end.
Definition amps (k : nat) : list Z := concat (replicate k [AMP; SP]).

Definition simple_ok (c : cmd (list Z)) : Prop := forall n rs rest,
  Forall good_redir rs -> stop rest ->
  let s := show c 0 ++ show_redirs rs ++ rest in
  (4 * length s + 1 < n)%nat ->
  exists c', parseexec n s = Parsed c' rest /\ cmd_map word c' = redirs c rs.
Definition pipe_ok (c : cmd (list Z)) : Prop := forall n rest,
  ends [RPAREN; AMP; SEMI] rest ->
  let s := show c 1 ++ rest in
  (4 * length s + 2 < n)%nat ->
  exists c', parsepipe n s = Parsed c' rest /\ cmd_map word c' = c.
Definition backs_ok (c : cmd (list Z)) : Prop := forall n k rest,
  ends [RPAREN; SEMI] rest ->
  let s := show c 2 ++ amps k ++ rest in
  (4 * length s + 2 < n)%nat ->
  exists c', pbind (parsepipe n s) (fun c s => parsebacks (S (length s)) c s) = Parsed c' rest /\
    cmd_map word c' = backs k c.
Definition line_ok (c : cmd (list Z)) : Prop := forall n rest,
  ends [RPAREN] rest ->
  let s := show c 3 ++ rest in
  (4 * length s + 3 < n)%nat ->
  exists c', parseline n s = Parsed c' rest /\ cmd_map word c' = c.

Lemma ends_stop toks s :
  (forall t, t ∈ toks -> t ∈ [BAR; RPAREN; AMP; SEMI]) -> Forall (fun x => x <> 0) toks -> ends toks s -> stop s.
Proof.
  intros Ht Hz. destruct s as [|c s]; [done|]. unfold ends, stop. rewrite !in_toks_elem by (done || by repeat constructor).
  rewrite !bool_decide_eq_true. auto.
Qed.

Lemma ends_peek toks toks' s :
  stop s -> ends toks s -> Forall (fun x => x <> 0) toks -> Forall (fun x => x <> 0) toks' ->
  (forall t, t ∈ toks -> t ∉ toks') -> peek s toks' = (false, s).
Proof.
  intros Hst He Hz Hz' Hd. rewrite peek_nows by (by apply stop_nows). destruct s as [|c s]; [done|].
  unfold ends in He. rewrite in_toks_elem in * by done. apply bool_decide_eq_true in He.
  f_equal. apply bool_decide_false. by apply Hd.
Qed.

(** A simple command as a pipeline, a pipeline as one without ampersands, and
    so on. *)
Lemma simple_pipe c : show c 1 = show c 0 -> simple_ok c -> pipe_ok c.
Proof.
  intros E Hc n rest Hr s Hn. destruct n as [|n]; [lia|]. subst s. rewrite E in *.
  assert (Hst : stop rest) by (eapply ends_stop; [|..|exact Hr]; [set_solver|by repeat constructor]).
  destruct (Hc n [] rest) as (c' & Hp & Em); [constructor|done|cbn; lia|].
  change (show_redirs [] ++ rest) with rest in Hp. cbn [parsepipe]. rewrite Hp. cbn [pbind].
  rewrite (ends_peek [RPAREN; AMP; SEMI] [BAR]); try done; [by eexists|by repeat constructor..|].
  unfold RPAREN, AMP, SEMI, BAR. set_solver by lia.
Qed.

Lemma parsebacks_amps n k c rest :
  ends [RPAREN; SEMI] rest -> stop rest -> (k < n)%nat ->
  exists c', parsebacks n c (amps k ++ rest) = Parsed c' rest /\ cmd_map word c' = backs k (cmd_map word c).
Proof.
  intros Hr Hst. revert n c. induction k as [|k IH]; intros n c Hn; (destruct n as [|n]; [lia|]).
  - exists c. split; [|done]. cbn [amps replicate concat app parsebacks].
    rewrite (ends_peek [RPAREN; SEMI] [AMP]); try done; [by repeat constructor..|].
    unfold RPAREN, AMP, SEMI. set_solver by lia.
  - cbn [parsebacks]. unfold amps. cbn [replicate concat]. fold (amps k). cbn [app].
    assert (Hnw : nows (amps k ++ rest)) by (destruct k; [by apply stop_nows|by apply nows_cons]).
    rewrite peek_nows by (by apply nows_cons). change (in_toks [AMP] AMP) with true. cbn iota.
    destruct (gettoken_sym AMP (amps k ++ rest)) as [_ Eg]; [set_solver|done|].
    destruct (gettoken (AMP :: SP :: amps k ++ rest)) as [[[? ?] ?] s']. cbn [snd] in Eg. subst s'.
    apply IH. lia.
Qed.

Lemma amps_ends k rest : ends [RPAREN; SEMI] rest -> ends [RPAREN; AMP; SEMI] (amps k ++ rest).
Proof.
  intros H. destruct k; [|done]. destruct rest as [|c r]; [done|]. unfold ends in *. cbn [amps replicate concat app].
  rewrite in_toks_elem in * by (by repeat constructor). rewrite bool_decide_eq_true in *. set_solver.
Qed.

Lemma pipe_backs c : show c 2 = show c 1 -> pipe_ok c -> backs_ok c.
Proof.
  intros E Hc n k rest Hr s Hn. subst s. rewrite E in *.
  assert (Hst : stop rest) by (eapply ends_stop; [|..|exact Hr]; [set_solver|by repeat constructor]).
  destruct (Hc n (amps k ++ rest)) as (c' & Hp & Em); [by apply amps_ends|done|]. rewrite Hp. cbn [pbind].
  rewrite <-Em. apply parsebacks_amps; try done.
  assert (Hl : (k <= length (amps k))%nat).
  { clear. unfold amps. induction k; cbn [replicate concat]; rewrite ?length_app; cbn [length]; lia. }
  rewrite length_app. lia.
Qed.

Lemma backs_line c : show c 3 = show c 2 -> backs_ok c -> line_ok c.
Proof.
  intros E Hc n rest Hr s Hn. subst s. rewrite E in *. destruct n as [|n]; [lia|].
  assert (Hst : stop rest) by (eapply ends_stop; [|..|exact Hr]; [set_solver|by repeat constructor]).
  destruct (Hc n 0%nat rest) as (c' & Hp & Em); [|cbn; lia|].
  { destruct rest as [|x r]; [done|]. unfold ends in *. rewrite in_toks_elem in * by (by repeat constructor).
    rewrite bool_decide_eq_true in *. set_solver. }
  cbn [amps replicate concat app] in Hp. cbn [parseline].
  destruct (parsepipe n (show c 2 ++ rest)) as [c1 s1| |]; [|done|done]. cbn [pbind] in *. rewrite Hp. cbn [pbind].
  rewrite (ends_peek [RPAREN] [SEMI]); try done; [by exists c'|by repeat constructor..|].
  unfold RPAREN, SEMI. set_solver by lia.
Qed.

Lemma show_nows c lvl s : good_cmd c -> nows s -> nows (show c lvl ++ s).
Proof.
  revert lvl s. induction c as [argv|c IH f m d|l IHl r IHr|l IHl r IHr|c IH]; intros lvl s Hg Hs; cbn [show good_cmd] in *.
  - apply show_args_nows; [apply Hg|done].
  - destruct Hg as (Hc & Hf & Hm). rewrite <-app_assoc. apply IH; [done|].
    destruct (show_redir_cons {| r_file := f; r_mode := m; r_fd := d |} s) as (x & s' & E & Hx); [done|].
    cbn [r_file r_mode r_fd] in E. rewrite E. apply nows_cons. by destruct Hx as [-> | ->].
  - destruct (lvl <? 1)%nat; [by apply nows_cons|]. cbn [paren]. rewrite <-app_assoc.
    apply IHl; [apply Hg|by apply nows_cons].
  - destruct (lvl <? 3)%nat; [by apply nows_cons|]. cbn [paren]. rewrite <-app_assoc.
    apply IHl; [apply Hg|by apply nows_cons].
  - destruct (lvl <? 2)%nat; [by apply nows_cons|]. cbn [paren]. rewrite <-app_assoc.
    apply IH; [done|by apply nows_cons].
Qed.

Ltac in_list :=
  first [done | unfold symbols, BAR, LPAREN, RPAREN, SEMI, AMP, LT, GT; set_solver].

(** One symbol between two parts. *)
Lemma peek_sym c s toks : c ∈ symbols -> in_toks toks c = true -> peek (c :: s) toks = (true, c :: s).
Proof.
  intros Hc Ht. rewrite peek_nows; [by rewrite Ht|]. apply nows_cons.
  repeat (apply elem_of_cons in Hc as [->|Hc]); [done..|by apply elem_of_nil in Hc].
Qed.

Lemma gettoken_rest c r :
  c ∈ [BAR; LPAREN; RPAREN; SEMI; AMP; LT] -> nows r -> exists tok q eq, gettoken (c :: SP :: r) = (tok, q, eq, r).
Proof.
  intros Hc Hr. destruct (gettoken_sym c r Hc Hr) as [_ E].
  destruct (gettoken (c :: SP :: r)) as [[[tok q] eq] r']. cbn in E. subst r'. eauto.
Qed.

(** A line in parentheses is a simple command. *)
Lemma paren_simple c : good_cmd c -> show c 0 = paren true (show c 3) -> line_ok c -> simple_ok c.
Proof.
  intros Hg E Hc n rs rest Hrs Hst s Hn. subst s. rewrite E in *. unfold paren in *. cbn [app] in *.
  rewrite <-!app_assoc in *. cbn [app] in *.
  set (tail := show_redirs rs ++ rest) in *.
  assert (Ht : nows tail) by (apply show_redirs_nows, stop_nows; done).
  assert (Hb : nows (show c 3 ++ RPAREN :: SP :: tail)) by (apply show_nows; [done|by apply nows_cons]).
  destruct n as [|[|n]]; [lia|cbn [length] in Hn; lia|]. cbn [parseexec].
  rewrite peek_sym by in_list. cbn [parseblock]. rewrite peek_sym by in_list.
  destruct (gettoken_rest LPAREN (show c 3 ++ RPAREN :: SP :: tail)) as (t1 & q1 & e1 & ->); [set_solver|done|].
  cbn [negb]. destruct (Hc n (RPAREN :: SP :: tail)) as (c' & -> & Em); [done|cbn [length] in *; lia|]. cbn [pbind].
  rewrite peek_sym by in_list. cbn [negb].
  destruct (gettoken_rest RPAREN tail) as (t2 & q2 & e2 & ->); [set_solver|done|].
  destruct (parseredirs_show (S (length tail)) rs rest) as (rs' & Ep & Er);
    [done|by apply stop_nows|by apply stop_redir| |].
  { pose proof (show_redirs_length rs rest Hrs) as Hlen. fold tail in Hlen. lia. }
  fold tail in Ep. rewrite Ep. cbn [pbind]. exists (redirs c' rs'). split; [done|]. by rewrite cmd_map_redirs, Em, Er.
Qed.

Lemma show_redirs_peek rs rest toks :
  Forall good_redir rs -> stop rest -> (forall t, t ∈ toks -> t = LPAREN) -> Forall (fun x => x <> 0) toks ->
  peek (show_redirs rs ++ rest) toks = (false, show_redirs rs ++ rest).
Proof.
  intros Hrs Hst Ht Hz. pose proof (show_redirs_nows rs rest Hrs (stop_nows rest Hst)) as Hn.
  destruct Hrs as [|r rs Hr Hrs].
  - apply (ends_peek [BAR; RPAREN; AMP; SEMI]); try done; [by repeat constructor|].
    intros t Hin Hin'. apply Ht in Hin'. subst t. revert Hin. unfold BAR, RPAREN, AMP, SEMI, LPAREN. set_solver by lia.
  - revert Hn. unfold show_redirs. cbn [map concat]. rewrite <-app_assoc. fold (show_redirs rs). intros Hn.
    destruct (show_redir_cons r (show_redirs rs ++ rest) Hr) as (c & s' & E & Hc). rewrite E in *.
    rewrite peek_nows by done. f_equal. rewrite in_toks_elem by done. apply bool_decide_false.
    intros Hin%Ht. by destruct Hc as [-> | ->].
Qed.

Lemma exec_simple argv : (length argv < MAXARGS)%nat -> Forall good_word argv -> simple_ok (EXEC argv).
Proof.
  intros Hl Ha n rs rest Hrs Hst s Hn. destruct n as [|n]; [lia|]. cbn [show] in s.
  assert (Hs : nows s) by (apply show_args_nows, show_redirs_nows; [done..|by apply stop_nows]).
  cbn [parseexec]. destruct Ha as [|w argv Hw Ha].
  - cbn [show_args map concat app] in s. subst s. rewrite show_redirs_peek by in_list || by repeat constructor.
    destruct (parseredirs_show (S (length (show_redirs rs ++ rest))) rs rest) as (rs' & -> & Er);
      [done|by apply stop_nows|by apply stop_redir| |].
    { pose proof (show_redirs_length rs rest Hrs). lia. }
    cbn [pbind]. rewrite parseargs_stop by done. cbn [pbind]. rewrite app_nil_r. eexists. split; [done|].
    by rewrite cmd_map_redirs, Er.
  - assert (Hp : forall toks, (forall t, t ∈ toks -> t ∈ symbols) -> Forall (fun x => x <> 0) toks ->
      peek s toks = (false, s)).
    { intros toks Ht Hz. subst s. rewrite show_args_cons. by apply good_word_peek. }
    rewrite Hp by in_list || by repeat constructor.
    destruct (parseredirs_show (S (length s)) [] s) as (rs0 & Ep0 & E0);
      [constructor|done|apply Hp; in_list || by repeat constructor|cbn; lia|].
    change (show_redirs [] ++ s) with s in Ep0. rewrite Ep0. destruct rs0; [|done]. cbn [pbind].
    destruct (parseargs_show (S (length s)) 0 (w :: argv) rs rest) as (args & rs' & E & Ea & Er); try done.
    { by constructor. }
    { subst s. unfold show_args. rewrite length_app. clear.
      assert (forall l : list (list Z), (length l <= length (concat (map (fun w => w ++ [SP]) l)))%nat) as H.
      { induction l as [|x l IH]; cbn [map concat length]; [lia|]. rewrite !length_app. cbn. lia. }
      specialize (H (w :: argv)). lia. }
    fold s in E. rewrite E. cbn [pbind]. eexists. split; [done|]. by rewrite cmd_map_redirs; cbn [cmd_map app]; rewrite Ea, Er.
Qed.

Lemma redir_simple c f m d :
  good_word f -> is_Some (redir_sym m d) -> simple_ok c -> simple_ok (REDIR c f m d).
Proof.
  intros Hf Hm Hc n rs rest Hrs Hst s Hn.
  specialize (Hc n ({| r_file := f; r_mode := m; r_fd := d |} :: rs) rest). cbv zeta in Hc.
  assert (E : show (REDIR c f m d) 0 ++ show_redirs rs ++ rest =
    show c 0 ++ show_redirs ({| r_file := f; r_mode := m; r_fd := d |} :: rs) ++ rest).
  { cbn [show]. unfold show_redirs. cbn [map concat r_file r_mode r_fd]. by rewrite <-!app_assoc. }
  subst s. rewrite E in *. apply Hc; [by constructor|done|done].
Qed.

Lemma pipe_pipe l r : good_cmd r -> simple_ok l -> pipe_ok r -> pipe_ok (PIPE l r).
Proof.
  intros Hg Hl Hr n rest He s Hn. subst s. cbn [show paren Nat.ltb Nat.leb app] in *. rewrite <-!app_assoc in *.
  cbn [app] in *. destruct n as [|n]; [lia|]. cbn [parsepipe].
  assert (Hst : stop rest) by (eapply ends_stop; [|..|exact He]; [set_solver|by repeat constructor]).
  destruct (Hl n [] (BAR :: SP :: show r 1 ++ rest)) as (l' & Ep & El); [constructor|done|cbn [show_redirs map concat app]; lia|].
  cbn [show_redirs map concat app] in Ep. rewrite Ep. cbn [pbind]. rewrite peek_sym by in_list.
  destruct (gettoken_rest BAR (show r 1 ++ rest)) as (t & q & e & ->); [set_solver|by apply show_nows, stop_nows|].
  rewrite length_app in Hn. cbn [length] in Hn.
  destruct (Hr n rest) as (r' & -> & Er); [done|lia|]. cbn [pbind]. eexists. split; [done|]. cbn. by rewrite El, Er.
Qed.

Lemma back_backs c : backs_ok c -> backs_ok (BACK c).
Proof.
  intros Hc n k rest He s Hn. specialize (Hc n (S k) rest He). cbv zeta in Hc. subst s.
  cbn [show paren Nat.ltb Nat.leb] in *. rewrite <-!app_assoc in *. unfold amps in Hc. cbn [replicate concat] in Hc.
  fold (amps k) in Hc. rewrite <-app_assoc in Hc. by apply Hc.
Qed.

Lemma list_line l r : good_cmd r -> backs_ok l -> line_ok r -> line_ok (LIST l r).
Proof.
  intros Hg Hl Hr n rest He s Hn. subst s. cbn [show paren Nat.ltb Nat.leb app] in *. rewrite <-!app_assoc in *.
  cbn [app] in *. destruct n as [|n]; [lia|]. cbn [parseline].
  assert (Hst : stop rest) by (eapply ends_stop; [|..|exact He]; [set_solver|by repeat constructor]).
  destruct (Hl n 0%nat (SEMI :: SP :: show r 3 ++ rest)) as (l' & Ep & El); [done|cbn [amps replicate concat app]; lia|].
  cbn [amps replicate concat app] in Ep. destruct (parsepipe n _) as [c1 s1| |]; [|done|done]. cbn [pbind] in *.
  rewrite Ep. cbn [pbind]. rewrite peek_sym by in_list.
  destruct (gettoken_rest SEMI (show r 3 ++ rest)) as (t & q & e & ->); [set_solver|by apply show_nows, stop_nows|].
  rewrite length_app in Hn. cbn [length] in Hn.
  destruct (Hr n rest) as (r' & -> & Er); [done|lia|]. cbn [pbind]. eexists. split; [done|]. cbn.
  cbn [backs] in El. by rewrite El, Er.
Qed.

Lemma show_ok c : good_cmd c -> simple_ok c /\ pipe_ok c /\ backs_ok c /\ line_ok c.
Proof.
  induction c as [argv|c IH f m d|l IHl r IHr|l IHl r IHr|c IH]; intros Hg.
  - assert (H0 : simple_ok (EXEC argv)) by (destruct Hg; by apply exec_simple).
    assert (H1 := simple_pipe (EXEC argv) eq_refl H0). assert (H2 := pipe_backs (EXEC argv) eq_refl H1).
    assert (H3 := backs_line (EXEC argv) eq_refl H2). done.
  - destruct Hg as (Hc & Hf & Hm). destruct (IH Hc) as (I0 & _).
    assert (H0 := redir_simple c f m d Hf Hm I0). assert (H1 := simple_pipe (REDIR c f m d) eq_refl H0).
    assert (H2 := pipe_backs (REDIR c f m d) eq_refl H1). assert (H3 := backs_line (REDIR c f m d) eq_refl H2). done.
  - destruct (IHl (proj1 Hg)) as (L0 & _). destruct (IHr (proj2 Hg)) as (_ & R1 & _).
    assert (H1 := pipe_pipe l r (proj2 Hg) L0 R1). assert (H2 := pipe_backs (PIPE l r) eq_refl H1).
    assert (H3 := backs_line (PIPE l r) eq_refl H2).
    assert (H0 := paren_simple (PIPE l r) Hg eq_refl H3). done.
  - destruct (IHl (proj1 Hg)) as (_ & _ & L2 & _). destruct (IHr (proj2 Hg)) as (_ & _ & _ & R3).
    assert (H3 := list_line l r (proj2 Hg) L2 R3). assert (H0 := paren_simple (LIST l r) Hg eq_refl H3).
    assert (H1 := simple_pipe (LIST l r) eq_refl H0). assert (H2 := pipe_backs (LIST l r) eq_refl H1). done.
  - destruct (IH Hg) as (_ & _ & I2 & _). assert (H2 := back_backs c I2). assert (H3 := backs_line (BACK c) eq_refl H2).
    assert (H0 := paren_simple (BACK c) Hg eq_refl H3). assert (H1 := simple_pipe (BACK c) eq_refl H0). done.
Qed.

(** ** Theorem *)

Lemma show_nonzero c lvl : good_cmd c -> Forall (fun x => x <> 0) (show c lvl).
Proof.
  assert (Hp : forall b s, Forall (fun x => x <> 0) s -> Forall (fun x => x <> 0) (paren b s)).
  { intros [] s Hs; [|done]. repeat constructor; try done. apply Forall_app. split; [done|by repeat constructor]. }
  revert lvl. induction c as [argv|c IH f m d|l IHl r IHr|l IHl r IHr|c IH]; intros lvl Hg; cbn [show good_cmd] in *.
  - destruct Hg as [_ Ha]. unfold show_args. induction Ha as [|w argv (_ & _ & Hw) Ha IH]; cbn [map concat]; [done|].
    rewrite !Forall_app. split_and!; [done|by repeat constructor|done].
  - destruct Hg as (Hc & (_ & _ & Hf) & [sym Hs]). apply Forall_app. split; [by apply IH|]. unfold show_redir. rewrite Hs.
    cbn [default]. apply Forall_app. split; [|constructor; [done|apply Forall_app; split; [done|by repeat constructor]]].
    unfold redir_sym in Hs. repeat case_match; simplify_eq/=; by repeat constructor.
  - apply Hp. rewrite !Forall_app. split_and!; [apply IHl, Hg|by repeat constructor|apply IHr, Hg].
  - apply Hp. rewrite !Forall_app. split_and!; [apply IHl, Hg|by repeat constructor|apply IHr, Hg].
  - apply Hp. rewrite !Forall_app. split_and!; [by apply IH|by repeat constructor].
Qed.

(** Claim C29: the shell reads back every command it can express: parsing the
    printed command gives the same tree with the same words, so pipelines bind
    tighter than ampersands and these tighter than semicolons, pipelines and
    lists associate to the right, redirections apply to the simple command or
    the parenthesised line before them, and at most nine arguments are taken. *)
Theorem parsecmd_show (c : cmd (list Z)) :
  good_cmd c ->
  exists c' line', parsecmd (show c 3) = Parsed (c', line') [] /\ cmd_map word c' = c.
Proof.
  intros Hg. unfold parsecmd.
  assert (Ec : cstr (show c 3) = show c 3).
  { pose proof (show_nonzero c 3 Hg) as Hn. induction Hn as [|x s Hx Hs IH]; cbn; [done|].
    rewrite (proj2 (Z.eqb_neq x 0)) by done. by rewrite IH. }
  rewrite Ec. destruct (show_ok c Hg) as (_ & _ & _ & H3).
  destruct (H3 (parse_fuel (show c 3)) []) as (c' & Ep & Em); [done|rewrite app_nil_r; unfold parse_fuel; lia|].
  rewrite app_nil_r in Ep. rewrite Ep. cbn [pbind peek skip_ws]. by eexists c', _.
Qed.

(** [(a b; c) < f | d &] *)
Lemma parsecmd_show_witness :
  let c := BACK (PIPE (REDIR (LIST (EXEC [[97]; [98]]) (EXEC [[99]])) [102] O_RDONLY 0) (EXEC [[100]])) in
  exists c' line', parsecmd (show c 3) = Parsed (c', line') [] /\ cmd_map word c' = c.
Proof.
  intros c. apply parsecmd_show. cbn.
  assert (Hw : forall x, wordchar x = true -> x <> 0 -> good_word [x]).
  { intros x H1 H2. split; [discriminate|]. split; repeat constructor; assumption. }
  refine (conj (conj (conj (conj _ _) (conj _ _)) (conj _ _)) (conj _ _)); unfold MAXARGS; try lia.
  - constructor; [|constructor; [|constructor]]; apply Hw; (reflexivity || discriminate).
  - constructor; [|constructor]. apply Hw; (reflexivity || discriminate).
  - apply Hw; (reflexivity || discriminate).
  - eexists. reflexivity.
  - constructor; [|constructor]. apply Hw; (reflexivity || discriminate).
Defined.
