(* ===== verification/ShRun.v ===== *)
(** * Running commands: [runcmd], [getcmd], [fork1], [panic] and [main] of
    user/sh.c

    The shell as the interaction tree of its system calls.  [runcmd] is run by a
    tree of processes, each with its own descriptors; it is shown that whatever
    succeeds and fails, the programs this tree executes, and the descriptors
    they start with, are those the command means: redirections name the file,
    the two sides of a pipe share it as output and input, and no other
    descriptor is left open in them. *)

From ITree Require Import ITree.
From S2P Require Import Prelude Cstring VfsState VfsFile Ulib Sh Syscalls UserProg.

Module ShRun.
Import Sh.

Definition panic {R} (s : list Z) : prog R :=
  fprintf 2 (bytes "%s" ++ NLs) [Str s] ;;;
  exit 1.

Definition fork1 : prog Z :=
  let* pid := sys Fork in
  if pid =? -1 then panic (bytes "fork") else Ret pid.

(** It never returns, so what follows a call of it is the other branch. *)
Fixpoint runcmd (c : cmd (list Z)) : prog unit :=
  match c with
  | EXEC [] => exit 1
  | EXEC (path :: args) =>
      sys (Exec path (path :: args)) ;;;
      fprintf 2 (bytes "exec %s failed" ++ NLs) [Str path] ;;;
      exit 0
  | REDIR c file mode fd =>
      sys (Close fd) ;;;
      let* r := sys (Open file mode) in
      if r <? 0 then
        fprintf 2 (bytes "open %s failed" ++ NLs) [Str file] ;;;
        exit 1
      else runcmd c
  | LIST l r =>
      let* pid := fork1 in
      if pid =? 0 then runcmd l
      else
        sys Wait ;;;
        runcmd r
  | PIPE l r =>
      let* (x, (p0, p1)) := sys Pipe in
      if x <? 0 then panic (bytes "pipe")
      else
        let* pid := fork1 in
        if pid =? 0 then
          sys (Close 1) ;;;
          sys (Dup p1) ;;;
          sys (Close p0) ;;;
          sys (Close p1) ;;;
          runcmd l
        else
          let* pid := fork1 in
          if pid =? 0 then
            sys (Close 0) ;;;
            sys (Dup p0) ;;;
            sys (Close p0) ;;;
            sys (Close p1) ;;;
            runcmd r
          else
            sys (Close p0) ;;;
            sys (Close p1) ;;;
            sys Wait ;;;
            sys Wait ;;;
            exit 0
  | BACK c =>
      let* pid := fork1 in
      if pid =? 0 then runcmd c else exit 0
  end.

(** [gets] of user/ulib.c for [n] more bytes: the bytes stored, with the nul. *)
Fixpoint gets_loop (n : nat) : prog (list Z) :=
  match n with
  | O => Ret [0]
  | S n =>
      let* (cc, l) := sys (Read 0 1) in
      if cc <? 1 then Ret [0]
      else
        let c := l !!! 0%nat in
        if (c =? Ulib.NL) || (c =? Ulib.CR) then Ret [c; 0]
        else
          let* rest := gets_loop n in
          Ret (c :: rest)
  end.

(** [None] for the result -1. *)
Definition getcmd (nbuf : nat) : prog (option (list Z)) :=
  sys (Write 2 (bytes "$ ")) ;;;
  let* line := gets_loop (nbuf - 1) in
  let buf := line ++ replicate (nbuf - length line) 0 in
  Ret (if buf !!! 0%nat =? 0 then None else Some buf).

(** [runcmd(parsecmd(buf))]; the characters left over are not printed before the
    panic for a syntax error. *)
Definition run_line (buf : list Z) : prog unit :=
  match parsecmd buf with
  | Parsed (c, line) _ => runcmd (cmd_map (string_at line) c)
  | Panic msg => panic (bytes msg)
  | NoFuel => Ret tt
  end.

Definition is_cd (buf : list Z) : bool :=
  (buf !!! 0%nat =? 99) && (buf !!! 1%nat =? 100) && (buf !!! 2%nat =? 32).

Definition main : prog unit :=
  ITree.iter (fun _ : unit =>
    let* fd := sys (Open UserProg.console O_RDWR) in
    if fd <? 0 then Ret (inr tt)
    else if 3 <=? fd then
      sys (Close fd) ;;;
      Ret (inr tt)
    else Ret (inl tt)) tt ;;;
  ITree.iter (fun _ : unit =>
    let* o := getcmd 100 in
    match o with
    | None => Ret (inr tt)
    | Some buf =>
        if is_cd buf then
          let path := drop 3 (removelast (cstr buf)) in
          let* r := sys (Chdir path) in
          (if r <? 0 then fprintf 2 (bytes "cannot cd %s" ++ NLs) [Str path] else Ret tt) ;;;
          Ret (inl tt)
        else
          let* pid := fork1 in
          if pid =? 0 then
            run_line buf ;;;
            Ret (inr tt)
          else
            sys Wait ;;;
            Ret (inl tt)
    end) tt ;;;
  exit 0.

(** ** Processes and descriptors *)

(** What a descriptor refers to; a pipe is named by the place in the tree of
    processes where it was made. *)
Inductive desc : Type :=
| DFile (path : list Z) (mode : Z)
| DRead (pipe : list nat)
| DWrite (pipe : list nat).

Notation fds := (gmap Z desc).
Definition NOFILE : Z := 16.

Definition is_lowest (F : fds) (fd : Z) : Prop :=
  0 <= fd /\ F !! fd = None /\ forall k, 0 <= k < fd -> is_Some (F !! k).

(** What a tree of processes shows: programs started, with their arguments and
    descriptors, and calls refused. *)
Inductive item : Type :=
| Launch (path : list Z) (argv : list (list Z)) (F : fds)
| Refused.

(** [spawns P t F here]: the process [t] at place [here] with descriptors [F],
    and its children, end, and what they show satisfies [P], in every run.
    Descriptors are given out lowest first; [open], [fork], [pipe] and [exec]
    may fail at any time, [dup] only for lack of a descriptor. *)
Inductive spawns : (list item -> Prop) -> itree' progE unit -> fds -> list nat -> Prop :=
| sp_tau P t F h : spawns P (observe t) F h -> spawns P (TauF t) F h
| sp_exit (P : list item -> Prop) st k F h : P [] -> spawns P (VisF (Exit st) k) F h
| sp_write P fd l k F h :
    (forall r, spawns P (observe (k r)) F h) -> spawns P (VisF (Sys (Write fd l)) k) F h
| sp_wait P k F h :
    (forall r, spawns P (observe (k r)) F h) -> spawns P (VisF (Sys Wait) k) F h
| sp_close P fd k F h :
    (forall r, spawns P (observe (k r)) (delete fd F) h) -> spawns P (VisF (Sys (Close fd)) k) F h
| sp_open P path mode k F h :
    (forall fd, is_lowest F fd -> spawns P (observe (k fd)) (<[fd := DFile path mode]> F) h) ->
    (forall r, r < 0 -> spawns (fun L => P (Refused :: L)) (observe (k r)) F h) ->
    spawns P (VisF (Sys (Open path mode)) k) F h
| sp_dup P fd k F h :
    (forall d fd', F !! fd = Some d -> is_lowest F fd' -> fd' < NOFILE ->
       spawns P (observe (k fd')) (<[fd' := d]> F) h) ->
    (F !! fd = None \/ (exists fd', is_lowest F fd' /\ NOFILE <= fd') ->
       forall r, r < 0 -> spawns (fun L => P (Refused :: L)) (observe (k r)) F h) ->
    spawns P (VisF (Sys (Dup fd)) k) F h
| sp_pipe P k F h :
    (forall p0 p1, is_lowest F p0 -> is_lowest (<[p0 := DRead h]> F) p1 ->
       spawns P (observe (k (0, (p0, p1)))) (<[p1 := DWrite h]> (<[p0 := DRead h]> F)) (0%nat :: h)) ->
    (forall r p, r < 0 -> spawns (fun L => P (Refused :: L)) (observe (k (r, p))) F h) ->
    spawns P (VisF (Sys Pipe) k) F h
| sp_fork (P P1 P2 : list item -> Prop) k F h :
    spawns P1 (observe (k 0)) F (1%nat :: h) ->
    (forall pid, 0 < pid -> spawns P2 (observe (k pid)) F (2%nat :: h)) ->
    (forall L1 L2, P1 L1 -> P2 L2 -> P (L1 ++ L2)) ->
    spawns (fun L => P (Refused :: L)) (observe (k (-1))) F h ->
    spawns P (VisF (Sys Fork) k) F h
| sp_exec (P : list item -> Prop) path argv k F h :
    P [Launch path argv F] ->
    spawns (fun L => P (Refused :: L)) (observe (k (-1))) F h ->
    spawns P (VisF (Sys (Exec path argv)) k) F h.

(** ** What a command means *)

(** The programs command [c] starts at place [h] with descriptors [F]. *)
Fixpoint launches (c : cmd (list Z)) (F : fds) (h : list nat) : list item :=
  match c with
  | EXEC [] => []
  | EXEC (path :: args) => [Launch path (path :: args) F]
  | REDIR c file mode fd => launches c (<[fd := DFile file mode]> F) h
  | LIST l r => launches l F (1%nat :: h) ++ launches r F (2%nat :: h)
  | PIPE l r =>
      launches l (<[1 := DWrite h]> F) (1%nat :: 0%nat :: h) ++
      launches r (<[0 := DRead h]> F) (1%nat :: 2%nat :: 0%nat :: h)
  | BACK c => launches c F (1%nat :: h)
  end.

Definition is_launch (i : item) : Prop := match i with Launch _ _ _ => True | Refused => False end.
#[global] Instance is_launch_dec i : Decision (is_launch i).
Proof. destruct i; solve_decision. Defined.

(** Everything that was started is meant, and everything that is meant was
    started unless a call was refused. *)
Definition fits (want L : list item) : Prop :=
  filter is_launch L `sublist_of` want /\ (Refused ∉ L -> L = want).

Lemma fits_refused want L : fits want L -> fits want (Refused :: L).
Proof. intros [H1 _]. split; [by rewrite filter_cons_False by (cbn; tauto)|set_solver]. Qed.

Lemma fits_stop want : fits want [Refused].
Proof. split; [apply sublist_nil_l|set_solver]. Qed.

Lemma fits_app w1 w2 L1 L2 : fits w1 L1 -> fits w2 L2 -> fits (w1 ++ w2) (L1 ++ L2).
Proof.
  intros [S1 E1] [S2 E2]. split; [rewrite filter_app; by apply sublist_app|].
  intros Hn. rewrite E1, E2; set_solver.
Qed.

Lemma fits_launch p a F : fits [Launch p a F] [Launch p a F].
Proof. by split. Qed.

(** Redirections are of descriptors 0 and 1, as the parser makes them. *)
Fixpoint redirs_ok {W} (c : cmd W) : Prop :=
  match c with
  | EXEC _ => True
  | REDIR c _ _ fd => (fd = 0 \/ fd = 1) /\ redirs_ok c
  | LIST l r | PIPE l r => redirs_ok l /\ redirs_ok r
  | BACK c => redirs_ok c
  end.

(** Descriptors 0, 1 and 2 are open. *)
Definition std (F : fds) : Prop := forall k, 0 <= k < 3 -> is_Some (F !! k).

Lemma std_insert F k d : std F -> std (<[k := d]> F).
Proof. intros H j Hj. destruct (decide (k = j)) as [->|]; [by rewrite lookup_insert_eq|rewrite lookup_insert_ne by done]. by apply H. Qed.

(** A descriptor of the three that was just closed is the lowest. *)
Lemma lowest_closed F k fd : std F -> 0 <= k < 3 -> is_lowest (delete k F) fd -> fd = k.
Proof.
  intros Hs Hk (H0 & Hn & Hl). destruct (Z.lt_trichotomy fd k) as [Hlt|[?|Hgt]]; [|done|].
  - rewrite lookup_delete_ne in Hn by lia. destruct (Hs fd ltac:(lia)). congruence.
  - destruct (Hl k ltac:(lia)) as [d Hd]. by rewrite lookup_delete_eq in Hd.
Qed.

Lemma lowest_std F fd : std F -> is_lowest F fd -> 3 <= fd.
Proof.
  intros Hs (H0 & Hn & _). destruct (decide (fd < 3)); [|lia]. destruct (Hs fd ltac:(lia)). congruence.
Qed.

Section Rules.
Implicit Types (P : list item -> Prop) (F : fds) (h : list nat).

Lemma spawns_putcs P fd l k F h :
  spawns P (observe k) F h -> spawns P (observe (putcs fd l ;;; k)) F h.
Proof.
  intros Hk. induction l as [|c l IH]; cbn [putcs]; rewrite observe_bind; [exact Hk|].
  rewrite observe_bind. cbn. apply sp_write. intros r. rewrite observe_bind in IH. rewrite !observe_bind. exact IH.
Qed.

Lemma spawns_message P fmt args st F h : P [] -> spawns P (observe (fprintf 2 fmt args ;;; exit st)) F h.
Proof. intros HP. apply spawns_putcs. unfold exit. rewrite observe_bind. by apply sp_exit. Qed.

(** The first call of a sequence. *)
Lemma spawns_call {X} P (c : sysE X) (k : X -> prog unit) F h :
  (forall (k' : X -> prog unit), (forall x, observe (k' x) = observe (k x)) -> spawns P (VisF (Sys c) k') F h) ->
  spawns P (observe (ITree.bind (sys c) k)) F h.
Proof. intros H. rewrite observe_bind. apply H. intros x. by rewrite observe_bind. Qed.

Lemma spawns_close P fd (k : prog unit) F h :
  spawns P (observe k) (delete fd F) h -> spawns P (observe (sys (Close fd) ;;; k)) F h.
Proof. intros H. apply spawns_call. intros k' Hk'. apply sp_close. intros r. by rewrite Hk'. Qed.

Lemma spawns_wait P (k : prog unit) F h :
  spawns P (observe k) F h -> spawns P (observe (sys Wait ;;; k)) F h.
Proof. intros H. apply spawns_call. intros k' Hk'. apply sp_wait. intros r. by rewrite Hk'. Qed.

Lemma spawns_dup P fd d (k : prog unit) F n h :
  F !! fd = Some d -> std F -> 0 <= n < 3 -> fd <> n ->
  spawns P (observe k) (<[n := d]> (delete n F)) h ->
  spawns P (observe (sys (Dup fd) ;;; k)) (delete n F) h.
Proof.
  intros Hfd Hs Hn Hne Hk. apply spawns_call. intros k' Hk'. apply sp_dup.
  - intros d' fd' Hd' Hl _. rewrite lookup_delete_ne in Hd' by done. rewrite (lowest_closed F n fd' Hs Hn Hl), Hk'.
    by simplify_eq.
  - rewrite lookup_delete_ne by done. intros [Hno|(fd' & Hl & Hge)]; [congruence|].
    rewrite (lowest_closed F n fd' Hs Hn Hl) in Hge. unfold NOFILE in Hge. lia.
Qed.

Lemma spawns_panic {R} P s (k : R -> prog unit) F h :
  P [] -> spawns P (observe (ITree.bind (panic s) k)) F h.
Proof.
  intros HP. unfold panic, fprintf. generalize (format (bytes "%s" ++ NLs) [Str s]) as l. intros l.
  induction l as [|c l IH]; cbn [putcs].
  - rewrite !observe_bind. by apply sp_exit.
  - rewrite !observe_bind. apply sp_write. intros r. rewrite !observe_bind in *. exact IH.
Qed.

Lemma spawns_fork1 w1 w2 (k : Z -> prog unit) F h :
  spawns (fits w1) (observe (k 0)) F (1%nat :: h) ->
  (forall pid, 0 < pid -> spawns (fits w2) (observe (k pid)) F (2%nat :: h)) ->
  spawns (fits (w1 ++ w2)) (observe (ITree.bind fork1 k)) F h.
Proof.
  intros H1 H2. unfold fork1. rewrite !observe_bind. apply (sp_fork _ (fits w1) (fits w2)).
  - rewrite !observe_bind. exact H1.
  - intros pid Hp. rewrite !observe_bind. change (observe (Ret pid : prog Z)) with (RetF pid : itree' progE Z).
    cbv iota beta. rewrite (proj2 (Z.eqb_neq pid (-1))) by lia. by apply H2.
  - apply fits_app.
  - pose proof (spawns_panic (fun L => fits (w1 ++ w2) (Refused :: L)) (bytes "fork") k F h (fits_stop _)) as Hp.
    rewrite !observe_bind. rewrite !observe_bind in Hp. exact Hp.
Qed.
End Rules.

(** ** [runcmd] *)

(** The descriptors of the two sides of a pipe. *)
Lemma pipe_side F h p0 p1 n d :
  std F -> 0 <= n < 3 -> is_lowest F p0 -> is_lowest (<[p0 := DRead h]> F) p1 ->
  delete p1 (delete p0 (<[n := d]> (delete n (<[p1 := DWrite h]> (<[p0 := DRead h]> F))))) = <[n := d]> F.
Proof.
  intros Hs Hn Hl0 Hl1. pose proof (lowest_std _ _ Hs Hl0). pose proof (lowest_std _ _ (std_insert _ p0 (DRead h) Hs) Hl1).
  destruct Hl0 as (_ & N0 & _). destruct Hl1 as (_ & N1 & _).
  assert (p0 <> p1) by (intros ->; by rewrite lookup_insert_eq in N1). rewrite lookup_insert_ne in N1 by done.
  apply map_eq. intros k. destruct (decide (k = p1)) as [->|]; [by rewrite lookup_delete_eq, lookup_insert_ne by lia|].
  rewrite lookup_delete_ne by done. destruct (decide (k = p0)) as [->|]; [by rewrite lookup_delete_eq, lookup_insert_ne by lia|].
  rewrite lookup_delete_ne by done. destruct (decide (k = n)) as [->|]; [by rewrite !lookup_insert_eq|].
  by rewrite lookup_insert_ne, lookup_delete_ne, !lookup_insert_ne by done.
Qed.

Lemma pipe_child F h p0 p1 n fd d w (k : prog unit) h' :
  std F -> 0 <= n < 3 -> is_lowest F p0 -> is_lowest (<[p0 := DRead h]> F) p1 ->
  (fd = p0 /\ d = DRead h \/ fd = p1 /\ d = DWrite h) ->
  spawns (fits w) (observe k) (<[n := d]> F) h' ->
  spawns (fits w) (observe (sys (Close n) ;;; sys (Dup fd) ;;; sys (Close p0) ;;; sys (Close p1) ;;; k))
    (<[p1 := DWrite h]> (<[p0 := DRead h]> F)) h'.
Proof.
  intros Hs Hn Hl0 Hl1 Hfd Hk. pose proof (lowest_std _ _ Hs Hl0).
  pose proof (lowest_std _ _ (std_insert _ p0 (DRead h) Hs) Hl1).
  assert (p0 <> p1) by (intros ->; destruct Hl1 as (_ & N1 & _); by rewrite lookup_insert_eq in N1).
  apply spawns_close. apply (spawns_dup _ _ d).
  - destruct Hfd as [[-> ->]|[-> ->]]; [by rewrite lookup_insert_ne, lookup_insert_eq by done|by rewrite lookup_insert_eq].
  - by do 2 apply std_insert.
  - done.
  - lia.
  - apply spawns_close, spawns_close. by rewrite pipe_side.
Qed.

Lemma runcmd_launches c F h :
  redirs_ok c -> std F -> spawns (fits (launches c F h)) (observe (runcmd c)) F h.
Proof.
  revert F h. induction c as [argv|c IH file mode fd|l IHl r IHr|l IHl r IHr|c IH]; intros F h Hc Hs; cbn [runcmd launches].
  - destruct argv as [|path args].
    + unfold exit. rewrite observe_bind. apply sp_exit. split; [done|set_solver].
    + apply spawns_call. intros k' Hk'. apply sp_exec; [apply fits_launch|]. rewrite Hk'.
      apply spawns_message, fits_stop.
  - destruct Hc as [Hfd Hc]. apply spawns_close, spawns_call. intros k' Hk'. apply sp_open.
    + intros fd' Hl. rewrite (lowest_closed F fd fd' Hs ltac:(lia) Hl), Hk', insert_delete_eq.
      rewrite (proj2 (Z.ltb_ge _ _)) by lia. apply IH; [done|by apply std_insert].
    + intros x Hx. rewrite Hk', (proj2 (Z.ltb_lt _ _) Hx). apply spawns_message, fits_stop.
  - destruct Hc as [Hcl Hcr]. apply spawns_call. intros k' Hk'. apply sp_pipe.
    + intros p0 p1 Hl0 Hl1. rewrite Hk'. change (0 <? 0) with false. apply spawns_fork1.
      * change (0 =? 0) with true. eapply pipe_child; eauto; [lia|]. apply IHl; [done|by apply std_insert].
      * intros pid Hp. rewrite (proj2 (Z.eqb_neq pid 0)) by lia.
        rewrite <- (app_nil_r (launches r _ _)). apply spawns_fork1.
        -- change (0 =? 0) with true. eapply pipe_child; eauto; [lia|]. apply IHr; [done|by apply std_insert].
        -- intros pid' Hp'. rewrite (proj2 (Z.eqb_neq pid' 0)) by lia.
           do 2 apply spawns_close. do 2 apply spawns_wait. unfold exit. rewrite observe_bind. apply sp_exit.
           split; [done|set_solver].
    + intros x [p0 p1] Hx. rewrite Hk', (proj2 (Z.ltb_lt _ _) Hx).
      pose proof (spawns_message (fun L => fits (launches l (<[1:=DWrite h]> F) (1%nat :: 0%nat :: h) ++
        launches r (<[0:=DRead h]> F) (1%nat :: 2%nat :: 0%nat :: h)) (Refused :: L)) (bytes "%s" ++ NLs) [Str (bytes "pipe")] 1 F h (fits_stop _)) as Hp.
      exact Hp.
  - destruct Hc as [Hcl Hcr]. apply spawns_fork1; [by apply IHl|]. intros pid Hp.
    rewrite (proj2 (Z.eqb_neq pid 0)) by lia. apply spawns_wait. by apply IHr.
  - rewrite <- (app_nil_r (launches c F _)). apply spawns_fork1; [by apply IH|]. intros pid Hp.
    rewrite (proj2 (Z.eqb_neq pid 0)) by lia. unfold exit. rewrite observe_bind. apply sp_exit.
    split; [done|set_solver].
Qed.

(** ** The command of a line *)

Definition gives {A} (P : A -> Prop) (m : result A) : Prop :=
  match m with Parsed a _ => P a | _ => True end.

Lemma gives_bind {A B} (P : A -> Prop) (Q : B -> Prop) (m : result A) (k : A -> list Z -> result B) :
  gives P m -> (forall a s, P a -> gives Q (k a s)) -> gives Q (pbind m k).
Proof. destruct m; cbn; auto. Qed.

Ltac tokens :=
  repeat match goal with
  | |- context [peek ?s ?t] => destruct (peek s t) as [[] ?]; cbn [negb]
  | |- context [gettoken ?s] => destruct (gettoken s) as [[[? ?] ?] ?]
  end.

Definition fd_ok (r : redir ptrs) : Prop := r_fd r = 0 \/ r_fd r = 1.

Lemma redirs_redirs_ok (c : cmd ptrs) rs : redirs_ok c -> Forall fd_ok rs -> redirs_ok (redirs c rs).
Proof. intros Hc Hr. revert c Hc. induction Hr as [|r rs Hr1 Hr2 IH]; intros c Hc; cbn; [done|]. by apply IH. Qed.

Lemma parseredirs_fds n s : gives (Forall fd_ok) (parseredirs n s).
Proof.
  revert s. induction n as [|n IH]; intros s; [done|]. cbn [parseredirs]. tokens; [|by constructor].
  destruct (negb _); [done|]. eapply gives_bind; [apply IH|]. intros rs s' Hr. constructor; [|done].
  unfold fd_ok, redir_of. destruct (_ =? LT); [by left|]. destruct (_ =? GT); by right.
Qed.

Lemma parseargs_fds n argc s : gives (fun '(_, rs) => Forall fd_ok rs) (parseargs n argc s).
Proof.
  revert argc s. induction n as [|n IH]; intros argc s; [done|]. cbn [parseargs]. tokens; [by constructor|].
  destruct (_ =? 0); [by constructor|]. destruct (negb _); [done|]. destruct (MAXARGS <=? _)%nat; [done|].
  eapply gives_bind; [apply parseredirs_fds|]. intros rs s1 Hr. eapply gives_bind; [apply IH|].
  intros [args rs'] s2 Hr'. by apply Forall_app.
Qed.

Lemma parsebacks_fds n (c : cmd ptrs) s : redirs_ok c -> gives redirs_ok (parsebacks n c s).
Proof.
  revert c s. induction n as [|n IH]; intros c s Hc; [done|]. cbn [parsebacks]. tokens; [by apply IH|done].
Qed.

Lemma parse_fds n :
  (forall s, gives redirs_ok (parseline n s)) /\ (forall s, gives redirs_ok (parsepipe n s)) /\
  (forall s, gives redirs_ok (parseexec n s)) /\ (forall s, gives redirs_ok (parseblock n s)).
Proof.
  induction n as [|n (IHl & IHp & IHe & IHb)]; split_and!; intros s; try done.
  - cbn [parseline]. eapply gives_bind; [apply IHp|]. intros c s1 Hc.
    eapply gives_bind; [by apply parsebacks_fds|]. intros c2 s2 Hc2. tokens; [|done].
    eapply gives_bind; [apply IHl|]. by intros c' s' Hc'.
  - cbn [parsepipe]. eapply gives_bind; [apply IHe|]. intros c s1 Hc. tokens; [|done].
    eapply gives_bind; [apply IHp|]. by intros c' s' Hc'.
  - cbn [parseexec]. tokens; [apply IHb|]. eapply gives_bind; [apply parseredirs_fds|]. intros rs s1 Hr.
    eapply gives_bind; [apply parseargs_fds|]. intros [args rs'] s2 Hr'. apply redirs_redirs_ok; [done|]. by apply Forall_app.
  - cbn [parseblock]. tokens; [|done]. eapply gives_bind; [apply IHl|]. intros c s1 Hc. tokens; [|done].
    eapply gives_bind; [apply parseredirs_fds|]. intros rs s2 Hr. by apply redirs_redirs_ok.
Qed.

Lemma redirs_ok_map {V W} (f : V -> W) c : redirs_ok c -> redirs_ok (cmd_map f c).
Proof. induction c; cbn; intuition. Qed.

Lemma parsecmd_fds buf : gives (fun cl => redirs_ok cl.1) (parsecmd buf).
Proof.
  unfold parsecmd. eapply gives_bind; [apply parse_fds|]. intros c s Hc. by destruct (peek s []) as [b [|]].
Qed.

(** What the process for a line should show. *)
Definition meant (buf : list Z) (F : fds) (h : list nat) (L : list item) : Prop :=
  match parsecmd buf with
  | Parsed (c, line) _ => fits (launches (cmd_map (string_at line) c) F h) L
  | _ => L = []
  end.

(** Claim C21: the process the shell makes for a line ends, with every process it
    creates, whatever the line and whatever the kernel refuses.  A line that is
    not a command starts nothing.  Of a command, every program started is one
    the command means, with its arguments and exactly the descriptors it should
    have (the redirections, the ends of the pipes, and nothing else beyond what
    the shell has open), in order; and all of them are started when no call is
    refused. *)
Theorem sh_runs_line buf F h :
  std F -> spawns (meant buf F h) (observe (run_line buf)) F h.
Proof.
  intros Hs. pose proof (parsecmd_total buf) as Ht. pose proof (parsecmd_fds buf) as Hf.
  unfold meant, run_line. destruct (parsecmd buf) as [[c line] s|msg|]; [|by apply spawns_message|done].
  apply runcmd_launches; [|done]. by apply redirs_ok_map.
Qed.

(** [cat<a|wc>b] *)
Definition ex_line : list Z := bytes "cat<a|wc>b".
Definition ex_console : desc := DFile (bytes "console") O_RDWR.
Definition ex_F : fds := {[ 0 := ex_console; 1 := ex_console; 2 := ex_console ]}.

Lemma sh_runs_line_witness :
  match parsecmd ex_line with
  | Parsed (c, line) _ => launches (cmd_map (string_at line) c) ex_F []
  | _ => []
  end =
    [Launch (bytes "cat") [bytes "cat"] {[ 0 := DFile (bytes "a") O_RDONLY; 1 := DWrite []; 2 := ex_console ]};
     Launch (bytes "wc") [bytes "wc"] {[ 0 := DRead []; 1 := DFile (bytes "b") 0x601; 2 := ex_console ]}] /\
  spawns (meant ex_line ex_F []) (observe (run_line ex_line)) ex_F [].
Proof.
  split; [vm_compute; reflexivity|].
  apply (sh_runs_line ex_line ex_F []). intros k Hk.
  assert (k = 0 \/ k = 1 \/ k = 2) as [-> | [-> | ->]] by lia; eexists; reflexivity.
Defined.
End ShRun.
