(* ===== verification/Grind.v ===== *)
(** * The stress test user/grind.c

    The random numbers are shown to be those of the minimal standard generator,
    without overflow.  The test itself runs for ever; no process of it has more
    than five descriptors of its own at a time or kills any process but its
    children and itself. *)

From ITree Require Import ITree.
From S2P Require Import Prelude Cstring VfsState Vfs VfsFile Ulib Printf Syscalls.

Module Grind.

(** ** Random numbers *)

(** [*ctx] before and after, and the result; the variables are longs. *)
Definition do_rand (ctx : Z) : Z * Z :=
  let x := s64 (u64 (ctx mod 0x7ffffffe + 1)) in
  let hi := Z.quot x 127773 in
  let lo := Z.rem x 127773 in
  let x := s64 (16807 * lo - 2836 * hi) in
  let x := if x <? 0 then s64 (x + 0x7fffffff) else x in
  let x := s64 (x - 1) in
  (u64 x, s32 x).

(** With [rand_next]. *)
Definition rand (rand_next : Z) : Z * Z := do_rand rand_next.

(** ** [go] *)

Definition grindir : list Z := bytes "grindir".
Definition CREATE_RW : Z := Z.lor O_CREATE O_RDWR.

(** [close(open(path, O_CREATE|O_RDWR))] *)
Definition touch (path : string) : prog unit :=
  let* fd := sys (Open (bytes path) CREATE_RW) in
  sys (Close fd) ;;;
  Ret tt.

Definition fail {R} (msg : string) : prog R :=
  printf (bytes msg ++ NLs) [] ;;;
  exit 1.
Definition fail2 {R} (msg : string) (st : Z) : prog R :=
  fprintf 2 (bytes msg ++ NLs) [] ;;;
  exit st.

(** A child that runs [child] and exits. *)
Definition in_child (child : prog unit) : prog Z :=
  let* pid := sys Fork in
  if pid =? 0 then
    child ;;;
    exit 0
  else if pid <? 0 then fail "grind: fork failed"
  else Ret pid.

Definition go4 : prog unit :=
  let* r := sys (Chdir grindir) in
  if negb (r =? 0) then fail "grind: chdir grindir failed"
  else
    sys (Unlink (bytes "../b")) ;;;
    sys (Chdir (bytes "/")) ;;;
    Ret tt.

(** Closes [fd] and opens [path] in its place. *)
Definition reopen (fd : Z) (path : string) : prog Z :=
  sys (Close fd) ;;;
  sys (Open (bytes path) CREATE_RW).

Definition go9 : prog unit :=
  sys (Mkdir (bytes "grindir/../a")) ;;;
  touch "a/../a/./a" ;;;
  sys (Unlink (bytes "a/a")) ;;;
  Ret tt.

Definition go10 : prog unit :=
  sys (Mkdir (bytes "/../b")) ;;;
  touch "grindir/../b/b" ;;;
  sys (Unlink (bytes "b/b")) ;;;
  Ret tt.

Definition go11 : prog unit :=
  sys (Unlink (bytes "b")) ;;;
  sys (Link (bytes "../grindir/./../a") (bytes "../b")) ;;;
  Ret tt.

Definition go12 : prog unit :=
  sys (Unlink (bytes "../grindir/../a")) ;;;
  sys (Link (bytes ".././b") (bytes "/grindir/../a")) ;;;
  Ret tt.

Definition go13 : prog unit :=
  in_child (Ret tt) ;;;
  sys Wait ;;;
  Ret tt.

Definition go14 : prog unit :=
  in_child (sys Fork ;;; sys Fork ;;; Ret tt) ;;;
  sys Wait ;;;
  Ret tt.

Definition go16 (break0 : Z) : prog unit :=
  let* top := sys (Sbrk 0) in
  if break0 <? top then
    let* top := sys (Sbrk 0) in
    sys (Sbrk (s32 (- (top - break0)))) ;;;
    Ret tt
  else Ret tt.

Definition go17 : prog unit :=
  let* pid := in_child (touch "a") in
  let* r := sys (Chdir (bytes "../grindir/..")) in
  if negb (r =? 0) then fail "grind: chdir failed"
  else
    sys (Kill pid) ;;;
    sys Wait ;;;
    Ret tt.

Definition go18 : prog unit :=
  in_child (let* me := sys Getpid in sys (Kill me) ;;; Ret tt) ;;;
  sys Wait ;;;
  Ret tt.

Definition go19 : prog unit :=
  let* (r, (p0, p1)) := sys Pipe in
  if r <? 0 then fail "grind: pipe failed"
  else
    in_child (
      sys Fork ;;;
      sys Fork ;;;
      let* w := sys (Write p1 (bytes "x")) in
      (if negb (w =? 1) then printf (bytes "grind: pipe write failed" ++ NLs) [] else Ret tt) ;;;
      let* (n, _) := sys (Read p0 1) in
      if negb (n =? 1) then printf (bytes "grind: pipe read failed" ++ NLs) [] else Ret tt) ;;;
    sys (Close p0) ;;;
    sys (Close p1) ;;;
    sys Wait ;;;
    Ret tt.

Definition go20 : prog unit :=
  in_child (
    sys (Unlink (bytes "a")) ;;;
    sys (Mkdir (bytes "a")) ;;;
    sys (Chdir (bytes "a")) ;;;
    sys (Unlink (bytes "../a")) ;;;
    sys (Open (bytes "x") CREATE_RW) ;;;
    sys (Unlink (bytes "x")) ;;;
    Ret tt) ;;;
  sys Wait ;;;
  Ret tt.

Definition go21 : prog unit :=
  sys (Unlink (bytes "c")) ;;;
  let* fd1 := sys (Open (bytes "c") CREATE_RW) in
  if fd1 <? 0 then fail "grind: create c failed"
  else
    let* w := sys (Write fd1 (bytes "x")) in
    if negb (w =? 1) then fail "grind: write c failed"
    else
      let* (r, st) := sys (Fstat fd1) in
      if negb (r =? 0) then fail "grind: fstat failed"
      else if negb (st_size st =? 1) then
        printf (bytes "grind: fstat reports wrong size %d" ++ NLs) [Num (s32 (st_size st))] ;;;
        exit 1
      else if 200 <? st_ino st then
        printf (bytes "grind: fstat reports crazy i-number %d" ++ NLs) [Num (st_ino st)] ;;;
        exit 1
      else
        sys (Close fd1) ;;;
        sys (Unlink (bytes "c")) ;;;
        Ret tt.

(** The child that becomes [echo hi], with its output in pipe [a]. *)
Definition echo_child (a0 a1 b0 b1 : Z) : prog unit :=
  sys (Close b0) ;;;
  sys (Close b1) ;;;
  sys (Close a0) ;;;
  sys (Close 1) ;;;
  let* d := sys (Dup a1) in
  if negb (d =? 1) then fail2 "grind: dup failed" 1
  else
    sys (Close a1) ;;;
    sys (Exec (bytes "grindir/../echo") [bytes "echo"; bytes "hi"]) ;;;
    fail2 "grind: echo: not found" 2.

(** The child that becomes [cat], from pipe [a] to pipe [b]. *)
Definition cat_child (a0 a1 b0 b1 : Z) : prog unit :=
  sys (Close a1) ;;;
  sys (Close b0) ;;;
  sys (Close 0) ;;;
  let* d := sys (Dup a0) in
  if negb (d =? 0) then fail2 "grind: dup failed" 4
  else
    sys (Close a0) ;;;
    sys (Close 1) ;;;
    let* d := sys (Dup b1) in
    if negb (d =? 1) then fail2 "grind: dup failed" 5
    else
      sys (Close b1) ;;;
      sys (Exec (bytes "/cat") [bytes "cat"]) ;;;
      fail2 "grind: cat: not found" 6.

(** A byte of the buffer of 4, as [read] leaves it. *)
Definition read_byte (fd : Z) : prog Z :=
  let* (n, l) := sys (Read fd 1) in
  Ret (if n =? 1 then l !!! 0%nat else 0).

Definition go22 : prog unit :=
  let* (r, (a0, a1)) := sys Pipe in
  if r <? 0 then fail2 "grind: pipe failed" 1
  else
    let* (r, (b0, b1)) := sys Pipe in
    if r <? 0 then fail2 "grind: pipe failed" 1
    else
      let* pid1 := sys Fork in
      if pid1 =? 0 then echo_child a0 a1 b0 b1
      else if pid1 <? 0 then fail2 "grind: fork failed" 3
      else
        let* pid2 := sys Fork in
        if pid2 =? 0 then cat_child a0 a1 b0 b1
        else if pid2 <? 0 then fail2 "grind: fork failed" 7
        else
          sys (Close a0) ;;;
          sys (Close a1) ;;;
          sys (Close b1) ;;;
          let* c0 := read_byte b0 in
          let* c1 := read_byte b0 in
          let* c2 := read_byte b0 in
          sys (Close b0) ;;;
          let* (_, st1) := sys Wait in
          let* (_, st2) := sys Wait in
          let buf := cstr [c0; c1; c2; 0] in
          if negb (st1 =? 0) || negb (st2 =? 0) || negb (Ulib.strcmp buf (bytes "hi" ++ NLs) =? 0) then
            printf (bytes "grind: exec pipeline failed %d %d " ++ [34] ++ bytes "%s" ++ [34] ++ NLs) [Num st1; Num st2; Str buf] ;;;
            exit 1
          else Ret tt.

(** The variables of the loop: the static buffer of 999 bytes among them. *)
Record vars : Type := { iters : Z; rand_next : Z; fd : Z; buf : list Z }.

(** The chain of [if]s: what becomes of [fd] and [buf]. *)
Definition go_case (what break0 fd : Z) (buf : list Z) : prog (Z * list Z) :=
  let same (t : prog unit) := t ;;; Ret (fd, buf) in
  if what =? 1 then same (touch "grindir/../a")
  else if what =? 2 then same (touch "grindir/../grindir/../b")
  else if what =? 3 then same (sys (Unlink (bytes "grindir/../a")) ;;; Ret tt)
  else if what =? 4 then same go4
  else if what =? 5 then let* fd := reopen fd "/grindir/../a" in Ret (fd, buf)
  else if what =? 6 then let* fd := reopen fd "/./grindir/./../b" in Ret (fd, buf)
  else if what =? 7 then same (sys (Write fd buf) ;;; Ret tt)
  else if what =? 8 then
    let* (_, l) := sys (Read fd 999) in
    Ret (fd, l ++ drop (length l) buf)
  else if what =? 9 then same go9
  else if what =? 10 then same go10
  else if what =? 11 then same go11
  else if what =? 12 then same go12
  else if what =? 13 then same go13
  else if what =? 14 then same go14
  else if what =? 15 then same (sys (Sbrk 6011) ;;; Ret tt)
  else if what =? 16 then same (go16 break0)
  else if what =? 17 then same go17
  else if what =? 18 then same go18
  else if what =? 19 then same go19
  else if what =? 20 then same go20
  else if what =? 21 then same go21
  else if what =? 22 then same go22
  else Ret (fd, buf).

Definition go_loop (which_child : bool) (break0 : Z) (v : vars) : prog unit :=
  ITree.iter (fun v : vars =>
    let n := u64 (iters v + 1) in
    (if n mod 500 =? 0 then sys (Write 1 (bytes (if which_child then "B" else "A"))) ;;; Ret tt else Ret tt) ;;;
    let '(ctx, r) := rand (rand_next v) in
    let what := Z.rem r 23 in
    let* (fd, buf) := go_case what break0 (fd v) (buf v) in
    Ret (inl {| iters := n; rand_next := ctx; fd := fd; buf := buf |})) v.

Definition go (which_child : bool) (rand_next : Z) : prog unit :=
  let* break0 := sys (Sbrk 0) in
  sys (Mkdir grindir) ;;;
  let* r := sys (Chdir grindir) in
  if negb (r =? 0) then fail "grind: chdir grindir failed"
  else
    sys (Chdir (bytes "/")) ;;;
    go_loop which_child break0 {| iters := 0; rand_next := rand_next; fd := -1; buf := replicate 999 0 |}.

(** ** [iter] and [main] *)

(** [st] keeps -1 when there is nobody to wait for. *)
Definition wait_status : prog Z :=
  let* (pid, st) := sys Wait in
  Ret (if pid <? 0 then -1 else st).

Definition iter (rand_next : Z) : prog unit :=
  sys (Unlink (bytes "a")) ;;;
  sys (Unlink (bytes "b")) ;;;
  let* pid1 := sys Fork in
  if pid1 <? 0 then fail "grind: fork failed"
  else if pid1 =? 0 then
    go false (Z.lxor rand_next 31) ;;;
    exit 0
  else
    let* pid2 := sys Fork in
    if pid2 <? 0 then fail "grind: fork failed"
    else if pid2 =? 0 then
      go true (Z.lxor rand_next 7177) ;;;
      exit 0
    else
      let* st1 := wait_status in
      (if negb (st1 =? 0) then sys (Kill pid1) ;;; sys (Kill pid2) ;;; Ret tt else Ret tt) ;;;
      wait_status ;;;
      exit 0.

Definition main_loop : Z -> prog unit :=
  ITree.iter (fun rand_next : Z =>
    let* pid := sys Fork in
    if pid =? 0 then
      iter rand_next ;;;
      exit 0
    else
      (if 0 <? pid then sys Wait ;;; Ret tt else Ret tt) ;;;
      sys (Sleep 20) ;;;
      Ret (inl (u64 (rand_next + 1)))).

(** [rand_next] is 1 at the start. *)
Definition main : prog unit := main_loop 1.

(** ** The generator *)

(** The minimal standard generator, on 1 .. 2^31-2. *)
Definition lehmer (x : Z) : Z := 16807 * x mod (2 ^ 31 - 1).

Lemma lehmer_range x : 1 <= x <= 2 ^ 31 - 2 -> 1 <= lehmer x <= 2 ^ 31 - 2.
Proof.
  intros Hx. unfold lehmer. pose proof (Z.mod_pos_bound (16807 * x) (2 ^ 31 - 1) ltac:(done)) as Hm.
  destruct (decide (16807 * x mod (2 ^ 31 - 1) = 0)) as [E|]; [|lia].
  apply Z.mod_divide in E; [|done]. apply (Z.gauss _ 16807) in E; [|by vm_compute].
  apply Z.divide_pos_le in E; lia.
Qed.

Lemma lehmer_split x : 1 <= x <= 2 ^ 31 - 2 ->
  let d := 16807 * (x mod 127773) - 2836 * (x / 127773) in
  - (2 ^ 31 - 1) < d < 2 ^ 31 - 1 /\ lehmer x = if d <? 0 then d + (2 ^ 31 - 1) else d.
Proof.
  intros Hx. cbn zeta. pose proof (Z.div_mod x 127773 ltac:(done)) as E. pose proof (Z.mod_pos_bound x 127773 ltac:(done)) as Hb.
  revert E Hb Hx. unfold lehmer. generalize (x mod 127773) (x / 127773). change (2 ^ 31) with 2147483648.
  intros lo hi -> Hb Hx. split; [lia|].
  destruct (Z.ltb_spec (16807 * lo - 2836 * hi) 0); symmetry;
    [apply (Z.mod_unique_pos _ _ (hi - 1))|apply (Z.mod_unique_pos _ _ hi)]; lia.
Qed.

Lemma lehmer_inj x y : 1 <= x <= 2 ^ 31 - 2 -> 1 <= y <= 2 ^ 31 - 2 -> lehmer x = lehmer y -> x = y.
Proof.
  unfold lehmer. intros Hx Hy E. assert (Hd : (2 ^ 31 - 1 | 16807 * (x - y))).
  { apply Z.mod_divide; [done|]. rewrite Z.mul_sub_distr_l, Zminus_mod, E, Z.sub_diag. done. }
  apply Z.gauss in Hd; [|by vm_compute]. destruct (decide (x = y)) as [|Hne]; [done|].
  apply Z.divide_abs_r, Z.divide_pos_le in Hd; lia.
Qed.

Lemma s64_small z : - 2 ^ 63 <= z < 2 ^ 63 -> s64 z = z.
Proof. intros. unfold s64. rewrite Z.mod_small; lia. Qed.

(** Claim C40: [do_rand] is the generator of Park and Miller moved to 0 .. 2^31-3,
    whatever the 64-bit seed; no intermediate value needs more than 32 bits, and
    two seeds in that range never give the same number. *)
Theorem do_rand_lehmer ctx :
  let x := ctx mod 0x7ffffffe + 1 in
  do_rand ctx = (lehmer x - 1, lehmer x - 1) /\ 0 <= lehmer x - 1 <= 0x7ffffffd /\
  - 2 ^ 31 <= 16807 * (x mod 127773) - 2836 * (x / 127773) < 2 ^ 31 /\
  forall ctx', lehmer (ctx' mod 0x7ffffffe + 1) = lehmer x -> ctx' mod 0x7ffffffe = ctx mod 0x7ffffffe.
Proof.
  cbn zeta. assert (Hr : forall c, 1 <= c mod 0x7ffffffe + 1 <= 2 ^ 31 - 2).
  { intros c. pose proof (Z.mod_pos_bound c 0x7ffffffe ltac:(done)). change (2 ^ 31) with 2147483648. lia. }
  pose proof (Hr ctx) as Hx. unfold do_rand. set (x := ctx mod 0x7ffffffe + 1) in *.
  pose proof (lehmer_range x Hx) as Hl. destruct (lehmer_split x Hx) as [Hd El].
  assert (Hs : forall z, - 2 ^ 32 < z < 2 ^ 32 -> s64 z = z) by (intros; apply s64_small; lia).
  split_and!; [|lia|lia|lia|lia|].
  - rewrite (u64_small x), (Hs x) by lia. rewrite Z.quot_div_nonneg, Z.rem_mod_nonneg by lia. rewrite (Hs (16807 * _ - _)) by lia.
    replace (if _ <? 0 then _ else _) with (lehmer x).
    + rewrite Hs, u64_small, s32_small by lia. done.
    + rewrite El. destruct (_ <? 0) eqn:En; [|done]. apply Z.ltb_lt in En. rewrite Hs by lia. done.
  - intros ctx' E. apply lehmer_inj in E; [|apply Hr|done]. unfold x in E. lia.
Qed.

(** ** Descriptors and processes *)

(** The descriptors a process has of its own, besides those it started with,
    and the processes it knows: those it got from [fork] and [getpid].  A child
    inherits the descriptors and knows nobody. *)
Record has : Type := { own : gset Z; pids : gset Z }.

Definition opened (q : has) (l : list Z) : option (option has) :=
  if decide (NoDup l /\ Forall (fun x => x ∉ own q) l) then
    let own' := list_to_set l ∪ own q in
    if decide (size own' <= 5)%nat then Some (Some {| own := own'; pids := pids q |}) else None
  else Some None.
Definition knows (q : has) (pid : Z) : option (option has) :=
  Some (Some {| own := own q; pids := {[pid]} ∪ pids q |}).

(** A kernel opens no descriptor twice; the state after an answer that does is
    [None], and then anything goes.  A process is allowed five descriptors of its
    own and to kill the processes it knows. *)
Definition few_descriptors (X : Type) (q : option has) (c : sysE X) : X -> option (option has) :=
  match q with
  | None => fun _ => Some None
  | Some q =>
      match c in sysE X return X -> option (option has) with
      | Open _ _ | Dup _ => fun x => if x <? 0 then Some (Some q) else opened q [x]
      | Pipe => fun '(r, (p0, p1)) => if r <? 0 then Some (Some q) else opened q [p0; p1]
      | Close x => fun _ => Some (Some {| own := own q ∖ {[x]}; pids := pids q |})
      | Fork => fun pid =>
          if pid <? 0 then Some (Some q)
          else if pid =? 0 then Some (Some {| own := own q; pids := ∅ |})
          else knows q pid
      | Getpid => fun pid => knows q pid
      | Kill pid => fun _ => if decide (pid ∈ pids q) then Some (Some q) else None
      | _ => fun _ => Some (Some q)
      end
  end.

Notation good := (safe few_descriptors).

Lemma good_lost {R} n (Q : nat -> R -> option has -> Prop) t :
  (forall m r, (m < n)%nat -> Q m r None) -> good n Q t None.
Proof.
  revert t. induction n as [|n IH]; intros t H; [done|]. cbn [safe]. destruct (observe t) as [r|t'|X e h].
  - apply H. lia.
  - apply IH. intros. apply H. lia.
  - destruct e as [X c|st]; [|done]. intros x. exists None. split; [done|]. apply IH. intros. apply H. lia.
Qed.

Lemma good_exit {R} n (Q : nat -> R -> option has -> Prop) st q : good n Q (exit st) q.
Proof. by destruct n. Qed.

Lemma good_quiet {X R} n Q (c : sysE X) (k : X -> prog R) q :
  (forall x, few_descriptors X (Some q) c x = Some (Some q)) ->
  (forall m x, (m < n)%nat -> good m Q (k x) (Some q)) ->
  good n Q (let* x := sys c in k x) (Some q).
Proof. intros Hc Hk. apply safe_call. intros m x Hm. exists (Some q). auto. Qed.

Lemma good_putcs {R} n Q fd l (k : prog R) q :
  (forall m, (m <= n)%nat -> good m Q k (Some q)) -> good n Q (putcs fd l ;;; k) (Some q).
Proof. intros Hk. by apply safe_putcs. Qed.

(** Nothing is required after an impossible answer. *)
Definition lost_ok {R} (Q : nat -> R -> option has -> Prop) : Prop := forall m r, Q m r None.

Lemma lost_bind {R R'} (Q : nat -> R' -> option has -> Prop) (k : R -> prog R') :
  lost_ok Q -> lost_ok (fun m r q => good (S m) Q (k r) q).
Proof. intros HQ m r. by apply good_lost. Qed.

Lemma opened_fresh q l : (size (own q) + length l <= 5)%nat ->
  opened q l = Some None \/
  NoDup l /\ (forall x, x ∈ l -> x ∉ own q) /\ opened q l = Some (Some {| own := list_to_set l ∪ own q; pids := pids q |}).
Proof.
  intros Hs. unfold opened. case_decide as Hd; [|by left]. destruct Hd as [Hnd Hf]. rewrite Forall_forall in Hf.
  right. split_and!; [done|done|]. rewrite decide_True; [done|]. rewrite size_union by set_solver.
  rewrite size_list_to_set by done. lia.
Qed.

Section Rules.
Context {R : Type} (Q : nat -> R -> option has -> Prop) (HQ : lost_ok Q).

Lemma good_open n (c : sysE Z) (k : Z -> prog R) q :
  (forall x, few_descriptors Z (Some q) c x = if x <? 0 then Some (Some q) else opened q [x]) ->
  (size (own q) <= 4)%nat ->
  (forall m x, (m < n)%nat -> x < 0 -> good m Q (k x) (Some q)) ->
  (forall m x, (m < n)%nat -> 0 <= x -> x ∉ own q -> good m Q (k x) (Some {| own := {[x]} ∪ own q; pids := pids q |})) ->
  good n Q (let* x := sys c in k x) (Some q).
Proof.
  intros Hc Hs Hneg Hpos. apply safe_call. intros m x Hm. rewrite Hc. destruct (Z.ltb_spec x 0); [eauto|].
  destruct (opened_fresh q [x]) as [->|(_ & Hf & ->)]; [cbn; lia| |]; eexists; (split; [done|]).
  - by apply good_lost.
  - cbn [list_to_set foldr]. rewrite union_empty_r_L. apply Hpos; [done|done|]. apply Hf. set_solver.
Qed.

Lemma good_pipe n (k : Z * (Z * Z) -> prog R) q :
  (size (own q) <= 3)%nat ->
  (forall m r p, (m < n)%nat -> r < 0 -> good m Q (k (r, p)) (Some q)) ->
  (forall m r p0 p1, (m < n)%nat -> 0 <= r -> p0 <> p1 -> p0 ∉ own q -> p1 ∉ own q ->
    good m Q (k (r, (p0, p1))) (Some {| own := {[p0; p1]} ∪ own q; pids := pids q |})) ->
  good n Q (let* x := sys Pipe in k x) (Some q).
Proof.
  intros Hs Hneg Hpos. apply safe_call. intros m [r [p0 p1]] Hm. cbn [few_descriptors].
  destruct (Z.ltb_spec r 0); [eauto|].
  destruct (opened_fresh q [p0; p1]) as [->|(Hnd & Hf & ->)]; [cbn; lia| |]; eexists; (split; [done|]).
  - by apply good_lost.
  - cbn [list_to_set foldr]. rewrite union_empty_r_L. apply Hpos; [done|done| | |].
    + apply NoDup_cons in Hnd as [Hne _]. intros ->. set_solver.
    + apply Hf. set_solver.
    + apply Hf. set_solver.
Qed.

Lemma good_close n x (k : Z -> prog R) q :
  (forall m r, (m < n)%nat -> good m Q (k r) (Some {| own := own q ∖ {[x]}; pids := pids q |})) ->
  good n Q (let* r := sys (Close x) in k r) (Some q).
Proof. intros Hk. apply safe_call. intros m r Hm. eexists. split; [done|]. by apply Hk. Qed.

Lemma good_kill n pid (k : Z -> prog R) q :
  pid ∈ pids q -> (forall m r, (m < n)%nat -> good m Q (k r) (Some q)) ->
  good n Q (let* r := sys (Kill pid) in k r) (Some q).
Proof. intros Hp Hk. apply good_quiet; [|done]. intros x. cbn. by rewrite decide_True. Qed.

Lemma good_getpid n (k : Z -> prog R) q :
  (forall m pid, (m < n)%nat -> good m Q (k pid) (Some {| own := own q; pids := {[pid]} ∪ pids q |})) ->
  good n Q (let* pid := sys Getpid in k pid) (Some q).
Proof. intros Hk. apply safe_call. intros m x Hm. eexists. split; [done|]. by apply Hk. Qed.

Lemma good_fork n (k : Z -> prog R) q :
  (forall m pid q', (m < n)%nat -> own q' = own q ->
    (0 < pid -> pids q' = {[pid]} ∪ pids q) -> good m Q (k pid) (Some q')) ->
  good n Q (let* pid := sys Fork in k pid) (Some q).
Proof.
  intros Hk. apply safe_call. intros m x Hm. cbn [few_descriptors]. destruct (Z.ltb_spec x 0); [|destruct (Z.eqb_spec x 0)];
    eexists; (split; [reflexivity|]); apply Hk; (done || lia).
Qed.

Lemma good_fail n msg q : good n Q (fail msg) (Some q).
Proof. apply good_putcs. intros. apply good_exit. Qed.
Lemma good_fail2 n msg st q : good n Q (fail2 msg st) (Some q).
Proof. apply good_putcs. intros. apply good_exit. Qed.

End Rules.

(** What a child does that exits afterwards. *)
Definition child_ok (child : prog unit) (q : has) : Prop :=
  forall m q' (Q' : nat -> unit -> option has -> Prop),
    own q' ⊆ own q -> (forall m r q, Q' m r q) -> good m Q' child (Some q').

Lemma good_child {R} n (Q : nat -> R -> option has -> Prop) child (k : Z -> prog R) q :
  child_ok child q ->
  (forall m pid q', (m <= n)%nat -> own q' ⊆ own q -> pid ∈ pids q' -> good m Q (k pid) (Some q')) ->
  good n Q (let* pid := in_child child in k pid) (Some q).
Proof.
  intros Hc Hk. unfold in_child. apply safe_bind, good_fork. intros m pid q' Hm Hq Hp.
  destruct (Z.eqb_spec pid 0); [|destruct (Z.ltb_spec pid 0)].
  - apply safe_bind, Hc; [by rewrite Hq|]. intros. apply good_exit.
  - apply good_putcs. intros. apply good_exit.
  - apply safe_return. intros m' Hm'. apply Hk; [lia|by rewrite Hq|]. rewrite Hp by lia. set_solver.
Qed.

(** A part of [go] that leaves no descriptor behind. *)
Definition keeps (t : prog unit) : Prop :=
  forall n (Q : nat -> unit -> option has -> Prop) q,
    lost_ok Q -> (size (own q) <= 1)%nat ->
    (forall m q', (m < n)%nat -> own q' ⊆ own q -> Q m tt (Some q')) -> good n Q t (Some q).

Lemma keeps_then {R} t n (Q : nat -> R -> option has -> Prop) (k : prog R) q :
  keeps t -> lost_ok Q -> (size (own q) <= 1)%nat ->
  (forall m q', (m <= n)%nat -> own q' ⊆ own q -> good m Q k (Some q')) -> good n Q (t ;;; k) (Some q).
Proof. intros Ht HL Hs Hk. apply safe_bind, Ht; [by apply lost_bind|done|]. intros m q' Hm Hq. apply Hk; [lia|done]. Qed.

Lemma keeps_child t q : keeps t -> (size (own q) <= 1)%nat -> child_ok t q.
Proof. intros Ht Hs m q' Q' Hq HQ'. apply Ht; [by intros ? ?| |auto]. apply subseteq_size in Hq. lia. Qed.

Ltac quiet := apply good_quiet; [done|intros ? ? ?].
Ltac finish HQ := apply safe_return; intros ? ?; apply HQ; [lia|cbn [own]; set_solver].
Ltac call HL :=
  first [ apply good_close; intros ? ? ?
        | apply good_open; [exact HL|done|cbn [own]; lia|intros ? ? ? ?|intros ? ? ? ? ?]
        | quiet
        | apply good_getpid; intros ? ? ?
        | apply good_fork; intros ? ? ? ? ? ?
        | apply good_fail | apply good_fail2 | apply good_exit
        | apply good_putcs; intros ? ? ].

Lemma touch_keeps path : keeps (touch path).
Proof. intros n Q q HL Hs HQ. unfold touch. do 2 call HL; finish HQ. Qed.

Lemma go4_keeps : keeps go4.
Proof. intros n Q q HL Hs HQ. unfold go4. call HL. destruct (negb _); [call HL|]. do 2 call HL. finish HQ. Qed.

Lemma go9_keeps : keeps go9.
Proof.
  intros n Q q HL Hs HQ. unfold go9. call HL. apply keeps_then; [apply touch_keeps|done|done|].
  intros m' q' Hm Hq. call HL. finish HQ.
Qed.

Lemma go10_keeps : keeps go10.
Proof.
  intros n Q q HL Hs HQ. unfold go10. call HL. apply keeps_then; [apply touch_keeps|done|done|].
  intros m' q' Hm Hq. call HL. finish HQ.
Qed.

Lemma go11_keeps : keeps go11.
Proof. intros n Q q HL Hs HQ. unfold go11. do 2 call HL. finish HQ. Qed.
Lemma go12_keeps : keeps go12.
Proof. intros n Q q HL Hs HQ. unfold go12. do 2 call HL. finish HQ. Qed.

Lemma go16_keeps break0 : keeps (go16 break0).
Proof. intros n Q q HL Hs HQ. unfold go16. call HL. destruct (_ <? _); [do 2 call HL|]; finish HQ. Qed.

(** A child, and a wait for it. *)
Lemma waited_keeps child :
  (forall q, (size (own q) <= 1)%nat -> child_ok child q) -> keeps (in_child child ;;; sys Wait ;;; Ret tt).
Proof.
  intros Hc n Q q HL Hs HQ. apply good_child; [by apply Hc|]. intros m pid q' Hm Hq Hp. call HL. finish HQ.
Qed.

Ltac all_done H := apply safe_return; intros; apply H.

Lemma go13_keeps : keeps go13.
Proof. apply waited_keeps. intros q Hs m q' Q' Hq HQ'. all_done HQ'. Qed.

Lemma go14_keeps : keeps go14.
Proof.
  apply waited_keeps. intros q Hs m q' Q' Hq HQ'. assert (HL : lost_ok Q') by (by intros ? ?). do 2 call HL. all_done HQ'.
Qed.

Lemma go18_keeps : keeps go18.
Proof.
  apply waited_keeps. intros q Hs m q' Q' Hq HQ'. assert (HL : lost_ok Q') by (by intros ? ?). call HL.
  apply good_kill; [cbn; set_solver|]. intros. all_done HQ'.
Qed.

Lemma go20_keeps : keeps go20.
Proof.
  apply waited_keeps. intros q Hs m q' Q' Hq HQ'. assert (HL : lost_ok Q') by (by intros ? ?). apply subseteq_size in Hq.
  do 6 call HL; all_done HQ'.
Qed.

Lemma go17_keeps : keeps go17.
Proof.
  intros n Q q HL Hs HQ. apply good_child; [apply keeps_child, Hs; apply touch_keeps|]. intros m pid q' Hm Hq Hp.
  call HL. destruct (negb _); [call HL|]. apply good_kill; [done|]. intros. call HL. finish HQ.
Qed.

Lemma good_report {R} n (Q : nat -> R -> option has -> Prop) (b : bool) fmt args (k : prog R) q :
  (forall m, (m <= n)%nat -> good m Q k (Some q)) ->
  good n Q ((if b then printf fmt args else Ret tt) ;;; k) (Some q).
Proof.
  intros Hk. destruct b; [by apply good_putcs|]. apply safe_bind, safe_return. intros m Hm. apply Hk. lia.
Qed.

(** At the end of a program. *)
Lemma good_end {R} n (Q : nat -> R -> option has -> Prop) (k : R -> prog R) t q :
  (forall r, k r = Ret r) -> good n Q (let* r := t in k r) q -> good n Q t q.
Proof.
  intros Hk.
  revert t q. induction n as [|n IH]; intros t q; [done|]. cbn [safe]. rewrite observe_bind.
  destruct (observe t) as [r|t'|X e h]; [by rewrite Hk|apply IH|]. destruct e as [X c|st]; [|done].
  intros H x. destruct (H x) as (q' & Hq & Hs). exists q'. eauto.
Qed.

Lemma go19_keeps : keeps go19.
Proof.
  intros n Q q HL Hs HQ. unfold go19. apply good_pipe; [done|lia|intros m r p Hm Hr|intros m r p0 p1 Hm Hr _ _ _].
  { rewrite (proj2 (Z.ltb_lt r 0) Hr). destruct p. call HL. }
  rewrite (proj2 (Z.ltb_ge r 0) Hr). apply good_child; [|].
  - intros m' q' Q' _ HQ'. assert (HL' : lost_ok Q') by (by intros ? ?). do 3 call HL'. apply good_report.
    intros ? _. apply good_quiet; [done|]. intros ? [nr l] _. apply (good_end _ _ (fun _ => Ret tt)); [by intros []|].
    apply good_report. intros. all_done HQ'.
  - intros m' pid q' Hm' Hq Hp. do 3 call HL. finish HQ.
Qed.

Lemma go21_keeps : keeps go21.
Proof.
  intros n Q q HL Hs HQ. unfold go21. call HL. apply good_open; [done|done|lia|intros ? fd1 _ Hx|intros ? fd1 Hm1 Hx Hn].
  { rewrite (proj2 (Z.ltb_lt fd1 0) Hx). call HL. }
  rewrite (proj2 (Z.ltb_ge fd1 0) Hx). call HL. destruct (negb _); [call HL|]. apply good_quiet; [done|]. intros ? [r st] ?.
  destruct (negb _); [call HL|]. destruct (negb _); [do 2 call HL|]. destruct (_ <? _); [do 2 call HL|]. do 2 call HL. finish HQ.
Qed.

Lemma size_plus (l : list Z) (s t : gset Z) : t ⊆ list_to_set l ∪ s -> (size t <= length l + size s)%nat.
Proof.
  intros H%subseteq_size. pose proof (size_union_alt (list_to_set l) s) as E. rewrite E in H.
  pose proof (subseteq_size (s ∖ list_to_set l) s ltac:(set_solver)).
  assert (Hl : (size (list_to_set (C := gset Z) l) <= length l)%nat); [|lia].
  clear. induction l as [|x l IH]; [done|]. cbn [list_to_set foldr length].
  pose proof (size_union_alt {[x]} (list_to_set (C := gset Z) l)) as E. rewrite size_singleton in E.
  change (list_to_set (x :: l)) with ({[x]} ∪ list_to_set (C := gset Z) l). rewrite E.
  pose proof (subseteq_size (list_to_set l ∖ {[x]}) (list_to_set (C := gset Z) l) ltac:(set_solver)). lia.
Qed.

Section pipeline.
Context (Q : nat -> unit -> option has -> Prop) (HL : lost_ok Q) (a0 a1 b0 b1 : Z) (s : gset Z).
Hypothesis (Hs : (size s <= 1)%nat).

Lemma echo_child_good n q :
  own q ⊆ list_to_set [a0; a1; b0; b1] ∪ s -> good n Q (echo_child a0 a1 b0 b1) (Some q).
Proof.
  intros Hq. unfold echo_child. do 4 call HL. apply good_open; [done|done| |intros ? x ? ?|intros ? x ? ? ?].
  { cbn [own]. pose proof (size_plus [a1] s (own q ∖ {[b0]} ∖ {[b1]} ∖ {[a0]} ∖ {[1]}) ltac:(set_solver)). cbn [length] in *. lia. }
  all: destruct (negb _); [call HL|]; do 2 call HL; call HL.
Qed.

Lemma cat_child_good n q :
  own q ⊆ list_to_set [a0; a1; b0; b1] ∪ s -> good n Q (cat_child a0 a1 b0 b1) (Some q).
Proof.
  intros Hq. unfold cat_child. do 3 call HL. apply good_open; [done|done| |intros ? x ? ?|intros ? x ? ? ?].
  { cbn [own]. pose proof (size_plus [a0; b1] s (own q ∖ {[a1]} ∖ {[b0]} ∖ {[0]}) ltac:(set_solver)). cbn [length] in *. lia. }
  all: destruct (negb _); [call HL|]; do 2 call HL; apply good_open; [done|done| |intros ? y ? ?|intros ? y ? ? ?].
  1,4: cbn [own].
  - pose proof (size_plus [a0; b1] s (own q ∖ {[a1]} ∖ {[b0]} ∖ {[0]} ∖ {[a0]} ∖ {[1]}) ltac:(set_solver)). cbn [length] in *. lia.
  - pose proof (size_plus [x; b1] s (({[x]} ∪ own q ∖ {[a1]} ∖ {[b0]} ∖ {[0]}) ∖ {[a0]} ∖ {[1]}) ltac:(set_solver)). cbn [length] in *. lia.
  - destruct (negb _); [call HL|]; do 2 call HL; call HL.
  - destruct (negb _); [call HL|]; do 2 call HL; call HL.
  - destruct (negb _); [call HL|]; do 2 call HL; call HL.
  - destruct (negb _); [call HL|]; do 2 call HL; call HL.
Qed.
End pipeline.

Lemma good_read_byte {R} n (Q : nat -> R -> option has -> Prop) fd (k : Z -> prog R) q :
  (forall m c, (m <= n)%nat -> good m Q (k c) (Some q)) -> good n Q (let* c := read_byte fd in k c) (Some q).
Proof.
  intros Hk. apply safe_bind. unfold read_byte. apply good_quiet; [done|]. intros m [r l] Hm.
  apply safe_return. intros m' Hm'. apply Hk. lia.
Qed.

(** The parent of the pipeline, after both forks. *)
Lemma pipeline_end_good n (Q : nat -> unit -> option has -> Prop) a0 a1 b0 b1 q s :
  (forall m q', (m < n)%nat -> own q' ⊆ s -> Q m tt (Some q')) ->
  own q ⊆ list_to_set [a0; a1; b0; b1] ∪ s ->
  good n Q (
    sys (Close a0) ;;; sys (Close a1) ;;; sys (Close b1) ;;;
    let* c0 := read_byte b0 in
    let* c1 := read_byte b0 in
    let* c2 := read_byte b0 in
    sys (Close b0) ;;;
    let* (_, st1) := sys Wait in
    let* (_, st2) := sys Wait in
    let buf := cstr [c0; c1; c2; 0] in
    if negb (st1 =? 0) || negb (st2 =? 0) || negb (Ulib.strcmp buf (bytes "hi" ++ NLs) =? 0) then
      printf (bytes "grind: exec pipeline failed %d %d " ++ [34] ++ bytes "%s" ++ [34] ++ NLs) [Num st1; Num st2; Str buf] ;;;
      exit 1
    else Ret tt) (Some q).
Proof.
  intros HQ Hq. do 3 (apply good_close; intros ? ? ?). do 3 (apply good_read_byte; intros ? ? ?). apply good_close. intros ? ? ?.
  apply good_quiet; [done|]. intros ? [p1 st1] ?. apply good_quiet; [done|]. intros ? [p2 st2] ?. cbn zeta.
  destruct (_ || _).
  - apply good_putcs. intros. apply good_exit.
  - apply safe_return. intros ? ?. apply HQ; [lia|]. cbn [own]. set_solver.
Qed.

Lemma go22_keeps : keeps go22.
Proof.
  intros n Q q HL Hs HQ. unfold go22. apply good_pipe; [done|lia|intros ? r [? ?] ? Hr|intros m1 r a0 a1 Hm1 Hr Hne Ha0 Ha1].
  { rewrite (proj2 (Z.ltb_lt r 0) Hr). call HL. }
  rewrite (proj2 (Z.ltb_ge r 0) Hr). apply good_pipe; [done| |intros ? r2 [? ?] ? Hr2|intros m2 r2 b0 b1 Hm2 Hr2 _ _ _].
  { cbn [own]. pose proof (size_plus [a0; a1] (own q) ({[a0; a1]} ∪ own q) ltac:(set_solver)). cbn [length] in *. lia. }
  { rewrite (proj2 (Z.ltb_lt r2 0) Hr2). call HL. }
  rewrite (proj2 (Z.ltb_ge r2 0) Hr2). apply good_fork. intros m3 pid1 q1 Hm3 Hq1 _.
  assert (Hin : own q1 ⊆ list_to_set [a0; a1; b0; b1] ∪ own q) by (rewrite Hq1; cbn [own]; set_solver).
  destruct (pid1 =? 0); [by apply (echo_child_good Q HL a0 a1 b0 b1 (own q))|]. destruct (pid1 <? 0); [call HL|].
  apply good_fork. intros m4 pid2 q2 Hm4 Hq2 _. rewrite <- Hq2 in Hin.
  destruct (pid2 =? 0); [by apply (cat_child_good Q HL a0 a1 b0 b1 (own q))|]. destruct (pid2 <? 0); [call HL|].
  apply (pipeline_end_good m4 Q a0 a1 b0 b1 q2 (own q)); [|done]. intros m' q' Hm' Hq'. apply HQ; [lia|done].
Qed.

(** ** The loop *)

(** The only descriptor of its own is [fd]. *)
Definition only (fd : Z) (q : has) : Prop := own q ⊆ {[fd]}.

Lemma only_size fd q : only fd q -> (size (own q) <= 1)%nat.
Proof. unfold only. intros H%subseteq_size. by rewrite size_singleton in H. Qed.

Section go_case.
Context (n : nat) (Q : nat -> Z * list Z -> option has -> Prop) (HL : lost_ok Q).
Context (break0 fd : Z) (buf : list Z) (q : has) (Hq : only fd q).
Hypothesis HQ : forall m fd' buf' q', (m < n)%nat -> only fd' q' -> Q m (fd', buf') (Some q').

Lemma same_good t : keeps t -> good n Q (t ;;; Ret (fd, buf)) (Some q).
Proof.
  intros Ht. apply keeps_then; [done|done|by apply (only_size fd)|]. intros m q' Hm Hs. apply safe_return.
  intros m' Hm'. apply HQ; [lia|]. unfold only in *. set_solver.
Qed.

Lemma reopen_good path : good n Q (let* fd := reopen fd path in Ret (fd, buf)) (Some q).
Proof.
  unfold reopen. apply safe_bind, good_close. intros m r Hm.
  assert (E : own q ∖ {[fd]} = ∅) by (unfold only in Hq; set_solver). apply (good_end _ _ (fun x => Ret x)); [done|].
  apply good_open; [intros ? ?; by apply good_lost|done|cbn [own]; rewrite E, size_empty; lia|intros ? x ? ?|intros ? x ? ? ?];
    apply safe_return; intros ? ?; apply safe_return; intros ? ?; (apply HQ; [lia|]); unfold only; cbn [own]; rewrite E; set_solver.
Qed.

Lemma go_case_good what : good n Q (go_case what break0 fd buf) (Some q).
Proof.
  unfold go_case. repeat match goal with |- good _ _ (if ?b then _ else _) _ => destruct b end.
  all: try first [apply reopen_good | apply same_good; auto using touch_keeps, go4_keeps, go9_keeps, go10_keeps, go11_keeps,
    go12_keeps, go13_keeps, go14_keeps, go16_keeps, go17_keeps, go18_keeps, go19_keeps, go20_keeps, go21_keeps, go22_keeps; fail].
  all: try (apply same_good; intros n' Q' q' HL' Hs' HQ'; call HL'; finish HQ').
  - apply good_quiet; [done|]. intros m [r l] Hm. apply safe_return. intros ? ?. apply HQ; [lia|done].
  - apply safe_return. intros ? ?. by apply HQ.
Qed.
End go_case.

Section never_returns.
Context (Q : nat -> unit -> option has -> Prop) (HL : lost_ok Q).

Lemma go_loop_good n which break0 v q : only (fd v) q -> good n Q (go_loop which break0 v) (Some q).
Proof.
  revert v q. induction n as [n IH] using lt_wf_ind. intros v q Hq. unfold go_loop. apply safe_iter. cbn zeta.
  assert (Hbody : forall m, (m <= n)%nat -> good m (fun m r q => match r with
      | inl y => good m Q (go_loop which break0 y) q
      | inr r => Q m r q end)
    (let '(ctx, r) := rand (rand_next v) in
     let what := Z.rem r 23 in
     let* (fd, buf) := go_case what break0 (fd v) (buf v) in
     Ret (inl {| iters := u64 (iters v + 1); rand_next := ctx; fd := fd; buf := buf |})) (Some q)).
  { intros m Hm. destruct (rand _) as [ctx r]. cbn zeta. apply safe_bind, go_case_good; [|done|].
    - intros m' [fd' buf']. apply safe_return. intros m2 Hm2. by apply good_lost.
    - intros m' fd' buf' q' Hm' Hq'. apply safe_return. intros m2 Hm2. apply IH; [lia|done]. }
  destruct (_ =? 0).
  - apply safe_bind. apply good_quiet; [done|]. intros m x Hm. apply safe_return. intros m' Hm'. apply Hbody. lia.
  - apply safe_bind, safe_return. intros m' Hm'. apply Hbody. lia.
Qed.

Lemma go_good n which ctx q : own q = ∅ -> good n Q (go which ctx) (Some q).
Proof.
  intros Hq. unfold go. do 3 call HL. destruct (negb _); [call HL|].
  call HL. apply go_loop_good. unfold only. set_solver.
Qed.
End never_returns.

Lemma go_exit_good n (Q : nat -> unit -> option has -> Prop) which ctx q :
  own q = ∅ -> good n Q (go which ctx ;;; exit 0) (Some q).
Proof. intros Hq. apply safe_bind, go_good; [|done]. intros m []. apply good_exit. Qed.

Lemma good_wait_status {R} n (Q : nat -> R -> option has -> Prop) (k : Z -> prog R) q :
  (forall m st, (m <= n)%nat -> good m Q (k st) (Some q)) -> good n Q (let* st := wait_status in k st) (Some q).
Proof.
  intros Hk. apply safe_bind. unfold wait_status. apply good_quiet; [done|]. intros m [pid st] Hm.
  apply safe_return. intros m' Hm'. apply Hk. lia.
Qed.

(** It ends in [exit]. *)
Lemma iter_good n (Q : nat -> unit -> option has -> Prop) ctx q :
  lost_ok Q -> own q = ∅ -> good n Q (iter ctx) (Some q).
Proof.
  intros HL Hq. unfold iter. do 2 call HL. apply good_fork. intros ? pid1 q1 ? Hq1 Hp1.
  destruct (Z.ltb_spec pid1 0); [call HL|]. destruct (Z.eqb_spec pid1 0); [apply go_exit_good; congruence|].
  apply good_fork. intros ? pid2 q2 ? Hq2 Hp2.
  destruct (Z.ltb_spec pid2 0); [call HL|]. destruct (Z.eqb_spec pid2 0); [apply go_exit_good; congruence|].
  rewrite Hp1 in Hp2 by lia. specialize (Hp2 ltac:(lia)). apply good_wait_status. intros ? st1 ?. apply safe_bind.
  assert (Hend : forall m, good m Q (wait_status ;;; exit 0) (Some q2)).
  { intros ?. apply good_wait_status. intros. apply good_exit. }
  destruct (negb _); [|all_done Hend].
  apply good_kill; [set_solver|]. intros. apply good_kill; [set_solver|]. intros. all_done Hend.
Qed.

(** The program never comes to its end, unless the kernel gave an impossible
    answer. *)
Definition never {R} (_ : nat) (_ : R) (q : option has) : Prop := q = None.

Lemma main_loop_good n ctx q : own q = ∅ -> good n never (main_loop ctx) (Some q).
Proof.
  revert ctx q. induction n as [n IH] using lt_wf_ind. intros ctx q Hq. unfold main_loop. apply safe_iter, good_fork.
  intros m pid q' Hm Hq' _. destruct (pid =? 0).
  - apply safe_bind, iter_good; [|congruence]. intros m' r. apply good_exit.
  - apply safe_bind. destruct (0 <? pid); [apply good_quiet; [done|]; intros ? ? ?|]; apply safe_return; intros ? ?;
      (apply good_quiet; [done|]); intros ? ? ?; apply safe_return; intros ? ?; (apply IH; [lia|congruence]).
Qed.

(** Whatever the kernel answers, short of opening a descriptor twice,
    no process of the test ever has more than five descriptors besides those it
    started with, so that it cannot run into its limit; every process it kills is
    its child or itself; and the test never comes to its end. *)
Theorem grind_bounded n : good n never main (Some {| own := ∅; pids := ∅ |}).
Proof. by apply main_loop_good. Qed.
End Grind.
