(* ===== verification/Uart.v ===== *)
(** * The serial port: [kernel/uart.c]

    The transmit ring between [write] and the device, the polled output used
    for echo and kernel messages, and the receive side.  The 16550 itself is
    the interface [UartRegs] with its laws [UartRegsLaws]; the theorems say
    that the ring is a first-in first-out channel to the wire. *)

From S2P Require Import Prelude.

(** ** The registers *)

Class UartRegs (D : Type) : Type := {
  read_lsr : D -> Z * D;
  read_rhr : D -> Z * D;
  write_thr : Z -> D -> D;
}.

Definition LSR_RX_READY : Z := Z.shiftl 1 0.
Definition LSR_TX_IDLE : Z := Z.shiftl 1 5.

(** [sent] is what the transmitter has taken for the wire, [recv] what waits in
    the receive FIFO; [polls] bounds the status reads until the transmitter is
    idle.  [thr_empty] says that the transmit holding register can take a byte,
    which a status read with [LSR_TX_IDLE] shows; nothing is known of a byte
    that is written while the register is full. *)
Class UartRegsLaws (D : Type) `{UartRegs D} : Type := {
  sent : D -> list Z;
  recv : D -> list Z;
  thr_empty : D -> Prop;
  polls : nat;
  lsr_sent : forall d, sent (read_lsr d).2 = sent d;
  lsr_recv : forall d, recv (read_lsr d).2 = recv d;
  lsr_ready : forall d, Z.land (read_lsr d).1 LSR_RX_READY <> 0 <-> recv d <> [];
  rhr_recv : forall d c l, recv d = c :: l ->
    byte_ok c /\ read_rhr d = (c, (read_rhr d).2) /\ recv (read_rhr d).2 = l;
  rhr_sent : forall d, sent (read_rhr d).2 = sent d;
  lsr_empty : forall d, Z.land (read_lsr d).1 LSR_TX_IDLE <> 0 -> thr_empty (read_lsr d).2;
  thr_sent : forall c d, thr_empty d -> sent (write_thr c d) = sent d ++ [c];
  thr_recv : forall c d, recv (write_thr c d) = recv d;
  lsr_idle : forall d, exists k, (k < polls)%nat /\
    Z.land (read_lsr (Nat.iter k (fun d => (read_lsr d).2) d)).1 LSR_TX_IDLE <> 0;
}.

Module Uart.

Definition UART_TX_BUF_SIZE : Z := 32.

(** The driver's globals, with the device behind them. *)
Record uart (D : Type) : Type := {
  uart_tx_buf : list Z;
  uart_tx_w : Z;
  uart_tx_r : Z;
  panicked : bool;
  dev : D;
}.
Arguments uart_tx_buf {D}.
Arguments uart_tx_w {D}.
Arguments uart_tx_r {D}.
Arguments panicked {D}.
Arguments dev {D}.

Section Uart.
Context {D : Type} `{UartRegs D}.
Notation T := (uart D).

Definition set_dev (d : D) (t : T) : T :=
  {| uart_tx_buf := uart_tx_buf t; uart_tx_w := uart_tx_w t; uart_tx_r := uart_tx_r t;
     panicked := panicked t; dev := d |}.
Definition set_ring (b : list Z) (w r : Z) (t : T) : T :=
  {| uart_tx_buf := b; uart_tx_w := w; uart_tx_r := r; panicked := panicked t; dev := dev t |}.

Definition ReadLSR : M T Z :=
  fun t => let '(v, d) := read_lsr (dev t) in Ok v (set_dev d t).
Definition ReadRHR : M T Z :=
  fun t => let '(v, d) := read_rhr (dev t) in Ok v (set_dev d t).
Definition WriteTHR (c : Z) : M T unit := modify (fun t => set_dev (write_thr (u8 c) (dev t)) t).

(** Every round sends one of at most [UART_TX_BUF_SIZE] bytes. *)
Fixpoint uartstart_loop (fuel : nat) : M T unit :=
  match fuel with
  | O => halt (SFault "uartstart: ring")
  | S fuel =>
      t <- get ;;
      if uart_tx_w t =? uart_tx_r t then ret tt
      else
        lsr <- ReadLSR ;;
        if Z.land lsr LSR_TX_IDLE =? 0 then ret tt
        else
          let c := uart_tx_buf t !!! Z.to_nat (uart_tx_r t mod UART_TX_BUF_SIZE) in
          modify (fun t => set_ring (uart_tx_buf t) (uart_tx_w t) (u64 (uart_tx_r t + 1)) t) ;;
          WriteTHR c ;;
          uartstart_loop fuel
  end.

Definition uartstart : M T unit := uartstart_loop (S (Z.to_nat UART_TX_BUF_SIZE)).

(** A full ring puts the writer to sleep on [&uart_tx_r]. *)
Definition uartputc (c : Z) : M T unit :=
  t <- get ;;
  if panicked t then halt (SBlock "panicked")
  else if uart_tx_w t =? u64 (uart_tx_r t + UART_TX_BUF_SIZE) then halt (SBlock "uart_tx_r")
  else
    modify (fun t =>
      set_ring (<[ Z.to_nat (uart_tx_w t mod UART_TX_BUF_SIZE) := u8 c ]> (uart_tx_buf t))
        (u64 (uart_tx_w t + 1)) (uart_tx_r t) t) ;;
    uartstart.

Fixpoint wait_idle (fuel : nat) : M T unit :=
  match fuel with
  | O => halt (SBlock "LSR_TX_IDLE")
  | S fuel =>
      lsr <- ReadLSR ;;
      if Z.land lsr LSR_TX_IDLE =? 0 then wait_idle fuel else ret tt
  end.

Definition uartputc_sync (spin : nat) (c : Z) : M T unit :=
  t <- get ;;
  if panicked t then halt (SBlock "panicked")
  else wait_idle spin ;; WriteTHR c.

Definition uartgetc : M T Z :=
  lsr <- ReadLSR ;;
  if negb (Z.land lsr 1 =? 0) then ReadRHR else ret (-1).

(** ** Ring indices *)

Lemma u64_eq_off r n m : 0 <= n < 2 ^ 64 -> 0 <= m < 2 ^ 64 ->
  u64 (r + n) = u64 (r + m) -> n = m.
Proof. unfold u64. intros ?? E. Z.div_mod_to_equations. lia. Qed.

Lemma u64_mod_32 x : u64 x mod UART_TX_BUF_SIZE = x mod UART_TX_BUF_SIZE.
Proof. unfold u64, UART_TX_BUF_SIZE. Z.div_mod_to_equations. lia. Qed.

Lemma u64_add x y : u64 (u64 x + y) = u64 (x + y).
Proof. unfold u64. apply Zplus_mod_idemp_l. Qed.

(** The ring holds [q], oldest first. *)
Definition queued (t : T) (q : list Z) : Prop :=
  length (uart_tx_buf t) = Z.to_nat UART_TX_BUF_SIZE /\ 0 <= uart_tx_r t < 2 ^ 64 /\
  uart_tx_w t = u64 (uart_tx_r t + Z.of_nat (length q)) /\
  Z.of_nat (length q) <= UART_TX_BUF_SIZE /\ Forall byte_ok q /\ panicked t = false /\
  forall i c, q !! i = Some c ->
    uart_tx_buf t !! Z.to_nat ((uart_tx_r t + Z.of_nat i) mod UART_TX_BUF_SIZE) = Some c.

Lemma queued_dev t q d : queued t q -> queued (set_dev d t) q.
Proof. done. Qed.

Lemma queued_pop t c q :
  queued t (c :: q) ->
  queued (set_ring (uart_tx_buf t) (uart_tx_w t) (u64 (uart_tx_r t + 1)) t) q.
Proof.
  intros (Hl & Hr & Hw & Hn & Hb & Hp & Hq). cbn [length] in *. unfold queued. cbn.
  split_and!; try done.
  - apply u64_range.
  - apply u64_range.
  - rewrite Hw, u64_add. f_equal. lia.
  - lia.
  - by apply Forall_cons in Hb as [_ ?].
  - intros i x Hi. specialize (Hq (S i) x Hi). rewrite <- Hq. do 2 f_equal.
    rewrite <- (u64_mod_32 (u64 _ + _)), u64_add, u64_mod_32. f_equal. lia.
Qed.

Lemma queued_push t q c :
  queued t q -> Z.of_nat (length q) < UART_TX_BUF_SIZE -> byte_ok c ->
  queued (set_ring (<[ Z.to_nat (uart_tx_w t mod UART_TX_BUF_SIZE) := c ]> (uart_tx_buf t))
    (u64 (uart_tx_w t + 1)) (uart_tx_r t) t) (q ++ [c]).
Proof.
  intros (Hl & Hr & Hw & Hn & Hb & Hp & Hq) Hlt Hc. unfold queued. cbn.
  rewrite Hw, u64_mod_32, u64_add, length_app. cbn [length].
  split_and!; try done; try lia.
  - by rewrite length_insert.
  - f_equal. lia.
  - rewrite Forall_app. auto.
  - intros i x Hi. unfold UART_TX_BUF_SIZE in *. destruct (decide (i = length q)) as [->|Hne].
    + rewrite lookup_app_r, Nat.sub_diag in Hi by lia. cbn in Hi. simplify_eq.
      apply list_lookup_insert_eq. rewrite Hl. Z.div_mod_to_equations. lia.
    + assert (i < length q)%nat.
      { apply lookup_lt_Some in Hi. rewrite length_app in Hi. cbn in Hi. lia. }
      rewrite lookup_app_l in Hi by done. rewrite list_lookup_insert_ne; [by apply Hq|].
      Z.div_mod_to_equations. lia.
Qed.

Context {DL : UartRegsLaws D}.

(** ** What the operations do to the wire and the ring *)

(** The bytes the device took and those still in the ring, in order. *)
Definition channel (t : T) (q : list Z) : list Z := sent (dev t) ++ q.

Lemma uartstart_loop_wp fuel t q :
  queued t q -> (length q < fuel)%nat ->
  wp (uartstart_loop fuel) (fun _ t' => exists k, queued t' (drop k q) /\
    sent (dev t') = sent (dev t) ++ take k q /\ recv (dev t') = recv (dev t)) t.
Proof.
  revert t q. induction fuel as [|fuel IH]; intros t q Hq Hf; [lia|]. cbn [uartstart_loop].
  apply wp_bind, wp_get. pose proof Hq as (Hl & Hr & Hw & Hn & Hb & Hp & Hlk).
  case_if_as E.
  { apply wp_ret. exists 0%nat. rewrite drop_0, take_0, app_nil_r. done. }
  destruct q as [|c q].
  { cbn in Hw. rewrite Z.add_0_r, u64_small in Hw by lia. zify_bool. lia. }
  apply wp_bind. unfold ReadLSR, wp. destruct (read_lsr (dev t)) as [v d] eqn:El.
  pose proof (lsr_sent (dev t)) as Hs. pose proof (lsr_recv (dev t)) as Hv. rewrite El in Hs, Hv.
  pose proof (lsr_empty (dev t)) as He. rewrite El in He.
  cbn in Hs, Hv, He. fold (@wp T unit). case_if_as Ei.
  { apply wp_ret. exists 0%nat. rewrite drop_0, take_0, app_nil_r. done. }
  apply He in Ei.
  pose proof (Hlk 0%nat c eq_refl) as H0. rewrite Z.add_0_r in H0.
  rewrite (list_lookup_total_correct _ _ _ H0).
  apply wp_bind, wp_modify, wp_bind, wp_modify.
  eapply wp_mono; [apply (IH _ q); [|cbn in Hf; lia]|].
  { apply queued_dev. by apply (queued_pop (set_dev d t) c q). }
  intros _ t' (k & Hk & Hsent & Hrecv). exists (S k). cbn in Hsent, Hrecv. split; [done|].
  assert (u8 c = c) as Hc by (apply u8_small; by apply Forall_cons in Hb as [??]).
  rewrite thr_sent in Hsent by done. rewrite thr_recv in Hrecv. rewrite Hsent, Hrecv, Hs, Hv, Hc.
  cbn. by rewrite <- app_assoc.
Qed.

Lemma uartstart_wp t q :
  queued t q ->
  wp uartstart (fun _ t' => exists k, queued t' (drop k q) /\
    sent (dev t') = sent (dev t) ++ take k q /\ recv (dev t') = recv (dev t)) t.
Proof.
  intros Hq. apply uartstart_loop_wp; [done|]. destruct Hq as (_ & _ & _ & Hn & _).
  unfold UART_TX_BUF_SIZE in *. lia.
Qed.

(** A byte written goes to the end of the channel; the writer sleeps exactly
    when the ring is full. *)
Lemma uartputc_spec t q c :
  queued t q -> byte_ok c ->
  if decide (Z.of_nat (length q) = UART_TX_BUF_SIZE)
  then stops (uartputc c) (SBlock "uart_tx_r") t
  else wp (uartputc c) (fun _ t' => exists q', queued t' q' /\
    channel t' q' = channel t q ++ [c] /\ recv (dev t') = recv (dev t) /\
    (length q' <= length q + 1)%nat) t.
Proof.
  intros Hq Hc. pose proof Hq as (Hl & Hr & Hw & Hn & Hb & Hp & Hlk). unfold UART_TX_BUF_SIZE in *.
  destruct (decide _) as [Hfull|Hfull]; unfold uartputc.
  - unfold stops, bind, get. rewrite Hp, Hw, Hfull. unfold UART_TX_BUF_SIZE. by rewrite Z.eqb_refl.
  - apply wp_bind, wp_get. rewrite Hp. case_if_as E.
    { zify_bool. rewrite Hw in E. apply u64_eq_off in E; unfold UART_TX_BUF_SIZE in *; lia. }
    apply wp_bind, wp_modify. rewrite (u8_small c) by exact Hc.
    eapply wp_mono; [apply (uartstart_wp _ (q ++ [c]))|].
    { apply queued_push; [done|unfold UART_TX_BUF_SIZE; lia|done]. }
    intros _ t' (k & Hk & Hs & Hv). exists (drop k (q ++ [c])). split; [done|]. split; [|split].
    + unfold channel. rewrite Hs. cbn. by rewrite <- !app_assoc, take_drop.
    + done.
    + rewrite length_drop, length_app. cbn. lia.
Qed.

Lemma wait_idle_wp fuel t :
  (exists k, (k < fuel)%nat /\
    Z.land (read_lsr (Nat.iter k (fun d => (read_lsr d).2) (dev t))).1 LSR_TX_IDLE <> 0) ->
  wp (wait_idle fuel) (fun _ t' => exists d, t' = set_dev d t /\ thr_empty d /\
    sent d = sent (dev t) /\ recv d = recv (dev t)) t.
Proof.
  revert t. induction fuel as [|fuel IH]; intros t (k & Hk & Hi); [lia|]. cbn [wait_idle].
  apply wp_bind. unfold ReadLSR, wp. destruct (read_lsr (dev t)) as [v d] eqn:El.
  pose proof (lsr_sent (dev t)) as Hs. pose proof (lsr_recv (dev t)) as Hv. rewrite El in Hs, Hv.
  pose proof (lsr_empty (dev t)) as He. rewrite El in He.
  cbn in Hs, Hv, He. fold (@wp T unit). case_if_as E; [|apply He in E; by apply wp_ret; exists d].
  destruct k as [|k]; [cbn in Hi; rewrite El in Hi; cbn in Hi; zify_bool; done|].
  eapply wp_mono; [apply IH; exists k; split; [lia|]|].
  - rewrite Nat.iter_succ_r, El in Hi. exact Hi.
  - intros _ t' (d' & -> & H0 & H1 & H2). exists d'. cbn in *. by rewrite H1, H2.
Qed.

(** Polled output goes straight to the wire, past the ring. *)
Lemma uartputc_sync_wp t q c :
  queued t q -> byte_ok c ->
  wp (uartputc_sync polls c) (fun _ t' => queued t' q /\ sent (dev t') = sent (dev t) ++ [c] /\
    recv (dev t') = recv (dev t)) t.
Proof.
  intros Hq Hc. unfold uartputc_sync. apply wp_bind, wp_get.
  destruct Hq as (Hl & Hr & Hw & Hn & Hb & Hp & Hlk). rewrite Hp. apply wp_bind.
  eapply wp_mono; [apply wait_idle_wp, lsr_idle|]. intros _ t' (d & -> & He & Hs & Hv).
  apply wp_modify. cbn. rewrite (u8_small c) by exact Hc. by rewrite thr_sent, thr_recv, Hs, Hv.
Qed.

Lemma uartgetc_wp t :
  wp uartgetc (fun c t' => exists d, t' = set_dev d t /\ sent d = sent (dev t) /\
    match recv (dev t) with
    | [] => c = -1 /\ recv d = []
    | k :: l => c = k /\ byte_ok k /\ recv d = l
    end) t.
Proof.
  unfold uartgetc. apply wp_bind. unfold ReadLSR, wp. destruct (read_lsr (dev t)) as [v d] eqn:El.
  pose proof (lsr_sent (dev t)) as Hs. pose proof (lsr_recv (dev t)) as Hv.
  pose proof (lsr_ready (dev t)) as Hrdy. rewrite El in Hs, Hv, Hrdy. cbn in Hs, Hv, Hrdy.
  unfold LSR_RX_READY in Hrdy. cbn in Hrdy.
  destruct (recv (dev t)) as [|k l] eqn:Er.
  - destruct (Z.land v 1 =? 0) eqn:E; cbn; [by exists d|]. apply Z.eqb_neq in E. by apply Hrdy in E.
  - destruct (Z.land v 1 =? 0) eqn:E; cbn.
    { apply Z.eqb_eq in E. by destruct (proj2 Hrdy ltac:(done)). }
    destruct (rhr_recv d k l Hv) as (Hk & Hrd & Hl). unfold ReadRHR. cbn. rewrite Hrd.
    exists (read_rhr d).2. by rewrite rhr_sent, Hs.
Qed.

End Uart.
End Uart.
