(* ===== verification/Console.v ===== *)
(** * The console: [kernel/console.c] and [uartintr]

    Line editing in the interrupt handler, the ring [cons.buf] between it and
    [consoleread], and [consolewrite].  The handler and the readers are shown
    to implement an editor on two lists, the committed input and the line
    being edited; the console then instantiates the [Devsw] interface of the
    file layer. *)

From S2P Require Import Prelude UserMem FileIO VfsState Uart.

Module Console.
Import Uart.

Definition BACKSPACE : Z := 256.
Definition INPUT_BUF_SIZE : Z := 128.
Definition ctrl (x : Z) : Z := x - 64.
Definition CtrlP : Z := ctrl 80.
Definition CtrlU : Z := ctrl 85.
Definition CtrlH : Z := ctrl 72.
Definition CtrlD : Z := ctrl 68.
Definition DEL : Z := 127.
Definition NL : Z := 10.
Definition CR : Z := 13.

(** [cons], and the serial port under it. *)
Record tty (D : Type) : Type := {
  cons_buf : list Z;
  cons_r : Z;
  cons_w : Z;
  cons_e : Z;
  tty_uart : uart D;
}.
Arguments cons_buf {D}.
Arguments cons_r {D}.
Arguments cons_w {D}.
Arguments cons_e {D}.
Arguments tty_uart {D}.

(** How a [consoleread] leaves the processor: it returns, or sleeps on
    [&cons.r] with the arguments its loop has reached. *)
Inductive rd : Type :=
| Returned (n : Z)
| Sleeping (dst n : Z).

Section Console.
Context {D : Type} `{UartRegs D}.
Notation T := (tty D).

(** [spin] bounds the polling of [uartputc_sync]. *)
Context (spin : nat).

Definition set_uart (u : uart D) (t : T) : T :=
  {| cons_buf := cons_buf t; cons_r := cons_r t; cons_w := cons_w t; cons_e := cons_e t;
     tty_uart := u |}.
Definition set_cons (b : list Z) (r w e : Z) (t : T) : T :=
  {| cons_buf := b; cons_r := r; cons_w := w; cons_e := e; tty_uart := tty_uart t |}.
Definition onUart {A} (m : M (uart D) A) : M T A := lift tty_uart set_uart m.

Definition consputc (c : Z) : M T unit :=
  if c =? BACKSPACE then
    onUart (uartputc_sync spin 8) ;; onUart (uartputc_sync spin 32) ;; onUart (uartputc_sync spin 8)
  else onUart (uartputc_sync spin c).

(** Messages of the kernel, byte by byte. *)
Fixpoint cons_print (l : list Z) : M T unit :=
  match l with
  | [] => ret tt
  | c :: l => consputc c ;; cons_print l
  end.

Fixpoint kill_line (fuel : nat) : M T unit :=
  match fuel with
  | O => halt (SFault "consoleintr: ring")
  | S fuel =>
      t <- get ;;
      if negb (cons_e t =? cons_w t) &&
         negb (cons_buf t !!! Z.to_nat (u32 (cons_e t - 1) mod INPUT_BUF_SIZE) =? NL) then
        modify (fun t => set_cons (cons_buf t) (cons_r t) (cons_w t) (u32 (cons_e t - 1)) t) ;;
        consputc BACKSPACE ;;
        kill_line fuel
      else ret tt
  end.

(** [dump] is what [procdump] prints. *)
Definition consoleintr (dump : list Z) (c : Z) : M T unit :=
  if c =? CtrlP then cons_print dump
  else if c =? CtrlU then kill_line (S (Z.to_nat INPUT_BUF_SIZE))
  else if (c =? CtrlH) || (c =? DEL) then
    t <- get ;;
    if negb (cons_e t =? cons_w t) then
      modify (fun t => set_cons (cons_buf t) (cons_r t) (cons_w t) (u32 (cons_e t - 1)) t) ;;
      consputc BACKSPACE
    else ret tt
  else
    t <- get ;;
    if negb (c =? 0) && (u32 (cons_e t - cons_r t) <? INPUT_BUF_SIZE) then
      let c := if c =? CR then NL else c in
      consputc c ;;
      modify (fun t =>
        set_cons (<[ Z.to_nat (cons_e t mod INPUT_BUF_SIZE) := u8 c ]> (cons_buf t))
          (cons_r t) (cons_w t) (u32 (cons_e t + 1)) t) ;;
      t <- get ;;
      if (c =? NL) || (c =? CtrlD) || (u32 (cons_e t - cons_r t) =? INPUT_BUF_SIZE) then
        modify (fun t => set_cons (cons_buf t) (cons_r t) (cons_e t) (cons_e t) t)
      else ret tt
    else ret tt.

(** [fuel] bounds the bytes one interrupt handles. *)
Fixpoint uartintr_loop (fuel : nat) (dump : list Z) : M T unit :=
  match fuel with
  | O => halt (SBlock "uart receive FIFO")
  | S fuel =>
      c <- onUart uartgetc ;;
      if c =? -1 then ret tt
      else consoleintr dump c ;; uartintr_loop fuel dump
  end.

Definition uartintr (fuel : nat) (dump : list Z) : M T unit :=
  uartintr_loop fuel dump ;; onUart uartstart.

Context {U : Type} `{UM : UserMem U}.
Notation W := (fsw T U).

(** Every round copies one byte, so [n] rounds are enough. *)
Fixpoint consoleread_loop (fuel : nat) (killed : bool) (user_dst : bool) (dst n target : Z)
    : M W rd :=
  match fuel with
  | O => ret (Returned (s32 (u32 (target - n))))
  | S fuel =>
      if 0 <? n then
        t <- gets fw_cache ;;
        if cons_r t =? cons_w t then
          if killed then ret (Returned (-1)) else ret (Sleeping dst n)
        else
          let c := cons_buf t !!! Z.to_nat (cons_r t mod INPUT_BUF_SIZE) in
          modify (fun w => set_cache
            (set_cons (cons_buf t) (u32 (cons_r t + 1)) (cons_w t) (cons_e t) t) w) ;;
          if c =? CtrlD then
            (if u32 n <? target then
               modify (fun w => let t := fw_cache w in
                 set_cache (set_cons (cons_buf t) (u32 (cons_r t - 1)) (cons_w t) (cons_e t) t) w)
             else ret tt) ;;
            ret (Returned (s32 (u32 (target - n))))
          else
            ok <- either_copyout user_dst dst [c] ;;
            if negb ok then ret (Returned (s32 (u32 (target - n))))
            else if c =? NL then ret (Returned (s32 (u32 (target - (n - 1)))))
            else consoleread_loop fuel killed user_dst (u64 (dst + 1)) (n - 1) target
      else ret (Returned (s32 (u32 (target - n))))
  end.

Definition consoleread (killed : bool) (user_dst : bool) (dst n : Z) : M W rd :=
  consoleread_loop (S (Z.to_nat n)) killed user_dst dst n (u32 n).

(** [fuel] is the number of bytes left. *)
Fixpoint consolewrite_loop (fuel : nat) (user_src : bool) (src n i : Z) : M W Z :=
  match fuel with
  | O => ret i
  | S fuel =>
      if i <? n then
        ' (bytes, ok) <- either_copyin user_src (u64 (src + i)) 1 ;;
        if negb ok then ret i
        else
          lift fw_cache set_cache (onUart (uartputc (bytes !!! 0%nat))) ;;
          consolewrite_loop fuel user_src src n (i + 1)
      else ret i
  end.

Definition consolewrite (user_src : bool) (src n : Z) : M W Z :=
  consolewrite_loop (S (Z.to_nat n)) user_src src n 0.

(** ** The editor the handler implements *)

(** The input committed to readers, and the line being edited. *)
Record editor : Type := { committed : list Z; line : list Z }.

Definition room (s : editor) : bool :=
  Z.of_nat (length (committed s) + length (line s)) <? INPUT_BUF_SIZE.

(** Return ends a line like newline. *)
Definition char_of (c : Z) : Z := if c =? CR then NL else c.

Definition type_char (c : Z) (s : editor) : editor :=
  let s' := {| committed := committed s; line := line s ++ [c] |} in
  if (c =? NL) || (c =? CtrlD) || negb (room s')
  then {| committed := committed s ++ line s ++ [c]; line := [] |} else s'.

Definition key (s : editor) (c : Z) : editor :=
  if c =? CtrlP then s
  else if c =? CtrlU then {| committed := committed s; line := [] |}
  else if (c =? CtrlH) || (c =? DEL) then
    {| committed := committed s; line := removelast (line s) |}
  else if negb (c =? 0) && room s then type_char (char_of c) s
  else s.

Definition erase : list Z := [8; 32; 8].

(** What a key shows on the screen. *)
Definition echo (dump : list Z) (s : editor) (c : Z) : list Z :=
  if c =? CtrlP then dump
  else if c =? CtrlU then mjoin (replicate (length (line s)) erase)
  else if (c =? CtrlH) || (c =? DEL) then
    match line s with [] => [] | _ => erase end
  else if negb (c =? 0) && room s then [char_of c]
  else [].

Fixpoint echoes (dump : list Z) (s : editor) (ks : list Z) : list Z :=
  match ks with
  | [] => []
  | c :: ks => echo dump s c ++ echoes dump (key s c) ks
  end.

(** What a reader of [n] bytes gets from the committed input [q]: the bytes,
    the input left, and whether it still waits; [first] while nothing was
    delivered. *)
Fixpoint deliver (first : bool) (n : nat) (q : list Z) : list Z * list Z * bool :=
  match n, q with
  | O, _ => ([], q, false)
  | S _, [] => ([], [], true)
  | S n, c :: q' =>
      if c =? CtrlD then ([], if first then q' else q, false)
      else if c =? NL then ([c], q', false)
      else let '(l, rest, more) := deliver false n q' in (c :: l, rest, more)
  end.

End Console.

(** ** The handler implements the editor *)

Lemma u32_add x y : u32 (u32 x + y) = u32 (x + y).
Proof. unfold u32. apply Zplus_mod_idemp_l. Qed.

Lemma u32_eq_off r n m : 0 <= n < 2 ^ 32 -> 0 <= m < 2 ^ 32 ->
  u32 (r + n) = u32 (r + m) -> n = m.
Proof. unfold u32. intros ?? E. Z.div_mod_to_equations. lia. Qed.

Lemma u32_off_sub r n : 0 <= n < 2 ^ 32 -> u32 (u32 (r + n) - r) = n.
Proof. unfold u32. intros. Z.div_mod_to_equations. lia. Qed.

Lemma u32_mod_128 x : u32 x mod INPUT_BUF_SIZE = x mod INPUT_BUF_SIZE.
Proof. unfold u32, INPUT_BUF_SIZE. Z.div_mod_to_equations. lia. Qed.

Section Proofs.
Context {D : Type} `{UL : UartRegsLaws D}.
Notation T := (tty D).

(** The ring holds the committed input and then the line, from [cons.r]. *)
Definition shows (t : T) (s : editor) : Prop :=
  let l := committed s ++ line s in
  length (cons_buf t) = Z.to_nat INPUT_BUF_SIZE /\ 0 <= cons_r t < 2 ^ 32 /\
  cons_w t = u32 (cons_r t + Z.of_nat (length (committed s))) /\
  cons_e t = u32 (cons_r t + Z.of_nat (length l)) /\
  Z.of_nat (length l) <= INPUT_BUF_SIZE /\
  Forall (fun c => c <> NL) (line s) /\ Forall byte_ok l /\
  forall i c, l !! i = Some c ->
    cons_buf t !! Z.to_nat ((cons_r t + Z.of_nat i) mod INPUT_BUF_SIZE) = Some c.

(** Two states whose output side moved on by [out]. *)
Definition printed (out q : list Z) (u u' : uart D) : Prop :=
  queued u' q /\ sent (dev u') = sent (dev u) ++ out /\ recv (dev u') = recv (dev u).

Lemma printed_nil q u : queued u q -> printed [] q u u.
Proof. intros Hq. split; [done|]. by rewrite app_nil_r. Qed.

Lemma printed_trans o1 o2 q u1 u2 u3 :
  printed o1 q u1 u2 -> printed o2 q u2 u3 -> printed (o1 ++ o2) q u1 u3.
Proof.
  intros (_ & H1 & H2) (Hq & H3 & H4). split; [done|]. by rewrite H3, H1, app_assoc, H4, H2.
Qed.

Lemma shows_uart t s u : shows t s -> shows (set_uart u t) s.
Proof. done. Qed.

Definition glyph (c : Z) : list Z := if c =? BACKSPACE then erase else [c].

Lemma uart_sync_wp t q c :
  queued (tty_uart t) q -> byte_ok c ->
  wp (onUart (uartputc_sync polls c)) (fun _ t' => exists u, t' = set_uart u t /\
    printed [c] q (tty_uart t) u) t.
Proof.
  intros Hq Hc. apply wp_lift. eapply wp_mono; [by apply uartputc_sync_wp|].
  intros _ u (H1 & H2 & H3). by exists u.
Qed.

Lemma consputc_wp t q c :
  queued (tty_uart t) q -> byte_ok c \/ c = BACKSPACE ->
  wp (consputc polls c) (fun _ t' => exists u, t' = set_uart u t /\
    printed (glyph c) q (tty_uart t) u) t.
Proof.
  intros Hq Hc. unfold consputc, glyph. case_if_as E.
  - wp_use uart_sync_wp; [done|done|]. intros _ t1 (u1 & -> & P1).
    wp_use uart_sync_wp; [by apply P1|done|]. intros _ t2 (u2 & -> & P2).
    wp_use uart_sync_wp; [by apply P2|done|]. intros _ t3 (u3 & -> & P3).
    exists u3. split; [done|]. exact (printed_trans _ _ _ _ _ _ P1 (printed_trans _ _ _ _ _ _ P2 P3)).
  - apply uart_sync_wp; [done|]. by destruct Hc.
Qed.

Lemma cons_print_wp t q l :
  queued (tty_uart t) q -> Forall byte_ok l ->
  wp (cons_print polls l) (fun _ t' => exists u, t' = set_uart u t /\
    printed l q (tty_uart t) u) t.
Proof.
  intros Hq Hl. revert t Hq. induction Hl as [|c l Hc Hl IH]; intros t Hq; cbn [cons_print].
  { apply wp_ret. exists (tty_uart t). split; [by destruct t|]. by apply printed_nil. }
  wp_use consputc_wp; [done|by left|]. intros _ t1 (u1 & -> & P1).
  eapply wp_mono; [apply IH, P1|]. intros _ t2 (u2 & -> & P2). exists u2. split; [done|].
  unfold glyph in P1. destruct (Z.eqb_spec c BACKSPACE) as [->|_];
    [unfold byte_ok, BACKSPACE in Hc; lia|].
  exact (printed_trans _ _ _ _ _ _ P1 P2).
Qed.

(** *** Moves of the ring *)

Lemma shows_edges t s :
  shows t s -> cons_e t = cons_w t <-> line s = [].
Proof.
  intros (_ & Hr & Hw & He & Hn & _). rewrite He, Hw, length_app in *.
  unfold INPUT_BUF_SIZE in Hn. split.
  - intros E. apply u32_eq_off in E; [|lia..]. apply nil_length_inv. lia.
  - intros ->. cbn. by rewrite Nat.add_0_r.
Qed.

Lemma shows_back t q l c :
  shows t {| committed := q; line := l ++ [c] |} ->
  shows (set_cons (cons_buf t) (cons_r t) (cons_w t) (u32 (cons_e t - 1)) t)
    {| committed := q; line := l |} /\
  cons_buf t !!! Z.to_nat (u32 (cons_e t - 1) mod INPUT_BUF_SIZE) = c /\ c <> NL.
Proof.
  unfold shows. cbn. intros (Hl & Hr & Hw & He & Hn & Hnl & Hb & Hi).
  rewrite app_assoc in *. rewrite length_app in He, Hn. cbn [length] in He, Hn.
  assert (u32 (cons_e t - 1) = u32 (cons_r t + Z.of_nat (length (q ++ l)))) as Hx.
  { rewrite He, <- Z.add_opp_r, u32_add. f_equal. lia. }
  apply Forall_app in Hnl as [Hnl Hc]. apply Forall_app in Hb as [Hb _].
  split; [|split].
  - split_and!; try done; try lia. intros i x Hx'. apply Hi. by apply lookup_app_l_Some.
  - rewrite Hx, u32_mod_128. apply list_lookup_total_correct, Hi. by rewrite list_lookup_middle.
  - by inversion Hc.
Qed.

Lemma shows_store t q l c :
  shows t {| committed := q; line := l |} -> byte_ok c ->
  Z.of_nat (length (q ++ l)) < INPUT_BUF_SIZE ->
  let b := <[ Z.to_nat (cons_e t mod INPUT_BUF_SIZE) := c ]> (cons_buf t) in
  (c <> NL ->
    shows (set_cons b (cons_r t) (cons_w t) (u32 (cons_e t + 1)) t)
      {| committed := q; line := l ++ [c] |}) /\
  shows (set_cons b (cons_r t) (u32 (cons_e t + 1)) (u32 (cons_e t + 1)) t)
    {| committed := q ++ l ++ [c]; line := [] |}.
Proof.
  unfold shows. cbn. intros (Hl & Hr & Hw & He & Hn & Hnl & Hb & Hi) Hc Hlt.
  assert (forall i x, ((q ++ l) ++ [c]) !! i = Some x ->
    <[ Z.to_nat (cons_e t mod INPUT_BUF_SIZE) := c ]> (cons_buf t)
      !! Z.to_nat ((cons_r t + Z.of_nat i) mod INPUT_BUF_SIZE) = Some x) as Hi'.
  { intros i x Hx. rewrite He, u32_mod_128. unfold INPUT_BUF_SIZE in *.
    apply lookup_app_Some in Hx as [Hx|[Hge Hx]].
    - pose proof (lookup_lt_Some _ _ _ Hx). rewrite list_lookup_insert_ne; [by apply Hi|].
      Z.div_mod_to_equations. lia.
    - apply list_lookup_singleton_Some in Hx as [Hz <-].
      replace i with (length (q ++ l)) by lia. apply list_lookup_insert_eq. rewrite Hl.
      Z.div_mod_to_equations. lia. }
  assert (u32 (cons_e t + 1) = u32 (cons_r t + Z.of_nat (length ((q ++ l) ++ [c])))) as Hx.
  { rewrite He, u32_add, (length_app (q ++ l)). cbn. f_equal. lia. }
  assert (Forall byte_ok ((q ++ l) ++ [c])) by (rewrite Forall_app; auto).
  assert (Z.of_nat (length ((q ++ l) ++ [c])) <= INPUT_BUF_SIZE) by (rewrite length_app; cbn; lia).
  rewrite app_nil_r, app_assoc, length_insert. split_and!; try done; try lia.
  intros Hne. split_and!; try done; try lia. rewrite Forall_app. auto.
Qed.

Lemma kill_line_wp fuel t s q :
  shows t s -> queued (tty_uart t) q -> (length (line s) < fuel)%nat ->
  wp (kill_line polls fuel) (fun _ t' => shows t' {| committed := committed s; line := [] |} /\
    printed (mjoin (replicate (length (line s)) erase)) q (tty_uart t) (tty_uart t')) t.
Proof.
  revert t s. induction fuel as [|fuel IH]; intros t [p l] Hs Hq Hf; [lia|]. cbn [kill_line].
  apply wp_bind, wp_get. pose proof (shows_edges _ _ Hs) as He. cbn in He, Hf. cbn [committed line].
  destruct l as [|c l _] using rev_ind.
  { rewrite (proj2 He eq_refl), Z.eqb_refl. cbn. apply wp_ret. split; [done|]. by apply printed_nil. }
  destruct (shows_back _ _ _ _ Hs) as (Hb & Hc & Hnl).
  destruct (Z.eqb_spec (cons_e t) (cons_w t)) as [E|_].
  { apply He in E. by destruct l. }
  rewrite Hc. destruct (Z.eqb_spec c NL) as [|_]; [done|]. cbn [negb andb].
  apply wp_bind, wp_modify. wp_use consputc_wp; [done|by right|]. intros _ t1 (u1 & -> & P1).
  rewrite length_app in Hf |- *. cbn in Hf.
  eapply wp_mono; [apply (IH _ {| committed := p; line := l |}); [by apply shows_uart|apply P1|cbn; lia]|].
  intros _ t2 (Hs2 & P2). split; [done|]. cbn in P2. rewrite Nat.add_1_r. cbn.
  exact (printed_trans erase _ _ _ _ _ P1 P2).
Qed.

Lemma room_spec t s :
  shows t s -> (u32 (cons_e t - cons_r t) <? INPUT_BUF_SIZE) = room s.
Proof.
  intros (_ & Hr & _ & He & Hn & _). unfold room.
  rewrite He, u32_off_sub, length_app by (unfold INPUT_BUF_SIZE in Hn; lia). done.
Qed.

(** The store of a typed character, and the commit that may follow. *)
Lemma type_wp t s c :
  shows t s -> byte_ok c -> room s = true ->
  wp (modify (fun t =>
        set_cons (<[ Z.to_nat (cons_e t mod INPUT_BUF_SIZE) := u8 c ]> (cons_buf t))
          (cons_r t) (cons_w t) (u32 (cons_e t + 1)) t) ;;
      t <- get ;;
      if (c =? NL) || (c =? CtrlD) || (u32 (cons_e t - cons_r t) =? INPUT_BUF_SIZE) then
        modify (fun t => set_cons (cons_buf t) (cons_r t) (cons_e t) (cons_e t) t)
      else ret tt)
    (fun _ t' => shows t' (type_char c s) /\ tty_uart t' = tty_uart t) t.
Proof.
  destruct s as [p l]. intros Hs Hc Hroom.
  assert (Z.of_nat (length (p ++ l)) < INPUT_BUF_SIZE) as Hlt.
  { unfold room in Hroom. cbn in Hroom. zify_bool. by rewrite length_app. }
  destruct (shows_store _ _ _ _ Hs Hc Hlt) as [Hkeep Hcommit]. rewrite (u8_small c) by exact Hc.
  apply wp_bind, wp_modify, wp_bind, wp_get. unfold type_char. cbn [committed line].
  set (t1 := set_cons _ _ _ (u32 (cons_e t + 1)) t) in *.
  assert ((u32 (cons_e t1 - cons_r t1) =? INPUT_BUF_SIZE) =
    negb (room {| committed := p; line := l ++ [c] |})) as ->.
  { destruct Hcommit as (_ & _ & Hw & He & Hn & _). cbn in Hw, He, Hn |- *. rewrite He.
    rewrite app_nil_r in *. unfold room. cbn. unfold INPUT_BUF_SIZE in *.
    rewrite u32_off_sub by lia. rewrite !length_app in *. cbn in *.
    destruct (Z.eqb_spec (Z.of_nat (length p + (length l + 1))) 128), (Z.ltb_spec (Z.of_nat (length p + (length l + 1))) 128);
      cbn; try done; lia. }
  destruct (_ || _) eqn:E.
  - apply wp_modify. split; [exact Hcommit|done].
  - apply wp_ret. split; [apply Hkeep|done]. zify_bool. done.
Qed.

(** One byte through the handler. *)
Lemma consoleintr_wp t s q dump c :
  shows t s -> queued (tty_uart t) q -> Forall byte_ok dump -> byte_ok c ->
  wp (consoleintr polls dump c) (fun _ t' => shows t' (key s c) /\
    printed (echo dump s c) q (tty_uart t) (tty_uart t')) t.
Proof.
  intros Hs Hq Hd Hc. unfold consoleintr, key, echo.
  destruct (c =? CtrlP). { wp_use cons_print_wp; [done..|]. by intros _ t' (u & -> & P). }
  destruct (c =? CtrlU).
  { apply kill_line_wp; [done..|]. destruct Hs as (_ & _ & _ & _ & Hn & _).
    rewrite length_app in Hn. unfold INPUT_BUF_SIZE in *. lia. }
  destruct (_ || _) eqn:E.
  - apply wp_bind, wp_get. destruct s as [p l]. pose proof (shows_edges _ _ Hs) as He. cbn in He. cbn [committed line].
    destruct l as [|x l _] using rev_ind.
    { rewrite (proj2 He eq_refl), Z.eqb_refl. apply wp_ret. split; [done|]. by apply printed_nil. }
    destruct (Z.eqb_spec (cons_e t) (cons_w t)) as [Ee|_]; [apply He in Ee; by destruct l|].
    apply wp_bind, wp_modify. destruct (shows_back _ _ _ _ Hs) as (Hb & _).
    wp_use consputc_wp; [done|by right|]. intros _ t1 (u1 & -> & P1).
    rewrite removelast_last. split; [by apply shows_uart|]. by destruct l.
  - apply wp_bind, wp_get. rewrite (room_spec _ _ Hs). destruct (_ && _) eqn:Er.
    2: { apply wp_ret. split; [done|]. by apply printed_nil. }
    zify_bool. fold (char_of c).
    assert (byte_ok (char_of c)) as Hc' by (unfold char_of; by destruct (c =? CR)).
    wp_use consputc_wp; [done|by left|]. intros _ t1 (u1 & -> & P1).
    unfold glyph in P1. destruct (Z.eqb_spec (char_of c) BACKSPACE) as [Eb|_].
    { unfold byte_ok, BACKSPACE in *. lia. }
    eapply wp_mono; [by apply (type_wp _ s)|]. intros _ t2 (Hs2 & Hu2). by rewrite Hu2.
Qed.

(** ** The interrupt *)

Lemma uartintr_loop_wp fuel t s q dump ks :
  shows t s -> queued (tty_uart t) q -> Forall byte_ok dump ->
  recv (dev (tty_uart t)) = ks -> (length ks < fuel)%nat ->
  wp (uartintr_loop polls fuel dump) (fun _ t' => shows t' (fold_left key ks s) /\
    queued (tty_uart t') q /\ recv (dev (tty_uart t')) = [] /\
    sent (dev (tty_uart t')) = sent (dev (tty_uart t)) ++ echoes dump s ks) t.
Proof.
  revert t s ks. induction fuel as [|fuel IH]; intros t s ks Hs Hq Hd Hr Hf; [lia|].
  cbn [uartintr_loop]. apply wp_bind, wp_lift.
  eapply wp_mono; [apply uartgetc_wp|]. cbn beta. intros c u (d & -> & Hsd & Hc). rewrite Hr in Hc.
  destruct ks as [|k ks].
  { destruct Hc as [-> Hrd]. apply wp_ret. cbn. rewrite app_nil_r. done. }
  destruct Hc as (-> & Hk & Hrd). destruct (Z.eqb_spec k (-1)); [unfold byte_ok in Hk; lia|].
  wp_use consoleintr_wp; [by apply shows_uart|by apply queued_dev|done|done|].
  intros _ t1 (Hs1 & Hq1 & Hsent1 & Hrecv1). cbn in Hsent1, Hrecv1, Hf.
  eapply wp_mono; [apply (IH _ (key s k) ks); try done; [congruence|lia]|].
  cbn beta. intros _ t2 (Hs2 & Hq2 & Hr2 & He2). split_and!; try done.
  cbn. by rewrite He2, Hsent1, Hsd, app_assoc.
Qed.


(** ** Reading *)

Lemma shows_pop t c q l :
  shows t {| committed := c :: q; line := l |} ->
  cons_r t <> cons_w t /\ byte_ok c /\
  cons_buf t !!! Z.to_nat (cons_r t mod INPUT_BUF_SIZE) = c /\
  shows (set_cons (cons_buf t) (u32 (cons_r t + 1)) (cons_w t) (cons_e t) t)
    {| committed := q; line := l |}.
Proof.
  unfold shows. cbn. intros (Hl & Hr & Hw & He & Hn & Hnl & Hb & Hi). cbn [length] in *.
  split_and!; try done; try lia; try apply u32_range; try by inversion Hb.
  - intros E. rewrite Hw, <- (u32_small (cons_r t)), <- (Z.add_0_r (cons_r t)) in E by lia.
    rewrite length_app in Hn. unfold INPUT_BUF_SIZE in Hn. rewrite u32_add in E.
    rewrite <- Z.add_assoc in E. apply u32_eq_off in E; lia.
  - apply list_lookup_total_correct. rewrite <- (Hi 0%nat c eq_refl). do 2 f_equal. f_equal. lia.
  - rewrite Hw, u32_add. f_equal. lia.
  - rewrite He, u32_add. f_equal. lia.
  - intros i x Hx. rewrite <- (Hi (S i) x Hx). do 2 f_equal.
    rewrite <- (u32_mod_128 (u32 _ + _)), u32_add, u32_mod_128. f_equal. lia.
Qed.

Lemma shows_empty t l :
  shows t {| committed := []; line := l |} -> cons_r t = cons_w t.
Proof. intros (_ & Hr & Hw & _). cbn in Hw. by rewrite Hw, Z.add_0_r, u32_small. Qed.

Lemma deliver_length first n q : (length (deliver first n q).1.1 <= n)%nat.
Proof.
  revert first q. induction n as [|n IH]; intros first [|c q]; cbn; try lia.
  destruct (c =? CtrlD); [cbn; lia|]. destruct (c =? NL); [cbn; lia|].
  specialize (IH false q). destruct (deliver false n q) as [[??]?]. cbn in *. lia.
Qed.

Context {U : Type} `{UML : UserMemLaws U}.
Notation W := (fsw T U).

(** The memory at [dst] received [l]. *)
Definition received (user : bool) (dst : Z) (l : list Z) (w w' : W) : Prop :=
  other_mem user w w' /\
  forall a, mget user w' a =
    if decide (dst <= a < dst + Z.of_nat (length l)) then l !! Z.to_nat (a - dst)
    else mget user w a.

Lemma received_nil user dst w : received user dst [] w w.
Proof.
  split; [by destruct user|]. intros a. cbn. destruct (decide _); [lia|done].
Qed.

Lemma received_cons user dst c l w w1 w2 :
  received user dst [c] w w1 -> received user (dst + 1) l w1 w2 ->
  received user dst (c :: l) w w2.
Proof.
  intros [O1 R1] [O2 R2]. split; [destruct user; cbn in *; congruence|]. intros a.
  rewrite R2, R1. cbn [length]. destruct (decide (dst + 1 <= a < dst + 1 + Z.of_nat (length l))).
  - rewrite decide_True by lia. rewrite lookup_cons_ne_0 by lia. f_equal. lia.
  - destruct (decide (dst <= a < dst + Z.of_nat 1)).
    + rewrite decide_True by lia. by replace (Z.to_nat (a - dst)) with 0%nat by lia.
    + by rewrite decide_False by lia.
Qed.

Lemma accessible_received user dst l w w' a n :
  received user dst l w w' -> accessible user w a n -> accessible user w' a n.
Proof.
  intros [_ R] Ha x Hx. rewrite R. destruct (decide _) as [Hd|]; [|by apply Ha].
  apply lookup_lt_is_Some. lia.
Qed.

(** How the loop ends, by what [deliver] says. *)
Definition read_result (killed more : bool) (dst n target len : Z) : rd :=
  if more then (if killed then Returned (-1) else Sleeping (dst + len) (n - len))
  else Returned (target - n + len).

Lemma s32_count target n : 0 <= target - n < 2 ^ 31 -> s32 (u32 (target - n)) = target - n.
Proof. intros. rewrite u32_small, s32_small; lia. Qed.

(** What a round of the loop establishes. *)
Definition read_post (killed user : bool) (dst n target : Z) (s : editor)
    (out : list Z * list Z * bool) (w : W) (r : rd) (w' : W) : Prop :=
  let '(l, rest, more) := out in
  r = read_result killed more dst n target (Z.of_nat (length l)) /\
  shows (fw_cache w') {| committed := rest; line := line s |} /\
  tty_uart (fw_cache w') = tty_uart (fw_cache w) /\ minv w' /\ received user dst l w w'.

Lemma read_post_end killed user dst n target s q w w' :
  shows (fw_cache w') {| committed := q; line := line s |} ->
  tty_uart (fw_cache w') = tty_uart (fw_cache w) -> minv w' -> received user dst [] w w' ->
  0 <= target - n < 2 ^ 31 ->
  read_post killed user dst n target s ([], q, false) w (Returned (s32 (u32 (target - n)))) w'.
Proof.
  intros. unfold read_post, read_result. cbn. rewrite s32_count, Z.add_0_r by lia. by split_and!.
Qed.

Lemma read_post_step killed user dst n target s c l rest more w w1 r w' :
  read_post killed user (dst + 1) (n - 1) target {| committed := []; line := line s |}
    (l, rest, more) w1 r w' ->
  received user dst [c] w w1 -> tty_uart (fw_cache w1) = tty_uart (fw_cache w) ->
  read_post killed user dst n target s (c :: l, rest, more) w r w'.
Proof.
  intros (-> & Hs & Hu & Hm & Hr) R1 Hu1. unfold read_post, read_result. cbn [length].
  split_and!; try done; [|congruence|by eapply received_cons].
  destruct more; [destruct killed; [done|]|]; f_equal; lia.
Qed.

(** Claim C33: [consoleread] hands over the committed input.  At any point of
    its loop, with [n] of [target] bytes to go, it stores in the reader's
    memory the bytes up to the first newline (included), up to an end-of-file
    mark or [n] of them, takes exactly those off the input, and returns their
    count; an end-of-file mark is consumed only when nothing was delivered
    before it, so the next read returns 0; when the input runs out it sleeps,
    keeping the place it resumes from, and a killed reader returns -1.  The
    line being edited and all other memory stay. *)
Theorem consoleread_delivers fuel killed user dst n target w s :
  shows (fw_cache w) s -> minv w -> accessible user w dst n ->
  0 <= n <= target -> target < 2 ^ 31 -> 0 <= dst <= 2 ^ 38 -> (Z.to_nat n < fuel)%nat ->
  wp (consoleread_loop fuel killed user dst n target)
    (read_post killed user dst n target s
      (deliver (n =? target) (Z.to_nat n) (committed s)) w) w.
Proof.
  revert dst n w s. induction fuel as [|fuel IH]; intros dst n w [q l] Hs Hm Ha Hn Ht Hd Hf; [lia|].
  cbn [consoleread_loop committed]. pose proof (received_nil user dst w) as Hrn.
  destruct (Z.ltb_spec 0 n) as [Hpos|]; cycle 1.
  { replace n with 0 by lia. apply wp_ret, read_post_end; [done..|lia]. }
  destruct (Z.to_nat n) as [|m] eqn:Em; [lia|]. apply wp_bind, wp_gets.
  destruct q as [|c q]; cbn [deliver].
  { rewrite (shows_empty _ _ Hs), Z.eqb_refl. unfold read_post, read_result. cbn.
    rewrite Z.add_0_r, Z.sub_0_r. destruct killed; by apply wp_ret. }
  destruct (shows_pop _ _ _ _ Hs) as (Hne & Hc & Hget & Hs').
  destruct (Z.eqb_spec (cons_r (fw_cache w)) (cons_w (fw_cache w))); [done|].
  rewrite Hget. apply wp_bind, wp_modify. set (w1 := set_cache _ w).
  assert (received user dst [] w w1) as Hrn1 by (by destruct user).
  destruct (c =? CtrlD) eqn:Ed.
  { apply wp_bind. rewrite (u32_small n) by lia.
    destruct (Z.eqb_spec n target), (Z.ltb_spec n target); try lia; [apply wp_ret|apply wp_modify];
      apply wp_ret, read_post_end; try done; try lia.
    subst w1. cbn. rewrite <- (Z.add_opp_r (u32 _)), u32_add.
    rewrite Z.add_opp_r, Z.add_simpl_r, u32_small by apply Hs. by destruct (fw_cache w). }
  wp_use either_copyout_wp; [exact Hm|by apply Forall_singleton| |done|].
  { intros a Hx. apply (Ha a). cbn in Hx. lia. }
  intros ok w2 (-> & Hm2 & Hc2 & Hrec). cbn [negb].
  assert (received user dst [c] w w2) as R1 by exact Hrec.
  assert (tty_uart (fw_cache w2) = tty_uart (fw_cache w)) as Hu2 by by rewrite Hc2.
  destruct (c =? NL) eqn:Enl.
  { apply wp_ret. eapply read_post_step; [|done..]. apply read_post_end; rewrite ?Hc2; try done; try lia.
    apply received_nil. }
  destruct (accessible_bound _ _ _ _ Hm Ha ltac:(lia)) as [_ Hend]. rewrite u64_small by lia.
  replace m with (Z.to_nat (n - 1)) by lia.
  assert ((n - 1 =? target) = false) as Hfst by (apply Z.eqb_neq; lia).
  eapply wp_mono; [apply (IH (dst + 1) (n - 1) w2 {| committed := q; line := l |}); try done; try lia|].
  - by rewrite Hc2.
  - eapply accessible_received; [exact R1|]. intros a Hx. apply Ha. lia.
  - cbn [committed]. rewrite Hfst. intros r w' Hp.
    destruct (deliver false (Z.to_nat (n - 1)) q) as [[l' rest] more]. by eapply read_post_step.
Qed.

(** ** Writing *)

(** The outcome of a computation that may sleep for room in the ring. *)
Definition or_sleeps {A} (m : M W A) (Q : A -> W -> Prop) (sleeps : Prop) (w : W) : Prop :=
  match m w with
  | Ok a w' => Q a w'
  | Stop e => e = SBlock "uart_tx_r" /\ sleeps
  end.

Lemma or_sleeps_wp {A B} (m : M W A) (k : A -> M W B) Q P w :
  wp m (fun a w' => or_sleeps (k a) Q P w') w -> or_sleeps (bind m k) Q P w.
Proof. unfold wp, or_sleeps, bind. by destruct (m w). Qed.

(** [w'] differs from [w] in the output side only, which grew by [l]. *)
Definition wrote (l q : list Z) (w w' : W) : Prop :=
  exists u q', w' = set_cache (set_uart u (fw_cache w)) w /\ queued u q' /\
    channel u q' = channel (tty_uart (fw_cache w)) q ++ l /\
    recv (dev u) = recv (dev (tty_uart (fw_cache w))).

Lemma putc_outcome {B} (k : M W B) Q (P : Prop) c q w :
  queued (tty_uart (fw_cache w)) q -> byte_ok c ->
  (Z.of_nat (length q) = UART_TX_BUF_SIZE -> P) ->
  (forall u q', queued u q' ->
    channel u q' = channel (tty_uart (fw_cache w)) q ++ [c] ->
    recv (dev u) = recv (dev (tty_uart (fw_cache w))) -> (length q' <= length q + 1)%nat ->
    or_sleeps k Q P (set_cache (set_uart u (fw_cache w)) w)) ->
  or_sleeps (lift fw_cache set_cache (onUart (uartputc c)) ;; k) Q P w.
Proof.
  intros Hq Hc HP Hk. pose proof (uartputc_spec _ _ _ Hq Hc) as Hput.
  unfold or_sleeps, bind, onUart, lift in *. destruct (decide _).
  - unfold stops in Hput. rewrite Hput. auto.
  - apply wp_elim in Hput as ([] & u & -> & q' & H1 & H2 & H3 & H4). by apply (Hk u q').
Qed.

Lemma either_copyin_byte user src c (w : W) :
  minv w -> 0 <= src < 2 ^ 64 -> mget user w src = Some c ->
  either_copyin user src 1 w = Ok ([c], true) w.
Proof.
  intros (HU & _ & _) Hr Hm. unfold either_copyin, mget in *. destruct user.
  - destruct (copyin_ok (fw_user w) src 1 HU Hr ltac:(lia)) as (Hok & Hl & Hb).
    { intros a Ha. replace a with src by lia. by rewrite Hm. }
    destruct (copyin src 1 (fw_user w)) as [l ok]. cbn in *. subst ok.
    destruct l as [|x [|]]; try done. specialize (Hb 0%nat ltac:(lia)). rewrite Z.add_0_r, Hm in Hb.
    cbn in Hb. by simplify_eq.
  - destruct (decide (0 <= src)); [|done]. unfold slice. erewrite drop_S by exact Hm. done.
Qed.

(** The bytes [l] lie at [src]. *)
Definition holds (user : bool) (w : W) (src : Z) (l : list Z) : Prop :=
  forall i c, l !! i = Some c -> mget user w (src + Z.of_nat i) = Some c.

Lemma consolewrite_loop_outcome fuel user src n i l q w :
  queued (tty_uart (fw_cache w)) q -> minv w -> Forall byte_ok l -> holds user w (src + i) l ->
  0 <= src -> 0 <= i -> i + Z.of_nat (length l) = n -> (length l < fuel)%nat ->
  or_sleeps (consolewrite_loop fuel user src n i) (fun r w' => r = n /\ wrote l q w w')
    (UART_TX_BUF_SIZE < Z.of_nat (length q + length l)) w.
Proof.
  revert i l q w. induction fuel as [|fuel IH]; intros i l q w Hq Hm Hl Hh Hsrc Hi Hn Hf; [lia|].
  cbn [consolewrite_loop]. destruct l as [|c l]; cbn [length] in Hn, Hf.
  { destruct (Z.ltb_spec i n); [lia|]. cbn. split; [lia|]. exists (tty_uart (fw_cache w)), q.
    rewrite app_nil_r. split; [|done]. by destruct w as [[] ]. }
  destruct (Z.ltb_spec i n); [|lia]. pose proof (Hh 0%nat c eq_refl) as Hc. rewrite Z.add_0_r in Hc.
  destruct (mget_some _ _ _ _ Hm Hc) as [Hcb Hrange]. rewrite u64_small by lia.
  apply or_sleeps_wp. eapply wp_run; [by apply either_copyin_byte; [|lia|]|]. cbn [negb].
  apply (putc_outcome _ _ _ _ q); [done|done|cbn [length]; lia|].
  intros u q' Hq' Hch Hrv Hlen. apply Forall_cons in Hl as [_ Hl].
  assert (holds user (set_cache (set_uart u (fw_cache w)) w) (src + (i + 1)) l) as Hh'.
  { intros j x Hx. rewrite <- (Hh (S j) x Hx).
    replace (src + (i + 1) + Z.of_nat j) with (src + i + Z.of_nat (S j)) by lia. done. }
  specialize (IH (i + 1) l q' (set_cache (set_uart u (fw_cache w)) w) Hq' Hm Hl Hh' Hsrc ltac:(lia) ltac:(lia) ltac:(lia)).
  unfold or_sleeps in *. destruct (consolewrite_loop fuel user src n (i + 1) _) as [r w'|e];
    [|cbn [length]; split; [apply IH|lia]].
  destruct IH as (-> & u2 & q2 & -> & Hq2 & Hch2 & Hrv2). split; [done|].
  exists u2, q2. cbn in Hch2, Hrv2 |- *. split_and!; try done; [|congruence].
  by rewrite Hch2, Hch, <- app_assoc.
Qed.

(** Claim C34: writing to the console is a first-in first-out channel.  A
    [consolewrite] of [l] either returns [length l], and the bytes sent to the
    wire followed by those in the transmit ring have grown by exactly [l], in
    order, with the input side and all memory untouched; or it sleeps for
    room, which happens only when the ring and [l] together exceed the ring's
    32 bytes. *)
Theorem consolewrite_fifo user src l q w :
  queued (tty_uart (fw_cache w)) q -> minv w -> Forall byte_ok l -> holds user w src l ->
  0 <= src ->
  or_sleeps (consolewrite user src (Z.of_nat (length l)))
    (fun r w' => r = Z.of_nat (length l) /\ wrote l q w w')
    (UART_TX_BUF_SIZE < Z.of_nat (length q + length l)) w.
Proof.
  intros Hq Hm Hl Hh Hs. apply consolewrite_loop_outcome; rewrite ?Z.add_0_r; try done; lia.
Qed.

End Proofs.

(** ** The console as a device of the file layer *)

Section Device.
Context {D U : Type} `{UartRegs D} `{UserMem U}.

Definition onW {A} (m : M (fsw (tty D) U) A) : M (tty D * U) A :=
  fun '(t, u) =>
    match m {| fw_cache := t; fw_user := u; fw_kbuf := [] |} with
    | Ok a w => Ok a (fw_cache w, fw_user w)
    | Stop e => Stop e
    end.

(** [consoleinit] installs the two entry points; a reader of the sequential
    kernel that sleeps stays there. *)
#[global] Instance console_devsw : Devsw U (tty D) := {|
  dev_read user addr n :=
    r <- onW (consoleread false (negb (user =? 0)) addr n) ;;
    match r with Returned v => ret v | Sleeping _ _ => halt (SBlock "cons.r") end;
  dev_write user addr n := onW (consolewrite (negb (user =? 0)) addr n);
|}.

End Device.

(** ** A port with a holding register of one byte *)

(** The register is full after a write until the next status read; a byte that is
    written into the full register is lost. *)
Record port : Type := { p_in : list Z; p_out : list Z; p_full : bool }.

#[global] Instance port_regs : UartRegs port := {|
  read_lsr d :=
    ((match p_in d with [] => 0 | _ => 1 end) + (if p_full d then 0 else 32),
     {| p_in := p_in d; p_out := p_out d; p_full := false |});
  read_rhr d :=
    match p_in d with
    | [] => (0, d)
    | c :: l => (c mod 256, {| p_in := l; p_out := p_out d; p_full := p_full d |})
    end;
  write_thr c d :=
    if p_full d then d else {| p_in := p_in d; p_out := p_out d ++ [c]; p_full := true |};
|}.

#[global] Instance port_laws : UartRegsLaws port.
Proof.
  refine {| sent := p_out; recv d := map (fun c => c mod 256) (p_in d); thr_empty d := p_full d = false; polls := 2 |};
    cbn; try done.
  - intros [[|c l] o []]; cbn; done.
  - intros [[|x l'] o b] c l Hd; cbn in Hd; [done|]. simplify_eq. cbn. split_and!; try done.
    exact (Z.mod_pos_bound x 256 eq_refl).
  - by intros [[|c l] o b].
  - by intros c [l o []].
  - by intros c [l o []].
  - intros [[|c l] o []]; [exists 1%nat|exists 0%nat|exists 1%nat|exists 0%nat]; cbn; (split; [lia|done]).
Defined.

Definition ex_tty (typed : list Z) : tty port :=
  {| cons_buf := replicate 128 0; cons_r := 2 ^ 32 - 2; cons_w := 2 ^ 32 - 2; cons_e := 2 ^ 32 - 2;
     tty_uart := {| uart_tx_buf := replicate 32 0; uart_tx_w := 0; uart_tx_r := 0;
                    panicked := false; dev := {| p_in := typed; p_out := []; p_full := true |} |} |}.

Lemma ex_shows typed : shows (ex_tty typed) {| committed := []; line := [] |}.
Proof. unfold shows. split_and!; try done; constructor. Qed.

Lemma ex_queued typed : queued (tty_uart (ex_tty typed)) [].
Proof. unfold queued. split_and!; try done; constructor. Qed.

Definition ex_empty : editor := {| committed := []; line := [] |}.

(** Typing [l], [x], delete, [s], return across the wrap of the indices. *)
Definition ex_keys : list Z := [108; 120; 127; 115; 13].


(** A reader in the kernel, with a buffer of eight bytes, and the line [ls]
    committed. *)
Definition ex_world : fsw (tty port) unit :=
  {| fw_cache := {| cons_buf := [108; 115; 10] ++ replicate 125 0; cons_r := 0; cons_w := 3;
       cons_e := 3; tty_uart := tty_uart (ex_tty []) |};
     fw_user := tt; fw_kbuf := replicate 8 0 |}.
Definition ex_line : editor := {| committed := [108; 115; 10]; line := [] |}.

Lemma ex_world_shows : shows (fw_cache ex_world) ex_line.
Proof.
  unfold shows. split_and!; try done; try by repeat constructor.
  intros i c Hi. do 3 (destruct i; [cbn in Hi; by simplify_eq|]). done.
Qed.

Lemma ex_world_mem : minv ex_world.
Proof. unfold minv. split_and!; try done. by apply Forall_replicate. Qed.

Lemma consoleread_delivers_witness :
  deliver true 8 (committed ex_line) = ([108; 115; 10], [], false) /\
  wp (consoleread_loop 9 false false 0 8 8)
    (read_post false false 0 8 8 ex_line
      (deliver (8 =? 8) (Z.to_nat 8) (committed ex_line)) ex_world) ex_world.
Proof.
  split; [reflexivity|]. apply (consoleread_delivers 9 false false 0 8 8 ex_world ex_line); try lia.
  - apply ex_world_shows.
  - apply ex_world_mem.
  - intros a Ha. unfold mget. rewrite decide_True by lia. apply lookup_lt_is_Some. cbn. lia.
Defined.

Lemma consolewrite_fifo_witness :
  or_sleeps (consolewrite false 0 (Z.of_nat (length [0; 0; 0])))
    (fun r w' => r = Z.of_nat (length [0; 0; 0]) /\ wrote [0; 0; 0] [] ex_world w')
    (UART_TX_BUF_SIZE < Z.of_nat (length (@nil Z) + length [0; 0; 0])) ex_world.
Proof.
  apply (consolewrite_fifo false 0 [0; 0; 0] [] ex_world); try lia.
  - apply ex_queued.
  - apply ex_world_mem.
  - by repeat constructor.
  - intros [|[|[|i]]] c Hi; cbn in Hi; by simplify_eq.
Defined.

End Console.
