(* ===== verification/Proc.v ===== *)
(** * Processes: [kernel/proc.c]

    The process table and the operations on it: allocation, [fork], [exit],
    [wait], [sleep], [wakeup], [kill] and the scheduler.  An operation runs
    for the process [me] ([myproc()]).  The page tables, trapframes and the
    page allocator are those of [Vm]; the files and inodes a process holds
    are the interface [ProcFiles]. *)

From S2P Require Import Prelude Layout Cstring Kalloc Vm Printf.

(** What the process code needs from the file layer. *)
Class ProcFiles (F : Type) : Type := {
  file_dup : nat -> M F nat;
  file_close : nat -> M F unit;
  inode_dup : nat -> M F nat;
  inode_put : nat -> M F unit;
  name_root : M F (option nat);
}.

Module Proc.

Inductive procstate : Type := UNUSED | USED | SLEEPING | RUNNABLE | RUNNING | ZOMBIE.
#[global] Instance procstate_eq_dec : EqDecision procstate.
Proof. solve_decision. Defined.

(** Sleep channels: 0, [&proc[i]] (used by [wait]) and any other address. *)
Inductive chan : Type := NoChan | ProcChan (i : nat) | AddrChan (a : Z).
#[global] Instance chan_eq_dec : EqDecision chan.
Proof. solve_decision. Defined.

(** Where the kernel thread of a process stands when it gives up the
    processor or lets go of a lock. *)
Inductive position : Type :=
| AtUser
| ForkMade (np : nat)
| ForkOwned (np : nat)
| Exiting (status : Z)
| Waiting (addr : Z)
| WaitSleep (addr : Z)
| Asleep (wait : option Z).
#[global] Instance position_eq_dec : EqDecision position.
Proof. solve_decision. Defined.

(** [struct proc], without the lock, the stack and the saved context. *)
Record proc : Type := {
  p_state : procstate;
  p_chan : chan;
  p_killed : Z;
  p_xstate : Z;
  p_pid : Z;
  p_parent : option nat;
  p_sz : Z;
  p_pagetable : Z;
  p_trapframe : Z;
  p_ofile : list (option nat);
  p_cwd : option nat;
  p_name : list Z;
  p_at : position;
}.

(** A slot of the zeroed table. *)
Definition proc0 : proc :=
  {| p_state := UNUSED; p_chan := NoChan; p_killed := 0; p_xstate := 0; p_pid := 0;
     p_parent := None; p_sz := 0; p_pagetable := 0; p_trapframe := 0;
     p_ofile := replicate NOFILE None; p_cwd := None; p_name := replicate 16 0; p_at := AtUser |}.

Definition set_state (v : procstate) (p : proc) : proc :=
  {| p_state := v; p_chan := p_chan p; p_killed := p_killed p; p_xstate := p_xstate p;
     p_pid := p_pid p; p_parent := p_parent p; p_sz := p_sz p; p_pagetable := p_pagetable p;
     p_trapframe := p_trapframe p; p_ofile := p_ofile p; p_cwd := p_cwd p; p_name := p_name p;
     p_at := p_at p |}.
Definition set_chan (v : chan) (p : proc) : proc :=
  {| p_state := p_state p; p_chan := v; p_killed := p_killed p; p_xstate := p_xstate p;
     p_pid := p_pid p; p_parent := p_parent p; p_sz := p_sz p; p_pagetable := p_pagetable p;
     p_trapframe := p_trapframe p; p_ofile := p_ofile p; p_cwd := p_cwd p; p_name := p_name p;
     p_at := p_at p |}.
Definition set_killed (v : Z) (p : proc) : proc :=
  {| p_state := p_state p; p_chan := p_chan p; p_killed := v; p_xstate := p_xstate p;
     p_pid := p_pid p; p_parent := p_parent p; p_sz := p_sz p; p_pagetable := p_pagetable p;
     p_trapframe := p_trapframe p; p_ofile := p_ofile p; p_cwd := p_cwd p; p_name := p_name p;
     p_at := p_at p |}.
Definition set_xstate (v : Z) (p : proc) : proc :=
  {| p_state := p_state p; p_chan := p_chan p; p_killed := p_killed p; p_xstate := v;
     p_pid := p_pid p; p_parent := p_parent p; p_sz := p_sz p; p_pagetable := p_pagetable p;
     p_trapframe := p_trapframe p; p_ofile := p_ofile p; p_cwd := p_cwd p; p_name := p_name p;
     p_at := p_at p |}.
Definition set_pid (v : Z) (p : proc) : proc :=
  {| p_state := p_state p; p_chan := p_chan p; p_killed := p_killed p; p_xstate := p_xstate p;
     p_pid := v; p_parent := p_parent p; p_sz := p_sz p; p_pagetable := p_pagetable p;
     p_trapframe := p_trapframe p; p_ofile := p_ofile p; p_cwd := p_cwd p; p_name := p_name p;
     p_at := p_at p |}.
Definition set_parent (v : option nat) (p : proc) : proc :=
  {| p_state := p_state p; p_chan := p_chan p; p_killed := p_killed p; p_xstate := p_xstate p;
     p_pid := p_pid p; p_parent := v; p_sz := p_sz p; p_pagetable := p_pagetable p;
     p_trapframe := p_trapframe p; p_ofile := p_ofile p; p_cwd := p_cwd p; p_name := p_name p;
     p_at := p_at p |}.
(** The private fields: memory, files, name. *)
Definition set_mem (sz pt tf : Z) (p : proc) : proc :=
  {| p_state := p_state p; p_chan := p_chan p; p_killed := p_killed p; p_xstate := p_xstate p;
     p_pid := p_pid p; p_parent := p_parent p; p_sz := sz; p_pagetable := pt;
     p_trapframe := tf; p_ofile := p_ofile p; p_cwd := p_cwd p; p_name := p_name p;
     p_at := p_at p |}.
Definition set_files (fs : list (option nat)) (cwd : option nat) (p : proc) : proc :=
  {| p_state := p_state p; p_chan := p_chan p; p_killed := p_killed p; p_xstate := p_xstate p;
     p_pid := p_pid p; p_parent := p_parent p; p_sz := p_sz p; p_pagetable := p_pagetable p;
     p_trapframe := p_trapframe p; p_ofile := fs; p_cwd := cwd; p_name := p_name p;
     p_at := p_at p |}.
Definition set_name (v : list Z) (p : proc) : proc :=
  {| p_state := p_state p; p_chan := p_chan p; p_killed := p_killed p; p_xstate := p_xstate p;
     p_pid := p_pid p; p_parent := p_parent p; p_sz := p_sz p; p_pagetable := p_pagetable p;
     p_trapframe := p_trapframe p; p_ofile := p_ofile p; p_cwd := p_cwd p; p_name := v;
     p_at := p_at p |}.
Definition set_at (v : position) (p : proc) : proc :=
  {| p_state := p_state p; p_chan := p_chan p; p_killed := p_killed p; p_xstate := p_xstate p;
     p_pid := p_pid p; p_parent := p_parent p; p_sz := p_sz p; p_pagetable := p_pagetable p;
     p_trapframe := p_trapframe p; p_ofile := p_ofile p; p_cwd := p_cwd p; p_name := p_name p;
     p_at := v |}.

(** The globals of proc.c: [cpus] by the process each runs, and [wait_lock]
    by its holder. *)
Record kernel (F : Type) : Type := {
  k_proc : list proc;
  k_cpus : list (option nat);
  k_initproc : option nat;
  k_nextpid : Z;
  k_wait_lock : option nat;
  k_mem : Vm.vmem;
  k_files : F;
}.
Arguments k_proc {F}.
Arguments k_cpus {F}.
Arguments k_initproc {F}.
Arguments k_nextpid {F}.
Arguments k_wait_lock {F}.
Arguments k_mem {F}.
Arguments k_files {F}.

Section Ops.
Context {F : Type} `{PF : ProcFiles F}.
Context (kend trampoline : Z).
Notation K := (kernel F).

Definition set_procs (l : list proc) (k : K) : K :=
  {| k_proc := l; k_cpus := k_cpus k; k_initproc := k_initproc k; k_nextpid := k_nextpid k;
     k_wait_lock := k_wait_lock k; k_mem := k_mem k; k_files := k_files k |}.
Definition set_cpus (l : list (option nat)) (k : K) : K :=
  {| k_proc := k_proc k; k_cpus := l; k_initproc := k_initproc k; k_nextpid := k_nextpid k;
     k_wait_lock := k_wait_lock k; k_mem := k_mem k; k_files := k_files k |}.
Definition set_initproc (v : option nat) (k : K) : K :=
  {| k_proc := k_proc k; k_cpus := k_cpus k; k_initproc := v; k_nextpid := k_nextpid k;
     k_wait_lock := k_wait_lock k; k_mem := k_mem k; k_files := k_files k |}.
Definition set_nextpid (v : Z) (k : K) : K :=
  {| k_proc := k_proc k; k_cpus := k_cpus k; k_initproc := k_initproc k; k_nextpid := v;
     k_wait_lock := k_wait_lock k; k_mem := k_mem k; k_files := k_files k |}.
Definition set_wait_lock (v : option nat) (k : K) : K :=
  {| k_proc := k_proc k; k_cpus := k_cpus k; k_initproc := k_initproc k; k_nextpid := k_nextpid k;
     k_wait_lock := v; k_mem := k_mem k; k_files := k_files k |}.
Definition set_kmem (v : Vm.vmem) (k : K) : K :=
  {| k_proc := k_proc k; k_cpus := k_cpus k; k_initproc := k_initproc k; k_nextpid := k_nextpid k;
     k_wait_lock := k_wait_lock k; k_mem := v; k_files := k_files k |}.
Definition set_kfiles (v : F) (k : K) : K :=
  {| k_proc := k_proc k; k_cpus := k_cpus k; k_initproc := k_initproc k; k_nextpid := k_nextpid k;
     k_wait_lock := k_wait_lock k; k_mem := k_mem k; k_files := v |}.

Definition onMem {A} (m : M Vm.vmem A) : M K A := lift k_mem set_kmem m.
Definition onFiles {A} (m : M F A) : M K A := lift k_files set_kfiles m.

Definition slot (k : K) (i : nat) : proc := default proc0 (k_proc k !! i).
Definition upd (i : nat) (f : proc -> proc) : M K unit :=
  modify (fun k => set_procs (alter f i (k_proc k)) k).
Definition get_proc (i : nat) : M K proc := gets (fun k => slot k i).

(** ** Page tables of a process *)

Definition proc_pagetable (trapframe : Z) : M Vm.vmem Z :=
  pagetable <- Vm.uvmcreate ;;
  if pagetable =? 0 then ret 0
  else
    r <- Vm.mappages pagetable TRAMPOLINE PGSIZE trampoline (Z.lor PTE_R PTE_X) ;;
    if r <? 0 then
      Vm.uvmfree kend pagetable 0 ;;
      ret 0
    else
      r <- Vm.mappages pagetable TRAPFRAME PGSIZE trapframe (Z.lor PTE_R PTE_W) ;;
      if r <? 0 then
        Vm.uvmunmap kend pagetable TRAMPOLINE 1 false ;;
        Vm.uvmfree kend pagetable 0 ;;
        ret 0
      else ret pagetable.

Definition proc_freepagetable (pagetable sz : Z) : M Vm.vmem unit :=
  Vm.uvmunmap kend pagetable TRAMPOLINE 1 false ;;
  Vm.uvmunmap kend pagetable TRAPFRAME 1 false ;;
  Vm.uvmfree kend pagetable sz.

(** ** Allocation *)

(** [nextpid] is an [int]: past its last value the increment is undefined. *)
Definition allocpid : M K Z :=
  pid <- gets k_nextpid ;;
  if pid =? 2 ^ 31 - 1 then halt (SFault "nextpid")
  else modify (set_nextpid (pid + 1)) ;; ret pid.

(** The page table and the trapframe go first; the rest of the slot is
    cleared, except the files, which are no longer there. *)
Definition freeproc (i : nat) : M K unit :=
  p <- get_proc i ;;
  (if negb (p_trapframe p =? 0) then onMem (Vm.kfree kend (p_trapframe p)) else ret tt) ;;
  (if negb (p_pagetable p =? 0) then onMem (proc_freepagetable (p_pagetable p) (p_sz p))
   else ret tt) ;;
  upd i (fun p =>
    {| p_state := UNUSED; p_chan := NoChan; p_killed := 0; p_xstate := 0; p_pid := 0;
       p_parent := None; p_sz := 0; p_pagetable := 0; p_trapframe := 0;
       p_ofile := p_ofile p; p_cwd := p_cwd p; p_name := <[0%nat := 0]> (p_name p);
       p_at := AtUser |}).

Fixpoint find_unused (l : list proc) (i : nat) : option nat :=
  match l with
  | [] => None
  | p :: l => if decide (p_state p = UNUSED) then Some i else find_unused l (S i)
  end.

Definition allocproc : M K (option nat) :=
  l <- gets k_proc ;;
  match find_unused l 0 with
  | None => ret None
  | Some i =>
      pid <- allocpid ;;
      upd i (fun p => set_state USED (set_pid pid p)) ;;
      tf <- onMem Vm.kalloc ;;
      upd i (fun p => set_mem (p_sz p) (p_pagetable p) tf p) ;;
      if tf =? 0 then freeproc i ;; ret None
      else
        pt <- onMem (proc_pagetable tf) ;;
        upd i (fun p => set_mem (p_sz p) pt (p_trapframe p) p) ;;
        if pt =? 0 then freeproc i ;; ret None
        else ret (Some i)
  end.

(** ** [fork]: the child is made, given its parent under [wait_lock], and
    made runnable *)

(** [struct trapframe]: its size, and the offsets of [epc], [sp], [a0]. *)
Definition TF_SIZE : Z := 288.
Definition TF_EPC : Z := 24.
Definition TF_SP : Z := 48.
Definition TF_A0 : Z := 112.

Definition store_word (a v : Z) : M Vm.vmem unit :=
  modify (fun m => Vm.set_bytes (Vm.store_bytes a (le_enc 8 v) (Vm.bytes m)) m).

Definition copy_trapframe (src dst : Z) : M Vm.vmem unit :=
  modify (fun m =>
    Vm.set_bytes (Vm.store_bytes dst (Vm.load_bytes m src TF_SIZE) (Vm.bytes m)) m).

Fixpoint dup_files (l : list (option nat)) : M K (list (option nat)) :=
  match l with
  | [] => ret []
  | None :: l => r <- dup_files l ;; ret (None :: r)
  | Some f :: l =>
      f' <- onFiles (file_dup f) ;;
      r <- dup_files l ;;
      ret (Some f' :: r)
  end.

(** The loop leaves the child's slots alone where the parent has no file. *)
Fixpoint merge_files (new old : list (option nat)) : list (option nat) :=
  match new, old with
  | Some f :: new, _ :: old => Some f :: merge_files new old
  | None :: new, o :: old => o :: merge_files new old
  | _, _ => old
  end.

Definition fork_make (me : nat) : M K (option nat) :=
  o <- allocproc ;;
  match o with
  | None => ret None
  | Some np =>
      p <- get_proc me ;;
      c <- get_proc np ;;
      r <- onMem (Vm.uvmcopy kend (p_pagetable p) (p_pagetable c) (p_sz p)) ;;
      if r <? 0 then freeproc np ;; ret None
      else
        upd np (fun c => set_mem (p_sz p) (p_pagetable c) (p_trapframe c) c) ;;
        onMem (copy_trapframe (p_trapframe p) (p_trapframe c)) ;;
        onMem (store_word (p_trapframe c + TF_A0) 0) ;;
        fs <- dup_files (p_ofile p) ;;
        cwd <- match p_cwd p with
               | Some i => i' <- onFiles (inode_dup i) ;; ret (Some i')
               | None => halt (SFault "cwd")
               end ;;
        upd np (fun c => set_files (merge_files fs (p_ofile c)) cwd c) ;;
        upd np (fun c => set_name (splice 0 (safestrcpy (p_name p) 16) (p_name c)) c) ;;
        ret (Some np)
  end.

Definition fork_own (me np : nat) : M K unit := upd np (set_parent (Some me)).
Definition fork_run (np : nat) : M K unit := upd np (set_state RUNNABLE).

Definition fork (me : nat) : M K Z :=
  o <- fork_make me ;;
  match o with
  | None => ret (-1)
  | Some np =>
      c <- get_proc np ;;
      fork_own me np ;;
      fork_run np ;;
      ret (p_pid c)
  end.

(** ** Sleeping, waking and switching *)

(** [wakeup] skips the caller. *)
Definition wakeup_slot (me : option nat) (ch : chan) (i : nat) (p : proc) : proc :=
  if decide (Some i = me) then p
  else if decide (p_state p = SLEEPING /\ p_chan p = ch) then set_state RUNNABLE p else p.

Definition wakeup (me : option nat) (ch : chan) : M K unit :=
  modify (fun k => set_procs (imap (wakeup_slot me ch) (k_proc k)) k).

(** Back to the scheduler of the processor that runs [me], which clears
    [c->proc].  The checks of the lock and interrupt state are not here. *)
Definition sched (me : nat) : M K unit :=
  p <- get_proc me ;;
  if decide (p_state p = RUNNING) then panic "sched running"
  else modify (fun k =>
    set_cpus (map (fun c => if decide (c = Some me) then None else c) (k_cpus k)) k).

Definition yield (me : nat) : M K unit :=
  upd me (set_state RUNNABLE) ;;
  sched me.

(** [sleep] up to the switch, and after it. *)
Definition sleep (me : nat) (ch : chan) : M K unit :=
  upd me (fun p => set_state SLEEPING (set_chan ch p)) ;;
  sched me.
Definition sleep_return (me : nat) : M K unit := upd me (set_chan NoChan).

(** One choice of the scheduler's loop on processor [cpu]. *)
Definition schedule (cpu i : nat) : M K unit :=
  p <- get_proc i ;;
  if decide (p_state p = RUNNABLE) then
    upd i (set_state RUNNING) ;;
    modify (fun k => set_cpus (<[cpu := Some i]> (k_cpus k)) k)
  else ret tt.

Definition setkilled (i : nat) : M K unit := upd i (set_killed 1).
Definition killed (i : nat) : M K Z := p <- get_proc i ;; ret (p_killed p).

Fixpoint find_pid (l : list proc) (i : nat) (pid : Z) : option nat :=
  match l with
  | [] => None
  | p :: l => if p_pid p =? pid then Some i else find_pid l (S i) pid
  end.

Definition kill (pid : Z) : M K Z :=
  l <- gets k_proc ;;
  match find_pid l 0 pid with
  | None => ret (-1)
  | Some i =>
      upd i (set_killed 1) ;;
      upd i (fun p => if decide (p_state p = SLEEPING) then set_state RUNNABLE p else p) ;;
      ret 0
  end.

(** ** [exit] and [wait] *)

Fixpoint reparent_loop (n i me : nat) (init : nat) : M K unit :=
  match n with
  | O => ret tt
  | S n =>
      p <- get_proc i ;;
      (if decide (p_parent p = Some me) then
         upd i (set_parent (Some init)) ;;
         wakeup (Some me) (ProcChan init)
       else ret tt) ;;
      reparent_loop n (S i) me init
  end.

Definition reparent (me : nat) : M K unit :=
  o <- gets k_initproc ;;
  match o with
  | Some init => reparent_loop NPROC 0 me init
  | None => halt (SFault "initproc")
  end.

Fixpoint close_files (l : list (option nat)) : M K unit :=
  match l with
  | [] => ret tt
  | None :: l => close_files l
  | Some f :: l => onFiles (file_close f) ;; close_files l
  end.

Definition exit_files (me : nat) : M K unit :=
  init <- gets k_initproc ;;
  if decide (init = Some me) then panic "init exiting"
  else
    p <- get_proc me ;;
    close_files (p_ofile p) ;;
    match p_cwd p with
    | Some i => onFiles (inode_put i)
    | None => halt (SFault "cwd")
    end ;;
    upd me (fun p => set_files (replicate (length (p_ofile p)) None) None p).

(** The rest of [exit], from [acquire(&wait_lock)] on. *)
Definition exit_zombie (me : nat) (status : Z) : M K unit :=
  reparent me ;;
  p <- get_proc me ;;
  wakeup (Some me) match p_parent p with Some j => ProcChan j | None => NoChan end ;;
  upd me (fun p => set_state ZOMBIE (set_xstate status p)) ;;
  sched me.

(** The scan of [wait]: whether [me] has children, and its first zombie. *)
Fixpoint find_zombie (l : list proc) (i me : nat) : bool * option nat :=
  match l with
  | [] => (false, None)
  | p :: l =>
      if decide (p_parent p = Some me) then
        if decide (p_state p = ZOMBIE) then (true, Some i)
        else (true, (find_zombie l (S i) me).2)
      else find_zombie l (S i) me
  end.

(** One round of the loop of [wait]: [None] is the call to [sleep]. *)
Definition wait_scan (me : nat) (addr : Z) : M K (option Z) :=
  l <- gets k_proc ;;
  let '(havekids, z) := find_zombie l 0 me in
  match z with
  | Some i =>
      p <- get_proc me ;;
      c <- get_proc i ;;
      ok <- (if addr =? 0 then ret true
             else onMem (Vm.copyout (p_pagetable p) addr (le_enc 4 (u32 (p_xstate c))))) ;;
      if negb ok then ret (Some (-1))
      else
        freeproc i ;;
        ret (Some (p_pid c))
  | None =>
      kd <- killed me ;;
      if negb havekids || negb (kd =? 0) then ret (Some (-1)) else ret None
  end.

(** ** Memory size, the first process, the listing *)

Definition growproc (me : nat) (n : Z) : M K Z :=
  p <- get_proc me ;;
  let sz := p_sz p in
  if 0 <? n then
    sz' <- onMem (Vm.uvmalloc kend (p_pagetable p) sz (u64 (sz + n)) PTE_W) ;;
    if sz' =? 0 then ret (-1)
    else
      upd me (fun p => set_mem sz' (p_pagetable p) (p_trapframe p) p) ;;
      ret 0
  else if n <? 0 then
    sz' <- onMem (Vm.uvmdealloc kend (p_pagetable p) sz (u64 (sz + n))) ;;
    upd me (fun p => set_mem sz' (p_pagetable p) (p_trapframe p) p) ;;
    ret 0
  else ret 0.

Definition initcode_name : list Z := [105; 110; 105; 116; 99; 111; 100; 101; 0].

(** [initcode] is the assembled program; a failing allocation is not checked
    and faults. *)
Definition userinit (initcode : list Z) : M K unit :=
  o <- allocproc ;;
  modify (set_initproc o) ;;
  match o with
  | None => halt (SFault "userinit")
  | Some i =>
      p <- get_proc i ;;
      onMem (Vm.uvmfirst (p_pagetable p) initcode) ;;
      upd i (fun p => set_mem PGSIZE (p_pagetable p) (p_trapframe p) p) ;;
      onMem (store_word (p_trapframe p + TF_EPC) 0) ;;
      onMem (store_word (p_trapframe p + TF_SP) PGSIZE) ;;
      upd i (fun p => set_name (splice 0 (safestrcpy initcode_name 16) (p_name p)) p) ;;
      cwd <- onFiles name_root ;;
      upd i (fun p => set_state RUNNABLE (set_files (p_ofile p) cwd p))
  end.

Definition state_name (s : procstate) : list Z :=
  match s with
  | UNUSED => [117; 110; 117; 115; 101; 100]
  | USED => [117; 115; 101; 100]
  | SLEEPING => [115; 108; 101; 101; 112; 32]
  | RUNNABLE => [114; 117; 110; 98; 108; 101]
  | RUNNING => [114; 117; 110; 32; 32; 32]
  | ZOMBIE => [122; 111; 109; 98; 105; 101]
  end.

(** What [procdump] prints: [printf("%d %s %s", ...)] for each process. *)
Definition procdump (l : list proc) : list Z :=
  [10] ++ mjoin (map (fun p =>
    if decide (p_state p = UNUSED) then []
    else Printf.printint Printf.kdigits (s32 (p_pid p)) 10 true ++ [32] ++
         state_name (p_state p) ++ [32] ++ cstr (p_name p) ++ [10]) l).

End Ops.
End Proc.
