(* ===== verification/Trap.v ===== *)
(** * Traps (kernel/trap.c, plic.c and the dispatch of syscall.c)

    The handlers of traps from user space and from the kernel, the device
    interrupts, and the system call table, on the process table of [Proc] and
    the registers of [Riscv].  The interrupt controller is the class [Plic];
    the drivers and the system calls are the classes [Drivers] and
    [SyscallTable]; [away] is everything that happens between the moment a
    process gives up the processor in [yield] and the moment it runs again.
    Messages printed on the console are left out. *)

From S2P Require Import Prelude Layout Vm Proc Riscv.

Module Trap.
Import Proc.

(** Registers of the interrupt controller, 32 bits wide. *)
Class Plic (P : Type) : Type := {
  plic_read : Z -> M P Z;
  plic_write : Z -> Z -> M P unit;
}.

Record trapst (F P D : Type) : Type := {
  ts_csrs : csr -> Z;
  ts_tp : Z;
  ts_k : kernel F;
  ts_plic : P;
  ts_dev : D;
  ts_ticks : Z;
}.
Arguments ts_csrs {F P D}.
Arguments ts_tp {F P D}.
Arguments ts_k {F P D}.
Arguments ts_plic {F P D}.
Arguments ts_dev {F P D}.
Arguments ts_ticks {F P D}.

(** The interrupt handlers of uart.c and virtio_disk.c. *)
Class Drivers (D : Type) : Type := {
  uartintr : M D unit;
  virtio_disk_intr : M D unit;
}.

(** The functions in the table of syscall.c; [None] is a call that does not
    return ([exit]). *)
Class SyscallTable (T : Type) : Type := {
  sys_fork : M T (option Z);
  sys_exit : M T (option Z);
  sys_wait : M T (option Z);
  sys_pipe : M T (option Z);
  sys_read : M T (option Z);
  sys_kill : M T (option Z);
  sys_exec : M T (option Z);
  sys_fstat : M T (option Z);
  sys_chdir : M T (option Z);
  sys_dup : M T (option Z);
  sys_getpid : M T (option Z);
  sys_sbrk : M T (option Z);
  sys_sleep : M T (option Z);
  sys_uptime : M T (option Z);
  sys_open : M T (option Z);
  sys_write : M T (option Z);
  sys_mknod : M T (option Z);
  sys_unlink : M T (option Z);
  sys_link : M T (option Z);
  sys_mkdir : M T (option Z);
  sys_close : M T (option Z);
}.

(** kernel/memlayout.h *)
Definition UART0_IRQ : Z := 10.
Definition VIRTIO0_IRQ : Z := 1.
Definition PLIC_SENABLE (hart : Z) : Z := PLIC + 0x2080 + hart * 0x100.
Definition PLIC_SPRIORITY (hart : Z) : Z := PLIC + 0x201000 + hart * 0x2000.
Definition PLIC_SCLAIM (hart : Z) : Z := PLIC + 0x201004 + hart * 0x2000.

(** Offsets in [struct trapframe]. *)
Definition TF_KERNEL_SATP : Z := 0.
Definition TF_KERNEL_SP : Z := 8.
Definition TF_KERNEL_TRAP : Z := 16.
Definition TF_KERNEL_HARTID : Z := 32.
Definition TF_A7 : Z := 168.

(** How a trap from user space ends: in a jump to [userret] with the page
    table in [a0], or never, because the process has exited. *)
Inductive outcome : Type := ToUser (satp : Z) | Gone.

Section Trap.
Context {F P D : Type} `{PF : ProcFiles F} `{PL : Plic P} `{DR : Drivers D}.
Notation T := (trapst F P D).
Context `{ST : SyscallTable T}.
Context (kernelvec_addr trampoline uservec_addr userret_addr usertrap_addr : Z).
Context (away : nat -> M T unit).
(** The address of [ticks], the channel [sys_sleep] sleeps on. *)
Context (ticks_addr : Z).

Definition set_tscsrs (c : csr -> Z) (s : T) : T :=
  {| ts_csrs := c; ts_tp := ts_tp s; ts_k := ts_k s; ts_plic := ts_plic s; ts_dev := ts_dev s;
     ts_ticks := ts_ticks s |}.
Definition set_tstp (v : Z) (s : T) : T :=
  {| ts_csrs := ts_csrs s; ts_tp := v; ts_k := ts_k s; ts_plic := ts_plic s; ts_dev := ts_dev s;
     ts_ticks := ts_ticks s |}.
Definition set_tsk (k : kernel F) (s : T) : T :=
  {| ts_csrs := ts_csrs s; ts_tp := ts_tp s; ts_k := k; ts_plic := ts_plic s; ts_dev := ts_dev s;
     ts_ticks := ts_ticks s |}.
Definition set_tsplic (p : P) (s : T) : T :=
  {| ts_csrs := ts_csrs s; ts_tp := ts_tp s; ts_k := ts_k s; ts_plic := p; ts_dev := ts_dev s;
     ts_ticks := ts_ticks s |}.
Definition set_tsdev (d : D) (s : T) : T :=
  {| ts_csrs := ts_csrs s; ts_tp := ts_tp s; ts_k := ts_k s; ts_plic := ts_plic s; ts_dev := d;
     ts_ticks := ts_ticks s |}.
Definition set_tsticks (n : Z) (s : T) : T :=
  {| ts_csrs := ts_csrs s; ts_tp := ts_tp s; ts_k := ts_k s; ts_plic := ts_plic s; ts_dev := ts_dev s;
     ts_ticks := n |}.

#[global] Instance trap_csrs : HasCsrs T := {|
  get_csr c s := ts_csrs s c;
  set_csr c v s := set_tscsrs (Riscv.upd c v (ts_csrs s)) s;
  get_tp := ts_tp;
  set_tp := set_tstp |}.

Definition onK {A} (m : M (kernel F) A) : M T A := lift ts_k set_tsk m.
Definition onPlic {A} (m : M P A) : M T A := lift ts_plic set_tsplic m.
Definition onDev {A} (m : M D A) : M T A := lift ts_dev set_tsdev m.

(** ** proc.c on this hart *)

Definition cpuid : M T Z := x <- r_tp ;; ret (s32 x).

(** [mycpu()->proc] *)
Definition myproc : M T (option nat) :=
  id <- cpuid ;;
  k <- gets ts_k ;;
  ret (default None (k_cpus k !! Z.to_nat id)).

(** [myproc()] where the code dereferences it. *)
Definition myproc_deref : M T nat :=
  o <- myproc ;;
  match o with
  | Some p => ret p
  | None => halt (SFault "myproc")
  end.

Definition tf_get (p : nat) (off : Z) : M T Z :=
  gets (fun s => load64 (Vm.bytes (k_mem (ts_k s))) (p_trapframe (slot (ts_k s) p) + off)).
Definition tf_set (p : nat) (off v : Z) : M T unit :=
  q <- onK (get_proc p) ;;
  onK (onMem (store_word (p_trapframe q + off) v)).

Definition exit (p : nat) (status : Z) : M T unit :=
  onK (exit_files p) ;;
  onK (exit_zombie p status).

Definition yield (p : nat) : M T unit :=
  onK (Proc.yield p) ;;
  away p.

(** ** plic.c *)

Definition plicinit : M T unit :=
  onPlic (plic_write (PLIC + UART0_IRQ * 4) 1) ;;
  onPlic (plic_write (PLIC + VIRTIO0_IRQ * 4) 1).

Definition plicinithart : M T unit :=
  hart <- cpuid ;;
  onPlic (plic_write (PLIC_SENABLE hart) (Z.lor (Z.shiftl 1 UART0_IRQ) (Z.shiftl 1 VIRTIO0_IRQ))) ;;
  onPlic (plic_write (PLIC_SPRIORITY hart) 0).

Definition plic_claim : M T Z :=
  hart <- cpuid ;;
  irq <- onPlic (plic_read (PLIC_SCLAIM hart)) ;;
  ret (s32 irq).

Definition plic_complete (irq : Z) : M T unit :=
  hart <- cpuid ;;
  onPlic (plic_write (PLIC_SCLAIM hart) (u32 irq)).

(** ** trap.c *)

Definition trapinithart : M T unit := w_stvec kernelvec_addr.

(** Under [tickslock]. *)
Definition clockintr : M T unit :=
  modify (fun s => set_tsticks (u32 (ts_ticks s + 1)) s) ;;
  me <- myproc ;;
  onK (wakeup me (AddrChan ticks_addr)).

Definition devintr : M T Z :=
  scause <- r_scause ;;
  if negb (Z.land scause 0x8000000000000000 =? 0) && (Z.land scause 0xff =? 9) then
    irq <- plic_claim ;;
    (if irq =? UART0_IRQ then onDev uartintr
     else if irq =? VIRTIO0_IRQ then onDev virtio_disk_intr
     else ret tt) ;;
    (if negb (irq =? 0) then plic_complete irq else ret tt) ;;
    ret 1
  else if scause =? 0x8000000000000001 then
    id <- cpuid ;;
    (if id =? 0 then clockintr else ret tt) ;;
    x <- r_sip ;;
    w_sip (Z.land x (Z.lnot 2)) ;;
    ret 2
  else ret 0.

(** ** syscall.c *)

(** [syscalls[num]], a null pointer where the table has no entry. *)
Definition syscalls (num : Z) : option (M T (option Z)) :=
  match num with
  | 1 => Some sys_fork
  | 2 => Some sys_exit
  | 3 => Some sys_wait
  | 4 => Some sys_pipe
  | 5 => Some sys_read
  | 6 => Some sys_kill
  | 7 => Some sys_exec
  | 8 => Some sys_fstat
  | 9 => Some sys_chdir
  | 10 => Some sys_dup
  | 11 => Some sys_getpid
  | 12 => Some sys_sbrk
  | 13 => Some sys_sleep
  | 14 => Some sys_uptime
  | 15 => Some sys_open
  | 16 => Some sys_write
  | 17 => Some sys_mknod
  | 18 => Some sys_unlink
  | 19 => Some sys_link
  | 20 => Some sys_mkdir
  | 21 => Some sys_close
  | _ => None
  end.
Definition NELEM_syscalls : Z := 22.

(** Whether the call returned. *)
Definition syscall : M T bool :=
  p <- myproc_deref ;;
  a7 <- tf_get p TF_A7 ;;
  let num := s32 a7 in
  match (if (0 <? num) && (num <? NELEM_syscalls) then syscalls num else None) with
  | Some f =>
      r <- f ;;
      match r with
      | Some v => tf_set p TF_A0 v ;; ret true
      | None => ret false
      end
  | None => tf_set p TF_A0 (u64 (-1)) ;; ret true
  end.

(** ** Returning to user space *)

Definition usertrapret : M T outcome :=
  p <- myproc_deref ;;
  intr_off ;;
  w_stvec (TRAMPOLINE + (uservec_addr - trampoline)) ;;
  ks <- r_satp ;;
  tf_set p TF_KERNEL_SATP ks ;;
  tf_set p TF_KERNEL_SP (u64 (KSTACK (Z.of_nat p) + PGSIZE)) ;;
  tf_set p TF_KERNEL_TRAP usertrap_addr ;;
  h <- r_tp ;;
  tf_set p TF_KERNEL_HARTID h ;;
  x <- r_sstatus ;;
  let x := Z.land x (Z.lnot SSTATUS_SPP) in
  let x := Z.lor x SSTATUS_SPIE in
  w_sstatus x ;;
  epc <- tf_get p TF_EPC ;;
  w_sepc epc ;;
  q <- onK (get_proc p) ;;
  ret (ToUser (MAKE_SATP (p_pagetable q))).
(** The address of the jump. *)
Definition trampoline_userret : Z := TRAMPOLINE + (userret_addr - trampoline).

(** The part of [usertrap] after the cause has been dealt with. *)
Definition usertrap_end (p : nat) (which_dev : Z) : M T outcome :=
  kd <- onK (killed p) ;;
  if negb (kd =? 0) then exit p (-1) ;; ret Gone
  else
    (if which_dev =? 2 then yield p else ret tt) ;;
    usertrapret.

Definition usertrap : M T outcome :=
  st <- r_sstatus ;;
  if negb (Z.land st SSTATUS_SPP =? 0) then panic "usertrap: not from user mode"
  else
    w_stvec kernelvec_addr ;;
    p <- myproc_deref ;;
    pc <- r_sepc ;;
    tf_set p TF_EPC pc ;;
    cause <- r_scause ;;
    if cause =? 8 then
      kd <- onK (killed p) ;;
      if negb (kd =? 0) then exit p (-1) ;; ret Gone
      else
        epc <- tf_get p TF_EPC ;;
        tf_set p TF_EPC (u64 (epc + 4)) ;;
        intr_on ;;
        back <- syscall ;;
        if back : bool then usertrap_end p 0 else ret Gone
    else
      which_dev <- devintr ;;
      (if negb (which_dev =? 0) then ret tt else onK (setkilled p)) ;;
      usertrap_end p which_dev.

(** ** Traps from the kernel *)

Definition kerneltrap : M T unit :=
  pc <- r_sepc ;;
  st <- r_sstatus ;;
  scause <- r_scause ;;
  if Z.land st SSTATUS_SPP =? 0 then panic "kerneltrap: not from supervisor mode"
  else
    on <- intr_get ;;
    if on : bool then panic "kerneltrap: interrupts enabled"
    else
      which_dev <- devintr ;;
      if which_dev =? 0 then panic "kerneltrap"
      else
        me <- myproc ;;
        (match me with
         | Some p =>
             q <- onK (get_proc p) ;;
             if (which_dev =? 2) && bool_decide (p_state q = RUNNING) then yield p else ret tt
         | None => ret tt
         end) ;;
        w_sepc pc ;;
        w_sstatus st.

End Trap.
End Trap.
