(* ===== verification/TrapSpec.v ===== *)
(** * What the trap handlers do

    [usertrapret] leaves the hart ready for user space, whatever the system
    call, the drivers and the other processes did before; a system call runs
    with interrupts on and the saved program counter past the [ecall], and its
    result goes to [a0]; an exception kills the process; [kerneltrap] gives
    back [sepc] and [sstatus] although [yield] may change both. *)

From S2P Require Import Prelude Layout Kalloc Vm Proc Riscv Trap.

Module TrapSpec.
Import Proc Trap.

(** Run the next statement. *)
Tactic Notation "runs" uconstr(L) := rewrite (bind_ok _ _ _ _ _ L); cbv beta.

Lemma bind_ok_inv {S A B} (m : M S A) (k : A -> M S B) (s : S) b s' :
  bind m k s = Ok b s' -> exists a s1, m s = Ok a s1 /\ k a s1 = Ok b s'.
Proof. unfold bind. destruct (m s) as [a s1|e]; [eauto|done]. Qed.

(** Two words of the trapframe do not overlap. *)
Ltac apart_tac :=
  unfold apart, TF_KERNEL_SATP, TF_KERNEL_SP, TF_KERNEL_TRAP, TF_KERNEL_HARTID, TF_EPC, TF_A0, TF_A7 in *; lia.

Section TrapSpec.
Context {F P D : Type} `{PF : ProcFiles F} `{PL : Plic P} `{DR : Drivers D}.
Notation T := (trapst F P D).
Context `{ST : SyscallTable T}.
Context (kernelvec_addr trampoline uservec_addr userret_addr usertrap_addr : Z).
Context (away : nat -> M T unit) (ticks_addr : Z).
Implicit Types (s : T).

Notation devintr := (devintr ticks_addr).
Notation usertrapret := (usertrapret trampoline uservec_addr usertrap_addr).
Notation usertrap_end := (usertrap_end trampoline uservec_addr usertrap_addr away).
Notation usertrap := (usertrap kernelvec_addr trampoline uservec_addr usertrap_addr away ticks_addr).
Notation kerneltrap := (kerneltrap away ticks_addr).

(** ** The state by parts *)

(** The process this hart runs, and a word of its trapframe. *)
Definition current s : option nat := default None (k_cpus (ts_k s) !! Z.to_nat (s32 (ts_tp s))).
Definition word_in s (p : nat) (off : Z) : Z :=
  load64 (Vm.bytes (k_mem (ts_k s))) (p_trapframe (slot (ts_k s) p) + off).

Definition put_csr (c : csr) (v : Z) s : T := set_tscsrs (Riscv.upd c (u64 v) (ts_csrs s)) s.
Definition put_word (p : nat) (off v : Z) s : T :=
  let k := ts_k s in
  let m := k_mem k in
  set_tsk (set_kmem (Vm.set_bytes (store64 (p_trapframe (slot k p) + off) v (Vm.bytes m)) m) k) s.

Lemma csrw_run c v s : csrw c v s = Ok tt (put_csr c v s).
Proof. reflexivity. Qed.
Lemma csrr_run c s : csrr c s = Ok (ts_csrs s c) s.
Proof. reflexivity. Qed.
Lemma myproc_run s : myproc s = Ok (current s) s.
Proof. reflexivity. Qed.
Lemma deref_run p s : current s = Some p -> myproc_deref s = Ok p s.
Proof. intros E. unfold myproc_deref, bind. rewrite myproc_run, E. done. Qed.
Lemma tf_get_run p off s : tf_get p off s = Ok (word_in s p off) s.
Proof. reflexivity. Qed.
Lemma tf_set_run p off v s : tf_set p off v s = Ok tt (put_word p off v s).
Proof. reflexivity. Qed.

Lemma intr_off_run s : intr_off s = Ok tt (put_csr sstatus (Z.land (ts_csrs s sstatus) (Z.lnot SSTATUS_SIE)) s).
Proof. reflexivity. Qed.
Lemma intr_on_run s : intr_on s = Ok tt (put_csr sstatus (Z.lor (ts_csrs s sstatus) SSTATUS_SIE) s).
Proof. reflexivity. Qed.
Lemma tp_run s : r_tp s = Ok (ts_tp s) s.
Proof. reflexivity. Qed.
Lemma get_proc_run p s : onK (get_proc p) s = Ok (slot (ts_k s) p) s.
Proof. unfold onK, lift, get_proc, gets. by destruct s. Qed.
Lemma killed_run p s : onK (killed p) s = Ok (p_killed (slot (ts_k s) p)) s.
Proof. unfold onK, lift, killed, get_proc, bind, gets, ret. by destruct s. Qed.

Lemma put_csr_eq c v s : ts_csrs (put_csr c v s) c = u64 v.
Proof. apply upd_eq. Qed.
Lemma put_csr_ne c c' v s : c <> c' -> ts_csrs (put_csr c v s) c' = ts_csrs s c'.
Proof. apply upd_ne. Qed.
Lemma put_csr_word c v s p off : word_in (put_csr c v s) p off = word_in s p off.
Proof. reflexivity. Qed.
Lemma put_csr_current c v s : current (put_csr c v s) = current s.
Proof. reflexivity. Qed.
Lemma put_csr_slot c v s p : slot (ts_k (put_csr c v s)) p = slot (ts_k s) p.
Proof. reflexivity. Qed.
Lemma put_word_csr p off v s c : ts_csrs (put_word p off v s) c = ts_csrs s c.
Proof. reflexivity. Qed.
Lemma put_word_current p off v s : current (put_word p off v s) = current s.
Proof. reflexivity. Qed.
Lemma put_word_slot p off v s q : slot (ts_k (put_word p off v s)) q = slot (ts_k s) q.
Proof. reflexivity. Qed.
Lemma put_word_tp p off v s : ts_tp (put_word p off v s) = ts_tp s.
Proof. reflexivity. Qed.

Lemma put_word_eq p off v s : word_in (put_word p off v s) p off = u64 v.
Proof. unfold word_in. rewrite put_word_slot. apply load_store_u64. Qed.

Lemma put_word_ne p off off' v s : apart off off' -> word_in (put_word p off v s) p off' = word_in s p off'.
Proof.
  intros Ha. unfold word_in. rewrite put_word_slot. apply load_store_apart. unfold apart in *. lia.
Qed.

Hint Rewrite put_csr_word put_csr_current put_csr_slot put_word_csr put_word_current put_word_slot put_word_tp : trap.

(** ** [usertrapret] *)

(** What [sret] needs: the mode, the interrupt flags, the vector and the
    program counter, and what [uservec] will find in the trapframe. *)
Record user_ready (p : nat) s : Prop := {
  ur_mode : Z.testbit (ts_csrs s sstatus) 8 = false;
  ur_off : Z.testbit (ts_csrs s sstatus) 1 = false;
  ur_on : Z.testbit (ts_csrs s sstatus) 5 = true;
  ur_stvec : ts_csrs s stvec = u64 (TRAMPOLINE + (uservec_addr - trampoline));
  ur_sepc : ts_csrs s sepc = u64 (word_in s p TF_EPC);
  ur_satp : word_in s p TF_KERNEL_SATP = u64 (ts_csrs s satp);
  ur_sp : word_in s p TF_KERNEL_SP = u64 (KSTACK (Z.of_nat p) + PGSIZE);
  ur_trap : word_in s p TF_KERNEL_TRAP = u64 usertrap_addr;
  ur_hart : word_in s p TF_KERNEL_HARTID = u64 (ts_tp s);
  ur_current : current s = Some p;
}.

(** The state [usertrapret] ends in. *)
Definition ready_words (p : nat) s : T :=
  put_word p TF_KERNEL_HARTID (ts_tp s) (put_word p TF_KERNEL_TRAP usertrap_addr
    (put_word p TF_KERNEL_SP (u64 (KSTACK (Z.of_nat p) + PGSIZE)) (put_word p TF_KERNEL_SATP (ts_csrs s satp) s))).

Definition user_status (st : Z) : Z :=
  Z.lor (Z.land (u64 (Z.land st (Z.lnot SSTATUS_SIE))) (Z.lnot SSTATUS_SPP)) SSTATUS_SPIE.

Definition ready_state (p : nat) s : T :=
  let s1 := put_csr stvec (TRAMPOLINE + (uservec_addr - trampoline))
              (put_csr sstatus (Z.land (ts_csrs s sstatus) (Z.lnot SSTATUS_SIE)) s) in
  let s2 := ready_words p s1 in
  put_csr sepc (word_in s2 p TF_EPC) (put_csr sstatus (user_status (ts_csrs s sstatus)) s2).

Lemma usertrapret_run p s :
  current s = Some p ->
  usertrapret s = Ok (ToUser (MAKE_SATP (p_pagetable (slot (ts_k s) p)))) (ready_state p s).
Proof.
  intros Hc. unfold Trap.usertrapret. unfold w_stvec, r_satp, r_sstatus, w_sstatus, w_sepc.
  runs (deref_run p s Hc). runs (intr_off_run s). set (sa := put_csr sstatus _ s).
  runs (csrw_run stvec _ sa). unfold ready_state. fold sa. set (s1 := put_csr stvec _ sa).
  runs (csrr_run satp s1). do 3 runs (tf_set_run p _ _ _).
  runs (tp_run _). runs (tf_set_run p _ _ _).
  rewrite !put_word_tp. fold (ready_words p s1). set (s2 := ready_words p s1).
  runs (csrr_run sstatus s2). runs (csrw_run sstatus _ _).
  replace (ts_csrs s2 sstatus) with (u64 (Z.land (ts_csrs s sstatus) (Z.lnot SSTATUS_SIE))).
  2: { unfold s2, ready_words. rewrite !put_word_csr. unfold s1. rewrite put_csr_ne by done.
       symmetry. apply put_csr_eq. }
  fold (user_status (ts_csrs s sstatus)).
  runs (tf_get_run p TF_EPC _). rewrite put_csr_word.
  runs (csrw_run sepc _ _).
  runs (get_proc_run p _). rewrite !put_csr_slot.
  unfold s2, ready_words. by rewrite !put_word_slot.
Qed.

Lemma user_status_bits st :
  Z.testbit (u64 (user_status st)) 8 = false /\ Z.testbit (u64 (user_status st)) 1 = false /\
  Z.testbit (u64 (user_status st)) 5 = true.
Proof.
  unfold u64, user_status. rewrite !Z.mod_pow2_bits_low by lia.
  rewrite !Z.lor_spec, !Z.land_spec. unfold u64. rewrite !Z.mod_pow2_bits_low, !Z.land_spec by lia.
  rewrite !Z.lnot_spec by lia. split_and!; cbn; rewrite ?andb_false_r, ?orb_true_r; done.
Qed.

(** The words [usertrapret] leaves alone. *)
Lemma ready_words_other p s off : off = TF_EPC \/ 40 <= off -> word_in (ready_words p s) p off = word_in s p off.
Proof. intros Ho. unfold ready_words. rewrite !put_word_ne by apart_tac. done. Qed.

Lemma ready_state_word p s off : word_in (ready_state p s) p off =
  word_in (ready_words p (put_csr stvec (TRAMPOLINE + (uservec_addr - trampoline))
    (put_csr sstatus (Z.land (ts_csrs s sstatus) (Z.lnot SSTATUS_SIE)) s))) p off.
Proof. unfold ready_state. by rewrite !put_csr_word. Qed.

Lemma ready_state_other p s off : off = TF_EPC \/ 40 <= off -> word_in (ready_state p s) p off = word_in s p off.
Proof. intros Ho. rewrite ready_state_word, ready_words_other by done. by rewrite !put_csr_word. Qed.

Lemma ready_state_ready p s : current s = Some p -> user_ready p (ready_state p s).
Proof.
  intros Hc. destruct (user_status_bits (ts_csrs s sstatus)) as (B8 & B1 & B5).
  assert (Est : ts_csrs (ready_state p s) sstatus = u64 (user_status (ts_csrs s sstatus))).
  { unfold ready_state. rewrite put_csr_ne by done. apply put_csr_eq. }
  assert (Hcsr : forall c, c <> sepc -> c <> sstatus -> c <> stvec -> ts_csrs (ready_state p s) c = ts_csrs s c).
  { intros c H1 H2 H3. unfold ready_state, ready_words.
    by rewrite !put_csr_ne, !put_word_csr, !put_csr_ne by congruence. }
  split; rewrite ?Est; [exact B8|exact B1|exact B5| | | | | | |].
  - unfold ready_state, ready_words. rewrite !put_csr_ne, !put_word_csr by done. apply put_csr_eq.
  - rewrite ready_state_word. unfold ready_state. apply put_csr_eq.
  - rewrite ready_state_word, Hcsr by done. unfold ready_words.
    rewrite !(put_word_ne p _ TF_KERNEL_SATP) by apart_tac. rewrite put_word_eq. by rewrite !put_csr_ne by done.
  - rewrite ready_state_word. unfold ready_words. rewrite !(put_word_ne p _ TF_KERNEL_SP) by apart_tac.
    rewrite put_word_eq. apply u64_small, u64_range.
  - rewrite ready_state_word. unfold ready_words. rewrite (put_word_ne p _ TF_KERNEL_TRAP) by apart_tac.
    apply put_word_eq.
  - rewrite ready_state_word. unfold ready_words. apply put_word_eq.
  - unfold ready_state, ready_words. by rewrite !put_csr_current, !put_word_current, !put_csr_current.
Qed.

(** ** [usertrap] *)

(** A trap from user space while this hart runs [p]. *)
Definition from_user (p : nat) s : Prop :=
  Z.land (ts_csrs s sstatus) SSTATUS_SPP = 0 /\ current s = Some p.

(** The state in which the cause is looked at. *)
Definition entry_state (p : nat) s : T :=
  put_word p TF_EPC (ts_csrs s sepc) (put_csr stvec kernelvec_addr s).

(** The state in which a system call starts. *)
Definition call_state (p : nat) s : T :=
  let s1 := entry_state p s in
  let s2 := put_word p TF_EPC (u64 (word_in s1 p TF_EPC + 4)) s1 in
  put_csr sstatus (Z.lor (ts_csrs s2 sstatus) SSTATUS_SIE) s2.

(** The function called for number [num]; an unknown number is answered by -1. *)
Definition handler (num : Z) : M T (option Z) :=
  match (if (0 <? num) && (num <? NELEM_syscalls) then syscalls num else None) with
  | Some f => f
  | None => ret (Some (u64 (-1)))
  end.

Lemma syscall_run p s r s1 :
  current s = Some p -> handler (s32 (word_in s p TF_A7)) s = Ok r s1 ->
  syscall s = match r with
              | Some v => Ok true (put_word p TF_A0 v s1)
              | None => Ok false s1
              end.
Proof.
  intros Hc Hh. unfold syscall. runs (deref_run p s Hc). runs (tf_get_run p TF_A7 s).
  unfold handler in Hh. cbv zeta.
  destruct (if (0 <? s32 (word_in s p TF_A7)) && (s32 (word_in s p TF_A7) <? NELEM_syscalls)
            then syscalls (s32 (word_in s p TF_A7)) else None) as [f|].
  - runs Hh. destruct r as [v|]; [|reflexivity]. by runs (tf_set_run p TF_A0 v s1).
  - injection Hh as <- <-. by runs (tf_set_run p TF_A0 (u64 (-1)) s).
Qed.

Lemma usertrap_end_run p w s :
  p_killed (slot (ts_k s) p) = 0 -> w <> 2 -> usertrap_end p w s = usertrapret s.
Proof.
  intros Hk Hw. unfold Trap.usertrap_end. runs (killed_run p s). rewrite Hk. cbn [Z.eqb negb].
  by rewrite (proj2 (Z.eqb_neq w 2) Hw).
Qed.

(** Up to the test of the cause. *)
Lemma usertrap_enter p s :
  from_user p s ->
  usertrap s = (if ts_csrs s scause =? 8 then
      kd <- onK (killed p) ;;
      if negb (kd =? 0) then exit p (-1) ;; ret Gone
      else
        epc <- tf_get p TF_EPC ;;
        tf_set p TF_EPC (u64 (epc + 4)) ;;
        intr_on ;;
        back <- syscall ;;
        if back : bool then usertrap_end p 0 else ret Gone
    else
      which_dev <- devintr ;;
      (if negb (which_dev =? 0) then ret tt else onK (setkilled p)) ;;
      usertrap_end p which_dev) (entry_state p s).
Proof.
  intros [Hm Hc]. unfold Trap.usertrap, r_sstatus, w_stvec, r_sepc, r_scause.
  runs (csrr_run sstatus s). rewrite Hm. cbn [Z.eqb negb]. runs (csrw_run stvec kernelvec_addr s).
  runs (deref_run p (put_csr stvec kernelvec_addr s) Hc). runs (csrr_run sepc _).
  rewrite (put_csr_ne stvec sepc) by done. runs (tf_set_run p _ _ _). fold (entry_state p s).
  runs (csrr_run scause _). unfold entry_state at 1. rewrite put_word_csr, (put_csr_ne stvec scause) by done.
  by destruct (ts_csrs s scause =? 8).
Qed.

Lemma call_state_spec p s :
  let s1 := call_state p s in
  word_in s1 p TF_EPC = u64 (ts_csrs s sepc + 4) /\ Z.testbit (ts_csrs s1 sstatus) 1 = true /\
  ts_csrs s1 stvec = u64 kernelvec_addr /\ (forall off, 40 <= off -> word_in s1 p off = word_in s p off) /\
  (forall q, slot (ts_k s1) q = slot (ts_k s) q) /\ current s1 = current s.
Proof.
  cbv zeta. unfold call_state, entry_state. split_and!.
  - rewrite put_csr_word, put_word_eq, put_word_eq. unfold u64. rewrite Zplus_mod_idemp_l.
    apply Z.mod_mod. lia.
  - rewrite put_csr_eq. unfold u64. rewrite Z.mod_pow2_bits_low by lia. rewrite Z.lor_spec. apply orb_true_r.
  - rewrite put_csr_ne, !put_word_csr by done. apply put_csr_eq.
  - intros off Ho. rewrite put_csr_word, !put_word_ne by apart_tac. apply put_csr_word.
  - intros q. by rewrite put_csr_slot, !put_word_slot, put_csr_slot.
  - by rewrite put_csr_current, !put_word_current, put_csr_current.
Qed.

Lemma usertrap_call_run p s :
  from_user p s -> ts_csrs s scause = 8 -> p_killed (slot (ts_k s) p) = 0 ->
  usertrap s = (back <- syscall ;; if back : bool then usertrap_end p 0 else ret Gone) (call_state p s).
Proof.
  intros Hu Hc Hk. rewrite (usertrap_enter p s Hu), Hc. cbn [Z.eqb Pos.eqb].
  runs (killed_run p (entry_state p s)). unfold entry_state at 1. rewrite put_word_slot, put_csr_slot, Hk.
  cbn [Z.eqb negb]. runs (tf_get_run p TF_EPC _). runs (tf_set_run p _ _ _). by runs (intr_on_run _).
Qed.

(** Claim C9: a system call.  The handler of the number in [a7] (or, for an
    unknown number, the answer -1) runs with the saved program counter past the
    [ecall] instruction, with interrupts on and traps going to [kernelvec], on
    the registers the user program had; when it returns [v], and the process
    has not been killed meanwhile, the trap ends in user mode at the saved
    program counter with [v] in [a0], the other registers as the handler left
    them, and the hart ready for the next trap. *)
Theorem usertrap_system_call p s v s2 :
  from_user p s -> ts_csrs s scause = 8 -> p_killed (slot (ts_k s) p) = 0 ->
  let s1 := call_state p s in
  handler (s32 (word_in s p TF_A7)) s1 = Ok (Some v) s2 ->
  current s2 = Some p -> p_killed (slot (ts_k s2) p) = 0 ->
  (word_in s1 p TF_EPC = u64 (ts_csrs s sepc + 4) /\ Z.testbit (ts_csrs s1 sstatus) 1 = true /\
   ts_csrs s1 stvec = u64 kernelvec_addr /\ (forall off, 40 <= off -> word_in s1 p off = word_in s p off)) /\
  exists s', usertrap s = Ok (ToUser (MAKE_SATP (p_pagetable (slot (ts_k s2) p)))) s' /\
    user_ready p s' /\ word_in s' p TF_A0 = u64 v /\ ts_csrs s' sepc = u64 (word_in s2 p TF_EPC) /\
    (forall off, 40 <= off -> apart TF_A0 off -> word_in s' p off = word_in s2 p off).
Proof.
  intros Hu Hc Hk s1 Hh Hc2 Hk2. destruct (call_state_spec p s) as (E1 & E2 & E3 & E4 & E5 & E6).
  fold s1 in E1, E2, E3, E4, E5, E6. split; [exact (conj E1 (conj E2 (conj E3 E4)))|].
  set (s3 := put_word p TF_A0 v s2). exists (ready_state p s3).
  assert (Hc3 : current s3 = Some p) by (unfold s3; by rewrite put_word_current).
  split_and!.
  - rewrite (usertrap_call_run p s Hu Hc Hk). fold s1.
    assert (Hs : syscall s1 = Ok true s3).
    { rewrite <-(E4 TF_A7) in Hh by (unfold TF_A7; lia). apply (syscall_run p s1 (Some v) s2); [|exact Hh].
      rewrite E6. apply Hu. }
    runs Hs. rewrite usertrap_end_run by (done || (unfold s3; by rewrite put_word_slot)).
    rewrite (usertrapret_run p s3 Hc3). unfold s3. by rewrite put_word_slot.
  - by apply ready_state_ready.
  - rewrite ready_state_other by (right; unfold TF_A0; lia). apply put_word_eq.
  - rewrite (ur_sepc _ _ (ready_state_ready p s3 Hc3)), ready_state_other by (by left).
    unfold s3. by rewrite put_word_ne by apart_tac.
  - intros off Ho Ha. rewrite ready_state_other by (by right). by apply put_word_ne.
Qed.

(** ** Exceptions *)

Definition is_external (cause : Z) : bool :=
  negb (Z.land cause 0x8000000000000000 =? 0) && (Z.land cause 0xff =? 9).
Definition is_timer (cause : Z) : bool := cause =? 0x8000000000000001.

Lemma devintr_none s :
  is_external (ts_csrs s scause) = false -> is_timer (ts_csrs s scause) = false -> devintr s = Ok 0 s.
Proof.
  intros He Ht. unfold Trap.devintr, r_scause. runs (csrr_run scause s).
  unfold is_external, is_timer in *. by rewrite He, Ht.
Qed.

(** [setkilled] *)
Definition kill_state (p : nat) s : T :=
  set_tsk (set_procs (alter (set_killed 1) p (k_proc (ts_k s))) (ts_k s)) s.

Lemma setkilled_run p s : onK (setkilled p) s = Ok tt (kill_state p s).
Proof. reflexivity. Qed.

Lemma kill_state_killed p s :
  (p < length (k_proc (ts_k s)))%nat -> p_killed (slot (ts_k (kill_state p s)) p) = 1.
Proof.
  intros Hp. unfold slot, kill_state. cbn [ts_k set_tsk k_proc set_procs].
  destruct (lookup_lt_is_Some_2 _ _ Hp) as [q Hq]. rewrite list_lookup_alter, decide_True, Hq by done. done.
Qed.

(** An exception that is neither a system call nor an interrupt ends
    the process: its program counter is saved, it is marked killed, and it
    exits with status -1; there is no way back to user space. *)
Theorem usertrap_exception_kills p s :
  from_user p s -> (p < length (k_proc (ts_k s)))%nat -> ts_csrs s scause <> 8 ->
  is_external (ts_csrs s scause) = false -> is_timer (ts_csrs s scause) = false ->
  let s1 := kill_state p (entry_state p s) in
  usertrap s = (exit p (-1) ;; ret Gone) s1 /\ p_killed (slot (ts_k s1) p) = 1 /\
  (forall satp s', usertrap s <> Ok (ToUser satp) s').
Proof.
  intros Hu Hp Hc He Ht s1.
  assert (Es : ts_csrs (entry_state p s) scause = ts_csrs s scause).
  { unfold entry_state. by rewrite put_word_csr, put_csr_ne. }
  assert (Hk : p_killed (slot (ts_k s1) p) = 1) by (apply kill_state_killed; exact Hp).
  assert (E : usertrap s = (exit p (-1) ;; ret Gone) s1).
  { rewrite (usertrap_enter p s Hu), (proj2 (Z.eqb_neq _ _) Hc).
    assert (Hd : devintr (entry_state p s) = Ok 0 (entry_state p s)) by (apply devintr_none; by rewrite Es).
    runs Hd. cbn [Z.eqb negb]. runs (setkilled_run p (entry_state p s)). fold s1.
    unfold Trap.usertrap_end. runs (killed_run p s1). by rewrite Hk. }
  split; [exact E|]. split; [exact Hk|]. intros v s'. rewrite E. unfold bind.
  destruct (exit p (-1) s1); discriminate.
Qed.

(** ** [kerneltrap] *)

(** What [kerneltrap] may do between [devintr] and the end. *)
Definition reschedule (w : Z) s : M T unit :=
  match current s with
  | Some p => if (w =? 2) && bool_decide (p_state (slot (ts_k s) p) = RUNNING) then yield away p else ret tt
  | None => ret tt
  end.

(** Claim C17: an interrupt taken in the kernel is transparent.  If it came
    from supervisor mode with interrupts off and is recognized, [kerneltrap]
    returns when the driver and the other processes do, and [sepc] and
    [sstatus] are what they were although [yield] and what runs meanwhile may
    change them; any other trap from the kernel is a panic. *)
Theorem kerneltrap_restores s w s1 s2 :
  Z.land (ts_csrs s sstatus) SSTATUS_SPP <> 0 -> Z.land (ts_csrs s sstatus) SSTATUS_SIE = 0 ->
  devintr s = Ok w s1 -> reschedule w s1 s1 = Ok tt s2 ->
  (w <> 0 -> exists s', kerneltrap s = Ok tt s' /\
     ts_csrs s' sepc = u64 (ts_csrs s sepc) /\ ts_csrs s' sstatus = u64 (ts_csrs s sstatus) /\
     (forall c, c <> sepc -> c <> sstatus -> ts_csrs s' c = ts_csrs s2 c) /\ ts_k s' = ts_k s2) /\
  (w = 0 -> kerneltrap s = Stop (SPanic "kerneltrap")).
Proof.
  intros Hm Hi Hd Hr.
  assert (E : kerneltrap s = if w =? 0 then Stop (SPanic "kerneltrap")
      else Ok tt (put_csr sstatus (ts_csrs s sstatus) (put_csr sepc (ts_csrs s sepc) s2))).
  { unfold Trap.kerneltrap, r_sepc, r_sstatus, r_scause, w_sepc, w_sstatus.
    runs (csrr_run sepc s). runs (csrr_run sstatus s). runs (csrr_run scause s).
    rewrite (proj2 (Z.eqb_neq _ _) Hm).
    assert (Hg : intr_get s = Ok false s) by (unfold intr_get, bind, r_sstatus; rewrite csrr_run, Hi; done).
    runs Hg. runs Hd. destruct (w =? 0) eqn:Ew; [reflexivity|].
    runs (myproc_run s1). unfold reschedule in Hr.
    assert (Hy : match current s1 with
        | Some p => q <- onK (get_proc p) ;;
            if (w =? 2) && bool_decide (p_state q = RUNNING) then yield away p else ret tt
        | None => ret tt end s1 = Ok tt s2).
    { destruct (current s1) as [p|]; [|exact Hr]. runs (get_proc_run p s1). exact Hr. }
    runs Hy. by runs (csrw_run sepc _ s2). }
  split; intros Hw.
  - rewrite E, (proj2 (Z.eqb_neq _ _) Hw). eexists. split; [reflexivity|]. split_and!.
    + rewrite put_csr_ne by done. apply put_csr_eq.
    + apply put_csr_eq.
    + intros c H1 H2. by rewrite !put_csr_ne by congruence.
    + reflexivity.
  - by rewrite E, Hw.
Qed.

(** ** Every way back to user space *)

Lemma usertrapret_ready v s s' :
  usertrapret s = Ok (ToUser v) s' ->
  exists p, user_ready p s' /\ v = MAKE_SATP (p_pagetable (slot (ts_k s') p)).
Proof.
  destruct (current s) as [p|] eqn:Hc.
  - rewrite (usertrapret_run p s Hc). intros [= <- <-]. exists p. split; [by apply ready_state_ready|].
    unfold ready_state, ready_words. by rewrite !put_csr_slot, !put_word_slot, !put_csr_slot.
  - unfold Trap.usertrapret, bind, myproc_deref. unfold bind at 1. rewrite myproc_run, Hc. done.
Qed.

Lemma usertrap_end_ready p w v s s' :
  usertrap_end p w s = Ok (ToUser v) s' -> exists s1, usertrapret s1 = Ok (ToUser v) s'.
Proof.
  unfold Trap.usertrap_end. intros (kd & s1 & _ & H)%bind_ok_inv. destruct (negb (kd =? 0)).
  - apply bind_ok_inv in H as (? & ? & _ & ?). done.
  - apply bind_ok_inv in H as (? & s2 & _ & ?). eauto.
Qed.

(** Claim C16: whatever the trap was and whatever the system call, the drivers
    and the other processes did, [usertrap] goes back to user space only with
    the hart ready: user mode with interrupts off now and on after [sret],
    traps going to [uservec], the saved program counter in [sepc], the page
    table of the process this hart runs, and in its trapframe the kernel stack,
    page table and hart number for the next trap. *)
Theorem usertrap_ends_ready s v s' :
  usertrap s = Ok (ToUser v) s' ->
  exists p, user_ready p s' /\ v = MAKE_SATP (p_pagetable (slot (ts_k s') p)).
Proof.
  intros H. apply bind_ok_inv in H as (st & s0 & _ & H). destruct (negb (Z.land st SSTATUS_SPP =? 0)); [done|].
  apply bind_ok_inv in H as ([] & s1 & _ & H). apply bind_ok_inv in H as (p & s2 & _ & H).
  apply bind_ok_inv in H as (pc & s3 & _ & H). apply bind_ok_inv in H as ([] & s4 & _ & H).
  apply bind_ok_inv in H as (cause & s5 & _ & H). destruct (cause =? 8).
  - apply bind_ok_inv in H as (kd & s6 & _ & H). destruct (negb (kd =? 0)).
    { apply bind_ok_inv in H as (? & ? & _ & ?). done. }
    apply bind_ok_inv in H as (epc & s7 & _ & H). apply bind_ok_inv in H as ([] & s8 & _ & H).
    apply bind_ok_inv in H as ([] & s9 & _ & H). apply bind_ok_inv in H as (back & s10 & _ & H).
    destruct back; [|done]. apply usertrap_end_ready in H as [s11 H]. by eapply usertrapret_ready.
  - apply bind_ok_inv in H as (w & s6 & _ & H). apply bind_ok_inv in H as ([] & s7 & _ & H).
    apply usertrap_end_ready in H as [s11 H]. by eapply usertrapret_ready.
Qed.

(** ** Device interrupts *)

Lemma cpuid_run s : cpuid s = Ok (s32 (ts_tp s)) s.
Proof. reflexivity. Qed.
Lemma onPlic_run {A} (m : M P A) a pl s : m (ts_plic s) = Ok a pl -> onPlic m s = Ok a (set_tsplic pl s).
Proof. unfold onPlic, lift. by intros ->. Qed.
Lemma onDev_run {A} (m : M D A) a d s : m (ts_dev s) = Ok a d -> onDev m s = Ok a (set_tsdev d s).
Proof. unfold onDev, lift. by intros ->. Qed.

(** The driver of interrupt [irq]. *)
Definition driver (irq : Z) : M D unit :=
  if irq =? UART0_IRQ then uartintr else if irq =? VIRTIO0_IRQ then virtio_disk_intr else ret tt.

(** An interrupt of the PLIC: the interrupt claimed is completed, once, after
    its driver has run; nothing is completed when nothing was pending. *)
Theorem devintr_external s irq pl1 d1 pl2 :
  let h := s32 (ts_tp s) in
  is_external (ts_csrs s scause) = true ->
  plic_read (PLIC_SCLAIM h) (ts_plic s) = Ok irq pl1 -> driver (s32 irq) (ts_dev s) = Ok tt d1 ->
  plic_write (PLIC_SCLAIM h) (u32 (s32 irq)) pl1 = Ok tt pl2 ->
  devintr s = Ok 1 (set_tsplic (if s32 irq =? 0 then pl1 else pl2) (set_tsdev d1 s)).
Proof.
  intros h He Hrd Hdr Hwr. unfold Trap.devintr, r_scause. runs (csrr_run scause s).
  unfold is_external in He. rewrite He.
  assert (Hcl : plic_claim s = Ok (s32 irq) (set_tsplic pl1 s)).
  { unfold plic_claim. runs (cpuid_run s). by runs (onPlic_run _ _ _ _ Hrd). }
  runs Hcl. unfold driver in Hdr.
  assert (Hd : (if s32 irq =? UART0_IRQ then onDev uartintr
      else if s32 irq =? VIRTIO0_IRQ then onDev virtio_disk_intr else ret tt) (set_tsplic pl1 s) =
      Ok tt (set_tsdev d1 (set_tsplic pl1 s))).
  { destruct (s32 irq =? UART0_IRQ); [by apply onDev_run|].
    destruct (s32 irq =? VIRTIO0_IRQ); [by apply onDev_run|]. injection Hdr as <-. by destruct s. }
  runs Hd. destruct (s32 irq =? 0); [by destruct s|]. cbn [negb].
  assert (Hco : plic_complete (s32 irq) (set_tsdev d1 (set_tsplic pl1 s)) =
    Ok tt (set_tsplic pl2 (set_tsdev d1 (set_tsplic pl1 s)))).
  { unfold plic_complete. runs (cpuid_run (set_tsdev d1 (set_tsplic pl1 s))). by apply onPlic_run. }
  by runs Hco.
Qed.

(** A timer interrupt counts a tick on hart 0 only, wakes the sleepers on
    [ticks], and is acknowledged. *)
Theorem devintr_timer s :
  is_timer (ts_csrs s scause) = true ->
  exists s', devintr s = Ok 2 s' /\
    ts_csrs s' sip = u64 (Z.land (ts_csrs s sip) (Z.lnot 2)) /\
    ts_plic s' = ts_plic s /\ ts_dev s' = ts_dev s /\
    (if s32 (ts_tp s) =? 0 then
       ts_ticks s' = u32 (ts_ticks s + 1) /\
       k_proc (ts_k s') = imap (wakeup_slot (current s) (AddrChan ticks_addr)) (k_proc (ts_k s))
     else ts_ticks s' = ts_ticks s /\ ts_k s' = ts_k s).
Proof.
  intros Ht. unfold Trap.devintr, r_scause. runs (csrr_run scause s). unfold is_timer in Ht. apply Z.eqb_eq in Ht.
  rewrite Ht. change (negb (Z.land 0x8000000000000001 0x8000000000000000 =? 0) && (Z.land 0x8000000000000001 0xff =? 9)) with false.
  change (0x8000000000000001 =? 0x8000000000000001) with true. cbn iota.
  runs (cpuid_run s).
  destruct (s32 (ts_tp s) =? 0).
  - assert (Hcl : exists s1, clockintr ticks_addr s = Ok tt s1 /\ ts_csrs s1 = ts_csrs s /\
      ts_plic s1 = ts_plic s /\ ts_dev s1 = ts_dev s /\ ts_ticks s1 = u32 (ts_ticks s + 1) /\
      k_proc (ts_k s1) = imap (wakeup_slot (current s) (AddrChan ticks_addr)) (k_proc (ts_k s)))
      by (eexists; split; [reflexivity|done]).
    destruct Hcl as (s1 & Hcl & Ec & Ep & Ed & Et & Ek). runs Hcl. unfold r_sip, w_sip.
    runs (csrr_run sip s1). runs (csrw_run sip _ s1). eexists. split; [reflexivity|].
    rewrite put_csr_eq, Ec. done.
  - assert (Hn : (ret tt : M T unit) s = Ok tt s) by reflexivity. runs Hn. unfold r_sip, w_sip.
    runs (csrr_run sip s). runs (csrw_run sip _ s). eexists. split; [reflexivity|].
    by rewrite put_csr_eq.
Qed.
End TrapSpec.

(** ** A machine with one running process *)

#[local] Instance ex_files : ProcFiles unit := {|
  file_dup f := ret f; file_close _ := ret tt; inode_dup i := ret i; inode_put _ := ret tt;
  name_root := ret None |}.
#[local] Instance ex_plic : Plic unit := {| plic_read _ := ret 10; plic_write _ _ := ret tt |}.
#[local] Instance ex_drivers : Drivers unit := {| uartintr := ret tt; virtio_disk_intr := ret tt |}.
Notation ET := (trapst unit unit unit).
Definition ex_call : M ET (option Z) := ret (Some 3).
#[local] Instance ex_table : SyscallTable ET := {|
  sys_fork := ex_call; sys_exit := ret None; sys_wait := ex_call; sys_pipe := ex_call;
  sys_read := ex_call; sys_kill := ex_call; sys_exec := ex_call; sys_fstat := ex_call;
  sys_chdir := ex_call; sys_dup := ex_call; sys_getpid := ex_call; sys_sbrk := ex_call;
  sys_sleep := ex_call; sys_uptime := ex_call; sys_open := ex_call; sys_write := ex_call;
  sys_mknod := ex_call; sys_unlink := ex_call; sys_link := ex_call; sys_mkdir := ex_call;
  sys_close := ex_call |}.

(** Process 0 runs on hart 0; it asks for [getpid], number 11. *)
Definition ex_trap (cause st : Z) : ET :=
  {| ts_csrs := fun c => match c with scause => cause | sstatus => st | sepc => 100 | _ => 0 end;
     ts_tp := 0;
     ts_k := {| k_proc := [set_state RUNNING (set_mem 4096 0x87100000 0x87000000 proc0)];
                k_cpus := [Some 0%nat]; k_initproc := None; k_nextpid := 2; k_wait_lock := None;
                k_mem := {| Vm.ptes := ∅; Vm.bytes := store64 (0x87000000 + TF_A7) 11 ∅;
                            Vm.vkm := Kalloc.kempty |};
                k_files := tt |};
     ts_plic := tt; ts_dev := tt; ts_ticks := 0 |}.

Definition ex_away (p : nat) : M ET unit := modify (put_csr sepc 12345).

Lemma usertrap_system_call_witness :
  exists s', usertrap 0x80002000 0x80001000 0x80001000 0x80003000 ex_away 500 (ex_trap 8 0) =
      Ok (ToUser (MAKE_SATP 0x87100000)) s' /\
    word_in s' 0 TF_A0 = 3 /\ ts_csrs s' sepc = 104.
Proof.
  destruct (usertrap_system_call 0x80002000 0x80001000 0x80001000 0x80003000 ex_away 500 0 (ex_trap 8 0) 3
    (call_state 0x80002000 0 (ex_trap 8 0))) as [_ (s' & E & _ & Ha & Hp & _)].
  - split; reflexivity.
  - reflexivity.
  - reflexivity.
  - reflexivity.
  - reflexivity.
  - reflexivity.
  - exists s'. split; [exact E|]. split; [exact Ha|]. rewrite Hp. vm_compute. reflexivity.
Defined.

Lemma usertrap_exception_kills_witness :
  p_killed (slot (ts_k (kill_state 0 (entry_state 0x80002000 0 (ex_trap 13 0)))) 0) = 1 /\
  forall satp s', usertrap 0x80002000 0x80001000 0x80001000 0x80003000 ex_away 500 (ex_trap 13 0) <> Ok (ToUser satp) s'.
Proof.
  apply (usertrap_exception_kills 0x80002000 0x80001000 0x80001000 0x80003000 ex_away 500 0 (ex_trap 13 0)).
  - split; reflexivity.
  - vm_compute. lia.
  - vm_compute. congruence.
  - reflexivity.
  - reflexivity.
Defined.

Definition end_of {A} (m : M ET A) (s : ET) : ET := match m s with Ok _ s' => s' | Stop _ => s end.

(** A timer interrupt in the kernel, after which another process has run. *)
Lemma kerneltrap_restores_witness :
  exists s', kerneltrap ex_away 500 (ex_trap 0x8000000000000001 0x120) = Ok tt s' /\
    ts_csrs s' sepc = 100 /\ ts_csrs s' sstatus = 0x120.
Proof.
  destruct (kerneltrap_restores ex_away 500 (ex_trap 0x8000000000000001 0x120) 2
    (end_of (devintr 500) (ex_trap 0x8000000000000001 0x120))
    (end_of (reschedule ex_away 2 (end_of (devintr 500) (ex_trap 0x8000000000000001 0x120)))
      (end_of (devintr 500) (ex_trap 0x8000000000000001 0x120)))) as [H _].
  - vm_compute. congruence.
  - reflexivity.
  - vm_compute. reflexivity.
  - vm_compute. reflexivity.
  - destruct (H ltac:(lia)) as (s' & E & Hp & Hs & _). exists s'. split; [exact E|].
    split; [rewrite Hp; reflexivity|rewrite Hs; reflexivity].
Defined.

Lemma usertrap_ends_ready_witness :
  exists p, current (end_of (usertrap 0x80002000 0x80001000 0x80001000 0x80003000 ex_away 500) (ex_trap 8 0)) = Some p.
Proof.
  destruct (usertrap_ends_ready 0x80002000 0x80001000 0x80001000 0x80003000 ex_away 500 (ex_trap 8 0)
    (MAKE_SATP 0x87100000)
    (end_of (usertrap 0x80002000 0x80001000 0x80001000 0x80003000 ex_away 500) (ex_trap 8 0))) as (p & H & _).
  - vm_compute. reflexivity.
  - exists p. apply H.
Defined.

End TrapSpec.
