(* ===== verification/AddrSpace.v ===== *)
(** * The life of an address space (kernel/vm.c, kernel/proc.c)

    Making a page table ([proc_pagetable]), copying the memory of a process
    ([uvmcopy], for [fork]) and freeing everything ([freewalk], [uvmfree],
    [proc_freepagetable]), with the accounts of the pages: on every path, the
    failing ones included, no page is lost, none is freed twice and no page of
    anyone else is touched. *)

From S2P Require Import Prelude Layout Kalloc UserMem Vm PageTable UserSpace Proc.
Import Vm.

(** ** Freeing the tables *)

(** The tables [ts] below [t], which has level [d - 1], in the order of the
    walk; no entry is a leaf. *)
Fixpoint subtree (d : nat) (m : vmem) (t : Z) (ts : list Z) : Prop :=
  match d with
  | O => False
  | S d => exists subs : list (list Z), length subs = 512%nat /\ ts = t :: concat subs /\
      forall i sub, subs !! i = Some sub ->
        let v := pte_at m (t + 8 * Z.of_nat i) in
        pte_flag v PTE_V = false /\ sub = [] \/
        pte_flag v PTE_V = true /\ Z.land v (Z.lor (Z.lor PTE_R PTE_W) PTE_X) = 0 /\
          subtree d m (PTE2PA v) sub
  end.

(** No byte changes, and no entry outside of the tables [ts]. *)
Definition only_in (ts : list Z) (m m' : vmem) : Prop :=
  bytes m' = bytes m /\
  forall t i, t mod PGSIZE = 0 -> t ∉ ts -> 0 <= i < 512 -> pte_at m' (t + 8 * i) = pte_at m (t + 8 * i).

Lemma only_in_trans ts1 ts2 ts m m1 m2 :
  only_in ts1 m m1 -> only_in ts2 m1 m2 -> ts1 ⊆ ts -> ts2 ⊆ ts -> only_in ts m m2.
Proof.
  intros [B1 P1] [B2 P2] S1 S2. split; [congruence|]. intros t i Ht Hn Hi.
  rewrite P2, P1; try done; intros ?; apply Hn; auto.
Qed.

Lemma subtree_same d m m' t ts us :
  subtree d m t ts -> only_in us m m' -> (forall q, q ∈ ts -> q mod PGSIZE = 0) -> ts ## us ->
  subtree d m' t ts.
Proof.
  revert t ts. induction d as [|d IH]; intros t ts Hs Ho Ha Hd; [done|].
  destruct Hs as (subs & Hlen & -> & Hs). exists subs. split_and!; try done. intros i sub Hi. cbv zeta.
  pose proof (lookup_lt_Some _ _ _ Hi). rewrite (proj2 Ho); [|apply Ha; by left|set_solver|lia].
  destruct (Hs i sub Hi) as [?|(? & ? & Hsub)]; [by left|right]. split_and!; try done.
  assert (sub ⊆ concat subs).
  { intros q Hq. apply list_elem_of_In, in_concat. exists sub. rewrite <-!list_elem_of_In. split; [|done].
    by eapply list_elem_of_lookup_2. }
  apply IH; try done; [intros q Hq; apply Ha; set_solver|set_solver].
Qed.

Section free.
Context (kend : Z) (Hkend : 0 < kend).

(** Pages that can be freed. *)
Definition freeable (ts l : list Z) : Prop := NoDup (ts ++ l) /\ forall q, q ∈ ts -> Kalloc.page_ok kend q.

Lemma freeable_aligned ts l q : freeable ts l -> q ∈ ts -> q mod PGSIZE = 0.
Proof. intros [_ Hp] Hq. apply (Hp q Hq). Qed.

Definition frees (c : M vmem unit) (ts : list Z) (us : list Z) (m : vmem) (l : list Z) : Prop :=
  wp c (fun _ m' => exists l', Kalloc.klist kend (vkm m') l' /\ l' ≡ₚ ts ++ l /\ only_in us m m') m.

(** What an entry of a table without leaves is. *)
Definition entry_ok (d : nat) (m : vmem) (v : Z) (sub : list Z) : Prop :=
  pte_flag v PTE_V = false /\ sub = [] \/
  pte_flag v PTE_V = true /\ Z.land v (Z.lor (Z.lor PTE_R PTE_W) PTE_X) = 0 /\ subtree d m (PTE2PA v) sub.

Definition walk_frees (d : nat) : Prop :=
  forall t ts m l, subtree d m t ts -> freeable ts l -> Kalloc.klist kend (vkm m) l ->
    frees (freewalk kend d t) ts ts m l.

Lemma freewalk_entry d t i sub m l :
  walk_frees d -> entry_ok d m (pte_at m (t + 8 * i)) sub -> 0 <= i < 512 -> t mod PGSIZE = 0 -> t ∉ sub ->
  freeable sub l -> Kalloc.klist kend (vkm m) l ->
  let pte := pte_at m (t + 8 * i) in
  wp (if pte_flag pte PTE_V && (Z.land pte (Z.lor (Z.lor PTE_R PTE_W) PTE_X) =? 0) then
        freewalk kend d (PTE2PA pte) ;;
        set_pte (t + 8 * i) 0
      else if pte_flag pte PTE_V then panic "freewalk: leaf"
      else ret tt)
    (fun _ m' => exists l', Kalloc.klist kend (vkm m') l' /\ l' ≡ₚ sub ++ l /\ only_in (t :: sub) m m' /\
       forall j, i < j < 512 -> pte_at m' (t + 8 * j) = pte_at m (t + 8 * j)) m.
Proof.
  intros Hfw He Hi Ha Hn Hf Hl pte. destruct He as [[E ->]|(E & Ef & Hs)]; unfold pte; rewrite E; cbn [andb].
  { apply wp_ret. exists l. by split_and!. }
  rewrite Ef. cbn [Z.eqb]. wp_use (Hfw _ sub m l Hs Hf Hl). intros [] m1 (l1 & Hl1 & Hp & Hb & Ho).
  apply wp_modify. exists l1. split_and!; try done.
  - split; [done|]. intros t' i' Ha' Hn' Hi'. rewrite <-Ho by set_solver. unfold pte_at. cbn [ptes set_ptes].
    rewrite lookup_insert_ne; [done|]. intros Et. destruct (entry_inj t t' i i') as [-> _]; set_solver.
  - intros j Hj. rewrite <-Ho by (done || lia). unfold pte_at. cbn [ptes set_ptes].
    rewrite lookup_insert_ne; [done|lia].
Qed.

Lemma freewalk_entries_wp d n t i subs m l :
  walk_frees d -> length subs = n -> i + Z.of_nat n = 512 -> 0 <= i -> t ∉ concat subs -> t mod PGSIZE = 0 ->
  (forall j sub, subs !! j = Some sub -> entry_ok d m (pte_at m (t + 8 * (i + Z.of_nat j))) sub) ->
  freeable (concat subs) l -> Kalloc.klist kend (vkm m) l ->
  frees (freewalk_entries n (freewalk kend d) t i) (concat subs) (t :: concat subs) m l.
Proof.
  intros Hfw. revert i subs m l. induction n as [|n IH]; intros i subs m l Hlen Hin Hi Ht Hta Hs Hf Hl.
  { destruct subs; [|done]. apply wp_ret. exists l. by split_and!. }
  destruct subs as [|sub subs]; [done|]. injection Hlen as Hlen. cbn [concat] in *.
  pose proof (Hs O sub eq_refl) as H0. rewrite Z.add_0_r in H0. destruct Hf as [Hnd Hpg].
  assert (Hd : sub ## concat subs /\ sub ## l /\ NoDup (sub ++ l) /\ NoDup (concat subs ++ sub ++ l)).
  { rewrite <-app_assoc in Hnd. apply NoDup_app in Hnd as (N1 & N2 & N3).
    apply NoDup_app in N3 as (N3 & N4 & N5). split_and!.
    - intros q Hq Hq'. apply (N2 q Hq). set_solver.
    - intros q Hq Hq'. apply (N2 q Hq). set_solver.
    - apply NoDup_app. split_and!; try done. set_solver.
    - apply NoDup_app. split_and!; try done; [set_solver|]. apply NoDup_app. split_and!; try done. set_solver. }
  destruct Hd as (D1 & D2 & D3 & D4). unfold frees. cbn [freewalk_entries]. apply wp_bind, wp_gets.
  wp_use (freewalk_entry d t i sub m l Hfw H0); try done; [lia|set_solver|split; [done|set_solver]|].
  intros [] m1 (l1 & Hl1 & Hp1 & Ho1 & Hj1).
  assert (Hsub : forall q, q ∈ sub ++ concat subs -> q mod PGSIZE = 0) by (intros q Hq; apply (Hpg q Hq)).
  eapply wp_mono; [apply (IH (i + 1) subs m1 l1); try done|].
  - lia.
  - lia.
  - set_solver.
  - intros j sub' Hj. pose proof (lookup_lt_Some _ _ _ Hj). replace (i + 1 + Z.of_nat j) with (i + Z.of_nat (S j)) by lia.
    rewrite Hj1 by lia. destruct (Hs (S j) sub' Hj) as [?|(? & ? & Hst)]; [by left|right]. split_and!; try done.
    assert (sub' ⊆ concat subs).
    { intros q Hq. apply list_elem_of_In, in_concat. exists sub'. rewrite <-!list_elem_of_In.
      split; [by eapply list_elem_of_lookup_2|done]. }
    eapply subtree_same; [exact Hst|exact Ho1|intros q Hq; apply Hsub; set_solver|set_solver].
  - split; [by rewrite Hp1|set_solver].
  - cbn beta. intros _ m2 (l2 & Hl2 & Hp2 & Ho2). exists l2. split_and!; try done.
    + rewrite Hp2, Hp1. by rewrite !app_assoc, (Permutation_app_comm (concat subs)).
    + eapply only_in_trans; [exact Ho1|exact Ho2|set_solver..].
Qed.

Lemma freewalk_wp d : walk_frees d.
Proof.
  induction d as [|d IH]; intros t ts m l Hs Hf Hl; [done|]. destruct Hs as (subs & Hlen & -> & Hs).
  destruct Hf as [Hnd Hpg]. cbn [app] in Hnd. apply NoDup_cons in Hnd as [Hnt Hnd].
  unfold frees. cbn [freewalk]. wp_use (freewalk_entries_wp d 512 t 0 subs m l IH Hlen eq_refl ltac:(lia)).
  - set_solver.
  - apply (Hpg t). by left.
  - intros j sub Hj. rewrite Z.add_0_l. by apply Hs.
  - split; [done|set_solver].
  - done.
  - intros [] m1 (l1 & Hl1 & Hp1 & Ho1).
    eapply wp_mono; [apply (vkfree_spec kend Hkend m1 t l1 Hl1); [apply Hpg; by left|by rewrite Hp1]|].
    cbn beta. intros _ m2 (E2 & B2 & Hl2). exists (t :: l1). split_and!; [done|by rewrite Hp1|].
    split; [rewrite B2; apply Ho1|]. intros t' i' Ha Hn Hi. rewrite <-(proj2 Ho1) by done. unfold pte_at. by rewrite E2.
Qed.
End free.

(** ** The tables of an empty address space *)

Lemma list_choice {A} (P : nat -> A -> Prop) n :
  (forall i, (i < n)%nat -> exists x, P i x) ->
  exists xs, length xs = n /\ forall i x, xs !! i = Some x -> P i x.
Proof.
  revert P. induction n as [|n IH]; intros P HP; [by exists []|].
  destruct (HP O ltac:(lia)) as [x Hx]. destruct (IH (fun i => P (S i))) as (xs & Hlen & Hxs).
  { intros i Hi. apply HP. lia. }
  exists (x :: xs). split; [cbn; lia|]. intros [|i] y Hy; [by injection Hy as <-|by apply Hxs].
Qed.

Lemma NoDup_concat {A} (ls : list (list A)) :
  (forall i l, ls !! i = Some l -> NoDup l) ->
  (forall i j l l' x, ls !! i = Some l -> ls !! j = Some l' -> x ∈ l -> x ∈ l' -> i = j) ->
  NoDup (concat ls).
Proof.
  induction ls as [|l ls IH]; intros Hn Hd; cbn [concat]; [constructor|]. apply NoDup_app. split_and!.
  - by apply (Hn O).
  - intros x Hx (l' & Hl' & Hx')%list_elem_of_In%in_concat. apply list_elem_of_In in Hl', Hx'.
    apply list_elem_of_lookup_1 in Hl' as [i Hi]. by specialize (Hd O (S i) l l' x eq_refl Hi Hx Hx').
  - apply IH; [intros i; apply (Hn (S i))|]. intros i j l1 l2 x H1 H2 X1 X2.
    specialize (Hd (S i) (S j) l1 l2 x H1 H2 X1 X2). lia.
Qed.

Section tables.
Context (m : vmem) (pt : Z) (G : gmap Z (list Z)) (Hok : ptok m pt G).
Context (Hempty : forall va, 0 <= va < MAXVA -> valid m pt va = false).

Lemma prefix_table p p' q : G !! q = Some (p ++ p') -> exists t, G !! t = Some p.
Proof.
  revert q. induction p' as [|i p' IH] using rev_ind; intros q Hq; [rewrite app_nil_r in Hq; eauto|].
  rewrite app_assoc in Hq. destruct (pk_parent _ _ _ Hok _ _ _ Hq) as (t & Ht & _). eauto.
Qed.

(** The entry of a table on the way to another one. *)
Lemma prefix_entry t p i p' q :
  G !! t = Some p -> G !! q = Some (p ++ i :: p') -> pte_flag (pte_at m (t + 8 * i)) PTE_V = true.
Proof.
  intros Ht Hq. change (i :: p') with ([i] ++ p') in Hq. rewrite app_assoc in Hq.
  apply prefix_table in Hq as [t' Ht']. destruct (pk_parent _ _ _ Hok _ _ _ Ht') as (t0 & Ht0 & _ & Hv & _).
  by rewrite (path_table m pt G Hok t t0 p Ht Ht0).
Qed.

Lemma leaf_entry t p i : G !! t = Some p -> length p = 2%nat -> 0 <= i < 512 -> pte_flag (pte_at m (t + 8 * i)) PTE_V = false.
Proof.
  intros Ht Hp Hi. destruct p as [|a [|b [|]]]; try done.
  destruct (pk_parent _ _ _ Hok t [a] b Ht) as (t1 & Ht1 & Hb & _).
  destruct (pk_parent _ _ _ Hok t1 [] a Ht1) as (t2 & _ & Ha & _). pose proof (pk_low _ _ _ Hok _ _ _ Ht).
  destruct (PX_va_of a b i) as (Hva & E2 & E1 & E0); [lia..|].
  specialize (Hempty (va_of a b i) Hva). unfold valid, leaf_pte in Hempty.
  rewrite (proj2 (leaf_table_path m pt G (va_of a b i) t Hok ltac:(lia))) in Hempty by (by rewrite E1, E2).
  unfold pte_addr in Hempty. by rewrite E0 in Hempty.
Qed.

Definition below (p : list Z) (q : Z) : Prop := exists p', G !! q = Some (p ++ p').

Lemma tree_tables d t p :
  G !! t = Some p -> (length p + d = 3)%nat ->
  exists ts, subtree d m t ts /\ NoDup ts /\ forall q, q ∈ ts <-> below p q.
Proof.
  revert t p. induction d as [|d IH]; intros t p Ht Hlen.
  { apply (pk_page _ _ _ Hok) in Ht. lia. }
  destruct (list_choice (fun i sub => entry_ok d m (pte_at m (t + 8 * Z.of_nat i)) sub /\
      NoDup sub /\ forall q, q ∈ sub <-> below (p ++ [Z.of_nat i]) q) 512) as (subs & Hls & Hsubs).
  { intros i Hi. destruct (pte_flag (pte_at m (t + 8 * Z.of_nat i)) PTE_V) eqn:Ev.
    - assert (Hp : (length p < 2)%nat).
      { apply (pk_page _ _ _ Hok) in Ht as Hp. destruct (decide (length p = 2%nat)) as [E|]; [|lia].
        rewrite (leaf_entry t p) in Ev; (done || lia). }
      pose proof (pk_next _ _ _ Hok t p (Z.of_nat i) Ht Hp ltac:(lia) Ev) as Hn.
      destruct (IH _ _ Hn) as (ts & H1 & H2 & H3); [rewrite length_app; cbn; lia|]. exists ts.
      split_and!; [right; split_and!; try done|done|done]. apply (pk_flags _ _ _ Hok t p); (done || lia).
    - exists []. split_and!; [by left|constructor|]. intros q. split; [by intros ?%not_elem_of_nil|].
      intros [p' Hq]. rewrite <-app_assoc in Hq. pose proof (prefix_entry _ _ _ _ _ Ht Hq). congruence. }
  exists (t :: concat subs).
  assert (Hin : forall q, q ∈ concat subs <-> exists i p', (i < 512)%nat /\ G !! q = Some (p ++ Z.of_nat i :: p')).
  { intros q. rewrite list_elem_of_In, in_concat. split.
    - intros (sub & [i Hi]%list_elem_of_In%list_elem_of_lookup_1 & Hq%list_elem_of_In). exists i.
      destruct (Hsubs i sub Hi) as (_ & _ & Hb). apply Hb in Hq as [p' Hq]. exists p'.
      rewrite <-app_assoc in Hq. split; [apply lookup_lt_Some in Hi; lia|done].
    - intros (i & p' & Hi & Hq). destruct (lookup_lt_is_Some_2 subs i ltac:(lia)) as [sub Hsub]. exists sub.
      rewrite <-!list_elem_of_In. split; [by eapply list_elem_of_lookup_2|].
      apply (Hsubs i sub Hsub). exists p'. by rewrite <-app_assoc. }
  split_and!.
  - exists subs. split_and!; try done. intros i sub Hi. apply (Hsubs i sub Hi).
  - apply NoDup_cons. split.
    + intros (i & p' & _ & Hq)%Hin. rewrite Ht in Hq. injection Hq as Hq. apply (f_equal length) in Hq.
      rewrite length_app in Hq. cbn in Hq. lia.
    + apply NoDup_concat; [intros i sub Hi; apply (Hsubs i sub Hi)|]. intros i j si sj q Hi Hj Qi Qj.
      apply (Hsubs i si Hi) in Qi as [pi Qi]. apply (Hsubs j sj Hj) in Qj as [pj Qj]. rewrite <-!app_assoc in *.
      rewrite Qi in Qj. injection Qj as Qj. apply app_inv_head in Qj. injection Qj as Qj. lia.
  - intros q. rewrite elem_of_cons, Hin. split.
    + intros [->|(i & p' & _ & Hq)]; [exists []; by rewrite app_nil_r|by exists (Z.of_nat i :: p')].
    + intros [[|i p'] Hq]; [left; rewrite app_nil_r in Hq; by apply (path_table m pt G Hok q t p)|right].
      pose proof Hq as Hq'. change (i :: p') with ([i] ++ p') in Hq'. rewrite app_assoc in Hq'.
      apply prefix_table in Hq' as [t' Ht']. destruct (pk_parent _ _ _ Hok _ _ _ Ht') as (t0 & _ & Hi & _).
      exists (Z.to_nat i), p'. rewrite Z2Nat.id by lia. split; [lia|done].
Qed.

Lemma all_tables : exists ts, subtree 3 m pt ts /\ NoDup ts /\ forall q, q ∈ ts <-> is_Some (G !! q).
Proof.
  destruct (tree_tables 3 pt [] (pk_root _ _ _ Hok) eq_refl) as (ts & H1 & H2 & H3). exists ts.
  by split_and!.
Qed.
End tables.

(** ** Freeing an address space *)

Section life.
Context (kend : Z) (Hkend : 0 < kend).

(** All pages are free. *)
Definition all_free (P : Z -> Prop) (m m' : vmem) : Prop :=
  exists l, Kalloc.klist kend (vkm m') l /\ (forall q, q ∈ l <-> P q) /\ bytes m' = bytes m /\ untouched P m m'.

Lemma freewalk_all pt m G l :
  uspace kend m pt G l -> (forall va, 0 <= va < MAXVA -> valid m pt va = false) ->
  wp (freewalk kend 3 pt) (fun _ m' => all_free (owns m pt G l) m m') m.
Proof.
  intros Hu Hempty. destruct (us_table _ _ _ _ _ Hu) as [Hok [Hl Hd] Hpg].
  destruct (all_tables m pt G Hok Hempty) as (ts & Hts & Hnd & Hin).
  assert (Ho : forall q, owns m pt G l q <-> q ∈ ts ++ l).
  { intros q. unfold owns. rewrite elem_of_app, Hin. split; [|tauto].
    intros [?|[?|(va & Hva & Hv & _)]]; [tauto..|]. by rewrite Hempty in Hv by auto. }
  eapply wp_mono; [apply (freewalk_wp kend Hkend 3 pt ts m l Hts); [|done]|].
  - split; [|intros q Hq; by apply Hpg, Hin]. apply NoDup_app. split_and!; [done| |apply Hl].
    intros q Hq Hql. apply Hin in Hq. rewrite (Hd q Hql) in Hq. by destruct Hq.
  - cbn beta. intros _ m' (l' & Hl' & Hp & Hb & Hout). exists l'. split_and!; try done.
    + intros q. by rewrite Hp, Ho.
    + split; [intros p x _ _ _; unfold byte_at; by rewrite Hb|]. intros t i Ht Hn Hi. apply Hout; try done.
      intros Hq. apply Hn, Ho. set_solver.
Qed.

Lemma uvmfree_wp pt sz m G l :
  uspace kend m pt G l -> sized m pt sz -> 0 <= sz <= TRAPFRAME ->
  (forall va, TRAPFRAME <= va < MAXVA -> valid m pt va = false) ->
  wp (uvmfree kend pt sz) (fun _ m' => all_free (owns m pt G l) m m') m.
Proof.
  intros Hu Hsz Hr Htop. unfold uvmfree. destruct (pgup_spec sz) as [H1 H2].
  pose proof (pgup_trapframe sz ltac:(lia)) as H3.
  assert (Hunm : wp (if 0 <? sz then uvmunmap kend pt 0 (PGROUNDUP sz / PGSIZE) true else ret tt)
    (fun _ m1 => exists l1, uspace kend m1 pt G l1 /\ conserves pt m G l m1 G l1 /\ bytes m1 = bytes m /\
       forall va, 0 <= va < MAXVA -> valid m1 pt va = false) m).
  { destruct (Z.ltb_spec 0 sz) as [Hpos|Hz].
    - rewrite PGROUNDUP_pgup by lia.
      assert (E : exists n : nat, pgup sz = Z.of_nat n * PGSIZE).
      { apply Z.mod_divide in H2 as [z Hz]; [|done]. exists (Z.to_nat z). unfold PGSIZE in *. lia. }
      destruct E as [n Hn]. rewrite Hn, Z.div_mul by done.
      eapply wp_mono; [apply (unmap_own kend Hkend pt m G l 0 n Hu); [done|done|lia|]|].
      + intros va Hva Hv. rewrite (proj1 (sized_pgup m pt sz) Hsz) by done. apply bool_decide_true. lia.
      + cbn beta. intros _ m1 (Hu1 & Hb1 & Hcv1 & He1). eexists. split_and!; try done. intros va Hva.
        unfold valid. rewrite He1 by done. case_decide as Hd; [done|].
        destruct (decide (va < TRAPFRAME)); [|apply Htop; lia].
        change (valid m pt va = false). rewrite (proj1 (sized_pgup m pt sz) Hsz) by lia. apply bool_decide_false.
        pose proof (page_bound va Hva). lia.
    - apply wp_ret. exists l. split_and!; try done. intros va Hva.
      destruct (decide (va < TRAPFRAME)); [|apply Htop; lia]. rewrite Hsz by lia. apply bool_decide_false.
      pose proof (page_bound va Hva). lia. }
  wp_use Hunm. intros [] m1 (l1 & Hu1 & Hcv & Hb & Hempty).
  eapply wp_mono; [by apply (freewalk_all pt m1 G l1)|]. cbn beta. intros _ m' (l' & Hl' & Hin & Hb' & Hout).
  exists l'. split_and!; try done.
  - intros q. rewrite Hin. apply (cv_owns _ _ _ _ _ _ _ Hcv).
  - congruence.
  - eapply untouched_trans; [apply Hcv|]. eapply untouched_mono; [|done]. apply Hcv.
Qed.

(** A page from [TRAPFRAME] on that is not the process's own. *)
Lemma unmap_top pt a m G l :
  uspace kend m pt G l -> TRAPFRAME <= a < MAXVA -> a mod PGSIZE = 0 -> leaf_mapped pt m a ->
  wp (uvmunmap kend pt a 1 false) (fun _ m' => uspace kend m' pt G l /\ bytes m' = bytes m /\
    untouched (owns m pt G l) m m' /\ (forall q, owns m' pt G l q <-> owns m pt G l q) /\
    forall va, 0 <= va < MAXVA -> leaf_pte m' pt va = if decide (page_of va = a) then 0 else leaf_pte m pt va) m.
Proof.
  intros Hu Ha Hal Hm. pose proof (top_max a Ha) as Ha'. unfold uvmunmap. rewrite Hal. cbn [negb Z.eqb].
  destruct (page_bound a Ha') as [_ Hb]. rewrite page_of_id in Hb by done.
  assert (Hpg : forall va, a <= page_of va < a + Z.of_nat 1 * PGSIZE <-> page_of va = a).
  { intros va. split; [|unfold PGSIZE; lia]. intros Hv. destruct (decide (a < page_of va)) as [Hlt|]; [|lia].
    apply aligned_lt in Hlt; [unfold PGSIZE in *; lia|done|apply page_of_aligned]. }
  eapply wp_mono; [apply (uvmunmap_loop_wp kend pt Hkend 1 a false m G l (us_table _ _ _ _ _ Hu)); (done || lia || idtac)|].
  { intros va Hva E%Hpg. unfold leaf_mapped. rewrite leaf_pte_page by lia. by rewrite E. }
  cbn beta. intros _ m' (Hst & Hby & Hout & He).
  assert (He' : forall va, 0 <= va < MAXVA -> leaf_pte m' pt va = if decide (page_of va = a) then 0 else leaf_pte m pt va).
  { intros va Hva. rewrite He by done. pose proof (Hpg va). repeat case_decide; tauto. }
  assert (Hlow : forall va, 0 <= va < TRAPFRAME -> leaf_pte m' pt va = leaf_pte m pt va).
  { intros va Hva. rewrite He', decide_False; [done| |by auto]. pose proof (page_of_aligned va).
    unfold page_of. pose proof (Z.mod_pos_bound va PGSIZE PGSIZE_pos). lia. }
  assert (Ho : forall q, owns m' pt G l q <-> owns m pt G l q).
  { intros q. unfold owns, valid, phys. split; (intros [?|[?|(va & Hva & Hv)]]; [tauto..|]);
      right; right; exists va; [rewrite Hlow in Hv by done|rewrite Hlow by done]; done. }
  split_and!; try done.
  - destruct Hu as [_ U2 U3 U4]. split; [done| | |]; unfold valid, phys in *.
    + intros va Hva. rewrite Hlow by done. by apply U2.
    + intros va Hva. rewrite Hlow by done. by apply U3.
    + intros va va' Hva Hva'. rewrite !Hlow by done. by apply U4.
  - split; [intros p x _ _ _; unfold byte_at; by rewrite Hby|]. intros t i Ht Hn Hi. apply Hout; try done.
    destruct (G !! t) eqn:E; [|done]. destruct Hn. right; left. by rewrite E.
Qed.

(** The two pages that every process has. *)
Definition top_pages (tramp tf : Z) (m : vmem) (pt : Z) : Prop :=
  leaf_pte m pt TRAMPOLINE = map_entry tramp (Z.lor PTE_R PTE_X) /\
  leaf_pte m pt TRAPFRAME = map_entry tf (Z.lor PTE_R PTE_W).

Lemma top_page va : TRAPFRAME <= va < MAXVA -> page_of va = TRAMPOLINE \/ page_of va = TRAPFRAME.
Proof.
  intros Hva. assert (E : MAXVA = TRAMPOLINE + PGSIZE) by done. assert (E' : TRAMPOLINE = TRAPFRAME + PGSIZE) by done.
  destruct (decide (va < TRAMPOLINE)).
  - right. destruct (page_of_same TRAPFRAME va) as [-> _]; change (page_of TRAPFRAME) with TRAPFRAME; (done || lia).
  - left. destruct (page_of_same TRAMPOLINE va) as [-> _]; change (page_of TRAMPOLINE) with TRAMPOLINE; (done || lia).
Qed.

Lemma proc_freepagetable_wp tramp tf pt sz m G l :
  uspace kend m pt G l -> sized m pt sz -> 0 <= sz <= TRAPFRAME ->
  top_pages tramp tf m pt -> 0 <= tramp < 2 ^ 56 -> tramp mod PGSIZE = 0 -> 0 <= tf < 2 ^ 56 -> tf mod PGSIZE = 0 ->
  wp (Proc.proc_freepagetable kend pt sz) (fun _ m' => all_free (owns m pt G l) m m') m.
Proof.
  intros Hu Hsz Hr [Ht1 Ht2] A1 A2 B1 B2. unfold Proc.proc_freepagetable.
  wp_use (unmap_top pt TRAMPOLINE m G l Hu); [by vm_compute|done| |].
  { unfold leaf_mapped. rewrite Ht1. split; [apply pte_flag_V|]. by rewrite FLAGS_entry. }
  intros _ m1 (Hu1 & Hb1 & Hout1 & Ho1 & He1).
  wp_use (unmap_top pt TRAPFRAME m1 G l Hu1); [by vm_compute|done| |].
  { unfold leaf_mapped. rewrite He1 by (by vm_compute). rewrite decide_False by done. rewrite Ht2.
    split; [apply pte_flag_V|]. by rewrite FLAGS_entry. }
  intros _ m2 (Hu2 & Hb2 & Hout2 & Ho2 & He2).
  eapply wp_mono; [apply (uvmfree_wp pt sz m2 G l Hu2); [|done|]|].
  - intros va Hva. rewrite <-(Hsz va Hva). unfold valid. rewrite He2, He1 by auto.
    rewrite !decide_False; [done|..]; unfold page_of; pose proof (Z.mod_pos_bound va PGSIZE PGSIZE_pos);
      change TRAMPOLINE with (TRAPFRAME + PGSIZE); unfold PGSIZE in *; lia.
  - intros va Hva. unfold valid. rewrite He2, He1 by auto.
    destruct (top_page va Hva) as [-> | ->]; by repeat case_decide.
  - cbn beta. intros _ m' (l' & Hl' & Hin & Hb & Hout). exists l'. split_and!; try done.
    + intros q. by rewrite Hin, Ho2, Ho1.
    + congruence.
    + eapply untouched_trans; [exact Hout1|]. eapply untouched_mono; [apply Ho1|].
      eapply untouched_trans; [exact Hout2|]. by eapply untouched_mono; [apply Ho2|].
Qed.

(** ** Making one *)

Lemma map_top pt a pa perm m G l :
  uspace kend m pt G l -> TRAPFRAME <= a < MAXVA -> a mod PGSIZE = 0 -> valid m pt a = false ->
  wp (mappages pt a PGSIZE pa perm) (fun r m' => exists G' l', uspace kend m' pt G' l' /\
    (forall q, owns m' pt G' l' q <-> owns m pt G l q) /\ untouched (owns m pt G l) m m' /\ bytes m' ⊆ bytes m /\
    (r = 0 /\ (length l <= length l' + 2)%nat /\ (forall va, 0 <= va < MAXVA -> leaf_pte m' pt va =
       if decide (page_of va = a) then map_entry pa perm else leaf_pte m pt va) \/
     r = -1 /\ (length l < 2)%nat /\ forall va, 0 <= va < MAXVA -> leaf_pte m' pt va = leaf_pte m pt va)) m.
Proof.
  intros Hu Ha Hal Hv. eapply wp_mono; [by apply (mappages_page kend pt perm a pa m G l Hkend); [apply Hu|auto|..]|].
  cbn beta. intros r m' (G' & l' & Hst & Htk & Hr). exists G', l'.
  assert (Hlow : forall va, 0 <= va < TRAPFRAME -> leaf_pte m' pt va = leaf_pte m pt va).
  { intros va Hva. destruct Hr as [(_ & _ & He)|(_ & _ & _ & He)]; [|auto].
    rewrite He, decide_False; [done| |by auto]. unfold page_of.
    pose proof (Z.mod_pos_bound va PGSIZE PGSIZE_pos). lia. }
  destruct (took_owns kend Hkend pt m G l m' G' l' []) as [Ho Hout]; [apply Hu|done|done|].
  split_and!; try done; [by apply (uspace_took kend Hkend pt m G l)|apply Htk|].
  destruct Hr as [(-> & ? & He)|(-> & _ & ? & He)]; [by left|by right].
Qed.

(** A page table without memory, built from the free pages [l0] of [m0]. *)
Definition fresh (l0 : list Z) (m0 : vmem) (pt : Z) (m : vmem) : Prop :=
  untouched (fun q => q ∈ l0) m0 m /\ bytes m ⊆ bytes m0 /\
  exists G l, uspace kend m pt G l /\ sized m pt 0 /\ forall q, owns m pt G l q <-> q ∈ l0.

(** What [proc_pagetable] ends with. *)
Definition made (tramp tf : Z) (l0 : list Z) (m0 : vmem) (r : Z) (m : vmem) : Prop :=
  r = 0 /\ (length l0 < 5)%nat /\ untouched (fun q => q ∈ l0) m0 m /\ bytes m ⊆ bytes m0 /\
    (exists l, Kalloc.klist kend (vkm m) l /\ forall q, q ∈ l <-> q ∈ l0) \/
  r <> 0 /\ fresh l0 m0 r m /\ top_pages tramp tf m r /\ spare kend m ((Z.of_nat (length l0) - 5) * PGSIZE).

Lemma sized_leaf (m m' : vmem) pt sz :
  (forall va, 0 <= va < TRAPFRAME -> leaf_pte m' pt va = leaf_pte m pt va) -> sized m pt sz -> sized m' pt sz.
Proof. intros He Hs va Hva. unfold valid. rewrite He by done. by apply Hs. Qed.

Lemma low_page va : 0 <= va < TRAPFRAME -> page_of va <> TRAPFRAME /\ page_of va <> TRAMPOLINE.
Proof.
  intros Hva. unfold page_of. pose proof (Z.mod_pos_bound va PGSIZE PGSIZE_pos).
  change TRAMPOLINE with (TRAPFRAME + PGSIZE). unfold PGSIZE in *. lia.
Qed.

Lemma fresh_create q l m :
  Kalloc.klist kend (vkm m) (q :: l) ->
  wp uvmcreate (fun r m' => r <> 0 /\ fresh (q :: l) m r m' /\ spare kend m' (Z.of_nat (length l) * PGSIZE) /\
    forall va, 0 <= va < MAXVA -> leaf_pte m' r va = 0) m.
Proof.
  intros Hl. eapply wp_mono; [by apply (uvmcreate_spec kend m q l Hkend Hl)|]. cbn beta.
  intros r m1 (-> & Hst & Hb & Hout & Hz).
  destruct (pk_page _ _ _ (ts_ok _ _ _ _ _ Hst) q [] ltac:(apply Hst)) as (Hqa & Hqr & _).
  assert (Hv : forall va, 0 <= va < MAXVA -> valid m1 q va = false) by (intros; unfold valid; by rewrite Hz).
  split_and!; [lia| |exists l; split; [apply Hst|lia]|done]. split_and!; [|done|exists {[q := []]}, l; split_and!].
  - split.
    + intros p x Hp Hn Hx. apply Hout. apply (in_page_disjoint p q); try done. set_solver.
    + intros t i Ht Hn Hi. apply Hout. rewrite in_page_table, bool_decide_false by (done || set_solver). done.
  - split; [done| | |].
    + intros va Hva H. by rewrite Hv in H by auto.
    + auto.
    + intros va va' Hva _ H. by rewrite Hv in H by auto.
  - intros va Hva. rewrite Hv by auto. symmetry. apply bool_decide_false. pose proof (page_bound va ltac:(auto)). lia.
  - intros p. unfold owns. rewrite elem_of_cons, lookup_singleton_is_Some. split; [|intuition].
    intros [?|[->|(va & Hva & H & _)]]; [by right|by left|]. by rewrite Hv in H by auto.
Qed.

Lemma fresh_map l0 m0 pt a pa perm m :
  fresh l0 m0 pt m -> TRAPFRAME <= a < MAXVA -> a mod PGSIZE = 0 -> valid m pt a = false ->
  wp (mappages pt a PGSIZE pa perm) (fun r m' => fresh l0 m0 pt m' /\
    (r = 0 /\ (forall b, spare kend m b -> spare kend m' (b - 2 * PGSIZE)) /\ (forall va, 0 <= va < MAXVA -> leaf_pte m' pt va =
       if decide (page_of va = a) then map_entry pa perm else leaf_pte m pt va) \/
     r = -1 /\ (forall b, spare kend m b -> b < 2 * PGSIZE) /\ forall va, 0 <= va < MAXVA -> leaf_pte m' pt va = leaf_pte m pt va)) m.
Proof.
  intros (Hout & Hb & G & l & Hu & Hs & Ho) Ha Hal Hv. eapply wp_mono; [by apply (map_top pt a pa perm m G l)|].
  cbn beta. intros r m' (G' & l' & Hu' & Ho' & Hout' & Hb' & Hr).
  split; [split_and!; [|by etrans|]|].
  - eapply untouched_trans; [exact Hout|]. eapply untouched_mono; [|exact Hout']. apply Ho.
  - exists G', l'. split_and!; [done| |intros q; by rewrite Ho'].
    apply (sized_leaf m); [|done]. intros va Hva. destruct Hr as [(_ & _ & He)|(_ & _ & He)]; rewrite He by auto; [|done].
    rewrite decide_False; [done|]. unfold page_of. pose proof (Z.mod_pos_bound va PGSIZE PGSIZE_pos). lia.
  - destruct Hr as [(-> & Hn & He)|(-> & Hn & He)]; [left|right]; (split_and!; [done| |done]); intros b;
      rewrite (uspace_spare kend m pt G l b Hkend Hu), ?(uspace_spare kend m' pt G' l' _ Hkend Hu'); unfold PGSIZE in *; lia.
Qed.

Lemma fresh_undo tramp tf l0 m0 pt m :
  fresh l0 m0 pt m -> (forall va, TRAPFRAME <= va < MAXVA -> valid m pt va = false) -> (length l0 < 5)%nat ->
  wp (uvmfree kend pt 0 ;; ret 0) (made tramp tf l0 m0) m.
Proof.
  intros (Hout & Hb & G & l & Hu & Hs & Ho) Ht Hn. wp_use (uvmfree_wp pt 0 m G l Hu Hs); [by vm_compute|done|].
  intros [] m' (l' & Hl' & Hin & Hb' & Hout'). apply wp_ret. left. split_and!; [done|done| |by rewrite Hb'|].
  - eapply untouched_trans; [exact Hout|]. eapply untouched_mono; [|exact Hout']. apply Ho.
  - exists l'. split; [done|]. intros q. by rewrite Hin, Ho.
Qed.

Lemma fresh_unmap l0 m0 pt a m :
  fresh l0 m0 pt m -> TRAPFRAME <= a < MAXVA -> a mod PGSIZE = 0 -> leaf_mapped pt m a ->
  wp (uvmunmap kend pt a 1 false) (fun _ m' => fresh l0 m0 pt m' /\
    forall va, 0 <= va < MAXVA -> leaf_pte m' pt va = if decide (page_of va = a) then 0 else leaf_pte m pt va) m.
Proof.
  intros (Hout & Hb & G & l & Hu & Hs & Ho) Ha Hal Hm. eapply wp_mono; [by apply (unmap_top pt a m G l)|].
  cbn beta. intros _ m' (Hu' & Hb' & Hout' & Ho' & He). split; [|done]. split_and!; [|by rewrite Hb'|].
  - eapply untouched_trans; [exact Hout|]. eapply untouched_mono; [|exact Hout']. apply Ho.
  - exists G, l. split_and!; [done| |intros q; by rewrite Ho'].
    apply (sized_leaf m); [|done]. intros va Hva. rewrite He by auto. rewrite decide_False; [done|].
    unfold page_of. pose proof (Z.mod_pos_bound va PGSIZE PGSIZE_pos). lia.
Qed.

Lemma proc_pagetable_wp tramp tf m l :
  Kalloc.klist kend (vkm m) l -> 0 <= tramp < 2 ^ 56 -> tramp mod PGSIZE = 0 ->
  wp (Proc.proc_pagetable kend tramp tf) (made tramp tf l m) m.
Proof.
  intros Hl A1 A2. unfold Proc.proc_pagetable. destruct l as [|q l].
  { unfold uvmcreate. apply wp_bind. wp_use (vkalloc_spec kend Hkend m [] Hl). intros r m1 (_ & _ & -> & ->).
    apply wp_ret, wp_ret. left. split_and!; try done; [cbn; lia|eauto]. }
  wp_use (fresh_create q l m Hl). intros pt m1 (Hpt & Hf1 & Hsp & Hz1). rewrite (proj2 (Z.eqb_neq pt 0)) by done.
  wp_use (fresh_map (q :: l) m pt TRAMPOLINE tramp (Z.lor PTE_R PTE_X) m1 Hf1); [by vm_compute|done| |].
  { unfold valid. by rewrite Hz1. }
  intros r m2 (Hf2 & [(-> & Hc2 & He2)|(-> & Hc2 & He2)]); apply Hc2 in Hsp; clear Hc2; cbn [Z.ltb Z.compare].
  2:{ apply (fresh_undo tramp tf (q :: l) m pt m2 Hf2); [|cbn; unfold PGSIZE in *; lia].
      intros va Hva. unfold valid. by rewrite He2, Hz1 by auto. }
  wp_use (fresh_map (q :: l) m pt TRAPFRAME tf (Z.lor PTE_R PTE_W) m2 Hf2); [by vm_compute|done| |].
  { unfold valid. rewrite He2 by (by vm_compute). by rewrite decide_False, Hz1 by done. }
  intros r m3 (Hf3 & [(-> & Hc3 & He3)|(-> & Hc3 & He3)]); apply Hc3 in Hsp; clear Hc3; cbn [Z.ltb Z.compare].
  - apply wp_ret. right. split_and!; try done.
    2:{ destruct Hsp as (l' & Hl' & Hb'). exists l'. split; [done|]. cbn [length]. unfold PGSIZE in *. lia. }
    split.
    + rewrite He3 by (by vm_compute). rewrite decide_False by done. rewrite He2 by (by vm_compute). by rewrite decide_True.
    + rewrite He3 by (by vm_compute). by rewrite decide_True.
  - wp_use (fresh_unmap (q :: l) m pt TRAMPOLINE m3 Hf3); [by vm_compute|done| |].
    { unfold leaf_mapped. rewrite He3, He2 by (by vm_compute). rewrite decide_True by done.
      split; [apply pte_flag_V|]. by rewrite FLAGS_entry. }
    intros [] m4 (Hf4 & He4). apply (fresh_undo tramp tf (q :: l) m pt m4 Hf4); [|cbn; unfold PGSIZE in *; lia].
    intros va Hva. unfold valid. rewrite He4, He3, He2, Hz1 by auto. by repeat case_decide.
Qed.
End life.

(** ** Copying one *)

(** An address space whose tables and pages are outside of [P]. *)
Definition apart (m : vmem) (pt : Z) (G : gmap Z (list Z)) (P : Z -> Prop) : Prop :=
  (forall t, is_Some (G !! t) -> ~ P t) /\
  forall va, 0 <= va < TRAPFRAME -> valid m pt va = true -> ~ P (phys m pt va).

Lemma apart_same kend m m' pt G l P :
  uspace kend m pt G l -> apart m pt G P -> untouched P m m' ->
  ptok m' pt G /\ (forall va, 0 <= va -> leaf_pte m' pt va = leaf_pte m pt va) /\ keeps m m' pt.
Proof.
  intros Hu [Ht Hp] [Hb He]. destruct (us_table _ _ _ _ _ Hu) as [Hok _ _].
  destruct (tables_same m m' pt G Hok) as [Hok' Hl].
  { intros t p i Hg Hi. apply He; [apply (pk_page _ _ _ Hok t p Hg)|apply Ht; eauto|done]. }
  split_and!; try done. intros va Hva Hv. split; [apply Hl; lia|]. intros x Hx.
  apply (Hb (phys m pt va)); [|by apply Hp|done]. apply (us_leaf _ _ _ _ _ Hu va Hva Hv).
Qed.

Lemma byte_at_copy m dst src x :
  byte_at (set_bytes (store_bytes dst (load_bytes m src PGSIZE) (bytes m)) m) x =
  if in_page dst x then byte_at m (src + (x - dst)) else byte_at m x.
Proof.
  unfold byte_at at 1. cbn [bytes set_bytes]. rewrite store_bytes_lookup, load_bytes_length.
  change (Z.of_nat (Z.to_nat PGSIZE)) with PGSIZE. unfold in_page. case_decide as Hd.
  - rewrite (proj2 (Z.leb_le _ _)), (proj2 (Z.ltb_lt _ _)) by lia. cbn [andb].
    rewrite load_bytes_lookup by (unfold PGSIZE in *; lia). cbn. f_equal. lia.
  - destruct (Z.leb_spec dst x), (Z.ltb_spec x (dst + PGSIZE)); (done || lia).
Qed.

Lemma FLAGS_range v : 0 <= PTE_FLAGS v < 1024.
Proof. unfold PTE_FLAGS. change 0x3FF with (Z.ones 10). rewrite Z.land_ones by lia. by apply Z.mod_pos_bound. Qed.

Lemma FLAGS_V v : pte_flag v PTE_V = true -> Z.lor (PTE_FLAGS v) PTE_V = PTE_FLAGS v.
Proof.
  unfold pte_flag, PTE_FLAGS, PTE_V. intros Hv%negb_true_iff%Z.eqb_neq.
  assert (H0 : Z.testbit v 0 = true).
  { destruct (Z.testbit v 0) eqn:E; [done|]. destruct Hv. change (Z.shiftl 1 0) with (Z.ones 1).
    rewrite Z.land_ones by lia. change (2 ^ 1) with 2. rewrite <-Z.bit0_mod, E. done. }
  apply Z.bits_inj'. intros n Hn. rewrite Z.lor_spec, Z.land_spec.
  destruct (decide (n = 0)) as [->|Hne]; [by rewrite H0|].
  replace (Z.testbit (Z.shiftl 1 0) n) with false; [by rewrite orb_false_r|].
  symmetry. change (Z.shiftl 1 0) with (2 ^ 0). apply Z.pow2_bits_false. lia.
Qed.

Section copy.
Context (kend : Z) (Hkend : 0 < kend) (old new : Z).
Context (m0 : vmem) (Go G0 : gmap Z (list Z)) (l0 : list Z).
Context (Hold : uspace kend m0 old Go l0) (Hapart : apart m0 old Go (owns m0 new G0 l0)).
Context (sz : Z) (Hsz : 0 <= sz <= TRAPFRAME) (Hsized : sized m0 old sz).

(** The page of [va] is a copy of the one in the old address space. *)
Definition copy_of (m : vmem) (va : Z) : Prop :=
  PTE_FLAGS (leaf_pte m new va) = PTE_FLAGS (leaf_pte m0 old va) /\
  forall k, 0 <= k < PGSIZE -> byte_at m (phys m new va + k) = byte_at m0 (phys m0 old va + k).

(** A page in hand becomes a copy of another one. *)
Lemma own_copy m G l q pa :
  uspace kend m new G l -> unused kend new m G l q ->
  filled kend new m G l q (fun x => byte_at m (pa + (x - q)))
    (set_bytes (store_bytes q (load_bytes m pa PGSIZE) (bytes m)) m).
Proof.
  intros Hu Hq. set (m' := set_bytes _ _).
  assert (Hb : forall x, byte_at m' x = if in_page q x then byte_at m (pa + (x - q)) else byte_at m x)
    by (intros; apply byte_at_copy).
  assert (Hy : map_Forall (fun _ v => byte_ok v) (bytes m) -> map_Forall (fun _ v => byte_ok v) (bytes m')).
  { intros Hy. apply store_bytes_ok; [|done]. apply Forall_forall. intros v Hv.
    apply list_elem_of_In, in_map_iff in Hv as (a & <- & _). unfold byte_at.
    destruct (bytes m !! a) eqn:E; [by eapply Hy|]. cbn. unfold byte_ok. lia. }
  assert (Hp : ptes m' = ptes m) by reflexivity. assert (Hk : vkm m' = vkm m) by reflexivity. clearbody m'.
  destruct Hq as (Hq & Hql & HqG & Hqu). pose proof (same_ptes new m m' Hp) as He. split_and!.
  - by apply (uspace_bytes kend m).
  - split_and!; try done. intros va. unfold valid, phys. rewrite He. apply Hqu.
  - intros va Hva Hv. split; [apply He|]. intros x Hx. rewrite Hb.
    destruct (us_leaf _ _ _ _ _ Hu va Hva Hv) as (_ & [Ha _] & _).
    by rewrite (in_page_disjoint (phys m new va) q x Ha (proj1 Hq) Hx (Hqu va Hva Hv)).
  - split; [|split|auto|done].
    + intros r. unfold owns, valid, phys. by setoid_rewrite He.
    + intros p x Hp' Hn Hx. rewrite Hb, (in_page_disjoint p q); try done; [apply Hq|].
      intros ->. apply Hn. left. by left.
    + intros t i _ _ _. unfold pte_at. by rewrite Hp.
  - auto.
  - intros x Hx. by rewrite Hb, Hx.
Qed.

Lemma old_page va :
  0 <= va < TRAPFRAME -> page_of va < sz ->
  valid m0 old va = true /\ 0 <= PTE_FLAGS (leaf_pte m0 old va) < 1024 /\
  Z.lor (PTE_FLAGS (leaf_pte m0 old va)) PTE_V = PTE_FLAGS (leaf_pte m0 old va) /\
  PTE_FLAGS (leaf_pte m0 old va) <> PTE_V.
Proof.
  intros Hva Hlt. assert (Hv : valid m0 old va = true) by (rewrite Hsized by done; by apply bool_decide_true).
  destruct (us_leaf _ _ _ _ _ Hold va Hva Hv) as (Hf & _). pose proof (FLAGS_range (leaf_pte m0 old va)).
  split_and!; try done; [lia|lia|]. by apply FLAGS_V.
Qed.

Lemma copy_of_keeps m m' va :
  0 <= va < TRAPFRAME -> valid m new va = true -> keeps m m' new -> copy_of m va -> copy_of m' va.
Proof.
  intros Hva Hv Hk [H1 H2]. destruct (Hk va Hva Hv) as [E Hb]. split; [by rewrite E|].
  intros k Hk'. unfold phys in *. rewrite E, Hb; [by apply H2|]. unfold in_page.
  apply andb_true_iff. split; [apply Z.leb_le|apply Z.ltb_lt]; lia.
Qed.

(** The page just mapped. *)
Lemma copy_page_of m m1 i q va :
  keeps m0 m old -> Kalloc.page_ok kend q -> 0 <= i < TRAPFRAME -> page_of va = i -> 0 <= va < TRAPFRAME -> i < sz ->
  (forall va, 0 <= va < MAXVA -> leaf_pte m1 new va =
     if decide (page_of va = i) then map_entry q (PTE_FLAGS (leaf_pte m0 old i)) else leaf_pte m new va) ->
  (forall x, in_page q x = true -> byte_at m1 x = byte_at m (PTE2PA (leaf_pte m0 old i) + (x - q))) ->
  copy_of m1 va.
Proof.
  intros Hk Hq Hi Hp Hva Hlt He Hc. destruct (page_ok_range kend Hkend q Hq).
  destruct (old_page va Hva ltac:(lia)) as (Hv & Hfr & HfV & _).
  rewrite (leaf_pte_page m0 old va), Hp in Hfr, HfV by lia. unfold copy_of, phys.
  rewrite He, decide_True, (leaf_pte_page m0 old va), Hp by (auto || lia).
  rewrite PTE2PA_entry, FLAGS_entry by (done || lia). split; [done|]. intros k Hk'.
  destruct (Hk va Hva Hv) as [_ Hb]. unfold phys in Hb. rewrite (leaf_pte_page m0 old va), Hp in Hb by lia.
  rewrite Hc.
  - replace (q + k - q) with k by lia. apply Hb. unfold in_page.
    apply andb_true_iff. split; [apply Z.leb_le|apply Z.ltb_lt]; lia.
  - unfold in_page. apply andb_true_iff. split; [apply Z.leb_le|apply Z.ltb_lt]; lia.
Qed.

(** The pages copied so far are freed. *)
Lemma copy_undo m G l i :
  uspace kend m new G l -> sized m new i -> 0 <= i <= TRAPFRAME -> i mod PGSIZE = 0 ->
  wp (uvmunmap kend new 0 (i / PGSIZE) true ;; ret (-1)) (fun r m' => r = -1 /\ exists l',
    uspace kend m' new G l' /\ conserves new m G l m' G l' /\ sized m' new 0) m.
Proof.
  intros Hu Hs Hi Hia.
  assert (E : exists n : nat, i = Z.of_nat n * PGSIZE).
  { apply Z.mod_divide in Hia as [z Hz]; [|done]. exists (Z.to_nat z). unfold PGSIZE in *. lia. }
  destruct E as [n Hn]. rewrite Hn, Z.div_mul by done.
  wp_use (unmap_own kend Hkend new m G l 0 n Hu); [done|done|lia| |].
  { intros va Hva Hr. rewrite Hs by done. apply bool_decide_true. lia. }
  intros _ m' (Hu' & _ & Hcv & He). apply wp_ret. split; [done|]. eexists. split_and!; [exact Hu'|done|].
  intros va Hva. unfold valid. rewrite He by auto. pose proof (page_bound va ltac:(auto)).
  rewrite (bool_decide_false (page_of va < 0)) by lia. case_decide; [done|].
  change (valid m new va = false). rewrite Hs by done. apply bool_decide_false. lia.
Qed.

Lemma uvmcopy_loop_wp fuel i m G l :
  uspace kend m new G l -> conserves new m0 G0 l0 m G l -> sized m new i -> 0 <= i <= TRAPFRAME -> i mod PGSIZE = 0 ->
  i <= pgup sz -> (forall va, 0 <= va < TRAPFRAME -> page_of va < i -> copy_of m va) ->
  Z.of_nat (length l0) * PGSIZE <= Z.of_nat (length l) * PGSIZE + 3 * i ->
  sz <= i + (Z.of_nat fuel - 1) * PGSIZE -> (0 < fuel)%nat ->
  wp (uvmcopy_loop kend fuel old new i sz) (fun r m' => exists G' l', uspace kend m' new G' l' /\
    conserves new m0 G0 l0 m' G' l' /\
    (r = 0 /\ sized m' new sz /\ (forall va, 0 <= va < TRAPFRAME -> page_of va < sz -> copy_of m' va) \/
     r = -1 /\ sized m' new 0 /\ Z.of_nat (length l0) * PGSIZE < 3 * pgup sz)) m.
Proof.
  revert i m G l. induction fuel as [|fuel IH]; intros i m G l Hu Hcv Hs Hi Hia Hup Hcopy Hc Hf Hf0; [lia|].
  destruct (apart_same kend m0 m old Go l0 _ Hold Hapart (cv_out _ _ _ _ _ _ _ Hcv)) as (Hok & Hle & Hkold).
  cbn [uvmcopy_loop]. destruct (Z.ltb_spec i sz) as [Hlt|Hge].
  2:{ apply wp_ret. exists G, l. split_and!; try done. left. split_and!; [done| |].
      - apply sized_pgup. assert (pgup sz = i) as ->; [|done].
        pose proof (pgup_mono sz i Hge) as Hm. rewrite (pgup_id i) in Hm by done. lia.
      - intros va Hva Hlt. apply Hcopy; [done|lia]. }
  assert (HiT : 0 <= i < TRAPFRAME) by lia. assert (Hpi : page_of i = i) by (by apply page_of_id).
  destruct (old_page i HiT ltac:(lia)) as (Hvi & Hfr & HfV & HfnV).
  destruct (leaf_walk old m Go i Hok ltac:(auto)) as (t & Ht & Hw & Hne & Hat); [rewrite Hle by lia; exact Hvi|].
  apply wp_bind. unfold wp at 1. rewrite Hw. rewrite (proj2 (Z.eqb_neq _ 0)) by done.
  apply wp_bind, wp_gets. rewrite Hat, Hle by lia. rewrite (Hvi : pte_flag _ PTE_V = true). cbn [negb].
  pose proof (aligned_lt i TRAPFRAME Hia eq_refl ltac:(lia)) as HiT'.
  apply (own_alloc kend Hkend new m G l i (PTE_FLAGS (leaf_pte m0 old i))
    (fun mem => copy_page mem (PTE2PA (leaf_pte m0 old i)))
    (fun q x => byte_at m (PTE2PA (leaf_pte m0 old i) + (x - q)))); [done|done|congruence|done|done|..].
  - rewrite Hs by done. apply bool_decide_false. lia.
  - intros m1 l1 q -> Ep Eb Hu1 Hq1. apply wp_modify.
    destruct (own_copy m1 G l1 q (PTE2PA (leaf_pte m0 old i)) Hu1 Hq1) as (F1 & F2 & F3 & F4 & F5 & F6).
    split_and!; try done. intros x Hx. rewrite F6 by done. unfold byte_at. by rewrite Eb.
  - intros m1 G1 l1 Hu1 Hk1 Hcv1 Hlen He1. destruct (pgup_spec sz) as [P1 P2].
    pose proof (aligned_lt i (pgup sz) Hia P2 ltac:(lia)).
    eapply wp_mono; [apply (copy_undo m1 G1 l1 i Hu1); [|done|done]; apply (sized_leaf m); auto|]. cbn beta.
    intros r m2 (-> & l2 & Hu2 & Hcv2 & Hs2). exists G1, l2.
    split_and!; [done| |right; split_and!; try done; unfold PGSIZE in *; lia]. eapply conserves_trans; [exact Hcv|]. by eapply conserves_trans.
  - intros m1 G1 l1 q Hu1 Hk1 Hcv1 Hq Hlen He1 Hb. destruct (pgup_spec sz) as [Hu2 Hu3].
    pose proof (aligned_lt i (pgup sz) Hia Hu3 ltac:(lia)).
    apply (IH (i + PGSIZE) m1 G1 l1 Hu1); [by eapply conserves_trans|by apply (sized_next new m m1 i q _ Hs Hia He1)|
      unfold PGSIZE in *; lia|rewrite Z.add_mod, Hia, Z_mod_same_full; done|done| |unfold PGSIZE in *; lia|lia|unfold PGSIZE in *; lia].
    intros va Hva Hp. destruct (decide (page_of va = i)) as [E|E].
    + by apply (copy_page_of m m1 i q va).
    + pose proof (aligned_lt (page_of va) (i + PGSIZE)) as Hal.
      assert (Hlow : page_of va < i).
      { destruct (decide (i < page_of va)) as [Hlt'|]; [|lia].
        apply aligned_lt in Hlt'; [lia|done|apply page_of_aligned]. }
      apply (copy_of_keeps m); [done| |done|by apply Hcopy]. rewrite Hs by done. by apply bool_decide_true.
Qed.

Lemma uvmcopy_wp :
  uspace kend m0 new G0 l0 -> sized m0 new 0 ->
  wp (uvmcopy kend old new sz) (fun r m' => exists G' l', uspace kend m' new G' l' /\
    conserves new m0 G0 l0 m' G' l' /\
    (r = 0 /\ sized m' new sz /\ (forall va, 0 <= va < TRAPFRAME -> page_of va < sz -> copy_of m' va) \/
     r = -1 /\ sized m' new 0 /\ Z.of_nat (length l0) * PGSIZE < 3 * pgup sz)) m0.
Proof.
  intros Hu Hs. pose proof (pgup_spec sz) as [H1 _].
  apply (uvmcopy_loop_wp _ 0 m0 G0 l0 Hu (conserves_refl new m0 G0 l0) Hs); [by vm_compute|done|lia| |lia| |lia].
  - intros va Hva. pose proof (page_bound va ltac:(auto)). lia.
  - pose proof (Z.div_mod sz PGSIZE ltac:(done)). pose proof (Z.mod_pos_bound sz PGSIZE PGSIZE_pos).
    assert (0 <= sz / PGSIZE) by (apply Z.div_pos; lia). unfold PGSIZE in *. lia.
Qed.
End copy.

(** ** Two address spaces on one machine *)

(** What someone else does with the pages [P] leaves an address space apart
    from them as it is. *)
Lemma apart_uspace kend m m' pt G l l' P :
  uspace kend m pt G l -> apart m pt G P -> untouched P m m' ->
  Kalloc.klist kend (vkm m') l' -> (forall q, q ∈ l' -> P q) ->
  uspace kend m' pt G l' /\ keeps m m' pt /\ forall va, 0 <= va -> leaf_pte m' pt va = leaf_pte m pt va.
Proof.
  intros Hu Ha Ho Hl Hin. destruct (apart_same kend m m' pt G l P Hu Ha Ho) as (Hok & He & Hk).
  split_and!; try done. destruct Hu as [[_ _ Hpg] Hleaf Hz Hinj]. destruct Ha as [Ht Hp].
  split; [split; [done|split; [done|]|done]| | |]; unfold valid, phys in *.
  - intros q Hq. destruct (G !! q) eqn:E; [|done]. destruct (Ht q); [by rewrite E|by apply Hin].
  - intros va Hva. rewrite He by lia. intros Hv. destruct (Hleaf va Hva Hv) as (H1 & H2 & _ & H4).
    split_and!; try done. intros Hq. by apply (Hp va Hva Hv), Hin.
  - intros va Hva. rewrite He by lia. by apply Hz.
  - intros va va' Hva Hva'. rewrite !He by lia. by apply Hinj.
Qed.

Lemma owns_leaf (m m' : vmem) pt G l q :
  (forall va, 0 <= va -> leaf_pte m' pt va = leaf_pte m pt va) -> owns m' pt G l q <-> owns m pt G l q.
Proof.
  intros He. unfold owns, valid, phys. split; (intros [?|[?|(va & Hva & Hx)]]; [tauto..|]);
    right; right; exists va; rewrite He in * by lia; done.
Qed.

Lemma owns_split (m : vmem) pt G l q : owns m pt G l q <-> q ∈ l \/ owns m pt G [] q.
Proof. unfold owns. rewrite elem_of_nil. tauto. Qed.

(** An address space is apart from the free pages. *)
Lemma uspace_apart kend m pt G l : uspace kend m pt G l -> apart m pt G (fun q => q ∈ l).
Proof.
  intros Hu. split.
  - intros t Ht Hl. rewrite (proj2 (ts_free _ _ _ _ _ (us_table _ _ _ _ _ Hu)) t Hl) in Ht. by destruct Ht.
  - intros va Hva Hv. apply (us_leaf _ _ _ _ _ Hu va Hva Hv).
Qed.

(** ** The user's view *)

Section view.
Context (kend : Z) (Hkend : 0 < kend) (tramp tf : Z).
Context (Htr : 0 <= tramp < 2 ^ 56) (Htra : tramp mod PGSIZE = 0) (Htf : 0 <= tf < 2 ^ 56) (Htfa : tf mod PGSIZE = 0).
Context (m : vmem) (pt : Z) (G : gmap Z (list Z)) (l : list Z).
Context (Hu : uspace kend m pt G l) (Htop : top_pages tramp tf m pt).

(** The user may use the page of [va]. *)
Definition user_page (va : Z) : bool := valid m pt va && pte_flag (leaf_pte m pt va) PTE_U.

Lemma top_not_user va : TRAPFRAME <= va < MAXVA -> pte_flag (leaf_pte m pt va) PTE_U = false.
Proof.
  intros Hva. rewrite leaf_pte_page by auto. destruct Htop as [H1 H2].
  assert (Hf : forall pa perm, 0 <= pa < 2 ^ 56 -> pa mod PGSIZE = 0 -> 0 <= perm < 1024 ->
    Z.land (Z.lor perm PTE_V) PTE_U = 0 -> pte_flag (map_entry pa perm) PTE_U = false).
  { intros pa perm Hp Ha Hr E. unfold pte_flag. pose proof (FLAGS_entry pa perm Hp Ha Hr) as Hfl.
    assert (El : Z.land (map_entry pa perm) PTE_U = Z.land (PTE_FLAGS (map_entry pa perm)) PTE_U).
    { unfold PTE_FLAGS. rewrite <-Z.land_assoc. done. }
    by rewrite El, Hfl, E. }
  destruct (top_page va Hva) as [-> | ->]; [rewrite H1|rewrite H2]; by apply Hf.
Qed.

Lemma user_xlate va :
  0 <= va < MAXVA -> xlate m pt (page_of va) = if user_page va then phys m pt va else 0.
Proof.
  intros Hva. pose proof (page_bound va Hva). rewrite (xlate_leaf m pt G); [|apply Hu|unfold PGSIZE in *; lia].
  cbv zeta. rewrite <-leaf_pte_page by lia. done.
Qed.

Lemma user_page_ok va :
  0 <= va < MAXVA -> user_page va = true ->
  va < TRAPFRAME /\ valid m pt va = true /\ Kalloc.page_ok kend (phys m pt va) /\ phys m pt va <> 0.
Proof.
  intros Hva [Hv Hf]%andb_true_iff. destruct (decide (va < TRAPFRAME)) as [Hlt|Hge].
  - destruct (us_leaf _ _ _ _ _ Hu va ltac:(lia) Hv) as (_ & Hok & _).
    destruct (page_ok_range kend Hkend _ Hok). split_and!; (done || lia).
  - rewrite top_not_user in Hf by lia. done.
Qed.

Lemma ubyte_user va :
  0 <= va < MAXVA ->
  ubyte {| u_mem := m; u_pt := pt |} va =
  if user_page va then Some (byte_at m (phys m pt va + va mod PGSIZE)) else None.
Proof.
  intros Hva. unfold ubyte. cbn [u_mem u_pt]. rewrite decide_True by done. cbv zeta. rewrite user_xlate by done.
  destruct (user_page va) eqn:E; [|done]. destruct (user_page_ok va Hva E) as (_ & _ & _ & Hne).
  by rewrite (proj2 (Z.eqb_neq _ 0)).
Qed.

Lemma uspace_uinv :
  map_Forall (fun _ v => byte_ok v) (bytes m) -> uinv {| u_mem := m; u_pt := pt |}.
Proof.
  intros Hb. split; [done|]. cbn [u_mem u_pt]. intros p q Hp Hpa Hq Hqa Hx E.
  assert (Hr : forall x, 0 <= x -> x mod PGSIZE = 0 -> xlate m pt x <> 0 -> x < MAXVA /\ user_page x = true /\
    xlate m pt x = phys m pt x).
  { intros x Hx0 Hxa Hne. destruct (decide (x < MAXVA)) as [Hlt|]; [|rewrite xlate_high in Hne; (done || lia)].
    rewrite <-(page_of_id x Hxa) in Hne. rewrite user_xlate in Hne by lia.
    destruct (user_page x) eqn:Eu; [|done]. split_and!; try done.
    rewrite <-(page_of_id x Hxa) at 1. rewrite user_xlate by lia. by rewrite Eu. }
  destruct (Hr p Hp Hpa Hx) as (P1 & P2 & P3). destruct (Hr q Hq Hqa ltac:(congruence)) as (Q1 & Q2 & Q3).
  destruct (user_page_ok p ltac:(lia) P2) as (P4 & P5 & _). destruct (user_page_ok q ltac:(lia) Q2) as (Q4 & Q5 & _).
  rewrite <-(page_of_id p Hpa), <-(page_of_id q Hqa). apply (us_inj _ _ _ _ _ Hu); (done || lia || congruence).
Qed.
End view.

(** [copyout] writes bytes of user pages only. *)
Lemma copyout_loop_frame fuel pt va src m ok m' :
  0 <= va < 2 ^ 64 -> copyout_loop fuel pt va src m = Ok ok m' ->
  ptes m' = ptes m /\ vkm m' = vkm m /\
  forall x, (forall va, 0 <= va < MAXVA -> xlate m pt (page_of va) <> 0 ->
    in_page (xlate m pt (page_of va)) x = false) -> byte_at m' x = byte_at m x.
Proof.
  revert va src m. induction fuel as [|fuel IH]; intros va src m Hva; cbn [copyout_loop]; [by intros [= <- <-]|].
  case_if_as Hlen; [|by intros [= <- <-]]. unfold bind at 1. rewrite walkaddr_xlate.
  case_if_as Hz; [by intros [= <- <-]|]. unfold bind, modify. set (m1 := set_bytes _ _). intros H.
  set (n := Z.min (PGSIZE - (va - PGROUNDDOWN va)) (Z.of_nat (length src))) in *.
  assert (Ex : forall va, xlate m1 pt va = xlate m pt va) by (intros; by apply xlate_ptes).
  apply IH in H as (H1 & H2 & H3); [|apply u64_range]. split_and!; [done|done|]. intros x Hx.
  rewrite H3 by (intros a; rewrite Ex; apply Hx).
  pose proof (PGROUNDDOWN_spec va Hva) as Epg. pose proof (Z.mod_pos_bound va PGSIZE PGSIZE_pos) as Hm.
  assert (Hlow : va < MAXVA).
  { destruct (decide (va < MAXVA)); [done|]. destruct Hz. apply xlate_high. rewrite Epg. apply page_of_high. lia. }
  specialize (Hx va ltac:(lia)). unfold page_of in Hx. rewrite <-Epg in Hx. specialize (Hx Hz).
  unfold in_page in Hx. apply andb_false_iff in Hx. unfold m1, byte_at. cbn [bytes set_bytes].
  rewrite store_bytes_lookup, length_take, decide_False; [done|]. intros Hr.
  destruct Hx as [Hx|Hx]; zify_bool; lia.
Qed.

(** ** Theorems *)

(** Claim C25: [proc_freepagetable] on the address space of a process ends, and
    the free pages are then exactly those that were free, the tables of the
    address space and its pages, each once: no page is lost and none is freed
    twice.  No other page is touched. *)
Theorem proc_freepagetable_frees (kend tramp tf pt sz : Z) (m : vmem) (G : gmap Z (list Z)) (l : list Z) :
  0 < kend -> 0 <= tramp < 2 ^ 56 -> tramp mod PGSIZE = 0 -> 0 <= tf < 2 ^ 56 -> tf mod PGSIZE = 0 ->
  uspace kend m pt G l -> sized m pt sz -> 0 <= sz <= TRAPFRAME -> top_pages tramp tf m pt ->
  exists m' l', Proc.proc_freepagetable kend pt sz m = Ok tt m' /\ Kalloc.klist kend (vkm m') l' /\
    (forall q, q ∈ l' <-> owns m pt G l q) /\ bytes m' = bytes m /\ untouched (owns m pt G l) m m'.
Proof.
  intros Hk T1 T2 F1 F2 Hu Hs Hr Ht.
  destruct (wp_elim _ _ _ (proc_freepagetable_wp kend Hk tramp tf pt sz m G l Hu Hs Hr Ht T1 T2 F1 F2))
    as ([] & m' & Hrun & l' & H1 & H2 & H3 & H4). by exists m', l'.
Qed.

(** Claim C23: [uvmcopy] of the memory of a process into an empty address space
    that shares no page with it ends.  Either it returns 0 and the new space has
    the same size, its pages have the flags and the bytes of the old ones and are
    pages of its own; or it returns -1, only when fewer than three free pages for
    each page to copy were there, and the new space is empty again.  On both
    paths the old space, its bytes included, is unchanged and no page is lost. *)
Theorem uvmcopy_copies (kend old new sz : Z) (m : vmem) (Go G : gmap Z (list Z)) (l : list Z) :
  0 < kend -> uspace kend m old Go l -> sized m old sz -> 0 <= sz <= TRAPFRAME ->
  uspace kend m new G l -> sized m new 0 -> apart m old Go (owns m new G l) ->
  exists r m' G' l', uvmcopy kend old new sz m = Ok r m' /\
    uspace kend m' new G' l' /\ uspace kend m' old Go l' /\ keeps m m' old /\
    apart m' old Go (owns m' new G' l') /\ conserves new m G l m' G' l' /\
    (r = 0 /\ sized m' new sz /\ (forall va, 0 <= va < TRAPFRAME -> page_of va < sz -> copy_of old new m m' va) \/
     r = -1 /\ sized m' new 0 /\ Z.of_nat (length l) * PGSIZE < 3 * pgup sz).
Proof.
  intros Hk Hold Hs Hr Hnew H0 Hap.
  destruct (wp_elim _ _ _ (uvmcopy_wp kend Hk old new m Go G l Hold Hap sz Hr Hs Hnew H0))
    as (r & m' & Hrun & G' & l' & Hu' & Hcv & Hpost).
  destruct (apart_uspace kend m m' old Go l l' (owns m new G l)) as (Hold' & Hkeep & He); try done.
  { apply Hcv. } { apply Hu'. } { intros q Hq. apply (cv_owns _ _ _ _ _ _ _ Hcv). by left. }
  exists r, m', G', l'. split_and!; try done. destruct Hap as [A1 A2]. split.
  - intros t Ht Hq. apply (A1 t Ht). by apply (cv_owns _ _ _ _ _ _ _ Hcv).
  - intros va Hva. unfold valid, phys in *. rewrite He by lia. intros Hv Hq. apply (A2 va Hva Hv).
    by apply (cv_owns _ _ _ _ _ _ _ Hcv).
Qed.

(** ** Witnesses: a machine with 32 pages *)

Definition kend32 : Z := PHYSTOP - 32 * PGSIZE.
Definition ex_tramp : Z := 0x80007000.

Lemma kend32_pos : 0 < kend32.
Proof. done. Qed.

(** A process without memory. *)
Lemma ex_space :
  exists m pt tf G l, uspace kend32 m pt G l /\ sized m pt 0 /\ top_pages ex_tramp tf m pt /\
    Kalloc.page_ok kend32 tf /\ ~ owns m pt G l tf /\ bytes m = ∅ /\ (26 <= length l)%nat.
Proof.
  destruct (wp_elim _ _ _ (Kalloc.kinit_list kend32 kend32_pos Kalloc.kempty
    ltac:(vm_compute; congruence) ltac:(split; [done|constructor|constructor]))) as ([] & km & _ & Hkm).
  assert (Hl : exists tf l, rev (Kalloc.pages kend32 PHYSTOP) = tf :: l /\ length l = 31%nat)
    by (do 2 eexists; split; vm_compute; reflexivity).
  destruct Hl as (tf & l0 & E & Hlen). rewrite E in Hkm. clear E.
  destruct (wp_elim _ _ _ (vkalloc_spec kend32 kend32_pos (set_vkm km boot_mem) (tf :: l0) Hkm))
    as (r & m1 & _ & _ & Eb & -> & _ & Hl1 & Htf).
  destruct (wp_elim _ _ _ (proc_pagetable_wp kend32 kend32_pos ex_tramp tf m1 l0 Hl1 ltac:(done) eq_refl))
    as (pt & m & _ & [(_ & Hno & _)|(_ & (_ & Hb & G & l & Hu & Hs & Ho) & Htop & Hsp)]); [lia|].
  exists m, pt, tf, G, l. split_and!; try done.
  - rewrite Ho. by apply NoDup_cons_1_1, (Kalloc.kl_nodup _ _ _ Hkm).
  - rewrite Eb in Hb. apply map_empty. intros a. destruct (bytes m !! a) eqn:Ea; [|done].
    eapply lookup_weaken in Ea; [|exact Hb]. done.
  - apply (uspace_spare kend32 m pt G l) in Hsp; [|done|done]. rewrite Hlen in Hsp. unfold PGSIZE in *. lia.
Qed.

(** A process of one page. *)
Lemma ex_paged :
  exists m pt tf G l, uspace kend32 m pt G l /\ sized m pt PGSIZE /\ top_pages ex_tramp tf m pt /\
    Kalloc.page_ok kend32 tf /\ (23 <= length l)%nat.
Proof.
  destruct ex_space as (m & pt & tf & G & l & Hu & Hs & [T1 T2] & Htf & _ & _ & Hlen).
  destruct (wp_elim _ _ _ (uvmalloc_wp kend32 kend32_pos pt 0 PGSIZE PTE_W m G l Hu Hs ltac:(by vm_compute)
    ltac:(by vm_compute) ltac:(done))) as (r & m' & _ & G' & l' & Hu' & Hcv & _ & [(_ & _ & Hs' & _ & Hc)|(_ & _ & Hc)]).
  - exists m', pt, tf, G', l'. split_and!; try done.
    + split; rewrite (cv_top _ _ _ _ _ _ _ Hcv); (done || by vm_compute).
    + change (pgup PGSIZE - pgup 0) with PGSIZE in Hc. unfold PGSIZE in *. lia.
  - change (pgup PGSIZE - pgup 0) with PGSIZE in Hc. unfold PGSIZE in *. lia.
Qed.

Lemma proc_freepagetable_frees_witness :
  exists m pt G l, uspace kend32 m pt G l /\ sized m pt PGSIZE /\
  exists m' l', Proc.proc_freepagetable kend32 pt PGSIZE m = Ok tt m' /\ Kalloc.klist kend32 (vkm m') l' /\
    (forall q, q ∈ l' <-> owns m pt G l q) /\ bytes m' = bytes m /\ untouched (owns m pt G l) m m'.
Proof.
  destruct ex_paged as (m & pt & tf & G & l & Hu & Hs & Ht & Htf & _). exists m, pt, G, l. split_and!; try done.
  destruct (page_ok_range kend32 kend32_pos tf Htf) as [Ha Hr].
  apply (proc_freepagetable_frees kend32 ex_tramp tf pt PGSIZE m G l); (done || lia || by vm_compute).
Defined.

Lemma uvmcopy_copies_witness :
  exists m old new Go G l, uspace kend32 m old Go l /\ sized m old PGSIZE /\ uspace kend32 m new G l /\ sized m new 0 /\
  exists m' G' l', uvmcopy kend32 old new PGSIZE m = Ok 0 m' /\
    uspace kend32 m' new G' l' /\ uspace kend32 m' old Go l' /\ sized m' new PGSIZE /\
    forall va, 0 <= va < TRAPFRAME -> page_of va < PGSIZE -> copy_of old new m m' va.
Proof.
  destruct ex_paged as (m0 & old & tf & Go & l0 & Hu0 & Hs0 & Ht0 & Htf & Hlen0).
  destruct (wp_elim _ _ _ (proc_pagetable_wp kend32 kend32_pos ex_tramp tf m0 l0 ltac:(apply Hu0) ltac:(done) eq_refl))
    as (new & m & _ & [(_ & Hno & _)|(_ & (Hout & _ & G & l & Hu & Hs & Ho) & _ & Hsp)]); [lia|].
  apply (uspace_spare kend32 m new G l) in Hsp; [|done|done].
  destruct (uspace_apart kend32 m0 old Go l0 Hu0) as [A1 A2].
  destruct (apart_uspace kend32 m0 m old Go l0 l (fun q => q ∈ l0)) as (Hold & _ & He); try done.
  { apply Hu. } { intros q Hq. apply Ho. by left. }
  assert (Hso : sized m old PGSIZE) by (apply (sized_leaf m0); [intros va Hva; apply He; lia|done]).
  exists m, old, new, Go, G, l. split_and!; try done.
  destruct (uvmcopy_copies kend32 old new PGSIZE m Go G l kend32_pos Hold Hso) as
    (r & m' & G' & l' & Hr & H1 & H2 & _ & _ & _ & [(-> & H3 & H4)|(_ & _ & Hc)]); try done.
  - split.
    + intros t Ht Hq. apply (A1 t Ht). by apply Ho.
    + intros va Hva. unfold valid, phys in *. rewrite He by lia. intros Hv Hq. apply (A2 va Hva Hv). by apply Ho.
  - by exists m', G', l'.
  - change (pgup PGSIZE) with PGSIZE in Hc. unfold PGSIZE in *. lia.
Defined.
