(* ===== verification/Exec.v ===== *)
(** * Running a program: [kernel/fs/exec.c]

    [exec] reads the program from a file, builds a second address space for
    it, puts the arguments on its stack and, when nothing went wrong, gives it
    to the process in place of the old one; [sys_exec] fetches the path and
    the arguments from the process.  The file is behind the interface
    [ExecFiles]. *)

From S2P Require Import Prelude Layout Cstring Kalloc UserMem Vm PageTable UserSpace Proc AddrSpace.
Import Vm.

(** What [exec] needs from the file layer.  [exec_read i off n kb] is
    [ip->op->read(ip, 0, dst, off, n)] with [kb] the bytes at [dst] before; it
    returns its result and the bytes there afterwards. *)
Class ExecFiles (F : Type) : Type := {
  exec_namei : list Z -> M F (option nat);
  exec_ilock : nat -> M F unit;
  exec_read : nat -> Z -> Z -> list Z -> M F (Z * list Z);
  exec_iunlockput : nat -> M F unit;
}.

Module Exec.
Import Proc.

(** ** The file format: [kernel/elf.h] *)

Definition ELF_MAGIC : Z := 0x464C457F.
Definition ELF_PROG_LOAD : Z := 1.

(** The fields [exec] uses, with [sizeof(struct elfhdr)] bytes read. *)
Record elfhdr : Type := { magic : Z; entry : Z; phoff : Z; phnum : Z }.
Record proghdr : Type := { ptype : Z; pflags : Z; poff : Z; vaddr : Z; filesz : Z; memsz : Z }.

Definition ELFHDR_SIZE : Z := 64.
Definition PROGHDR_SIZE : Z := 56.

Definition field (off n : nat) (l : list Z) : Z := le_dec (slice off n l).
Definition dec_elfhdr (l : list Z) : elfhdr :=
  {| magic := field 0 4 l; entry := field 24 8 l; phoff := field 32 8 l; phnum := field 56 2 l |}.
Definition dec_proghdr (l : list Z) : proghdr :=
  {| ptype := field 0 4 l; pflags := field 4 4 l; poff := field 8 8 l; vaddr := field 16 8 l;
     filesz := field 32 8 l; memsz := field 40 8 l |}.

Definition flags2perm (flags : Z) : Z :=
  Z.lor (if Z.land flags 1 =? 0 then 0 else PTE_X) (if Z.land flags 2 =? 0 then 0 else PTE_W).

(** The registers of [struct trapframe] that [exec] sets. *)
Definition TF_A1 : Z := 120.

Section Code.
Context {F : Type} `{EF : ExecFiles F}.
Context (kend trampoline : Z).
Notation K := (kernel F).

(** [loadseg] from byte [i] on; [true] is the result 0.  Every round is a page
    of [sz]. *)
Fixpoint loadseg_loop (fuel : nat) (pagetable va : Z) (ip : nat) (offset sz i : Z) : M K bool :=
  match fuel with
  | O => halt (SFault "loadseg: endless")
  | S fuel =>
      if i <? sz then
        pa <- onMem (walkaddr pagetable (u64 (va + i))) ;;
        if pa =? 0 then panic "loadseg: address should exist"
        else
          let n := if u32 (sz - i) <? PGSIZE then u32 (sz - i) else PGSIZE in
          kb <- onMem (gets (fun m => load_bytes m pa n)) ;;
          ' (r, kb) <- onFiles (exec_read ip (u32 (offset + i)) n kb) ;;
          onMem (modify (fun m => set_bytes (store_bytes pa kb (bytes m)) m)) ;;
          if negb (u32 r =? n) then ret false
          else loadseg_loop fuel pagetable va ip offset sz (u32 (i + PGSIZE))
      else ret true
  end.

Definition loadseg (pagetable va : Z) (ip : nat) (offset sz : Z) : M K bool :=
  loadseg_loop (S (Z.to_nat (sz / PGSIZE + 1))) pagetable va ip offset sz 0.

(** The program headers: the size reached, and whether none was bad. *)
Fixpoint load_loop (n : nat) (pagetable : Z) (ip : nat) (off sz : Z) : M K (Z * bool) :=
  match n with
  | O => ret (sz, true)
  | S n =>
      ' (r, kb) <- onFiles (exec_read ip (u32 off) PROGHDR_SIZE (replicate (Z.to_nat PROGHDR_SIZE) 0)) ;;
      if negb (r =? PROGHDR_SIZE) then ret (sz, false)
      else
        let ph := dec_proghdr kb in
        let next := load_loop n pagetable ip (s32 (off + PROGHDR_SIZE)) in
        if negb (ptype ph =? ELF_PROG_LOAD) then next sz
        else if memsz ph <? filesz ph then ret (sz, false)
        else if u64 (vaddr ph + memsz ph) <? vaddr ph then ret (sz, false)
        else if negb (vaddr ph mod PGSIZE =? 0) then ret (sz, false)
        else
          sz1 <- onMem (uvmalloc kend pagetable sz (u64 (vaddr ph + memsz ph)) (flags2perm (pflags ph))) ;;
          if sz1 =? 0 then ret (sz, false)
          else
            ok <- loadseg pagetable (vaddr ph) ip (u32 (poff ph)) (u32 (filesz ph)) ;;
            if negb ok then ret (sz1, false) else next sz1
  end.

(** The argument strings, with their addresses in [ustack]; [None] is [bad]. *)
Fixpoint push_args (pagetable stackbase : Z) (argv : list (list Z)) (sp : Z) (ustack : list Z)
    : M vmem (option (Z * list Z)) :=
  match argv with
  | [] => ret (Some (sp, ustack))
  | s :: argv =>
      if (MAXARG <=? length ustack)%nat then ret None
      else
        let sp := u64 (sp - (Z.of_nat (length s) + 1)) in
        let sp := sp - sp mod 16 in
        if sp <? stackbase then ret None
        else
          ok <- copyout pagetable sp (s ++ [0]) ;;
          if negb ok then ret None
          else push_args pagetable stackbase argv sp (ustack ++ [sp])
  end.

(** The strings and the array of their addresses; [ustack] has [MAXARG]
    elements. *)
Definition push_argv (pagetable stackbase : Z) (argv : list (list Z)) (sp : Z) : M vmem (option Z) :=
  o <- push_args pagetable stackbase argv sp [] ;;
  match o with
  | None => ret None
  | Some (sp, ustack) =>
      if (MAXARG <=? length ustack)%nat then halt (SFault "ustack")
      else
        let sp := u64 (sp - (Z.of_nat (length ustack) + 1) * 8) in
        let sp := sp - sp mod 16 in
        if sp <? stackbase then ret None
        else
          ok <- copyout pagetable sp (mjoin (le_enc 8 <$> (ustack ++ [0]))) ;;
          if negb ok then ret None else ret (Some sp)
  end.

(** The name of the program: the path after its last slash. *)
Fixpoint basename (last path : list Z) : list Z :=
  match path with
  | [] => last
  | c :: path => basename (if c =? 47 then path else last) path
  end.

Definition bad (pagetable sz : Z) (ip : option nat) : M K Z :=
  (if negb (pagetable =? 0) then onMem (proc_freepagetable kend pagetable sz) else ret tt) ;;
  match ip with
  | Some ip => onFiles (exec_iunlockput ip)
  | None => ret tt
  end ;;
  ret (-1).

(** From [p = myproc()] on: the stack, the arguments and the commit. *)
Definition exec_stack (me : nat) (path : list Z) (argv : list (list Z)) (elf : elfhdr) (pagetable sz : Z)
    : M K Z :=
  p <- get_proc me ;;
  let oldsz := p_sz p in
  let sz := PGROUNDUP sz in
  sz1 <- onMem (uvmalloc kend pagetable sz (u64 (sz + 2 * PGSIZE)) PTE_W) ;;
  if sz1 =? 0 then bad pagetable sz None
  else
    let sz := sz1 in
    onMem (uvmclear pagetable (u64 (sz - 2 * PGSIZE))) ;;
    o <- onMem (push_argv pagetable (u64 (sz - PGSIZE)) argv sz) ;;
    match o with
    | None => bad pagetable sz None
    | Some sp =>
        onMem (store_word (p_trapframe p + TF_A1) sp) ;;
        upd me (fun p => set_name (splice 0 (safestrcpy (basename path path ++ [0]) 16) (p_name p)) p) ;;
        upd me (fun p => set_mem sz pagetable (p_trapframe p) p) ;;
        onMem (store_word (p_trapframe p + TF_EPC) (entry elf)) ;;
        onMem (store_word (p_trapframe p + TF_SP) sp) ;;
        onMem (proc_freepagetable kend (p_pagetable p) oldsz) ;;
        ret (Z.of_nat (length argv))
    end.

Definition exec (me : nat) (path : list Z) (argv : list (list Z)) : M K Z :=
  o <- onFiles (exec_namei (path ++ [0])) ;;
  match o with
  | None => ret (-1)
  | Some ip =>
      onFiles (exec_ilock ip) ;;
      ' (r, kb) <- onFiles (exec_read ip 0 ELFHDR_SIZE (replicate (Z.to_nat ELFHDR_SIZE) 0)) ;;
      if negb (r =? ELFHDR_SIZE) then bad 0 0 (Some ip)
      else
        let elf := dec_elfhdr kb in
        if negb (magic elf =? ELF_MAGIC) then bad 0 0 (Some ip)
        else
          p <- get_proc me ;;
          pagetable <- onMem (proc_pagetable kend trampoline (p_trapframe p)) ;;
          if pagetable =? 0 then bad 0 0 (Some ip)
          else
            ' (sz, ok) <- load_loop (Z.to_nat (phnum elf)) pagetable ip (s32 (phoff elf)) 0 ;;
            if negb ok then bad pagetable sz (Some ip)
            else
              onFiles (exec_iunlockput ip) ;;
              exec_stack me path argv elf pagetable sz
  end.

(** ** [sys_exec], with the registers a0 and a1 of the process *)

Definition fetchaddr (me : nat) (addr : Z) : M K (option Z) :=
  p <- get_proc me ;;
  if (p_sz p <=? addr) || (p_sz p <? u64 (addr + 8)) then ret None
  else
    ' (l, ok) <- onMem (copyin (p_pagetable p) addr 8) ;;
    ret (if ok : bool then Some (le_dec l) else None).

Definition fetchstr (me : nat) (addr max : Z) : M K (option (list Z)) :=
  p <- get_proc me ;;
  onMem (copyinstr (p_pagetable p) addr max).

(** The array [argv], each string in a page of its own, which holds nothing
    else; the pages taken come with it, also when it is [bad]. *)
Fixpoint fetch_args (fuel : nat) (me : nat) (uargv : Z) (i : Z) : M K (list Z * option (list (list Z))) :=
  match fuel with
  | O => ret ([], None)
  | S fuel =>
      o <- fetchaddr me (u64 (uargv + 8 * i)) ;;
      match o with
      | None => ret ([], None)
      | Some uarg =>
          if uarg =? 0 then ret ([], Some [])
          else
            page <- onMem kalloc ;;
            if page =? 0 then ret ([], None)
            else
              o <- fetchstr me uarg PGSIZE ;;
              match o with
              | None => ret ([page], None)
              | Some s =>
                  ' (pages, o) <- fetch_args fuel me uargv (i + 1) ;;
                  ret (page :: pages, cons s <$> o)
              end
      end
  end.

Fixpoint free_args (pages : list Z) : M K unit :=
  match pages with
  | [] => ret tt
  | page :: pages => onMem (kfree kend page) ;; free_args pages
  end.

Definition sys_exec (me : nat) (a0 a1 : Z) : M K Z :=
  o <- fetchstr me a0 MAXPATH ;;
  match o with
  | None => ret (u64 (-1))
  | Some path =>
      ' (pages, o) <- fetch_args MAXARG me a1 0 ;;
      match o with
      | None => free_args pages ;; ret (u64 (-1))
      | Some argv =>
          r <- exec me path argv ;;
          free_args pages ;;
          ret (u64 r)
      end
  end.
End Code.
End Exec.
