(* ===== verification/ExecSpec.v ===== *)
(** * What [exec] does

    [exec] ends whatever the file contains.  It either fails and leaves the
    process, its memory and the free pages as they were, or it gives the
    process the memory the program headers describe, with the arguments on its
    stack, and the pages of the old memory are free. *)

From S2P Require Import Prelude Layout Cstring Kalloc UserMem Vm PageTable UserSpace Proc AddrSpace Exec.
Import Vm Proc Exec.

(** What the file layer promises, for the files [v] by their paths: [namei]
    finds the file, [ilock] opens it and [read] returns parts of it; no file
    changes. *)
Class ExecFilesLaws (F : Type) `{ExecFiles F} : Type := {
  xf_idle : (list Z -> option (list Z)) -> F -> Prop;
  xf_ref : (list Z -> option (list Z)) -> nat -> list Z -> F -> Prop;
  xf_open : (list Z -> option (list Z)) -> nat -> list Z -> F -> Prop;
  xf_namei : forall v path s, xf_idle v s ->
    wp (exec_namei path) (fun o s' =>
      match o with
      | Some i => exists c, v path = Some c /\ xf_ref v i c s'
      | None => v path = None /\ xf_idle v s'
      end) s;
  xf_ilock : forall v i c s, xf_ref v i c s -> wp (exec_ilock i) (fun _ s' => xf_open v i c s') s;
  xf_size : forall v i c s, xf_open v i c s -> Z.of_nat (length c) < 2 ^ 31 /\ Forall byte_ok c;
  xf_read : forall v i c off n kb s, xf_open v i c s -> 0 <= off < 2 ^ 32 -> 0 < n < 2 ^ 31 ->
    length kb = Z.to_nat n -> Forall byte_ok kb ->
    wp (exec_read i off n kb) (fun '(r, kb') s' => xf_open v i c s' /\ length kb' = length kb /\
      Forall byte_ok kb' /\ - 2 ^ 31 <= r < 2 ^ 31 /\ (r = n <-> off + n <= Z.of_nat (length c)) /\
      (r = n -> kb' = slice (Z.to_nat off) (Z.to_nat n) c)) s;
  xf_iunlockput : forall v i c s, xf_open v i c s -> wp (exec_iunlockput i) (fun _ s' => xf_idle v s') s;
}.

(** ** Code that only changes memory and files *)

Section mem.
Context {F : Type}.
Notation K := (kernel F).
Implicit Types (k : K) (f : F) (m : vmem).

Definition put (m : vmem) (f : F) (k : K) : K := set_kmem m (set_kfiles f k).

Definition wpK {A} (c : M K A) (Q : A -> vmem -> F -> Prop) (k : K) (m : vmem) (f : F) : Prop :=
  wp c (fun a k' => exists m' f', k' = put m' f' k /\ Q a m' f') (put m f k).

Lemma put_eta k : put (k_mem k) (k_files k) k = k.
Proof. by destruct k. Qed.

Lemma wpK_start {A} (c : M K A) (Q : A -> vmem -> F -> Prop) k :
  wpK c Q k (k_mem k) (k_files k) -> wp c (fun a k' => exists m' f', k' = put m' f' k /\ Q a m' f') k.
Proof. unfold wpK. by rewrite put_eta. Qed.

Lemma wpK_ret {A} (a : A) (Q : A -> vmem -> F -> Prop) k m f : Q a m f -> wpK (ret a) Q k m f.
Proof. intros H. apply wp_ret. eauto. Qed.

Lemma wpK_bind {A B} (c : M K A) (g : A -> M K B) (Q : B -> vmem -> F -> Prop) k m f :
  wpK c (fun a m' f' => wpK (g a) Q k m' f') k m f -> wpK (a <- c ;; g a) Q k m f.
Proof. intros H. apply wp_bind. eapply wp_mono; [exact H|]. cbn beta. by intros a k' (m' & f' & -> & Hq). Qed.

Lemma wpK_mono {A} (c : M K A) (Q Q' : A -> vmem -> F -> Prop) k m f :
  wpK c Q k m f -> (forall a m' f', Q a m' f' -> Q' a m' f') -> wpK c Q' k m f.
Proof. intros H HQ. eapply wp_mono; [exact H|]. cbn beta. intros a k' (m' & f' & -> & Hq). eauto. Qed.

Lemma wpK_mem {A} (c : M vmem A) (Q : A -> vmem -> F -> Prop) k m f :
  wp c (fun a m' => Q a m' f) m -> wpK (onMem c) Q k m f.
Proof. intros H. apply wp_lift. eapply wp_mono; [exact H|]. cbn beta. intros a m' Hq. by exists m', f. Qed.

Lemma wpK_files {A} (c : M F A) (Q : A -> vmem -> F -> Prop) k m f :
  wp c (fun a f' => Q a m f') f -> wpK (onFiles c) Q k m f.
Proof. intros H. apply wp_lift. eapply wp_mono; [exact H|]. cbn beta. intros a f' Hq. by exists m, f'. Qed.
End mem.

(** ** The stack of a new program *)

(** Where the arguments go: the stack pointer after the strings and after the
    array, on a stack page that starts at [base]. *)
Definition down (sp n : Z) : Z := (sp - n) - (sp - n) mod 16.
Fixpoint push_sp (base sp : Z) (argv : list (list Z)) : option Z :=
  match argv with
  | [] => Some sp
  | s :: argv =>
      let sp := down sp (Z.of_nat (length s) + 1) in
      if sp <? base then None else push_sp base sp argv
  end.
Definition argv_sp (base sp : Z) (argv : list (list Z)) : option Z :=
  sp ← push_sp base sp argv;
  let sp := down sp ((Z.of_nat (length argv) + 1) * 8) in
  if sp <? base then None else Some sp.

Lemma down_shift sp n d : d mod 16 = 0 -> down (sp + d) n = down sp n + d.
Proof. intros Hd. unfold down. Z.to_euclidean_division_equations. lia. Qed.

Lemma push_sp_shift argv base sp d :
  d mod 16 = 0 -> push_sp (base + d) (sp + d) argv = (fun x => x + d) <$> push_sp base sp argv.
Proof.
  intros Hd. revert sp. induction argv as [|s argv IH]; intros sp; cbn [push_sp]; [done|]. rewrite down_shift by done.
  destruct (Z.ltb_spec (down sp (Z.of_nat (length s) + 1)) base).
  - by rewrite (proj2 (Z.ltb_lt _ _)) by lia.
  - rewrite (proj2 (Z.ltb_ge _ _)) by lia. apply IH.
Qed.

Lemma argv_sp_shift argv base sp d :
  d mod 16 = 0 -> argv_sp (base + d) (sp + d) argv = (fun x => x + d) <$> argv_sp base sp argv.
Proof.
  intros Hd. unfold argv_sp. rewrite push_sp_shift by done. destruct (push_sp base sp argv) as [x|]; [|done].
  cbn [fmap option_fmap option_map mbind option_bind]. rewrite down_shift by done.
  destruct (Z.ltb_spec (down x ((Z.of_nat (length argv) + 1) * 8)) base).
  - by rewrite (proj2 (Z.ltb_lt _ _)) by lia.
  - by rewrite (proj2 (Z.ltb_ge _ _)) by lia.
Qed.

(** ** The address space under construction *)

Definition bytes_ok (m : vmem) : Prop := map_Forall (fun _ v => byte_ok v) (bytes m).

Section build.
Context (kend : Z) (Hkend : 0 < kend) (tramp tf : Z).
Context (Htr : 0 <= tramp < 2 ^ 56) (Htra : tramp mod PGSIZE = 0) (Htf : 0 <= tf < 2 ^ 56) (Htfa : tf mod PGSIZE = 0).
Context (m0 : vmem) (l0 : list Z).

(** The page table [pt], made of the free pages [l0] of [m0], has the memory
    [img] up to [sz]; the user has no access to the page [g]. *)
Record building (pt sz g : Z) (img : Z -> Z) (m : vmem) : Prop := {
  bd_out : untouched (fun q => q ∈ l0) m0 m;
  bd_bytes : bytes_ok m;
  bd_top : top_pages tramp tf m pt;
  bd_sz : 0 <= sz <= PHYSTOP;
  bd_space : exists G l, uspace kend m pt G l /\ sized m pt sz /\ forall q, owns m pt G l q <-> q ∈ l0;
  bd_view : forall a, 0 <= a < TRAPFRAME -> ubyte {| u_mem := m; u_pt := pt |} a =
    if bool_decide (page_of a < sz /\ page_of a <> g) then Some (img a) else None;
  bd_zero : forall a, pgup sz <= a -> img a = 0;
  bd_read : forall a, 0 <= a < TRAPFRAME -> page_of a < sz -> pte_flag (leaf_pte m pt a) PTE_R = true;
}.

Lemma PHYSTOP_TRAPFRAME : PHYSTOP + 4 * PGSIZE <= TRAPFRAME.
Proof. by vm_compute. Qed.

Lemma building_ext pt sz g img img' m :
  (forall a, 0 <= a -> img' a = img a) -> building pt sz g img m -> building pt sz g img' m.
Proof.
  intros E [B1 B2 B3 B4 B5 B6 B7 B8]. split; try done.
  - intros a Ha. rewrite B6 by done. by rewrite E by lia.
  - intros a Ha. rewrite E; [by apply B7|]. pose proof (pgup_spec sz). lia.
Qed.

(** The start: nothing yet. *)
Lemma building_start pt m :
  fresh kend l0 m0 pt m -> top_pages tramp tf m pt -> bytes_ok m0 -> building pt 0 (-1) (fun _ => 0) m.
Proof.
  intros (Hout & Hb & G & l & Hu & Hs & Ho) Htop Hy. split; try done.
  - intros a v Hv. eapply Hy, lookup_weaken; [exact Hv|done].
  - by exists G, l.
  - intros a Ha. rewrite (ubyte_user kend Hkend tramp tf Htr Htra Htf Htfa m pt G l Hu Htop) by auto.
    unfold user_page. rewrite Hs by done. pose proof (page_bound a ltac:(auto)).
    rewrite !bool_decide_false by lia. done.
  - intros a Ha. pose proof (page_bound a ltac:(auto)). lia.
Qed.

(** A new state with the same tables. *)
Lemma building_bytes pt sz g img img' m m' :
  building pt sz g img m -> ptes m' = ptes m -> vkm m' = vkm m -> bytes_ok m' -> untouched (fun q => q ∈ l0) m m' ->
  (forall a, 0 <= a < TRAPFRAME -> ubyte {| u_mem := m'; u_pt := pt |} a =
    if bool_decide (page_of a < sz /\ page_of a <> g) then Some (img' a) else None) ->
  (forall a, pgup sz <= a -> img' a = 0) -> building pt sz g img' m'.
Proof.
  intros [B1 B2 B3 B4 (G & l & Hu & Hs & Ho) B6 B7 B8] Ep Ek Hy Hout Hv Hz.
  pose proof (same_ptes pt m m' Ep) as He. destruct (uspace_bytes kend m m' pt G l Ep Ek Hu) as (U1 & U2 & U3).
  split; try done.
  - by eapply untouched_trans.
  - unfold top_pages. by rewrite !He.
  - exists G, l. split_and!; [done|by apply U2|]. intros q. by rewrite U3.
  - intros a. rewrite He. apply B8.
Qed.

Lemma user_perm_U xperm : Z.land (Z.lor (user_perm xperm) PTE_V) PTE_U <> 0.
Proof.
  intros E. assert (Hb : Z.testbit (Z.land (Z.lor (user_perm xperm) PTE_V) PTE_U) 4 = false) by (by rewrite E).
  unfold user_perm in Hb. rewrite Z.land_spec, !Z.lor_spec in Hb. by destruct (Z.testbit xperm 4).
Qed.

Lemma user_perm_R xperm : Z.land (Z.lor (user_perm xperm) PTE_V) PTE_R <> 0.
Proof.
  intros E. assert (Hb : Z.testbit (Z.land (Z.lor (user_perm xperm) PTE_V) PTE_R) 1 = false) by (by rewrite E).
  unfold user_perm in Hb. rewrite Z.land_spec, !Z.lor_spec in Hb. by destruct (Z.testbit xperm 1).
Qed.

Lemma flag_U v : pte_flag v PTE_U = negb (Z.land (PTE_FLAGS v) PTE_U =? 0).
Proof. unfold pte_flag, PTE_FLAGS. by rewrite <-Z.land_assoc. Qed.
Lemma flag_R v : pte_flag v PTE_R = negb (Z.land (PTE_FLAGS v) PTE_R =? 0).
Proof. unfold pte_flag, PTE_FLAGS. by rewrite <-Z.land_assoc. Qed.

Lemma byte_in_page pa va : in_page pa (pa + va mod PGSIZE) = true.
Proof.
  unfold in_page. pose proof (Z.mod_pos_bound va PGSIZE PGSIZE_pos).
  apply andb_true_iff. split; [apply Z.leb_le|apply Z.ltb_lt]; lia.
Qed.

(** What was mapped looks the same to the user. *)
Lemma ubyte_keeps m m' pt G l G' l' a :
  uspace kend m pt G l -> top_pages tramp tf m pt -> uspace kend m' pt G' l' -> top_pages tramp tf m' pt ->
  keeps m m' pt -> 0 <= a < TRAPFRAME -> valid m pt a = true ->
  ubyte {| u_mem := m'; u_pt := pt |} a = ubyte {| u_mem := m; u_pt := pt |} a.
Proof.
  intros Hu Ht Hu' Ht' Hk Ha Hv. destruct (Hk a Ha Hv) as [El Eb].
  rewrite (ubyte_user kend Hkend tramp tf Htr Htra Htf Htfa m' pt G' l' Hu' Ht') by auto.
  rewrite (ubyte_user kend Hkend tramp tf Htr Htra Htf Htfa m pt G l Hu Ht) by auto.
  unfold user_page, valid, phys in *. rewrite El. destruct (_ && _); [|done]. by rewrite Eb by apply byte_in_page.
Qed.

(** The user's view of memory that has grown by pages of zeros. *)
Lemma view_grow m m' pt G l G' l' sz sz' xperm img :
  uspace kend m pt G l -> top_pages tramp tf m pt -> uspace kend m' pt G' l' -> top_pages tramp tf m' pt ->
  keeps m m' pt -> sized m pt sz -> sized m' pt sz' -> sz <= sz' ->
  (forall va, 0 <= va < TRAPFRAME -> pgup sz <= page_of va < sz' -> zero_mapped pt m' (user_perm xperm) va) ->
  (forall a, 0 <= a < TRAPFRAME -> ubyte {| u_mem := m; u_pt := pt |} a =
    if bool_decide (page_of a < sz /\ page_of a <> -1) then Some (img a) else None) ->
  (forall a, pgup sz <= a -> img a = 0) ->
  forall a, 0 <= a < TRAPFRAME -> ubyte {| u_mem := m'; u_pt := pt |} a =
    if bool_decide (page_of a < sz' /\ page_of a <> -1) then Some (img a) else None.
Proof.
  intros Hu Ht Hu' Ht' Hk Hs Hs' Hle Hzm Hv H0 a Ha. pose proof (page_bound a ltac:(auto)) as [Hp0 _].
  destruct (decide (page_of a < sz)) as [Hp|Hp].
  { rewrite bool_decide_true by lia. rewrite (ubyte_keeps m m' pt G l G' l'); try done.
    - rewrite Hv by done. by rewrite bool_decide_true by lia.
    - rewrite Hs by done. by apply bool_decide_true. }
  rewrite (ubyte_user kend Hkend tramp tf Htr Htra Htf Htfa m' pt G' l' Hu' Ht') by auto.
  unfold user_page. rewrite Hs' by done. destruct (decide (page_of a < sz')) as [Hp'|Hp'].
  - rewrite !bool_decide_true by lia. pose proof (page_lt_pgup a sz) as Hup.
    destruct (Hzm a Ha ltac:(lia)) as (_ & Hf & Hz).
    rewrite flag_U, Hf, (proj2 (Z.eqb_neq _ 0)) by apply user_perm_U. cbn [negb andb].
    rewrite Hz by apply byte_in_page. rewrite H0; [done|]. unfold page_of in *.
    pose proof (Z.mod_pos_bound a PGSIZE PGSIZE_pos). lia.
  - rewrite !bool_decide_false by lia. done.
Qed.

Lemma building_alloc pt sz img m newsz xperm :
  building pt sz (-1) img m -> 0 <= newsz -> 0 <= xperm < 1024 ->
  wp (uvmalloc kend pt sz newsz xperm) (fun r m' =>
    r = 0 /\ building pt sz (-1) img m' /\
      (forall b, spare kend m b -> b < 3 * (pgup (Z.max sz newsz) - pgup sz)) \/
    r = Z.max sz newsz /\ building pt r (-1) img m' /\
      forall b, spare kend m b -> spare kend m' (b - 3 * (pgup r - pgup sz))) m.
Proof.
  intros B Hn Hx. destruct (decide (newsz < sz)) as [Hlt|Hge].
  { unfold uvmalloc. rewrite (proj2 (Z.ltb_lt _ _)) by done. apply wp_ret. right. rewrite Z.max_l by lia.
    split_and!; [done..|]. intros b Hb. by replace (b - _) with b by lia. }
  destruct B as [B1 B2 B3 B4 (G & l & Hu & Hs & Ho) B6 B7 B8]. pose proof PHYSTOP_TRAPFRAME as HPT.
  eapply wp_mono; [apply (uvmalloc_wp kend Hkend pt sz newsz xperm m G l Hu Hs); (done || (unfold PGSIZE in *; lia))|].
  cbn beta. intros r m' (G' & l' & Hu' & Hcv & Hk & Hr).
  assert (Hout : untouched (fun q => q ∈ l0) m0 m').
  { eapply untouched_trans; [exact B1|]. eapply untouched_mono; [|apply Hcv]. apply Ho. }
  assert (Htop : top_pages tramp tf m' pt).
  { destruct B3 as [T1 T2]. split; rewrite (cv_top _ _ _ _ _ _ _ Hcv); (done || by vm_compute). }
  assert (Hown : forall q, owns m' pt G' l' q <-> q ∈ l0) by (intros q; by rewrite (cv_owns _ _ _ _ _ _ _ Hcv)).
  assert (Hread : forall a, 0 <= a < TRAPFRAME -> page_of a < sz -> pte_flag (leaf_pte m' pt a) PTE_R = true).
  { intros a Ha Hp. destruct (Hk a Ha) as [-> _]; [|by apply B8]. rewrite Hs by done. by apply bool_decide_true. }
  rewrite Z.max_r in * by lia. setoid_rewrite (uspace_spare kend m pt G l _ Hkend Hu).
  setoid_rewrite (uspace_spare kend m' pt G' l' _ Hkend Hu').
  destruct Hr as [(-> & Hph & Hs' & Hz & Hc)|(-> & Hs' & Hc)]; [right|left]; (split; [lia|]); (split; [|intros b; lia]);
    (split; [done|by apply Hcv|done|lia|by exists G', l'| | |]).
  - by apply (view_grow m m' pt G l G' l' sz newsz xperm img); try done; lia.
  - intros a Ha. apply B7. pose proof (pgup_mono sz newsz ltac:(lia)). lia.
  - intros a Ha Hp. destruct (decide (page_of a < sz)) as [Hlo|Hlo]; [by rewrite Hread|].
    pose proof (page_lt_pgup a sz). destruct (Hz a Ha ltac:(lia)) as (_ & Hf & _).
    by rewrite flag_R, Hf, (proj2 (Z.eqb_neq _ 0)) by apply user_perm_R.
  - apply (view_grow m m' pt G l G' l' sz sz xperm img); try done.
    intros va Hva Hr. pose proof (page_lt_pgup va sz). lia.
  - done.
  - intros a Ha Hp. by rewrite Hread.
Qed.

(** ** Writing to a page of it *)

Lemma building_xlate pt sz g img m va :
  building pt sz g img m -> 0 <= va -> va mod PGSIZE = 0 -> va < sz -> va <> g ->
  xlate m pt va <> 0 /\ xlate m pt va ∈ l0.
Proof.
  intros [B1 B2 B3 B4 (G & l & Hu & Hs & Ho) B6 B7 B8] H0 Ha Hlt Hg. pose proof PHYSTOP_TRAPFRAME.
  assert (Hva : 0 <= va < TRAPFRAME) by (unfold PGSIZE in *; lia). pose proof (page_of_id va Ha) as Hp.
  pose proof (B6 va Hva) as Hv. rewrite Hp, bool_decide_true in Hv by lia.
  rewrite (ubyte_user kend Hkend tramp tf Htr Htra Htf Htfa m pt G l Hu B3) in Hv by auto.
  destruct (user_page m pt va) eqn:Eu; [|done].
  destruct (user_page_ok kend Hkend tramp tf Htr Htra Htf Htfa m pt G l Hu B3 va ltac:(auto) Eu) as (_ & Hvl & _ & Hne).
  rewrite <-Hp. rewrite (user_xlate kend m pt G l Hu) by auto. rewrite Eu.
  split; [done|]. apply Ho. right; right. by exists va.
Qed.

Lemma building_store pt sz g img m va kb :
  building pt sz g img m -> 0 <= va -> va mod PGSIZE = 0 -> va < sz -> va <> g ->
  Z.of_nat (length kb) <= PGSIZE -> Forall byte_ok kb ->
  building pt sz g
    (fun a => if decide (va <= a < va + Z.of_nat (length kb)) then default 0 (kb !! Z.to_nat (a - va)) else img a)
    (set_bytes (store_bytes (xlate m pt va) kb (bytes m)) m).
Proof.
  intros B H0 Ha Hlt Hg Hlen Hkb. destruct (building_xlate pt sz g img m va B H0 Ha Hlt Hg) as [Hx Hin].
  pose proof PHYSTOP_TRAPFRAME. pose proof (bd_sz _ _ _ _ _ B) as Hsz.
  assert (Hva : 0 <= va < TRAPFRAME) by (unfold PGSIZE in *; lia). pose proof (page_of_id va Ha) as Hp.
  destruct (bd_space _ _ _ _ _ B) as (G & l & Hu & Hs & Ho).
  pose proof (uspace_uinv kend Hkend tramp tf Htr Htra Htf Htfa m pt G l Hu (bd_top _ _ _ _ _ B) (bd_bytes _ _ _ _ _ B)) as Hui.
  destruct (store_page {| u_mem := m; u_pt := pt |} va kb Hui ltac:(auto)) as [Hui' Hub]; cbn [u_mem u_pt];
    [by rewrite Hp|done|rewrite Ha; lia|]. cbn [u_mem u_pt with_bytes] in *. rewrite Hp, Ha, Z.add_0_r in Hui', Hub.
  apply (building_bytes pt sz g img _ m); try done.
  - apply Hui'.
  - split; [|done]. intros p x Hpa Hn Hxp. unfold byte_at. cbn [bytes set_bytes]. rewrite store_bytes_lookup.
    rewrite decide_False; [done|]. intros Hr. apply Hn. assert (p = xlate m pt va) as ->; [|done].
    destruct (xlate_aligned m pt va) as [Hxa _]. unfold in_page in Hxp. zify_bool.
    apply Z.mod_divide in Hpa as [z ->]; [|done]. apply Z.mod_divide in Hxa as [z' Hz']; [|done].
    unfold PGSIZE in *. lia.
  - intros a Har. unfold with_bytes in Hub. cbn [u_mem u_pt] in Hub. rewrite Hub.
    destruct (decide (va <= a < va + Z.of_nat (length kb))) as [Hr|Hr]; [|by apply B].
    destruct (page_of_same va a) as [Epg _]; [rewrite Hp; lia|]. rewrite Epg, Hp, bool_decide_true by lia.
    destruct (lookup_lt_is_Some_2 kb (Z.to_nat (a - va))) as [v ->]; [lia|done].
  - intros a Hza. destruct (pgup_spec sz) as [P1 P2]. pose proof (aligned_lt va (pgup sz) Ha P2 ltac:(lia)).
    rewrite decide_False by lia. by apply B.
Qed.
(** ** The guard page *)

Lemma flag_bit v n : 0 <= n -> pte_flag v (Z.shiftl 1 n) = Z.testbit v n.
Proof.
  intros Hn. unfold pte_flag. rewrite Z.shiftl_1_l. destruct (Z.testbit v n) eqn:E.
  - apply negb_true_iff, Z.eqb_neq. intros Hz. assert (Hb : Z.testbit (Z.land v (2 ^ n)) n = false) by (rewrite Hz; apply Z.bits_0).
    rewrite Z.land_spec, E, Z.pow2_bits_true in Hb; done.
  - apply negb_false_iff, Z.eqb_eq, Z.bits_inj'. intros i Hi. rewrite Z.land_spec, Z.bits_0.
    destruct (decide (i = n)) as [->|Hne]; [by rewrite E|]. rewrite Z.pow2_bits_false by done. apply andb_false_r.
Qed.

Definition clear_user (v : Z) : Z := Z.land v (u64 (Z.lnot PTE_U)).

Lemma clear_user_bit v n : 0 <= n < 64 -> Z.testbit (clear_user v) n = Z.testbit v n && negb (n =? 4).
Proof.
  intros Hn. unfold clear_user, u64. rewrite Z.land_spec, Z.mod_pow2_bits_low, Z.lnot_spec by lia.
  change PTE_U with (2 ^ 4). by rewrite Z.pow2_bits_eqb, Z.eqb_sym by lia.
Qed.

Lemma clear_user_phys v : PTE2PA (clear_user v) = PTE2PA v.
Proof.
  unfold PTE2PA, u64. apply Z.bits_inj'. intros n Hn. destruct (decide (n < 64)) as [Hlt|].
  - rewrite !Z.mod_pow2_bits_low by lia. destruct (decide (n < 12)).
    + by rewrite !Z.shiftl_spec_low by lia.
    + rewrite !Z.shiftl_spec, !Z.shiftr_spec by lia. rewrite clear_user_bit by lia.
      rewrite (proj2 (Z.eqb_neq _ 4)) by lia. apply andb_true_r.
  - by rewrite !Z.mod_pow2_bits_high by lia.
Qed.

Lemma clear_user_flags v :
  pte_flag (clear_user v) PTE_V = pte_flag v PTE_V /\ pte_flag (clear_user v) PTE_R = pte_flag v PTE_R /\
  pte_flag (clear_user v) PTE_U = false.
Proof.
  unfold PTE_V, PTE_R, PTE_U. rewrite !flag_bit, !clear_user_bit by lia. cbn [Z.eqb negb].
  change (0 =? 4) with false. change (1 =? 4) with false. change (4 =? 4) with true.
  by rewrite !andb_true_r, andb_false_r.
Qed.

Lemma flag_R_leaf v : pte_flag v PTE_R = true -> PTE_FLAGS v <> PTE_V.
Proof. intros HR E. rewrite flag_R, E in HR. done. Qed.

(** [uvmclear] takes a page from the user and changes nothing else. *)
Lemma uvmclear_wp pt G l m g :
  uspace kend m pt G l -> 0 <= g < TRAPFRAME -> g mod PGSIZE = 0 -> valid m pt g = true ->
  pte_flag (leaf_pte m pt g) PTE_R = true ->
  wp (uvmclear pt g) (fun _ m' => uspace kend m' pt G l /\ (forall q, owns m' pt G l q <-> owns m pt G l q) /\
    untouched (owns m pt G l) m m' /\ bytes m' = bytes m /\
    forall va, 0 <= va < MAXVA -> leaf_pte m' pt va =
      if decide (page_of va = g) then clear_user (leaf_pte m pt va) else leaf_pte m pt va) m.
Proof.
  intros Hu Hg Hga Hv HR. pose proof (page_of_id g Hga) as Hpg.
  destruct (us_table _ _ _ _ _ Hu) as [Hok Hfree Hpgs].
  destruct (leaf_walk pt m G g Hok ltac:(auto) Hv) as (t & Ht & Hw & Hne & Hat).
  unfold uvmclear. apply wp_bind. unfold wp at 1. rewrite Hw. rewrite (proj2 (Z.eqb_neq _ 0)) by done.
  apply wp_bind, wp_gets. rewrite Hat. apply wp_modify. fold (clear_user (leaf_pte m pt g)).
  fold (put_pte m (t + 8 * PX 0 g) (clear_user (leaf_pte m pt g))). set (m' := put_pte _ _ _).
  pose proof (PX_range 0 g ltac:(lia) ltac:(lia)) as Hi.
  assert (He : forall va, 0 <= va < MAXVA -> leaf_pte m' pt va =
    if decide (page_of va = g) then clear_user (leaf_pte m pt va) else leaf_pte m pt va).
  { intros va Hva. unfold m'. rewrite (leaf_pte_put _ _ _ Hok t g _ va Ht), Hpg by auto.
    case_decide as Hp; [|done]. by rewrite (leaf_pte_page m pt va), Hp by lia. }
  assert (Hvp : forall va, 0 <= va < TRAPFRAME -> valid m' pt va = valid m pt va /\ phys m' pt va = phys m pt va).
  { intros va Hva. unfold valid, phys. rewrite He by auto. case_decide; [|done].
    destruct (clear_user_flags (leaf_pte m pt va)) as (E1 & _ & _). by rewrite E1, clear_user_phys. }
  split_and!; try done.
  - destruct Hu as [_ U2 U3 U4]. split.
    + split; [by apply (ptok_put _ _ _ Hok t _ _ _ Ht)|done|done].
    + intros va Hva. destruct (Hvp va Hva) as [-> ->]. intros Hv'. destruct (U2 va Hva Hv') as (F1 & F2).
      split; [|done]. rewrite He by auto. case_decide as Hp; [|done]. apply flag_R_leaf.
      destruct (clear_user_flags (leaf_pte m pt va)) as (_ & -> & _). by rewrite leaf_pte_page, Hp by lia.
    + intros va Hva. destruct (Hvp va Hva) as [-> _]. intros Hv'. rewrite He by auto. case_decide as Hp; [|by apply U3].
      unfold valid in Hv, Hv'. rewrite leaf_pte_page, Hp in Hv' by lia. congruence.
    + intros va va' Hva Hva'. destruct (Hvp va Hva) as [-> ->], (Hvp va' Hva') as [-> ->]. by apply U4.
  - intros q. unfold owns. split; (intros [?|[?|(va & Hva & Hx)]]; [tauto..|]); right; right; exists va;
      destruct (Hvp va Hva) as [E1 E2]; [rewrite E1, E2 in Hx|rewrite E1, E2]; done.
  - split; [done|]. intros t' i' Ha' Hn' Hi'. apply (same_outside_put pt G m t _ _ _ Hok Ht); try done.
    destruct (G !! t') eqn:E; [|done]. destruct Hn'. right; left. by rewrite E.
Qed.

Lemma building_clear pt sz img m g :
  building pt sz (-1) img m -> 0 <= g < sz -> g mod PGSIZE = 0 ->
  wp (uvmclear pt g) (fun _ m' => building pt sz g img m') m.
Proof.
  intros [B1 B2 B3 B4 (G & l & Hu & Hs & Ho) B6 B7 B8] Hg Hga. pose proof PHYSTOP_TRAPFRAME as HPT.
  assert (HgT : 0 <= g < TRAPFRAME) by (unfold PGSIZE in *; lia). pose proof (page_of_id g Hga) as Hpg.
  eapply wp_mono; [apply (uvmclear_wp pt G l m g Hu HgT Hga); [rewrite Hs by done; apply bool_decide_true; lia|apply B8; (done || lia)]|].
  cbn beta. intros _ m' (Hu' & Ho' & Hout & Hb & He).
  assert (Htop : top_pages tramp tf m' pt).
  { destruct B3 as [T1 T2]. pose proof (low_page g HgT) as [L1 L2]. rewrite Hpg in L1, L2.
    split; rewrite He by (by vm_compute); rewrite decide_False; try done; by apply not_eq_sym. }
  split; [|by unfold bytes_ok; rewrite Hb|done|done| | |done|].
  - eapply untouched_trans; [exact B1|]. eapply untouched_mono; [|exact Hout]. apply Ho.
  - exists G, l. split_and!; [done| |intros q; by rewrite Ho'].
    intros va Hva. rewrite <-(Hs va Hva). unfold valid. rewrite He by auto. case_decide; [|done]. apply clear_user_flags.
  - intros a Ha. pose proof (page_bound a ltac:(auto)) as [Hp0 _]. pose proof (B6 a Ha) as Hva.
    rewrite (ubyte_user kend Hkend tramp tf Htr Htra Htf Htfa m' pt G l Hu' Htop) by auto.
    rewrite (ubyte_user kend Hkend tramp tf Htr Htra Htf Htfa m pt G l Hu B3) in Hva by auto.
    unfold user_page, valid, phys in *. rewrite He by auto. destruct (decide (page_of a = g)) as [Hp|Hp].
    + rewrite (bool_decide_false (page_of a < sz /\ page_of a <> g)) by lia.
      destruct (clear_user_flags (leaf_pte m pt a)) as (_ & _ & ->). by rewrite andb_false_r.
    + unfold byte_at in *. rewrite Hb. rewrite Hva.
      rewrite (bool_decide_ext (page_of a < sz /\ page_of a <> -1) (page_of a < sz /\ page_of a <> g)) by lia. done.
  - intros a Ha Hp. rewrite He by auto. case_decide; [|by apply B8].
    destruct (clear_user_flags (leaf_pte m pt a)) as (_ & -> & _). by apply B8.
Qed.

(** ** Copying to it *)

#[global] Instance uaccess_dec u va n : Decision (uaccess u va n).
Proof.
  destruct (decide (Forall (fun a => is_Some (ubyte u a)) (seqZ va n))) as [H|H]; [left|right].
  - intros a Ha. rewrite Forall_forall in H. apply H, elem_of_seqZ. lia.
  - intros Hu. apply H, Forall_forall. intros a Ha%elem_of_seqZ. apply Hu. lia.
Defined.

(** What a copy that succeeds puts in the memory. *)
Definition patch (va : Z) (src : list Z) (img : Z -> Z) (a : Z) : Z :=
  if decide (va <= a < va + Z.of_nat (length src)) then default 0 (src !! Z.to_nat (a - va)) else img a.

Lemma building_none pt sz g img m a :
  building pt sz g img m -> pgup sz <= a -> ubyte {| u_mem := m; u_pt := pt |} a = None.
Proof.
  intros B Ha. destruct (bd_space _ _ _ _ _ B) as (G & l & Hu & _). destruct (pgup_spec sz) as [P1 P2].
  pose proof (bd_sz _ _ _ _ _ B). destruct (decide (a < MAXVA)) as [Hm|Hm].
  2:{ unfold ubyte. by rewrite decide_False by lia. }
  destruct (decide (a < TRAPFRAME)) as [Ht|Ht].
  - rewrite (bd_view _ _ _ _ _ B) by lia. rewrite bool_decide_false; [done|]. intros [Hp _].
    apply page_lt_pgup in Hp. apply aligned_lt in Hp; [|apply page_of_aligned|done].
    unfold page_of in Hp. pose proof (Z.mod_pos_bound a PGSIZE PGSIZE_pos). lia.
  - rewrite (ubyte_user kend Hkend tramp tf Htr Htra Htf Htfa m pt G l Hu (bd_top _ _ _ _ _ B)) by lia.
    unfold user_page. rewrite (top_not_user tramp tf Htr Htra Htf Htfa m pt (bd_top _ _ _ _ _ B)) by lia. by rewrite andb_false_r.
Qed.

Lemma ubyte_dom m m' pt a :
  ptes m' = ptes m ->
  is_Some (ubyte {| u_mem := m'; u_pt := pt |} a) <-> is_Some (ubyte {| u_mem := m; u_pt := pt |} a).
Proof.
  intros E. unfold ubyte. cbn [u_mem u_pt]. case_decide; [|done]. cbv zeta. rewrite (xlate_ptes m m') by done.
  by case_if; [|split; eauto].
Qed.

Lemma building_copyout pt sz g img m va src :
  building pt sz g img m -> 0 <= va < 2 ^ 64 -> Forall byte_ok src ->
  wp (copyout pt va src) (fun ok m' =>
    if ok then building pt sz g (patch va src img) m'
    else (exists img', building pt sz g img' m') /\
      exists a, va <= a < va + Z.of_nat (length src) /\ ~ (0 <= a < TRAPFRAME /\ page_of a < sz /\ page_of a <> g)) m.
Proof.
  intros B Hva Hsrc. destruct (bd_space _ _ _ _ _ B) as (G & l & Hu & Hs & Ho).
  pose proof (uspace_uinv kend Hkend tramp tf Htr Htra Htf Htfa m pt G l Hu (bd_top _ _ _ _ _ B) (bd_bytes _ _ _ _ _ B)) as Hui.
  destruct (copyout_loop_spec (copy_fuel (Z.of_nat (length src))) {| u_mem := m; u_pt := pt |} va src) as (ok & m' & Hrun & Hui' & _ & Hpt & Hok & Hfail);
    [done|done|done|right; apply copy_fuel_enough; lia|]. cbn [u_mem u_pt] in *.
  destruct (copyout_loop_frame _ _ _ _ _ _ _ Hva Hrun) as (_ & Hkm & Hfr).
  unfold copyout, wp. rewrite Hrun. set (u := {| u_mem := m; u_pt := pt |}) in *. set (u' := {| u_mem := m'; u_pt := pt |}) in *.
  assert (Hout : untouched (fun q => q ∈ l0) m m').
  { split; [|intros t i _ _ _; unfold pte_at; by rewrite Hpt]. intros p x Hp Hn Hx. apply Hfr. intros a Ha Hxl.
    rewrite (user_xlate kend m pt G l Hu) in Hxl |- * by done. destruct (user_page m pt a) eqn:E; [|done].
    destruct (user_page_ok kend Hkend tramp tf Htr Htra Htf Htfa m pt G l Hu (bd_top _ _ _ _ _ B) a Ha E) as (H1 & H2 & [H3 _] & _).
    apply (in_page_disjoint p); try done. intros ->. apply Hn, Ho. right; right. exists a. split_and!; (done || lia). }
  assert (Hget : forall img', (forall a, 0 <= a < TRAPFRAME -> ubyte u' a =
      if bool_decide (page_of a < sz /\ page_of a <> g) then Some (img' a) else None) ->
    (forall a, pgup sz <= a -> img' a = 0) -> building pt sz g img' m').
  { intros img' H1 H2. apply (building_bytes pt sz g img img' m m'); try done. apply Hui'. }
  destruct (decide (uaccess u va (Z.of_nat (length src)))) as [Ha|Ha].
  - destruct (Hok Ha) as [-> Hb]. apply Hget.
    + intros a Har. rewrite Hb. unfold patch. case_decide as Hr; [|by apply B].
      destruct (Ha a Hr) as [v Hv]. pose proof (bd_view _ _ _ _ _ B a Har) as Hview. fold u in Hview. rewrite Hv in Hview.
      case_bool_decide; [|done]. destruct (lookup_lt_is_Some_2 src (Z.to_nat (a - va))) as [w ->]; [lia|done].
    + intros a Hz. unfold patch. case_decide as Hr; [|by apply B]. destruct (Ha a Hr) as [v Hv].
      unfold u in Hv. by rewrite (building_none pt sz g img m a B Hz) in Hv.
  - rewrite (Hfail Ha). split.
    2:{ destruct (decide (Exists (fun a => ~ (0 <= a < TRAPFRAME /\ page_of a < sz /\ page_of a <> g)) (seqZ va (Z.of_nat (length src)))))
          as [He|He]; [apply Exists_exists in He as (a & ?%elem_of_seqZ & ?); eauto|]. destruct Ha. intros a Hr.
        destruct (decide (0 <= a < TRAPFRAME /\ page_of a < sz /\ page_of a <> g)) as [(H1 & H2)|Hn].
        - unfold u. rewrite (bd_view _ _ _ _ _ B) by done. rewrite bool_decide_true by done. eauto.
        - destruct He. apply Exists_exists. exists a. split; [apply elem_of_seqZ; lia|done]. }
    exists (fun a => default 0 (ubyte u' a)). apply Hget.
    + intros a Har. pose proof (ubyte_dom m m' pt a Hpt) as Hd. rewrite (bd_view _ _ _ _ _ B a Har) in Hd. fold u' in Hd.
      destruct (bool_decide _); destruct (ubyte u' a) eqn:E; try done; exfalso; [apply (is_Some_None (A := Z)); rewrite Hd; eauto|].
      destruct (proj1 Hd) as [? ?]; [eauto|done].
    + intros a Hz. pose proof (ubyte_dom m m' pt a Hpt) as Hd. rewrite (building_none pt sz g img m a B Hz) in Hd. fold u' in Hd.
      destruct (ubyte u' a); [|done]. destruct (proj1 Hd) as [? ?]; [eauto|done].
Qed.

(** ** The arguments *)

(** The string [s] at address [a], between [lo] and [hi]. *)
Definition string_at (img : Z -> Z) (lo hi : Z) (s : list Z) (a : Z) : Prop :=
  lo <= a /\ a + Z.of_nat (length s) + 1 <= hi /\ a mod 16 = 0 /\
  forall i, (i <= length s)%nat -> Some (img (a + Z.of_nat i)) = (s ++ [0]) !! i.

Lemma string_at_patch img lo lo' hi s a va src :
  string_at img lo hi s a -> va + Z.of_nat (length src) <= lo -> lo' <= lo -> string_at (patch va src img) lo' hi s a.
Proof.
  intros (H1 & H2 & H3 & H4) Hle Hlo. split_and!; [lia|done|done|]. intros i Hi. rewrite <-H4 by done.
  unfold patch. by rewrite decide_False by lia.
Qed.

Lemma string_at_new img hi s a :
  a + Z.of_nat (length s) + 1 <= hi -> a mod 16 = 0 -> string_at (patch a (s ++ [0]) img) a hi s a.
Proof.
  intros Hhi Hal. split_and!; [lia|done|done|]. intros i Hi. unfold patch. rewrite length_app. cbn [length].
  rewrite decide_True by lia. replace (Z.to_nat (a + Z.of_nat i - a)) with i by lia.
  destruct (lookup_lt_is_Some_2 (s ++ [0]) i) as [v ->]; [rewrite length_app; cbn; lia|done].
Qed.

Definition arg_ok (s : list Z) : Prop := Z.of_nat (length s) < PGSIZE /\ Forall byte_ok s.

Lemma down16 x : 0 <= x -> (x - x mod 16) mod 16 = 0 /\ 0 <= x - x mod 16 <= x.
Proof.
  intros Hx. pose proof (Z.mod_pos_bound x 16 ltac:(lia)). pose proof (Z.div_mod x 16 ltac:(lia)). split; [|lia].
  replace (x - x mod 16) with (x / 16 * 16) by lia. by apply Z.mod_mul.
Qed.

Section args.
Context (pt sz g : Z) (Hsz : 2 * PGSIZE <= sz) (Hsza : sz mod PGSIZE = 0) (Hg : g < sz - PGSIZE).

Lemma stack_access img m va n a :
  building pt sz g img m -> sz - PGSIZE <= va -> va + n <= sz -> va <= a < va + n ->
  0 <= a < TRAPFRAME /\ page_of a < sz /\ page_of a <> g.
Proof.
  intros B Hva Hn Ha. pose proof (bd_sz _ _ _ _ _ B). pose proof PHYSTOP_TRAPFRAME.
  split; [unfold PGSIZE in *; lia|]. destruct (page_of_same (sz - PGSIZE) a) as [-> _];
    rewrite page_of_id by (by rewrite Zminus_mod, Hsza, Z_mod_same_full); unfold PGSIZE in *; lia.
Qed.

(** The strings [done] are on the stack from [sp] on. *)
Definition stacked (img0 img : Z -> Z) (sp : Z) (done : list (list Z)) (us : list Z) : Prop :=
  sz - PGSIZE <= sp <= sz /\ Forall2 (string_at img sp sz) done us /\
  forall a, ~ (sp <= a < sz) -> img a = img0 a.

Lemma push_args_wp argv img0 img m sp done us :
  building pt sz g img m -> stacked img0 img sp done us -> Forall arg_ok argv ->
  wp (push_args pt (sz - PGSIZE) argv sp us) (fun o m' =>
    match o with
    | None => (exists img', building pt sz g img' m') /\
        ((length us + length argv < MAXARG)%nat -> push_sp (sz - PGSIZE) sp argv = None)
    | Some (sp', us') => push_sp (sz - PGSIZE) sp argv = Some sp' /\
        exists img', building pt sz g img' m' /\ stacked img0 img' sp' (done ++ argv) us'
    end) m.
Proof.
  revert img m sp done us. induction argv as [|s argv IH]; intros img m sp done us B Hst Hargs; cbn [push_args].
  { apply wp_ret. split; [done|]. exists img. by rewrite app_nil_r. }
  apply Forall_cons in Hargs as [[Hs Hsb] Hargs]. destruct (Nat.leb_spec MAXARG (length us)).
  { apply wp_ret. split; [eauto|]. cbn [length]. lia. }
  destruct Hst as (Hsp & Hstr & Hold). pose proof (bd_sz _ _ _ _ _ B) as Hph. change PHYSTOP with 0x88000000 in Hph.
  rewrite u64_small by (unfold PGSIZE in *; lia). set (sp1 := sp - (Z.of_nat (length s) + 1)).
  destruct (down16 sp1) as [Hal Hdn]; [unfold sp1, PGSIZE in *; lia|]. set (sp2 := sp1 - sp1 mod 16) in *.
  cbn [push_sp]. change (down sp (Z.of_nat (length s) + 1)) with sp2.
  destruct (Z.ltb_spec sp2 (sz - PGSIZE)) as [Hlo|Hlo]; [apply wp_ret; eauto|].
  wp_use (building_copyout pt sz g img m sp2 (s ++ [0]) B);
    [unfold sp1, PGSIZE in *; lia|apply Forall_app; split; [done|repeat constructor; unfold byte_ok; lia]|].
  intros ok m1 B1. destruct ok; cbn [negb].
  2:{ destruct B1 as [_ (a & Ha & Hn)]. destruct Hn. apply (stack_access img m sp2 (Z.of_nat (length (s ++ [0]))) a B);
        [done|rewrite length_app; cbn [length]; unfold sp1 in *; lia|done]. }
  eapply wp_mono; [apply (IH (patch sp2 (s ++ [0]) img) m1 sp2 (done ++ [s]) (us ++ [sp2]) B1); [|done]|].
  - assert (Hlen : Z.of_nat (length (s ++ [0])) = Z.of_nat (length s) + 1) by (rewrite length_app; cbn; lia).
    split_and!; [lia|lia| |].
    + apply Forall2_app; [|constructor; [apply string_at_new; [unfold sp1 in *; lia|done]|constructor]].
      eapply Forall2_impl; [exact Hstr|]. intros x a Hx. eapply string_at_patch; [exact Hx|unfold sp1 in *; lia..].
    + intros a Ha. rewrite <-Hold by (unfold sp1 in *; lia). unfold patch. rewrite Hlen.
      by rewrite decide_False by (unfold sp1 in *; lia).
  - cbn beta. intros [[sp' us']|] m2; [by rewrite <-app_assoc|]. rewrite length_app. cbn [length].
    intros [H1 H2]. split; [done|]. intros H3. apply H2. lia.
Qed.

(** The words [ws] at [sp]. *)
Definition words_at (img : Z -> Z) (sp : Z) (ws : list Z) : Prop :=
  forall j w i, ws !! j = Some w -> (i < 8)%nat -> Some (img (sp + 8 * Z.of_nat j + Z.of_nat i)) = le_enc 8 w !! i.

Lemma words_length ws : length (mjoin (le_enc 8 <$> ws)) = (8 * length ws)%nat.
Proof.
  induction ws as [|w ws IH]; [done|].
  change (mjoin (le_enc 8 <$> w :: ws)) with (le_enc 8 w ++ mjoin (le_enc 8 <$> ws)).
  rewrite length_app, IH, le_enc_length. cbn. lia.
Qed.

Lemma words_lookup ws j w i :
  ws !! j = Some w -> (i < 8)%nat -> mjoin (le_enc 8 <$> ws) !! (8 * j + i)%nat = le_enc 8 w !! i.
Proof.
  revert j. induction ws as [|x ws IH]; intros [|j] Hj Hi; try done;
    change (mjoin (le_enc 8 <$> x :: ws)) with (le_enc 8 x ++ mjoin (le_enc 8 <$> ws)).
  - injection Hj as ->. rewrite lookup_app_l; [done|rewrite le_enc_length; lia].
  - rewrite lookup_app_r by (rewrite le_enc_length; lia). rewrite le_enc_length.
    replace (8 * S j + i - 8)%nat with (8 * j + i)%nat by lia. by apply IH.
Qed.

Lemma words_at_new img sp ws : words_at (patch sp (mjoin (le_enc 8 <$> ws)) img) sp ws.
Proof.
  intros j w i Hj Hi. pose proof (lookup_lt_Some _ _ _ Hj). unfold patch. rewrite words_length, decide_True by lia.
  replace (Z.to_nat (sp + 8 * Z.of_nat j + Z.of_nat i - sp)) with (8 * j + i)%nat by lia. rewrite (words_lookup ws j w i) by done.
  destruct (lookup_lt_is_Some_2 (le_enc 8 w) i) as [v ->]; [rewrite le_enc_length; lia|done].
Qed.

(** The memory of a process that starts: its arguments on the stack page, and
    [img0] everywhere else. *)
Definition arguments (img0 img : Z -> Z) (sp : Z) (argv : list (list Z)) : Prop :=
  sz - PGSIZE <= sp <= sz /\ sp mod 16 = 0 /\
  (exists us, Forall2 (string_at img sp sz) argv us /\ words_at img sp (us ++ [0])) /\
  forall a, ~ (sp <= a < sz) -> img a = img0 a.

Lemma push_argv_wp argv img m :
  building pt sz g img m -> Forall arg_ok argv -> (length argv < MAXARG)%nat ->
  wp (push_argv pt (sz - PGSIZE) argv sz) (fun o m' =>
    argv_sp (sz - PGSIZE) sz argv = o /\ exists img', building pt sz g img' m' /\
    match o with
    | None => True
    | Some sp => arguments img img' sp argv
    end) m.
Proof.
  intros B Hargs Hn. unfold push_argv. wp_use (push_args_wp argv img img m sz [] [] B); [|done|].
  { split_and!; try done; unfold PGSIZE; lia. }
  unfold argv_sp. intros [[sp us]|] m1; [|intros [[img1 B1] E]; apply wp_ret; rewrite E by (cbn; lia); eauto].
  intros (-> & img1 & B1 & Hsp & Hstr & Hold). cbn [app mbind option_bind] in *.
  pose proof (Forall2_length _ _ _ Hstr) as Hlen. rewrite (proj2 (Nat.leb_gt _ _)) by lia. unfold MAXARG in Hn.
  pose proof (bd_sz _ _ _ _ _ B) as Hph. change PHYSTOP with 0x88000000 in Hph.
  rewrite u64_small by (unfold PGSIZE in *; lia). set (sp1 := sp - (Z.of_nat (length us) + 1) * 8).
  destruct (down16 sp1) as [Hal Hdn]; [unfold sp1, PGSIZE in *; lia|]. set (sp2 := sp1 - sp1 mod 16) in *.
  rewrite Hlen. change (down sp ((Z.of_nat (length us) + 1) * 8)) with sp2.
  destruct (Z.ltb_spec sp2 (sz - PGSIZE)) as [Hlo|Hlo]; [apply wp_ret; eauto|].
  wp_use (building_copyout pt sz g img1 m1 sp2 (mjoin (le_enc 8 <$> (us ++ [0]))) B1); [unfold sp1, PGSIZE in *; lia| |].
  { apply Forall_join, Forall_fmap, Forall_true. intros w. apply le_enc_bytes. }
  assert (Hl : Z.of_nat (length (mjoin (le_enc 8 <$> (us ++ [0])))) = (Z.of_nat (length us) + 1) * 8)
    by (rewrite words_length, length_app; cbn; lia).
  intros ok m2 B2. destruct ok; cbn [negb]; apply wp_ret.
  2:{ destruct B2 as [_ (a & Ha & Hn')]. destruct Hn'. rewrite Hl in Ha.
      apply (stack_access img1 m1 sp2 ((Z.of_nat (length us) + 1) * 8) a B1); unfold sp1 in *; lia. }
  split; [done|]. eexists. split; [exact B2|].
  split_and!; [lia|lia|done|exists us; split; [|apply words_at_new]|].
  - eapply Forall2_impl; [exact Hstr|]. intros s a Hs. eapply string_at_patch; [exact Hs|unfold sp1 in *; lia..].
  - intros a Ha. rewrite <-Hold by (unfold sp1 in *; lia). unfold patch. by rewrite decide_False by (unfold sp1 in *; lia).
Qed.
End args.

End build.

(** ** Loading the segments *)

(** The bytes [[va + i, va + n)] of the memory come from the file. *)
Definition overlay (c : list Z) (off va i n : Z) (img : Z -> Z) (a : Z) : Z :=
  if decide (va + i <= a < va + n) then default 0 (c !! Z.to_nat (off + (a - va))) else img a.

Lemma overlay_step c off va i n k kb img a :
  0 <= off -> 0 <= i -> i + k <= n -> 0 <= k -> off + i + k <= Z.of_nat (length c) ->
  kb = slice (Z.to_nat (off + i)) (Z.to_nat k) c ->
  overlay c off va (i + k) n
    (fun a => if decide (va + i <= a < va + i + Z.of_nat (length kb)) then default 0 (kb !! Z.to_nat (a - (va + i)))
              else img a) a = overlay c off va i n img a.
Proof.
  intros H0 Hi Hk Hk0 Hle ->. unfold overlay. rewrite slice_length by lia. rewrite Z2Nat.id by lia.
  destruct (decide (va + (i + k) <= a < va + n)), (decide (va + i <= a < va + n)); try lia; try done.
  - rewrite decide_True by lia. rewrite lookup_slice by lia. do 2 f_equal. lia.
  - rewrite decide_False by lia. done.
Qed.

(** The program headers of a file, as [exec] reads them. *)
Definition header (c : list Z) (off : Z) : option proghdr :=
  if decide (off + PROGHDR_SIZE <= Z.of_nat (length c))
  then Some (dec_proghdr (slice (Z.to_nat off) (Z.to_nat PROGHDR_SIZE) c)) else None.
Fixpoint headers (c : list Z) (n : nat) (off : Z) : option (list proghdr) :=
  match n with
  | O => Some []
  | S n => ph ← header c (u32 off); phs ← headers c n (s32 (off + PROGHDR_SIZE)); Some (ph :: phs)
  end.

(** What they describe: the segments one after the other, on zeros. *)
Definition add_seg (c : list Z) (img : Z -> Z) (ph : proghdr) : Z -> Z :=
  if decide (ptype ph = ELF_PROG_LOAD) then overlay c (u32 (poff ph)) (vaddr ph) 0 (filesz ph) img else img.
Definition add_size (sz : Z) (ph : proghdr) : Z :=
  if decide (ptype ph = ELF_PROG_LOAD) then Z.max sz (vaddr ph + memsz ph) else sz.
Definition seg_ok (c : list Z) (ph : proghdr) : Prop :=
  ptype ph = ELF_PROG_LOAD ->
  filesz ph <= memsz ph /\ vaddr ph + memsz ph < 2 ^ 64 /\ vaddr ph mod PGSIZE = 0 /\
  (0 < filesz ph -> u32 (poff ph) + filesz ph <= Z.of_nat (length c)).

(** A segment of no bytes at address 0 is refused too, when it is the first. *)
Definition nonempty (ph : proghdr) : Prop := ptype ph = ELF_PROG_LOAD -> 0 < vaddr ph + memsz ph.

Lemma foldl_seg_ext c phs img img' a :
  (forall a, img a = img' a) -> foldl (add_seg c) img phs a = foldl (add_seg c) img' phs a.
Proof.
  revert img img'. induction phs as [|ph phs IH]; intros img img' E; cbn [foldl]; [done|].
  apply IH. intros x. unfold add_seg. case_decide; [|done]. unfold overlay. case_decide; [done|]. apply E.
Qed.

Section load.
Context {F : Type} `{XL : ExecFilesLaws F}.
Context (kend : Z) (Hkend : 0 < kend) (tramp tf : Z).
Context (Htr : 0 <= tramp < 2 ^ 56) (Htra : tramp mod PGSIZE = 0) (Htf : 0 <= tf < 2 ^ 56) (Htfa : tf mod PGSIZE = 0).
Context (m0 : vmem) (l0 : list Z) (k : kernel F) (pt : Z) (files : list Z -> option (list Z)) (ip : nat) (c : list Z).
Notation building := (building kend tramp tf m0 l0 pt).

Lemma load_bytes_ok m a n : bytes_ok m -> Forall byte_ok (load_bytes m a n).
Proof.
  intros Hb. apply Forall_forall. intros v Hv. apply list_elem_of_In, in_map_iff in Hv as (x & <- & _).
  unfold byte_at. destruct (bytes m !! x) eqn:E; [by eapply Hb|]. cbn. unfold byte_ok. lia.
Qed.

Lemma loadseg_loop_wp fuel va off n i sz img m f :
  building sz (-1) img m -> xf_open files ip c f -> 0 <= va -> va mod PGSIZE = 0 -> va + n <= sz ->
  0 <= off < 2 ^ 32 -> 0 <= i -> i mod PGSIZE = 0 -> n <= i \/ i = 0 \/ off + i <= Z.of_nat (length c) ->
  n <= i + (Z.of_nat fuel - 1) * PGSIZE -> (0 < fuel)%nat ->
  wpK (loadseg_loop fuel pt va ip off n i) (fun ok m' f' => xf_open files ip c f' /\ vkm m' = vkm m /\
    exists img', building sz (-1) img' m' /\
    if ok : bool then (i < n -> off + n <= Z.of_nat (length c)) /\ forall a, img' a = overlay c off va i n img a
    else i < n /\ Z.of_nat (length c) < off + n) k m f.
Proof.
  revert i img m f. induction fuel as [|fuel IH]; intros i img m f B Ho Hva Hvaa Hsz Hoff Hi Hia Hinv Hf Hf0; [lia|].
  cbn [loadseg_loop]. destruct (Z.ltb_spec i n) as [Hlt|Hge].
  2:{ apply wpK_ret. split_and!; [done..|]. exists img. split; [done|]. split; [lia|]. intros a. unfold overlay.
      by rewrite decide_False by lia. }
  pose proof (bd_sz _ _ _ _ _ _ _ _ _ _ B) as Hph. change PHYSTOP with 0x88000000 in Hph.
  destruct (xf_size files ip c f Ho) as [Hc Hcb].
  assert (Hal : (va + i) mod PGSIZE = 0) by (by rewrite Z.add_mod, Hvaa, Hia by done).
  assert (Eo : u32 (off + i) = off + i) by (apply u32_small; destruct Hinv as [?|[->|?]]; lia).
  rewrite (u64_small (va + i)), Eo, (u32_small (n - i)), (u32_small (i + PGSIZE)) by (unfold PGSIZE; lia).
  destruct (building_xlate kend Hkend tramp tf Htr Htra Htf Htfa m0 l0 pt sz (-1) img m (va + i) B) as [Hx _]; [lia|done|lia|lia|].
  apply wpK_bind, wpK_mem. unfold wp. rewrite walkaddr_xlate. rewrite (proj2 (Z.eqb_neq _ 0)) by done.
  set (ch := if n - i <? PGSIZE then n - i else PGSIZE).
  assert (Hch : ch = Z.min (n - i) PGSIZE) by (unfold ch; destruct (Z.ltb_spec (n - i) PGSIZE); lia).
  assert (Hch0 : 0 < ch <= PGSIZE) by (unfold PGSIZE in *; lia).
  apply wpK_bind, wpK_mem, wp_gets. apply wpK_bind, wpK_files. fold ch.
  eapply wp_mono; [apply (xf_read files ip c (off + i) ch _ f Ho); [lia|unfold PGSIZE in *; lia|apply load_bytes_length|apply load_bytes_ok, B]|].
  cbn beta. intros [r kb] f' (Ho' & Hlen & Hkb & Hr & Hiff & Hgot). rewrite load_bytes_length in Hlen.
  pose proof (building_store kend Hkend tramp tf Htr Htra Htf Htfa m0 l0 pt sz (-1) img m (va + i) kb B
    ltac:(lia) Hal ltac:(lia) ltac:(lia) ltac:(lia) Hkb) as B'.
  apply wpK_bind, wpK_mem, wp_modify.
  destruct (decide (r = ch)) as [->|Hne].
  - rewrite u32_small, Z.eqb_refl by (unfold PGSIZE in *; lia). cbn [negb].
    pose proof (proj1 Hiff eq_refl) as Hle. specialize (Hgot eq_refl).
    eapply wpK_mono; [apply (IH (i + PGSIZE) _ _ f' B' Ho' Hva Hvaa Hsz Hoff); try (unfold PGSIZE in *; lia)|].
    { by rewrite Z.add_mod, Hia, Z_mod_same_full by done. }
    cbn beta. intros ok m' f'' (Ho'' & Hk'' & img' & B'' & Hok). split_and!; [done..|]. exists img'. split; [done|].
    destruct ok; [|unfold PGSIZE in *; lia]. destruct Hok as [H1 H2]. split; [unfold PGSIZE in *; lia|]. intros a. rewrite H2.
    rewrite <-(overlay_step c off va i n ch kb img a) by (done || lia || auto).
    unfold overlay. assert (Hcase : ch = PGSIZE \/ i + ch = n /\ n <= i + PGSIZE) by lia.
    destruct Hcase as [->|[Hn Hn']]; [done|].
    destruct (decide (va + (i + PGSIZE) <= a < va + n)), (decide (va + (i + ch) <= a < va + n)); (lia || done).
  - rewrite (proj2 (Z.eqb_neq _ _)). 2:{ intros E. apply Hne. unfold u32 in E. unfold PGSIZE in *.
      destruct (decide (0 <= r)); [rewrite Z.mod_small in E; lia|].
      rewrite <-(Z.mod_add r 1), Z.mod_small in E by lia. lia. }
    cbn [negb]. apply wpK_ret. split_and!; [done..|]. eexists. split; [exact B'|]. lia.
Qed.

Lemma loadseg_wp va off n sz img m f :
  building sz (-1) img m -> xf_open files ip c f -> 0 <= va -> va mod PGSIZE = 0 -> va + n <= sz -> 0 <= n ->
  0 <= off < 2 ^ 32 ->
  wpK (loadseg pt va ip off n) (fun ok m' f' => xf_open files ip c f' /\ vkm m' = vkm m /\
    exists img', building sz (-1) img' m' /\
    if ok : bool then (0 < n -> off + n <= Z.of_nat (length c)) /\ forall a, img' a = overlay c off va 0 n img a
    else 0 < n /\ Z.of_nat (length c) < off + n) k m f.
Proof.
  intros B Ho Hva Hvaa Hsz Hn Hoff. apply loadseg_loop_wp; try done; [auto| |lia].
  pose proof (Z.div_mod n PGSIZE ltac:(done)). pose proof (Z.mod_pos_bound n PGSIZE PGSIZE_pos).
  assert (0 <= n / PGSIZE) by (apply Z.div_pos; lia). unfold PGSIZE in *. lia.
Qed.

Lemma field_range off n l : Forall byte_ok l -> 0 <= field off n l < 256 ^ Z.of_nat n.
Proof.
  intros Hl. unfold field. pose proof (le_dec_range (slice off n l) (slice_Forall _ _ _ _ Hl)) as Hr.
  split; [lia|]. eapply Z.lt_le_trans; [apply Hr|]. apply Z.pow_le_mono_r; [lia|].
  unfold slice. rewrite length_take. lia.
Qed.

Lemma flags2perm_range fl : 0 <= flags2perm fl < 1024.
Proof. unfold flags2perm. by repeat case_if. Qed.

(** What the loop over the headers leaves: the segments, or, when a header is
    bad or the memory is too small for them, a part of them. *)
Definition loaded (n : nat) (off sz : Z) (img : Z -> Z) (mi : vmem) (r : Z * bool) (m : vmem) (f : F) : Prop :=
  xf_open files ip c f /\ exists img', building r.1 (-1) img' m /\
    if r.2 then exists phs, headers c n off = Some phs /\ r.1 = foldl add_size sz phs /\
       (forall a, img' a = foldl (add_seg c) img phs a) /\ Forall (seg_ok c) phs /\
       forall b, spare kend mi b -> spare kend m (b - 3 * (pgup r.1 - pgup sz))
    else forall phs b, headers c n off = Some phs -> Forall (seg_ok c) phs -> Forall nonempty phs -> spare kend mi b ->
       b < 3 * (pgup (foldl add_size sz phs) - pgup sz).

Lemma add_size_le phs sz : sz <= foldl add_size sz phs.
Proof.
  revert sz. induction phs as [|ph phs IH]; intros sz; cbn [foldl]; [lia|]. etrans; [|apply IH].
  unfold add_size. case_decide; lia.
Qed.

Lemma loaded_cons n off sz img ph sz1 img1 mi m1 r m f :
  header c (u32 off) = Some ph -> sz1 = add_size sz ph -> (forall a, img1 a = add_seg c img ph a) -> seg_ok c ph ->
  (forall b, spare kend mi b -> spare kend m1 (b - 3 * (pgup sz1 - pgup sz))) ->
  loaded n (s32 (off + PROGHDR_SIZE)) sz1 img1 m1 r m f -> loaded (S n) off sz img mi r m f.
Proof.
  intros Hhd -> Himg Hok Hsp (Ho' & img' & B' & Hp). split; [done|]. exists img'. split; [done|]. cbn [headers]. rewrite Hhd.
  cbn [mbind option_bind]. destruct r.2.
  - destruct Hp as (phs & H1 & H2 & H3 & H4 & H5). exists (ph :: phs). rewrite H1. split_and!; [done|done| | |].
    + intros a. rewrite H3. cbn [foldl]. by apply foldl_seg_ext.
    + by constructor.
    + intros b Hb. apply Hsp, H5 in Hb. by replace (b - _ - _) with (b - 3 * (pgup r.1 - pgup sz)) in Hb by lia.
  - intros phs b Hh Hall Hne Hb. destruct (headers c n _) as [phs'|] eqn:E; [|done]. injection Hh as <-.
    apply Forall_cons in Hall as [_ Hall], Hne as [_ Hne]. cbn [foldl]. pose proof (Hp phs' _ eq_refl Hall Hne (Hsp b Hb)). lia.
Qed.

Lemma loaded_bad n off sz img mi sz1 img1 m f :
  building sz1 (-1) img1 m -> xf_open files ip c f ->
  (forall phs b, headers c n off = Some phs -> Forall (seg_ok c) phs -> Forall nonempty phs -> spare kend mi b ->
     b < 3 * (pgup (foldl add_size sz phs) - pgup sz)) -> loaded n off sz img mi (sz1, false) m f.
Proof. intros B Ho Hno. split; [done|]. by exists img1. Qed.

(** The first header is one that [exec] refuses, or there is no memory for it. *)
Lemma headers_cons n off ph phs :
  header c (u32 off) = Some ph -> headers c (S n) off = Some phs -> exists phs', phs = ph :: phs'.
Proof. intros Hh. cbn [headers]. rewrite Hh. cbn [mbind option_bind]. destruct (headers _ _ _); [|done]. intros [= <-]. eauto. Qed.

Lemma load_loop_wp n off sz img m f :
  building sz (-1) img m -> xf_open files ip c f -> wpK (load_loop kend n pt ip off sz) (loaded n off sz img m) k m f.
Proof.
  revert off sz img m f. induction n as [|n IH]; intros off sz img m f B Ho; cbn [load_loop].
  { apply wpK_ret. split; [done|]. exists img. split; [done|]. exists []. split_and!; try done. intros b Hb.
    by replace (b - _) with b by (cbn; lia). }
  destruct (xf_size files ip c f Ho) as [Hc Hcb].
  apply wpK_bind, wpK_files. eapply wp_mono; [apply (xf_read files ip c (u32 off) PROGHDR_SIZE _ f Ho); try done|].
  { apply u32_range. }
  { by apply Forall_replicate; unfold byte_ok. }
  cbn beta. intros [r kb] f1 (Ho1 & _ & _ & _ & Hiff & Hgot).
  destruct (Z.eqb_spec r PROGHDR_SIZE) as [->|Hne]; cbn [negb].
  2:{ apply wpK_ret. apply (loaded_bad _ _ _ _ _ sz img); try done. intros phs b. cbn [headers]. unfold header.
      rewrite decide_False by (rewrite <-Hiff; done). done. }
  rewrite (Hgot eq_refl). pose proof (proj1 Hiff eq_refl) as Hle. set (ph := dec_proghdr _).
  assert (Hhd : header c (u32 off) = Some ph) by (unfold header; by rewrite decide_True).
  assert (Hfr : 0 <= vaddr ph < 2 ^ 64 /\ 0 <= memsz ph < 2 ^ 64 /\ 0 <= filesz ph < 2 ^ 64).
  { split_and!; apply (field_range _ 8); by apply slice_Forall. }
  assert (Hbad : ptype ph = ELF_PROG_LOAD -> forall sz1 img1 m1 f1, building sz1 (-1) img1 m1 -> xf_open files ip c f1 ->
    (forall b, seg_ok c ph -> nonempty ph -> spare kend m b -> b < 3 * (pgup (add_size sz ph) - pgup sz)) ->
    wpK (ret (sz1, false)) (loaded (S n) off sz img m) k m1 f1).
  { intros Et sz1 img1 m1 f2 B1 Ho2 Hno. apply wpK_ret, (loaded_bad _ _ _ _ _ sz1 img1); try done. intros phs b Hh Hall Hne Hb.
    destruct (headers_cons n off ph phs Hhd Hh) as [phs' ->]. apply Forall_cons in Hall as [Hok _], Hne as [Hnz _].
    specialize (Hno b Hok Hnz Hb).
    cbn [foldl]. pose proof (pgup_mono _ _ (add_size_le phs' (add_size sz ph))). lia. }
  clearbody ph. destruct (Z.eqb_spec (ptype ph) ELF_PROG_LOAD) as [Et|Et]; cbn [negb].
  2:{ eapply wpK_mono; [by apply (IH _ sz img)|]. intros a m' f'. apply (loaded_cons n off sz img ph sz img m m); try done.
      - unfold add_size. by rewrite decide_False.
      - intros x. unfold add_seg. by rewrite decide_False.
      - intros b Hb. by replace (b - _) with b by lia. }
  specialize (Hbad Et). pose proof (fun H : seg_ok c ph => H Et) as Hseg.
  destruct (Z.ltb_spec (memsz ph) (filesz ph)) as [|Hfm]; [eapply Hbad; [done..|]; intros ? ?%Hseg; lia|].
  destruct (Z.ltb_spec (u64 (vaddr ph + memsz ph)) (vaddr ph)) as [Hw|Hw].
  { eapply Hbad; [done..|]. intros b ?%Hseg. rewrite u64_small in Hw by lia. lia. }
  assert (Hvm : vaddr ph + memsz ph < 2 ^ 64).
  { destruct (decide (vaddr ph + memsz ph < 2 ^ 64)); [done|]. unfold u64 in Hw.
    rewrite <-(Z.mod_add _ (-1)), Z.mod_small in Hw by lia. lia. }
  destruct (Z.eqb_spec (vaddr ph mod PGSIZE) 0) as [Hal|]; cbn [negb];
    [|eapply Hbad; [done..|]; intros ? ?%Hseg; lia].
  rewrite u64_small by lia. apply wpK_bind, wpK_mem.
  eapply wp_mono; [apply (building_alloc kend Hkend tramp tf Htr Htra Htf Htfa m0 l0 pt sz img m); [done|lia|apply flags2perm_range]|].
  cbn beta. intros sz1 m1 Hsz1. destruct (Z.eqb_spec sz1 0) as [->|Hnz].
  { destruct Hsz1 as [(_ & B1 & Hno)|(E & B1 & _)].
    - eapply Hbad; [done..|]. intros b _ _ Hb. apply Hno in Hb. unfold add_size. by rewrite decide_True.
    - pose proof (bd_sz _ _ _ _ _ _ _ _ _ _ B). assert (sz = 0) as -> by lia. eapply Hbad; [done..|]. intros b _ Hnz%(fun H => H Et). lia. }
  destruct Hsz1 as [(-> & _)|(Esz & B1 & Hsp)]; [done|]. pose proof (bd_sz _ _ _ _ _ _ _ _ _ _ B1) as Hph.
  change PHYSTOP with 0x88000000 in Hph. rewrite (u32_small (filesz ph)) by lia.
  apply wpK_bind. eapply wpK_mono; [apply (loadseg_wp (vaddr ph) (u32 (poff ph)) (filesz ph) sz1 img m1 f1 B1 Ho1);
    (done || lia || apply u32_range)|].
  cbn beta. intros ok m2 f2 (Ho2 & Hk2 & img2 & B2 & Hok). destruct ok; cbn [negb];
    [|eapply Hbad; [done..|]; intros ? ?%Hseg; lia].
  destruct Hok as [Hlen Himg]. eapply wpK_mono; [by apply (IH _ sz1 img2)|].
  intros a m' f'. apply (loaded_cons n off sz img ph sz1 img2 m m2); [done| | |by intros _|].
  - unfold add_size. by rewrite decide_True.
  - intros x. unfold add_seg. by rewrite decide_True.
  - intros b Hb%Hsp. unfold spare. by rewrite Hk2.
Qed.
End load.

(** ** The process *)

(** A file as [exec] sees it. *)
Definition program (c : list Z) : option (elfhdr * list proghdr) :=
  if decide (ELFHDR_SIZE <= Z.of_nat (length c)) then
    let elf := dec_elfhdr (slice 0 (Z.to_nat ELFHDR_SIZE) c) in
    if decide (magic elf = ELF_MAGIC)
    then phs ← headers c (Z.to_nat (phnum elf)) (s32 (phoff elf)); Some (elf, phs) else None
  else None.

Section process.
Context {F : Type} `{XL : ExecFilesLaws F}.
Context (kend : Z) (Hkend : 0 < kend) (tramp : Z) (Htr : 0 <= tramp < 2 ^ 56) (Htra : tramp mod PGSIZE = 0).
Notation K := (kernel F).

(** The process [me] has the address space [G], the pages [l] are free, and
    its trapframe is a page of its own. *)
Record process_ok (k : K) (me : nat) (G : gmap Z (list Z)) (l : list Z) : Prop := {
  pr_slot : (me < length (k_proc k))%nat;
  pr_space : uspace kend (k_mem k) (p_pagetable (slot k me)) G l;
  pr_sized : sized (k_mem k) (p_pagetable (slot k me)) (p_sz (slot k me));
  pr_sz : 0 <= p_sz (slot k me) <= TRAPFRAME;
  pr_top : top_pages tramp (p_trapframe (slot k me)) (k_mem k) (p_pagetable (slot k me));
  pr_tf : Kalloc.page_ok kend (p_trapframe (slot k me));
  pr_apart : ~ owns (k_mem k) (p_pagetable (slot k me)) G l (p_trapframe (slot k me));
  pr_bytes : bytes_ok (k_mem k);
}.

(** The free pages are the same and nothing else was touched. *)
Definition restored (m0 : vmem) (l0 : list Z) (m : vmem) : Prop :=
  untouched (fun q => q ∈ l0) m0 m /\ bytes_ok m /\ exists l, Kalloc.klist kend (vkm m) l /\ forall q, q ∈ l <-> q ∈ l0.

Section one.
Context (tf : Z) (Htf : 0 <= tf < 2 ^ 56) (Htfa : tf mod PGSIZE = 0).
Context (m0 : vmem) (l0 : list Z).
Notation building := (building kend tramp tf m0 l0).

Lemma building_free pt sz g img m :
  building pt sz g img m -> wp (proc_freepagetable kend pt sz) (fun _ m' => restored m0 l0 m') m.
Proof.
  intros B. destruct (bd_space _ _ _ _ _ _ _ _ _ _ B) as (G & l & Hu & Hs & Ho). pose proof PHYSTOP_TRAPFRAME.
  pose proof (bd_sz _ _ _ _ _ _ _ _ _ _ B).
  eapply wp_mono; [apply (proc_freepagetable_wp kend Hkend tramp tf pt sz m G l Hu Hs); try done|].
  { unfold PGSIZE in *; lia. }
  { apply B. }
  cbn beta. intros _ m' (l' & Hl' & Hin & Hb & Hout). split_and!.
  - eapply untouched_trans; [apply B|]. eapply untouched_mono; [|exact Hout]. apply Ho.
  - unfold bytes_ok. rewrite Hb. apply B.
  - exists l'. split; [done|]. intros q. by rewrite Hin, Ho.
Qed.
(** ** Taking the new address space *)

Definition stw (a w : Z) (m : vmem) : vmem := set_bytes (store_bytes a (le_enc 8 w) (bytes m)) m.

Lemma byte_at_stw a w m x :
  byte_at (stw a w m) x = if decide (a <= x < a + 8) then default 0 (le_enc 8 w !! Z.to_nat (x - a)) else byte_at m x.
Proof.
  unfold byte_at, stw. cbn [bytes set_bytes]. rewrite store_bytes_lookup, le_enc_length.
  change (Z.of_nat 8) with 8. by case_decide.
Qed.

Lemma stw_outside a w m p x : p mod PGSIZE = 0 -> tf <> p -> tf <= a -> a + 8 <= tf + PGSIZE -> in_page p x = true ->
  byte_at (stw a w m) x = byte_at m x.
Proof.
  intros Hp Hne H1 H2 Hx. rewrite byte_at_stw, decide_False; [done|]. intros Hr.
  assert (Ht : in_page tf x = true) by (unfold in_page; apply andb_true_iff; split; [apply Z.leb_le|apply Z.ltb_lt]; lia).
  rewrite (in_page_disjoint tf p x) in Hx; done.
Qed.

Lemma bytes_ok_stw a w m : bytes_ok m -> bytes_ok (stw a w m).
Proof. intros Hb. apply store_bytes_ok; [apply le_enc_bytes|done]. Qed.
End one.

(** Writing to the trapframe. *)
Lemma building_stw tf m0 l0 pt sz g img m a w :
  0 <= tf < 2 ^ 56 -> tf mod PGSIZE = 0 -> tf ∉ l0 -> tf <= a -> a + 8 <= tf + PGSIZE ->
  building kend tramp tf m0 l0 pt sz g img m -> building kend tramp tf (stw a w m0) l0 pt sz g img (stw a w m).
Proof.
  intros Htf Htfa Hn H1 H2 [B1 B2 B3 B4 (G & l & Hu & Hs & Ho) B6 B7 B8].
  destruct (uspace_bytes kend m (stw a w m) pt G l eq_refl eq_refl Hu) as (U1 & U2 & U3).
  split; try done.
  - destruct B1 as [Hb Hp]. split; [|done]. intros p x Hpa Hpn Hx. rewrite !byte_at_stw. case_decide; [done|]. by apply (Hb p).
  - by apply bytes_ok_stw.
  - exists G, l. split_and!; [done|by apply U2|]. intros q. by rewrite U3.
  - intros va Hva. rewrite <-(B6 va Hva). destruct (valid m pt va) eqn:Hv.
    + apply (ubyte_keeps kend Hkend tramp tf Htr Htra Htf Htfa m (stw a w m) pt G l G l); try done.
      intros x Hx Hvx. split; [done|]. intros y Hy. destruct (us_leaf _ _ _ _ _ Hu x Hx Hvx) as (_ & [Ha _] & _).
      apply (stw_outside tf Htfa a w m (phys m pt x)); try done. intros ->. apply Hn, Ho. right; right. by exists x.
    + rewrite (ubyte_user kend Hkend tramp tf Htr Htra Htf Htfa (stw a w m) pt G l U1 B3) by auto.
      rewrite (ubyte_user kend Hkend tramp tf Htr Htra Htf Htfa m pt G l Hu B3) by auto.
      unfold user_page. by rewrite (Hv : valid (stw a w m) pt va = false), Hv.
Qed.

(** A space of size [sz] also has the size rounded up. *)
Lemma building_pgup tf m0 l0 pt sz img m :
  building kend tramp tf m0 l0 pt sz (-1) img m -> building kend tramp tf m0 l0 pt (pgup sz) (-1) img m.
Proof.
  intros [B1 B2 B3 B4 (G & l & Hu & Hs & Ho) B6 B7 B8]. destruct (pgup_spec sz) as [P1 P2].
  assert (Hlt : forall a, page_of a < pgup sz <-> page_of a < sz) by (intros a; symmetry; apply page_lt_pgup).
  split; try done.
  - pose proof (pgup_mono sz PHYSTOP ltac:(lia)). rewrite (pgup_id PHYSTOP) in * by done. lia.
  - exists G, l. split_and!; [done|by apply (proj1 (sized_pgup m pt sz))|done].
  - intros a Ha. rewrite B6 by done. apply (f_equal (fun b : bool => if b then _ else _)), bool_decide_ext. by rewrite Hlt.
  - intros a. rewrite (pgup_id (pgup sz)) by done. apply B7.
  - intros a Ha Hp. apply B8; [done|]. by apply Hlt.
Qed.

Lemma restored_space m0 l0 m pt G :
  uspace kend m0 pt G l0 -> restored m0 l0 m ->
  exists l, uspace kend m pt G l /\ (forall q, q ∈ l <-> q ∈ l0) /\ keeps m0 m pt /\
    forall va, 0 <= va -> leaf_pte m pt va = leaf_pte m0 pt va.
Proof.
  intros Hu (Hout & _ & l & Hl & Hin).
  destruct (apart_uspace kend m0 m pt G l0 l (fun q => q ∈ l0)) as (H1 & H2 & H3); try done; [by apply (uspace_apart kend)|apply Hin|].
  by exists l.
Qed.

Lemma owns_commit (m0 m m' : vmem) old Go l0 pt G l l' q :
  (forall va, 0 <= va -> leaf_pte m old va = leaf_pte m0 old va) ->
  (forall va, 0 <= va -> leaf_pte m' pt va = leaf_pte m pt va) ->
  (forall q, owns m pt G l q <-> q ∈ l0) -> (forall q, q ∈ l' <-> owns m old Go l q) ->
  owns m' pt G l' q <-> owns m0 old Go l0 q.
Proof.
  intros Hem He Ho Hin. rewrite (owns_leaf m m'), (owns_split m pt G l'), Hin, (owns_leaf m0 m) by done.
  rewrite (owns_split m0 old Go l), (owns_split m0 old Go l0), <-Ho, (owns_split m pt G l). tauto.
Qed.

(** The old space is freed and the new one is taken: no page is lost. *)
Lemma commit_wp tf m0 old Go oldsz l0 pt sz g img m :
  0 <= tf < 2 ^ 56 -> tf mod PGSIZE = 0 -> uspace kend m0 old Go l0 -> sized m0 old oldsz -> 0 <= oldsz <= TRAPFRAME ->
  top_pages tramp tf m0 old -> building kend tramp tf m0 l0 pt sz g img m ->
  wp (proc_freepagetable kend old oldsz) (fun _ m' => exists G l, uspace kend m' pt G l /\ sized m' pt sz /\
    top_pages tramp tf m' pt /\ bytes_ok m' /\ (forall q, owns m' pt G l q <-> owns m0 old Go l0 q) /\
    untouched (owns m0 old Go l0) m0 m' /\
    forall a, 0 <= a < TRAPFRAME -> ubyte {| u_mem := m'; u_pt := pt |} a = ubyte {| u_mem := m; u_pt := pt |} a) m.
Proof.
  intros Htf Htfa Huo Hso Hoz Hto B. pose proof B as [B1 B2 B3 B4 (G & l & Hu & Hs & Ho) _ _ _].
  destruct (uspace_apart kend m0 old Go l0 Huo) as [Ap1 Ap2].
  destruct (apart_uspace kend m0 m old Go l0 l (fun q => q ∈ l0)) as (Hum & Hkm & Hem); try done.
  { apply Hu. } { intros q Hq. apply Ho. by left. }
  eapply wp_mono; [apply (proc_freepagetable_wp kend Hkend tramp tf old oldsz m Go l Hum); try done|].
  { apply (sized_leaf m0); [|done]. intros va Hva. apply Hem; lia. }
  { destruct Hto. by split; rewrite Hem by (by vm_compute). }
  cbn beta. intros _ m' (l' & Hl' & Hin & Hb & Hout).
  assert (Hold : forall q, owns m old Go l q -> q ∈ l \/ q ∉ l0 /\ owns m0 old Go l0 q).
  { intros q [?|[Hq|(va & Hva & Hv & <-)]]; [by left|right; split; [by apply Ap1|by right; left]|right].
    unfold valid, phys in *. rewrite Hem in * by lia. split; [by apply Ap2|]. right; right. by exists va. }
  destruct (uspace_apart kend m pt G l Hu) as [Au1 Au2].
  assert (Ap : apart m pt G (owns m old Go l)).
  { split.
    - intros t Ht [Hq|[Hq _]]%Hold; [by apply (Au1 t)|]. apply Hq, Ho. by right; left.
    - intros va Hva Hv [Hq|[Hq _]]%Hold; [by apply (Au2 va)|]. apply Hq, Ho. right; right. by exists va. }
  destruct (apart_uspace kend m m' pt G l l' (owns m old Go l) Hu Ap Hout Hl') as (Hu' & Hk' & He'); [apply Hin|].
  assert (Ht' : top_pages tramp tf m' pt) by (destruct B3; by split; rewrite He' by (by vm_compute)).
  exists G, l'. split_and!; try done.
  - apply (sized_leaf m); [|done]. intros va Hva. apply He'; lia.
  - unfold bytes_ok. by rewrite Hb.
  - intros q. by apply (owns_commit m0 m m' old Go l0 pt G l l').
  - eapply untouched_trans; [eapply untouched_mono; [|exact B1]; by left|]. eapply untouched_mono; [|exact Hout].
    intros q [Hq|[_ Hq]]%Hold; [|done]. left. apply Ho. by left.
  - intros a Ha. destruct (valid m pt a) eqn:Hv.
    + by apply (ubyte_keeps kend Hkend tramp tf Htr Htra Htf Htfa m m' pt G l G l').
    + rewrite (ubyte_user kend Hkend tramp tf Htr Htra Htf Htfa m' pt G l' Hu' Ht') by auto.
      rewrite (ubyte_user kend Hkend tramp tf Htr Htra Htf Htfa m pt G l Hu B3) by auto.
      unfold user_page, valid in *. by rewrite He', Hv by lia.
Qed.

Lemma bad_wp v tf m0 l0 pt sz g img ip c k m f :
  0 <= tf < 2 ^ 56 -> tf mod PGSIZE = 0 ->
  building kend tramp tf m0 l0 pt sz g img m -> pt <> 0 ->
  match ip with Some i => xf_open v i c f | None => xf_idle v f end ->
  wpK (bad kend pt sz ip) (fun r m' f' => r = -1 /\ restored m0 l0 m' /\ xf_idle v f') k m f.
Proof.
  intros Htf Htfa B Hpt Hf. unfold bad. rewrite (proj2 (Z.eqb_neq pt 0)) by done. cbn [negb].
  apply wpK_bind, wpK_mem. eapply wp_mono; [by eapply (building_free tf Htf Htfa)|]. cbn beta. intros _ m' Hr.
  apply wpK_bind. destruct ip as [i|]; [|by apply wpK_ret, wpK_ret].
  apply wpK_files. eapply wp_mono; [by apply (xf_iunlockput v i c)|]. cbn beta. intros _ f' Hf'. by apply wpK_ret.
Qed.

Section outcome.
Context (v : list Z -> option (list Z)) (path : list Z) (argv : list (list Z)).
Context (k0 : K) (me : nat) (Go : gmap Z (list Z)) (l0 : list Z).
Context (Hok : process_ok k0 me Go l0) (Hargs : Forall arg_ok argv) (Hn : (length argv < MAXARG)%nat).
Notation m0 := (k_mem k0).
Notation p0 := (slot k0 me).
Notation tf := (p_trapframe (slot k0 me)).

(** [exec] fails only for a file that is not there or not a program, for
    arguments that need more than a page, or for lack of memory. *)
Definition refused : Prop :=
  forall c elf phs sp, v (path ++ [0]) = Some c -> program c = Some (elf, phs) -> Forall (seg_ok c) phs ->
    Forall nonempty phs -> argv_sp 0 PGSIZE argv = Some sp ->
    Z.of_nat (length l0) * PGSIZE < 3 * pgup (foldl add_size 0 phs) + 11 * PGSIZE.

Definition new_proc (sz pt : Z) (p : proc) : proc :=
  set_mem sz pt (p_trapframe p) (set_name (splice 0 (safestrcpy (basename path path ++ [0]) 16) (p_name p)) p).

(** The kernel after the commit. *)
Definition started (k' : K) : Prop :=
  exists c elf phs sp img G l pt,
    v (path ++ [0]) = Some c /\ program c = Some (elf, phs) /\ Forall (seg_ok c) phs /\
    let sz := pgup (foldl add_size 0 phs) + 2 * PGSIZE in
    k' = put (k_mem k') (k_files k') (set_procs (alter (new_proc sz pt) me (k_proc k0)) k0) /\
    process_ok k' me G l /\
    (forall q, owns (k_mem k') pt G l q <-> owns m0 (p_pagetable p0) Go l0 q) /\
    untouched (owns m0 (p_pagetable p0) Go l0)
      (stw (tf + TF_SP) sp (stw (tf + TF_EPC) (entry elf) (stw (tf + TF_A1) sp m0))) (k_mem k') /\
    (forall a, 0 <= a < TRAPFRAME -> ubyte {| u_mem := k_mem k'; u_pt := pt |} a =
       if bool_decide (page_of a < sz /\ page_of a <> sz - 2 * PGSIZE) then Some (img a) else None) /\
    argv_sp (sz - PGSIZE) sz argv = Some sp /\
    arguments sz (foldl (add_seg c) (fun _ => 0) phs) img sp argv /\
    xf_idle v (k_files k').

(** The kernel after a failure. *)
Definition unchanged (k' : K) : Prop :=
  k' = put (k_mem k') (k_files k') k0 /\ untouched (fun q => q ∈ l0) m0 (k_mem k') /\
  (exists l, process_ok k' me Go l /\ forall q, q ∈ l <-> q ∈ l0) /\ xf_idle v (k_files k') /\ refused.

Definition outcome (r : Z) (k' : K) : Prop :=
  r = -1 /\ unchanged k' \/ r = Z.of_nat (length argv) /\ started k'.

Lemma tf_range : 0 <= tf < 2 ^ 56 /\ tf mod PGSIZE = 0 /\ tf ∉ l0.
Proof.
  destruct (page_ok_range kend Hkend tf (pr_tf _ _ _ _ Hok)). split_and!; [lia|lia|done|]. intros Hq.
  apply (pr_apart _ _ _ _ Hok). by left.
Qed.

Lemma restored_unchanged m f : restored m0 l0 m -> xf_idle v f -> refused -> unchanged (put m f k0).
Proof.
  intros Hr Hf Hno. destruct (restored_space m0 l0 m _ Go (pr_space _ _ _ _ Hok) Hr) as (l & H1 & H2 & _ & H4).
  destruct Hok as [O1 O2 O3 O4 [O5 O5'] O6 O7 O8]. destruct Hr as (Hout & Hb & _).
  split_and!; try done. exists l. split; [|done]. split; try done.
  - apply (sized_leaf m0); [|done]. intros va Hva. apply H4; lia.
  - split; etrans; try (apply H4; by vm_compute); done.
  - intros Ht. apply O7. apply (owns_leaf m0 m) in Ht; [|done]. rewrite owns_split, H2 in Ht. by rewrite owns_split.
Qed.

Lemma fail_outcome (c : M K Z) m f :
  wpK c (fun r m' f' => r = -1 /\ restored m0 l0 m' /\ xf_idle v f') k0 m f -> refused -> wp c outcome (put m f k0).
Proof.
  intros Hc Hr. eapply wp_mono; [exact Hc|]. cbn beta. intros r k' (m' & f' & -> & -> & H1 & H2). left.
  split; [done|]. by apply restored_unchanged.
Qed.
Lemma slot_new sz pt m f :
  slot (put m f (set_procs (alter (new_proc sz pt) me (k_proc k0)) k0)) me = new_proc sz pt p0.
Proof.
  unfold slot. cbn [k_proc put set_kmem set_kfiles set_procs]. rewrite list_lookup_alter, decide_True by done.
  by destruct (lookup_lt_is_Some_2 (k_proc k0) me (pr_slot _ _ _ _ Hok)) as [p ->].
Qed.

Lemma exec_commit_wp c elf phs sp img m f pt :
  v (path ++ [0]) = Some c -> program c = Some (elf, phs) -> Forall (seg_ok c) phs -> xf_idle v f ->
  let sz := pgup (foldl add_size 0 phs) + 2 * PGSIZE in
  building kend tramp tf m0 l0 pt sz (sz - 2 * PGSIZE) img m -> argv_sp (sz - PGSIZE) sz argv = Some sp ->
  arguments sz (foldl (add_seg c) (fun _ => 0) phs) img sp argv ->
  wp (onMem (store_word (tf + TF_A1) sp) ;;
      upd me (fun p => set_name (splice 0 (safestrcpy (basename path path ++ [0]) 16) (p_name p)) p) ;;
      upd me (fun p => set_mem sz pt (p_trapframe p) p) ;;
      onMem (store_word (tf + TF_EPC) (entry elf)) ;;
      onMem (store_word (tf + TF_SP) sp) ;;
      onMem (proc_freepagetable kend (p_pagetable p0) (p_sz p0)) ;;
      ret (Z.of_nat (length argv))) outcome (put m f k0).
Proof.
  intros Hv Hp Hseg Hf sz B Hsp Harg. destruct tf_range as (Ht & Hta & Htl).
  set (M0 := stw (tf + TF_SP) sp (stw (tf + TF_EPC) (entry elf) (stw (tf + TF_A1) sp m0))).
  set (M := stw (tf + TF_SP) sp (stw (tf + TF_EPC) (entry elf) (stw (tf + TF_A1) sp m))).
  assert (B' : building kend tramp tf M0 l0 pt sz (sz - 2 * PGSIZE) img M)
    by (do 3 (apply building_stw; [done|done|done|unfold TF_SP, TF_EPC, TF_A1, PGSIZE; lia..|]); done).
  destruct (uspace_bytes kend m0 M0 (p_pagetable p0) Go l0 eq_refl eq_refl (pr_space _ _ _ _ Hok)) as (Hu & Hs & Ho).
  apply wp_bind, wp_lift, wp_modify. do 2 (apply wp_bind, wp_modify). do 2 (apply wp_bind, wp_lift, wp_modify).
  apply wp_bind, wp_lift.
  refine (wp_mono _ _ _ _ (commit_wp tf M0 (p_pagetable p0) Go (p_sz p0) l0 pt sz _ img M Ht Hta Hu
    (Hs _ (pr_sized _ _ _ _ Hok)) (pr_sz _ _ _ _ Hok) (pr_top _ _ _ _ Hok) B') _).
  cbn beta. intros _ m' (G & l & C1 & C2 & C3 & C4 & C5 & C6 & C7). apply wp_ret. right. split; [done|].
  match goal with |- started ?k => assert (E : k = put m' f (set_procs (alter (new_proc sz pt) me (k_proc k0)) k0)) end.
  { unfold put, set_kmem, set_kfiles, set_procs, upd. cbn. by rewrite list_alter_alter_eq. }
  rewrite E. clear E. exists c, elf, phs, sp, img, G, l, pt. do 2 (split_and!; try done).
  - split; rewrite ?slot_new; try done.
    + cbn [k_proc put set_kmem set_kfiles set_procs]. rewrite length_alter. apply Hok.
    + pose proof (bd_sz _ _ _ _ _ _ _ _ _ _ B). pose proof PHYSTOP_TRAPFRAME. cbn [p_sz new_proc set_mem]. unfold PGSIZE in *; lia.
    + apply (pr_tf _ _ _ _ Hok).
    + intros Ht'%C5%Ho. by apply (pr_apart _ _ _ _ Hok).
  - intros a Ha. etrans; [by apply C7|]. apply (bd_view _ _ _ _ _ _ _ _ _ _ B' a Ha).
Qed.

Lemma exec_stack_wp c elf phs img m f pt :
  v (path ++ [0]) = Some c -> program c = Some (elf, phs) -> Forall (seg_ok c) phs -> xf_idle v f -> pt <> 0 ->
  building kend tramp tf m0 l0 pt (foldl add_size 0 phs) (-1) img m ->
  (forall a, img a = foldl (add_seg c) (fun _ => 0) phs a) ->
  spare kend m ((Z.of_nat (length l0) - 5) * PGSIZE - 3 * pgup (foldl add_size 0 phs)) ->
  wp (exec_stack kend me path argv elf pt (foldl add_size 0 phs)) outcome (put m f k0).
Proof.
  intros Hv Hp Hseg Hf Hpt B Himg Hsp. destruct tf_range as (Ht & Hta & Htl).
  set (sz := foldl add_size 0 phs) in *. pose proof (bd_sz _ _ _ _ _ _ _ _ _ _ B) as Hsz. pose proof PHYSTOP_TRAPFRAME as HPT.
  pose proof (building_pgup tf m0 l0 pt sz img m B) as B0. pose proof (bd_sz _ _ _ _ _ _ _ _ _ _ B0) as Hsz0.
  change PHYSTOP with 0x88000000 in *. destruct (pgup_spec sz) as [P1 P2].
  unfold exec_stack. apply wp_bind, wp_gets. change (slot (put m f k0) me) with p0. cbv zeta.
  rewrite PGROUNDUP_pgup, u64_small by (unfold PGSIZE in *; lia). apply wp_bind, wp_lift.
  eapply wp_mono; [apply (building_alloc kend Hkend tramp tf Htr Htra Ht Hta m0 l0 pt (pgup sz) img m); [done|unfold PGSIZE in *; lia|done]|].
  cbn beta. rewrite Z.max_r by (unfold PGSIZE; lia). set (sz2 := pgup sz + 2 * PGSIZE).
  assert (P3 : sz2 mod PGSIZE = 0) by (unfold sz2; by rewrite Z.add_mod, P2 by done).
  rewrite (pgup_id sz2), (pgup_id (pgup sz)) by done. intros r m1 [(-> & B1 & Hno)|(-> & B1 & _)]; cbn [Z.eqb].
  { apply fail_outcome; [by eapply (bad_wp v tf m0 l0 pt (pgup sz) _ _ None [])|]. intros c' elf' phs' sp' Hv' Hp' _ _ _. simplify_eq.
    apply Hno in Hsp. fold sz. unfold sz2, PGSIZE in *. lia. }
  rewrite (proj2 (Z.eqb_neq _ 0)) by (unfold sz2, PGSIZE in *; lia). pose proof (bd_sz _ _ _ _ _ _ _ _ _ _ B1) as Hsz1.
  change PHYSTOP with 0x88000000 in Hsz1. rewrite !u64_small by (unfold sz2, PGSIZE in *; lia).
  assert (Eg : sz2 - 2 * PGSIZE = pgup sz) by (unfold sz2; lia).
  apply wp_bind, wp_lift. eapply wp_mono;
    [apply (building_clear kend Hkend tramp tf Htr Htra Ht Hta m0 l0 pt sz2 img m1 (sz2 - 2 * PGSIZE) B1); rewrite Eg; [unfold sz2, PGSIZE in *; lia|done]|].
  cbn beta. intros _ m2 B2. apply wp_bind, wp_lift.
  eapply wp_mono; [apply (push_argv_wp kend Hkend tramp tf Htr Htra Ht Hta m0 l0 pt sz2 (sz2 - 2 * PGSIZE)) with (img := img); try done;
    unfold sz2, PGSIZE in *; lia|].
  cbn beta. intros o m3 (Esp & img3 & B3 & Harg). destruct o as [sp|].
  - apply (exec_commit_wp c elf phs sp img3 m3 f pt); try done. destruct Harg as (A1 & A2 & A3 & A4).
    do 3 (split; [done|]). intros a Ha. rewrite A4 by done. apply Himg.
  - apply fail_outcome; [by eapply (bad_wp v tf m0 l0 pt sz2 _ _ None [])|]. intros c' elf' phs' sp' Hv' Hp' _ _ Hsp'.
    pose proof (argv_sp_shift argv 0 PGSIZE (sz2 - PGSIZE)) as Hsh. rewrite Hsp' in Hsh.
    replace (PGSIZE + (sz2 - PGSIZE)) with sz2 in Hsh by lia. rewrite Z.add_0_l, Esp in Hsh.
    discriminate Hsh. unfold PGSIZE in *. Z.to_euclidean_division_equations. lia.
Qed.
Lemma klist_restored : restored m0 l0 m0.
Proof. split; [by apply untouched_eq|]. split; [apply Hok|]. exists l0. split; [|done]. apply (pr_space _ _ _ _ Hok). Qed.

(** Failures before there is a page table. *)
Lemma early_outcome ip c m f :
  xf_open v ip c f -> restored m0 l0 m -> refused -> wp (bad kend 0 0 (Some ip)) outcome (put m f k0).
Proof.
  intros Hf Hr. apply fail_outcome. apply wpK_bind, wpK_ret, wpK_bind, wpK_files.
  eapply wp_mono; [by apply (xf_iunlockput v ip c)|]. cbn beta. intros _ f' Hf'. by apply wpK_ret.
Qed.

Lemma exec_wp : xf_idle v (k_files k0) -> wp (exec kend tramp me path argv) outcome k0.
Proof.
  intros Hf. destruct tf_range as (Ht & Hta & Htl). rewrite <-(put_eta k0). unfold exec.
  apply wp_bind, wp_lift. eapply wp_mono; [by apply (xf_namei v)|]. cbn beta. intros [ip|] f1.
  2:{ intros [Hno Hf1]. apply wp_ret. left. split; [done|].
      apply (restored_unchanged m0 f1); [apply klist_restored|done|]. intros c elf phs sp Hv. congruence. }
  intros (c & Hv & Hf1). apply wp_bind, wp_lift. eapply wp_mono; [by apply (xf_ilock v ip c)|]. cbn beta. intros _ f2 Hf2.
  apply wp_bind, wp_lift. eapply wp_mono; [apply (xf_read v ip c 0 ELFHDR_SIZE _ f2 Hf2); try done|].
  { by apply Forall_replicate. }
  cbn beta. intros [r kb] f3 (Hf3 & _ & _ & _ & Hiff & Hkb).
  assert (Hbad : forall m f, xf_open v ip c f -> restored m0 l0 m ->
    (forall elf phs, program c = Some (elf, phs) -> (length l0 < 5)%nat) -> wp (bad kend 0 0 (Some ip)) outcome (put m f k0)).
  { intros m f Ho Hr Hno. apply (early_outcome ip c m f Ho Hr). intros c' elf' phs' sp' Hv' Hp' _ _ _. simplify_eq.
    pose proof (Hno _ _ Hp'). pose proof (pgup_spec (foldl add_size 0 phs')). pose proof (add_size_le phs' 0).
    unfold PGSIZE in *. lia. }
  destruct (Z.eqb_spec r ELFHDR_SIZE) as [->|Hne]; cbn [negb].
  2:{ apply Hbad; [done|apply klist_restored|]. intros elf phs. unfold program. rewrite decide_False; [done|].
      intros Hle. by apply Hne, Hiff. }
  pose proof (proj1 Hiff eq_refl) as Hle. rewrite (Hkb eq_refl). set (elf := dec_elfhdr _).
  assert (Hprog : program c = if decide (magic elf = ELF_MAGIC) then
    phs ← headers c (Z.to_nat (phnum elf)) (s32 (phoff elf)); Some (elf, phs) else None)
    by (unfold program; by rewrite decide_True).
  destruct (Z.eqb_spec (magic elf) ELF_MAGIC) as [Hm|Hm]; cbn [negb].
  2:{ apply Hbad; [done|apply klist_restored|]. rewrite decide_False in Hprog by done. congruence. }
  rewrite decide_True in Hprog by done. apply wp_bind, wp_gets. change (slot _ me) with p0. apply wp_bind, wp_lift.
  eapply wp_mono; [apply (proc_pagetable_wp kend Hkend tramp tf m0 l0); [apply (pr_space _ _ _ _ Hok)|done|done]|].
  cbn beta. intros pt m1 [(-> & Hlen & Hout & Hby & l1 & Hl1)|(Hpt & Hfr & Htop & Hsp)].
  { apply Hbad; [done| |done]. split_and!; [done| |by exists l1]. intros a w Hw.
    eapply (pr_bytes _ _ _ _ Hok), lookup_weaken; [exact Hw|done]. }
  rewrite (proj2 (Z.eqb_neq pt 0)) by done.
  pose proof (building_start kend Hkend tramp tf Htr Htra Ht Hta m0 l0 pt m1 Hfr Htop (pr_bytes _ _ _ _ Hok)) as B.
  apply wp_bind. eapply wp_mono; [apply (load_loop_wp kend Hkend tramp tf Htr Htra Ht Hta m0 l0 k0 pt v ip c _ _ 0 _ m1 f3 B Hf3)|].
  cbn beta. intros [sz ok] k' (m2 & f4 & -> & Hf4 & img & B2 & Hld). cbn [fst snd] in *. destruct ok; cbn [negb].
  - destruct Hld as (phs & Hh & -> & Himg & Hseg & Hsp2). rewrite Hh in Hprog. apply wp_bind, wp_lift.
    eapply wp_mono; [by apply (xf_iunlockput v ip c)|]. cbn beta. intros _ f5 Hf5.
    apply (exec_stack_wp c elf phs img m2 f5 pt); try done. apply Hsp2 in Hsp. by rewrite (pgup_id 0), Z.sub_0_r in Hsp by done.
  - apply fail_outcome; [by eapply (bad_wp v tf m0 l0 pt sz _ _ (Some ip) c)|].
    intros c' elf' phs sp' Hv' Hp' Hseg Hnz _. simplify_eq. rewrite Hp' in Hprog.
    destruct (headers c _ _) as [phs'|] eqn:Hh; [|done]. injection Hprog as -> ->.
    pose proof (Hld _ _ eq_refl Hseg Hnz Hsp) as Hb. rewrite (pgup_id 0) in Hb by done. unfold PGSIZE in *. lia.
Qed.
End outcome.
End process.

(** ** Theorems *)

(** Claim C5: [exec] of a process with a well-formed address space ends, whatever
    bytes the file has.  Either it fails: the return value is -1, every process,
    the memory of all of them and the set of free pages are as before, and the
    file is not there, is not a well-formed program, the arguments need more than
    a page or the free pages did not suffice.  Or it returns the number of
    arguments and the process has the program: its size is the end of the
    segments, rounded up, and two pages; its memory is the segments on zeros, a
    page it cannot access and a stack page that holds the arguments, the array of
    their addresses and the rest zero; the trapframe has the entry point, the
    stack pointer and the second argument of main; the pages of the old space and
    the free pages are those of the new one, no other page is touched, and no
    other process changes. *)
Theorem exec_replaces {F : Type} `{XL : ExecFilesLaws F} (kend tramp : Z) (v : list Z -> option (list Z))
    (path : list Z) (argv : list (list Z)) (k : kernel F) (me : nat) (G : gmap Z (list Z)) (l : list Z) :
  0 < kend -> 0 <= tramp < 2 ^ 56 -> tramp mod PGSIZE = 0 -> process_ok kend tramp k me G l ->
  xf_idle v (k_files k) -> Forall arg_ok argv -> (length argv < MAXARG)%nat ->
  exists r k', exec kend tramp me path argv k = Ok r k' /\
    (r = -1 /\ unchanged kend tramp v path argv k me G l k' \/
     r = Z.of_nat (length argv) /\ started kend tramp v path argv k me G l k').
Proof.
  intros Hk Ht Hta Hok Hf Hargs Hn.
  destruct (wp_elim _ _ _ (exec_wp kend Hk tramp Ht Hta v path argv k me G l Hok Hargs Hn Hf)) as (r & k' & Hr & Hout).
  by exists r, k'.
Qed.

(** ** Witness: files in memory and a small program *)

Definition ram : Type := list (list Z * list Z).
Definition ram_find (path : list Z) (s : ram) : option (nat * (list Z * list Z)) := list_find (fun e => e.1 = path) s.

Definition ram_files : ExecFiles ram := {|
  exec_namei path := gets (fun s => fst <$> ram_find path s);
  exec_ilock _ := ret tt;
  exec_read i off n kb := gets (fun s : ram =>
    let d := slice (Z.to_nat off) (Z.to_nat n) (default [] (snd <$> s !! i)) in
    (Z.of_nat (length d), d ++ drop (length d) kb));
  exec_iunlockput _ := ret tt;
|}.

Definition ram_idle (v : list Z -> option (list Z)) (s : ram) : Prop :=
  Forall (fun e => Z.of_nat (length e.2) < 2 ^ 31 /\ Forall byte_ok e.2) s /\
  forall p, v p = (snd ∘ snd) <$> ram_find p s.
Definition ram_open (v : list Z -> option (list Z)) (i : nat) (c : list Z) (s : ram) : Prop :=
  ram_idle v s /\ snd <$> s !! i = Some c.

Lemma ram_size v i c s : ram_open v i c s -> Z.of_nat (length c) < 2 ^ 31 /\ Forall byte_ok c.
Proof.
  intros [[Hall _] Hi]. destruct (s !! i) as [e|] eqn:E; [|done]. injection Hi as <-.
  by apply (proj1 (Forall_lookup _ _) Hall i).
Qed.

Lemma ram_namei v path s : ram_idle v s ->
  wp (exec_namei (ExecFiles := ram_files) path) (fun o s' =>
    match o with
    | Some i => exists c, v path = Some c /\ ram_open v i c s'
    | None => v path = None /\ ram_idle v s'
    end) s.
Proof.
  intros Hs. apply wp_gets. destruct Hs as [H1 H2]. pose proof (H2 path) as Hv.
  destruct (ram_find path s) as [[i [q c]]|] eqn:E; cbn in Hv |- *; [|done].
  exists c. split; [done|]. split; [done|]. apply list_find_Some in E as (E & _).
  exact (f_equal (fmap snd) E).
Qed.

Lemma ram_read v i c off n kb s : ram_open v i c s -> 0 <= off < 2 ^ 32 -> 0 < n < 2 ^ 31 ->
  length kb = Z.to_nat n -> Forall byte_ok kb ->
  wp (exec_read (ExecFiles := ram_files) i off n kb) (fun '(r, kb') s' => ram_open v i c s' /\ length kb' = length kb /\
    Forall byte_ok kb' /\ - 2 ^ 31 <= r < 2 ^ 31 /\ (r = n <-> off + n <= Z.of_nat (length c)) /\
    (r = n -> kb' = slice (Z.to_nat off) (Z.to_nat n) c)) s.
Proof.
  intros Hs Hoff Hn Hlen Hkb. destruct (ram_size v i c s Hs) as [Hc Hcb]. apply wp_gets. rewrite (proj2 Hs).
  change (default [] (Some c)) with c.
  assert (Hd : length (slice (Z.to_nat off) (Z.to_nat n) c) = (Z.to_nat n `min` (length c - Z.to_nat off))%nat)
    by (unfold slice; by rewrite length_take, length_drop).
  split_and!; try done.
  - rewrite length_app, length_drop, Hd. lia.
  - apply Forall_app. split; [by apply slice_Forall|by apply Forall_drop].
  - rewrite Hd. lia.
  - rewrite Hd. lia.
  - rewrite Hd. lia.
  - intros Hr. rewrite drop_ge, app_nil_r; [done|]. rewrite Hd in *. lia.
Qed.

Definition ram_laws : ExecFilesLaws ram (H := ram_files) := {|
  xf_idle := ram_idle; xf_ref := ram_open; xf_open := ram_open;
  xf_namei := ram_namei; xf_ilock v i c s Hs := Hs; xf_size := ram_size; xf_read := ram_read;
  xf_iunlockput v i c s Hs := proj1 Hs;
|}.

(** [/a]: one segment of four bytes of code in eight bytes of memory. *)
Definition ex_path : list Z := [47; 97].
Definition ex_elf : list Z :=
  le_enc 4 ELF_MAGIC ++ replicate 20 0 ++ le_enc 8 0 ++ le_enc 8 64 ++ replicate 16 0 ++ le_enc 2 1 ++ replicate 6 0 ++
  le_enc 4 ELF_PROG_LOAD ++ le_enc 4 5 ++ le_enc 8 120 ++ le_enc 8 0 ++ le_enc 8 0 ++ le_enc 8 4 ++ le_enc 8 8 ++
  le_enc 8 PGSIZE ++ [19; 5; 16; 0].
Definition ex_ram : ram := [(ex_path ++ [0], ex_elf)].
Definition ex_view (p : list Z) : option (list Z) := (snd ∘ snd) <$> ram_find p ex_ram.

Lemma ex_process :
  exists (k : kernel ram) G l, process_ok kend32 ex_tramp k 0 G l /\ k_files k = ex_ram /\ (26 <= length l)%nat.
Proof.
  destruct ex_space as (m & pt & tf & G & l & Hu & Hs & Ht & Htf & Hno & Hb & Hlen).
  exists {| k_proc := [set_mem 0 pt tf proc0]; k_cpus := [Some 0%nat]; k_initproc := Some 0%nat; k_nextpid := 2;
            k_wait_lock := None; k_mem := m; k_files := ex_ram |}, G, l.
  split_and!; try done. split; try done; [cbn; lia|]. intros a w. cbn. by rewrite Hb.
Qed.

Lemma ex_not_refused l : refused ex_view ex_path [ex_path] l -> (length l < 14)%nat.
Proof.
  intros Hno.
  assert (Hp : exists elf ph sp, program ex_elf = Some (elf, [ph]) /\ argv_sp 0 PGSIZE [ex_path] = Some sp /\
    Forall (seg_ok ex_elf) [ph] /\ Forall nonempty [ph] /\ foldl add_size 0 [ph] = 8).
  { do 3 eexists. split; [vm_compute; reflexivity|]. split; [vm_compute; reflexivity|].
    split; [|split; [|by vm_compute]]; (apply List.Forall_cons; [|apply List.Forall_nil]);
      intros _; vm_compute; repeat split; congruence. }
  destruct Hp as (elf & ph & sp & P1 & P2 & P3 & P4 & P5).
  pose proof (Hno ex_elf elf [ph] sp eq_refl P1 P3 P4 P2) as Hc. rewrite P5 in Hc. change (pgup 8) with PGSIZE in Hc.
  unfold PGSIZE in *. lia.
Qed.

Lemma exec_replaces_witness :
  exists (k : kernel ram) G l, process_ok kend32 ex_tramp k 0 G l /\
  exists k', exec (EF := ram_files) kend32 ex_tramp 0 ex_path [ex_path] k = Ok 1 k' /\
    started (XL := ram_laws) kend32 ex_tramp ex_view ex_path [ex_path] k 0 G l k'.
Proof.
  destruct ex_process as (k & G & l & Hok & Hf & Hlen). exists k, G, l. split; [done|].
  destruct (exec_replaces (XL := ram_laws) kend32 ex_tramp ex_view ex_path [ex_path] k 0 G l)
    as (r & k' & Hr & [[-> Hno]|[-> Hst]]); try done.
  - rewrite Hf. split; [|done]. repeat constructor; vm_compute; congruence.
  - repeat constructor; vm_compute; congruence.
  - cbn. unfold MAXARG. lia.
  - exfalso. destruct Hno as (_ & _ & _ & _ & Hno). apply ex_not_refused in Hno. lia.
  - by exists k'.
Defined.
