(* ===== verification/SysExec.v ===== *)
(** * The system call [exec]

    [copyinstr] of kernel/vm.c reads a string from a process; [sys_exec] uses it
    for the path and the arguments, keeps each argument in a page of its own
    while [exec] runs and frees these pages in every case. *)

From S2P Require Import Prelude Layout Kalloc UserMem Vm PageTable UserSpace Proc AddrSpace Exec ExecSpec.
Import Vm Proc Exec.

(** ** Strings of a process *)

(** The process has the string [s], with its nul, at [va]. *)
Definition ustring (u : uvm) (va : Z) (s : list Z) : Prop :=
  Forall (fun c => c <> 0) s /\ forall i, (i <= length s)%nat -> ubyte u (va + Z.of_nat i) = (s ++ [0]) !! i.

Lemma until_nul_spec l :
  match until_nul l with
  | (s, true) => Forall (fun c => c <> 0) s /\ exists r, l = s ++ 0 :: r
  | (s, false) => s = l /\ Forall (fun c => c <> 0) l
  end.
Proof.
  induction l as [|c l IH]; cbn [until_nul]; [by split|]. destruct (Z.eqb_spec c 0) as [->|Hc]; [by split; [|exists l]|].
  destruct (until_nul l) as [s []]; destruct IH as [H1 H2].
  - destruct H2 as [r ->]. split; [by constructor|by exists r].
  - subst. by split; [|constructor].
Qed.

(** The part of a string that is on the first page. *)
Lemma ustring_cut u va l s :
  (forall i, (i < length l)%nat -> ubyte u (va + Z.of_nat i) = l !! i) -> Forall (fun c => c <> 0) l ->
  ustring u va s <-> exists s', s = l ++ s' /\ ustring u (va + Z.of_nat (length l)) s'.
Proof.
  intros Hl Hnz. split.
  - intros [Hs Hb]. assert (Hlen : (length l <= length s)%nat).
    { destruct (decide (length s < length l)%nat) as [Hlt|]; [|lia]. specialize (Hb (length s) ltac:(lia)).
      rewrite Hl in Hb by done. rewrite lookup_app_r, Nat.sub_diag in Hb by lia.
      by destruct (proj1 (Forall_lookup _ _) Hnz _ _ Hb). }
    assert (E : s = l ++ drop (length l) s).
    { rewrite <-(take_drop (length l) s) at 1. f_equal. apply list_eq_same_length with (length l); [done|rewrite length_take; lia|].
      intros i x y Hi Hx Hy. rewrite <-Hl, Hb, lookup_app_l in Hy by lia. rewrite lookup_take_lt in Hx by done. congruence. }
    exists (drop (length l) s). split; [done|]. split; [by apply Forall_drop|]. intros i Hi. rewrite length_drop in Hi.
    replace (va + Z.of_nat (length l) + Z.of_nat i) with (va + Z.of_nat (length l + i)) by lia. rewrite Hb by lia.
    rewrite E at 1. rewrite <-app_assoc, lookup_app_r by lia. f_equal. lia.
  - intros (s' & -> & Hs & Hb). split; [by apply Forall_app|]. intros i Hi. rewrite <-app_assoc, length_app in *.
    destruct (decide (i < length l)%nat); [by rewrite lookup_app_l, Hl by lia|].
    rewrite lookup_app_r, <-Hb by lia. f_equal. lia.
Qed.

Lemma copyinstr_loop_spec fuel u va max :
  0 <= va < 2 ^ 64 -> max <= 0 \/ va mod PGSIZE + max <= Z.of_nat fuel * PGSIZE ->
  exists o, copyinstr_loop fuel (u_pt u) va max (u_mem u) = Ok o (u_mem u) /\
    forall s, o = Some s <-> ustring u va s /\ Z.of_nat (length s) < max.
Proof.
  revert va max. induction fuel as [|fuel IH]; intros va max Hva Hf; pose proof (Z.mod_pos_bound va PGSIZE PGSIZE_pos) as Hmod.
  { exists None. split; [done|]. intros s. split; [done|]. lia. }
  cbn [copyinstr_loop]. destruct (Z.ltb_spec 0 max) as [Hpos|Hpos].
  2:{ exists None. split; [done|]. intros s. split; [done|]. lia. }
  destruct (first_page u va Hva) as [Ep Hlow]. rewrite Ep. unfold bind at 1. rewrite walkaddr_xlate.
  destruct (Z.eqb_spec (xlate (u_mem u) (u_pt u) (page_of va)) 0) as [Hz|Hz].
  { exists None. split; [done|]. intros s. split; [done|]. intros [[_ Hb] _]. specialize (Hb 0%nat ltac:(lia)).
    rewrite Z.add_0_r in Hb. destruct (ubyte_some_xlate u va) as [_ Hx]; [|done]. rewrite Hb. by destruct s; eauto. }
  specialize (Hlow Hz). replace (va - page_of va) with (va mod PGSIZE) by (unfold page_of; lia).
  set (n := Z.min (PGSIZE - va mod PGSIZE) max). destruct (page_bound va Hlow) as [Hp0 Hp1]. pose proof MAXVA_val.
  unfold bind, gets. set (l := load_bytes (u_mem u) (xlate (u_mem u) (u_pt u) (page_of va) + va mod PGSIZE) n).
  assert (Hlen : length l = Z.to_nat n) by apply load_bytes_length.
  assert (Hl : forall i, (i < length l)%nat -> ubyte u (va + Z.of_nat i) = l !! i).
  { intros i Hi. unfold l. rewrite load_bytes_lookup by lia.
    rewrite (ubyte_page u va (va + Z.of_nat i) Hlow); [|unfold page_of; lia|done]. do 2 f_equal. unfold page_of. lia. }
  clearbody l. pose proof (until_nul_spec l) as Hnul. destruct (until_nul l) as [s []].
  - destruct Hnul as [Hs [r ->]]. exists (Some s). split; [done|]. rewrite length_app in Hlen, Hl. cbn [length] in Hlen, Hl.
    assert (Hus : forall s', ustring u va s' <-> s' = s).
    { intros s'. rewrite (ustring_cut u va s); [|intros i Hi; rewrite Hl by lia; by rewrite lookup_app_l|done].
      assert (H0 : ubyte u (va + Z.of_nat (length s)) = Some 0) by (rewrite Hl by lia; by rewrite lookup_app_r, Nat.sub_diag by lia).
      split; [|intros ->].
      - intros (s2 & -> & Hs2 & Hb). specialize (Hb 0%nat ltac:(lia)). rewrite Z.add_0_r, H0 in Hb.
        destruct s2 as [|c s2]; [by rewrite app_nil_r|]. injection Hb as <-. by apply Forall_cons in Hs2 as [? _].
      - exists []. split; [by rewrite app_nil_r|]. split; [done|]. intros i Hi. cbn in Hi. by assert (i = 0%nat) as -> by lia; rewrite Z.add_0_r. }
    intros s'. rewrite Hus. split; [intros [= <-]; split; [done|lia]|by intros [-> _]].
  - destruct Hnul as [-> Hnz]. destruct (IH (page_of va + PGSIZE) (max - n)) as (o & Hrun & Ho);
      [unfold PGSIZE in *; lia| |].
    { rewrite next_page_mod. lia. }
    exists (option_map (app l) o). rewrite u64_small by (unfold PGSIZE in *; lia). rewrite Hrun. split; [done|].
    intros s. rewrite (ustring_cut u va l) by done.
    assert (Hn : 0 < n) by (unfold n; lia). split.
    + destruct o as [s'|]; [|done]. cbn. intros [= <-]. destruct (proj1 (Ho s') eq_refl) as [H1 H2].
      rewrite length_app. split; [|lia]. exists s'. split; [done|]. destruct (decide (n = max)); [lia|].
      replace (va + Z.of_nat (length l)) with (page_of va + PGSIZE); [done|]. unfold page_of. lia.
    + intros [(s' & -> & Hs') Hlt]. rewrite length_app in Hlt.
      assert (E : o = Some s'); [|by rewrite E]. apply Ho. split; [|lia].
      replace (page_of va + PGSIZE) with (va + Z.of_nat (length l)); [done|]. unfold page_of. lia.
Qed.

(** ** Arguments of a process *)

Definition uword (u : uvm) (va w : Z) : Prop :=
  exists l, length l = 8%nat /\ (forall i, (i < 8)%nat -> l !! i = ubyte u (va + Z.of_nat i)) /\ w = le_dec l.

Lemma uword_det u va w w' : uword u va w -> uword u va w' -> w = w'.
Proof.
  intros (l & Hl & Hb & ->) (l' & Hl' & Hb' & ->). f_equal. apply list_eq_same_length with 8%nat; try done.
  intros i x y Hi Hx Hy. rewrite Hb in Hx by done. rewrite Hb' in Hy by done. congruence.
Qed.

(** A process of size [sz] has the argument vector [argv], with its null, at
    [va]. *)
Fixpoint uargv (u : uvm) (sz va : Z) (argv : list (list Z)) : Prop :=
  va + 8 <= sz /\
  match argv with
  | [] => uword u va 0
  | s :: argv => (exists p, uword u va p /\ p <> 0 /\ ustring u p s /\ Z.of_nat (length s) < PGSIZE) /\ uargv u sz (va + 8) argv
  end.

Lemma uargv_word u sz va argv : uargv u sz va argv -> va + 8 <= sz /\ exists w, uword u va w.
Proof. destruct argv as [|s argv]; [intros [H1 H2]; eauto|]. intros [H1 [(p & Hp & _) _]]. eauto. Qed.

Lemma ubyte_eq m m' pt a :
  ptes m' = ptes m -> bytes m' = bytes m ->
  ubyte {| u_mem := m'; u_pt := pt |} a = ubyte {| u_mem := m; u_pt := pt |} a.
Proof.
  intros Ep Eb. unfold ubyte, byte_at. cbn [u_mem u_pt]. case_decide; [|done]. cbv zeta. by rewrite (xlate_ptes m m'), Eb.
Qed.

Lemma ubyte_ok m pt a c : bytes_ok m -> ubyte {| u_mem := m; u_pt := pt |} a = Some c -> byte_ok c.
Proof.
  intros Hb. unfold ubyte, byte_at. cbn [u_mem u_pt]. case_decide; [|done]. cbv zeta. destruct (_ =? 0); [done|].
  intros [= <-]. destruct (bytes m !! _) eqn:E; [by eapply Hb|]. cbn. unfold byte_ok. lia.
Qed.

Lemma ustring_bytes m pt va s : bytes_ok m -> ustring {| u_mem := m; u_pt := pt |} va s -> Forall byte_ok s.
Proof.
  intros Hb [_ Hs]. apply Forall_lookup. intros i c Hi. pose proof (lookup_lt_Some _ _ _ Hi).
  apply (ubyte_ok m pt (va + Z.of_nat i)); [done|]. rewrite Hs by lia. by rewrite lookup_app_l.
Qed.

Section sys.
Context {F : Type} `{XL : ExecFilesLaws F}.
Context (kend : Z) (Hkend : 0 < kend) (tramp : Z).
Notation K := (kernel F).
Context (k : K) (me : nat) (G : gmap Z (list Z)) (l0 : list Z) (Hok : process_ok kend tramp k me G l0).
Notation pt := (p_pagetable (slot k me)).
Notation u := {| u_mem := k_mem k; u_pt := pt |}.

(** Memory with the same contents, some of its free pages taken. *)
Definition same (m : vmem) : Prop := ptes m = ptes (k_mem k) /\ bytes m = bytes (k_mem k).

Lemma fetchstr_wp m f a max (Q : option (list Z) -> vmem -> F -> Prop) :
  same m -> 0 <= a < 2 ^ 64 -> 0 <= max ->
  (forall o, (forall s, o = Some s <-> ustring u a s /\ Z.of_nat (length s) < max) -> Q o m f) ->
  wpK (fetchstr me a max) Q k m f.
Proof.
  intros [Ep Eb] Ha Hm HQ. unfold fetchstr. apply wpK_bind, wp_gets. exists m, f. split; [done|].
  change (slot (put m f k) me) with (slot k me). apply wpK_mem. unfold copyinstr, wp.
  destruct (copyinstr_loop_spec (copy_fuel max) {| u_mem := m; u_pt := pt |} a max) as (o & Hrun & Ho);
    [done|right; by apply copy_fuel_enough|]. cbn [u_mem u_pt] in Hrun. rewrite Hrun. apply HQ. intros s. rewrite Ho.
  unfold ustring. by setoid_rewrite (ubyte_eq (k_mem k) m pt _ Ep Eb).
Qed.

Lemma fetchaddr_wp m f a (Q : option Z -> vmem -> F -> Prop) :
  same m -> 0 <= a < 2 ^ 64 -> ((a + 8 <= p_sz (slot k me) -> forall w, ~ uword u a w) -> Q None m f) ->
  (forall w, a + 8 <= p_sz (slot k me) -> uword u a w -> Q (Some w) m f) -> wpK (fetchaddr me a) Q k m f.
Proof.
  intros [Ep Eb] Ha Hno Hw. unfold fetchaddr. apply wpK_bind, wp_gets. exists m, f. split; [done|].
  change (slot (put m f k) me) with (slot k me). pose proof (pr_sz _ _ _ _ _ _ Hok) as Hsz.
  destruct (Z.leb_spec (p_sz (slot k me)) a) as [|Hlt]; cbn [orb]; [apply wpK_ret, Hno; lia|].
  rewrite u64_small by (change TRAPFRAME with 0x3fffffe000 in Hsz; lia).
  destruct (Z.ltb_spec (p_sz (slot k me)) (a + 8)) as [|Hle]; [apply wpK_ret, Hno; lia|]. apply wpK_bind, wpK_mem. unfold copyin, wp.
  destruct (copyin_loop_spec (copy_fuel 8) {| u_mem := m; u_pt := pt |} a 8) as (l & ok & Hrun & H1 & H2);
    [done|lia|right; by apply copy_fuel_enough|]. cbn [u_mem u_pt] in Hrun. rewrite Hrun. apply wpK_ret.
  destruct (decide (uaccess {| u_mem := m; u_pt := pt |} a 8)) as [Hac|Hac].
  - destruct (H1 Hac) as (-> & Hl & Hb). apply Hw; [done|]. exists l. split_and!; [done| |done].
    intros i Hi. rewrite Hb by lia. by apply ubyte_eq.
  - rewrite (H2 Hac). apply Hno. intros _ w (l' & Hl' & Hb & _). apply Hac. intros x Hx.
    rewrite (ubyte_eq (k_mem k) m) by done. replace x with (a + Z.of_nat (Z.to_nat (x - a))) by lia.
    rewrite <-Hb by lia. apply lookup_lt_is_Some. lia.
Qed.

Lemma uword_range a w : uword u a w -> 0 <= w < 2 ^ 64.
Proof.
  intros (l & Hl & Hb & ->). assert (Hbs : Forall byte_ok l).
  { apply Forall_lookup. intros i c Hi. pose proof (lookup_lt_Some _ _ _ Hi).
    apply (ubyte_ok (k_mem k) pt (a + Z.of_nat i)); [apply (pr_bytes _ _ _ _ _ _ Hok)|]. by rewrite <-Hb by lia. }
  pose proof (le_dec_range l Hbs) as Hr. by rewrite Hl in Hr.
Qed.

(** Pages taken from the head of the free list. *)
Lemma fetch_args_wp fuel a1 i m l f :
  same m -> uspace kend m pt G l -> 0 <= a1 + 8 * i < 2 ^ 64 ->
  wpK (fetch_args fuel me a1 i) (fun '(pages, o) m' f' => f' = f /\ same m' /\
    (exists l', l = pages ++ l' /\ uspace kend m' pt G l') /\
    (forall argv, o = Some argv <->
       uargv u (p_sz (slot k me)) (a1 + 8 * i) argv /\ (length argv < fuel)%nat /\ (length argv <= length l)%nat) /\
    forall argv, o = Some argv -> Forall arg_ok argv /\ length pages = length argv) k m f.
Proof.
  revert i m l. induction fuel as [|fuel IH]; intros i m l Hs Hu Ha; cbn [fetch_args].
  { apply wpK_ret. split_and!; try done; [by exists l|]. intros argv. split; [done|]. lia. }
  pose proof (pr_sz _ _ _ _ _ _ Hok) as Hsz. rewrite (u64_small (a1 + 8 * i)) by done. apply wpK_bind, fetchaddr_wp; [done|done| |].
  { intros Hno. apply wpK_ret. split_and!; try done; [by exists l|]. intros argv. split; [done|]. intros [Hav _].
    apply uargv_word in Hav as (H1 & w & H2). by destruct (Hno H1 w). }
  intros w Hlt Hw. destruct (Z.eqb_spec w 0) as [->|Hne].
  { apply wpK_ret. split_and!; try done; [by exists l| |by intros argv [= <-]]. intros argv. split.
    - intros [= <-]. cbn. split_and!; try done; lia.
    - intros [Hav _]. destruct argv as [|s argv]; [done|]. destruct Hav as [_ [(p & Hp & Hp0 & _) _]].
      destruct Hp0. by apply (uword_det u _ _ _ Hp Hw). }
  apply wpK_bind, wpK_mem. eapply wp_mono; [by apply (own_kalloc kend Hkend pt m G l)|]. cbn beta.
  intros q m1 (Ep & Eb & Hq). assert (Hs1 : same m1) by (destruct Hs; split; congruence).
  assert (Hcons : forall argv, uargv u (p_sz (slot k me)) (a1 + 8 * i) argv <-> exists s args, argv = s :: args /\
    ustring u w s /\ Z.of_nat (length s) < PGSIZE /\ uargv u (p_sz (slot k me)) (a1 + 8 * (i + 1)) args).
  { intros argv. replace (a1 + 8 * (i + 1)) with (a1 + 8 * i + 8) by lia. split.
    - destruct argv as [|s args]; intros [_ Hav]; [destruct Hne; by apply (uword_det u _ _ _ Hw Hav)|].
      destruct Hav as [(p & Hp & _ & Hss) Hav]. rewrite (uword_det u _ _ _ Hp Hw) in Hss. exists s, args. by destruct Hss.
    - intros (s & args & -> & H1 & H2 & H3). split; [done|]. split; [by exists w|done]. }
  destruct l as [|q' l].
  { destruct Hq as [-> ->]. apply wpK_ret. split_and!; try done; [by exists []|]. intros argv. split; [done|].
    rewrite Hcons. intros [(s & args & -> & _) [_ Hle]]. cbn in Hle. lia. }
  destruct Hq as (-> & Hq0 & _ & Hu1 & _). rewrite (proj2 (Z.eqb_neq q' 0)) by done.
  apply wpK_bind, fetchstr_wp; [done|by apply (uword_range (a1 + 8 * i))|done|]. intros [s|] Ho.
  2:{ apply wpK_ret. split_and!; try done; [by exists l|]. intros argv. split; [done|]. rewrite Hcons.
      intros [(s & args & -> & H1 & H2 & _) _]. discriminate (proj2 (Ho s) (conj H1 H2)). }
  destruct (proj1 (Ho s) eq_refl) as [Hstr Hlen]. apply wpK_bind.
  eapply wpK_mono; [apply (IH (i + 1) m1 l Hs1 Hu1); change TRAPFRAME with 0x3fffffe000 in Hsz; lia|]. cbn beta.
  intros [pages o] m' f' (-> & Hs' & (l' & -> & Hu') & Hargs & Hlens). apply wpK_ret. split_and!; try done; [by exists l'| |].
  - intros argv. rewrite Hcons. split.
    + destruct o as [args|]; [|done]. intros [= <-]. destruct (proj1 (Hargs args) eq_refl) as (H1 & H2 & H3).
      split_and!; [by exists s, args|cbn; lia|cbn; lia].
    + intros [(s' & args & -> & H1 & H2 & H3) [H4 H5]]. assert (E : Some s = Some s') by (by apply Ho). injection E as <-.
      assert (E : o = Some args) by (apply Hargs; cbn in H4, H5; split_and!; (done || lia)). by rewrite E.
  - intros argv Eo. destruct o as [args|]; [|done]. injection Eo as <-. destruct (Hlens args eq_refl) as [H1 H2].
    split; [|cbn; lia]. constructor; [|done]. split; [done|].
    eapply ustring_bytes; [apply (pr_bytes _ _ _ _ _ _ Hok)|exact Hstr].
Qed.
End sys.

(** Giving pages back to the allocator. *)
Lemma free_args_wp {F : Type} (kend : Z) (Hkend : 0 < kend) (k : kernel F) pages pt m G l f :
  uspace kend m pt G l -> NoDup pages -> (forall q, q ∈ pages -> Kalloc.page_ok kend q /\ ~ owns m pt G l q) ->
  wpK (free_args kend pages) (fun _ m' f' => f' = f /\ ptes m' = ptes m /\ bytes m' = bytes m /\
    uspace kend m' pt G (rev pages ++ l)) k m f.
Proof.
  revert m l. induction pages as [|q pages IH]; intros m l Hu Hnd Hq; cbn [free_args]; [by apply wpK_ret|].
  apply NoDup_cons in Hnd as [Hn Hnd]. destruct (Hq q ltac:(left)) as [Hqp Hqo].
  assert (Hql : q ∉ l) by (intros ?; apply Hqo; by left).
  apply wpK_bind, wpK_mem. eapply wp_mono; [by apply (vkfree_spec kend Hkend m q l); [apply Hu|..]|]. cbn beta.
  intros _ m1 (Ep & Eb & Hl).
  assert (Hu1 : uspace kend m1 pt G (q :: l)).
  { apply (uspace_kfree kend pt m m1 G l q); try done. split_and!; try done.
    - destruct (G !! q) eqn:E; [|done]. destruct Hqo. right; left. by rewrite E.
    - intros va Hva Hv <-. apply Hqo. right; right. by exists va. }
  eapply wpK_mono; [apply (IH m1 (q :: l) Hu1 Hnd)|].
  - intros q' Hq'. destruct (Hq q' ltac:(by right)) as [H1 H2]. split; [done|]. intros H3. apply H2.
    rewrite owns_split in H3. rewrite owns_split. destruct H3 as [[->|?]%elem_of_cons|H3]; [done|by left|right].
    apply (owns_leaf m m1) in H3; [done|]. intros va _. by apply same_ptes.
  - cbn beta. intros _ m' f' (-> & Ep' & Eb' & Hu'). split_and!; [done|congruence|congruence|].
    cbn [rev]. by rewrite <-app_assoc.
Qed.

Lemma elem_of_rev (q : Z) l : q ∈ rev l <-> q ∈ l.
Proof. by rewrite !list_elem_of_In, <-in_rev. Qed.

(** What [sys_exec] leaves when it fails. *)
Definition call_failed {F : Type} `{XL : ExecFilesLaws F} (kend tramp : Z) (v : list Z -> option (list Z)) (k : kernel F)
    (me : nat) (G : gmap Z (list Z)) (l : list Z) (k' : kernel F) : Prop :=
  k' = put (k_mem k') (k_files k') k /\ untouched (fun q => q ∈ l) (k_mem k) (k_mem k') /\
  (exists l', process_ok kend tramp k' me G l' /\ forall q, q ∈ l' <-> q ∈ l) /\ xf_idle v (k_files k').

Section end_of_call.
Context {F : Type} `{XL : ExecFilesLaws F}.
Context (kend : Z) (Hkend : 0 < kend) (tramp : Z).
Context (k : kernel F) (me : nat) (G : gmap Z (list Z)) (l0 : list Z) (Hok : process_ok kend tramp k me G l0).
Context (m1 : vmem) (f1 : F) (pages l1 : list Z) (Hs : same k m1) (Hl0 : l0 = pages ++ l1).
Notation pt := (p_pagetable (slot k me)).
Notation k1 := (put m1 f1 k).

Lemma owns_taken q : owns (k_mem k) pt G l0 q <-> q ∈ pages \/ owns m1 pt G l1 q.
Proof.
  rewrite (owns_leaf (k_mem k) m1) by (intros va _; apply same_ptes, Hs).
  rewrite (owns_split _ _ _ l0), (owns_split _ _ _ l1), Hl0, elem_of_app. tauto.
Qed.

Lemma pages_taken : NoDup pages /\ forall q, q ∈ pages -> Kalloc.page_ok kend q /\ ~ owns m1 pt G l1 q.
Proof.
  pose proof (pr_space _ _ _ _ _ _ Hok) as Hu. destruct (us_table _ _ _ _ _ Hu) as [_ [[_ Hnd Hpo] _] _].
  destruct (uspace_apart kend (k_mem k) pt G l0 Hu) as [A1 A2]. rewrite Hl0 in Hnd. apply NoDup_app in Hnd as (N1 & N2 & _).
  split; [done|]. intros q Hq. assert (Hq0 : q ∈ l0) by (rewrite Hl0; set_solver).
  split; [by apply (proj1 (Forall_forall _ _) Hpo)|]. rewrite (owns_leaf (k_mem k) m1) by (intros va _; apply same_ptes, Hs).
  intros [Hin|[Hin|(va & Hva & Hv & <-)]]; [by apply (N2 q)|by apply (A1 q)|by apply (A2 va)].
Qed.

Lemma process_taken : uspace kend m1 pt G l1 -> process_ok kend tramp k1 me G l1.
Proof.
  intros Hu. destruct Hok as [O1 O2 O3 O4 O5 O6 O7 O8]. pose proof (same_ptes pt (k_mem k) m1 (proj1 Hs)) as He. split; try done.
  - apply (sized_leaf (k_mem k)); [|done]. intros va _. apply He.
  - unfold top_pages. cbn [k_mem put set_kmem set_kfiles]. change (slot k1 me) with (slot k me). by rewrite !He.
  - intros Ho. apply O7, owns_taken. by right.
  - unfold bytes_ok. cbn [k_mem put set_kmem set_kfiles]. by rewrite (proj2 Hs).
Qed.

(** The state after the pages are free again. *)
Lemma process_free (k2 : kernel F) m3 f3 G2 l2 :
  process_ok kend tramp k2 me G2 l2 -> ptes m3 = ptes (k_mem k2) -> bytes m3 = bytes (k_mem k2) ->
  uspace kend m3 (p_pagetable (slot k2 me)) G2 (rev pages ++ l2) -> p_trapframe (slot k2 me) ∉ pages ->
  process_ok kend tramp (put m3 f3 k2) me G2 (rev pages ++ l2).
Proof.
  intros [O1 O2 O3 O4 O5 O6 O7 O8] Ep Eb Hu Ht. pose proof (same_ptes (p_pagetable (slot k2 me)) (k_mem k2) m3 Ep) as He.
  split; try done; cbn [k_mem put set_kmem set_kfiles]; change (slot (put m3 f3 k2) me) with (slot k2 me).
  - apply (sized_leaf (k_mem k2)); [|done]. intros va _. apply He.
  - unfold top_pages. by rewrite !He.
  - rewrite (owns_leaf (k_mem k2) m3) by (intros va _; apply He). rewrite owns_split, elem_of_app, elem_of_rev.
    rewrite owns_split in O7. tauto.
  - unfold bytes_ok. by rewrite Eb.
Qed.

Lemma tf_not_taken : p_trapframe (slot k me) ∉ pages.
Proof. intros Hin. apply (pr_apart _ _ _ _ _ _ Hok), owns_taken. by left. Qed.

Context (v : list Z -> option (list Z)).

(** After a failure. *)
Lemma failed_free k2 (x : Z) :
  uspace kend m1 pt G l1 -> call_failed kend tramp v k1 me G l1 k2 ->
  wp (free_args kend pages ;; ret x) (fun r k3 => r = x /\ call_failed kend tramp v k me G l0 k3) k2.
Proof.
  intros Hu1 (Ek & Hout & (l2 & Hp2 & Hin) & Hf). destruct pages_taken as [Hnd Hpg].
  destruct (uspace_apart kend m1 pt G l1 Hu1) as [A1 A2].
  assert (Es : slot k2 me = slot k me) by (by rewrite Ek). pose proof (pr_space _ _ _ _ _ _ Hp2) as Hu2. rewrite Es in Hu2.
  destruct (apart_uspace kend m1 (k_mem k2) pt G l1 l2 (fun q => q ∈ l1)) as (_ & _ & He); try done;
    [apply Hu2|apply Hin|]. rewrite Ek at 1.
  apply wp_bind. eapply wp_mono; [apply (free_args_wp kend Hkend k1 pages pt (k_mem k2) G l2 (k_files k2) Hu2 Hnd)|].
  - intros q Hq. destruct (Hpg q Hq) as [H1 H2]. split; [done|]. rewrite (owns_leaf m1 (k_mem k2)) by done.
    rewrite owns_split, Hin. by rewrite owns_split in H2.
  - cbn beta. intros _ k3 (m3 & f3 & -> & -> & Ep & Eb & Hu3). apply wp_ret. split; [done|]. split_and!; try done.
    + eapply untouched_trans; [apply (untouched_eq _ _ m1); apply Hs|]. eapply untouched_trans; [|by apply untouched_eq].
      eapply untouched_mono; [|exact Hout]. intros q Hq. rewrite Hl0. set_solver.
    + exists (rev pages ++ l2). split.
      * pose proof (process_free k2 m3 (k_files k2) G l2 Hp2 Ep Eb) as Hpf. rewrite Es in Hpf. rewrite Ek in Hpf at 2.
        apply Hpf; [done|apply tf_not_taken].
      * intros q. rewrite elem_of_app, elem_of_rev, Hin, Hl0, elem_of_app. done.
Qed.

(** After an [exec] that succeeded. *)
Lemma started_free path argv k2 (x : Z) :
  started kend tramp v path argv k1 me G l1 k2 ->
  wp (free_args kend pages ;; ret x) (fun r k3 => r = x /\ started kend tramp v path argv k me G l0 k3) k2.
Proof.
  intros (c & elf & phs & sp & img & G2 & l2 & pt2 & S1 & S2 & S3 & S4 & S5 & S6 & S7 & S8 & S9 & S10 & S11).
  destruct pages_taken as [Hnd Hpg]. change (slot k1 me) with (slot k me) in *. cbn [k_mem put set_kmem set_kfiles] in S6, S7.
  set (sz := pgup (foldl add_size 0 phs) + 2 * PGSIZE) in *. set (kn := set_procs (alter (new_proc path sz pt2) me (k_proc k)) k).
  assert (Es : slot k2 me = new_proc path sz pt2 (slot k me)).
  { rewrite S4. by apply (slot_new kend tramp path k me G l0). }
  pose proof (pr_space _ _ _ _ _ _ S5) as Hu2. rewrite Es in Hu2. rewrite S4 at 1.
  apply wp_bind. eapply wp_mono; [apply (free_args_wp kend Hkend kn pages pt2 (k_mem k2) G2 l2 (k_files k2) Hu2 Hnd)|].
  { intros q Hq. rewrite S6. by apply Hpg. }
  cbn beta. intros _ k3 (m3 & f3 & -> & -> & Ep & Eb & Hu3). apply wp_ret. split; [done|].
  exists c, elf, phs, sp, img, G2, (rev pages ++ l2), pt2. do 2 (split_and!; try done).
  - pose proof (process_free k2 m3 (k_files k2) G2 l2 S5 Ep Eb) as Hpf. rewrite Es in Hpf. rewrite S4 in Hpf at 2.
    apply Hpf; [done|apply tf_not_taken].
  - intros q. rewrite owns_taken, <-S6. rewrite (owns_leaf (k_mem k2)) by (intros va _; by apply same_ptes).
    rewrite (owns_split _ _ _ (rev pages ++ l2)), (owns_split _ _ _ l2), elem_of_app, elem_of_rev. tauto.
  - eapply untouched_trans; [apply (untouched_eq _ _ (stw (p_trapframe (slot k me) + TF_SP) sp
      (stw (p_trapframe (slot k me) + TF_EPC) (entry elf) (stw (p_trapframe (slot k me) + TF_A1) sp m1))))|].
    + apply Hs.
    + cbn [bytes stw set_bytes]. by rewrite (proj2 Hs).
    + eapply untouched_trans; [|by apply untouched_eq]. eapply untouched_mono; [|exact S7]. intros q Hq. apply owns_taken. by right.
  - intros a Ha. etrans; [by apply ubyte_eq|]. by apply S8.
Qed.
End end_of_call.

(** ** Theorem *)

(** Claim C6: the system call [exec] of a process with a well-formed address
    space ends, whatever is at the addresses in its registers.  Either it
    returns -1 and the process, the memory outside the free pages and the set of
    free pages are as before: the pages taken for the arguments are free again,
    and if the process did have a path and arguments there, and pages for them
    were free, then [exec] refused them; or the process has at these addresses a path and a vector of fewer than
    MAXARG arguments, the return value is the number of arguments, and the
    process runs the program of that path with these arguments, with no page
    lost. *)
Theorem sys_exec_runs {F : Type} `{XL : ExecFilesLaws F} (kend tramp : Z) (v : list Z -> option (list Z))
    (k : kernel F) (me : nat) (G : gmap Z (list Z)) (l : list Z) (a0 a1 : Z) :
  0 < kend -> 0 <= tramp < 2 ^ 56 -> tramp mod PGSIZE = 0 -> process_ok kend tramp k me G l ->
  xf_idle v (k_files k) -> 0 <= a0 < 2 ^ 64 -> 0 <= a1 < 2 ^ 64 ->
  let u := {| u_mem := k_mem k; u_pt := p_pagetable (slot k me) |} in
  exists r k', sys_exec kend tramp me a0 a1 k = Ok r k' /\
    (r = 2 ^ 64 - 1 /\ call_failed kend tramp v k me G l k' /\
       (forall path argv, ustring u a0 path -> Z.of_nat (length path) < MAXPATH -> uargv u (p_sz (slot k me)) a1 argv ->
          (length argv < MAXARG)%nat -> (length argv <= length l)%nat -> refused v path argv (drop (length argv) l)) \/
     exists path argv, ustring u a0 path /\ Z.of_nat (length path) < MAXPATH /\ uargv u (p_sz (slot k me)) a1 argv /\
       (length argv < MAXARG)%nat /\ r = Z.of_nat (length argv) /\ started kend tramp v path argv k me G l k').
Proof.
  intros Hk Ht Hta Hok Hf Ha0 Ha1 u. apply wp_elim. unfold sys_exec.
  apply wp_bind. eapply wp_mono; [apply wpK_start, (fetchstr_wp k me (k_mem k) (k_files k) a0 MAXPATH (fun o m' f' => m' = k_mem k /\ f' = k_files k /\
    forall s, o = Some s <-> ustring u a0 s /\ Z.of_nat (length s) < MAXPATH)); done|].
  cbn beta. intros [path|] k' (m' & f' & -> & -> & -> & Ho); rewrite put_eta.
  2:{ apply wp_ret. left. split; [done|]. split; [split_and!; [by rewrite put_eta|by apply untouched_eq|by exists l|done]|].
      intros path argv H1 H2. discriminate (proj2 (Ho path) (conj H1 H2)). }
  destruct (proj1 (Ho path) eq_refl) as [Hpath Hplen]. apply wp_bind.
  eapply wp_mono; [apply wpK_start, (fetch_args_wp kend Hk tramp k me G l Hok MAXARG a1 0 (k_mem k) l (k_files k)); [done|apply Hok|lia]|].
  cbn beta. intros [pages o] k' (m1 & f1 & -> & -> & Hs & (l1 & Hl1 & Hu1) & Hargs & Hlens). rewrite Z.mul_0_r, Z.add_0_r in Hargs.
  pose proof (process_taken kend tramp k me G l Hok m1 (k_files k) pages l1 Hs Hl1 Hu1) as Hok1.
  destruct o as [argv|].
  2:{ eapply wp_mono; [apply (failed_free kend Hk tramp k me G l Hok m1 (k_files k) pages l1 Hs Hl1 v _ _ Hu1)|].
      - split_and!; [done|by apply untouched_eq|by exists l1|done].
      - cbn beta. intros r k3 [-> Hr]. left. split_and!; [done..|]. intros path' argv' _ _ H1 H2 H3.
        discriminate (proj2 (Hargs argv') (conj H1 (conj H2 H3))). }
  destruct (proj1 (Hargs argv) eq_refl) as (Hav & Hn & Hle). destruct (Hlens argv eq_refl) as [Hargv Hpl]. apply wp_bind.
  eapply wp_mono; [by apply (exec_wp kend Hk tramp Ht Hta v path argv _ me G l1 Hok1 Hargv Hn)|].
  cbn beta. intros r k2 [[-> Hout]|[-> Hout]].
  - destruct Hout as (E1 & E2 & E3 & E4 & E5).
    eapply wp_mono; [by apply (failed_free kend Hk tramp k me G l Hok m1 (k_files k) pages l1 Hs Hl1 v _ _ Hu1)|].
    cbn beta. intros r k3 [-> Hr]. left. split_and!; [done..|]. intros path' argv' H1 H2 H3 H4 H5.
    pose proof (proj2 (Ho path') (conj H1 H2)) as [= <-]. pose proof (proj2 (Hargs argv') (conj H3 (conj H4 H5))) as [= <-].
    by rewrite Hl1, <-Hpl, drop_app_length.
  - eapply wp_mono; [by apply (started_free kend Hk tramp k me G l Hok m1 (k_files k) pages l1 Hs Hl1 v path argv)|].
    cbn beta. intros r k3 [-> Hr]. right. exists path, argv. rewrite u64_small by (unfold MAXARG in Hn; lia). by split_and!.
Qed.

(** ** Witness: a process that runs the program of [ExecSpec] *)

(** The argument vector at 0 and the path at 16. *)
Definition ex_data : list Z := le_enc 8 16 ++ le_enc 8 0 ++ ex_path ++ [0].

Lemma ex_caller :
  exists (k : kernel ram) G l, process_ok kend32 ex_tramp k 0 G l /\ k_files k = ex_ram /\ p_sz (slot k 0) = PGSIZE /\
    (23 <= length l)%nat /\ forall i, (i < length ex_data)%nat ->
      ubyte {| u_mem := k_mem k; u_pt := p_pagetable (slot k 0) |} (Z.of_nat i) = ex_data !! i.
Proof.
  destruct ex_space as (m & pt & tf & G & l & Hu & Hs & Ht & Htf & Hno & Hb & Hlen).
  destruct (page_ok_range kend32 kend32_pos tf Htf) as [Hta Htr]. assert (Htr' : 0 <= tf < 2 ^ 56) by lia.
  assert (Hd : exists l0 : list Z, forall q, owns m pt G l q <-> q ∈ l0).
  { exists (l ++ (map_to_list G).*1). intros q. rewrite elem_of_app. unfold owns. split.
    - intros [?|[[p Hp]|(va & Hva & Hv & _)]]; [by left|right|].
      + apply list_elem_of_fmap. exists (q, p). split; [done|]. by apply elem_of_map_to_list.
      + rewrite Hs, bool_decide_eq_true in Hv by done. pose proof (page_bound va ltac:(auto)). lia.
    - intros [?|([q' p] & -> & Hp%elem_of_map_to_list)%list_elem_of_fmap]; [by left|right; left; by exists p]. }
  destruct Hd as [l0 Hl0]. assert (Hfr : fresh kend32 l0 m pt m) by (split_and!; [by apply untouched_eq|done|by exists G, l]).
  assert (Hby : bytes_ok m) by (intros a w; by rewrite Hb).
  pose proof (building_start kend32 kend32_pos ex_tramp tf ltac:(done) eq_refl Htr' Hta m l0 pt m Hfr Ht Hby) as B.
  destruct (wp_elim _ _ _ (building_alloc kend32 kend32_pos ex_tramp tf ltac:(done) eq_refl Htr' Hta m l0 pt 0 _ m PGSIZE PTE_W B
    ltac:(done) ltac:(done))) as (r & m1 & _ & Hr).
  assert (Hsp : spare kend32 m (26 * PGSIZE)) by (apply (uspace_spare kend32 m pt G l); [done|done|unfold PGSIZE; lia]).
  destruct Hr as [(_ & _ & Hc)|(-> & B1 & Hc)]; apply Hc in Hsp; [by vm_compute in Hsp|]. change (Z.max 0 PGSIZE) with PGSIZE in *.
  destruct (wp_elim _ _ _ (building_copyout kend32 kend32_pos ex_tramp tf ltac:(done) eq_refl Htr' Hta m l0 pt PGSIZE (-1) _ m1 0 ex_data B1
    ltac:(done) ltac:(vm_compute; repeat constructor; congruence))) as (ok & m2 & Hrun & Hok).
  apply copyout_loop_frame in Hrun as (_ & Hk & _); [|done]. destruct ok.
  2:{ destruct Hok as [_ (a & Ha & Hn)]. destruct Hn. change (Z.of_nat (length ex_data)) with 19 in Ha.
      destruct (page_of_same 0 a) as [-> _]; change (page_of 0) with 0; unfold PGSIZE; [lia|]. split; [|lia].
      change TRAPFRAME with 0x3fffffe000. lia. }
  destruct (bd_space _ _ _ _ _ _ _ _ _ _ Hok) as (G2 & l2 & Hu2 & Hs2 & Ho2).
  exists {| k_proc := [set_mem PGSIZE pt tf proc0]; k_cpus := [Some 0%nat]; k_initproc := Some 0%nat; k_nextpid := 2;
            k_wait_lock := None; k_mem := m2; k_files := ex_ram |}, G2, l2. split_and!; try done.
  - split; try done; [cbn; lia|apply Hok| |apply Hok]. cbn. by rewrite Ho2, <-Hl0.
  - destruct Hsp as (l' & Hl' & Hb'). rewrite <-Hk in Hl'. apply (uspace_spare kend32 m2 pt G2 l2 (23 * PGSIZE)) in Hu2 as Hi; [|done].
    assert (23 * PGSIZE <= Z.of_nat (length l2) * PGSIZE); [|unfold PGSIZE in *; lia].
    apply Hi. exists l'. split; [done|]. change (pgup PGSIZE - pgup 0) with PGSIZE in Hb'. unfold PGSIZE in *. lia.
  - intros i Hi. change (length ex_data) with 19%nat in Hi. cbn [k_mem slot k_proc]. 
    change (p_pagetable _) with pt. rewrite (bd_view _ _ _ _ _ _ _ _ _ _ Hok); [|change TRAPFRAME with 0x3fffffe000; lia].
    destruct (page_of_same 0 (Z.of_nat i)) as [-> _]; change (page_of 0) with 0; [unfold PGSIZE; lia|].
    rewrite bool_decide_true by done. unfold patch. change (Z.of_nat (length ex_data)) with 19. rewrite decide_True by lia.
    rewrite Z.sub_0_r, Nat2Z.id. destruct (lookup_lt_is_Some_2 ex_data i) as [x ->]; [by change (length ex_data) with 19%nat|done].
Qed.

Lemma sys_exec_runs_witness :
  exists (k : kernel ram) G l, process_ok kend32 ex_tramp k 0 G l /\
  exists path argv k', sys_exec (EF := ram_files) kend32 ex_tramp 0 16 0 k = Ok (Z.of_nat (length argv)) k' /\
    started (XL := ram_laws) kend32 ex_tramp ex_view path argv k 0 G l k'.
Proof.
  destruct ex_caller as (k & G & l & Hok & Hf & Hsz & Hlen & Hub). exists k, G, l. split; [done|].
  set (u := {| u_mem := k_mem k; u_pt := p_pagetable (slot k 0) |}) in *.
  assert (Hpath : ustring u 16 ex_path).
  { split; [by repeat constructor|]. intros i Hi. cbn in Hi.
    replace (16 + Z.of_nat i) with (Z.of_nat (16 + i)) by lia. rewrite Hub by (change (length ex_data) with 19%nat; lia).
    by do 3 (destruct i as [|i]; [done|]); lia. }
  assert (Hword : forall j w, (j = 0 /\ w = 16 \/ j = 8 /\ w = 0)%nat -> uword u (Z.of_nat j) (Z.of_nat w)).
  { intros j w Hj. exists (slice j 8 ex_data). split_and!.
    - by destruct Hj as [[-> _]|[-> _]].
    - intros i Hi. rewrite <-Nat2Z.inj_add, Hub by (change (length ex_data) with 19%nat; lia).
      by destruct Hj as [[-> _]|[-> _]]; do 8 (destruct i as [|i]; [done|]); lia.
    - by destruct Hj as [[-> ->]|[-> ->]]. }
  destruct (sys_exec_runs (XL := ram_laws) kend32 ex_tramp ex_view k 0 G l 16 0)
    as (r & k' & Hr & [(-> & _ & Hno)|(path & argv & _ & _ & _ & _ & -> & Hst)]); try done.
  - rewrite Hf. split; [|done]. repeat constructor; vm_compute; congruence.
  - exfalso. specialize (Hno ex_path [ex_path] Hpath ltac:(done)). rewrite Hsz in Hno.
    assert (Hav : uargv u PGSIZE 0 [ex_path]).
    { split; [done|]. split; [exists 16|split; [done|]]; [|by apply (Hword 8%nat 0%nat); right].
      split_and!; [by apply (Hword 0%nat 16%nat); left|done|done|done]. }
    specialize (Hno Hav). apply ex_not_refused in Hno; cbn in *; rewrite ?length_drop in *; unfold MAXARG; lia.
  - by exists path, argv, k'.
Defined.
