(* ===== verification/ProcSpec.v ===== *)
(** * Specification of the process table

    The scheduling part of the process table as an abstract transition
    system, labelled with the critical section that runs and the value its
    system call returns: for every slot its state, channel, pid, parent and
    position, its killed flag, exit status and memory size, the process on each
    processor, and the holder of [wait_lock].  Its invariant
    says who may be whose parent, that pids identify processes, that each
    process runs on at most one processor, and that nobody sleeps in [wait]
    while it has a zombie child. *)

From S2P Require Import Prelude Layout Proc.

Module ProcSpec.
Import Proc.

(** A critical section of a process, of the scheduler or of an interrupt. *)
Inductive event : Type :=
| ESchedule (cpu i : nat)
| EYield (me : nat)
| EForkMake (me : nat)
| EForkOwn (me : nat)
| EForkRun (me : nat)
| EExit (me : nat) (status : Z)
| EExitZombie (me : nat)
| EWait (me : nat) (addr : Z)
| EWaitScan (me : nat)
| EWaitSleep (me : nat)
| ESleep (me : nat) (a : Z)
| EWoken (me : nat)
| EWakeup (me : option nat) (a : Z)
| EKill (pid : Z)
| ESetkilled (me : nat)
| EGrow (me : nat) (n : Z).

Record core : Type := {
  c_state : procstate;
  c_chan : chan;
  c_pid : Z;
  c_parent : option nat;
  c_at : position;
}.

(** The killed flag, the exit status and the memory size. *)
Record extra : Type := {
  x_killed : Z;
  x_status : Z;
  x_sz : Z;
}.

Record table : Type := {
  tp : nat -> core;
  tcpu : nat -> option nat;
  tinit : option nat;
  tnext : Z;
  tlock : option nat;
  tx : nat -> extra;
}.

(** Tables are compared slot by slot. *)
#[global] Instance table_equiv : Equiv table := fun t t' =>
  (forall i, tp t i = tp t' i) /\ (forall c, tcpu t c = tcpu t' c) /\
  tinit t = tinit t' /\ tnext t = tnext t' /\ tlock t = tlock t' /\ (forall i, tx t i = tx t' i).

#[global] Instance table_equivalence : Equivalence (≡@{table}).
Proof.
  split.
  - done.
  - intros t t' (H1 & H2 & H3 & H4 & H5 & H6). by split_and!.
  - intros t t' t'' (H1 & H2 & H3 & H4 & H5 & H6) (G1 & G2 & G3 & G4 & G5 & G6).
    split_and!; try congruence; intros; by rewrite ?H1, ?H2, ?H6.
Qed.

(** ** Updates *)

Definition with_state (v : procstate) (c : core) : core :=
  {| c_state := v; c_chan := c_chan c; c_pid := c_pid c; c_parent := c_parent c; c_at := c_at c |}.
Definition with_chan (v : chan) (c : core) : core :=
  {| c_state := c_state c; c_chan := v; c_pid := c_pid c; c_parent := c_parent c; c_at := c_at c |}.
Definition with_pid (v : Z) (c : core) : core :=
  {| c_state := c_state c; c_chan := c_chan c; c_pid := v; c_parent := c_parent c; c_at := c_at c |}.
Definition with_parent (v : option nat) (c : core) : core :=
  {| c_state := c_state c; c_chan := c_chan c; c_pid := c_pid c; c_parent := v; c_at := c_at c |}.
Definition with_at (v : position) (c : core) : core :=
  {| c_state := c_state c; c_chan := c_chan c; c_pid := c_pid c; c_parent := c_parent c; c_at := v |}.
Definition no_core : core :=
  {| c_state := UNUSED; c_chan := NoChan; c_pid := 0; c_parent := None; c_at := AtUser |}.

Definition tmap (f : nat -> core -> core) (t : table) : table :=
  {| tp i := f i (tp t i); tcpu := tcpu t; tinit := tinit t; tnext := tnext t; tlock := tlock t; tx := tx t |}.
Definition tupd (i : nat) (f : core -> core) : table -> table :=
  tmap (fun j c => if decide (j = i) then f c else c).
Definition tenter (cpu i : nat) (t : table) : table :=
  {| tp := tp t; tcpu c := if decide (c = cpu) then Some i else tcpu t c;
     tinit := tinit t; tnext := tnext t; tlock := tlock t; tx := tx t |}.
Definition tleave (i : nat) (t : table) : table :=
  {| tp := tp t; tcpu c := if decide (tcpu t c = Some i) then None else tcpu t c;
     tinit := tinit t; tnext := tnext t; tlock := tlock t; tx := tx t |}.
Definition tnextpid (t : table) : table :=
  {| tp := tp t; tcpu := tcpu t; tinit := tinit t; tnext := tnext t + 1; tlock := tlock t; tx := tx t |}.
Definition tsetlock (v : option nat) (t : table) : table :=
  {| tp := tp t; tcpu := tcpu t; tinit := tinit t; tnext := tnext t; tlock := v; tx := tx t |}.


Definition no_extra : extra := {| x_killed := 0; x_status := 0; x_sz := 0 |}.
Definition with_killed (v : Z) (x : extra) : extra := {| x_killed := v; x_status := x_status x; x_sz := x_sz x |}.
Definition with_status (v : Z) (x : extra) : extra := {| x_killed := x_killed x; x_status := v; x_sz := x_sz x |}.
Definition with_sz (v : Z) (x : extra) : extra := {| x_killed := x_killed x; x_status := x_status x; x_sz := v |}.
Definition textra (i : nat) (f : extra -> extra) (t : table) : table :=
  {| tp := tp t; tcpu := tcpu t; tinit := tinit t; tnext := tnext t; tlock := tlock t;
     tx j := if decide (j = i) then f (tx t j) else tx t j |}.

(** The slot is free again. *)
Definition tfree (i : nat) (t : table) : table :=
  textra i (fun _ => no_extra) (tupd i (fun _ => no_core) t).

(** Everybody asleep on [ch] becomes runnable. *)
Definition twake (ch : chan) : table -> table :=
  tmap (fun _ c => if decide (c_state c = SLEEPING /\ c_chan c = ch) then with_state RUNNABLE c else c).
(** The children of [i] go to [n]. *)
Definition tadopt (i n : nat) : table -> table :=
  tmap (fun _ c => if decide (c_parent c = Some i) then with_parent (Some n) c else c).

(** ** Transitions *)

Definition on_cpu (t : table) (i : nat) (p : position) : Prop :=
  c_state (tp t i) = RUNNING /\ c_at (tp t i) = p.

Definition holding (p : position) : bool := match p with WaitSleep _ => true | _ => false end.

(** The position [sleep] returns to. *)
Definition resume (o : option Z) : position :=
  match o with Some a => Waiting a | None => AtUser end.

(** [wakeup(p->parent)] *)
Definition parent_chan (o : option nat) : chan :=
  match o with Some j => ProcChan j | None => NoChan end.

(** The size [growproc] leaves: an overflowing request changes nothing. *)
Definition grown (sz n : Z) : Z :=
  let new := u64 (sz + n) in
  if 0 <? n then Z.max sz new else if n <? 0 then Z.min sz new else sz.

Definition no_zombie (t : table) (i : nat) : Prop :=
  forall j, c_parent (tp t j) = Some i -> c_state (tp t j) <> ZOMBIE.

(** [kill] of the process in slot [i]. *)
Definition tkill (i : nat) (t : table) : table :=
  textra i (with_killed 1)
    (tupd i (fun c => if decide (c_state c = SLEEPING) then with_state RUNNABLE c else c) t).

(** [tstep e t r t']: section [e] takes the table from [t] to [t'], and when it
    ends a system call, this returns [r]. *)
Inductive tstep : event -> table -> option Z -> table -> Prop :=
| ts_run t c i : tcpu t c = None -> c_state (tp t i) = RUNNABLE ->
    tstep (ESchedule c i) t None (tenter c i (tupd i (with_state RUNNING) t))
| ts_pass t c i : tcpu t c = None -> c_state (tp t i) <> RUNNABLE -> tstep (ESchedule c i) t None t
| ts_yield t i : c_state (tp t i) = RUNNING -> holding (c_at (tp t i)) = false ->
    tstep (EYield i) t None (tleave i (tupd i (with_state RUNNABLE) t))
| ts_fork_full t i : on_cpu t i AtUser -> (forall j, (j < NPROC)%nat -> c_state (tp t j) <> UNUSED) ->
    tstep (EForkMake i) t (Some (-1)) t
| ts_fork_fail t i np : on_cpu t i AtUser -> c_state (tp t np) = UNUSED ->
    tstep (EForkMake i) t (Some (-1)) (textra np (fun _ => no_extra) (tnextpid t))
| ts_fork_make t i np : on_cpu t i AtUser -> c_state (tp t np) = UNUSED ->
    tstep (EForkMake i) t None (tupd i (with_at (ForkMade np)) (textra np (with_sz (x_sz (tx t i)))
      (tupd np (fun c => with_state USED (with_pid (tnext t) c)) (tnextpid t))))
| ts_fork_own t i np : on_cpu t i (ForkMade np) -> tlock t = None ->
    tstep (EForkOwn i) t None (tupd i (with_at (ForkOwned np)) (tupd np (with_parent (Some i)) t))
| ts_fork_run t i np : on_cpu t i (ForkOwned np) ->
    tstep (EForkRun i) t (Some (c_pid (tp t np)))
      (tupd i (with_at AtUser) (tupd np (with_state RUNNABLE) t))
| ts_exit t i st : on_cpu t i AtUser -> tinit t <> Some i ->
    tstep (EExit i st) t None (tupd i (with_at (Exiting st)) t)
| ts_zombie t i st n (kids : bool) t1 : on_cpu t i (Exiting st) -> tlock t = None ->
    tinit t = Some n -> (kids = false -> forall j, c_parent (tp t j) <> Some i) ->
    (kids = true -> exists j, c_parent (tp t j) = Some i) ->
    t1 = (if kids then twake (ProcChan n) (tadopt i n t) else t) ->
    tstep (EExitZombie i) t None (tleave i (textra i (with_status st)
      (tupd i (with_state ZOMBIE) (twake (parent_chan (c_parent (tp t1 i))) t1))))
| ts_wait t i a : on_cpu t i AtUser -> tstep (EWait i a) t None (tupd i (with_at (Waiting a)) t)
| ts_reap t i a j : on_cpu t i (Waiting a) -> tlock t = None ->
    c_parent (tp t j) = Some i -> c_state (tp t j) = ZOMBIE ->
    tstep (EWaitScan i) t (Some (c_pid (tp t j))) (tupd i (with_at AtUser) (tfree j t))
| ts_wait_fault t i a j : on_cpu t i (Waiting a) -> tlock t = None -> a <> 0 ->
    c_parent (tp t j) = Some i -> c_state (tp t j) = ZOMBIE ->
    tstep (EWaitScan i) t (Some (-1)) (tupd i (with_at AtUser) t)
| ts_wait_fail t i a : on_cpu t i (Waiting a) -> tlock t = None -> no_zombie t i ->
    (forall j, c_parent (tp t j) <> Some i) \/ x_killed (tx t i) <> 0 ->
    tstep (EWaitScan i) t (Some (-1)) (tupd i (with_at AtUser) t)
| ts_wait_commit t i a : on_cpu t i (Waiting a) -> tlock t = None -> no_zombie t i ->
    (exists j, c_parent (tp t j) = Some i) -> x_killed (tx t i) = 0 ->
    tstep (EWaitScan i) t None (tsetlock (Some i) (tupd i (with_at (WaitSleep a)) t))
| ts_wait_sleep t i a : on_cpu t i (WaitSleep a) ->
    tstep (EWaitSleep i) t None (tleave i (tupd i (fun c => with_state SLEEPING (with_chan (ProcChan i)
      (with_at (Asleep (Some a)) c))) (tsetlock None t)))
| ts_sleep t i a : on_cpu t i AtUser ->
    tstep (ESleep i a) t None (tleave i (tupd i (fun c => with_state SLEEPING (with_chan (AddrChan a)
      (with_at (Asleep None) c))) t))
| ts_woken t i o : on_cpu t i (Asleep o) ->
    tstep (EWoken i) t None (tupd i (fun c => with_chan NoChan (with_at (resume o) c)) t)
| ts_wakeup t me a : (forall i, me = Some i -> c_state (tp t i) = RUNNING) ->
    tstep (EWakeup me a) t None (twake (AddrChan a) t)
| ts_kill t pid i : (i < NPROC)%nat -> c_pid (tp t i) = pid -> (forall j, (j < i)%nat -> c_pid (tp t j) <> pid) ->
    tstep (EKill pid) t (Some 0) (tkill i t)
| ts_kill_none t pid : (forall i, (i < NPROC)%nat -> c_pid (tp t i) <> pid) ->
    tstep (EKill pid) t (Some (-1)) t
| ts_setkilled t i : c_state (tp t i) = RUNNING ->
    tstep (ESetkilled i) t None (textra i (with_killed 1) t)
| ts_grow t i n : on_cpu t i AtUser ->
    tstep (EGrow i n) t (Some 0) (textra i (with_sz (grown (x_sz (tx t i)) n)) t)
| ts_grow_fail t i n : on_cpu t i AtUser -> 0 < n -> tstep (EGrow i n) t (Some (-1)) t.

(** ** The invariant *)

Definition alive (s : procstate) : Prop := s = SLEEPING \/ s = RUNNABLE \/ s = RUNNING.

Definition forking (p : position) : option nat :=
  match p with ForkMade np | ForkOwned np => Some np | _ => None end.

(** Asleep in [wait], or about to be. *)
Definition in_wait (i : nat) (c : core) : Prop :=
  holding (c_at c) = true \/ (c_state c = SLEEPING /\ c_chan c = ProcChan i).

Record tinv (t : table) : Prop := {
  ti_unused : forall i, c_state (tp t i) = UNUSED -> tp t i = no_core;
  ti_pid : forall i, c_state (tp t i) <> UNUSED -> 0 < c_pid (tp t i) < tnext t;
  ti_pid_inj : forall i j, c_state (tp t i) <> UNUSED -> c_pid (tp t i) = c_pid (tp t j) -> i = j;
  ti_cpu : forall c i, tcpu t c = Some i -> c_state (tp t i) = RUNNING;
  ti_running : forall i, c_state (tp t i) = RUNNING -> exists c, tcpu t c = Some i;
  ti_cpu_one : forall c c' i, tcpu t c = Some i -> tcpu t c' = Some i -> c = c';
  ti_init : exists n, tinit t = Some n /\ alive (c_state (tp t n)) /\
    forall st, c_at (tp t n) <> Exiting st;
  ti_parent : forall i j, c_parent (tp t i) = Some j -> alive (c_state (tp t j));
  ti_orphan : forall i, c_state (tp t i) <> UNUSED -> c_state (tp t i) <> USED ->
    tinit t <> Some i -> c_parent (tp t i) <> None;
  ti_used : forall i, c_state (tp t i) = USED -> c_at (tp t i) = AtUser;
  ti_fork : forall i np, forking (c_at (tp t i)) = Some np ->
    alive (c_state (tp t i)) /\ c_state (tp t np) = USED;
  ti_fork_one : forall i j np, forking (c_at (tp t i)) = Some np ->
    forking (c_at (tp t j)) = Some np -> i = j;
  ti_owned : forall i np, c_at (tp t i) = ForkOwned np -> c_parent (tp t np) <> None;
  ti_lock : forall i, tlock t = Some i <-> holding (c_at (tp t i)) = true;
  ti_hold : forall i, holding (c_at (tp t i)) = true -> c_state (tp t i) = RUNNING;
  ti_wait : forall i j, c_parent (tp t j) = Some i -> c_state (tp t j) = ZOMBIE ->
    ~ in_wait i (tp t i);
}.

#[global] Instance tinv_proper : Proper ((≡) ==> impl) tinv.
Proof.
  intros [p c n x l e] [p' c' n' x' l' e'] (H1 & H2 & H3 & H4 & H5 & _). cbn in *. subst n' x' l'.
  intros []. cbn in *. split; cbn; intros; rewrite <- ?H1, <- ?H2 in *; eauto.
  - destruct (ti_running0 i) as [c0 Hc]; [done|]. exists c0. by rewrite <- H2.
  - destruct ti_init0 as (m & Hm & Ha & He). exists m. split; [done|].
    by rewrite <- H1.
Qed.

(** ** Steps that keep the family tree *)

(** Alive states are told apart only by the scheduler. *)
Definition phase (s : procstate) : nat :=
  match s with UNUSED => 0 | USED => 1 | ZOMBIE => 3 | _ => 2 end.

Lemma alive_phase s : alive s <-> phase s = 2%nat.
Proof. unfold alive. destruct s; cbn; naive_solver. Qed.

Lemma phase_eq s s' r : phase s = phase s' -> phase r <> 2%nat -> s = r <-> s' = r.
Proof. destruct s, s', r; cbn; naive_solver. Qed.

(** What a step other than [fork], [exit] and a successful [wait] leaves. *)
Record keeps (t t' : table) : Prop := {
  kp_phase : forall i, phase (c_state (tp t' i)) = phase (c_state (tp t i));
  kp_pid : forall i, c_pid (tp t' i) = c_pid (tp t i);
  kp_parent : forall i, c_parent (tp t' i) = c_parent (tp t i);
  kp_fork : forall i, forking (c_at (tp t' i)) = forking (c_at (tp t i));
  kp_owned : forall i np, c_at (tp t' i) = ForkOwned np -> c_at (tp t i) = ForkOwned np;
  kp_dead : forall i, phase (c_state (tp t i)) <> 2%nat -> tp t' i = tp t i;
  kp_init : tinit t' = tinit t;
  kp_next : tnext t <= tnext t';
  kp_exit : forall i st, tinit t = Some i -> c_at (tp t' i) = Exiting st -> c_at (tp t i) = Exiting st;
  kp_wait : forall i, in_wait i (tp t' i) -> in_wait i (tp t i) \/
    forall j, c_parent (tp t j) = Some i -> c_state (tp t j) <> ZOMBIE;
}.

(** The processors and the lock agree with the slots. *)
Record placed (t : table) : Prop := {
  pl_cpu : forall c i, tcpu t c = Some i -> c_state (tp t i) = RUNNING;
  pl_running : forall i, c_state (tp t i) = RUNNING -> exists c, tcpu t c = Some i;
  pl_one : forall c c' i, tcpu t c = Some i -> tcpu t c' = Some i -> c = c';
  pl_lock : forall i, tlock t = Some i <-> holding (c_at (tp t i)) = true;
  pl_hold : forall i, holding (c_at (tp t i)) = true -> c_state (tp t i) = RUNNING;
}.

Lemma tinv_placed t : tinv t -> placed t.
Proof. intros []. by split. Qed.

Lemma keeps_inv t t' : tinv t -> keeps t t' -> placed t' -> tinv t'.
Proof.
  intros I [] [].
  assert (forall i r, phase r <> 2%nat -> c_state (tp t' i) = r <-> c_state (tp t i) = r) as Hp
    by (intros; by apply phase_eq).
  split; try done; intros *; rewrite ?kp_pid0, ?kp_parent0, ?kp_fork0, ?kp_init0, ?Hp by done.
  - intros Hu. rewrite kp_dead0 by (by rewrite Hu). by apply I.
  - intros Hu. pose proof (ti_pid t I i Hu). lia.
  - apply I.
  - destruct (ti_init t I) as (n & Hn & Ha & He). exists n. split; [done|].
    rewrite alive_phase, kp_phase0, <- alive_phase. split; [done|].
    intros st Hs. by apply (He st), (kp_exit0 n).
  - rewrite alive_phase, kp_phase0, <- alive_phase. apply I.
  - apply I.
  - intros Hu. rewrite kp_dead0 by (by rewrite Hu). by apply I.
  - rewrite alive_phase, kp_phase0, <- alive_phase. apply I.
  - apply I.
  - intros Ho. apply kp_owned0 in Ho. by eapply ti_owned.
  - intros Hc Hz Hw. destruct (kp_wait0 _ Hw) as [Hw'|Hn]; [|by eapply Hn].
    by eapply ti_wait.
Qed.

(** A slot that changes among the alive states. *)
Lemma keeps_upd t i f :
  phase (c_state (tp t i)) = 2%nat -> phase (c_state (f (tp t i))) = 2%nat ->
  c_pid (f (tp t i)) = c_pid (tp t i) -> c_parent (f (tp t i)) = c_parent (tp t i) ->
  forking (c_at (f (tp t i))) = forking (c_at (tp t i)) ->
  (forall np, c_at (f (tp t i)) = ForkOwned np -> c_at (tp t i) = ForkOwned np) ->
  (forall st, tinit t = Some i -> c_at (f (tp t i)) = Exiting st -> c_at (tp t i) = Exiting st) ->
  (in_wait i (f (tp t i)) -> in_wait i (tp t i) \/
    forall j, c_parent (tp t j) = Some i -> c_state (tp t j) <> ZOMBIE) ->
  keeps t (tupd i f t).
Proof.
  intros H1 H2 H3 H4 H5 H6 H7 H8. split; cbn; try done; intros j; try intros ?;
    destruct (decide (j = i)) as [->|]; try done; try lia; try congruence; auto.
Qed.

Lemma keeps_leave t t' i : keeps t t' -> keeps t (tleave i t').
Proof. intros []. by split. Qed.
Lemma keeps_enter t t' c i : keeps t t' -> keeps t (tenter c i t').
Proof. intros []. by split. Qed.
Lemma keeps_lock t t' l : keeps t t' -> keeps t (tsetlock l t').
Proof. intros []. by split. Qed.

(** Somebody wakes up: from asleep to runnable. *)
Lemma keeps_wake t ch : keeps t (twake ch t).
Proof.
  assert (forall i, tp (twake ch t) i = tp t i \/
    (c_state (tp t i) = SLEEPING /\ tp (twake ch t) i = with_state RUNNABLE (tp t i))) as Hw.
  { intros i. cbn. destruct (decide (_ /\ _)) as [[Hs _]|]; auto. }
  split; try done; intros i; destruct (Hw i) as [E|[Hs E]]; rewrite E, ?Hs; cbn; auto; try done.
  unfold in_wait. cbn. rewrite Hs. intros [?|[? _]]; [by left; left|done].
Qed.

Lemma placed_wake t ch : placed t -> placed (twake ch t).
Proof.
  intros []. split; cbn; try done.
  - intros c i Hc. specialize (pl_cpu0 c i Hc). destruct (decide (_ /\ _)) as [[Hs _]|]; [congruence|done].
  - intros i Hi. apply pl_running0. by destruct (decide (_ /\ _)) as [[Hs _]|].
  - intros i. rewrite pl_lock0. by destruct (decide (_ /\ _)).
  - intros i Hi. destruct (decide (_ /\ _)) as [[Hs _]|]; [|by apply pl_hold0].
    cbn in Hi. specialize (pl_hold0 i Hi). congruence.
Qed.

(** The slot keeps its state and its hold on the lock. *)
Lemma placed_upd t i f :
  placed t -> c_state (f (tp t i)) = c_state (tp t i) ->
  holding (c_at (f (tp t i))) = holding (c_at (tp t i)) -> placed (tupd i f t).
Proof.
  intros [] Hs Hh. split; cbn; try done; intros j; try intros k; try intros Hj;
    match goal with |- context [decide (?a = i)] => destruct (decide (a = i)) as [->|] | _ => idtac end;
    repeat match goal with H : context [decide (?a = i)] |- _ => destruct (decide (a = i)) as [->|] end;
    rewrite ?Hs, ?Hh in *; eauto.
Qed.

Lemma placed_rouse t i s :
  placed t -> c_state (tp t i) <> RUNNING -> s <> RUNNING -> placed (tupd i (with_state s) t).
Proof.
  intros [] Hi Hs. split; cbn; try done.
  - intros c j Hc. destruct (decide (j = i)) as [->|]; [|eauto]. by apply pl_cpu0 in Hc.
  - intros j. destruct (decide (j = i)) as [->|]; [done|eauto].
  - intros j. rewrite pl_lock0. by destruct (decide (j = i)) as [->|].
  - intros j. destruct (decide (j = i)) as [->|]; [|eauto]. intros Hh. by apply pl_hold0 in Hh.
Qed.

Lemma placed_leave t i f :
  placed t -> holding (c_at (tp t i)) = false -> c_state (f (tp t i)) <> RUNNING ->
  holding (c_at (f (tp t i))) = false -> placed (tleave i (tupd i f t)).
Proof.
  intros [] Hh Hf Hh'. split; cbn.
  - intros c j. destruct (decide (tcpu t c = Some i)) as [|Hc]; [done|]. intros E.
    destruct (decide (j = i)) as [->|]; [done|eauto].
  - intros j. destruct (decide (j = i)) as [->|Hne]; [done|]. intros Hr.
    destruct (pl_running0 j Hr) as [c Hc]. exists c. rewrite Hc. rewrite decide_False; [done|congruence].
  - intros c c' j. destruct (decide _); [done|]. destruct (decide _); [done|]. eauto.
  - intros j. rewrite pl_lock0. destruct (decide (j = i)) as [->|]; [|done]. by rewrite Hh, Hh'.
  - intros j. destruct (decide (j = i)) as [->|]; [by rewrite Hh'|eauto].
Qed.

Lemma placed_enter t c i :
  placed t -> tcpu t c = None -> c_state (tp t i) = RUNNABLE ->
  placed (tenter c i (tupd i (with_state RUNNING) t)).
Proof.
  intros [] Hc Hi. assert (forall c', tcpu t c' <> Some i) as Hoff.
  { intros c' Hc'. apply pl_cpu0 in Hc'. congruence. }
  split; cbn.
  - intros c' j. destruct (decide (c' = c)) as [->|].
    + intros [= ->]. by rewrite decide_True.
    + intros Hj. rewrite decide_False; [eauto|]. intros ->. by apply Hoff in Hj.
  - intros j. destruct (decide (j = i)) as [->|]; [exists c; by rewrite decide_True|].
    intros Hj. destruct (pl_running0 j Hj) as [c' Hc']. exists c'. rewrite decide_False; [done|congruence].
  - intros c1 c2 j. destruct (decide (c1 = c)) as [->|], (decide (c2 = c)) as [->|]; [done| | |eauto].
    + intros [= ->] H2. by apply Hoff in H2.
    + intros H1 [= ->]. by apply Hoff in H1.
  - intros j. rewrite pl_lock0. by destruct (decide (j = i)) as [->|].
  - intros j. destruct (decide (j = i)) as [->|]; [done|eauto].
Qed.

(** Taking the lock before sleeping, and sleeping. *)
Lemma placed_commit t i a :
  placed t -> tlock t = None -> c_state (tp t i) = RUNNING ->
  placed (tsetlock (Some i) (tupd i (with_at (WaitSleep a)) t)).
Proof.
  intros [] Hl Hr. assert (forall j, holding (c_at (tp t j)) = false) as Hnone.
  { intros j. destruct (holding _) eqn:E; [|done]. apply pl_lock0 in E. congruence. }
  split; cbn; try done.
  - intros c j Hj. destruct (decide (j = i)) as [->|]; eauto.
  - intros j. destruct (decide (j = i)) as [->|]; eauto.
  - intros j. destruct (decide (j = i)) as [->|]; [done|]. rewrite Hnone. naive_solver.
  - intros j. destruct (decide (j = i)) as [->|]; [done|eauto].
Qed.

Lemma placed_sleep t i a :
  placed t -> c_at (tp t i) = WaitSleep a ->
  placed (tleave i (tupd i (fun c => with_state SLEEPING (with_chan (ProcChan i)
    (with_at (Asleep (Some a)) c))) (tsetlock None t))).
Proof.
  intros [] Ha. assert (forall j, j <> i -> holding (c_at (tp t j)) = false) as Hnone.
  { intros j Hne. destruct (holding _) eqn:E; [|done]. apply pl_lock0 in E.
    assert (tlock t = Some i) by (apply pl_lock0; by rewrite Ha). congruence. }
  split; cbn.
  - intros c j. destruct (decide (tcpu t c = Some i)) as [|Hc]; [done|]. intros E.
    destruct (decide (j = i)) as [->|]; [done|eauto].
  - intros j. destruct (decide (j = i)) as [->|Hne]; [done|]. intros Hr.
    destruct (pl_running0 j Hr) as [c Hc]. exists c. rewrite Hc. rewrite decide_False; [done|congruence].
  - intros c c' j. destruct (decide _); [done|]. destruct (decide _); [done|]. eauto.
  - intros j. destruct (decide (j = i)) as [->|]; [done|]. by rewrite Hnone.
  - intros j. destruct (decide (j = i)) as [->|]; [done|eauto].
Qed.

(** ** Steps that change the family tree *)

Lemma no_lock_no_holder t : tinv t -> tlock t = None -> forall i, holding (c_at (tp t i)) = false.
Proof.
  intros I Hl i. destruct (holding _) eqn:E; [|done]. apply (ti_lock t I) in E. congruence.
Qed.

Lemma alive_states s : alive s -> s <> UNUSED /\ s <> USED /\ s <> ZOMBIE.
Proof. by intros [->|[->| ->]]. Qed.

(** A fresh slot. *)
Lemma inv_make t np :
  tinv t -> c_state (tp t np) = UNUSED ->
  tinv (tupd np (fun c => with_state USED (with_pid (tnext t) c)) (tnextpid t)).
Proof.
  intros I Hu. pose proof (ti_unused t I np Hu) as Hno.
  destruct (ti_init t I) as (n & Hn & Hal & He). destruct (alive_states _ Hal) as (Hn1 & _ & _).
  assert (Hnext : 0 < tnext t) by (pose proof (ti_pid t I n Hn1); lia).
  assert (forall j, c_pid (tp t j) <> tnext t) as Hfresh.
  { intros j. destruct (decide (c_state (tp t j) = UNUSED)) as [Hj|Hj];
      [rewrite (ti_unused t I j Hj); cbn; lia|pose proof (ti_pid t I j Hj); lia]. }
  split; cbn.
  - intros j. destruct (decide (j = np)); [done|apply I].
  - intros j Hj. destruct (decide (j = np)); cbn in *; [lia|]. pose proof (ti_pid t I j Hj). lia.
  - intros j k. destruct (decide (j = np)) as [->|], (decide (k = np)) as [->|]; cbn; try done.
    + intros _ E. by destruct (Hfresh k).
    + intros _ E. by destruct (Hfresh j).
    + apply I.
  - intros c j Hc. pose proof (ti_cpu t I c j Hc). destruct (decide (j = np)); [congruence|done].
  - intros j. destruct (decide (j = np)); [done|apply I].
  - apply I.
  - exists n. rewrite decide_False by congruence. done.
  - intros j k. replace (c_parent (if decide (j = np) then _ else _)) with (c_parent (tp t j))
      by by destruct (decide (j = np)) as [->|]. intros Hp. apply (ti_parent t I) in Hp.
    rewrite decide_False; [done|]. intros ->. by apply alive_states in Hp as [? _].
  - intros j. destruct (decide (j = np)); [done|apply I].
  - intros j. destruct (decide (j = np)) as [->|]; [by rewrite Hno|apply I].
  - intros j k. destruct (decide (j = np)) as [->|]; [by rewrite Hno|]. intros Hf.
    apply (ti_fork t I) in Hf as [? Hk]. split; [done|]. by destruct (decide (k = np)).
  - intros j k m. destruct (decide (j = np)) as [->|]; [by rewrite Hno|].
    destruct (decide (k = np)) as [->|]; [by rewrite Hno|]. apply I.
  - intros j m Hj. replace (c_parent (if decide (m = np) then _ else _)) with (c_parent (tp t m))
      by by destruct (decide (m = np)) as [->|]. apply (ti_owned t I j).
    by destruct (decide (j = np)); [subst; rewrite Hno in Hj|].
  - intros j. rewrite (ti_lock t I). by destruct (decide (j = np)) as [->|].
  - intros j. destruct (decide (j = np)) as [->|]; [by rewrite Hno|apply I].
  - intros j k. destruct (decide (k = np)) as [->|]; [done|]. intros Hp Hz Hw.
    apply (ti_wait t I _ _ Hp Hz). destruct (decide (j = np)) as [->|]; [|done].
    rewrite Hno in Hw. by destruct Hw as [?|[??]].
Qed.

(** A process moves on inside [fork]. *)
Lemma inv_fork_at t i p :
  tinv t -> holding (c_at (tp t i)) = false -> holding p = false -> alive (c_state (tp t i)) ->
  (forall st, p = Exiting st -> tinit t <> Some i) ->
  (forall np, forking p = Some np -> c_state (tp t np) = USED /\
    forall j, forking (c_at (tp t j)) = Some np -> j = i) ->
  (forall np, p = ForkOwned np -> c_parent (tp t np) <> None) ->
  tinv (tupd i (with_at p) t).
Proof.
  intros I Hh Hp Hal Hx Hf Ho. destruct (alive_states _ Hal) as (Hu & Hus & Hz).
  set (t' := tupd i (with_at p) t).
  assert (forall j, c_state (tp t' j) = c_state (tp t j) /\ c_pid (tp t' j) = c_pid (tp t j) /\
    c_parent (tp t' j) = c_parent (tp t j) /\ holding (c_at (tp t' j)) = holding (c_at (tp t j)) /\
    (j <> i -> tp t' j = tp t j) /\ (in_wait j (tp t' j) -> in_wait j (tp t j))) as Hs.
  { intros j. unfold in_wait. cbn. destruct (decide (j = i)) as [->|]; cbn; rewrite ?Hh, ?Hp; done. }
  assert (forall j m, forking (c_at (tp t' j)) = Some m ->
    (j = i /\ forking p = Some m) \/ (j <> i /\ forking (c_at (tp t j)) = Some m)) as Hfk.
  { intros j m. cbn. destruct (decide (j = i)) as [->|]; cbn; auto. }
  split.
  - intros j. destruct (Hs j) as (-> & _ & _ & _ & Hj & _). intros Hju. rewrite Hj by congruence.
    by apply I.
  - intros j. destruct (Hs j) as (-> & -> & _). apply I.
  - intros j k. destruct (Hs j) as (-> & -> & _), (Hs k) as (_ & -> & _). apply I.
  - intros c j. destruct (Hs j) as (-> & _). apply I.
  - intros j. destruct (Hs j) as (-> & _). apply I.
  - apply I.
  - destruct (ti_init t I) as (n & Hn & Ha & He). exists n. destruct (Hs n) as (-> & _).
    split; [done|]. split; [done|]. cbn. destruct (decide (n = i)) as [->|]; [|done].
    intros st E. by apply (Hx st).
  - intros j k. destruct (Hs j) as (_ & _ & -> & _), (Hs k) as (-> & _). apply I.
  - intros j. destruct (Hs j) as (-> & _ & -> & _). apply I.
  - intros j. destruct (Hs j) as (-> & _ & _ & _ & Hj & _). intros Hju. rewrite Hj by congruence.
    by apply I.
  - intros j m Hm. destruct (Hs j) as (-> & _), (Hs m) as (-> & _).
    apply Hfk in Hm as [[-> Hm]|[_ Hm]]; [split; [done|by apply Hf]|by apply (ti_fork t I)].
  - intros j k m Hj Hk. apply Hfk in Hj as [[-> Hj]|[Hne Hj]], Hk as [[-> Hk]|[Hne' Hk]]; try done.
    + symmetry. by apply (Hf m).
    + by apply (Hf m).
    + by eapply ti_fork_one.
  - intros j m Hj. destruct (Hs m) as (_ & _ & -> & _). cbn in Hj.
    destruct (decide (j = i)) as [->|]; [by apply Ho|by eapply ti_owned].
  - intros j. destruct (Hs j) as (_ & _ & _ & -> & _). apply I.
  - intros j. destruct (Hs j) as (-> & _ & _ & -> & _). apply I.
  - intros j k. destruct (Hs k) as (-> & _ & -> & _). intros Hpk Hzk Hw.
    apply (Hs j) in Hw. by eapply ti_wait.
Qed.

(** The child gets its parent, and is started. *)
Lemma inv_own t np i :
  tinv t -> c_state (tp t np) = USED -> alive (c_state (tp t i)) ->
  tinv (tupd np (with_parent (Some i)) t).
Proof.
  intros I Hu Hal. set (t' := tupd np (with_parent (Some i)) t).
  assert (forall j, c_state (tp t' j) = c_state (tp t j) /\ c_pid (tp t' j) = c_pid (tp t j) /\
    c_at (tp t' j) = c_at (tp t j) /\ c_chan (tp t' j) = c_chan (tp t j) /\
    (j <> np -> tp t' j = tp t j)) as Hs.
  { intros j. cbn. destruct (decide (j = np)) as [->|]; done. }
  assert (c_parent (tp t' np) = Some i) as Hnp by (cbn; by rewrite decide_True).
  split.
  - intros j. destruct (Hs j) as (-> & _ & _ & _ & Hj). intros Hju. rewrite Hj by congruence.
    by apply I.
  - intros j. destruct (Hs j) as (-> & -> & _). apply I.
  - intros j k. destruct (Hs j) as (-> & -> & _), (Hs k) as (_ & -> & _). apply I.
  - intros c j. destruct (Hs j) as (-> & _). apply I.
  - intros j. destruct (Hs j) as (-> & _). apply I.
  - apply I.
  - destruct (ti_init t I) as (n & Hn & Ha & He). exists n. destruct (Hs n) as (-> & _ & -> & _). done.
  - intros j k. destruct (Hs k) as (-> & _). destruct (decide (j = np)) as [->|Hj].
    + rewrite Hnp. by intros [= <-].
    + destruct (Hs j) as (_ & _ & _ & _ & Heq). rewrite Heq by done. apply I.
  - intros j. destruct (Hs j) as (-> & _ & _ & _ & Hj). destruct (decide (j = np)) as [->|]; [done|].
    rewrite Hj by done. apply I.
  - intros j. destruct (Hs j) as (-> & _ & -> & _). apply I.
  - intros j m. destruct (Hs j) as (-> & _ & -> & _), (Hs m) as (-> & _). apply I.
  - intros j k m. destruct (Hs j) as (_ & _ & -> & _), (Hs k) as (_ & _ & -> & _). apply I.
  - intros j m. destruct (Hs j) as (_ & _ & -> & _), (Hs m) as (_ & _ & _ & _ & Hm).
    destruct (decide (m = np)) as [->|]; [by rewrite Hnp|]. rewrite Hm by done. apply I.
  - intros j. destruct (Hs j) as (_ & _ & -> & _). apply I.
  - intros j. destruct (Hs j) as (-> & _ & -> & _). apply I.
  - intros j k. destruct (Hs k) as (-> & _ & _ & _ & Hk). intros Hp Hz.
    rewrite Hk in Hp by congruence. unfold in_wait. destruct (Hs j) as (-> & _ & -> & -> & _).
    by eapply ti_wait.
Qed.

Lemma inv_start t np :
  tinv t -> c_state (tp t np) = USED -> c_parent (tp t np) <> None ->
  (forall j, forking (c_at (tp t j)) <> Some np) ->
  tinv (tupd np (with_state RUNNABLE) t).
Proof.
  intros I Hu Hp Hnf. set (t' := tupd np (with_state RUNNABLE) t).
  pose proof (ti_used t I np Hu) as Hat.
  assert (forall j, c_pid (tp t' j) = c_pid (tp t j) /\ c_parent (tp t' j) = c_parent (tp t j) /\
    c_at (tp t' j) = c_at (tp t j) /\ (j <> np -> tp t' j = tp t j) /\
    (c_state (tp t' j) = c_state (tp t j) \/ j = np /\ c_state (tp t' j) = RUNNABLE)) as Hs.
  { intros j. cbn. destruct (decide (j = np)) as [->|]; split_and!; try done; [by right|by left]. }
  assert (forall j s, s <> RUNNABLE -> c_state (tp t' j) = s -> c_state (tp t j) = s) as Hback.
  { intros j s Hs'. destruct (Hs j) as (_ & _ & _ & _ & [->|[_ ->]]); congruence. }
  assert (forall j, alive (c_state (tp t j)) -> alive (c_state (tp t' j))) as Hal.
  { intros j Hj. destruct (Hs j) as (_ & _ & _ & _ & [->|[_ ->]]); [done|]. unfold alive. auto. }
  assert (forall j, c_state (tp t' j) <> UNUSED -> c_state (tp t j) <> UNUSED) as Hun.
  { intros j. destruct (Hs j) as (_ & _ & _ & _ & [->|[-> _]]); [done|]. by rewrite Hu. }
  split.
  - intros j Hj. apply Hback in Hj; [|done]. destruct (Hs j) as (_ & _ & _ & Heq & _).
    rewrite Heq by congruence. by apply I.
  - intros j Hj. destruct (Hs j) as (-> & _). by apply I, Hun.
  - intros j k Hj. destruct (Hs j) as (-> & _), (Hs k) as (-> & _). by apply I, Hun.
  - intros c j Hc. pose proof (ti_cpu t I c j Hc). destruct (Hs j) as (_ & _ & _ & Heq & _).
    by rewrite Heq by congruence.
  - intros j Hj. apply Hback in Hj; [|done]. by apply I.
  - apply I.
  - destruct (ti_init t I) as (n & Hn & Ha & He). exists n. destruct (Hs n) as (_ & _ & -> & _). auto.
  - intros j k. destruct (Hs j) as (_ & -> & _). intros Hj. by eapply Hal, ti_parent.
  - intros j Hj Hj' Hi. destruct (Hs j) as (_ & -> & _ & Heq & _).
    destruct (decide (j = np)) as [->|]; [done|]. rewrite Heq in Hj, Hj' by done. by apply I.
  - intros j Hj. apply Hback in Hj; [|done]. destruct (Hs j) as (_ & _ & -> & _). by apply I.
  - intros j m. destruct (Hs j) as (_ & _ & -> & _). intros Hf.
    destruct (ti_fork t I j m Hf) as [Ha Hm]. split; [by apply Hal|].
    destruct (Hs m) as (_ & _ & _ & Heq & _).
    rewrite Heq; [done|]. intros ->. by apply Hnf in Hf.
  - intros j k m. destruct (Hs j) as (_ & _ & -> & _), (Hs k) as (_ & _ & -> & _). apply I.
  - intros j m. destruct (Hs j) as (_ & _ & -> & _), (Hs m) as (_ & -> & _). apply I.
  - intros j. destruct (Hs j) as (_ & _ & -> & _). apply I.
  - intros j. destruct (Hs j) as (_ & _ & -> & Hj & _). intros Hh.
    pose proof (ti_hold t I j Hh). rewrite Hj; [done|congruence].
  - intros j k Hk Hz Hw. destruct (Hs k) as (_ & Hpk & _). rewrite Hpk in Hk.
    apply Hback in Hz; [|done]. apply (ti_wait t I _ _ Hk Hz).
    destruct (decide (j = np)) as [->|]; [|destruct (Hs j) as (_ & _ & _ & Heq & _); by rewrite Heq in Hw].
    destruct Hw as [Hw|[Hw _]]; [left; by destruct (Hs np) as (_ & _ & <- & _)|].
    apply Hback in Hw; congruence.
Qed.

(** A reaped child leaves nothing behind. *)
Lemma inv_free t j :
  tinv t -> c_state (tp t j) = ZOMBIE -> holding (c_at (tp t j)) = false ->
  tinv (tupd j (fun _ => no_core) t).
Proof.
  intros I Hz Hh. set (t' := tupd j (fun _ => no_core) t).
  assert (forall i, (i <> j /\ tp t' i = tp t i) \/ (i = j /\ tp t' i = no_core)) as Hs.
  { intros i. cbn. destruct (decide (i = j)) as [->|]; auto. }
  assert (forall i, alive (c_state (tp t i)) -> i <> j) as Hal.
  { intros i Ha ->. by apply alive_states in Ha as (_ & _ & ?). }
  split.
  - intros i. destruct (Hs i) as [[_ ->]|[_ ->]]; [apply I|done].
  - intros i. destruct (Hs i) as [[_ ->]|[_ ->]]; [apply I|done].
  - intros i k. destruct (Hs i) as [[_ ->]|[_ ->]]; [|done].
    destruct (Hs k) as [[_ ->]|[_ ->]]; [apply I|]. intros Hu Hp.
    pose proof (ti_pid t I i Hu). cbn in Hp. lia.
  - intros c i Hc. pose proof (ti_cpu t I c i Hc) as Hr. destruct (Hs i) as [[_ ->]|[-> _]]; [done|congruence].
  - intros i. destruct (Hs i) as [[_ ->]|[_ ->]]; [apply I|done].
  - apply I.
  - destruct (ti_init t I) as (n & Hn & Ha & He). exists n.
    destruct (Hs n) as [[_ ->]|[-> _]]; [done|]. by apply Hal in Ha.
  - intros i k. destruct (Hs i) as [[_ ->]|[_ ->]]; [|done]. intros Hp.
    pose proof (ti_parent t I i k Hp) as Ha. destruct (Hs k) as [[_ ->]|[-> _]]; [done|]. by apply Hal in Ha.
  - intros i. destruct (Hs i) as [[_ ->]|[_ ->]]; [apply I|done].
  - intros i. destruct (Hs i) as [[_ ->]|[_ ->]]; [apply I|done].
  - intros i m. destruct (Hs i) as [[_ ->]|[_ ->]]; [|done]. intros Hf.
    destruct (ti_fork t I i m Hf) as [Ha Hm]. destruct (Hs m) as [[_ ->]|[-> _]]; [done|congruence].
  - intros i k m. destruct (Hs i) as [[_ ->]|[_ ->]]; [|done].
    destruct (Hs k) as [[_ ->]|[_ ->]]; [apply I|done].
  - intros i m. destruct (Hs i) as [[_ ->]|[_ ->]]; [|done]. intros Ho.
    destruct (ti_fork t I i m) as [_ Hm]; [by rewrite Ho|].
    destruct (Hs m) as [[_ ->]|[-> _]]; [by eapply ti_owned|congruence].
  - intros i. destruct (Hs i) as [[_ ->]|[-> ->]]; [apply I|].
    change (tlock t = Some j <-> false = true). by rewrite (ti_lock t I), Hh.
  - intros i. destruct (Hs i) as [[_ ->]|[_ ->]]; [apply I|done].
  - intros i k. destruct (Hs k) as [[_ ->]|[_ ->]]; [|done].
    destruct (Hs i) as [[_ ->]|[_ ->]]; [apply I|]. intros _ _ [?|[??]]; done.
Qed.

(** ** [exit] *)

(** The children of [i] go to [n], which is woken. *)
Lemma inv_adopt t i n :
  tinv t -> tlock t = None -> alive (c_state (tp t n)) ->
  tinv (twake (ProcChan n) (tadopt i n t)).
Proof.
  intros I Hl Hn. pose proof (no_lock_no_holder t I Hl) as Hh.
  assert (tinv (twake (ProcChan n) t)) as I1.
  { eapply keeps_inv; [done|apply keeps_wake|by apply placed_wake, tinv_placed]. }
  set (t1 := twake (ProcChan n) t) in *. set (t' := twake (ProcChan n) (tadopt i n t)).
  assert (forall j, tp t' j = with_parent
    (if decide (c_parent (tp t1 j) = Some i) then Some n else c_parent (tp t1 j)) (tp t1 j)) as Ht'.
  { intros j. cbn. destruct (tp t j) as [st ch pid par at_]. cbn.
    destruct (decide (par = Some i)) eqn:E; cbn; destruct (decide (_ /\ _)); cbn; by rewrite E. }
  assert (forall j, c_state (tp t' j) = c_state (tp t1 j) /\ c_pid (tp t' j) = c_pid (tp t1 j) /\
    c_at (tp t' j) = c_at (tp t1 j) /\ c_chan (tp t' j) = c_chan (tp t1 j) /\
    c_parent (tp t' j) = (if decide (c_parent (tp t1 j) = Some i) then Some n else c_parent (tp t1 j))) as Hs.
  { intros j. by rewrite Ht'. }
  assert (alive (c_state (tp t1 n))) as Hn1.
  { rewrite alive_phase, (kp_phase _ _ (keeps_wake t (ProcChan n))), <- alive_phase. done. }
  split.
  - intros j. rewrite Ht'. cbn [c_state with_parent]. intros Hu. by rewrite (ti_unused t1 I1 j Hu).
  - intros j. destruct (Hs j) as (-> & -> & _). apply I1.
  - intros j k. destruct (Hs j) as (-> & -> & _), (Hs k) as (_ & -> & _). apply I1.
  - intros c j. destruct (Hs j) as (-> & _). apply I1.
  - intros j. destruct (Hs j) as (-> & _). apply I1.
  - apply I1.
  - destruct (ti_init t1 I1) as (m & Hm & Ha & He). exists m. destruct (Hs m) as (-> & _ & -> & _). done.
  - intros j k. destruct (Hs j) as (_ & _ & _ & _ & ->), (Hs k) as (-> & _).
    destruct (decide _); [by intros [= <-]|apply I1].
  - intros j. destruct (Hs j) as (-> & _ & _ & _ & ->). destruct (decide _); [done|apply I1].
  - intros j. destruct (Hs j) as (-> & _ & -> & _). apply I1.
  - intros j m. destruct (Hs j) as (-> & _ & -> & _), (Hs m) as (-> & _). apply I1.
  - intros j k m. destruct (Hs j) as (_ & _ & -> & _), (Hs k) as (_ & _ & -> & _). apply I1.
  - intros j m. destruct (Hs j) as (_ & _ & -> & _), (Hs m) as (_ & _ & _ & _ & ->).
    destruct (decide _); [done|apply I1].
  - intros j. destruct (Hs j) as (_ & _ & -> & _). apply I1.
  - intros j. destruct (Hs j) as (-> & _ & -> & _). apply I1.
  - intros j k. destruct (Hs k) as (-> & _ & _ & _ & ->). intros Hp Hz Hw.
    assert (in_wait j (tp t1 j)) as Hw1.
    { destruct (Hs j) as (E1 & _ & E2 & E3 & _). unfold in_wait in *. by rewrite E1, E2, E3 in Hw. }
    destruct (decide _); [|by apply (ti_wait t1 I1 _ _ Hp Hz)]. injection Hp as <-.
    destruct Hw1 as [Hw1|[Hw1 Hw2]].
    + cbn in Hw1. destruct (decide (_ /\ _)); cbn in Hw1; by rewrite Hh in Hw1.
    + cbn in Hw1, Hw2. destruct (decide (_ /\ _)) as [|Hd]; [done|by destruct Hd].
Qed.

(** A process without children, whose parent is awake, becomes a zombie. *)
Lemma inv_zombie t i :
  tinv t -> tlock t = None -> c_state (tp t i) = RUNNING -> tinit t <> Some i ->
  forking (c_at (tp t i)) = None -> (forall j, c_parent (tp t j) <> Some i) ->
  (forall j, c_parent (tp t i) = Some j -> ~ in_wait j (tp t j)) ->
  tinv (tleave i (tupd i (with_state ZOMBIE) t)).
Proof.
  intros I Hl Hr Hni Hf Hkids Hwoken. pose proof (no_lock_no_holder t I Hl) as Hh.
  pose proof (placed_leave t i (with_state ZOMBIE) (tinv_placed t I) (Hh i) ltac:(done) (Hh i)) as Hpl.
  set (t' := tleave i (tupd i (with_state ZOMBIE) t)) in *.
  assert (forall j, (j <> i /\ tp t' j = tp t j) \/ (j = i /\ tp t' j = with_state ZOMBIE (tp t j))) as Hs.
  { intros j. cbn. destruct (decide (j = i)); auto. }
  assert (forall j, c_pid (tp t' j) = c_pid (tp t j) /\ c_parent (tp t' j) = c_parent (tp t j) /\
    c_at (tp t' j) = c_at (tp t j)) as Hsame by (intros j; by destruct (Hs j) as [[_ ->]|[_ ->]]).
  split; try apply Hpl.
  - intros j. destruct (Hs j) as [[_ ->]|[_ ->]]; [apply I|done].
  - intros j Hj. destruct (Hsame j) as (-> & _). apply I. destruct (Hs j) as [[_ E]|[-> _]]; congruence.
  - intros j k Hj. destruct (Hsame j) as (-> & _), (Hsame k) as (-> & _). apply I.
    destruct (Hs j) as [[_ E]|[-> _]]; congruence.
  - destruct (ti_init t I) as (n & Hn & Ha & He). exists n.
    destruct (Hs n) as [[_ ->]|[-> _]]; [done|congruence].
  - intros j k. destruct (Hsame j) as (_ & -> & _). intros Hp.
    destruct (Hs k) as [[_ ->]|[-> _]]; [by eapply ti_parent|by apply Hkids in Hp].
  - intros j Hj Hj' Hi. destruct (Hsame j) as (_ & -> & _). apply I; [| |done];
      destruct (Hs j) as [[_ E]|[-> _]]; congruence.
  - intros j. destruct (Hs j) as [[_ ->]|[_ ->]]; [apply I|done].
  - intros j m. destruct (Hs j) as [[_ ->]|[-> ->]]; [|cbn; by rewrite Hf]. intros Hj.
    destruct (ti_fork t I j m Hj) as [Ha Hm]. destruct (Hs m) as [[_ ->]|[-> _]]; [done|congruence].
  - intros j k m. destruct (Hsame j) as (_ & _ & ->), (Hsame k) as (_ & _ & ->). apply I.
  - intros j m. destruct (Hsame j) as (_ & _ & ->), (Hsame m) as (_ & -> & _). apply I.
  - intros j k. destruct (Hsame k) as (_ & -> & _). intros Hp Hz.
    destruct (Hs j) as [[_ ->]|[-> _]]; [|by apply Hkids in Hp].
    destruct (Hs k) as [[_ E]|[-> _]]; [rewrite E in Hz; by eapply ti_wait|by apply Hwoken].
Qed.

(** The last part of [exit], with the adoption before it. *)
Lemma inv_exit t i st n (kids : bool) t1 :
  tinv t -> on_cpu t i (Exiting st) -> tlock t = None -> tinit t = Some n ->
  (kids = false -> forall j, c_parent (tp t j) <> Some i) ->
  t1 = (if kids then twake (ProcChan n) (tadopt i n t) else t) ->
  tinv (tleave i (tupd i (with_state ZOMBIE) (twake (parent_chan (c_parent (tp t1 i))) t1))).
Proof.
  intros I [Hr Ha] Hl Hn Hk E1. destruct (ti_init t I) as (n' & Hn' & Hal & He).
  assert (n' = n) as -> by congruence. assert (n <> i) as Hni by (intros ->; by apply (He st)).
  assert (tinv t1) as I1 by (subst t1; destruct kids; [by apply inv_adopt|done]).
  assert (c_state (tp t1 i) = RUNNING /\ c_at (tp t1 i) = Exiting st /\ tlock t1 = None /\
    tinit t1 = Some n) as (Hr1 & Ha1 & Hl1 & Hi1).
  { subst t1. destruct kids; [cbn|done]. destruct (decide (c_parent _ = _)); cbn;
      rewrite Hr; by rewrite decide_False by naive_solver. }
  assert (forall j, c_parent (tp t1 j) <> Some i) as Hk1.
  { subst t1. destruct kids; [|by apply Hk]. intros j. cbn.
    destruct (decide (c_parent (tp t j) = Some i)); cbn; destruct (decide (_ /\ _)); cbn; congruence. }
  set (ch := parent_chan (c_parent (tp t1 i))).
  assert (tinv (twake ch t1)) as I2.
  { eapply keeps_inv; [done|apply keeps_wake|by apply placed_wake, tinv_placed]. }
  assert (tp (twake ch t1) i = tp t1 i) as E2.
  { cbn. rewrite Hr1. by rewrite decide_False by naive_solver. }
  apply inv_zombie; try done; rewrite ?E2, ?Ha1; try done; [cbn; congruence| |].
  - intros k. rewrite (kp_parent _ _ (keeps_wake t1 ch)). apply Hk1.
  - intros k Hpk [Hw|[Hw Hc]].
    + by rewrite (no_lock_no_holder _ I2 Hl1) in Hw.
    + subst ch. rewrite Hpk in Hw, Hc. cbn in Hw, Hc.
      destruct (decide (_ /\ _)) as [|Hd]; [done|by destruct Hd].
Qed.

(** ** The steps of [fork], and a successful [wait] *)

Lemma inv_fork_make t i np :
  tinv t -> on_cpu t i AtUser -> c_state (tp t np) = UNUSED ->
  tinv (tupd i (with_at (ForkMade np))
    (tupd np (fun c => with_state USED (with_pid (tnext t) c)) (tnextpid t))).
Proof.
  intros I [Hr Ha] Hu. pose proof (inv_make t np I Hu) as I1. assert (i <> np) as Hne by congruence.
  assert (tp (tupd np (fun c => with_state USED (with_pid (tnext t) c)) (tnextpid t)) i = tp t i) as Ei
    by (cbn; by rewrite decide_False).
  apply inv_fork_at; rewrite ?Ei, ?Hr, ?Ha; try done; [by right; right|]. cbn.
  intros m [= <-]. rewrite decide_True by done. split; [done|]. intros j.
  destruct (decide (j = np)) as [->|]; [by rewrite (ti_unused t I np Hu)|].
  intros Hj. apply (ti_fork t I) in Hj as [_ Hj]. congruence.
Qed.

Lemma inv_fork_own t i np :
  tinv t -> on_cpu t i (ForkMade np) ->
  tinv (tupd i (with_at (ForkOwned np)) (tupd np (with_parent (Some i)) t)).
Proof.
  intros I [Hr Ha]. destruct (ti_fork t I i np) as [Hal Hu]; [by rewrite Ha|].
  assert (i <> np) as Hne by congruence. pose proof (inv_own t np i I Hu Hal) as I1.
  assert (tp (tupd np (with_parent (Some i)) t) i = tp t i) as Ei by (cbn; by rewrite decide_False).
  apply inv_fork_at; rewrite ?Ei, ?Hr, ?Ha; try done; [by right; right| |]; cbn.
  - intros m [= <-]. rewrite decide_True by done. split; [done|]. intros j Hj.
    apply (ti_fork_one t I j i np); [|by rewrite Ha]. by destruct (decide (j = np)) as [->|].
  - intros m [= <-]. by rewrite decide_True by done.
Qed.

Lemma inv_fork_run t i np :
  tinv t -> on_cpu t i (ForkOwned np) ->
  tinv (tupd i (with_at AtUser) (tupd np (with_state RUNNABLE) t)).
Proof.
  intros I [Hr Ha]. destruct (ti_fork t I i np) as [Hal Hu]; [by rewrite Ha|].
  assert (i <> np) as Hne by congruence.
  assert (tinv (tupd i (with_at AtUser) t)) as I1 by (apply inv_fork_at; rewrite ?Ha; done).
  assert (tupd i (with_at AtUser) (tupd np (with_state RUNNABLE) t) ≡
    tupd np (with_state RUNNABLE) (tupd i (with_at AtUser) t)) as ->.
  { split_and!; try done. intros j. cbn. by destruct (decide (j = i)), (decide (j = np)). }
  apply inv_start; [done|cbn; by rewrite decide_False by congruence| |].
  - cbn. rewrite decide_False by congruence. by eapply ti_owned.
  - intros j. cbn. destruct (decide (j = i)) as [->|]; [done|]. intros Hj.
    assert (j = i) by (eapply (ti_fork_one t I); [done|by rewrite Ha]). done.
Qed.

Lemma inv_reap t i a j :
  tinv t -> on_cpu t i (Waiting a) -> tlock t = None -> c_state (tp t j) = ZOMBIE ->
  tinv (tupd i (with_at AtUser) (tupd j (fun _ => no_core) t)).
Proof.
  intros I [Hr Ha] Hl Hz. assert (i <> j) as Hne by congruence.
  pose proof (inv_free t j I Hz (no_lock_no_holder t I Hl j)) as I1.
  assert (tp (tupd j (fun _ => no_core) t) i = tp t i) as Ei by (cbn; by rewrite decide_False).
  apply inv_fork_at; rewrite ?Ei, ?Hr, ?Ha; try done. by right; right.
Qed.

Lemma keeps_sleep t i a :
  c_state (tp t i) = RUNNING -> c_at (tp t i) = WaitSleep a ->
  keeps t (tupd i (fun c => with_state SLEEPING (with_chan (ProcChan i)
    (with_at (Asleep (Some a)) c))) (tsetlock None t)).
Proof.
  intros Hr Ha. destruct (keeps_upd (tsetlock None t) i (fun c => with_state SLEEPING
    (with_chan (ProcChan i) (with_at (Asleep (Some a)) c)))); cbn; rewrite ?Hr, ?Ha; try done.
  left. left. by rewrite Ha.
Qed.

(** The invariant does not look at the flags and sizes. *)
Lemma inv_extra t i f : tinv t -> tinv (textra i f t).
Proof. by intros []. Qed.

Lemma inv_nextpid t : tinv t -> tinv (tnextpid t).
Proof. intros []. split; try done. cbn. intros j Hj. specialize (ti_pid0 j Hj). lia. Qed.

(** The updates of core and extra parts commute. *)
Lemma tupd_extra i f j g t : tupd i f (textra j g t) = textra j g (tupd i f t).
Proof. done. Qed.
Lemma tleave_extra i j g t : tleave i (textra j g t) = textra j g (tleave i t).
Proof. done. Qed.

Lemma inv_rouse t i :
  tinv t -> tinv (tupd i (fun c => if decide (c_state c = SLEEPING) then with_state RUNNABLE c else c) t).
Proof.
  intros I. pose proof (tinv_placed t I) as Hp. destruct (decide (c_state (tp t i) = SLEEPING)) as [Hi|Hi].
  - assert (tupd i (fun c => if decide (c_state c = SLEEPING) then with_state RUNNABLE c else c) t ≡
      tupd i (with_state RUNNABLE) t) as ->.
    { split_and!; try done. intros j. cbn. destruct (decide (j = i)) as [->|]; [by rewrite decide_True|done]. }
    eapply keeps_inv; [done| |apply placed_rouse; try done; congruence].
    apply keeps_upd; cbn; rewrite ?Hi; try done. unfold in_wait. cbn. naive_solver.
  - eapply tinv_proper; [|exact I]. split_and!; try done. intros j. cbn.
    destruct (decide (j = i)) as [->|]; [by rewrite decide_False|done].
Qed.

(** Every transition keeps the invariant. *)
Theorem tstep_inv e t r t' : tinv t -> tstep e t r t' -> tinv t'.
Proof.
  intros I Hst. pose proof (tinv_placed t I) as Hp.
  destruct Hst as [t c i Hc Hi|t c i Hc Hi|t i Hi Hh|t i Hon Hfull|t i np Hon Hu|t i np [Hr Ha] Hu|t i np [Hr Ha] Hl
    |t i np [Hr Ha]|t i st [Hr Ha] Hn|t i st n kids t1 Hon Hl Hn Hk Hk' E1|t i a [Hr Ha]|t i a j [Hr Ha] Hl Hpj Hz
    |t i a j [Hr Ha] Hl Hne Hpj Hz|t i a [Hr Ha] Hl Hz Hf|t i a [Hr Ha] Hl Hz Hc Hk|t i a [Hr Ha]|t i a [Hr Ha]
    |t i o [Hr Ha]|t me a Hme|t pid i Hi Hpid Hfst|t pid Hno|t i Hi|t i n Hon|t i n Hon Hn];
    unfold tfree, tkill; rewrite ?tupd_extra, ?tleave_extra; try apply inv_extra; try done.
  - eapply keeps_inv; [done| |by apply placed_enter]. apply keeps_enter, keeps_upd; cbn; try done;
      rewrite ?Hi; try done. unfold in_wait. cbn. rewrite Hi. naive_solver.
  - eapply keeps_inv; [done| |by apply placed_leave]. apply keeps_leave, keeps_upd; cbn; try done;
      rewrite ?Hi; try done. unfold in_wait. cbn. rewrite Hi. naive_solver.
  - by apply inv_nextpid.
  - by apply inv_fork_make.
  - by apply inv_fork_own.
  - by apply inv_fork_run.
  - apply inv_fork_at; rewrite ?Hr, ?Ha; try done; by right; right.
  - by eapply inv_exit.
  - apply inv_fork_at; rewrite ?Hr, ?Ha; try done. by right; right.
  - by eapply inv_reap.
  - apply inv_fork_at; rewrite ?Hr, ?Ha; try done. by right; right.
  - apply inv_fork_at; rewrite ?Hr, ?Ha; try done. by right; right.
  - eapply keeps_inv; [done| |by apply placed_commit]. apply keeps_lock, keeps_upd; cbn;
      rewrite ?Hr, ?Ha; try done. auto.
  - eapply keeps_inv; [done| |by apply placed_sleep]. by apply keeps_leave, keeps_sleep.
  - eapply keeps_inv; [done| |apply placed_leave; cbn; try done; by rewrite Ha].
    apply keeps_leave, keeps_upd; cbn; rewrite ?Hr, ?Ha; try done. unfold in_wait. cbn. naive_solver.
  - eapply keeps_inv; [done| |apply placed_upd; cbn; try done; rewrite Ha; by destruct o].
    apply keeps_upd; cbn; rewrite ?Hr, ?Ha; try done; try by destruct o.
    unfold in_wait. cbn. destruct o; naive_solver.
  - eapply keeps_inv; [done|apply keeps_wake|by apply placed_wake].
  - by apply inv_rouse.
Qed.

End ProcSpec.
