(* ===== verification/ProcStep.v ===== *)
(** * The running kernel: processes as interleaved steps

    Every processor runs the process it has switched to, one critical section
    at a time; [step] runs those sections, made of the operations of [Proc].
    Each of them makes the transition [ProcSpec] gives for it, with the same
    result, so every state the kernel reaches satisfies its invariant. *)

From S2P Require Import Prelude Layout Cstring Kalloc Vm Proc ProcSpec.

Module ProcStep.
Import Proc ProcSpec.

Definition NCPU : nat := 8.

Section Step.
Context {F : Type} `{PF : ProcFiles F}.
Context (kend trampoline : Z).
Notation K := (kernel F).

(** An event that cannot happen now. *)
Definition blocked {A} : M K A := halt (SBlock "not enabled").

(** [me] runs, and stands at a position [f] accepts. *)
Definition at_position {A} (me : nat) (f : position -> option (M K A)) : M K A :=
  p <- get_proc me ;;
  if decide (p_state p = RUNNING) then
    match f (p_at p) with Some m => m | None => blocked end
  else blocked.

Definition when_unlocked {A} (m : M K A) : M K A :=
  l <- gets k_wait_lock ;;
  match l with None => m | Some _ => blocked end.

Definition from_user {A} (me : nat) (m : M K A) : M K A :=
  at_position me (fun p => match p with AtUser => Some m | _ => None end).

Definition goto (me : nat) (p : position) : M K unit := upd me (set_at p).

(** The value is what a system call returns to its caller, when it ends. *)
Definition step (e : event) : M K (option Z) :=
  match e with
  | ESchedule cpu i =>
      c <- gets (fun k => k_cpus k !! cpu) ;;
      match c with Some None => schedule cpu i ;; ret None | _ => blocked end
  | EYield me =>
      at_position me (fun p =>
        if holding p then None else Some (yield me ;; ret None))
  | EForkMake me =>
      from_user me (
        o <- fork_make kend trampoline me ;;
        match o with
        | None => ret (Some (-1))
        | Some np => goto me (ForkMade np) ;; ret None
        end)
  | EForkOwn me =>
      at_position me (fun p =>
        match p with
        | ForkMade np =>
            Some (when_unlocked (fork_own me np ;; goto me (ForkOwned np) ;; ret None))
        | _ => None
        end)
  | EForkRun me =>
      at_position me (fun p =>
        match p with
        | ForkOwned np =>
            Some (c <- get_proc np ;; fork_run np ;; goto me AtUser ;; ret (Some (p_pid c)))
        | _ => None
        end)
  | EExit me status =>
      from_user me (exit_files me ;; goto me (Exiting status) ;; ret None)
  | EExitZombie me =>
      at_position me (fun p =>
        match p with
        | Exiting st => Some (when_unlocked (exit_zombie me st ;; ret None))
        | _ => None
        end)
  | EWait me addr => from_user me (goto me (Waiting addr) ;; ret None)
  | EWaitScan me =>
      at_position me (fun p =>
        match p with
        | Waiting addr =>
            Some (when_unlocked (
              o <- wait_scan kend me addr ;;
              match o with
              | Some r => goto me AtUser ;; ret (Some r)
              | None =>
                  modify (set_wait_lock (Some me)) ;;
                  goto me (WaitSleep addr) ;;
                  ret None
              end))
        | _ => None
        end)
  | EWaitSleep me =>
      at_position me (fun p =>
        match p with
        | WaitSleep addr =>
            Some (modify (set_wait_lock None) ;;
                  goto me (Asleep (Some addr)) ;;
                  sleep me (ProcChan me) ;;
                  ret None)
        | _ => None
        end)
  | ESleep me a =>
      from_user me (goto me (Asleep None) ;; sleep me (AddrChan a) ;; ret None)
  | EWoken me =>
      at_position me (fun p =>
        match p with
        | Asleep o => Some (sleep_return me ;; goto me (resume o) ;; ret None)
        | _ => None
        end)
  | EWakeup me a =>
      match me with
      | Some i => at_position i (fun _ => Some (wakeup me (AddrChan a) ;; ret None))
      | None => wakeup None (AddrChan a) ;; ret None
      end
  | EKill pid => r <- kill pid ;; ret (Some r)
  | ESetkilled me => at_position me (fun _ => Some (setkilled me ;; ret None))
  | EGrow me n => from_user me (r <- growproc kend me n ;; ret (Some r))
  end.

(** [procinit] and the state before it: every slot [UNUSED], no process on any
    processor. *)
Definition procinit (m : Vm.vmem) (f : F) : K :=
  {| k_proc := replicate NPROC proc0; k_cpus := replicate NCPU None; k_initproc := None;
     k_nextpid := 1; k_wait_lock := None; k_mem := m; k_files := f |}.

(** The states of the kernel from the first process on. *)
Inductive reachable : K -> Prop :=
| reach_init m f initcode k :
    userinit kend trampoline initcode (procinit m f) = Ok tt k -> reachable k
| reach_step k e r k' : reachable k -> step e k = Ok r k' -> reachable k'.

(** ** What an operation does to the table *)

Definition core_of (p : proc) : core :=
  {| c_state := p_state p; c_chan := p_chan p; c_pid := p_pid p; c_parent := p_parent p;
     c_at := p_at p |}.

Definition extra_of (p : proc) : extra :=
  {| x_killed := p_killed p; x_status := p_xstate p; x_sz := p_sz p |}.

Definition view (k : K) : table :=
  {| tp i := core_of (slot k i); tcpu c := mjoin (k_cpus k !! c); tinit := k_initproc k;
     tnext := k_nextpid k; tlock := k_wait_lock k; tx i := extra_of (slot k i) |}.

(** When [m] returns, what it returns satisfies [Q]. *)
Definition post {A} (m : M K A) (Q : A -> K -> Prop) (k : K) : Prop :=
  forall a k', m k = Ok a k' -> Q a k'.

Lemma post_ret {A} (a : A) (Q : A -> K -> Prop) k : Q a k -> post (ret a) Q k.
Proof. by intros HQ b k' [= <- <-]. Qed.
Lemma post_halt {A} e (Q : A -> K -> Prop) k : post (halt e) Q k.
Proof. by intros a k'. Qed.
Lemma post_bind {A B} (m : M K A) (f : A -> M K B) Q k :
  post m (fun a k' => post (f a) Q k') k -> post (bind m f) Q k.
Proof. unfold post, bind. intros Hm b k''. destruct (m k) as [a k'|]; [|done]. by apply Hm. Qed.
Lemma post_gets {A} (f : K -> A) Q k : Q (f k) k -> post (gets f) Q k.
Proof. by intros HQ a k' [= <- <-]. Qed.
Lemma post_modify (f : K -> K) Q k : Q tt (f k) -> post (modify f) Q k.
Proof. by intros HQ a k' [= <- <-]. Qed.
Lemma post_mono {A} (m : M K A) (Q Q' : A -> K -> Prop) k :
  post m Q k -> (forall a k', Q a k' -> Q' a k') -> post m Q' k.
Proof. intros Hm HQ a k' E. by apply HQ, Hm. Qed.

(** The table of slots, processors and locks is as before. *)
Definition untouched (k k' : K) : Prop :=
  k_proc k' = k_proc k /\ k_cpus k' = k_cpus k /\ k_initproc k' = k_initproc k /\
  k_nextpid k' = k_nextpid k /\ k_wait_lock k' = k_wait_lock k.

Lemma untouched_refl k : untouched k k.
Proof. done. Qed.
Lemma untouched_procs_trans k1 k2 k3 : untouched k1 k2 -> untouched k2 k3 -> untouched k1 k3.
Proof. unfold untouched. naive_solver congruence. Qed.

Lemma post_mem {A} (m : M Vm.vmem A) k : post (onMem m) (fun _ k' => untouched k k') k.
Proof. intros a k'. unfold onMem, lift. destruct (m (k_mem k)); [|done]. by intros [= <- <-]. Qed.
Lemma post_files {A} (m : M F A) k : post (onFiles m) (fun _ k' => untouched k k') k.
Proof. intros a k'. unfold onFiles, lift. destruct (m (k_files k)); [|done]. by intros [= <- <-]. Qed.

Definition sized (k : K) : Prop := length (k_proc k) = NPROC.

(** [k'] shows [t], and the table kept its size. *)
Definition at_table (t : table) (k' : K) : Prop := view k' ≡ t /\ sized k'.

Lemma untouched_view k k' t : untouched k k' -> at_table t k -> at_table t k'.
Proof.
  intros (E1 & E2 & E3 & E4 & E5) [Hv Hl]. split; [|unfold sized in *; congruence].
  etrans; [|exact Hv]. split_and!; cbn; try done; intros; unfold slot; congruence.
Qed.

Lemma slot_upd (k : K) i f j :
  (i < length (k_proc k))%nat ->
  slot (set_procs (alter f i (k_proc k)) k) j = if decide (j = i) then f (slot k j) else slot k j.
Proof.
  intros Hi. unfold slot. cbn. destruct (decide (j = i)) as [->|].
  - destruct (lookup_lt_is_Some_2 _ _ Hi) as [p Hp]. by rewrite list_lookup_alter_eq, Hp.
  - by rewrite list_lookup_alter_ne.
Qed.

Lemma slot_used k i : sized k -> p_state (slot k i) <> UNUSED -> (i < NPROC)%nat.
Proof.
  intros Hl Hs. destruct (decide (i < NPROC)%nat) as [|Hge]; [done|]. destruct Hs.
  unfold slot. rewrite lookup_ge_None_2; [done|]. unfold sized in Hl. lia.
Qed.

#[local] Instance tupd_proper i f : Proper ((≡) ==> (≡)) (tupd i f).
Proof. intros t t' (H1 & H2 & H3 & H4 & H5 & H6). split_and!; cbn; try done. intros j. by rewrite H1. Qed.
#[local] Instance textra_proper i f : Proper ((≡) ==> (≡)) (textra i f).
Proof. intros t t' (H1 & H2 & H3 & H4 & H5 & H6). split_and!; cbn; try done. intros j. by rewrite H6. Qed.
#[local] Instance tleave_proper i : Proper ((≡) ==> (≡)) (tleave i).
Proof. intros t t' (H1 & H2 & H3 & H4 & H5 & H6). split_and!; cbn; try done. intros j. by rewrite H2. Qed.
#[local] Instance tsetlock_proper l : Proper ((≡) ==> (≡)) (tsetlock l).
Proof. intros t t' (H1 & H2 & H3 & H4 & H5 & H6). by split_and!. Qed.
#[local] Instance tnextpid_proper : Proper ((≡) ==> (≡)) tnextpid.
Proof. intros t t' (H1 & H2 & H3 & H4 & H5 & H6). split_and!; cbn; try done. by rewrite H4. Qed.
#[local] Instance twake_proper ch : Proper ((≡) ==> (≡)) (twake ch).
Proof. intros t t' (H1 & H2 & H3 & H4 & H5 & H6). split_and!; cbn; try done. intros j. by rewrite H1. Qed.

(** An update of one slot. *)
Lemma upd_slot k i f g h t :
  at_table t k -> (i < NPROC)%nat ->
  core_of (f (slot k i)) = g (core_of (slot k i)) -> extra_of (f (slot k i)) = h (extra_of (slot k i)) ->
  post (upd i f) (fun _ k' => at_table (textra i h (tupd i g t)) k' /\
    forall j, slot k' j = if decide (j = i) then f (slot k j) else slot k j) k.
Proof.
  intros [Hv Hl] Hi Hg Hh. apply post_modify.
  assert (forall j, slot (set_procs (alter f i (k_proc k)) k) j =
    if decide (j = i) then f (slot k j) else slot k j) as Hs.
  { intros j. apply slot_upd. by rewrite Hl. }
  split; [|done]. split; [|unfold sized; cbn; by rewrite length_alter].
  rewrite <- Hv. split_and!; try done; intros j; cbn -[slot]; rewrite Hs; by destruct (decide (j = i)) as [->|].
Qed.

Lemma textra_id i t : textra i (fun x => x) t ≡ t.
Proof. split_and!; try done. intros j. cbn. by destruct (decide (j = i)). Qed.
Lemma tupd_id i t : tupd i (fun x => x) t ≡ t.
Proof. split_and!; try done. intros j. cbn. by destruct (decide (j = i)). Qed.

(** Of its core only, of the rest only, and one the table does not see. *)
Lemma upd_table k i f g t :
  at_table t k -> (i < NPROC)%nat ->
  core_of (f (slot k i)) = g (core_of (slot k i)) -> extra_of (f (slot k i)) = extra_of (slot k i) ->
  post (upd i f) (fun _ k' => at_table (tupd i g t) k' /\
    forall j, slot k' j = if decide (j = i) then f (slot k j) else slot k j) k.
Proof.
  intros Ht Hi Hg Hh. eapply post_mono; [by apply (upd_slot k i f g (fun x => x) t)|].
  intros _ k' [[Hv Hl] Hs]. split; [|done]. split; [|done]. by rewrite Hv, textra_id.
Qed.

Lemma upd_extra k i f h t :
  at_table t k -> (i < NPROC)%nat ->
  core_of (f (slot k i)) = core_of (slot k i) -> extra_of (f (slot k i)) = h (extra_of (slot k i)) ->
  post (upd i f) (fun _ k' => at_table (textra i h t) k' /\
    forall j, slot k' j = if decide (j = i) then f (slot k j) else slot k j) k.
Proof.
  intros Ht Hi Hg Hh. eapply post_mono; [by apply (upd_slot k i f (fun x => x) h t)|].
  intros _ k' [[Hv Hl] Hs]. split; [|done]. split; [|done]. by rewrite Hv, tupd_id.
Qed.

Lemma upd_hidden k i f t :
  at_table t k -> (i < NPROC)%nat -> core_of (f (slot k i)) = core_of (slot k i) ->
  extra_of (f (slot k i)) = extra_of (slot k i) ->
  post (upd i f) (fun _ k' => at_table t k' /\
    forall j, slot k' j = if decide (j = i) then f (slot k j) else slot k j) k.
Proof.
  intros Ht Hi Hg Hh. eapply post_mono; [by apply (upd_extra k i f (fun x => x) t)|].
  intros _ k' [[Hv Hl] Hs]. split; [|done]. split; [|done]. by rewrite Hv, textra_id.
Qed.

Lemma slot_view t k i : at_table t k -> tp t i = core_of (slot k i).
Proof. intros [(H & _) _]. symmetry. apply (H i). Qed.
Lemma slot_extra t k i : at_table t k -> tx t i = extra_of (slot k i).
Proof. intros [(_ & _ & _ & _ & _ & H) _]. symmetry. apply (H i). Qed.

(** ** The operations *)

Lemma freeproc_post k i t :
  at_table t k -> (i < NPROC)%nat ->
  post (freeproc kend i) (fun _ k' => at_table (tfree i t) k') k.
Proof.
  intros Ht Hi. unfold freeproc. apply post_bind, post_gets.
  apply post_bind. eapply (post_mono _ (fun _ k' => untouched k k')).
  { case_if; [apply post_mem|by apply post_ret]. }
  intros _ k1 U1. apply post_bind. eapply (post_mono _ (fun _ k' => untouched k1 k')).
  { case_if; [apply post_mem|by apply post_ret]. }
  intros _ k2 U2. eapply untouched_view in Ht; [|exact U1]. eapply untouched_view in Ht; [|exact U2].
  eapply post_mono; [by apply (upd_slot k2 i _ (fun _ => no_core) (fun _ => no_extra) t)|]. by intros _ k' [? _].
Qed.

Lemma find_unused_none l n : find_unused l n = None -> forall i p, l !! i = Some p -> p_state p <> UNUSED.
Proof.
  revert n. induction l as [|q l IH]; intros n; cbn; [done|]. destruct (decide _); [done|].
  intros Hf [|i] p; cbn; [by intros [= <-]|by eapply IH].
Qed.

Lemma find_unused_spec l n i :
  find_unused l n = Some i -> exists p, l !! (i - n)%nat = Some p /\ (n <= i)%nat /\ p_state p = UNUSED.
Proof.
  revert n. induction l as [|p l IH]; intros n; cbn; [done|].
  destruct (decide (p_state p = UNUSED)) as [Hu|]; [intros [= ->]; rewrite Nat.sub_diag; by exists p|].
  intros Hf. destruct (IH _ Hf) as (q & Hq & Hle & Hqs). exists q.
  replace (i - n)%nat with (S (i - S n)) by lia. split; [done|]. split; [lia|done].
Qed.

(** The table of a kernel after [allocproc], from [t]. *)
Definition allocated (t : table) (np : nat) : table :=
  tupd np (fun c => with_state USED (with_pid (tnext t) c)) (tnextpid t).

(** Free slots are cleared. *)
Definition clean (t : table) : Prop := forall i, c_state (tp t i) = UNUSED -> tp t i = no_core.

Lemma freed_again t np :
  clean t -> c_state (tp t np) = UNUSED ->
  tfree np (allocated t np) ≡ textra np (fun _ => no_extra) (tnextpid t).
Proof.
  intros I Hu. split_and!; try done. intros j. cbn.
  destruct (decide (j = np)) as [->|]; [by rewrite (I np Hu)|done].
Qed.

(** No slot was free, or the one taken was given back. *)
Definition no_child (t : table) (k : K) : Prop :=
  ((forall j, (j < NPROC)%nat -> c_state (tp t j) <> UNUSED) /\ at_table t k) \/
  exists np, c_state (tp t np) = UNUSED /\ at_table (textra np (fun _ => no_extra) (tnextpid t)) k.

Lemma at_table_eq t t' k : t ≡ t' -> at_table t k -> at_table t' k.
Proof. intros Ht [Hv Hl]. split; [by rewrite Hv|done]. Qed.

Lemma allocproc_post k t :
  at_table t k -> clean t ->
  post (allocproc kend trampoline) (fun o k' =>
    match o with
    | None => no_child t k'
    | Some np => (np < NPROC)%nat /\ c_state (tp t np) = UNUSED /\ at_table (allocated t np) k'
    end) k.
Proof.
  intros Ht I. unfold allocproc. apply post_bind, post_gets.
  destruct (find_unused (k_proc k) 0) as [np|] eqn:Ef; cycle 1.
  { apply post_ret. left. split; [|done]. intros j Hj. destruct Ht as [Hv Hl]. rewrite (slot_view t k j ltac:(by split)).
    unfold slot. destruct (lookup_lt_is_Some_2 (k_proc k) j) as [p Hp]; [by rewrite Hl|]. rewrite Hp. cbn.
    by eapply find_unused_none. }
  apply find_unused_spec in Ef as (p & Hp & _ & Hpu). rewrite Nat.sub_0_r in Hp.
  assert (np < NPROC)%nat as Hnp.
  { apply lookup_lt_Some in Hp. destruct Ht as [_ Hl]. unfold sized in Hl. lia. }
  assert (c_state (tp t np) = UNUSED) as Hu.
  { rewrite (slot_view t k np Ht). cbn. unfold slot. by rewrite Hp. }
  assert (tnext t = k_nextpid k) as Hn by (by destruct Ht as [(_ & _ & _ & E & _) _]).
  apply post_bind. unfold allocpid. apply post_bind, post_gets. case_if; [apply post_halt|].
  apply post_bind, post_modify, post_ret.
  assert (at_table (tnextpid t) (set_nextpid (k_nextpid k + 1) k)) as Ht0.
  { destruct Ht as [(H1 & H2 & H3 & H4 & H5 & H6) Hl]. split; [|done]. split_and!; cbn in *; try done.
    by rewrite Hn. }
  apply post_bind. eapply post_mono.
  { apply (upd_table _ np _ (fun c => with_state USED (with_pid (tnext t) c)) _ Ht0 Hnp); [by rewrite Hn|done]. }
  intros _ k1 [Ht1 _]. fold (allocated t np) in Ht1.
  pose proof (freed_again t np I Hu) as Hfree.
  apply post_bind. eapply post_mono; [apply post_mem|]. intros tf k2 U2.
  eapply untouched_view in Ht1; [|exact U2].
  apply post_bind. eapply post_mono; [by apply (upd_hidden _ np _ _ Ht1)|]. intros _ k3 [Ht3 _].
  case_if.
  { apply post_bind. eapply post_mono; [by apply (freeproc_post _ np (allocated t np))|]. intros [] k4 Ht4.
    apply post_ret. right. exists np. split; [done|]. by eapply at_table_eq. }
  apply post_bind. eapply post_mono; [apply post_mem|]. intros pt k4 U4.
  eapply untouched_view in Ht3; [|exact U4].
  apply post_bind. eapply post_mono; [by apply (upd_hidden _ np _ _ Ht3)|]. intros _ k5 [Ht5 _].
  case_if; [|by apply post_ret].
  apply post_bind. eapply post_mono; [by apply (freeproc_post _ np (allocated t np))|]. intros [] k6 Ht6.
  apply post_ret. right. exists np. split; [done|]. by eapply at_table_eq.
Qed.

Lemma dup_files_post l k : post (dup_files l) (fun _ k' => untouched k k') k.
Proof.
  revert k. induction l as [|[f|] l IH]; intros k; cbn [dup_files]; [by apply post_ret| |].
  - apply post_bind. eapply post_mono; [apply post_files|]. intros f' k1 U1.
    apply post_bind. eapply post_mono; [apply IH|]. intros r k2 U2. apply post_ret.
    exact (untouched_procs_trans _ _ _ U1 U2).
  - apply post_bind. eapply post_mono; [apply IH|]. intros r k2 U2. by apply post_ret.
Qed.

Lemma close_files_post l k : post (close_files l) (fun _ k' => untouched k k') k.
Proof.
  revert k. induction l as [|[f|] l IH]; intros k; cbn [close_files]; [by apply post_ret| |apply IH].
  apply post_bind. eapply post_mono; [apply post_files|]. intros f' k1 U1.
  eapply post_mono; [apply IH|]. intros r k2 U2. exact (untouched_procs_trans _ _ _ U1 U2).
Qed.

Lemma fork_make_post k me t :
  at_table t k -> clean t ->
  post (fork_make kend trampoline me) (fun o k' =>
    match o with
    | None => no_child t k'
    | Some np => (np < NPROC)%nat /\ c_state (tp t np) = UNUSED /\ at_table (textra np (with_sz (x_sz (tx t me))) (allocated t np)) k'
    end) k.
Proof.
  intros Ht I. unfold fork_make. apply post_bind.
  eapply post_mono; [by apply (allocproc_post k t)|]. intros [np|] k1; [|intros Hn; by apply post_ret].
  intros (Hnp & Hu & Ht1). apply post_bind, post_gets, post_bind, post_gets.
  assert (p_sz (slot k1 me) = x_sz (tx t me)) as Hsz.
  { change (tx t me) with (tx (allocated t np) me). by rewrite (slot_extra _ _ me Ht1). }
  apply post_bind. eapply post_mono; [apply post_mem|]. intros r k2 U2.
  eapply untouched_view in Ht1; [|exact U2]. case_if.
  { apply post_bind. eapply post_mono; [by apply (freeproc_post _ np (allocated t np))|].
    intros [] k3 Ht3. apply post_ret. right. exists np. split; [done|]. eapply at_table_eq; [by apply freed_again|done]. }
  apply post_bind. eapply post_mono; [by apply (upd_extra _ np _ (with_sz (p_sz (slot k1 me))) _ Ht1)|]. intros _ k3 [Ht3 _].
  apply post_bind. eapply post_mono; [apply post_mem|]. intros [] k4 U4.
  eapply untouched_view in Ht3; [|exact U4].
  apply post_bind. eapply post_mono; [apply post_mem|]. intros [] k5 U5.
  eapply untouched_view in Ht3; [|exact U5].
  apply post_bind. eapply post_mono; [apply dup_files_post|]. intros fs k6 U6.
  eapply untouched_view in Ht3; [|exact U6].
  apply post_bind. eapply (post_mono _ (fun _ k' => untouched k6 k')).
  { destruct (p_cwd _); [|apply post_halt]. apply post_bind. eapply post_mono; [apply post_files|].
    intros. by apply post_ret. }
  intros cwd k7 U7. eapply untouched_view in Ht3; [|exact U7].
  apply post_bind. eapply post_mono; [by apply (upd_hidden _ np _ _ Ht3)|]. intros _ k8 [Ht8 _].
  apply post_bind. eapply post_mono; [by apply (upd_hidden _ np _ _ Ht8)|]. intros _ k9 [Ht9 _].
  apply post_ret. by rewrite <- Hsz.
Qed.

(** [wakeup] by somebody who is not asleep. *)
Lemma wakeup_post k me ch t :
  at_table t k -> (forall i, me = Some i -> c_state (tp t i) <> SLEEPING) ->
  post (wakeup me ch) (fun _ k' => at_table (twake ch t) k' /\
    (forall j, p_pid (slot k' j) = p_pid (slot k j)) /\ k_initproc k' = k_initproc k) k.
Proof.
  intros Ht Hme. apply post_modify.
  assert (forall j, core_of (slot (set_procs (imap (wakeup_slot me ch) (k_proc k)) k) j) =
    tp (twake ch t) j) as Hs.
  { intros j. cbn. rewrite (slot_view t k j Ht). unfold slot. cbn. rewrite list_lookup_imap.
    destruct (k_proc k !! j) as [p|] eqn:Hp; cbn; [|by rewrite decide_False by naive_solver].
    unfold wakeup_slot. destruct (decide (Some j = me)) as [E|].
    - rewrite decide_False; [done|]. intros [Hsl _]. apply (Hme j); [done|].
      rewrite (slot_view t k j Ht). unfold slot. by rewrite Hp.
    - destruct (decide (p_state p = SLEEPING /\ p_chan p = ch)); by rewrite ?decide_True, ?decide_False. }
  assert (forall j, extra_of (slot (set_procs (imap (wakeup_slot me ch) (k_proc k)) k) j) = tx t j) as Hx.
  { intros j. rewrite (slot_extra t k j Ht). unfold slot. cbn. rewrite list_lookup_imap.
    destruct (k_proc k !! j) as [p|]; [|done]. cbn. unfold wakeup_slot. destruct (decide _); [done|].
    by destruct (decide _). }
  split_and!; [|..|done].
  - destruct Ht as [(H1 & H2 & H3 & H4 & H5 & H6) Hl]. split; [|unfold sized; cbn; by rewrite length_imap].
    split_and!; cbn -[slot] in *; try done.
  - intros j. change (c_pid (core_of (slot (set_procs (imap (wakeup_slot me ch) (k_proc k)) k) j)) =
      c_pid (core_of (slot k j))). rewrite Hs, <- (slot_view t k j Ht).
    apply (kp_pid _ _ (keeps_wake t ch)).
Qed.

(** One slot of [twake] and of an adoption. *)
Definition wake1 (ch : chan) (c : core) : core :=
  if decide (c_state c = SLEEPING /\ c_chan c = ch) then with_state RUNNABLE c else c.
Definition adopt1 (b : Prop) `{Decision b} (me init : nat) (c : core) : core :=
  if decide (b /\ c_parent c = Some me) then with_parent (Some init) c else c.

Lemma tp_wake ch t j : tp (twake ch t) j = wake1 ch (tp t j).
Proof. done. Qed.
Lemma wake1_idem ch c : wake1 ch (wake1 ch c) = wake1 ch c.
Proof.
  unfold wake1. destruct (decide (c_state c = SLEEPING /\ c_chan c = ch)); [|by rewrite decide_False].
  by destruct (decide _).
Qed.
Lemma wake1_parent ch v c : wake1 ch (with_parent v c) = with_parent v (wake1 ch c).
Proof. unfold wake1. cbn. by destruct (decide _). Qed.
Lemma parent_wake1 ch c : c_parent (wake1 ch c) = c_parent c.
Proof. unfold wake1. by destruct (decide _). Qed.
Lemma wake1_adopt1 (b : Prop) `{Decision b} ch me init c :
  wake1 ch (adopt1 b me init c) = adopt1 b me init (wake1 ch c).
Proof. unfold adopt1. rewrite parent_wake1. destruct (decide _); [apply wake1_parent|done]. Qed.

(** The children of [me] among the slots [lo, ..., lo + n - 1]. *)
Definition adopt_range (lo n me init : nat) : table -> table :=
  tmap (fun j => adopt1 (lo <= j < lo + n)%nat me init).

Definition adopted (lo n me init : nat) (t t' : table) : Prop :=
  exists kids : bool,
    (kids = false -> forall j, (lo <= j < lo + n)%nat -> c_parent (tp t j) <> Some me) /\
    (kids = true -> exists j, (lo <= j < lo + n)%nat /\ c_parent (tp t j) = Some me) /\
    t' ≡ (if kids then twake (ProcChan init) (adopt_range lo n me init t) else t).

Lemma tp_adopt lo n me init t j :
  tp (adopt_range lo n me init t) j = adopt1 (lo <= j < lo + n)%nat me init (tp t j).
Proof. done. Qed.

Lemma adopted_first lo n me init t t' :
  c_parent (tp t lo) = Some me ->
  adopted (S lo) n me init (twake (ProcChan init) (tupd lo (with_parent (Some init)) t)) t' ->
  adopted lo (S n) me init t t'.
Proof.
  intros Hp (kids & Hk & _ & E). exists true. split; [done|].
  split; [intros _; exists lo; split; [lia|done]|]. rewrite E. clear E.
  split_and!; try (by destruct kids). intros j. rewrite tp_wake, tp_adopt.
  set (u := twake _ (tupd _ _ _)) in *.
  assert (tp u j = wake1 (ProcChan init) (if decide (j = lo) then with_parent (Some init) (tp t j) else tp t j)) as Eu
    by done.
  assert (tp (if kids then twake (ProcChan init) (adopt_range (S lo) n me init u) else u) j =
    (if kids then adopt1 (S lo <= j < S lo + n)%nat me init (tp u j) else tp u j)) as ->.
  { destruct kids; [|done]. rewrite tp_wake, tp_adopt, wake1_adopt1. f_equal. rewrite Eu.
    apply wake1_idem. }
  destruct (decide (j = lo)) as [->|Hne].
  - unfold adopt1 at 2. rewrite decide_True by (split; [lia|done]). rewrite <- Eu.
    destruct kids; [|done]. unfold adopt1. by rewrite decide_False by lia.
  - rewrite wake1_adopt1, <- Eu. destruct kids; unfold adopt1.
    + destruct (decide _), (decide _); try done; naive_solver lia.
    + rewrite decide_False; [done|]. intros [Hj Hc]. by apply (Hk eq_refl j ltac:(lia)).
Qed.

Lemma adopted_skip lo n me init t t' :
  c_parent (tp t lo) <> Some me -> adopted (S lo) n me init t t' -> adopted lo (S n) me init t t'.
Proof.
  intros Hp (kids & Hk & Hk' & E). exists kids. split; [|split].
  - intros Hf j Hj. destruct (decide (j = lo)) as [->|]; [done|]. apply (Hk Hf). lia.
  - intros Ht. destruct (Hk' Ht) as (j & Hj & Hc). exists j. split; [lia|done].
  - rewrite E. destruct kids; [|done]. apply twake_proper. split_and!; try done. intros j.
    rewrite !tp_adopt. unfold adopt1. destruct (decide _) as [[? ?]|], (decide _) as [[? ?]|]; try done;
      destruct (decide (j = lo)) as [->|]; naive_solver lia.
Qed.

Lemma reparent_loop_post n i me init k t :
  at_table t k -> (i + n <= NPROC)%nat -> c_state (tp t me) <> SLEEPING ->
  post (reparent_loop n i me init) (fun _ k' => sized k' /\ adopted i n me init t (view k')) k.
Proof.
  revert i k t. induction n as [|n IH]; intros i k t Ht Hi Hme; cbn [reparent_loop].
  { apply post_ret. split; [apply Ht|]. exists false. split; [lia|]. split; [done|apply Ht]. }
  apply post_bind, post_gets. pose proof (slot_view t k i Ht) as Hi'.
  destruct (decide (p_parent (slot k i) = Some me)) as [Hp|Hp]; cycle 1.
  { apply post_bind, post_ret. eapply post_mono; [apply (IH (S i) k t); [done|lia|done]|].
    intros _ k' [Hl Ha]. split; [done|]. apply adopted_skip; [|done]. by rewrite Hi'. }
  apply post_bind, post_bind. eapply post_mono.
  { by apply (upd_table k i _ (with_parent (Some init)) t Ht); [lia|..]. }
  intros _ k1 [Ht1 _]. assert (forall j, c_state (tp (tupd i (with_parent (Some init)) t) j) =
    c_state (tp t j)) as Hst by (intros j; cbn; by destruct (decide (j = i))).
  eapply post_mono; [apply (wakeup_post k1 (Some me) (ProcChan init) _ Ht1)|].
  { intros j [= <-]. by rewrite Hst. }
  intros _ k2 (Ht2 & _). eapply post_mono; [apply (IH (S i) k2 _ Ht2); [lia|]|].
  { rewrite tp_wake. unfold wake1. rewrite Hst. destruct (decide _); [done|by rewrite Hst]. }
  intros _ k' [Hl Ha]. split; [done|]. apply adopted_first; [by rewrite Hi'|done].
Qed.

Lemma sched_post k me t :
  at_table t k -> post (sched me) (fun _ k' => at_table (tleave me t) k') k.
Proof.
  intros Ht. unfold sched. apply post_bind, post_gets. destruct (decide _); [apply post_halt|].
  apply post_modify. destruct Ht as [(H1 & H2 & H3 & H4 & H5 & H6) Hl]. split; [|done].
  split_and!; cbn -[slot] in *; try done. intros c. rewrite <- H2, list_lookup_fmap.
  destruct (k_cpus k !! c) as [o|]; cbn; [|done]. by destruct (decide (o = Some me)).
Qed.

(** An update of the slot that stops running. *)
Lemma leave_post k me f g t :
  at_table t k -> (me < NPROC)%nat -> core_of (f (slot k me)) = g (core_of (slot k me)) ->
  extra_of (f (slot k me)) = extra_of (slot k me) ->
  post (upd me f ;; sched me) (fun _ k' => at_table (tleave me (tupd me g t)) k') k.
Proof.
  intros Ht Hme Hg Hx. apply post_bind. eapply post_mono; [by apply (upd_table k me f g t)|].
  intros _ k1 [Ht1 _]. by apply sched_post.
Qed.

Lemma goto_post k me p t :
  at_table t k -> (me < NPROC)%nat ->
  post (goto me p) (fun _ k' => at_table (tupd me (with_at p) t) k') k.
Proof.
  intros Ht Hme. eapply post_mono; [by apply (upd_table k me _ (with_at p) t)|]. by intros _ k' [? _].
Qed.

Lemma adopted_all k me init t t' :
  at_table t k -> adopted 0 NPROC me init t t' ->
  exists kids : bool, (kids = false -> forall j, c_parent (tp t j) <> Some me) /\
    (kids = true -> exists j, c_parent (tp t j) = Some me) /\
    t' ≡ (if kids then twake (ProcChan init) (tadopt me init t) else t).
Proof.
  intros Ht (kids & Hk & Hk' & E).
  assert (forall j, ~ (j < NPROC)%nat -> c_parent (tp t j) <> Some me) as Hout.
  { intros j Hj. rewrite (slot_view t k j Ht). unfold slot. rewrite lookup_ge_None_2; [done|].
    destruct Ht as [_ Hl]. unfold sized in Hl. lia. }
  exists kids. split; [|split].
  - intros Hf j. destruct (decide (j < NPROC)%nat); [apply (Hk Hf); lia|by apply Hout].
  - intros Hk1. destruct (Hk' Hk1) as (j & _ & Hc). by exists j.
  - rewrite E. destruct kids; [|done]. apply twake_proper. split_and!; try done. intros j.
    rewrite tp_adopt. unfold adopt1. cbn. specialize (Hout j).
    destruct (decide (c_parent (tp t j) = Some me)) as [Hc|Hc].
    + rewrite decide_True; [done|]. split; [|done]. destruct (decide (j < NPROC)%nat); [lia|naive_solver].
    + rewrite decide_False; naive_solver.
Qed.

Lemma exit_zombie_post k me st t :
  at_table t k -> (me < NPROC)%nat -> on_cpu t me (Exiting st) -> tlock t = None ->
  post (exit_zombie me st) (fun _ k' => exists t', tstep (EExitZombie me) t None t' /\ at_table t' k') k.
Proof.
  intros Ht Hme Hon Hl. pose proof Hon as [Hr Ha]. unfold exit_zombie.
  assert (k_initproc k = tinit t) as Hi by (by destruct Ht as [(_ & _ & E & _) _]).
  apply post_bind. unfold reparent. apply post_bind, post_gets. rewrite Hi.
  destruct (tinit t) as [n|] eqn:Hn; [|apply post_halt].
  eapply post_mono; [apply (reparent_loop_post _ 0 me n k t Ht); [done|congruence]|].
  intros _ k1 [Hl1 Hadopt]. apply (adopted_all k) in Hadopt as (kids & Hk & Hk' & E1); [|done].
  set (t1 := if kids then twake (ProcChan n) (tadopt me n t) else t) in *.
  assert (at_table t1 k1) as Ht1 by done.
  assert (c_state (tp t1 me) = RUNNING) as Hr1.
  { subst t1. destruct kids; [|done]. cbn. destruct (decide (c_parent _ = _)); cbn; rewrite Hr;
      by rewrite decide_False by naive_solver. }
  apply post_bind, post_gets, post_bind.
  assert (p_parent (slot k1 me) = c_parent (tp t1 me)) as -> by (by rewrite (slot_view t1 k1 me Ht1)).
  fold (parent_chan (c_parent (tp t1 me))).
  eapply post_mono; [apply (wakeup_post k1 (Some me) _ t1 Ht1)|].
  { intros j [= <-]. congruence. }
  intros _ k2 (Ht2 & _). apply post_bind.
  eapply post_mono; [by apply (upd_slot k2 me _ (with_state ZOMBIE) (with_status st) _ Ht2 Hme)|].
  intros [] k3 [Ht3 _]. eapply post_mono; [by apply sched_post|]. intros [] k4 Ht4.
  eexists. split; [by eapply (ts_zombie t me st n kids t1)|exact Ht4].
Qed.

Lemma find_zombie_spec l n me :
  match find_zombie l n me with
  | (_, Some i) => exists p, l !! (i - n)%nat = Some p /\ (n <= i)%nat /\
      p_parent p = Some me /\ p_state p = ZOMBIE
  | (b, None) => (forall p, p ∈ l -> p_parent p = Some me -> p_state p <> ZOMBIE) /\
      (b = true <-> exists p, p ∈ l /\ p_parent p = Some me)
  end.
Proof.
  revert n. induction l as [|p l IH]; intros n; cbn.
  { split; [by intros p ?%not_elem_of_nil|]. split; [done|]. by intros (p & ?%not_elem_of_nil & _). }
  specialize (IH (S n)). destruct (decide (p_parent p = Some me)) as [Hp|Hp];
    [destruct (decide (p_state p = ZOMBIE)) as [Hz|Hz]|].
  { rewrite Nat.sub_diag. by exists p. }
  all: destruct (find_zombie l (S n) me) as [b [i|]]; cbn.
  1, 3: destruct IH as (q & Hq & Hle & Hqp); exists q; replace (i - n)%nat with (S (i - S n)) by lia;
    split_and!; try done; try lia; apply Hqp.
  all: destruct IH as [IH Hb]; (split; [intros q [->|Hq]%elem_of_cons; [done|by apply IH]|]).
  - split; [|done]. intros _. exists p. split; [apply list_elem_of_here|done].
  - rewrite Hb. split; intros (q & Hq & Hqp); exists q; [split; [by apply list_elem_of_further|done]|].
    apply elem_of_cons in Hq as [->|Hq]; [done|]. by split.
Qed.

Lemma slot_elem (k : K) j : p_parent (slot k j) <> None -> slot k j ∈ k_proc k.
Proof.
  unfold slot. destruct (k_proc k !! j) as [p|] eqn:Hp; [|done]. intros _. by eapply list_elem_of_lookup_2.
Qed.

(** What a scan of [wait] finds: a zombie child is reaped, unless its status
    cannot be copied out; a process without children or killed returns; only a
    process without zombie children goes to sleep. *)
Definition scanned (t : table) (me : nat) (addr : Z) (o : option Z) (k' : K) : Prop :=
  match o with
  | Some r =>
      (exists j, c_parent (tp t j) = Some me /\ c_state (tp t j) = ZOMBIE /\
        ((r = c_pid (tp t j) /\ at_table (tfree j t) k') \/ (r = -1 /\ addr <> 0 /\ at_table t k'))) \/
      (r = -1 /\ no_zombie t me /\ ((forall j, c_parent (tp t j) <> Some me) \/ x_killed (tx t me) <> 0) /\
        at_table t k')
  | None => no_zombie t me /\ (exists j, c_parent (tp t j) = Some me) /\ x_killed (tx t me) = 0 /\
      at_table t k'
  end.

Lemma wait_scan_post k me addr t :
  at_table t k -> post (wait_scan kend me addr) (scanned t me addr) k.
Proof.
  intros Ht. unfold wait_scan. apply post_bind, post_gets.
  pose proof (find_zombie_spec (k_proc k) 0 me) as Hz.
  destruct (find_zombie (k_proc k) 0 me) as [have [i|]].
  - destruct Hz as (p & Hp & _ & Hpp & Hps). rewrite Nat.sub_0_r in Hp.
    assert (tp t i = core_of p) as Ei by (rewrite (slot_view t k i Ht); unfold slot; by rewrite Hp).
    assert (i < NPROC)%nat as Hi.
    { apply lookup_lt_Some in Hp. destruct Ht as [_ Hl]. unfold sized in Hl. lia. }
    apply post_bind, post_gets, post_bind, post_gets, post_bind.
    eapply (post_mono _ (fun ok k' => untouched k k' /\ (ok = false -> addr <> 0))).
    { case_if_as Ea; [by apply post_ret|]. eapply post_mono; [apply post_mem|]. done. }
    intros ok k1 [U1 Hok]. eapply untouched_view in Ht; [|exact U1].
    destruct ok; cbn [negb].
    + apply post_bind. eapply post_mono; [by apply (freeproc_post _ i t)|]. intros [] k2 Ht2.
      apply post_ret. left. exists i. rewrite Ei. unfold slot. rewrite Hp. cbn. auto.
    + apply post_ret. left. exists i. rewrite Ei. cbn. split_and!; [done..|]. right. auto.
  - destruct Hz as [Hz Hb]. apply post_bind. unfold killed. apply post_bind, post_gets, post_ret.
    assert (no_zombie t me) as Hnz.
    { intros j. rewrite (slot_view t k j Ht). cbn. intros Hp. apply Hz; [apply slot_elem; congruence|done]. }
    pose proof (slot_extra t k me Ht) as Ex. destruct have; cbn [negb orb].
    + destruct (proj1 Hb eq_refl) as (p & (j & Hj)%list_elem_of_lookup_1 & Hp).
      assert (exists j, c_parent (tp t j) = Some me) as Hch.
      { exists j. rewrite (slot_view t k j Ht). unfold slot. by rewrite Hj. }
      assert (x_killed (tx t me) = p_killed (slot k me)) as Hk by by rewrite Ex.
      destruct (Z.eqb_spec (p_killed (slot k me)) 0); apply post_ret; [|right]; split_and!; auto; [congruence|].
      right. congruence.
    + apply post_ret. right. split_and!; auto. left. intros j. rewrite (slot_view t k j Ht). cbn. intros Hp.
      assert (false = true) by (apply Hb; exists (slot k j); split; [apply slot_elem; congruence|done]). done.
Qed.

Lemma find_pid_spec l n pid :
  match find_pid l n pid with
  | Some i => (n <= i < n + length l)%nat /\
      (forall j p, (j < i - n)%nat -> l !! j = Some p -> p_pid p <> pid) /\
      exists p, l !! (i - n)%nat = Some p /\ p_pid p = pid
  | None => forall p, p ∈ l -> p_pid p <> pid
  end.
Proof.
  revert n. induction l as [|p l IH]; intros n; cbn; [by intros p ?%not_elem_of_nil|].
  destruct (Z.eqb_spec (p_pid p) pid) as [Hp|Hp].
  { rewrite Nat.sub_diag. split_and!; [lia|lia|lia|by exists p]. }
  specialize (IH (S n)). destruct (find_pid l (S n) pid) as [i|].
  - destruct IH as (Hi & Hf & q & Hq & Hqp). replace (i - n)%nat with (S (i - S n)) by lia.
    split; [lia|]. split; [|by exists q]. intros [|j] p' Hj; cbn; [by intros [= <-]|]. apply Hf. lia.
  - intros q [->|Hq]%elem_of_cons; [done|by apply IH].
Qed.

Lemma kill_post k pid t :
  at_table t k -> post (kill pid) (fun r k' => exists t', tstep (EKill pid) t (Some r) t' /\ at_table t' k') k.
Proof.
  intros Ht. unfold kill. apply post_bind, post_gets.
  assert (length (k_proc k) = NPROC) as Hl by apply Ht.
  assert (forall j p, k_proc k !! j = Some p -> c_pid (tp t j) = p_pid p) as Hpid.
  { intros j p Hp. rewrite (slot_view t k j Ht). unfold slot. by rewrite Hp. }
  pose proof (find_pid_spec (k_proc k) 0 pid) as Hf. destruct (find_pid (k_proc k) 0 pid) as [i|]; cycle 1.
  { apply post_ret. exists t. split; [|done]. apply ts_kill_none. intros j Hj.
    destruct (lookup_lt_is_Some_2 (k_proc k) j) as [p Hp]; [by rewrite Hl|]. rewrite (Hpid j p Hp).
    apply Hf. by eapply list_elem_of_lookup_2. }
  destruct Hf as (Hi & Hfst & p & Hp & Hpp). rewrite Nat.sub_0_r in *. cbn in Hi. rewrite Hl in Hi.
  apply post_bind. eapply post_mono; [by apply (upd_extra k i _ (with_killed 1) t Ht ltac:(lia))|].
  intros _ k1 [Ht1 _]. apply post_bind. eapply post_mono.
  { apply (upd_table k1 i _ (fun c => if decide (c_state c = SLEEPING) then with_state RUNNABLE c else c) _ Ht1 ltac:(lia));
      cbn; by destruct (decide _). }
  intros _ k2 [Ht2 _]. apply post_ret. eexists. split; [|exact Ht2]. rewrite tupd_extra.
  apply (ts_kill t pid i); [lia|by rewrite (Hpid i p Hp)|]. intros j Hj.
  destruct (lookup_lt_is_Some_2 (k_proc k) j) as [q Hq]; [lia|]. rewrite (Hpid j q Hq). by apply (Hfst j).
Qed.

Lemma exit_files_post k me t :
  at_table t k -> (me < NPROC)%nat ->
  post (exit_files me) (fun _ k' => at_table t k' /\ tinit t <> Some me) k.
Proof.
  intros Ht Hme. unfold exit_files. apply post_bind, post_gets.
  destruct (decide (k_initproc k = Some me)) as [|Hn]; [apply post_halt|].
  assert (tinit t <> Some me) as Hn' by (destruct Ht as [(_ & _ & E & _) _]; cbn in E; congruence).
  apply post_bind, post_gets, post_bind. eapply post_mono; [apply close_files_post|].
  intros [] k1 U1. eapply untouched_view in Ht; [|exact U1].
  apply post_bind. eapply (post_mono _ (fun _ k' => untouched k1 k')).
  { destruct (p_cwd _); [apply post_files|apply post_halt]. }
  intros [] k2 U2. eapply untouched_view in Ht; [|exact U2].
  eapply post_mono; [by apply (upd_hidden k2 me _ t)|]. by intros _ k3 [? _].
Qed.

(** The sizes [uvmalloc] and [uvmdealloc] return. *)
Lemma uvmalloc_loop_size fuel pt old a new x m r m' :
  Vm.uvmalloc_loop kend fuel pt old a new x m = Ok r m' -> r = 0 \/ r = new.
Proof.
  revert a m. induction fuel as [|fuel IH]; intros a m; cbn [Vm.uvmalloc_loop]; [intros [= <- _]; auto|].
  case_if; [|intros [= <- _]; auto].
  intros (pa & m1 & _ & H)%bind_returns.
  destruct (pa =? 0); [apply bind_returns in H as (? & ? & _ & [= <- _]); auto|].
  apply bind_returns in H as (? & m2 & _ & H). apply bind_returns in H as (rm & m3 & _ & H).
  destruct (rm =? 0); cbn [negb] in H; [by eapply IH|].
  apply bind_returns in H as (? & m4 & _ & H). apply bind_returns in H as (? & m5 & _ & [= <- _]). auto.
Qed.

Lemma uvmalloc_size pt old new x m r m' :
  Vm.uvmalloc kend pt old new x m = Ok r m' -> r = 0 \/ r = Z.max old new.
Proof.
  unfold Vm.uvmalloc. case_if_as E; [intros [= <- _]; right; lia|]. intros H%uvmalloc_loop_size.
  destruct H as [->| ->]; [auto|right; lia].
Qed.

Lemma uvmdealloc_size pt old new m r m' :
  Vm.uvmdealloc kend pt old new m = Ok r m' -> r = Z.min old new.
Proof.
  unfold Vm.uvmdealloc. case_if_as E; [intros [= <- _]; lia|].
  intros (? & m1 & _ & [= <- _])%bind_returns. lia.
Qed.

Lemma post_mem_result {A} (m : M Vm.vmem A) (P : A -> Prop) k :
  (forall x r x', m x = Ok r x' -> P r) -> post (onMem m) (fun r k' => untouched k k' /\ P r) k.
Proof.
  intros HP a k'. unfold onMem, lift. destruct (m (k_mem k)) as [b x|] eqn:E; [|done].
  intros [= <- <-]. split; [done|]. by eapply HP.
Qed.

Lemma growproc_post k me n t :
  at_table t k -> (me < NPROC)%nat -> post (growproc kend me n) (fun r k' =>
    (r = 0 /\ at_table (textra me (with_sz (grown (x_sz (tx t me)) n)) t) k') \/
    (r = -1 /\ 0 < n /\ at_table t k')) k.
Proof.
  intros Ht Hme. unfold growproc, grown. apply post_bind, post_gets.
  assert (p_sz (slot k me) = x_sz (tx t me)) as Hsz by (by rewrite (slot_extra t k me Ht)). rewrite Hsz.
  case_if_as En; [|case_if_as En'].
  - apply post_bind. eapply post_mono; [apply post_mem_result; intros ???; apply uvmalloc_size|].
    intros sz k1 [U1 Hr]. eapply untouched_view in Ht; [|exact U1]. case_if_as E0; [apply post_ret; right; auto with lia|].
    apply post_bind. eapply post_mono; [by apply (upd_extra k1 me _ (with_sz sz) t)|]. intros _ k2 [Ht2 _].
    apply post_ret. left. split; [done|]. by destruct Hr as [?| <-].
  - apply post_bind. eapply post_mono; [apply post_mem_result; intros ???; apply uvmdealloc_size|].
    intros sz k1 [U1 <-]. eapply untouched_view in Ht; [|exact U1].
    apply post_bind. eapply post_mono; [by apply (upd_extra k1 me _ (with_sz sz) t)|]. intros _ k2 [Ht2 _].
    apply post_ret. by left.
  - apply post_ret. left. split; [done|]. eapply at_table_eq; [|exact Ht]. split_and!; try done. intros j. cbn.
    destruct (decide (j = me)) as [->|]; [|done]. by destruct (tx t me).
Qed.

(** ** Every event is a transition *)

Lemma at_position_post {A} me (f : position -> option (M K A)) Q k t :
  at_table t k ->
  (forall m, c_state (tp t me) = RUNNING -> (me < NPROC)%nat -> f (c_at (tp t me)) = Some m ->
    post m Q k) ->
  post (at_position me f) Q k.
Proof.
  intros Ht Hf. unfold at_position. apply post_bind, post_gets.
  destruct (decide (p_state (slot k me) = RUNNING)) as [Hr|]; [|apply post_halt].
  pose proof (slot_view t k me Ht) as E. assert (me < NPROC)%nat as Hme.
  { eapply slot_used; [apply Ht|]. by rewrite Hr. }
  destruct (f (p_at (slot k me))) as [m|] eqn:Em; [|apply post_halt].
  apply Hf; rewrite ?E; done.
Qed.

Lemma from_user_post {A} me (m : M K A) Q k t :
  at_table t k -> (on_cpu t me AtUser -> (me < NPROC)%nat -> post m Q k) ->
  post (from_user me m) Q k.
Proof.
  intros Ht Hm. eapply at_position_post; [done|]. intros m' Hr Hme E.
  destruct (c_at (tp t me)) eqn:Ea; try done. injection E as <-. by apply Hm.
Qed.

Lemma unlocked_post {A} (m : M K A) Q k t :
  at_table t k -> (tlock t = None -> post m Q k) -> post (when_unlocked m) Q k.
Proof.
  intros Ht Hm. unfold when_unlocked. apply post_bind, post_gets.
  destruct (k_wait_lock k) eqn:E; [apply post_halt|]. apply Hm.
  destruct Ht as [(_ & _ & _ & _ & E' & _) _]. cbn in E'. congruence.
Qed.

Definition moves (e : event) (t : table) (r : option Z) (k' : K) : Prop :=
  exists t', tstep e t r t' /\ at_table t' k'.

Lemma schedule_moves k cpu i t :
  at_table t k -> k_cpus k !! cpu = Some None -> post (schedule cpu i) (fun _ => moves (ESchedule cpu i) t None) k.
Proof.
  intros Ht Hc. unfold schedule. apply post_bind, post_gets. pose proof (slot_view t k i Ht) as E.
  assert (tcpu t cpu = None) as Hcpu.
  { destruct Ht as [(_ & H2 & _) _]. specialize (H2 cpu). cbn in H2. rewrite Hc in H2. by rewrite <- H2. }
  destruct (decide (p_state (slot k i) = RUNNABLE)) as [Hr|];
    [|apply post_ret; exists t; split; [by apply ts_pass; [done|rewrite E]|done]].
  assert (i < NPROC)%nat as Hi.
  { eapply slot_used; [apply Ht|]. by rewrite Hr. }
  apply post_modify. exists (tenter cpu i (tupd i (with_state RUNNING) t)).
  split; [apply ts_run; [done|by rewrite E]|].
  destruct Ht as [(H1 & H2 & H3 & H4 & H5 & H6) Hl]. split; [|unfold sized; cbn; by rewrite length_alter].
  split_and!; cbn -[slot] in *; try done.
  - intros j. rewrite <- H1. change (core_of (slot (set_procs (alter (set_state RUNNING) i (k_proc k)) k) j) =
      if decide (j = i) then with_state RUNNING (core_of (slot k j)) else core_of (slot k j)).
    rewrite slot_upd by (unfold sized in Hl; lia). by destruct (decide (j = i)).
  - intros c. rewrite <- H2. destruct (decide (c = cpu)) as [->|].
    + rewrite list_lookup_insert_eq; [done|]. by eapply lookup_lt_Some.
    + by rewrite list_lookup_insert_ne.
  - intros j. rewrite <- H6. change (extra_of (slot (set_procs (alter (set_state RUNNING) i (k_proc k)) k) j) =
      extra_of (slot k j)). rewrite slot_upd by (unfold sized in Hl; lia). by destruct (decide (j = i)).
Qed.

Lemma fork_make_moves k me t :
  at_table t k -> tinv t -> post (step (EForkMake me)) (moves (EForkMake me) t) k.
Proof.
  intros Ht I. eapply from_user_post; [done|]. intros Hon Hme. apply post_bind.
  eapply post_mono; [exact (fork_make_post k me t Ht (ti_unused t I))|]. intros [np|] k1.
  - intros (Hnp & Hu & Ht1). apply post_bind. eapply post_mono; [by apply (goto_post k1 me _ _ Ht1)|].
    intros [] k2 Ht2. apply post_ret. eexists. split; [by apply ts_fork_make|exact Ht2].
  - intros [[Hf Hn]|(np & Hu & Hn)]; apply post_ret; eexists; (split; [|exact Hn]);
      [by apply ts_fork_full|by apply ts_fork_fail].
Qed.

Lemma forking_slot k me np t :
  at_table t k -> tinv t -> forking (c_at (tp t me)) = Some np -> (np < NPROC)%nat.
Proof.
  intros Ht I Hf. destruct (ti_fork t I me np Hf) as [_ Hu]. eapply (slot_used k); [apply Ht|].
  rewrite (slot_view t k np Ht) in Hu. cbn in Hu. by rewrite Hu.
Qed.

Lemma fork_own_moves k me t :
  at_table t k -> tinv t -> post (step (EForkOwn me)) (moves (EForkOwn me) t) k.
Proof.
  intros Ht I. eapply at_position_post; [done|]. intros m Hr Hme E.
  destruct (c_at (tp t me)) as [|np| | | | |] eqn:Ea; try done. injection E as <-.
  eapply unlocked_post; [done|]. intros Hl.
  assert (np < NPROC)%nat as Hnp by (eapply (forking_slot k me); [done..|by rewrite Ea]).
  apply post_bind. eapply post_mono; [by apply (upd_table k np _ (with_parent (Some me)) t)|].
  intros _ k1 [Ht1 _]. apply post_bind. eapply post_mono; [by apply (goto_post k1 me _ _ Ht1)|].
  intros [] k2 Ht2. apply post_ret. eexists. split; [by apply ts_fork_own|exact Ht2].
Qed.

Lemma fork_run_moves k me t :
  at_table t k -> tinv t -> post (step (EForkRun me)) (moves (EForkRun me) t) k.
Proof.
  intros Ht I. eapply at_position_post; [done|]. intros m Hr Hme E.
  destruct (c_at (tp t me)) as [| |np| | | |] eqn:Ea; try done. injection E as <-.
  assert (np < NPROC)%nat as Hnp by (eapply (forking_slot k me); [done..|by rewrite Ea]).
  apply post_bind, post_gets, post_bind.
  eapply post_mono; [by apply (upd_table k np _ (with_state RUNNABLE) t)|].
  intros _ k1 [Ht1 _]. apply post_bind. eapply post_mono; [by apply (goto_post k1 me _ _ Ht1)|].
  intros [] k2 Ht2. apply post_ret. eexists. split; [|exact Ht2].
  replace (p_pid (slot k np)) with (c_pid (tp t np)) by by rewrite (slot_view t k np Ht).
  by apply ts_fork_run.
Qed.

Lemma wait_scan_moves k me t :
  at_table t k -> post (step (EWaitScan me)) (moves (EWaitScan me) t) k.
Proof.
  intros Ht. eapply at_position_post; [done|]. intros m Hr Hme E.
  destruct (c_at (tp t me)) as [| | | |addr| |] eqn:Ea; try done. injection E as <-.
  eapply unlocked_post; [done|]. intros Hl. apply post_bind.
  eapply post_mono; [by apply (wait_scan_post k me addr t)|]. intros [r|] k1.
  - intros [(j & Hp & Hz & [[-> Ht1]|(-> & Hne & Ht1)])|(-> & Hz & Hf & Ht1)]; apply post_bind;
      (eapply post_mono; [by apply (goto_post k1 me _ _ Ht1)|]); intros [] k2 Ht2; apply post_ret;
      eexists; (split; [|exact Ht2]); [by eapply ts_reap|by eapply ts_wait_fault|by eapply ts_wait_fail].
  - intros (Hz & Hc & Hk & Ht1). apply post_bind, post_modify, post_bind.
    assert (at_table (tsetlock (Some me) t) (set_wait_lock (Some me) k1)) as Ht2.
    { destruct Ht1 as [(H1 & H2 & H3 & H4 & H5 & H6) Hs]. split; [|done]. by split_and!. }
    eapply post_mono; [by apply (goto_post _ me _ _ Ht2)|]. intros [] k3 Ht3. apply post_ret.
    eexists. split; [by apply (ts_wait_commit t me addr)|exact Ht3].
Qed.

Lemma wait_sleep_moves k me t :
  at_table t k -> post (step (EWaitSleep me)) (moves (EWaitSleep me) t) k.
Proof.
  intros Ht. eapply at_position_post; [done|]. intros m Hr Hme E.
  destruct (c_at (tp t me)) as [| | | | |addr|] eqn:Ea; try done. injection E as <-.
  apply post_bind, post_modify, post_bind.
  assert (at_table (tsetlock None t) (set_wait_lock None k)) as Ht1.
  { destruct Ht as [(H1 & H2 & H3 & H4 & H5 & H6) Hs]. split; [|done]. by split_and!. }
  eapply post_mono; [by apply (goto_post _ me _ _ Ht1)|]. intros [] k2 Ht2. apply post_bind.
  eapply post_mono.
  { by apply (leave_post k2 me _ (fun c => with_state SLEEPING (with_chan (ProcChan me) c)) _ Ht2). }
  intros [] k3 Ht3. apply post_ret. eexists. split; [by apply (ts_wait_sleep t me addr)|].
  eapply at_table_eq; [|exact Ht3]. split_and!; try done. intros j. cbn. by destruct (decide (j = me)).
Qed.

Lemma sleep_moves k me a t :
  at_table t k -> post (step (ESleep me a)) (moves (ESleep me a) t) k.
Proof.
  intros Ht. eapply from_user_post; [done|]. intros Hon Hme. apply post_bind.
  eapply post_mono; [by apply (goto_post _ me _ _ Ht)|]. intros [] k2 Ht2. apply post_bind.
  eapply post_mono.
  { by apply (leave_post k2 me _ (fun c => with_state SLEEPING (with_chan (AddrChan a) c)) _ Ht2). }
  intros [] k3 Ht3. apply post_ret. eexists. split; [by apply (ts_sleep t me a)|].
  eapply at_table_eq; [|exact Ht3]. split_and!; try done. intros j. cbn. by destruct (decide (j = me)).
Qed.

Lemma woken_moves k me t :
  at_table t k -> post (step (EWoken me)) (moves (EWoken me) t) k.
Proof.
  intros Ht. eapply at_position_post; [done|]. intros m Hr Hme E.
  destruct (c_at (tp t me)) as [| | | | | |o] eqn:Ea; try done. injection E as <-.
  apply post_bind. eapply post_mono; [by apply (upd_table k me _ (with_chan NoChan) t)|].
  intros _ k1 [Ht1 _]. apply post_bind. eapply post_mono; [by apply (goto_post k1 me _ _ Ht1)|].
  intros [] k2 Ht2. apply post_ret. eexists. split; [by apply (ts_woken t me o)|].
  eapply at_table_eq; [|exact Ht2]. split_and!; try done. intros j. cbn. by destruct (decide (j = me)).
Qed.

Lemma wakeup_moves k me a t :
  at_table t k -> post (step (EWakeup me a)) (moves (EWakeup me a) t) k.
Proof.
  intros Ht. destruct me as [i|]; [eapply at_position_post; [done|]; intros m Hr Hi [= <-]|];
    apply post_bind; (eapply post_mono; [apply (wakeup_post k _ _ t Ht)|]).
  1: by intros j [= <-]; rewrite Hr.
  2: done.
  all: intros [] k1 (Ht1 & _); apply post_ret; eexists; split; [apply ts_wakeup|exact Ht1].
  - by intros j [= <-].
  - done.
Qed.

Lemma exit_moves k me t :
  at_table t k -> (forall st, post (step (EExit me st)) (moves (EExit me st) t) k) /\
  post (step (EExitZombie me)) (moves (EExitZombie me) t) k.
Proof.
  intros Ht. split.
  - intros st. eapply from_user_post; [done|]. intros Hon Hme. apply post_bind.
    eapply post_mono; [by apply (exit_files_post k me t)|]. intros [] k1 [Ht1 Hn]. apply post_bind.
    eapply post_mono; [by apply (goto_post k1 me _ _ Ht1)|]. intros [] k2 Ht2. apply post_ret.
    eexists. split; [by apply (ts_exit t me st)|exact Ht2].
  - eapply at_position_post; [done|]. intros m Hr Hme E.
    destruct (c_at (tp t me)) as [| | |st| | |] eqn:Ea; try done. injection E as <-.
    eapply unlocked_post; [done|]. intros Hl. apply post_bind.
    eapply post_mono; [by apply (exit_zombie_post k me st t)|]. intros [] k1 Hm. by apply post_ret.
Qed.

(** The events that change one slot, or none. *)
Lemma small_moves k t :
  at_table t k ->
  (forall me, post (step (EYield me)) (moves (EYield me) t) k) /\
  (forall me a, post (step (EWait me a)) (moves (EWait me a) t) k) /\
  (forall me, post (step (ESetkilled me)) (moves (ESetkilled me) t) k) /\
  (forall me n, post (step (EGrow me n)) (moves (EGrow me n) t) k).
Proof.
  intros Ht. split_and!.
  - intros me. eapply at_position_post; [done|]. intros m Hr Hme E.
    destruct (holding (c_at (tp t me))) eqn:Eh; [done|]. injection E as <-. apply post_bind.
    eapply post_mono; [by apply (leave_post k me _ (with_state RUNNABLE) t Ht Hme)|].
    intros [] k1 Ht1. apply post_ret. eexists. split; [by apply (ts_yield t me)|exact Ht1].
  - intros me a. eapply from_user_post; [done|]. intros Hon Hme. apply post_bind.
    eapply post_mono; [by apply (goto_post k me _ _ Ht)|]. intros [] k1 Ht1. apply post_ret.
    eexists. split; [by apply (ts_wait t me a)|exact Ht1].
  - intros me. eapply at_position_post; [done|]. intros m Hr Hme [= <-]. apply post_bind.
    eapply post_mono; [by apply (upd_extra k me _ (with_killed 1) t)|]. intros [] k1 [Ht1 _]. apply post_ret.
    eexists. split; [by apply ts_setkilled|done].
  - intros me n. eapply from_user_post; [done|]. intros Hon Hme. apply post_bind.
    eapply post_mono; [by apply (growproc_post k me n t)|].
    intros r k1 [[-> Ht1]|(-> & Hn & Ht1)]; apply post_ret; eexists; (split; [|exact Ht1]);
      [by apply ts_grow|by apply ts_grow_fail].
Qed.

Lemma step_moves k t e :
  at_table t k -> tinv t -> post (step e) (moves e t) k.
Proof.
  intros Ht I. pose proof (small_moves k t Ht) as (Hy & Hw & Hk & Hg). destruct e; auto.
  - cbn. apply post_bind, post_gets. destruct (k_cpus k !! cpu) as [[|]|] eqn:Ec; try apply post_halt.
    apply post_bind. eapply post_mono; [by apply schedule_moves|]. intros [] k1 Hm. by apply post_ret.
  - by apply fork_make_moves.
  - by apply fork_own_moves.
  - by apply fork_run_moves.
  - by apply exit_moves.
  - by apply exit_moves.
  - by apply wait_scan_moves.
  - by apply wait_sleep_moves.
  - by apply sleep_moves.
  - by apply woken_moves.
  - by apply wakeup_moves.
  - apply post_bind. eapply post_mono; [by apply (kill_post k pid t)|]. intros r k1 Hm. by apply post_ret.
Qed.

(** ** The first process *)

Definition first_table (i : nat) : table :=
  {| tp j := if decide (j = i) then with_state RUNNABLE (with_pid 1 no_core) else no_core;
     tcpu _ := None; tinit := Some i; tnext := 2; tlock := None;
     tx j := if decide (j = i) then with_sz PGSIZE no_extra else no_extra |}.

Lemma first_inv i : tinv (first_table i).
Proof.
  assert (forall j, (j = i /\ tp (first_table i) j = with_state RUNNABLE (with_pid 1 no_core)) \/
    (j <> i /\ tp (first_table i) j = no_core)) as Hs.
  { intros j. cbn. destruct (decide (j = i)); auto. }
  split; try done.
  all: try (intros j k; destruct (Hs j) as [[-> ->]|[? ->]]; destruct (Hs k) as [[-> ->]|[? ->]];
    unfold alive; naive_solver).
  all: try (intros j; destruct (Hs j) as [[-> ->]|[? ->]]; unfold alive; naive_solver).
  all: try (intros j; destruct (Hs j) as [[-> ->]|[? ->]]; [cbn; lia|done]).
  - exists i. destruct (Hs i) as [[_ ->]|[? _]]; [|done]. unfold alive. cbn. naive_solver.
Qed.

Lemma userinit_post m f initcode :
  post (userinit kend trampoline initcode) (fun _ k' => exists i, at_table (first_table i) k')
    (procinit m f).
Proof.
  set (t0 := view (procinit m f)).
  assert (forall j, tp t0 j = no_core) as H0.
  { intros j. subst t0. unfold view, slot, procinit. cbn [tp k_proc]. destruct (decide (j < NPROC)%nat);
      [by rewrite lookup_replicate_2|by rewrite lookup_ge_None_2 by (rewrite length_replicate; lia)]. }
  assert (forall c, tcpu t0 c = None) as Hc0.
  { intros c. subst t0. unfold view, procinit. cbn [tcpu k_cpus]. destruct (decide (c < NCPU)%nat);
      [by rewrite lookup_replicate_2|by rewrite lookup_ge_None_2 by (rewrite length_replicate; lia)]. }
  assert (forall j, tx t0 j = no_extra) as Hx0.
  { intros j. subst t0. unfold view, slot, procinit. cbn [tx k_proc]. destruct (decide (j < NPROC)%nat);
      [by rewrite lookup_replicate_2|by rewrite lookup_ge_None_2 by (rewrite length_replicate; lia)]. }
  assert (at_table t0 (procinit m f)) as Ht by (by split).
  unfold userinit. apply post_bind.
  eapply post_mono; [apply (allocproc_post _ t0 Ht); intros j _; apply H0|].
  intros [i|] k1; [|intros _; apply post_bind, post_modify; apply post_halt].
  intros (Hi & _ & Ht1). apply post_bind, post_modify.
  set (t2 := {| tp := tp (allocated t0 i); tcpu := tcpu t0; tinit := Some i; tnext := 2; tlock := None; tx := tx t0 |}).
  assert (at_table t2 (set_initproc (Some i) k1)) as Ht2.
  { destruct Ht1 as [(H1 & H2 & H3 & H4 & H5 & H6) Hl]. split; [|done]. by split_and!. }
  apply post_bind, post_gets, post_bind. eapply post_mono; [apply post_mem|]. intros [] k3 U3.
  eapply untouched_view in Ht2; [|exact U3].
  apply post_bind. eapply post_mono; [by apply (upd_extra _ i _ (with_sz PGSIZE) _ Ht2)|]. intros _ k4 [Ht4 _].
  apply post_bind. eapply post_mono; [apply post_mem|]. intros [] k5 U5.
  eapply untouched_view in Ht4; [|exact U5].
  apply post_bind. eapply post_mono; [apply post_mem|]. intros [] k6 U6.
  eapply untouched_view in Ht4; [|exact U6].
  apply post_bind. eapply post_mono; [by apply (upd_hidden _ i _ _ Ht4)|]. intros _ k7 [Ht7 _].
  apply post_bind. eapply post_mono; [apply post_files|]. intros cwd k8 U8.
  eapply untouched_view in Ht7; [|exact U8].
  eapply post_mono; [by apply (upd_table _ i _ (with_state RUNNABLE) _ Ht7)|]. intros _ k9 [Ht9 _].
  exists i. eapply at_table_eq; [|exact Ht9]. split_and!; [|exact Hc0|done..|].
  - intros j. unfold tupd, t2, allocated, tupd, textra, tmap, tnextpid, first_table. cbn [tp tnext]. rewrite H0.
    by destruct (decide (j = i)).
  - intros j. cbn -[t0]. unfold t2. cbn [tx]. rewrite Hx0. by destruct (decide (j = i)).
Qed.

Lemma reachable_table k : reachable k -> exists t, at_table t k /\ tinv t.
Proof.
  induction 1 as [m f initcode k Hk|k e r k' _ (t & Ht & I) Hst].
  - destruct (userinit_post m f initcode tt k Hk) as [i Hi]. exists (first_table i).
    split; [done|apply first_inv].
  - destruct (step_moves k t e Ht I r k' Hst) as (t' & Hmv & Ht'). exists t'.
    split; [done|by eapply tstep_inv].
Qed.

Lemma reachable_inv k : reachable k -> tinv (view k).
Proof. intros Hk. destruct (reachable_table k Hk) as (t & [Hv _] & I). by rewrite Hv. Qed.

(** Claim C2: the process table stays consistent under every interleaving of
    the critical sections of [fork], [exit], [wait], [sleep], [wakeup],
    [kill], [yield], [sbrk] and the schedulers of all processors.  From the
    first process on: live pids are positive, below [nextpid] and distinct; a
    process is [RUNNING] exactly when some processor runs it, and no two do;
    every parent pointer leads to a live process and everybody but init has
    one; init never exits; a slot being forked is reserved by one forker;
    [wait_lock] is held exactly by the process about to sleep in [wait]; and
    nobody who sleeps in [wait] has a zombie child. *)
Theorem kernel_invariant k : reachable k -> tinv (view k).
Proof. apply reachable_inv. Qed.


(** The events of a run, one after the other. *)
Fixpoint run (es : list event) : M K (list (option Z)) :=
  match es with
  | [] => ret []
  | e :: es => r <- step e ;; rs <- run es ;; ret (r :: rs)
  end.

Lemma run_reachable es k rs k' : reachable k -> run es k = Ok rs k' -> reachable k'.
Proof.
  revert k rs. induction es as [|e es IH]; intros k rs Hk; cbn [run].
  - by intros [= _ <-].
  - unfold bind. destruct (step e k) as [r k1|] eqn:Es; [|done].
    destruct (run es k1) as [rs' k2|] eqn:Er; [|done]. intros [= _ <-].
    eapply IH; [by eapply reach_step|exact Er].
Qed.

End Step.
(** ** A machine with thirty-two free pages and no files *)

#[global] Instance no_files : ProcFiles unit := {|
  file_dup f := ret f;
  file_close _ := ret tt;
  inode_dup i := ret i;
  inode_put _ := ret tt;
  name_root := ret (Some 0%nat);
|}.

Definition ex_kend : Z := PHYSTOP - 32 * PGSIZE.
Definition ex_tramp : Z := KERNBASE.
Definition ex_kmem : Kalloc.kmem :=
  match Kalloc.kinit ex_kend Kalloc.kempty with Ok _ k => k | Stop _ => Kalloc.kempty end.
Definition ex_boot : kernel unit :=
  procinit {| Vm.ptes := ∅; Vm.bytes := ∅; Vm.vkm := ex_kmem |} tt.
Definition ex_code : list Z := [0x17; 0x05; 0x00; 0x00].

(** The kernel after [userinit], and after further events. *)
Definition ex_first : kernel unit :=
  match userinit ex_kend ex_tramp ex_code ex_boot with Ok _ k => k | Stop _ => ex_boot end.
Definition ex_run (es : list event) : kernel unit :=
  match run ex_kend ex_tramp es ex_first with Ok _ k => k | Stop _ => ex_boot end.

(** Init forks, waits, and its child exits while it sleeps. *)
Definition ex_events : list event :=
  [ESchedule 0 0; EForkMake 0; EForkOwn 0; EForkRun 0; EWait 0 0; EWaitScan 0; EWaitSleep 0;
   ESchedule 1 1; EExit 1 7; EExitZombie 1].

Lemma ex_first_reachable : reachable ex_kend ex_tramp ex_first.
Proof.
  eapply (reach_init ex_kend ex_tramp {| Vm.ptes := ∅; Vm.bytes := ∅; Vm.vkm := ex_kmem |} tt ex_code).
  fold ex_boot. unfold ex_first.
  assert (exists k, userinit ex_kend ex_tramp ex_code ex_boot = Ok tt k) as [k ->];
    [eexists; vm_compute; reflexivity|done].
Qed.

Lemma ex_run_reachable es :
  (if run ex_kend ex_tramp es ex_first then true else false) = true ->
  reachable ex_kend ex_tramp (ex_run es).
Proof.
  unfold ex_run. destruct (run ex_kend ex_tramp es ex_first) as [rs k|] eqn:E; [|done].
  intros _. eapply run_reachable; [apply ex_first_reachable|exact E].
Qed.

Lemma kernel_invariant_witness : tinv (view (ex_run ex_events)).
Proof.
  apply (kernel_invariant ex_kend ex_tramp (ex_run ex_events)), ex_run_reachable.
  vm_compute. reflexivity.
Defined.

(** Init is scheduled again, and its [wait] finds the child. *)
Definition ex_woken : kernel unit := ex_run (ex_events ++ [ESchedule 0 0; EWoken 0]).

Lemma ex_woken_reachable : reachable ex_kend ex_tramp ex_woken.
Proof. apply ex_run_reachable. vm_compute. reflexivity. Qed.
Lemma ex_wait_returns :
  (if step ex_kend ex_tramp (EWaitScan 0) ex_woken is Ok r _ then r else None) = Some 2.
Proof. vm_compute. reflexivity. Qed.


(** After the events above, init wakes up and [wait] returns pid 2. *)
Example wait_returns_child :
  (if run ex_kend ex_tramp [ESchedule 0 0; EWoken 0; EWaitScan 0] (ex_run ex_events) is Ok rs k
   then (rs, p_state (slot k 1)) else ([], RUNNING)) = ([None; None; Some 2], UNUSED).
Proof. vm_compute. reflexivity. Qed.

(** [kill(0)] finds a free slot, whose pid is 0: it returns 0, and the next
    process made in that slot is killed from its first instruction on. *)
Theorem kill_zero_marks_next :
  (if run ex_kend ex_tramp [ESchedule 0 0; EKill 0; EForkMake 0; EForkOwn 0; EForkRun 0] ex_first
   is Ok rs k then (rs, p_state (slot k 1), p_killed (slot k 1)) else ([], UNUSED, 0)) =
  ([None; Some 0; None; None; Some 2], RUNNABLE, 1).
Proof. vm_compute. reflexivity. Qed.

(** A [kill] between the test of [killed] in [wait] and the sleep is missed:
    the process sleeps although it is killed and was not woken. *)
Theorem kill_misses_wait :
  (if run ex_kend ex_tramp [ESchedule 0 0; EForkMake 0; EForkOwn 0; EForkRun 0; ESchedule 1 1;
     EForkMake 1; EForkOwn 1; EForkRun 1; EWait 1 0; EWaitScan 1; EKill 2; EWaitSleep 1] ex_first
   is Ok _ k then (p_state (slot k 1), p_killed (slot k 1)) else (UNUSED, 0)) = (SLEEPING, 1).
Proof. vm_compute. reflexivity. Qed.

End ProcStep.
