(* ===== verification/Sysproc.v ===== *)
(** * Process system calls: [kernel/sysproc.c]

    The calls on one process, over the process table of [Proc]; the register
    [a0] of the trap frame is the argument.  The file layer of [VfsFile]
    instantiates the interfaces the process table and [exec] need. *)

From S2P Require Import Prelude Layout BlockCache UserMem VfsState Vfs VfsFile Vm Proc Exec ProcSpec ProcStep.

Module Sysproc.
Import Proc ProcSpec ProcStep.

Section Calls.
Context {F : Type} `{PF : ProcFiles F}.
Context (kend trampoline : Z).
Notation K := (kernel F).

Definition sys_getpid (me : nat) : M K Z := p <- get_proc me ;; ret (u64 (p_pid p)).

Definition sys_fork (me : nat) : M K Z := r <- fork kend trampoline me ;; ret (u64 r).

Definition sys_sbrk (me : nat) (a0 : Z) : M K Z :=
  let n := s32 a0 in
  p <- get_proc me ;;
  let addr := p_sz p in
  r <- growproc kend me n ;;
  if r <? 0 then ret (u64 (-1)) else ret addr.

Definition sys_kill (a0 : Z) : M K Z := r <- kill (s32 a0) ;; ret (u64 r).

(** The test and the body of the loop of [sys_sleep] when [ticks] is the
    clock and [ticks0] its value at the call: the result of the call, or
    [None] to sleep until the next tick.  The comparison is unsigned. *)
Definition sys_sleep (ticks ticks0 a0 : Z) (killed : bool) : option Z :=
  let n := s32 a0 in
  if u32 (ticks - ticks0) <? u32 n then
    if killed then Some (u64 (-1)) else None
  else Some 0.

Definition sys_uptime (ticks : Z) : Z := u32 ticks.

(** The first tick that ends a sleep. *)
Lemma sys_sleep_ends ticks0 n d :
  0 <= n < 2 ^ 31 -> 0 <= d < 2 ^ 32 ->
  sys_sleep (u32 (ticks0 + d)) (u32 ticks0) n false = if n <=? d then Some 0 else None.
Proof.
  intros Hn Hd. unfold sys_sleep. rewrite s32_small, (u32_small n) by lia.
  replace (u32 (u32 (ticks0 + d) - u32 ticks0)) with d
    by (unfold u32; Z.div_mod_to_equations; lia).
  destruct (Z.ltb_spec d n), (Z.leb_spec n d); try done; lia.
Qed.

(** A negative time is a huge one: [sleep(-1)] waits for all but one of the
    2^32 values of the clock. *)
Theorem sleep_negative_waits ticks0 d :
  0 <= d < 2 ^ 32 - 1 -> sys_sleep (u32 (ticks0 + d)) (u32 ticks0) (u64 (-1)) false = None.
Proof.
  intros Hd. unfold sys_sleep.
  replace (u32 (u32 (ticks0 + d) - u32 ticks0)) with d
    by (unfold u32; Z.div_mod_to_equations; lia).
  replace (u32 (s32 (u64 (-1)))) with (2 ^ 32 - 1) by done.
  by destruct (Z.ltb_spec d (2 ^ 32 - 1)); [|lia].
Qed.

End Calls.

(** ** The files of a process *)

Section Files.
Context {C U V : Type} `{BC : BlockCache C} `{UM : UserMem U} `{DV : Devsw U V}.
Context (kend : Z).

(** Files, inodes and the root directory as the process code uses them. *)
Definition vfs_files : ProcFiles (kst C U V) := {|
  file_dup := filedup;
  file_close := xv6fs_fileclose kend;
  inode_dup := idup;
  inode_put := iput kend;
  name_root := namei kend [47; 0];
|}.

(** The programs that [exec] runs. *)
Definition vfs_programs : ExecFiles (kst C U V) := {|
  exec_namei := namei kend;
  exec_ilock := ilock;
  exec_read i off n kb := readi i false 0 off n kb;
  exec_iunlockput := iunlockput kend;
|}.

End Files.
End Sysproc.
