(* ===== verification/Umalloc.v ===== *)
(** * The user heap: [malloc] and [free] (user/umalloc.c)

    The circular free list of Kernighan and Ritchie, in address order, with
    the headers by their addresses and [sbrk] as the kernel implements it on
    the size of the process.  The theorems say that the free list stays
    sorted and coalesced, that allocated blocks never overlap each other or
    the free list, and when [malloc] fails. *)

From S2P Require Import Prelude.

Module Umalloc.

(** [sizeof(Header)] *)
Definition HDR : Z := 16.

(** [s.ptr] and [s.size] of the headers, [freep] (0 is the null pointer), and
    the end of the process memory. *)
Record heap : Type := {
  hptr : gmap Z Z;
  hsize : gmap Z Z;
  freep : Z;
  brk : Z;
}.

Definition ptr_at (h : heap) (p : Z) : Z := default 0 (hptr h !! p).
Definition size_at (h : heap) (p : Z) : Z := default 0 (hsize h !! p).

Definition set_ptr (p v : Z) : M heap unit := modify (fun h =>
  {| hptr := <[p := v]> (hptr h); hsize := hsize h; freep := freep h; brk := brk h |}).
Definition set_size (p v : Z) : M heap unit := modify (fun h =>
  {| hptr := hptr h; hsize := <[p := u32 v]> (hsize h); freep := freep h; brk := brk h |}).
Definition set_freep (p : Z) : M heap unit := modify (fun h =>
  {| hptr := hptr h; hsize := hsize h; freep := p; brk := brk h |}).
Definition set_brk (v : Z) : M heap unit := modify (fun h =>
  {| hptr := hptr h; hsize := hsize h; freep := freep h; brk := v |}).

Section Umalloc.
(** [base] is the address of the static header; [grows old n] tells whether
    the kernel finds the memory to grow a process from [old] to [old + n]
    bytes ([uvmalloc] returns 0 when it does not). *)
Context (base : Z) (grows : Z -> Z -> bool).

(** [sys_sbrk]: the argument is an [int]; a negative one shrinks the process,
    unless that would make its size negative. *)
Definition sbrk (n : Z) : M heap Z :=
  let n := s32 n in
  old <- gets brk ;;
  if 0 <? n then
    if grows old n then set_brk (old + n) ;; ret old
    else ret (u64 (-1))
  else
    set_brk (if 0 <=? old + n then old + n else old) ;;
    ret old.

(** Every node of the list has a header. *)
Definition nodes (h : heap) : nat := size (hptr h).

Fixpoint free_loop (fuel : nat) (bp p : Z) : M heap Z :=
  match fuel with
  | O => halt (SBlock "free: endless loop")
  | S fuel =>
      next <- gets (fun h => ptr_at h p) ;;
      if (p <? bp) && (bp <? next) then ret p
      else if (next <=? p) && ((p <? bp) || (bp <? next)) then ret p
      else free_loop fuel bp next
  end.

Definition free (ap : Z) : M heap unit :=
  let bp := ap - HDR in
  h <- get ;;
  p <- free_loop (2 * nodes h) bp (freep h) ;;
  next <- gets (fun h => ptr_at h p) ;;
  n <- gets (fun h => size_at h bp) ;;
  (if bp + HDR * n =? next then
     m <- gets (fun h => size_at h next) ;;
     set_size bp (n + m) ;;
     q <- gets (fun h => ptr_at h next) ;;
     set_ptr bp q
   else set_ptr bp next) ;;
  s <- gets (fun h => size_at h p) ;;
  (if p + HDR * s =? bp then
     n <- gets (fun h => size_at h bp) ;;
     set_size p (s + n) ;;
     q <- gets (fun h => ptr_at h bp) ;;
     set_ptr p q
   else set_ptr p bp) ;;
  set_freep p.

Definition morecore (nu : Z) : M heap Z :=
  let nu := if nu <? 4096 then 4096 else nu in
  p <- sbrk (nu * HDR) ;;
  if p =? u64 (-1) then ret 0
  else
    set_size p nu ;;
    free (p + HDR) ;;
    gets freep.

(** Unlink [p], or cut its tail off. *)
Definition take_block (nunits prevp p : Z) : M heap Z :=
  sz <- gets (fun h => size_at h p) ;;
  p <- (if sz =? nunits then
          next <- gets (fun h => ptr_at h p) ;;
          set_ptr prevp next ;;
          ret p
        else
          set_size p (sz - nunits) ;;
          let p := p + HDR * u32 (sz - nunits) in
          set_size p nunits ;;
          ret p) ;;
  set_freep prevp ;;
  ret (p + HDR).

Fixpoint malloc_loop (fuel : nat) (nunits prevp p : Z) : M heap Z :=
  match fuel with
  | O => halt (SBlock "malloc: endless loop")
  | S fuel =>
      sz <- gets (fun h => size_at h p) ;;
      if nunits <=? sz then take_block nunits prevp p
      else
        fp <- gets freep ;;
        if p =? fp then
          p <- morecore nunits ;;
          if p =? 0 then ret 0
          else
            next <- gets (fun h => ptr_at h p) ;;
            malloc_loop fuel nunits p next
        else
          next <- gets (fun h => ptr_at h p) ;;
          malloc_loop fuel nunits p next
  end.

Definition units (nbytes : Z) : Z := u32 ((nbytes + HDR - 1) / HDR + 1).

(** A round of the list before [morecore], and one after it. *)
Definition malloc (nbytes : Z) : M heap Z :=
  let nunits := units nbytes in
  h <- get ;;
  (if freep h =? 0 then set_ptr base base ;; set_freep base ;; set_size base 0 else ret tt) ;;
  prevp <- gets freep ;;
  p <- gets (fun h => ptr_at h prevp) ;;
  n <- gets nodes ;;
  malloc_loop (2 * n + 2) nunits prevp p.

End Umalloc.

(** ** The free list *)

(** The address of the first block of [l], or [e]. *)
Definition first (l : list (Z * Z)) (e : Z) : Z := match l with [] => e | b :: _ => b.1 end.

(** The blocks of [l] are linked one after the other, the last to [e]. *)
Fixpoint links (h : heap) (l : list (Z * Z)) (e : Z) : Prop :=
  match l with
  | [] => True
  | b :: l => hptr h !! b.1 = Some (first l e) /\ hsize h !! b.1 = Some b.2 /\ links h l e
  end.

(** The blocks lie in [[lo, hi)] in address order, none touching the next. *)
Fixpoint spaced (lo hi : Z) (l : list (Z * Z)) : Prop :=
  match l with
  | [] => True
  | b :: l => lo <= b.1 /\ 0 < b.2 /\ b.1 + HDR * b.2 <= hi /\ spaced (b.1 + HDR * b.2 + 1) hi l
  end.

Definition bytes_of (b : Z * Z) (x : Z) : Prop := b.1 <= x < b.1 + HDR * b.2.
Definition free_byte (l : list (Z * Z)) (x : Z) : Prop := exists b, b ∈ l /\ bytes_of b x.
Definition used_byte (al : gmap Z Z) (x : Z) : Prop := exists a n, al !! a = Some n /\ bytes_of (a, n) x.

(** The heap begins at [start]; the memory of the process ends below [limit]. *)
Section Heap.
Context (base limit start : Z).

(** The heap with the free blocks [fl] and the allocated blocks [al], both by
    the addresses of their headers; the heap begins at [start]. *)
Record hinv (h : heap) (fl : list (Z * Z)) (al : gmap Z Z) : Prop := {
  hi_links : links h ((base, 0) :: fl) base;
  hi_spaced : spaced start (brk h) fl;
  hi_freep : freep h ∈ base :: fl.*1;
  hi_al : forall a n, al !! a = Some n ->
    start <= a /\ 0 < n /\ a + HDR * n <= brk h /\ hsize h !! a = Some n;
  hi_disj : forall a n b m x, al !! a = Some n -> al !! b = Some m ->
    bytes_of (a, n) x -> bytes_of (b, m) x -> a = b;
  hi_free : forall x, free_byte fl x -> ~ used_byte al x;
  hi_brk : start <= brk h <= limit;
}.

(** ** Lists of blocks *)

Lemma links_app h l1 l2 e : links h (l1 ++ l2) e <-> links h l1 (first l2 e) /\ links h l2 e.
Proof.
  induction l1 as [|b l1 IH]; cbn; [naive_solver|]. rewrite IH.
  replace (first (l1 ++ l2) e) with (first l1 (first l2 e)) by (by destruct l1). naive_solver.
Qed.

(** Only the headers of the blocks matter. *)
Lemma links_same h h' l e :
  (forall b, b ∈ l -> hptr h' !! b.1 = hptr h !! b.1 /\ hsize h' !! b.1 = hsize h !! b.1) ->
  links h l e -> links h' l e.
Proof.
  induction l as [|b l IH]; cbn; [done|]. intros Hs (H1 & H2 & H3).
  destruct (Hs b) as [E1 E2]; [left|]. rewrite E1, E2. split_and!; try done.
  apply IH; [|done]. intros c Hc. apply Hs. by right.
Qed.

Lemma links_ptr h l e b : links h (b :: l) e -> ptr_at h b.1 = first l e /\ size_at h b.1 = b.2.
Proof. cbn. intros (H1 & H2 & _). unfold ptr_at, size_at. by rewrite H1, H2. Qed.

Lemma spaced_weaken lo lo' hi hi' l : lo' <= lo -> hi <= hi' -> spaced lo hi l -> spaced lo' hi' l.
Proof.
  revert lo lo'. induction l as [|b l IH]; intros lo lo' Hlo Hhi; cbn; [done|].
  intros (H1 & H2 & H3 & H4). split_and!; try lia. eapply IH; [|done|done]. lia.
Qed.

Lemma spaced_bounds lo hi l b : spaced lo hi l -> b ∈ l -> lo <= b.1 /\ 0 < b.2 /\ b.1 + HDR * b.2 <= hi.
Proof.
  revert lo. induction l as [|c l IH]; intros lo; cbn; [by intros _ ?%not_elem_of_nil|].
  intros (H1 & H2 & H3 & H4) [->|Hb]%elem_of_cons; [lia|].
  destruct (IH _ H4 Hb). unfold HDR in *. lia.
Qed.

(** A list in two parts: the second begins after the first ends. *)
Lemma spaced_app lo hi l1 l2 :
  spaced lo hi (l1 ++ l2) <->
  spaced lo hi l1 /\ spaced lo hi l2 /\
  (forall b c, b ∈ l1 -> c ∈ l2 -> b.1 + HDR * b.2 < c.1).
Proof.
  revert lo. induction l1 as [|b l1 IH]; intros lo; cbn.
  { split; [|naive_solver]. intros Hs. split_and!; try done. by intros b c ?%not_elem_of_nil. }
  rewrite IH. split.
  - intros (H1 & H2 & H3 & H4 & H5 & H6). split_and!; try done.
    + eapply (spaced_weaken _ lo hi hi); [|done|exact H5]. unfold HDR in *. lia.
    + intros d c [->|Hd]%elem_of_cons Hc; [|by apply H6].
      pose proof (spaced_bounds _ _ _ _ H5 Hc). lia.
  - intros ((H1 & H2 & H3 & H4) & H5 & H6). split_and!; try done.
    + assert (forall c, c ∈ l2 -> b.1 + HDR * b.2 + 1 <= c.1) as Hc.
      { intros c Hc. specialize (H6 b c ltac:(left) Hc). lia. }
      clear -H5 Hc. destruct l2 as [|c l2]; cbn in *; [done|]. split_and!; try naive_solver.
      apply Hc. left.
    + intros d c Hd Hc. apply H6; [by right|done].
Qed.

(** The blocks below and above an address that is not in the list. *)
Lemma split_at lo hi l bp :
  spaced lo hi l -> bp ∉ l.*1 ->
  exists l1 l2, l = l1 ++ l2 /\ (forall b, b ∈ l1 -> b.1 < bp) /\ (forall b, b ∈ l2 -> bp < b.1).
Proof.
  revert lo. induction l as [|b l IH]; intros lo; cbn.
  { intros _ _. exists [], []. split; [done|]. split; by intros b ?%not_elem_of_nil. }
  intros (H1 & H2 & H3 & H4) [Hne Hn]%not_elem_of_cons.
  destruct (decide (b.1 < bp)) as [Hlt|Hge].
  - destruct (IH _ H4 Hn) as (l1 & l2 & -> & Hl1 & Hl2). exists (b :: l1), l2. split; [done|].
    split; [|done]. by intros c [->|Hc]%elem_of_cons; auto.
  - exists [], (b :: l). split; [done|]. split; [by intros c ?%not_elem_of_nil|].
    intros c [->|Hc]%elem_of_cons; [lia|]. pose proof (spaced_bounds _ _ _ _ H4 Hc). unfold HDR in *. lia.
Qed.

(** Distinct nodes, each with a header: the ring is not longer than the map. *)
Lemma links_dom h l e b : links h l e -> b ∈ l -> is_Some (hptr h !! b.1).
Proof.
  induction l as [|c l IH]; cbn; [by intros _ ?%not_elem_of_nil|].
  intros (H1 & H2 & H3) [->|Hb]%elem_of_cons; [by eexists|by apply IH].
Qed.

Lemma spaced_nodup lo hi l : spaced lo hi l -> NoDup (l.*1).
Proof.
  revert lo. induction l as [|b l IH]; intros lo; cbn; [constructor|].
  intros (H1 & H2 & H3 & H4). constructor; [|by eapply IH].
  intros (c & E & Hc)%list_elem_of_fmap. pose proof (spaced_bounds _ _ _ _ H4 Hc). unfold HDR in *. lia.
Qed.

Lemma length_nodes h l e : links h l e -> NoDup (l.*1) -> (length l <= nodes h)%nat.
Proof.
  intros Hl Hn. unfold nodes. rewrite <- (length_fmap fst l), <- size_dom.
  rewrite <- (size_list_to_set (C := gset Z) (l.*1)) by done. apply subseteq_size.
  intros x (b & -> & Hb)%elem_of_list_to_set%list_elem_of_fmap. apply elem_of_dom.
  by eapply links_dom.
Qed.

(** Addresses in increasing order. *)
Fixpoint inc (lo : Z) (l : list (Z * Z)) : Prop :=
  match l with [] => True | b :: l => lo < b.1 /\ inc b.1 l end.

Lemma spaced_inc lo lo' hi l : lo' < lo -> spaced lo hi l -> inc lo' l.
Proof.
  revert lo lo'. induction l as [|b l IH]; intros lo lo' Hlt; cbn; [done|].
  intros (H1 & H2 & H3 & H4). split; [lia|]. eapply IH; [|exact H4]. unfold HDR. lia.
Qed.

Lemma inc_lower lo l b : inc lo l -> b ∈ l -> lo < b.1.
Proof.
  revert lo. induction l as [|c l IH]; intros lo; cbn; [by intros _ ?%not_elem_of_nil|].
  intros [H1 H2] [->|Hb]%elem_of_cons; [done|]. specialize (IH _ H2 Hb). lia.
Qed.

Lemma inc_suffix lo l1 l2 : inc lo (l1 ++ l2) -> exists lo', inc lo' l2.
Proof. revert lo. induction l1 as [|c l1 IH]; intros lo; cbn; [eauto|]. intros [_ Hi]. eauto. Qed.

(** ** [free] *)

(** The last node of a non-empty list. *)
Definition last_of (x : Z * Z) (l : list (Z * Z)) : Z * Z := default x (last l).

Lemma last_of_cons x y l : last_of x (y :: l) = last_of y l.
Proof. unfold last_of. rewrite last_cons. by destruct (last l). Qed.

(** The walk through the nodes below [bp] stops at the last one. *)
Lemma walk_below h fuel bp l2 lo x l1 :
  links h (x :: l1 ++ l2) base -> inc lo (x :: l1 ++ l2) -> base <= x.1 ->
  (forall b, b ∈ x :: l1 -> b.1 < bp) -> (forall b, b ∈ l2 -> bp < b.1) ->
  (length l1 < fuel)%nat ->
  free_loop fuel bp x.1 h = Ok (last_of x l1).1 h.
Proof.
  revert fuel lo x. induction l1 as [|y l1 IH]; intros fuel lo x Hl Hi Hb H1 H2 Hf;
    (destruct fuel as [|fuel]; [cbn in Hf; lia|]); cbn [free_loop];
    pose proof (links_ptr _ _ _ _ Hl) as [Hp _]; unfold bind, gets; rewrite Hp;
    pose proof (H1 x ltac:(left)) as Hx.
  - destruct (Z.ltb_spec x.1 bp); [|lia]. cbn [app].
    destruct l2 as [|y l2]; cbn [first].
    + destruct (Z.ltb_spec bp base); [lia|]. destruct (Z.leb_spec base x.1); [|lia]. done.
    + pose proof (H2 y ltac:(left)). destruct (Z.ltb_spec bp y.1); [|lia]. done.
  - cbn [app first]. pose proof (H1 y ltac:(right; left)). destruct Hi as (_ & Hxy & Hi).
    destruct (Z.ltb_spec x.1 bp), (Z.ltb_spec bp y.1); try lia. cbn [andb].
    destruct (Z.leb_spec y.1 x.1); [lia|]. cbn [andb]. rewrite last_of_cons.
    destruct Hl as (_ & _ & Hl). cbn [length] in Hf.
    apply (IH fuel x.1 y); try done; try lia. intros b Hbl. apply H1. by right.
Qed.

(** From a node above [bp] the walk goes on to [base]. *)
Lemma walk_above h fuel bp x l2 lo q :
  links h (x :: l2) base -> inc lo (x :: l2) -> (forall b, b ∈ x :: l2 -> bp < b.1) -> base < bp ->
  free_loop fuel bp base h = Ok q h ->
  free_loop (S (length l2) + fuel) bp x.1 h = Ok q h.
Proof.
  revert lo x. induction l2 as [|y l2 IH]; intros lo x Hl Hi H2 Hb Hq; cbn [length Nat.add free_loop];
    pose proof (links_ptr _ _ _ _ Hl) as [Hp _]; unfold bind, gets; rewrite Hp;
    pose proof (H2 x ltac:(left)) as Hx; cbn [first];
    (destruct (Z.ltb_spec x.1 bp); [lia|]); cbn [andb orb].
  - destruct (Z.ltb_spec bp base); [lia|]. by rewrite andb_false_r.
  - destruct Hi as (_ & Hxy & Hi). destruct (Z.leb_spec y.1 x.1); [lia|]. cbn [andb].
    destruct Hl as (_ & _ & Hl). apply (IH x.1 y); try done.
    intros b Hbl. apply H2. by right.
Qed.

(** More fuel does not change a result. *)
Lemma free_loop_mono fuel fuel' bp p h q :
  free_loop fuel bp p h = Ok q h -> (fuel <= fuel')%nat -> free_loop fuel' bp p h = Ok q h.
Proof.
  revert fuel' p. induction fuel as [|fuel IH]; intros fuel' p; [done|].
  destruct fuel' as [|fuel']; [lia|]. cbn. unfold bind, gets. case_if; [done|]. case_if; [done|].
  intros Hq Hle. apply IH; [done|lia].
Qed.

(** The predecessor of [bp] is found from any node. *)
Lemma free_loop_finds h bp l1 l2 start_at :
  links h ((base, 0) :: l1 ++ l2) base -> inc (base - 1) ((base, 0) :: l1 ++ l2) ->
  NoDup (((base, 0) :: l1 ++ l2).*1) ->
  (forall b, b ∈ (base, 0) :: l1 -> b.1 < bp) -> (forall b, b ∈ l2 -> bp < b.1) ->
  start_at ∈ base :: (l1 ++ l2).*1 ->
  free_loop (2 * nodes h) bp start_at h = Ok (last_of (base, 0) l1).1 h.
Proof.
  intros Hl Hi Hn H1 H2 Hs. pose proof (length_nodes _ _ _ Hl Hn) as Hlen.
  cbn [length] in Hlen. rewrite length_app in Hlen.
  assert (free_loop (S (length l1)) bp base h = Ok (last_of (base, 0) l1).1 h) as Hbase.
  { apply (walk_below h _ bp l2 (base - 1) (base, 0) l1); try done. lia. }
  assert (exists b, b ∈ (base, 0) :: l1 ++ l2 /\ b.1 = start_at) as (b & Hb & <-).
  { apply elem_of_cons in Hs as [->|(b & -> & Hb)%list_elem_of_fmap];
      [exists (base, 0); split; [left|done]|exists b; split; [by right|done]]. }
  assert (base <= b.1) as Hge by (pose proof (inc_lower _ _ _ Hi Hb); lia).
  rewrite app_comm_cons in Hb, Hl, Hi.
  apply elem_of_app in Hb as [Hb|Hb]; apply list_elem_of_split in Hb as (pre & post & E).
  - rewrite E, <- app_assoc in Hl, Hi. apply links_app in Hl as [_ Hl].
    destruct (inc_suffix _ _ _ Hi) as [lo Hlo].
    assert (last_of (base, 0) l1 = last_of b post) as ->.
    { destruct pre as [|c pre]; cbn in E; [by simplify_eq|]. injection E as _ ->. unfold last_of.
      rewrite last_app, last_cons. by destruct (last post). }
    assert (length post <= length l1)%nat as Hpost.
    { apply (f_equal length) in E. rewrite length_app in E. cbn in E. lia. }
    eapply free_loop_mono; [apply (walk_below h (S (length post)) bp l2 lo b post); try done; [|lia]|lia].
    intros c Hc. apply H1. rewrite E. apply elem_of_app. by right.
  - rewrite E in Hl, Hi, H2. rewrite app_assoc in Hl, Hi. apply links_app in Hl as [_ Hl].
    destruct (inc_suffix _ _ _ Hi) as [lo Hlo].
    assert (length post < length l2)%nat as Hpost by (rewrite E, length_app; cbn; lia).
    eapply free_loop_mono; [eapply (walk_above h (S (length l1)) bp b post lo); try done|lia].
    + intros c Hc. apply H2. apply elem_of_app. by right.
    + apply (H1 (base, 0)). left.
Qed.


(** The blocks after [bp] once [bp] has taken in an adjacent one. *)
Definition join_right (bp n : Z) (l : list (Z * Z)) : Z * list (Z * Z) :=
  match l with
  | b :: l' => if bp + HDR * n =? b.1 then (n + b.2, l') else (n, l)
  | [] => (n, l)
  end.

Lemma join_right_length bp n l : (length (join_right bp n l).2 <= length l)%nat.
Proof. unfold join_right. destruct l as [|b l]; [done|]. destruct (_ =? _); cbn; lia. Qed.

(** The node before, the block, and what follows it. *)
Definition join_left (p : Z * Z) (bp n : Z) (l : list (Z * Z)) : list (Z * Z) :=
  if p.1 + HDR * p.2 =? bp then (p.1, p.2 + n) :: l else p :: (bp, n) :: l.

Definition put_hdr (p q n : Z) (h : heap) : heap :=
  {| hptr := <[p := q]> (hptr h); hsize := <[p := n]> (hsize h); freep := freep h; brk := brk h |}.

Lemma put_hdr_links p q n h l e :
  p ∉ l.*1 -> links h l e -> links (put_hdr p q n h) l e.
Proof.
  intros Hp. apply links_same. intros b Hb. cbn.
  assert (p <> b.1) by (intros ->; apply Hp, list_elem_of_fmap; eauto).
  by rewrite !lookup_insert_ne.
Qed.

(** The first half of the update: the header of [bp]. *)
Definition free_right (bp p : Z) : M heap unit :=
  next <- gets (fun h => ptr_at h p) ;;
  n <- gets (fun h => size_at h bp) ;;
  (if bp + HDR * n =? next then
     m <- gets (fun h => size_at h next) ;;
     set_size bp (n + m) ;;
     q <- gets (fun h => ptr_at h next) ;;
     set_ptr bp q
   else set_ptr bp next).

Definition free_left (bp p : Z) : M heap unit :=
  s <- gets (fun h => size_at h p) ;;
  (if p + HDR * s =? bp then
     n <- gets (fun h => size_at h bp) ;;
     set_size p (s + n) ;;
     q <- gets (fun h => ptr_at h bp) ;;
     set_ptr p q
   else set_ptr p bp).

Lemma free_unfold ap h :
  free ap h = (p <- free_loop (2 * nodes h) (ap - HDR) (freep h) ;;
    free_right (ap - HDR) p ;; free_left (ap - HDR) p ;; set_freep p) h.
Proof.
  unfold free, bind at 1 2, get. cbn beta iota. unfold bind. destruct (free_loop _ _ _ _) as [p h1|]; [|done].
  unfold free_right, free_left, bind, gets. by repeat case_if.
Qed.

Lemma free_right_run h p bp n l2 :
  hsize h !! bp = Some n -> bp ∉ l2.*1 -> base < bp ->
  0 <= n -> (forall b, b ∈ l2 -> 0 < b.2 /\ n + b.2 < 2 ^ 32) -> NoDup (l2.*1) ->
  links h (p :: l2) base ->
  let '(n', l2') := join_right bp n l2 in
  free_right bp p.1 h = Ok tt (put_hdr bp (first l2' base) n' h) /\
  links (put_hdr bp (first l2' base) n' h) ((bp, n') :: l2') base.
Proof.
  intros Hn Hbp Hbb Hn0 Hsz Hnd Hl. pose proof (links_ptr _ _ _ _ Hl) as [Hpp _].
  destruct Hl as (Hp1 & Hp2 & Hl). unfold free_right, bind, gets, size_at. rewrite Hpp, Hn. cbn [from_option id].
  assert (<[bp := n]> (hsize h) = hsize h) as Hid by (by apply insert_id).
  assert (forall n' l2', bp ∉ l2'.*1 -> links h l2' base ->
    links (put_hdr bp (first l2' base) n' h) ((bp, n') :: l2') base) as Hnew.
  { intros n' l2' Hbp' Hl'. cbn. rewrite !lookup_insert_eq. split_and!; try done. by apply put_hdr_links. }
  unfold join_right. destruct l2 as [|b l2]; cbn [first].
  { destruct (Z.eqb_spec (bp + HDR * n) base) as [E|_]; [unfold HDR in E; lia|].
    split; [|by apply (Hnew n [])]. unfold set_ptr, modify, put_hdr. by rewrite Hid. }
  destruct (Z.eqb_spec (bp + HDR * n) b.1) as [E|_]; cycle 1.
  { split; [|by apply (Hnew n (b :: l2))]. unfold set_ptr, modify, put_hdr. by rewrite Hid. }
  apply not_elem_of_cons in Hbp as [Hbb' Hbp]. destruct Hl as (Hb1 & Hb2 & Hl).
  split; [|by apply (Hnew (n + b.2) l2)]. destruct (Hsz b ltac:(left)).
  unfold set_size, set_ptr, modify, put_hdr, ptr_at. cbn. rewrite Hb2, Hb1. cbn.
  by rewrite u32_small by lia.
Qed.

Lemma free_left_run h p bp n l :
  hsize h !! p.1 = Some p.2 -> p.1 ∉ ((bp, n) :: l).*1 -> 0 <= p.2 -> p.2 + n < 2 ^ 32 -> 0 <= n ->
  links h ((bp, n) :: l) base ->
  exists h', free_left bp p.1 h = Ok tt h' /\ links h' (join_left p bp n l) base /\
    freep h' = freep h /\ brk h' = brk h /\
    (forall a, a <> p.1 -> hptr h' !! a = hptr h !! a /\ hsize h' !! a = hsize h !! a).
Proof.
  intros Hp Hnot Hp0 Hlt Hn Hl. pose proof (links_ptr _ _ _ _ Hl) as [Hq Hs]. cbn [fst snd] in Hq, Hs.
  assert (size_at h p.1 = p.2) as Hps by (unfold size_at; by rewrite Hp).
  unfold free_left, join_left, bind, gets. rewrite Hps.
  destruct (Z.eqb_spec (p.1 + HDR * p.2) bp) as [E|_].
  - exists (put_hdr p.1 (first l base) (p.2 + n) h). split_and!; try done.
    + unfold set_size, set_ptr, modify, put_hdr. rewrite Hs, (u32_small (p.2 + n)) by lia.
      unfold ptr_at in *. cbn. by rewrite Hq.
    + cbn. rewrite !lookup_insert_eq. split_and!; try done. apply put_hdr_links; [|by apply Hl].
      intros Hin. apply Hnot. cbn. by right.
    + intros a Ha. cbn. by rewrite !lookup_insert_ne.
  - exists (put_hdr p.1 bp p.2 h). split_and!; try done.
    + unfold set_ptr, modify, put_hdr. by rewrite (insert_id (hsize h)).
    + change (links (put_hdr p.1 bp p.2 h) (p :: (bp, n) :: l) base).
      split_and!; [cbn; by rewrite lookup_insert_eq..|]. by apply put_hdr_links.
    + intros a Ha. cbn. by rewrite !lookup_insert_ne.
Qed.

(** ** Joining blocks *)

Lemma free_byte_cons b l x : free_byte (b :: l) x <-> bytes_of b x \/ free_byte l x.
Proof.
  unfold free_byte. split.
  - intros (c & [->|Hc]%elem_of_cons & Hx); eauto.
  - intros [Hx|(c & Hc & Hx)]; [exists b; split; [left|done]|exists c; split; [by right|done]].
Qed.

Lemma free_byte_app l1 l2 x : free_byte (l1 ++ l2) x <-> free_byte l1 x \/ free_byte l2 x.
Proof.
  induction l1 as [|b l1 IH]; cbn [app].
  - split; [auto|]. intros [(b & Hb%not_elem_of_nil & _)|]; done.
  - rewrite !free_byte_cons, IH. tauto.
Qed.

Lemma join_right_spec lo hi bp n l :
  spaced lo hi l -> lo <= bp -> 0 < n -> bp + HDR * n <= hi ->
  (forall c, c ∈ l -> bp + HDR * n <= c.1) ->
  let '(n', l') := join_right bp n l in
  n <= n' /\ spaced lo hi ((bp, n') :: l') /\ (forall c, c ∈ l' -> c ∈ l) /\
  (forall x, free_byte ((bp, n') :: l') x <-> bytes_of (bp, n) x \/ free_byte l x).
Proof.
  intros Hs Hlo Hn Hhi Hc. unfold join_right. destruct l as [|b l].
  { cbn. split_and!; try done; try lia. apply free_byte_cons. }
  destruct Hs as (H1 & H2 & H3 & H4). pose proof (Hc b ltac:(left)) as Hb.
  destruct (Z.eqb_spec (bp + HDR * n) b.1) as [E|Hne].
  - assert (bp + HDR * (n + b.2) = b.1 + HDR * b.2) as E2 by (unfold HDR in *; lia).
    split_and!; try lia.
    + cbn. rewrite E2. split_and!; try done; lia.
    + intros c Hin. by right.
    + intros x. rewrite !free_byte_cons. unfold bytes_of. cbn. unfold HDR in *. intuition lia.
  - split_and!; try lia; try done.
    + cbn. split_and!; try done; lia.
    + intros x. apply free_byte_cons.
Qed.

Lemma join_left_spec lo hi l1 p bp n l :
  spaced lo hi (l1 ++ [p]) -> spaced lo hi ((bp, n) :: l) ->
  (forall b, b ∈ l1 ++ [p] -> b.1 + HDR * b.2 <= bp) ->
  let l' := l1 ++ join_left p bp n l in
  spaced lo hi l' /\ (forall x, free_byte l' x <-> free_byte (l1 ++ [p]) x \/ free_byte ((bp, n) :: l) x) /\
  exists b, b ∈ l' /\ b.1 <= bp /\ bp + HDR * n <= b.1 + HDR * b.2.
Proof.
  intros H1 H2 Hb. apply spaced_app in H1 as (Hl1 & Hp & Hx). pose proof (Hb p) as Hpb.
  specialize (Hpb ltac:(apply elem_of_app; right; left)). destruct Hp as (P1 & P2 & P3 & _).
  destruct H2 as (B1 & B2 & B3 & B4). cbn [fst snd] in *. cbv zeta. unfold join_left.
  assert (forall b, b ∈ l1 -> b.1 + HDR * b.2 < p.1) as Hl1p by (intros b Hin; apply Hx; [done|left]).
  destruct (Z.eqb_spec (p.1 + HDR * p.2) bp) as [E|Hne].
  - assert (p.1 + HDR * (p.2 + n) = bp + HDR * n) as E2 by (unfold HDR in *; lia). split_and!.
    + apply spaced_app. split_and!; [done| |].
      * cbn. rewrite E2. split_and!; try done; lia.
      * intros b c Hin [->|Hc]%elem_of_cons; [by apply Hl1p|].
        pose proof (spaced_bounds _ _ _ _ B4 Hc). specialize (Hl1p b Hin). unfold HDR in *. lia.
    + intros x. rewrite !free_byte_app, !free_byte_cons. unfold bytes_of. cbn.
      assert (~ free_byte [] x) by (by intros (? & ?%not_elem_of_nil & _)). unfold HDR in *. intuition lia.
    + exists (p.1, p.2 + n). split; [apply elem_of_app; right; left|]. cbn. unfold HDR in *. lia.
  - split_and!.
    + apply spaced_app. split_and!; [done| |].
      * cbn. split_and!; try done; lia.
      * intros b c Hin Hc. specialize (Hl1p b Hin).
        apply elem_of_cons in Hc as [->|[->|Hc]%elem_of_cons]; [done|cbn; unfold HDR in *; lia|].
        pose proof (spaced_bounds _ _ _ _ B4 Hc). unfold HDR in *. lia.
    + intros x. rewrite !free_byte_app, !free_byte_cons.
      assert (~ free_byte [] x) by (by intros (? & ?%not_elem_of_nil & _)). tauto.
    + exists (bp, n). split; [apply elem_of_app; right; right; left|]. cbn. lia.
Qed.

Context (Hbase : 0 < base) (Hstart : base + HDR <= start) (Hlimit : limit <= 2 ^ 31).

Section state.
Context (h : heap) (fl : list (Z * Z)) (al : gmap Z Z) (I : hinv h fl al).

Lemma ring_inc : inc (base - 1) ((base, 0) :: fl).
Proof.
  split; [cbn; lia|]. eapply spaced_inc; [|apply I]. unfold HDR in *. cbn. lia.
Qed.

Lemma ring_nodup : NoDup (((base, 0) :: fl).*1).
Proof.
  cbn. constructor; [|eapply spaced_nodup, I]. intros (b & E & Hb)%list_elem_of_fmap.
  pose proof (spaced_bounds _ _ _ _ (hi_spaced _ _ _ I) Hb). unfold HDR in *. lia.
Qed.

Lemma free_size b : b ∈ fl -> 0 < b.2 < 2 ^ 27.
Proof.
  intros Hb. pose proof (spaced_bounds _ _ _ _ (hi_spaced _ _ _ I) Hb).
  pose proof (hi_brk _ _ _ I). unfold HDR in *. lia.
Qed.

(** An allocated block among the free ones. *)
Lemma alloc_between bp n :
  al !! bp = Some n ->
  bp ∉ fl.*1 /\ forall b, b ∈ fl -> (b.1 < bp -> b.1 + HDR * b.2 <= bp) /\ (bp < b.1 -> bp + HDR * n <= b.1).
Proof.
  intros Ha. destruct (hi_al _ _ _ I _ _ Ha) as (_ & Hn & _).
  assert (forall b x, b ∈ fl -> bytes_of b x -> bytes_of (bp, n) x -> False) as Hd.
  { intros b x Hb H1 H2. apply (hi_free _ _ _ I x); [by exists b|by exists bp, n]. }
  unfold bytes_of in Hd. cbn in Hd. split.
  - intros (b & -> & Hb)%list_elem_of_fmap. pose proof (free_size b Hb).
    apply (Hd b b.1 Hb); unfold HDR; lia.
  - intros b Hb. pose proof (free_size b Hb). split; intros Hlt.
    + destruct (decide (b.1 + HDR * b.2 <= bp)); [done|]. exfalso. apply (Hd b bp Hb); unfold HDR in *; lia.
    + destruct (decide (bp + HDR * n <= b.1)); [done|]. exfalso. apply (Hd b b.1 Hb); unfold HDR in *; lia.
Qed.

End state.

(** What [free] of the block [n] at [bp] establishes. *)
Definition freed (h : heap) (fl : list (Z * Z)) (al : gmap Z Z) (bp n : Z) (h' : heap)
    (fl' : list (Z * Z)) : Prop :=
  hinv h' fl' (delete bp al) /\ brk h' = brk h /\ (length fl' <= S (length fl))%nat /\
  (forall x, free_byte fl' x <-> free_byte fl x \/ bytes_of (bp, n) x) /\
  exists b, b ∈ fl' /\ b.1 <= bp /\ bp + HDR * n <= b.1 + HDR * b.2.

(** The invariant after the list has been relinked around the block. *)
Lemma freed_intro h fl al bp n h' fl' :
  hinv h fl al -> al !! bp = Some n ->
  links h' ((base, 0) :: fl') base -> spaced start (brk h) fl' -> freep h' ∈ base :: fl'.*1 ->
  brk h' = brk h -> (length fl' <= S (length fl))%nat ->
  (forall a m, al !! a = Some m -> a <> bp -> hsize h' !! a = hsize h !! a) ->
  (forall x, free_byte fl' x <-> free_byte fl x \/ bytes_of (bp, n) x) ->
  (exists b, b ∈ fl' /\ b.1 <= bp /\ bp + HDR * n <= b.1 + HDR * b.2) ->
  freed h fl al bp n h' fl'.
Proof.
  intros I Ha Hl Hs Hf Hb Hlen Hsz Hx Hin. split_and!; try done. split; rewrite ?Hb; try done; try apply I.
  - intros a m [Hne Hm]%lookup_delete_Some. destruct (hi_al _ _ _ I _ _ Hm) as (H1 & H2 & H3 & H4).
    split_and!; try done. by rewrite (Hsz a m).
  - intros a m b k x [_ Hm]%lookup_delete_Some [_ Hk]%lookup_delete_Some. by apply I.
  - intros x Hfx (a & m & [Hne Hm]%lookup_delete_Some & Hbx). apply Hx in Hfx as [Hfx|Hfx].
    + apply (hi_free _ _ _ I x Hfx). by exists a, m.
    + apply Hne. by apply (hi_disj _ _ _ I bp n a m x).
Qed.

(** The relinking, once the node [p] before the block is known: [pre] and [p]
    are the ring up to there. *)
Lemma relink h pre p l2 bp n :
  links h (pre ++ p :: l2) base -> NoDup ((pre ++ p :: l2).*1) -> bp ∉ (pre ++ p :: l2).*1 ->
  hsize h !! bp = Some n -> base < bp -> 0 < n < 2 ^ 27 -> 0 <= p.2 < 2 ^ 27 ->
  (forall b, b ∈ l2 -> 0 < b.2 < 2 ^ 27) ->
  let '(n', l2') := join_right bp n l2 in
  exists h', (free_right bp p.1 ;; free_left bp p.1 ;; set_freep p.1) h = Ok tt h' /\
    links h' (pre ++ join_left p bp n' l2') base /\ freep h' = p.1 /\ brk h' = brk h /\
    forall a, a <> p.1 -> a <> bp -> hsize h' !! a = hsize h !! a.
Proof.
  intros Hl Hnd Hbp Hsz Hbb Hn Hp Hl2s. apply links_app in Hl as [Hpre Hl]. cbn [first] in Hpre.
  rewrite fmap_app in Hnd, Hbp. cbn [fmap list_fmap] in Hnd, Hbp.
  apply NoDup_app in Hnd as (_ & Hdis & [Hpl2 Hnd2]%NoDup_cons).
  apply not_elem_of_app in Hbp as [Hbpre [Hbp Hbl2]%not_elem_of_cons].
  pose proof (free_right_run h p bp n l2 Hsz Hbl2 Hbb ltac:(lia)
    ltac:(intros b Hb; specialize (Hl2s b Hb); lia) Hnd2 Hl) as Hright.
  assert (forall c, c ∈ (join_right bp n l2).2 -> c ∈ l2) as Hsub.
  { unfold join_right. destruct l2 as [|b l2]; [done|]. destruct (_ =? _); [intros c Hc; by right|done]. }
  assert ((join_right bp n l2).1 < 2 ^ 28 /\ 0 < (join_right bp n l2).1) as Hn'.
  { unfold join_right. destruct l2 as [|b l2]; cbn; [lia|]. specialize (Hl2s b ltac:(left)).
    destruct (_ =? _); cbn; lia. }
  destruct (join_right bp n l2) as [n' l2']. cbn [fst snd] in *. destruct Hright as [Hrun1 Hl1].
  set (h1 := put_hdr bp (first l2' base) n' h) in *.
  assert (hsize h1 !! p.1 = Some p.2) as Hp1.
  { subst h1. cbn. rewrite lookup_insert_ne by congruence. apply Hl. }
  destruct (free_left_run h1 p bp n' l2' Hp1) as (h2 & Hrun2 & Hl3 & Hf2 & Hb2 & Hother); try done; try lia.
  { cbn. apply not_elem_of_cons. split; [congruence|]. intros (c & E & Hc)%list_elem_of_fmap.
    apply Hpl2, list_elem_of_fmap. eauto. }
  exists {| hptr := hptr h2; hsize := hsize h2; freep := p.1; brk := brk h2 |}.
  unfold bind at 1. rewrite Hrun1. unfold bind. rewrite Hrun2. split_and!; try done.
  - eapply (links_same h2); [done|]. apply links_app. split; [|done].
    replace (first (join_left p bp n' l2') base) with p.1 by (unfold join_left; by destruct (_ =? _)).
    eapply (links_same h); [|exact Hpre]. intros b Hb.
    assert (b.1 <> p.1 /\ b.1 <> bp) as [Hb1 Hb3].
    { assert (b.1 ∈ pre.*1) as Hin by (apply list_elem_of_fmap; eauto).
      split; intros E; rewrite E in Hin; [|done]. apply (Hdis _ Hin). left. }
    destruct (Hother b.1 Hb1) as [-> ->]. subst h1. cbn. by rewrite !lookup_insert_ne.
  - intros a Ha1 Ha2. cbn. destruct (Hother a Ha1) as [_ ->]. subst h1. cbn. by rewrite lookup_insert_ne.
Qed.

(** The block [n] at [bp] between the free blocks [l1] and [l2]. *)
Section between.
Context (h : heap) (fl : list (Z * Z)) (al : gmap Z Z) (I : hinv h fl al).
Context (bp n : Z) (Ha : al !! bp = Some n) (l1 l2 : list (Z * Z)) (E : fl = l1 ++ l2).
Context (Hl1 : forall b, b ∈ l1 -> b.1 < bp) (Hl2 : forall b, b ∈ l2 -> bp < b.1).

Lemma bp_facts : base < bp /\ start <= bp /\ 0 < n < 2 ^ 27 /\ bp + HDR * n <= brk h /\
  hsize h !! bp = Some n /\ bp ∉ ((base, 0) :: fl).*1.
Proof.
  destruct (hi_al _ _ _ I _ _ Ha) as (Hb1 & Hn & Hb2 & Hsz). pose proof (hi_brk _ _ _ I).
  destruct (alloc_between h fl al I bp n Ha) as [Hbp _].
  split_and!; try done; try (unfold HDR in *; lia).
  cbn. apply not_elem_of_cons. split; [unfold HDR in *; lia|done].
Qed.

Lemma right_facts :
  (forall b, b ∈ l2 -> 0 < b.2 < 2 ^ 27) /\
  let '(n', l') := join_right bp n l2 in
  n <= n' /\ spaced start (brk h) ((bp, n') :: l') /\ (forall c, c ∈ l' -> c ∈ l2) /\
  (forall x, free_byte ((bp, n') :: l') x <-> bytes_of (bp, n) x \/ free_byte l2 x).
Proof.
  destruct bp_facts as (_ & H1 & Hn & H2 & _). pose proof (hi_spaced _ _ _ I) as Hsp. rewrite E in Hsp.
  apply spaced_app in Hsp as (_ & Hsp2 & _). split.
  - intros b Hb. apply (free_size h fl al I). rewrite E. apply elem_of_app. by right.
  - apply join_right_spec; try done; try lia. intros c Hc.
    destruct (alloc_between h fl al I bp n Ha) as [_ Hbt]. apply Hbt; [|by apply Hl2].
    rewrite E. apply elem_of_app. by right.
Qed.

Lemma other_blocks p h' :
  (p ∈ base :: fl.*1) -> (forall a, a <> p -> a <> bp -> hsize h' !! a = hsize h !! a) ->
  forall a m, al !! a = Some m -> a <> bp -> hsize h' !! a = hsize h !! a.
Proof.
  intros Hp Hother a m Hm Hne. apply Hother; [|done]. intros ->.
  apply elem_of_cons in Hp as [->|Hp].
  - destruct (hi_al _ _ _ I _ _ Hm). unfold HDR in *. lia.
  - by destruct (alloc_between h fl al I p m Hm).
Qed.

(** Nothing free below: the block comes first. *)
Lemma free_first :
  l1 = [] -> exists h' fl',
  (free_right bp base ;; free_left bp base ;; set_freep base) h = Ok tt h' /\ freed h fl al bp n h' fl'.
Proof.
  intros E1. destruct bp_facts as (Hbb & Hb1 & Hn & Hb2 & Hsz & Hbp). destruct right_facts as [Hs2 Hright].
  pose proof (join_right_length bp n l2) as Hlen.
  pose proof (hi_links _ _ _ I) as Hl. pose proof (ring_nodup h fl al I) as Hnd. rewrite E, E1 in Hl, Hnd, Hbp.
  pose proof (relink h [] (base, 0) l2 bp n Hl Hnd Hbp Hsz Hbb Hn ltac:(cbn; lia) Hs2) as Hre.
  destruct (join_right bp n l2) as [n' l2']. destruct Hright as (Hnn & Hsp' & _ & Hbytes).
  destruct Hre as (h' & Hrun & Hl' & Hf' & Hb' & Hother).
  assert (join_left (base, 0) bp n' l2' = (base, 0) :: (bp, n') :: l2') as Ej.
  { unfold join_left. cbn. destruct (Z.eqb_spec (base + HDR * 0) bp); [lia|done]. }
  rewrite Ej in Hl'. exists h', ((bp, n') :: l2'). split; [exact Hrun|]. apply freed_intro; try done.
  - rewrite Hf'. left.
  - rewrite E, E1. cbn in *. lia.
  - apply (other_blocks base); [left|exact Hother].
  - intros x. rewrite Hbytes, E, E1. tauto.
  - exists (bp, n'). split; [left|]. cbn. unfold HDR in *. lia.
Qed.

(** The block follows the free block [p]. *)
Lemma free_after l p :
  l1 = l ++ [p] -> exists h' fl',
  (free_right bp p.1 ;; free_left bp p.1 ;; set_freep p.1) h = Ok tt h' /\ freed h fl al bp n h' fl'.
Proof.
  intros E1. destruct bp_facts as (Hbb & Hb1 & Hn & Hb2 & Hsz & Hbp). destruct right_facts as [Hs2 Hright].
  pose proof (join_right_length bp n l2) as Hlen.
  assert (((base, 0) :: l) ++ p :: l2 = (base, 0) :: fl) as Er by (rewrite E, E1, <- app_assoc; done).
  assert (p ∈ fl) as Hpf by (rewrite E, E1, !elem_of_app; left; right; left).
  pose proof (hi_links _ _ _ I) as Hl. pose proof (ring_nodup h fl al I) as Hnd. rewrite <- Er in Hl, Hnd, Hbp.
  pose proof (free_size h fl al I p Hpf) as Hps.
  pose proof (relink h ((base, 0) :: l) p l2 bp n Hl Hnd Hbp Hsz Hbb Hn ltac:(lia) Hs2) as Hre.
  destruct (join_right bp n l2) as [n' l2']. destruct Hright as (Hnn & Hsp' & _ & Hbytes).
  destruct Hre as (h' & Hrun & Hl' & Hf' & Hb' & Hother).
  pose proof (hi_spaced _ _ _ I) as Hsp. rewrite E, E1 in Hsp. apply spaced_app in Hsp as (Hsp1 & _ & _).
  destruct (join_left_spec start (brk h) l p bp n' l2' Hsp1 Hsp') as (Hsp & Hby & b & Hin & Hb3 & Hb4).
  { intros b Hb. destruct (alloc_between h fl al I bp n Ha) as [_ Hbt].
    apply Hbt; [rewrite E, E1; apply elem_of_app; by left|]. apply Hl1. by rewrite E1. }
  exists h', (l ++ join_left p bp n' l2'). split; [exact Hrun|]. apply freed_intro; try done.
  - rewrite Hf', fmap_app. right. apply elem_of_app. right. unfold join_left. destruct (_ =? _); left.
  - rewrite E, E1, !length_app. cbn [length snd] in *. unfold join_left. destruct (_ =? _); cbn; lia.
  - apply (other_blocks p.1); [right; apply list_elem_of_fmap; eauto|exact Hother].
  - intros x. rewrite Hby, Hbytes, E, E1, !free_byte_app. tauto.
  - exists b. split_and!; try done. unfold HDR in *. lia.
Qed.

End between.

Lemma free_run h fl al ap n :
  hinv h fl al -> al !! (ap - HDR) = Some n ->
  exists h' fl', free ap h = Ok tt h' /\ freed h fl al (ap - HDR) n h' fl'.
Proof.
  intros I Ha. set (bp := ap - HDR) in *. destruct (alloc_between h fl al I bp n Ha) as [Hbp _].
  destruct (bp_facts h fl al I bp n Ha) as (Hbb & _).
  destruct (split_at _ _ _ bp (hi_spaced _ _ _ I) Hbp) as (l1 & l2 & E & Hl1 & Hl2).
  rewrite free_unfold. fold bp. unfold bind at 1.
  pose proof (hi_links _ _ _ I) as Hl. pose proof (ring_inc h fl al I) as Hi.
  pose proof (ring_nodup h fl al I) as Hnd. pose proof (hi_freep _ _ _ I) as Hf.
  rewrite E in Hl, Hi, Hnd, Hf.
  rewrite (free_loop_finds h bp l1 l2 (freep h) Hl Hi Hnd); try done.
  2: { intros b [->|Hb]%elem_of_cons; [done|by apply Hl1]. }
  destruct l1 as [|p l1 _] using rev_ind; unfold last_of; [|rewrite last_snoc]; cbn [from_option id last].
  - by apply (free_first h fl al I bp n Ha [] l2 E).
  - by apply (free_after h fl al I bp n Ha _ l2 E Hl1 Hl2 l1 p).
Qed.

(** ** [malloc] *)

Context (grows : Z -> Z -> bool).
Local Notation malloc_loop := (malloc_loop grows).
Local Notation morecore := (morecore grows).
Local Notation sbrk := (sbrk grows).
Local Notation malloc := (malloc base grows).

(** [r] is the address of a new block of [nu] units. *)
Definition taken (h : heap) (al : gmap Z Z) (nu r : Z) (h' : heap) (fl' : list (Z * Z)) : Prop :=
  hinv h' fl' (<[r - HDR := nu]> al) /\ al !! (r - HDR) = None /\ start + HDR <= r /\ brk h' = brk h.

(** The invariant after a part of the free block [b] has been handed out. *)
Lemma taken_intro h fl al nu r h' fl' b :
  hinv h fl al -> b ∈ fl -> 0 < nu -> b.1 <= r - HDR -> r - HDR + HDR * nu <= b.1 + HDR * b.2 ->
  links h' ((base, 0) :: fl') base -> spaced start (brk h) fl' -> freep h' ∈ base :: fl'.*1 ->
  brk h' = brk h -> hsize h' !! (r - HDR) = Some nu ->
  (forall a m, al !! a = Some m -> hsize h' !! a = hsize h !! a) ->
  (forall x, free_byte fl' x -> free_byte fl x /\ ~ bytes_of (r - HDR, nu) x) ->
  taken h al nu r h' fl'.
Proof.
  intros I Hb Hnu Hlo Hhi Hl Hs Hf Hbrk Hsz Hother Hx.
  pose proof (spaced_bounds _ _ _ _ (hi_spaced _ _ _ I) Hb) as (Hb1 & Hb2 & Hb3).
  assert (forall x, bytes_of (r - HDR, nu) x -> free_byte fl x) as Hwas.
  { intros x Hxb. exists b. split; [done|]. unfold bytes_of in *. cbn in *. lia. }
  assert (forall a m, al !! a = Some m -> forall x, bytes_of (a, m) x -> ~ bytes_of (r - HDR, nu) x) as Hd.
  { intros a m Ha x H1 H2. apply (hi_free _ _ _ I x (Hwas x H2)). by exists a, m. }
  assert (al !! (r - HDR) = None) as Hnone.
  { destruct (al !! (r - HDR)) as [m|] eqn:E; [|done]. exfalso.
    destruct (hi_al _ _ _ I _ _ E) as (_ & Hm & _).
    apply (Hd _ _ E (r - HDR)); unfold bytes_of, HDR; cbn; lia. }
  split_and!; try done; [|unfold HDR in *; lia]. split; rewrite ?Hbrk; try done; [| | |apply I].
  - intros a m [[<- <-]|[Hne Hm]]%lookup_insert_Some; [by split_and!; try lia|].
    destruct (hi_al _ _ _ I _ _ Hm) as (H1 & H2 & H3 & H4). rewrite (Hother a m Hm). by split_and!.
  - intros a m c k x [[<- <-]|[_ Hm]]%lookup_insert_Some [[<- <-]|[_ Hk]]%lookup_insert_Some; try done.
    + intros H1 H2. by apply (Hd _ _ Hk x) in H2.
    + intros H1 H2. by apply (Hd _ _ Hm x) in H1.
    + by apply I.
  - intros x Hfx (a & m & [[<- <-]|[_ Hm]]%lookup_insert_Some & Hax); destruct (Hx x Hfx) as [H1 H2]; [done|].
    apply (hi_free _ _ _ I x H1). by exists a, m.
Qed.

(** A list of blocks without one of them, and with one cut short. *)
Lemma spaced_remove lo hi l1 b l2 :
  spaced lo hi (l1 ++ b :: l2) ->
  spaced lo hi (l1 ++ l2) /\ forall x, free_byte (l1 ++ l2) x -> ~ bytes_of b x.
Proof.
  intros Hs. pose proof Hs as (H1 & (B1 & B2 & B3 & B4) & Hx)%spaced_app. split.
  - apply spaced_app. split_and!; [done| |].
    + eapply (spaced_weaken _ lo hi hi); [|done|exact B4]. unfold HDR in *. lia.
    + intros c d Hc Hd. apply Hx; [done|by right].
  - intros x [(c & Hc & Hcx)|(c & Hc & Hcx)]%free_byte_app; unfold bytes_of in *.
    + specialize (Hx c b Hc ltac:(left)). lia.
    + pose proof (spaced_bounds _ _ _ _ B4 Hc). lia.
Qed.

Lemma spaced_cut lo hi l1 p sz m l2 :
  spaced lo hi (l1 ++ (p, sz) :: l2) -> 0 < m < sz ->
  spaced lo hi (l1 ++ (p, m) :: l2) /\
  forall x, free_byte (l1 ++ (p, m) :: l2) x ->
    free_byte (l1 ++ (p, sz) :: l2) x /\ ~ bytes_of (p + HDR * m, sz - m) x.
Proof.
  intros Hs Hm. pose proof Hs as (H1 & (B1 & B2 & B3 & B4) & Hx)%spaced_app. cbn [fst snd] in *. split.
  - apply spaced_app. split_and!; [done| |].
    + cbn. split_and!; try done; try (unfold HDR in *; lia).
      eapply (spaced_weaken _ _ hi hi); [|done|exact B4]. unfold HDR. lia.
    + intros c d Hc [->|Hd]%elem_of_cons; [apply (Hx c (p, sz)); [done|left]|apply Hx; [done|by right]].
  - intros x. rewrite !free_byte_app, !free_byte_cons. unfold bytes_of. cbn [fst snd].
    intros [(c & Hc & Hcx)|[Hpx|(c & Hc & Hcx)]].
    + specialize (Hx c (p, sz) Hc ltac:(left)). unfold bytes_of in *. cbn in *. split; [left; by exists c|].
      unfold HDR in *. lia.
    + unfold HDR in *. split; [right; left; lia|lia].
    + pose proof (spaced_bounds _ _ _ _ B4 Hc). unfold bytes_of in *. split; [right; right; by exists c|].
      unfold HDR in *. lia.
Qed.

Lemma al_not_free h fl al a m b :
  hinv h fl al -> al !! a = Some m -> b ∈ fl -> ~ bytes_of b a.
Proof.
  intros I Ha Hb Hx. destruct (hi_al _ _ _ I _ _ Ha) as (_ & Hm & _).
  apply (hi_free _ _ _ I a); [by exists b|]. exists a, m. split; [done|]. unfold bytes_of, HDR. cbn. lia.
Qed.

(** The whole block is unlinked. *)
Lemma take_whole h l1 p nu l2 al :
  hinv h (l1 ++ (p, nu) :: l2) al ->
  exists h' fl', take_block nu (last_of (base, 0) l1).1 p h = Ok (p + HDR) h' /\
    taken h al nu (p + HDR) h' fl'.
Proof.
  intros I. pose proof (hi_links _ _ _ I) as Hl. rewrite app_comm_cons in Hl.
  pose proof (ring_nodup _ _ _ I) as Hnd.
  assert (exists pre q, (base, 0) :: l1 = pre ++ [q] /\ last_of (base, 0) l1 = q) as (pre & q & Eq & ->).
  { destruct l1 as [|q l1 _] using rev_ind; [by exists [], (base, 0)|]. exists ((base, 0) :: l1), q.
    split; [done|]. unfold last_of. by rewrite last_snoc. }
  rewrite Eq, <- app_assoc in Hl. rewrite app_comm_cons, Eq, <- app_assoc in Hnd.
  apply links_app in Hl as [Hpre (Hq1 & Hq2 & Hp1 & Hp2 & Hl2)]. cbn [first fst snd] in *.
  set (h' := {| hptr := <[q.1 := first l2 base]> (hptr h); hsize := hsize h; freep := q.1; brk := brk h |}).
  exists h', (l1 ++ l2). split.
  { unfold take_block, bind, gets, size_at, ptr_at. rewrite Hp2. cbn [from_option id].
    rewrite Z.eqb_refl. by rewrite Hp1. }
  destruct (spaced_remove _ _ _ _ _ (hi_spaced _ _ _ I)) as [Hsp Hx].
  assert ((p, nu) ∈ l1 ++ (p, nu) :: l2) as Hin by (apply elem_of_app; right; left).
  destruct (spaced_bounds _ _ _ _ (hi_spaced _ _ _ I) Hin) as (_ & Hnu & _).
  apply (taken_intro h _ al nu (p + HDR) h' _ (p, nu) I Hin); rewrite ?Z.add_simpl_r; cbn; try done; try lia.
  - change (links h' (((base, 0) :: l1) ++ l2) base). rewrite Eq, <- app_assoc. apply links_app.
    rewrite !fmap_app in Hnd. cbn in Hnd. apply NoDup_app in Hnd as (_ & Hd & [Hqn _]%NoDup_cons).
    assert (forall b, b ∈ pre \/ b ∈ l2 -> b.1 <> q.1) as Hne.
    { intros b [Hb|Hb] E.
      - apply (Hd b.1); [apply list_elem_of_fmap; eauto|]. rewrite E. left.
      - apply Hqn. rewrite <- E. right. apply list_elem_of_fmap. eauto. }
    split; [|split_and!; [cbn; by rewrite lookup_insert_eq|done|]].
    + eapply (links_same h); [|exact Hpre]. intros b Hb. cbn. rewrite lookup_insert_ne; [done|].
      symmetry. auto.
    + eapply (links_same h); [|exact Hl2]. intros b Hb. cbn. rewrite lookup_insert_ne; [done|].
      symmetry. auto.
  - destruct pre as [|c pre]; [injection Eq as <- _; left|]. injection Eq as _ ->.
    right. rewrite !fmap_app. apply elem_of_app. left. apply elem_of_app. right. left.
  - intros x Hfx. split; [|by apply Hx]. apply free_byte_app. rewrite free_byte_cons.
    apply free_byte_app in Hfx. tauto.
Qed.

Lemma last_of_elem x l : last_of x l ∈ x :: l.
Proof.
  unfold last_of. destruct (last l) as [y|] eqn:E; cbn; [|left]. right.
  apply last_Some in E as [l' ->]. apply elem_of_app. right. left.
Qed.

(** The header of the tail is a new one. *)
Lemma tail_fresh h l1 p sz l2 al m b :
  hinv h (l1 ++ (p, sz) :: l2) al -> 0 < m < sz ->
  b ∈ (base, 0) :: l1 ++ (p, sz) :: l2 -> b.1 <> p + HDR * m.
Proof.
  intros I Hm Hb E. pose proof (hi_spaced _ _ _ I) as Hsp.
  assert ((p, sz) ∈ l1 ++ (p, sz) :: l2) as Hin by (apply elem_of_app; right; left).
  pose proof (spaced_bounds _ _ _ _ Hsp Hin) as Hp. apply spaced_app in Hsp as (H1 & (_ & _ & _ & B4) & Hc).
  cbn [fst snd] in *. apply elem_of_cons in Hb as [->|[Hb|[->|Hb]%elem_of_cons]%elem_of_app]; cbn [fst] in *.
  - unfold HDR in *. lia.
  - pose proof (Hc b (p, sz) Hb ltac:(left)). pose proof (spaced_bounds _ _ _ _ H1 Hb).
    unfold HDR in *. cbn in *. lia.
  - unfold HDR in *. lia.
  - pose proof (spaced_bounds _ _ _ _ B4 Hb). unfold HDR in *. lia.
Qed.

(** The list with the block [p] cut to [m] units. *)
Lemma links_cut h h' l1 p sz l2 m q :
  links h ((base, 0) :: l1 ++ (p, sz) :: l2) base -> NoDup (((base, 0) :: l1 ++ (p, sz) :: l2).*1) ->
  (forall b, b ∈ (base, 0) :: l1 ++ (p, sz) :: l2 -> b.1 <> q) ->
  hptr h' = hptr h -> hsize h' !! p = Some m ->
  (forall a, a <> p -> a <> q -> hsize h' !! a = hsize h !! a) ->
  links h' ((base, 0) :: l1 ++ (p, m) :: l2) base.
Proof.
  intros Hl Hnd Hq Hptr Hp Hother. rewrite app_comm_cons in Hl, Hnd, Hq |- *.
  apply links_app in Hl as [Hpre (Hp1 & _ & Hl2)]. rewrite fmap_app in Hnd.
  apply NoDup_app in Hnd as (_ & Hd & Hpn). cbn in Hpn. apply NoDup_cons in Hpn as [Hpn _].
  apply links_app. split; [|split_and!; [by rewrite Hptr|done|]].
  - eapply (links_same h); [|exact Hpre]. intros b Hb. rewrite Hptr. split; [done|]. apply Hother.
    + intros E. apply (Hd b.1); [apply list_elem_of_fmap; eauto|]. rewrite E. left.
    + apply Hq. apply elem_of_app. by left.
  - eapply (links_same h); [|exact Hl2]. intros b Hb. rewrite Hptr. split; [done|]. apply Hother.
    + intros E. apply Hpn. rewrite <- E. apply list_elem_of_fmap. eauto.
    + apply Hq. apply elem_of_app. right. by right.
Qed.

(** The tail of a larger block is cut off. *)
Lemma take_tail h l1 p sz l2 al nu :
  hinv h (l1 ++ (p, sz) :: l2) al -> 0 < nu < sz ->
  exists r h' fl', take_block nu (last_of (base, 0) l1).1 p h = Ok r h' /\ taken h al nu r h' fl'.
Proof.
  intros I Hnu. pose proof (hi_links _ _ _ I) as Hl. pose proof (ring_nodup _ _ _ I) as Hnd.
  assert ((p, sz) ∈ l1 ++ (p, sz) :: l2) as Hin by (apply elem_of_app; right; left).
  pose proof (free_size _ _ _ I _ Hin) as Hszb. cbn in Hszb.
  assert (hsize h !! p = Some sz) as Hp2.
  { pose proof Hl as Hl'. rewrite app_comm_cons in Hl'. by apply links_app in Hl' as [_ (_ & ? & _)]. }
  set (q := p + HDR * (sz - nu)).
  set (h' := {| hptr := hptr h; hsize := <[q := nu]> (<[p := sz - nu]> (hsize h));
                freep := (last_of (base, 0) l1).1; brk := brk h |}).
  exists (q + HDR), h', (l1 ++ (p, sz - nu) :: l2). split.
  { unfold take_block, bind, gets, size_at. rewrite Hp2. cbn [from_option id].
    destruct (Z.eqb_spec sz nu); [lia|]. unfold set_size, set_freep, modify, ret. cbn [hsize hptr freep brk].
    by rewrite !(u32_small (sz - nu)), (u32_small nu) by lia. }
  destruct (spaced_cut _ _ _ _ _ (sz - nu) _ (hi_spaced _ _ _ I) ltac:(lia)) as [Hsp Hx].
  fold q in Hx. replace (sz - (sz - nu)) with nu in Hx by lia.
  assert (q <> p) as Hqp by (unfold q, HDR; lia).
  apply (taken_intro h _ al nu (q + HDR) h' _ (p, sz) I Hin); rewrite ?Z.add_simpl_r; cbn [fst snd]; try done;
    try (unfold q, HDR; lia).
  - apply (links_cut h h' l1 p sz l2 (sz - nu) q Hl Hnd); try done.
    + intros b Hb. exact (tail_fresh h l1 p sz l2 al (sz - nu) b I ltac:(lia) Hb).
    + cbn. by rewrite lookup_insert_ne, lookup_insert_eq.
    + intros a Ha1 Ha2. cbn. by rewrite !lookup_insert_ne.
  - cbn. pose proof (last_of_elem (base, 0) l1) as [->|Hf]%elem_of_cons; [left|]. right.
    rewrite fmap_app. apply elem_of_app. left. apply list_elem_of_fmap. eauto.
  - cbn. by rewrite lookup_insert_eq.
  - intros a m Ha. pose proof (al_not_free _ _ _ _ _ _ I Ha Hin) as Hnb. unfold bytes_of in Hnb. cbn in Hnb |- *.
    rewrite !lookup_insert_ne; [done| |]; intros <-; apply Hnb; unfold q, HDR; lia.
Qed.

Lemma take_run h l1 p sz l2 al nu :
  hinv h (l1 ++ (p, sz) :: l2) al -> 0 < nu <= sz ->
  exists r h' fl', take_block nu (last_of (base, 0) l1).1 p h = Ok r h' /\ taken h al nu r h' fl'.
Proof.
  intros I Hnu. destruct (decide (nu = sz)) as [->|].
  - destruct (take_whole _ _ _ _ _ _ I) as (h' & fl' & Hr & Ht). eauto.
  - apply (take_tail _ _ _ _ _ _ _ I). lia.
Qed.

(** *** The search *)

Definition found (fuel : nat) (nu prevp p : Z) (h : heap) (al : gmap Z Z) : Prop :=
  exists r h' fl', malloc_loop fuel nu prevp p h = Ok r h' /\ taken h al nu r h' fl'.

(** What [malloc] does after a round without success. *)
Definition grow (fuel : nat) (nu : Z) : M heap Z :=
  p <- morecore nu ;;
  if p =? 0 then ret 0
  else
    next <- gets (fun h => ptr_at h p) ;;
    malloc_loop fuel nu p next.

Section search.
Context (h : heap) (fl : list (Z * Z)) (al : gmap Z Z) (I : hinv h fl al) (nu : Z) (Hnu : 0 < nu).

(** [prevp] is the node before the last one of [pre]'s successor. *)
Definition before (pre : list (Z * Z)) (prevp : Z) : Prop :=
  pre = [] \/ exists l y, pre = l ++ [y] /\ prevp = y.1.

Lemma node_facts pre x post :
  (base, 0) :: fl = pre ++ x :: post -> size_at h x.1 = x.2 /\ ptr_at h x.1 = first post base.
Proof.
  intros E. pose proof (hi_links _ _ _ I) as Hl. rewrite E in Hl. apply links_app in Hl as [_ Hl].
  by destruct (links_ptr _ _ _ _ Hl).
Qed.

Lemma fits pre x post fuel prevp :
  (base, 0) :: fl = pre ++ x :: post -> before pre prevp -> nu <= x.2 ->
  found (S fuel) nu prevp x.1 h al.
Proof.
  intros E Hb Hx. destruct (node_facts _ _ _ E) as [Hs _].
  destruct pre as [|c l1]; [injection E as <- _; cbn in Hx; lia|]. injection E as <- E.
  assert (prevp = (last_of (base, 0) l1).1) as ->.
  { destruct Hb as [?|(l & y & El & ->)]; [done|]. destruct l as [|c l]; [by injection El as <- ->|].
    injection El as _ ->. unfold last_of. by rewrite last_snoc. }
  pose proof I as I'. rewrite E in I'. destruct x as [p sz]. cbn [fst snd] in *.
  destruct (take_run h l1 p sz post al nu I' ltac:(lia)) as (r & h' & fl' & Hr & Ht).
  exists r, h', fl'. split; [|done]. cbn [malloc_loop]. unfold bind at 1, gets at 1. rewrite Hs.
  destruct (Z.leb_spec nu sz); [done|lia].
Qed.

Lemma passes pre x post fuel prevp :
  (base, 0) :: fl = pre ++ x :: post -> x.2 < nu -> x.1 <> freep h ->
  malloc_loop (S fuel) nu prevp x.1 h = malloc_loop fuel nu x.1 (first post base) h.
Proof.
  intros E Hx Hf. destruct (node_facts _ _ _ E) as [Hs Hp]. cbn [malloc_loop]. unfold bind, gets.
  rewrite Hs. destruct (Z.leb_spec nu x.2); [lia|]. destruct (Z.eqb_spec x.1 (freep h)); [done|].
  by rewrite Hp.
Qed.

(** A stretch of the ring that does not contain [freep]. *)
Lemma scan_stretch l pre x post fuel prevp :
  (base, 0) :: fl = pre ++ x :: l ++ post -> before pre prevp ->
  (forall b, b ∈ x :: l -> b.1 <> freep h) ->
  found (S (length l) + fuel) nu prevp x.1 h al \/
  ((forall b, b ∈ x :: l -> b.2 < nu) /\
   malloc_loop (S (length l) + fuel) nu prevp x.1 h =
   malloc_loop fuel nu (last_of x l).1 (first post base) h).
Proof.
  revert pre x prevp. induction l as [|y l IH]; intros pre x prevp E Hb Hf; cbn [length Nat.add];
    (destruct (decide (nu <= x.2)) as [Hx|Hx]; [left; by eapply fits|]).
  - right. split; [intros b ->%list_elem_of_singleton; lia|].
    apply (passes pre x post); [done|lia|apply Hf; left].
  - rewrite (passes pre x (y :: l ++ post)); [|done|lia|apply Hf; left]. cbn [first].
    rewrite last_of_cons. unfold found. rewrite (passes pre x (y :: l ++ post)); [|done|lia|apply Hf; left].
    destruct (IH (pre ++ [x]) y x.1) as [Hfd|[Hn Heq]].
    + rewrite E, <- app_assoc. done.
    + right. by exists pre, x.
    + intros b Hb'. apply Hf. by right.
    + left. exact Hfd.
    + right. split; [|exact Heq]. intros b [->|Hb']%elem_of_cons; [lia|by apply Hn].
Qed.

(** The end of a round, at [freep]. *)
Lemma scan_last A f B fuel prevp :
  (base, 0) :: fl = A ++ f :: B -> f.1 = freep h -> before A prevp ->
  found (S fuel) nu prevp f.1 h al \/
  (f.2 < nu /\ malloc_loop (S fuel) nu prevp f.1 h = grow fuel nu h).
Proof.
  intros E Hf Hb. destruct (decide (nu <= f.2)) as [Hx|Hx]; [left; by eapply fits|right].
  split; [lia|]. destruct (node_facts _ _ _ E) as [Hs Hp]. cbn [malloc_loop]. unfold bind at 1, gets at 1.
  rewrite Hs. destruct (Z.leb_spec nu f.2); [lia|]. unfold bind at 1, gets at 1.
  by destruct (Z.eqb_spec f.1 (freep h)).
Qed.

(** From [base] up to [freep]. *)
Lemma scan_front A f B fuel prevp :
  (base, 0) :: fl = A ++ f :: B -> f.1 = freep h -> (forall b, b ∈ A -> b.1 <> freep h) ->
  found (length A + S fuel) nu prevp base h al \/
  ((forall b, b ∈ A ++ [f] -> b.2 < nu) /\
   malloc_loop (length A + S fuel) nu prevp base h = grow fuel nu h).
Proof.
  intros E Hf HA. destruct A as [|a A].
  { assert (f = (base, 0)) as -> by (by injection E as <- _).
    destruct (scan_last [] (base, 0) B fuel prevp E Hf ltac:(by left))
      as [?|[Hs Heq]]; [by left|]. right. split; [|done]. by intros b ->%list_elem_of_singleton. }
  assert (a = (base, 0)) as -> by (by injection E as <- _).
  destruct (scan_stretch A [] (base, 0) (f :: B) (S fuel) prevp E ltac:(by left) HA) as [Hfd|[Hn Heq]];
    [by left|]. cbn [length Nat.add] in *. cbn [first] in Heq.
  assert (before ((base, 0) :: A) (last_of (base, 0) A).1) as Hb.
  { right. destruct A as [|y A _] using rev_ind; [by exists [], (base, 0)|].
    exists ((base, 0) :: A), y. split; [done|]. unfold last_of. by rewrite last_snoc. }
  change (base, 0).1 with base in Heq. unfold found. rewrite Heq.
  destruct (scan_last _ f B fuel _ E Hf Hb) as [Hfd|[Hs Hg]]; [left; exact Hfd|right].
  split; [|done]. intros b [Hb'| ->%list_elem_of_singleton]%elem_of_app; [by apply Hn|done].
Qed.

(** A round of the ring from [freep]. *)
Lemma scan_round fuel :
  found (S (length fl) + fuel) nu (freep h) (ptr_at h (freep h)) h al \/
  ((forall b, b ∈ fl -> b.2 < nu) /\
   malloc_loop (S (length fl) + fuel) nu (freep h) (ptr_at h (freep h)) h = grow fuel nu h).
Proof.
  pose proof (ring_nodup h fl al I) as Hnd.
  assert (exists A f B, (base, 0) :: fl = A ++ f :: B /\ f.1 = freep h) as (A & f & B & E & Hf).
  { pose proof (hi_freep _ _ _ I) as Hin. change (base :: fl.*1) with (((base, 0) :: fl).*1) in Hin.
    apply list_elem_of_fmap in Hin as (f & Ef & Hin). apply list_elem_of_split in Hin as (A & B & E).
    by exists A, f, B. }
  rewrite E, fmap_app in Hnd. cbn in Hnd. apply NoDup_app in Hnd as (_ & HdA & [HdB _]%NoDup_cons).
  assert (S (length fl) = length B + (length A + 1))%nat as Hlen.
  { apply (f_equal length) in E. rewrite length_app in E. cbn in E. lia. }
  assert (forall b, b ∈ A -> b.1 <> freep h) as HA.
  { intros b Hb Eb. apply (HdA b.1); [apply list_elem_of_fmap; eauto|]. rewrite Eb, Hf. left. }
  assert (forall b, b ∈ B -> b.1 <> freep h) as HB.
  { intros b Hb Eb. apply HdB. rewrite Hf, <- Eb. apply list_elem_of_fmap. eauto. }
  destruct (node_facts _ _ _ E) as [_ Hp]. rewrite Hf in Hp. rewrite Hp, Hlen.
  assert (forall b, b ∈ fl -> b ∈ A ++ [f] \/ b ∈ B) as Hcover.
  { intros b Hb. assert (b ∈ (base, 0) :: fl) as Hb' by (by right). rewrite E in Hb'.
    rewrite cons_middle, app_assoc in Hb'. by apply elem_of_app in Hb'. }
  replace (length B + (length A + 1) + fuel)%nat with (length B + (length A + S fuel))%nat by lia.
  destruct B as [|x B]; cbn [first length Nat.add].
  { destruct (scan_front A f [] fuel (freep h) E Hf HA) as [Hfd|[Hn Heq]]; [by left|right].
    split; [|done]. intros b Hb. apply Hn. destruct (Hcover b Hb) as [?|?%not_elem_of_nil]; done. }
  destruct (scan_stretch B (A ++ [f]) x [] (length A + S fuel) (freep h)) as [Hfd|[Hn Heq]].
  { rewrite E, <- app_assoc, app_nil_r. done. }
  { right. exists A, f. by rewrite Hf. }
  { exact HB. }
  { by left. }
  cbn [Nat.add first] in Heq. rewrite Heq. unfold found. cbn [Nat.add] in *. rewrite Heq.
  destruct (scan_front A f (x :: B) fuel (last_of x B).1 E Hf HA) as [Hfd|[Hn' Hg]]; [left; exact Hfd|right].
  split; [|done]. intros b Hb. destruct (Hcover b Hb); [by apply Hn'|by apply Hn].
Qed.


End search.

(** *** Growing the heap *)

(** A process never outgrows [limit], the size of the physical memory. *)
Context (Hgrows : forall old n, grows old n = true -> old + n <= limit).

Definition chunk (nu : Z) : Z := if nu <? 4096 then 4096 else nu.

(** The new memory as an allocated block. *)
Lemma grown_inv h fl al nu :
  hinv h fl al -> 0 < nu -> brk h + HDR * nu <= limit ->
  al !! brk h = None /\
  hinv {| hptr := hptr h; hsize := <[brk h := nu]> (hsize h); freep := freep h; brk := brk h + HDR * nu |}
    fl (<[brk h := nu]> al).
Proof.
  intros I Hnu Hlim. pose proof (hi_brk _ _ _ I) as Hbrk.
  assert (forall a m, al !! a = Some m -> a + HDR * m <= brk h /\ 0 < m) as Hal.
  { intros a m Ha. by destruct (hi_al _ _ _ I _ _ Ha) as (_ & ? & ? & _). }
  assert (al !! brk h = None) as Hnone.
  { destruct (al !! brk h) as [m|] eqn:E; [|done]. destruct (Hal _ _ E). unfold HDR in *. lia. }
  assert (forall b, b ∈ (base, 0) :: fl -> b.1 <> brk h) as Hne.
  { intros b [->|Hb]%elem_of_cons; [unfold HDR in *; cbn; lia|].
    pose proof (spaced_bounds _ _ _ _ (hi_spaced _ _ _ I) Hb). unfold HDR in *. lia. }
  split; [done|]. split; cbn [brk freep hsize]; try apply I; try (unfold HDR in *; lia).
  - eapply (links_same h); [|apply I]. intros b Hb. cbn. rewrite lookup_insert_ne; [done|].
    intros E. by apply (Hne b).
  - eapply spaced_weaken; [done| |apply I]. unfold HDR in *. lia.
  - intros a m [[<- <-]|[Hna Hm]]%lookup_insert_Some.
    + rewrite lookup_insert_eq. split_and!; try done; lia.
    + destruct (hi_al _ _ _ I _ _ Hm) as (H1 & H2 & H3 & H4). rewrite lookup_insert_ne by done.
      split_and!; try done. unfold HDR in *. lia.
  - intros a m b k x [[<- <-]|[_ Hm]]%lookup_insert_Some [[<- <-]|[_ Hk]]%lookup_insert_Some; try done;
      unfold bytes_of; cbn; intros.
    + destruct (Hal _ _ Hk). lia.
    + destruct (Hal _ _ Hm). lia.
    + by apply (hi_disj _ _ _ I a m b k x).
  - intros x Hf (a & m & [[<- <-]|[_ Hm]]%lookup_insert_Some & Hx).
    + destruct Hf as (b & Hb & Hbx). pose proof (spaced_bounds _ _ _ _ (hi_spaced _ _ _ I) Hb).
      unfold bytes_of in *. cbn in *. lia.
    + apply (hi_free _ _ _ I x Hf). by exists a, m.
Qed.

Lemma sbrk_run n h :
  0 < n < 2 ^ 31 ->
  sbrk n h = if grows (brk h) n
    then Ok (brk h) {| hptr := hptr h; hsize := hsize h; freep := freep h; brk := brk h + n |}
    else Ok (u64 (-1)) h.
Proof.
  intros Hn. unfold sbrk. rewrite s32_small by lia. destruct (Z.ltb_spec 0 n); [|lia].
  unfold bind, gets. by destruct (grows _ _).
Qed.

Lemma morecore_run h fl al nu :
  hinv h fl al -> 0 < nu < 2 ^ 27 ->
  if grows (brk h) (HDR * chunk nu) then
    exists h' fl', morecore nu h = Ok (freep h') h' /\ hinv h' fl' al /\ freep h' <> 0 /\
      (length fl' <= S (length fl))%nat /\ brk h' = brk h + HDR * chunk nu /\
      exists b, b ∈ fl' /\ nu <= b.2
  else morecore nu h = Ok 0 h.
Proof.
  intros I Hnu. pose proof (hi_brk _ _ _ I) as Hbrk. unfold morecore. fold (chunk nu).
  assert (0 < chunk nu < 2 ^ 27 /\ nu <= chunk nu) as [Hc Hcn].
  { unfold chunk. destruct (Z.ltb_spec nu 4096); lia. }
  rewrite (Z.mul_comm (chunk nu)). assert (u64 (-1) = 2 ^ 64 - 1) as Hm1 by done.
  pose proof (sbrk_run (HDR * chunk nu) h ltac:(unfold HDR; lia)) as Hsbrk.
  destruct (grows (brk h) (HDR * chunk nu)) eqn:Hg; cycle 1.
  { unfold bind. rewrite Hsbrk. by rewrite Z.eqb_refl. }
  destruct (grown_inv h fl al (chunk nu) I ltac:(lia) (Hgrows _ _ Hg)) as [Hnone I1].
  destruct (free_run _ _ _ (brk h + HDR) (chunk nu) I1) as (h' & fl' & Hrun & Hfr).
  { rewrite Z.add_simpl_r. apply lookup_insert_eq. }
  rewrite Z.add_simpl_r in Hfr. destruct Hfr as (I2 & Hb & Hlen & _ & b & Hin & Hb1 & Hb2).
  rewrite delete_insert_id in I2 by done. exists h', fl'. split_and!; try done.
  - unfold bind. rewrite Hsbrk. destruct (Z.eqb_spec (brk h) (u64 (-1))) as [E|_]; [lia|].
    unfold set_size, modify. cbn [hptr hsize freep brk].
    rewrite (u32_small (chunk nu)) by lia. unfold gets. by rewrite Hrun.
  - pose proof (hi_freep _ _ _ I2) as [->|(c & -> & Hc')%list_elem_of_fmap]%elem_of_cons; [lia|].
    pose proof (spaced_bounds _ _ _ _ (hi_spaced _ _ _ I2) Hc'). unfold HDR in *. lia.
  - exists b. split; [done|]. unfold HDR in *. lia.
Qed.

(** ** The allocator *)

(** Before the first [malloc] there is no list yet. *)
Definition heap_ok (h : heap) (fl : list (Z * Z)) (al : gmap Z Z) : Prop :=
  (freep h = 0 /\ fl = [] /\ al = ∅ /\ start <= brk h <= limit) \/ hinv h fl al.

(** The heap the search starts from. *)
Definition init_heap (h : heap) : heap :=
  {| hptr := <[base := base]> (hptr h); hsize := <[base := 0]> (hsize h); freep := base; brk := brk h |}.

Lemma init_inv h : start <= brk h <= limit -> hinv (init_heap h) [] ∅.
Proof.
  intros Hb. split; cbn; try done.
  - by rewrite !lookup_insert_eq.
  - left.
  - intros x (b & Hbx%not_elem_of_nil & _). done.
Qed.

Lemma units_small nbytes :
  0 <= nbytes <= 2 ^ 31 - 32 -> 0 < units nbytes < 2 ^ 27 /\ nbytes <= HDR * (units nbytes - 1).
Proof.
  intros Hn. unfold units, HDR. pose proof (Z.div_mod (nbytes + 16 - 1) 16 ltac:(lia)).
  pose proof (Z.mod_pos_bound (nbytes + 16 - 1) 16 ltac:(lia)). rewrite u32_small by lia. lia.
Qed.

(** The search and its second round, from a heap with a list. *)
Lemma malloc_search h fl al nu :
  hinv h fl al -> 0 < nu < 2 ^ 27 ->
  exists r h' fl', malloc_loop (2 * nodes h + 2) nu (freep h) (ptr_at h (freep h)) h = Ok r h' /\
    ((r = 0 /\ hinv h' fl' al /\ (forall b, b ∈ fl -> b.2 < nu) /\ grows (brk h) (HDR * chunk nu) = false) \/
     (hinv h' fl' (<[r - HDR := nu]> al) /\ al !! (r - HDR) = None /\ start + HDR <= r)).
Proof.
  intros I Hnu.
  pose proof (length_nodes _ _ _ (hi_links _ _ _ I) (ring_nodup h fl al I)) as Hlen. cbn [length] in Hlen.
  set (n2 := (2 * nodes h + 2 - S (length fl))%nat).
  replace (2 * nodes h + 2)%nat with (S (length fl) + n2)%nat by lia.
  destruct (scan_round h fl al I nu ltac:(lia) n2) as [(r & h' & fl' & Hr & Ht)|[Hno Heq]].
  { exists r, h', fl'. split; [done|]. right. destruct Ht as (H1 & H2 & H3 & _). done. }
  rewrite Heq. pose proof (morecore_run h fl al nu I Hnu) as Hm. unfold grow.
  destruct (grows (brk h) (HDR * chunk nu)) eqn:Hg; cycle 1.
  { exists 0, h, fl. unfold bind. rewrite Hm. split; [done|]. by left. }
  destruct Hm as (h1 & fl1 & Hrun & I1 & Hf1 & Hlen1 & _ & b & Hb & Hfit).
  unfold bind. rewrite Hrun. destruct (Z.eqb_spec (freep h1) 0); [done|]. unfold gets.
  replace n2 with (S (length fl1) + (n2 - S (length fl1)))%nat by lia.
  destruct (scan_round h1 fl1 al I1 nu ltac:(lia) (n2 - S (length fl1)))
    as [(r & h' & fl' & Hr & Ht)|[Hno1 _]].
  - exists r, h', fl'. split; [done|]. right. destruct Ht as (H1 & H2 & H3 & _). done.
  - specialize (Hno1 b Hb). lia.
Qed.

(** Claim C27: [malloc] of at most 2^31 - 32 bytes always returns, and hands out
    memory nobody uses ([malloc_huge] is the first size for which it does not).
    It returns a block with room for [nbytes] bytes that overlaps no allocated
    block and no free one, or 0, only when no free block is large enough and
    the kernel has no memory left; in both cases the free list stays sorted,
    coalesced and disjoint from the allocated blocks. *)
Theorem malloc_allocates h fl al nbytes :
  heap_ok h fl al -> 0 <= nbytes <= 2 ^ 31 - 32 ->
  exists r h' fl', malloc nbytes h = Ok r h' /\
    ((r = 0 /\ hinv h' fl' al /\ (forall b, b ∈ fl -> b.2 < units nbytes) /\
      grows (brk h) (HDR * chunk (units nbytes)) = false) \/
     (hinv h' fl' (<[r - HDR := units nbytes]> al) /\ al !! (r - HDR) = None /\
      start + HDR <= r /\ nbytes <= HDR * (units nbytes - 1))).
Proof.
  intros Hok Hn. destruct (units_small nbytes Hn) as [Hu Hroom].
  assert (exists h0, hinv h0 fl al /\ brk h0 = brk h /\
    malloc nbytes h = malloc_loop (2 * nodes h0 + 2) (units nbytes) (freep h0) (ptr_at h0 (freep h0)) h0)
    as (h0 & I & Hb & Hrun).
  { destruct Hok as [(Hf & -> & -> & Hbrk)|I].
    - exists (init_heap h). split_and!; [by apply init_inv|done|].
      unfold malloc, bind, get. rewrite Hf. done.
    - exists h. split_and!; [done..|]. unfold malloc, bind, get.
      destruct (Z.eqb_spec (freep h) 0) as [E|_]; [|done].
      pose proof (hi_freep _ _ _ I) as Hin. rewrite E in Hin.
      apply elem_of_cons in Hin as [E0|(c & E' & Hc)%list_elem_of_fmap]; [lia|].
      pose proof (spaced_bounds _ _ _ _ (hi_spaced _ _ _ I) Hc). unfold HDR in *. lia. }
  destruct (malloc_search h0 fl al (units nbytes) I Hu) as (r & h' & fl' & Hr & Hres).
  exists r, h', fl'. rewrite Hrun. split; [done|]. rewrite <- Hb. naive_solver.
Qed.

(** Claim C28: [free] gives a block back: it always returns, the bytes of the
    block and of the old free list are exactly those of the new one, adjacent
    blocks are joined, and no other allocated block changes. *)
Theorem free_returns h fl al ap n :
  hinv h fl al -> al !! (ap - HDR) = Some n ->
  exists h' fl', free ap h = Ok tt h' /\ hinv h' fl' (delete (ap - HDR) al) /\
    forall x, free_byte fl' x <-> free_byte fl x \/ bytes_of (ap - HDR, n) x.
Proof.
  intros I Ha. destruct (free_run h fl al ap n I Ha) as (h' & fl' & Hr & I' & _ & _ & Hx & _). eauto.
Qed.

End Heap.

(** ** A process that may grow to one megabyte *)

Definition ex_base : Z := 8192.
Definition ex_start : Z := 16384.
Definition ex_limit : Z := 2 ^ 20.
Definition ex_grows (old n : Z) : bool := old + n <=? ex_limit.
Definition ex_heap : heap := {| hptr := ∅; hsize := ∅; freep := 0; brk := ex_start |}.

Lemma malloc_allocates_witness :
  exists r h' fl', malloc ex_base ex_grows 100 ex_heap = Ok r h' /\
    ((r = 0 /\ hinv ex_base ex_limit ex_start h' fl' ∅ /\
      (forall b, b ∈ @nil (Z * Z) -> b.2 < units 100) /\
      ex_grows (brk ex_heap) (HDR * chunk (units 100)) = false) \/
     (hinv ex_base ex_limit ex_start h' fl' (<[r - HDR := units 100]> ∅) /\ (∅ : gmap Z Z) !! (r - HDR) = None /\
      ex_start + HDR <= r /\ 100 <= HDR * (units 100 - 1))).
Proof.
  apply (malloc_allocates ex_base ex_limit ex_start); try done.
  - intros old n. apply Z.leb_le.
  - left. done.
Defined.

(** A heap whose only block, of two units, is in use. *)
Definition ex_used : heap :=
  {| hptr := {[ex_base := ex_base]}; hsize := <[ex_base := 0]> {[ex_start := 2]};
     freep := ex_base; brk := ex_start + HDR * 2 |}.

Lemma ex_used_inv : hinv ex_base ex_limit ex_start ex_used [] {[ex_start := 2]}.
Proof.
  split; cbn; try done.
  - left.
  - intros a n [<- <-]%lookup_singleton_Some. done.
  - intros a n b m x [<- <-]%lookup_singleton_Some [<- <-]%lookup_singleton_Some. done.
  - intros x (b & Hb%not_elem_of_nil & _). done.
Qed.

Lemma free_returns_witness :
  exists h' fl', free (ex_start + HDR) ex_used = Ok tt h' /\
    hinv ex_base ex_limit ex_start h' fl' (delete (ex_start + HDR - HDR) {[ex_start := 2]}) /\
    forall x, free_byte fl' x <-> free_byte [] x \/ bytes_of (ex_start + HDR - HDR, 2) x.
Proof.
  by apply (free_returns ex_base ex_limit ex_start); [..|apply ex_used_inv|].
Defined.

(** The bound on [nbytes] is the exact one: with its header, a block of 2^31 - 31
    bytes has 2^31, which does not fit the [int] of [sbrk], which takes it as a negative
    number and returns the end of the memory without growing it; [malloc] then
    hands out a block the process does not have. *)
Lemma malloc_huge :
  match malloc ex_base ex_grows (2 ^ 31 - 31) ex_heap with
  | Ok r h => r = ex_start + HDR /\ brk h = ex_start
  | Stop _ => False
  end.
Proof. vm_compute. done. Qed.

End Umalloc.
