(* ===== verification/Virtio.v ===== *)
(** * The disk driver: [kernel/virtio_disk.c]

    The descriptors, the two rings the driver shares with the device, and the
    driver's bookkeeping.  [virtio_disk_rw] is cut where it lets go of
    [vdisk_lock] and where the device can see what it wrote; the interrupt
    handler is cut between the requests it completes.  The device is the
    interface [BlkDevice], with what the virtio specification says of it as
    its law [dev_law]. *)

From stdpp Require Import functions.
From S2P Require Import Prelude.

Module Virtio.

Definition NUM : nat := 8.
Definition BSIZE : Z := 1024.
Definition VRING_DESC_F_NEXT : Z := 1.
Definition VRING_DESC_F_WRITE : Z := 2.
Definition VIRTIO_BLK_T_IN : Z := 0.
Definition VIRTIO_BLK_T_OUT : Z := 1.

(** The addresses the driver hands to the device: nothing, [&disk.ops[i]],
    [b->data] and [&disk.info[i].status]. *)
Inductive vaddr : Type :=
| ANull
| AOps (i : nat)
| AData (b : nat)
| AStatus (i : nat).

Record virtq_desc : Type := { addr : vaddr; len : Z; flags : Z; vnext : nat }.
Record virtio_blk_req : Type := { type : Z; reserved : Z; sector : Z }.
Record vinfo : Type := { ibuf : option nat; status : Z }.

(** The part of [struct buf] the driver and the device use. *)
Record vbuf : Type := { b_blockno : Z; b_disk : Z; b_data : list Z }.

(** Where a call [virtio_disk_rw(b, write)] stands: it looks for descriptors
    or sleeps until some are freed, it has written its request and holds the
    lock, or it waits for its buffer; the numbers are [idx[0..2]]. *)
Inductive place : Type :=
| Allocating (write asleep : bool)
| Publishing (write : bool) (i0 i1 i2 : nat)
| Waiting (write : bool) (i0 i1 i2 : nat) (asleep : bool).

(** Who has [vdisk_lock] between two steps. *)
Inductive holder : Type :=
| ByCall (b : nat)
| ByIntr.

(** What goes between the driver and the device besides the rings: whether the
    queue was notified since the device last found it empty, the register
    [VIRTIO_MMIO_INTERRUPT_STATUS], and an interrupt raised and not yet taken. *)
Record signals : Type := {
  queue_notify : bool;
  interrupt_status : Z;
  irq : bool;
}.

(** [struct disk] with the pages it points to, the buffers, the calls in
    progress by their buffer, and the signals.  [dev_idx] is [disk.used->idx]. *)
Record disk : Type := {
  desc : list virtq_desc;
  avail : list nat;
  avail_idx : Z;
  used : list nat;
  dev_idx : Z;
  free : list bool;
  used_idx : Z;
  info : list vinfo;
  ops : list virtio_blk_req;
  bufs : nat -> vbuf;
  places : gmap nat place;
  vdisk_lock : option holder;
  wires : signals;
}.

Definition set_desc (v : list virtq_desc) (d : disk) : disk :=
  {| desc := v; avail := avail d; avail_idx := avail_idx d; used := used d; dev_idx := dev_idx d;
     free := free d; used_idx := used_idx d; info := info d; ops := ops d; bufs := bufs d;
     places := places d; vdisk_lock := vdisk_lock d; wires := wires d |}.
Definition set_avail (v : list nat) (d : disk) : disk :=
  {| desc := desc d; avail := v; avail_idx := avail_idx d; used := used d; dev_idx := dev_idx d;
     free := free d; used_idx := used_idx d; info := info d; ops := ops d; bufs := bufs d;
     places := places d; vdisk_lock := vdisk_lock d; wires := wires d |}.
Definition set_avail_idx (v : Z) (d : disk) : disk :=
  {| desc := desc d; avail := avail d; avail_idx := v; used := used d; dev_idx := dev_idx d;
     free := free d; used_idx := used_idx d; info := info d; ops := ops d; bufs := bufs d;
     places := places d; vdisk_lock := vdisk_lock d; wires := wires d |}.
Definition set_used (v : list nat) (d : disk) : disk :=
  {| desc := desc d; avail := avail d; avail_idx := avail_idx d; used := v; dev_idx := dev_idx d;
     free := free d; used_idx := used_idx d; info := info d; ops := ops d; bufs := bufs d;
     places := places d; vdisk_lock := vdisk_lock d; wires := wires d |}.
Definition set_dev_idx (v : Z) (d : disk) : disk :=
  {| desc := desc d; avail := avail d; avail_idx := avail_idx d; used := used d; dev_idx := v;
     free := free d; used_idx := used_idx d; info := info d; ops := ops d; bufs := bufs d;
     places := places d; vdisk_lock := vdisk_lock d; wires := wires d |}.
Definition set_free (v : list bool) (d : disk) : disk :=
  {| desc := desc d; avail := avail d; avail_idx := avail_idx d; used := used d;
     dev_idx := dev_idx d; free := v; used_idx := used_idx d; info := info d; ops := ops d;
     bufs := bufs d; places := places d; vdisk_lock := vdisk_lock d; wires := wires d |}.
Definition set_used_idx (v : Z) (d : disk) : disk :=
  {| desc := desc d; avail := avail d; avail_idx := avail_idx d; used := used d;
     dev_idx := dev_idx d; free := free d; used_idx := v; info := info d; ops := ops d;
     bufs := bufs d; places := places d; vdisk_lock := vdisk_lock d; wires := wires d |}.
Definition set_info (v : list vinfo) (d : disk) : disk :=
  {| desc := desc d; avail := avail d; avail_idx := avail_idx d; used := used d;
     dev_idx := dev_idx d; free := free d; used_idx := used_idx d; info := v; ops := ops d;
     bufs := bufs d; places := places d; vdisk_lock := vdisk_lock d; wires := wires d |}.
Definition set_ops (v : list virtio_blk_req) (d : disk) : disk :=
  {| desc := desc d; avail := avail d; avail_idx := avail_idx d; used := used d;
     dev_idx := dev_idx d; free := free d; used_idx := used_idx d; info := info d; ops := v;
     bufs := bufs d; places := places d; vdisk_lock := vdisk_lock d; wires := wires d |}.
Definition set_bufs (v : nat -> vbuf) (d : disk) : disk :=
  {| desc := desc d; avail := avail d; avail_idx := avail_idx d; used := used d;
     dev_idx := dev_idx d; free := free d; used_idx := used_idx d; info := info d; ops := ops d;
     bufs := v; places := places d; vdisk_lock := vdisk_lock d; wires := wires d |}.
Definition set_places (v : gmap nat place) (d : disk) : disk :=
  {| desc := desc d; avail := avail d; avail_idx := avail_idx d; used := used d;
     dev_idx := dev_idx d; free := free d; used_idx := used_idx d; info := info d; ops := ops d;
     bufs := bufs d; places := v; vdisk_lock := vdisk_lock d; wires := wires d |}.
Definition set_vdisk_lock (v : option holder) (d : disk) : disk :=
  {| desc := desc d; avail := avail d; avail_idx := avail_idx d; used := used d;
     dev_idx := dev_idx d; free := free d; used_idx := used_idx d; info := info d; ops := ops d;
     bufs := bufs d; places := places d; vdisk_lock := v; wires := wires d |}.

Definition set_wires (v : signals) (d : disk) : disk :=
  {| desc := desc d; avail := avail d; avail_idx := avail_idx d; used := used d;
     dev_idx := dev_idx d; free := free d; used_idx := used_idx d; info := info d; ops := ops d;
     bufs := bufs d; places := places d; vdisk_lock := vdisk_lock d; wires := v |}.

(** A write to [VIRTIO_MMIO_QUEUE_NOTIFY], and the device back to sleep. *)
Definition notify (d : disk) : disk :=
  set_wires {| queue_notify := true; interrupt_status := interrupt_status (wires d); irq := irq (wires d) |} d.
Definition unnotify (d : disk) : disk :=
  set_wires {| queue_notify := false; interrupt_status := interrupt_status (wires d); irq := irq (wires d) |} d.
(** A write to [VIRTIO_MMIO_INTERRUPT_ACK] clears the bits it names. *)
Definition interrupt_ack (v : Z) (d : disk) : disk :=
  set_wires {| queue_notify := queue_notify (wires d);
               interrupt_status := Z.land (interrupt_status (wires d)) (Z.lnot v); irq := irq (wires d) |} d.
(** The device has used a buffer: it sets its bit, and raises an interrupt
    unless one has not been acknowledged yet. *)
Definition raise_irq (d : disk) : disk :=
  set_wires {| queue_notify := queue_notify (wires d);
               interrupt_status := Z.lor (interrupt_status (wires d)) 1;
               irq := irq (wires d) || (interrupt_status (wires d) =? 0) |} d.
(** A processor takes the interrupt. *)
Definition take_irq (d : disk) : disk :=
  set_wires {| queue_notify := queue_notify (wires d); interrupt_status := interrupt_status (wires d);
               irq := false |} d.

Definition get_desc (d : disk) (i : nat) : virtq_desc :=
  default {| addr := ANull; len := 0; flags := 0; vnext := 0 |} (desc d !! i).
Definition upd_desc (i : nat) (v : virtq_desc) : M disk unit :=
  modify (fun d => set_desc (<[i := v]> (desc d)) d).
Definition upd_buf (b : nat) (f : vbuf -> vbuf) : M disk unit :=
  modify (fun d => set_bufs (<[b := f (bufs d b)]> (bufs d)) d).
Definition with_disk (v : Z) (b : vbuf) : vbuf :=
  {| b_blockno := b_blockno b; b_disk := v; b_data := b_data b |}.
Definition with_data (v : list Z) (b : vbuf) : vbuf :=
  {| b_blockno := b_blockno b; b_disk := b_disk b; b_data := v |}.

(** [wakeup(&disk.free[0])] and [wakeup(b)]. *)
Definition woken_free (p : place) : place :=
  match p with Allocating w _ => Allocating w false | _ => p end.
Definition woken_buf (p : place) : place :=
  match p with Waiting w i0 i1 i2 _ => Waiting w i0 i1 i2 false | _ => p end.
Definition wakeup_free : M disk unit := modify (fun d => set_places (woken_free <$> places d) d).
Definition wakeup_buf (b : nat) : M disk unit :=
  modify (fun d => set_places (alter woken_buf b (places d)) d).

(** The index of the first free descriptor. *)
Fixpoint find_free (i : nat) (l : list bool) : option nat :=
  match l with
  | [] => None
  | true :: _ => Some i
  | false :: l => find_free (S i) l
  end.

Definition alloc_desc : M disk (option nat) :=
  d <- get ;;
  match find_free 0 (free d) with
  | Some i => modify (set_free (<[i := false]> (free d))) ;; ret (Some i)
  | None => ret None
  end.

Definition free_desc (i : nat) : M disk unit :=
  d <- get ;;
  match free d !! i with
  | None => panic "free_desc 1"
  | Some true => panic "free_desc 2"
  | Some false =>
      upd_desc i {| addr := ANull; len := 0; flags := 0; vnext := 0 |} ;;
      modify (fun d => set_free (<[i := true]> (free d)) d) ;;
      wakeup_free
  end.

(** Every round frees a descriptor that was not free. *)
Fixpoint free_chain_loop (fuel i : nat) : M disk unit :=
  match fuel with
  | O => halt (SBlock "free_chain: endless chain")
  | S fuel =>
      d <- get ;;
      let flag := flags (get_desc d i) in
      let nxt := vnext (get_desc d i) in
      free_desc i ;;
      if Z.land flag VRING_DESC_F_NEXT =? 0 then ret tt else free_chain_loop fuel nxt
  end.
Definition free_chain (i : nat) : M disk unit := free_chain_loop (S NUM) i.

(** [None] is the result -1: the descriptors found are given back. *)
Fixpoint alloc_loop (n : nat) (idx : list nat) : M disk (option (list nat)) :=
  match n with
  | O => ret (Some idx)
  | S n =>
      o <- alloc_desc ;;
      match o with
      | Some i => alloc_loop n (idx ++ [i])
      | None => foldr (fun j k => free_desc j ;; k) (ret tt) idx ;; ret None
      end
  end.
Definition alloc3_desc : M disk (option (list nat)) := alloc_loop 3 [].

(** ** [virtio_disk_rw] *)

Definition set_info_at (i : nat) (f : vinfo -> vinfo) : M disk unit :=
  modify (fun d => set_info (alter f i (info d)) d).
Definition ring_slot (idx : Z) : nat := Z.to_nat (idx mod Z.of_nat NUM).
Definition set_place (b : nat) (p : place) : M disk unit :=
  modify (fun d => set_places (<[b := p]> (places d)) d).
Definition acquire (h : holder) : M disk unit :=
  o <- gets vdisk_lock ;;
  match o with
  | None => modify (set_vdisk_lock (Some h))
  | Some _ => halt (SBlock "vdisk_lock")
  end.
Definition release : M disk unit := modify (set_vdisk_lock None).

(** The request in the three descriptors, and its place in the ring. *)
Definition rw_format (b : nat) (write : bool) (i0 i1 i2 : nat) : M disk unit :=
  d <- get ;;
  let sec := u32 (b_blockno (bufs d b) * (BSIZE / 512)) in
  modify (set_ops (<[i0 := {| type := if write then VIRTIO_BLK_T_OUT else VIRTIO_BLK_T_IN;
                              reserved := 0; sector := sec |}]> (ops d))) ;;
  upd_desc i0 {| addr := AOps i0; len := 16; flags := VRING_DESC_F_NEXT; vnext := i1 |} ;;
  upd_desc i1 {| addr := AData b; len := BSIZE;
                 flags := Z.lor (if write then 0 else VRING_DESC_F_WRITE) VRING_DESC_F_NEXT; vnext := i2 |} ;;
  set_info_at i0 (fun f => {| ibuf := ibuf f; status := 255 |}) ;;
  upd_desc i2 {| addr := AStatus i0; len := 1; flags := VRING_DESC_F_WRITE; vnext := 0 |} ;;
  upd_buf b (with_disk 1) ;;
  set_info_at i0 (fun f => {| ibuf := Some b; status := status f |}) ;;
  modify (fun d => set_avail (<[ring_slot (avail_idx d) := i0]> (avail d)) d).

(** The call, from its beginning or from a [sleep] for descriptors, until the
    request is written or the call sleeps. *)
Definition rw_alloc (b : nat) (write : bool) : M disk unit :=
  acquire (ByCall b) ;;
  o <- alloc3_desc ;;
  match o with
  | Some [i0; i1; i2] =>
      rw_format b write i0 i1 i2 ;;
      set_place b (Publishing write i0 i1 i2)
  | _ =>
      set_place b (Allocating write true) ;;
      release
  end.

(** The loop that waits for the interrupt handler, and the end of the call. *)
Definition rw_wait (b : nat) (write : bool) (i0 i1 i2 : nat) : M disk unit :=
  d <- get ;;
  if b_disk (bufs d b) =? 1 then
    set_place b (Waiting write i0 i1 i2 true) ;;
    release
  else
    set_info_at i0 (fun f => {| ibuf := None; status := status f |}) ;;
    free_chain i0 ;;
    modify (fun d => set_places (delete b (places d)) d) ;;
    release.

(** The new index makes the request visible to the device, which is told. *)
Definition rw_publish (b : nat) (write : bool) (i0 i1 i2 : nat) : M disk unit :=
  modify (fun d => set_avail_idx (u16 (avail_idx d + 1)) d) ;;
  modify notify ;;
  rw_wait b write i0 i1 i2.

Definition rw_resume (b : nat) (write : bool) (i0 i1 i2 : nat) : M disk unit :=
  acquire (ByCall b) ;;
  rw_wait b write i0 i1 i2.

(** ** [virtio_disk_intr] *)

(** The lock, and the acknowledgement. *)
Definition intr_enter : M disk unit :=
  acquire ByIntr ;;
  st <- gets (fun d => interrupt_status (wires d)) ;;
  modify (interrupt_ack (Z.land st 3)).

(** One round of its loop. *)
Definition intr_loop : M disk unit :=
  d <- get ;;
  if used_idx d =? dev_idx d then release
  else
    let id := default O (used d !! ring_slot (used_idx d)) in
    match info d !! id with
    | None => halt (SFault "virtio_disk_intr: id")
    | Some f =>
        if negb (status f =? 0) then panic "virtio_disk_intr status"
        else
          match ibuf f with
          | None => halt (SFault "virtio_disk_intr: b")
          | Some b =>
              upd_buf b (with_disk 0) ;;
              wakeup_buf b ;;
              modify (fun d => set_used_idx (u16 (used_idx d + 1)) d)
          end
    end.

(** ** The device *)

(** A request as the device reads it from a chain of three descriptors. *)
Record request : Type := {
  rq_write : bool;
  rq_sector : Z;
  rq_buf : nat;
  rq_len : Z;
  rq_status : nat;
}.

(** A header the device reads, data it reads to write the disk or fills to
    read it, and a status byte it writes. *)
Definition chain (d : disk) (h : nat) : option request :=
  d0 ← desc d !! h;
  d1 ← desc d !! vnext d0;
  d2 ← desc d !! vnext d1;
  match addr d0, addr d1, addr d2 with
  | AOps i, AData b, AStatus j =>
      r ← ops d !! i;
      let write := type r =? VIRTIO_BLK_T_OUT in
      if (len d0 =? 16) && (flags d0 =? VRING_DESC_F_NEXT) &&
         (flags d1 =? (if write then VRING_DESC_F_NEXT else VRING_DESC_F_NEXT + VRING_DESC_F_WRITE)) &&
         (len d2 =? 1) && (flags d2 =? VRING_DESC_F_WRITE) &&
         (write || (type r =? VIRTIO_BLK_T_IN)) && (len d1 mod 512 =? 0) && (j <? length (info d))%nat
      then Some {| rq_write := write; rq_sector := sector r; rq_buf := b; rq_len := len d1; rq_status := j |}
      else None
  | _, _, _ => None
  end.

(** What the device is doing: the index it has read up to in the available
    ring, the requests it has taken, those it has carried out and not yet
    reported, and the sectors of the disk. *)
Record dview : Type := {
  dv_last : Z;
  dv_busy : list nat;
  dv_done : list nat;
  dv_store : Z -> list Z;
}.

Definition read_sectors (st : Z -> list Z) (s n : Z) : list Z := mjoin (st <$> seqZ s n).
Definition write_sectors (st : Z -> list Z) (s n : Z) (l : list Z) (x : Z) : list Z :=
  if (s <=? x) && (x <? s + n) then slice (Z.to_nat (512 * (x - s))) 512 l else st x.

(** What a request that succeeds does to the sectors and to the data; one that
    fails may leave anything in the sectors or the data it is about. *)
Definition carried_out (r : request) (st st' : Z -> list Z) (l l' : list Z) : Prop :=
  let n := rq_len r / 512 in
  if rq_write r then l' = l /\ forall x, st' x = write_sectors st (rq_sector r) n l x
  else l' = read_sectors st (rq_sector r) n ++ drop (Z.to_nat (rq_len r)) l /\ forall x, st' x = st x.
Definition failed (r : request) (st st' : Z -> list Z) (l l' : list Z) : Prop :=
  length l' = length l /\
  (rq_write r = true -> l' = l) /\
  forall x, length (st' x) = 512%nat /\
    (rq_write r = true /\ rq_sector r <= x < rq_sector r + rq_len r / 512 \/ st' x = st x).

(** The transitions the specification allows.  The device may look at the ring
    at any time; it forgets a notification only when it has taken all that is
    there.  Nothing is promised about a chain that is not a request. *)
Inductive dev_spec : dview -> disk -> dview -> disk -> Prop :=
| dev_idle v d : dev_spec v d v d
| dev_fetch v d h :
    dv_last v <> avail_idx d -> avail d !! ring_slot (dv_last v) = Some h ->
    dev_spec v d
      {| dv_last := u16 (dv_last v + 1); dv_busy := dv_busy v ++ [h]; dv_done := dv_done v; dv_store := dv_store v |} d
| dev_transfer v d h pre post r f code st l :
    dv_busy v = pre ++ h :: post -> chain d h = Some r -> info d !! rq_status r = Some f ->
    (code = 0 /\ carried_out r (dv_store v) st (b_data (bufs d (rq_buf r))) l \/
     (code = 1 \/ code = 2) /\ failed r (dv_store v) st (b_data (bufs d (rq_buf r))) l) ->
    dev_spec v d
      {| dv_last := dv_last v; dv_busy := pre ++ post; dv_done := dv_done v ++ [h]; dv_store := st |}
      (set_bufs (<[rq_buf r := with_data l (bufs d (rq_buf r))]> (bufs d))
        (set_info (<[rq_status r := {| ibuf := ibuf f; status := code |}]> (info d)) d))
| dev_report v d h pre post :
    dv_done v = pre ++ h :: post ->
    dev_spec v d
      {| dv_last := dv_last v; dv_busy := dv_busy v; dv_done := pre ++ post; dv_store := dv_store v |}
      (raise_irq (set_dev_idx (u16 (dev_idx d + 1)) (set_used (<[ring_slot (dev_idx d) := h]> (used d)) d)))
| dev_rest v d : dv_last v = avail_idx d -> dev_spec v d v (unnotify d)
| dev_undefined v d h v' d' : h ∈ dv_busy v -> chain d h = None -> dev_spec v d v' d'.

(** A device makes one of several moves; [None] is a move it cannot make. *)
Class BlkDevice (D : Type) : Type := {
  dev_move : nat -> D -> disk -> option (D * disk);
}.

Class BlkDeviceLaws (D : Type) `{BlkDevice D} : Type := {
  dev_view : D -> dview;
  dev_law : forall n x d x' d', dev_move n x d = Some (x', d') -> dev_spec (dev_view x) d (dev_view x') d';
}.

(** ** The driver, the device and the callers together *)

Record machine (D : Type) : Type := { drv : disk; dev : D }.
Arguments drv {D}.
Arguments dev {D}.

Inductive event : Type :=
| ESetBuf (b : nat) (blockno : Z) (data : list Z)
| ECall (b : nat) (write : bool)
| EAlloc (b : nat)
| EPublish (b : nat)
| EResume (b : nat)
| EIntr
| EIntrLoop
| EDevice (n : nat).

Definition blocked {S A} : M S A := halt (SBlock "not enabled").

(** The event at the place of the call for [b]. *)
Definition at_place (b : nat) (f : option place -> M disk unit) : M disk unit :=
  o <- gets (fun d => places d !! b) ;; f o.

(** The handler may also run for no reason: this only adds behaviours. *)
Definition drv_step (e : event) : M disk unit :=
  match e with
  | ESetBuf b n l => at_place b (fun o =>
      match o with
      | None => upd_buf b (fun f => {| b_blockno := n; b_disk := b_disk f; b_data := l |})
      | Some _ => blocked
      end)
  | ECall b w => at_place b (fun o =>
      match o with
      | None =>
          f <- gets (fun d => bufs d b) ;;
          if (0 <=? b_blockno f) && (b_blockno f <? 2 ^ 31) && (Z.of_nat (length (b_data f)) =? BSIZE)
          then set_place b (Allocating w false)
          else blocked
      | Some _ => blocked
      end)
  | EAlloc b => at_place b (fun o => match o with Some (Allocating w false) => rw_alloc b w | _ => blocked end)
  | EPublish b => at_place b (fun o =>
      match o with Some (Publishing w i0 i1 i2) => rw_publish b w i0 i1 i2 | _ => blocked end)
  | EResume b => at_place b (fun o =>
      match o with Some (Waiting w i0 i1 i2 false) => rw_resume b w i0 i1 i2 | _ => blocked end)
  | EIntr => modify take_irq ;; intr_enter
  | EIntrLoop =>
      o <- gets vdisk_lock ;;
      match o with Some ByIntr => intr_loop | _ => blocked end
  | EDevice _ => blocked
  end.

Section Machine.
Context {D : Type} `{BlkDevice D}.

Definition step (e : event) : M (machine D) unit := fun s =>
  match e with
  | EDevice n =>
      match dev_move n (dev s) (drv s) with
      | Some (x, d) => Ok tt {| drv := d; dev := x |}
      | None => Stop (SBlock "not enabled")
      end
  | _ =>
      match drv_step e (drv s) with
      | Ok _ d => Ok tt {| drv := d; dev := dev s |}
      | Stop e => Stop e
      end
  end.
End Machine.

End Virtio.
