(* ===== verification/VirtioInv.v ===== *)
(** * The disk driver implements a disk

    The invariant of the driver of [Virtio] together with its device: which
    descriptors belong to which call, and which requests are in the available
    ring, with the device, or in the used ring.  Every step of the driver, of
    its callers and of the device then is a step of a disk that carries out
    each call at one moment, or says that it failed. *)

From stdpp Require Import functions.
From S2P Require Import Prelude Virtio.

Module VirtioInv.
Import Virtio.

(** ** Rings *)

(** The entries from the index [lo] up to [hi]. *)
Definition queue (ring : list nat) (lo hi : Z) : list nat :=
  (fun k => default O (ring !! ring_slot k)) <$> seqZ lo (u16 (hi - lo)).

Definition index_ok (i : Z) : Prop := 0 <= i < 2 ^ 16.

Lemma u16_index i : index_ok (u16 i).
Proof. by apply Z.mod_pos_bound. Qed.

Lemma slot_eq i : ring_slot i = Z.to_nat (i mod 8).
Proof. done. Qed.

Lemma slot_lt i : (ring_slot i < NUM)%nat.
Proof. rewrite slot_eq. pose proof (Z.mod_pos_bound i 8 ltac:(lia)). unfold NUM. lia. Qed.

Lemma slot_shift i j k : i = j + k * 8 -> ring_slot i = ring_slot j.
Proof. intros ->. by rewrite !slot_eq, Z.mod_add. Qed.

Lemma slot_ne i j : 0 < j - i < 8 -> ring_slot i <> ring_slot j.
Proof.
  intros H E. rewrite !slot_eq in E.
  pose proof (Z.mod_pos_bound i 8 ltac:(lia)). pose proof (Z.mod_pos_bound j 8 ltac:(lia)).
  pose proof (Z.div_mod i 8 ltac:(lia)). pose proof (Z.div_mod j 8 ltac:(lia)).
  assert (i mod 8 = j mod 8) by lia. lia.
Qed.

Lemma queue_nil r i : queue r i i = [].
Proof. unfold queue. by rewrite Z.sub_diag. Qed.

Lemma queue_length r lo hi : Z.of_nat (length (queue r lo hi)) = u16 (hi - lo).
Proof.
  unfold queue. rewrite length_fmap, length_seqZ. pose proof (u16_index (hi - lo)) as []. lia.
Qed.

Lemma queue_push r lo hi x :
  index_ok lo -> index_ok hi -> length r = NUM -> (length (queue r lo hi) < NUM)%nat ->
  queue (<[ring_slot hi := x]> r) lo (u16 (hi + 1)) = queue r lo hi ++ [x].
Proof.
  intros Hlo Hhi Hr Hlen. pose proof (queue_length r lo hi) as Hn. unfold NUM, index_ok in *.
  set (n := u16 (hi - lo)) in *.
  assert (u16 (u16 (hi + 1) - lo) = n + 1) as E.
  { unfold n, u16 in *. rewrite Zminus_mod_idemp_l.
    replace (hi + 1 - lo) with (hi - lo + 1) by lia. rewrite <- Zplus_mod_idemp_l.
    apply Z.mod_small. lia. }
  assert (ring_slot hi = ring_slot (lo + n)) as Es.
  { apply (slot_shift _ _ (2 ^ 13 * ((hi - lo) / 2 ^ 16))). unfold n, u16.
    pose proof (Z.div_mod (hi - lo) (2 ^ 16) ltac:(lia)). lia. }
  unfold queue. rewrite E. fold n. rewrite seqZ_app by lia. rewrite fmap_app. f_equal.
  - apply list_fmap_ext. intros i k Hk. apply lookup_seqZ in Hk as [-> Hi].
    rewrite Es, list_lookup_insert_ne; [done|]. apply not_eq_sym, slot_ne. lia.
  - rewrite seqZ_cons, seqZ_nil by lia. cbn [fmap list_fmap]. rewrite Es, list_lookup_insert_eq; [done|]. rewrite Hr. apply slot_lt.
Qed.

Lemma queue_pop r lo hi :
  index_ok lo -> index_ok hi -> lo <> hi ->
  queue r lo hi = default O (r !! ring_slot lo) :: queue r (u16 (lo + 1)) hi.
Proof.
  intros Hlo Hhi Hne. unfold index_ok in *.
  assert (u16 (hi - u16 (lo + 1)) = u16 (hi - lo) - 1) as E.
  { unfold u16. rewrite Zminus_mod_idemp_r.
    assert (0 < (hi - lo) mod 2 ^ 16) as Hpos.
    { pose proof (Z.mod_pos_bound (hi - lo) (2 ^ 16) ltac:(lia)).
      pose proof (Z.div_mod (hi - lo) (2 ^ 16) ltac:(lia)).
      destruct (decide ((hi - lo) mod 2 ^ 16 = 0)); lia. }
    pose proof (Z.mod_pos_bound (hi - lo) (2 ^ 16) ltac:(lia)).
    replace (hi - (lo + 1)) with (hi - lo - 1) by lia. rewrite <- Zminus_mod_idemp_l.
    apply Z.mod_small. lia. }
  unfold queue. rewrite E. pose proof (u16_index (hi - lo)) as Hi. unfold index_ok in Hi.
  assert (0 < u16 (hi - lo)) as Hpos.
  { pose proof (u16_index (hi - u16 (lo + 1))) as []. lia. }
  rewrite seqZ_cons by done. cbn. f_equal. replace (Z.pred _) with (u16 (hi - lo) - 1) by lia.
  apply list_eq. intros i. rewrite !list_lookup_fmap.
  destruct (decide (Z.of_nat i < u16 (hi - lo) - 1)) as [Hlt|]; [|by rewrite !lookup_seqZ_ge by lia].
  rewrite !lookup_seqZ_lt by done. cbn.
  rewrite (slot_shift (Z.succ lo + Z.of_nat i) (u16 (lo + 1) + Z.of_nat i) (2 ^ 13 * ((lo + 1) / 2 ^ 16))); [done|].
  unfold u16. pose proof (Z.div_mod (lo + 1) (2 ^ 16) ltac:(lia)). lia.
Qed.

(** An entry written at [hi] is not in the queue yet. *)
Lemma queue_set r lo hi x :
  index_ok lo -> index_ok hi -> (length (queue r lo hi) < NUM)%nat ->
  queue (<[ring_slot hi := x]> r) lo hi = queue r lo hi.
Proof.
  intros Hlo Hhi Hlen. pose proof (queue_length r lo hi) as Hn. unfold NUM, index_ok in *.
  apply list_fmap_ext. intros i k Hk. apply lookup_seqZ in Hk as [-> Hi].
  rewrite list_lookup_insert_ne; [done|].
  rewrite (slot_shift hi (lo + u16 (hi - lo)) (2 ^ 13 * ((hi - lo) / 2 ^ 16))).
  - apply not_eq_sym, slot_ne. lia.
  - unfold u16. pose proof (Z.div_mod (hi - lo) (2 ^ 16) ltac:(lia)). lia.
Qed.

(** ** What the driver promises *)

Inductive outcome : Type := Asked | Done | Failed.

(** The blocks of the disk, the buffers, and for every buffer with a call in
    progress whether it writes, and what became of it. *)
Record adisk : Type := {
  a_disk : Z -> list Z;
  a_data : nat -> list Z;
  a_blockno : nat -> Z;
  a_req : nat -> option (bool * outcome);
}.

#[global] Instance adisk_equiv : Equiv adisk := fun a a' =>
  (forall n, a_disk a n = a_disk a' n) /\ (forall b, a_data a b = a_data a' b) /\
  (forall b, a_blockno a b = a_blockno a' b) /\ (forall b, a_req a b = a_req a' b).

#[global] Instance adisk_equivalence : Equivalence (≡@{adisk}).
Proof.
  split.
  - by intros a.
  - intros a a' (H1 & H2 & H3 & H4). split_and!; intros; by rewrite ?H1, ?H2, ?H3, ?H4.
  - intros a a' a'' (H1 & H2 & H3 & H4) (H1' & H2' & H3' & H4').
    split_and!; intros; by rewrite ?H1, ?H2, ?H3, ?H4, ?H1', ?H2', ?H3', ?H4'.
Qed.

(** A call is accepted, carried out at one moment or given up, and returns
    only when it was carried out; between calls the caller owns the buffer. *)
Inductive astep (a a' : adisk) : Prop :=
| a_stutter : a' ≡ a -> astep a a'
| a_fill b n l :
    a_req a b = None ->
    a' ≡ {| a_disk := a_disk a; a_data := <[b := l]> (a_data a);
            a_blockno := <[b := n]> (a_blockno a); a_req := a_req a |} -> astep a a'
| a_call b w :
    a_req a b = None ->
    a' ≡ {| a_disk := a_disk a; a_data := a_data a; a_blockno := a_blockno a;
            a_req := <[b := Some (w, Asked)]> (a_req a) |} -> astep a a'
| a_read b :
    a_req a b = Some (false, Asked) ->
    a' ≡ {| a_disk := a_disk a; a_data := <[b := a_disk a (a_blockno a b)]> (a_data a);
            a_blockno := a_blockno a; a_req := <[b := Some (false, Done)]> (a_req a) |} -> astep a a'
| a_write b :
    a_req a b = Some (true, Asked) ->
    a' ≡ {| a_disk := <[a_blockno a b := a_data a b]> (a_disk a); a_data := a_data a;
            a_blockno := a_blockno a; a_req := <[b := Some (true, Done)]> (a_req a) |} -> astep a a'
| a_fail b w l l' :
    a_req a b = Some (w, Asked) ->
    a' ≡ {| a_disk := if w then <[a_blockno a b := l]> (a_disk a) else a_disk a;
            a_data := if w then a_data a else <[b := l']> (a_data a);
            a_blockno := a_blockno a; a_req := <[b := Some (w, Failed)]> (a_req a) |} -> astep a a'
| a_return b w :
    a_req a b = Some (w, Done) ->
    a' ≡ {| a_disk := a_disk a; a_data := a_data a; a_blockno := a_blockno a;
            a_req := <[b := None]> (a_req a) |} -> astep a a'.

(** The state of the driver and the device as such a disk: the device writes
    the status byte when it has carried the request out. *)
Definition status_at (d : disk) (i : nat) : Z := default 255 (status <$> info d !! i).
Definition outcome_of (st : Z) : outcome := if st =? 255 then Asked else if st =? 0 then Done else Failed.
Definition outcome_at (d : disk) (i : nat) : outcome := outcome_of (status_at d i).

Definition asked (d : disk) (p : place) : bool * outcome :=
  match p with
  | Allocating w _ => (w, Asked)
  | Publishing w i0 _ _ => (w, outcome_at d i0)
  | Waiting w i0 _ _ _ => (w, outcome_at d i0)
  end.

Definition abs (v : dview) (d : disk) : adisk := {|
  a_disk := fun n => dv_store v (2 * n) ++ dv_store v (2 * n + 1);
  a_data := fun b => b_data (bufs d b);
  a_blockno := fun b => b_blockno (bufs d b);
  a_req := fun b => asked d <$> places d !! b;
|}.

(** ** The invariant *)

Definition pidx (p : place) : list nat :=
  match p with
  | Allocating _ _ => []
  | Publishing _ i0 i1 i2 => [i0; i1; i2]
  | Waiting _ i0 i1 i2 _ => [i0; i1; i2]
  end.

Definition owner (d : disk) (b i : nat) : Prop := exists p, places d !! b = Some p /\ i ∈ pidx p.

Fixpoint count_free (l : list bool) : nat :=
  match l with
  | [] => O
  | x :: l => if x : bool then S (count_free l) else count_free l
  end.
Definition nfree (d : disk) : nat := count_free (free d).

(** The request of the call for [b] is in the descriptors, as [rw_format]
    wrote it. *)
Record written (d : disk) (b : nat) (w : bool) (i0 i1 i2 : nat) : Prop := {
  wr_d0 : desc d !! i0 = Some {| addr := AOps i0; len := 16; flags := VRING_DESC_F_NEXT; vnext := i1 |};
  wr_d1 : desc d !! i1 = Some {| addr := AData b; len := BSIZE;
    flags := Z.lor (if w then 0 else VRING_DESC_F_WRITE) VRING_DESC_F_NEXT; vnext := i2 |};
  wr_d2 : desc d !! i2 = Some {| addr := AStatus i0; len := 1; flags := VRING_DESC_F_WRITE; vnext := 0 |};
  wr_op : ops d !! i0 = Some {| type := if w then VIRTIO_BLK_T_OUT else VIRTIO_BLK_T_IN;
    reserved := 0; sector := u32 (b_blockno (bufs d b) * (BSIZE / 512)) |};
  wr_info : ibuf <$> info d !! i0 = Some (Some b);
  wr_taken : forall i, i ∈ [i0; i1; i2] -> free d !! i = Some false;
  wr_nodup : NoDup [i0; i1; i2];
}.

(** The requests the device has not carried out, and those it has. *)
Definition todo (v : dview) (d : disk) : list nat :=
  queue (avail d) (dv_last v) (avail_idx d) ++ dv_busy v.
Definition finished (v : dview) (d : disk) : list nat :=
  dv_done v ++ queue (used d) (used_idx d) (dev_idx d).

Definition waiting_ok (v : dview) (d : disk) (b i0 : nat) (asleep : bool) : Prop :=
  (b_disk (bufs d b) = 1 /\ i0 ∈ todo v d /\ status_at d i0 = 255) \/
  (b_disk (bufs d b) = 1 /\ i0 ∈ finished v d /\ 0 <= status_at d i0 < 3) \/
  (b_disk (bufs d b) = 0 /\ i0 ∉ todo v d ++ finished v d /\ status_at d i0 = 0 /\ asleep = false).

Definition place_ok (v : dview) (d : disk) (b : nat) (p : place) : Prop :=
  match p with
  | Allocating w a => a = true -> (nfree d < 3)%nat
  | Publishing w i0 i1 i2 =>
      written d b w i0 i1 i2 /\ b_disk (bufs d b) = 1 /\ i0 ∉ todo v d ++ finished v d /\
      status_at d i0 = 255 /\ vdisk_lock d = Some (ByCall b) /\
      avail d !! ring_slot (avail_idx d) = Some i0
  | Waiting w i0 i1 i2 a => written d b w i0 i1 i2 /\ waiting_ok v d b i0 a
  end.

Record inv (v : dview) (d : disk) : Prop := {
  iv_desc : length (desc d) = NUM;
  iv_avail : length (avail d) = NUM;
  iv_used : length (used d) = NUM;
  iv_freelen : length (free d) = NUM;
  iv_info : length (info d) = NUM;
  iv_ops : length (ops d) = NUM;
  iv_index : index_ok (dv_last v) /\ index_ok (avail_idx d) /\ index_ok (used_idx d) /\ index_ok (dev_idx d);
  iv_nodup : NoDup (todo v d ++ finished v d);
  iv_heads : forall h, h ∈ todo v d ++ finished v d ->
    exists b w i1 i2 a, places d !! b = Some (Waiting w h i1 i2 a);
  iv_place : forall b p, places d !! b = Some p -> place_ok v d b p;
  iv_one : forall b b' i, owner d b i -> owner d b' i -> b = b';
  iv_free : forall i, free d !! i = Some false -> exists b, owner d b i;
  iv_lock : forall b, vdisk_lock d = Some (ByCall b) ->
    exists w i0 i1 i2, places d !! b = Some (Publishing w i0 i1 i2);
  iv_buf : forall b p, places d !! b = Some p ->
    0 <= b_blockno (bufs d b) < 2 ^ 31 /\ length (b_data (bufs d b)) = 1024%nat;
  iv_store : forall x, length (dv_store v x) = 512%nat;
}.

(** ** What a call depends on *)

(** The part of the state the call for [b] at [p] depends on is the same. *)
Record frame (v : dview) (d : disk) (v' : dview) (d' : disk) (b : nat) (p : place) : Prop := {
  fr_buf : b_blockno (bufs d' b) = b_blockno (bufs d b) /\ b_disk (bufs d' b) = b_disk (bufs d b);
  fr_idx : forall i, i ∈ pidx p -> desc d' !! i = desc d !! i /\ free d' !! i = free d !! i /\
    ops d' !! i = ops d !! i /\ info d' !! i = info d !! i;
  fr_todo : forall i, i ∈ pidx p -> i ∈ todo v' d' <-> i ∈ todo v d;
  fr_finished : forall i, i ∈ pidx p -> i ∈ finished v' d' <-> i ∈ finished v d;
  fr_here : match p with
    | Allocating _ true => (nfree d < 3)%nat -> (nfree d' < 3)%nat
    | Publishing _ _ _ _ => vdisk_lock d' = vdisk_lock d /\
        avail d' !! ring_slot (avail_idx d') = avail d !! ring_slot (avail_idx d)
    | _ => True
    end;
}.

Lemma written_frame d d' b w i0 i1 i2 :
  (forall i, i ∈ [i0; i1; i2] -> desc d' !! i = desc d !! i /\ free d' !! i = free d !! i /\
    ops d' !! i = ops d !! i /\ ibuf <$> info d' !! i = ibuf <$> info d !! i) ->
  b_blockno (bufs d' b) = b_blockno (bufs d b) ->
  written d b w i0 i1 i2 -> written d' b w i0 i1 i2.
Proof.
  intros Hi Hb [H0 H1 H2 Ho Hf Ht Hn].
  destruct (Hi i0) as (E0 & _ & Eo & Ef); [left|].
  destruct (Hi i1) as (E1 & _ & _ & _); [right; left|].
  destruct (Hi i2) as (E2 & _ & _ & _); [right; right; left|].
  split; [by rewrite E0|by rewrite E1|by rewrite E2|by rewrite Eo, Hb|by rewrite Ef| |done].
  intros i Hin. destruct (Hi i Hin) as (_ & -> & _). by apply Ht.
Qed.

Lemma place_frame v d v' d' b p : frame v d v' d' b p -> place_ok v d b p -> place_ok v' d' b p.
Proof.
  intros [[Hb Hd] Hi Ht Hf Hh]. unfold place_ok, waiting_ok, status_at.
  assert (forall i, i ∈ pidx p -> desc d' !! i = desc d !! i /\ free d' !! i = free d !! i /\
    ops d' !! i = ops d !! i /\ ibuf <$> info d' !! i = ibuf <$> info d !! i) as Hw.
  { intros i Hin. destruct (Hi i Hin) as (-> & -> & -> & ->). done. }
  assert (forall i, i ∈ pidx p -> i ∈ todo v' d' ++ finished v' d' <-> i ∈ todo v d ++ finished v d) as Hall.
  { intros i Hin. by rewrite !elem_of_app, Ht, Hf. }
  destruct p as [w a|w i0 i1 i2|w i0 i1 i2 a]; cbn [pidx] in *.
  - destruct a; [|done]. naive_solver.
  - assert (i0 ∈ [i0; i1; i2]) as H0 by left. destruct Hh as [Hl Ha].
    destruct (Hi i0 H0) as (_ & _ & _ & Ei). rewrite Hd, Ei, Hl, Ha, Hall by done.
    intros (H & H'). split; [by apply (written_frame d)|done].
  - assert (i0 ∈ [i0; i1; i2]) as H0 by left.
    destruct (Hi i0 H0) as (_ & _ & _ & Ei). rewrite Hd, Ei, Hall, Ht, Hf by done.
    intros (H & H'). split; [by apply (written_frame d)|done].
Qed.

Lemma nodup_length (l : list nat) : NoDup l -> (forall y, y ∈ l -> (y < NUM)%nat) -> (length l <= NUM)%nat.
Proof.
  intros Hn Hl. assert (l ⊆+ seq 0 NUM) as Hs%submseteq_length; [|by rewrite length_seq in Hs].
  apply NoDup_submseteq; [done|]. intros y Hy%Hl. apply elem_of_seq. lia.
Qed.

Section facts.
Context (v : dview) (d : disk) (I : inv v d).

Lemma place_written b p i :
  places d !! b = Some p -> i ∈ pidx p -> exists w i0 i1 i2, pidx p = [i0; i1; i2] /\ written d b w i0 i1 i2.
Proof.
  intros Hp Hi. pose proof (iv_place _ _ I _ _ Hp) as Hok.
  destruct p as [w a|w i0 i1 i2|w i0 i1 i2 a]; cbn in *.
  - by apply not_elem_of_nil in Hi.
  - destruct Hok as [Hok _]. eauto 10.
  - destruct Hok as [Hok _]. eauto 10.
Qed.

Lemma owner_taken b i : owner d b i -> free d !! i = Some false.
Proof.
  intros (p & Hp & Hi). destruct (place_written b p i Hp Hi) as (w & i0 & i1 & i2 & E & Hw).
  apply (wr_taken _ _ _ _ _ _ Hw). by rewrite <- E.
Qed.

Lemma owner_lt b i : owner d b i -> (i < NUM)%nat.
Proof. intros Ho%owner_taken. apply lookup_lt_Some in Ho. by rewrite (iv_freelen _ _ I) in Ho. Qed.

Lemma head_owner h : h ∈ todo v d ++ finished v d -> exists b, owner d b h.
Proof.
  intros (b & w & i1 & i2 & a & Hp)%(iv_heads _ _ I). exists b, (Waiting w h i1 i2 a). split; [done|left].
Qed.

Lemma head_lt h : h ∈ todo v d ++ finished v d -> (h < NUM)%nat.
Proof. intros [b Hb]%head_owner. by eapply owner_lt. Qed.

Lemma flight_length : (length (todo v d ++ finished v d) <= NUM)%nat.
Proof. apply nodup_length; [apply I|apply head_lt]. Qed.

(** There is room in the rings for a request that is not in them. *)
Lemma flight_room x :
  (x < NUM)%nat -> x ∉ todo v d ++ finished v d -> (length (todo v d ++ finished v d) < NUM)%nat.
Proof.
  intros Hx Hn. apply (nodup_length (x :: _)); [constructor; [done|apply I]|].
  intros y [->|Hy]%elem_of_cons; [done|by apply head_lt].
Qed.
End facts.

Lemma same_owner d d' b i :
  pidx <$> places d' !! b = pidx <$> places d !! b -> owner d' b i <-> owner d b i.
Proof.
  unfold owner. destruct (places d' !! b) as [p'|], (places d !! b) as [p|]; cbn; intros E; try done.
  injection E as E. split; intros (q & [= <-] & Hi); eexists; (split; [done|]); congruence.
Qed.

(** A step that keeps the descriptors, and leaves the calls where they are or
    moves one that keeps its descriptors. *)
Lemma keep_inv v d v' d' :
  inv v d -> length (desc d') = NUM -> length (avail d') = NUM -> length (used d') = NUM ->
  free d' = free d -> length (info d') = NUM -> length (ops d') = NUM ->
  (index_ok (dv_last v') /\ index_ok (avail_idx d') /\ index_ok (used_idx d') /\ index_ok (dev_idx d')) ->
  NoDup (todo v' d' ++ finished v' d') ->
  (forall h, h ∈ todo v' d' ++ finished v' d' -> exists b w i1 i2 a, places d' !! b = Some (Waiting w h i1 i2 a)) ->
  (forall b, pidx <$> places d' !! b = pidx <$> places d !! b \/ places d !! b = None /\ pidx <$> places d' !! b = Some []) ->
  (forall b p, places d' !! b = Some p -> place_ok v' d' b p) ->
  (forall b, vdisk_lock d' = Some (ByCall b) -> exists w i0 i1 i2, places d' !! b = Some (Publishing w i0 i1 i2)) ->
  (forall b p, places d' !! b = Some p ->
    0 <= b_blockno (bufs d' b) < 2 ^ 31 /\ length (b_data (bufs d' b)) = 1024%nat) ->
  (forall x, length (dv_store v' x) = 512%nat) -> inv v' d'.
Proof.
  intros I H1 H2 H3 H4 H5 H6 H7 H8 H9 H10 H11 H12 H13 H14.
  assert (forall b i, owner d' b i <-> owner d b i) as Ho.
  { intros b i. destruct (H10 b) as [E|[E E']]; [by apply same_owner|].
    unfold owner. rewrite E. split; [|naive_solver]. intros (p & Hp & Hi). rewrite Hp in E'.
    cbn in E'. injection E' as E'. rewrite E' in Hi. by apply not_elem_of_nil in Hi. }
  split; try done.
  - rewrite H4. apply I.
  - intros b b' i. rewrite !Ho. apply I.
  - intros i. rewrite H4. intros [b Hb]%(iv_free _ _ I). exists b. by apply Ho.
Qed.

(** ** The callers *)

Lemma fill_inv v d b f :
  inv v d -> places d !! b = None -> inv v (set_bufs (<[b := f]> (bufs d)) d).
Proof.
  intros I Hb.
  assert (forall b' p, places d !! b' = Some p -> (<[b := f]> (bufs d)) b' = bufs d b') as E.
  { intros b' p Hp. apply fn_lookup_insert_ne. congruence. }
  apply (keep_inv v d); try apply I; try done.
  - intros b'. by left.
  - intros b' p Hp. apply (place_frame v d); [|by apply I].
    split; cbn; try done; [by rewrite (E b' p)|by destruct p as [? []| |]].
  - intros b' p Hp. cbn. rewrite (E b' p Hp). by apply (iv_buf _ _ I _ p).
Qed.

Lemma call_inv v d b w :
  inv v d -> places d !! b = None ->
  0 <= b_blockno (bufs d b) < 2 ^ 31 -> length (b_data (bufs d b)) = 1024%nat ->
  inv v (set_places (<[b := Allocating w false]> (places d)) d).
Proof.
  intros I Hb Hn Hl. apply (keep_inv v d); try apply I; try done.
  - intros h Hh. destruct (iv_heads _ _ I h Hh) as (b' & Hb'). exists b'. cbn.
    rewrite lookup_insert_ne; [done|]. intros <-. naive_solver.
  - intros b'. cbn. destruct (decide (b' = b)) as [->|].
    + right. by rewrite lookup_insert_eq.
    + left. by rewrite lookup_insert_ne.
  - intros b' p. cbn. intros [[<- <-]|[_ Hp]]%lookup_insert_Some; [done|].
    apply (place_frame v d); [|by apply I]. by split; cbn; try done; destruct p as [? []| |].
  - intros b' Hl'. destruct (iv_lock _ _ I b' Hl') as (w' & i0 & i1 & i2 & Hp).
    exists w', i0, i1, i2. cbn. rewrite lookup_insert_ne; [done|]. congruence.
  - intros b' p. cbn. intros [[<- <-]|[_ Hp]]%lookup_insert_Some; [done|]. by apply (iv_buf _ _ I _ p).
Qed.

(** ** Descriptors *)

Lemma disk_eq d d' :
  desc d = desc d' -> avail d = avail d' -> avail_idx d = avail_idx d' -> used d = used d' ->
  dev_idx d = dev_idx d' -> free d = free d' -> used_idx d = used_idx d' -> info d = info d' ->
  ops d = ops d' -> bufs d = bufs d' -> places d = places d' -> vdisk_lock d = vdisk_lock d' ->
  wires d = wires d' -> d = d'.
Proof. destruct d, d'. cbn. by intros -> -> -> -> -> -> -> -> -> -> -> -> ->. Qed.

Lemma elem_of_three (i i0 i1 i2 : nat) : i ∈ [i0; i1; i2] <-> i = i0 \/ i = i1 \/ i = i2.
Proof. rewrite !elem_of_cons, elem_of_nil. naive_solver. Qed.

Lemma three_nodup (i0 i1 i2 : nat) : NoDup [i0; i1; i2] <-> i0 <> i1 /\ i0 <> i2 /\ i1 <> i2.
Proof. rewrite !NoDup_cons, !elem_of_cons, !elem_of_nil. pose proof (@NoDup_nil_2 nat). naive_solver. Qed.

Lemma find_free_Some k l i : find_free k l = Some i -> (k <= i)%nat /\ l !! (i - k)%nat = Some true.
Proof.
  revert k. induction l as [|[] l IH]; intros k; cbn; [done|..].
  - intros [= ->]. by rewrite Nat.sub_diag.
  - intros [H1 H2]%IH. split; [lia|]. by replace (i - k)%nat with (S (i - S k)) by lia.
Qed.

Lemma find_free_None k l : find_free k l = None -> count_free l = O.
Proof. revert k. induction l as [|[] l IH]; intros k; cbn; [done..|]. apply IH. Qed.

Lemma count_free_insert l i :
  l !! i = Some true -> count_free l = S (count_free (<[i := false]> l)).
Proof.
  revert i. induction l as [|[] l IH]; intros [|i]; cbn; try done.
  - intros H. f_equal. by apply IH.
  - intros H. by apply IH.
Qed.

Lemma count_free_le l i : (count_free (<[i := false]> l) <= count_free l)%nat.
Proof.
  revert i. induction l as [|[] l IH]; intros [|i]; cbn; try lia; [apply le_n_S|]; apply IH.
Qed.

Lemma alloc_desc_run d :
  (exists i, free d !! i = Some true /\ alloc_desc d = Ok (Some i) (set_free (<[i := false]> (free d)) d)) \/
  (nfree d = O /\ alloc_desc d = Ok None d).
Proof.
  unfold alloc_desc, bind, get. destruct (find_free 0 (free d)) as [i|] eqn:E.
  - left. exists i. apply find_free_Some in E as [_ E]. by rewrite Nat.sub_0_r in E.
  - right. by apply find_free_None in E.
Qed.

Definition no_desc : virtq_desc := {| addr := ANull; len := 0; flags := 0; vnext := 0 |}.

Lemma free_desc_run d i :
  free d !! i = Some false ->
  free_desc i d = Ok tt (set_places (woken_free <$> places d)
    (set_free (<[i := true]> (free d)) (set_desc (<[i := no_desc]> (desc d)) d))).
Proof. intros H. unfold free_desc, bind, get. by rewrite H. Qed.

(** [alloc3_desc] that found too few descriptors has given them back. *)
Definition restored (d d' : disk) : Prop :=
  exists ds pl, d' = set_places pl (set_desc ds d) /\ length ds = length (desc d) /\
    (forall i, free d !! i <> Some true -> ds !! i = desc d !! i) /\
    (pl = places d \/ pl = woken_free <$> places d).

Lemma woken_twice pl : woken_free <$> (woken_free <$> pl) = woken_free <$> (pl : gmap nat place).
Proof.
  rewrite <- map_fmap_compose. apply map_fmap_ext. intros b p _. by destruct p.
Qed.

Lemma give_back_one d i :
  free d !! i = Some true ->
  exists d', free_desc i (set_free (<[i := false]> (free d)) d) = Ok tt d' /\ restored d d'.
Proof.
  intros Hi. pose proof (lookup_lt_Some _ _ _ Hi) as Hlt.
  eexists. split; [apply free_desc_run; by apply list_lookup_insert_eq|].
  exists (<[i := no_desc]> (desc d)), (woken_free <$> places d). split_and!.
  - apply disk_eq; try reflexivity; cbn. by rewrite list_insert_insert_eq, list_insert_id.
  - apply length_insert.
  - intros j Hj. apply list_lookup_insert_ne. congruence.
  - by right.
Qed.

Lemma give_back_two d i j :
  free d !! i = Some true -> free d !! j = Some true -> i <> j ->
  exists d', (free_desc i ;; free_desc j ;; ret tt)
    (set_free (<[j := false]> (<[i := false]> (free d))) d) = Ok tt d' /\ restored d d'.
Proof.
  intros Hi Hj Hne. pose proof (lookup_lt_Some _ _ _ Hi) as Hlt. pose proof (lookup_lt_Some _ _ _ Hj) as Hlt'.
  eexists. split.
  { erewrite bind_ok; [|apply free_desc_run; cbn; rewrite list_lookup_insert_ne by done; by apply list_lookup_insert_eq].
    erewrite bind_ok; [|apply free_desc_run; cbn; rewrite list_lookup_insert_ne by done;
      apply list_lookup_insert_eq; by rewrite length_insert]. done. }
  exists (<[j := no_desc]> (<[i := no_desc]> (desc d))), (woken_free <$> places d). split_and!.
  - apply disk_eq; try reflexivity; cbn; [|apply woken_twice].
    rewrite (list_insert_insert_ne _ i j), !list_insert_insert_eq by done.
    by rewrite (list_insert_id _ i), list_insert_id.
  - by rewrite !length_insert.
  - intros k Hk. rewrite !list_lookup_insert_ne by congruence. done.
  - by right.
Qed.

Lemma alloc3_run d :
  (exists i0 i1 i2, NoDup [i0; i1; i2] /\ (forall i, i ∈ [i0; i1; i2] -> free d !! i = Some true) /\
    alloc3_desc d = Ok (Some [i0; i1; i2])
      (set_free (<[i2 := false]> (<[i1 := false]> (<[i0 := false]> (free d)))) d)) \/
  ((nfree d < 3)%nat /\ exists d', alloc3_desc d = Ok None d' /\ restored d d').
Proof.
  unfold alloc3_desc. cbn [alloc_loop app].
  destruct (alloc_desc_run d) as [(i0 & H0 & R0)|[Hn R0]].
  2: { right. split; [lia|]. exists d. rewrite (bind_ok _ _ _ _ _ R0). split; [done|].
       exists (desc d), (places d). split_and!; [by destruct d|done|done|by left]. }
  rewrite (bind_ok _ _ _ _ _ R0). set (d1 := set_free _ d) in *.
  assert (nfree d = S (nfree d1)) as E1 by by apply count_free_insert.
  destruct (alloc_desc_run d1) as [(i1 & H1 & R1)|[Hn R1]].
  2: { right. split; [lia|]. rewrite (bind_ok _ _ _ _ _ R1).
       destruct (give_back_one d i0 H0) as (d' & Hr & Hd). exists d'. split; [|done].
       cbn [foldr]. unfold bind. fold d1 in Hr. by rewrite Hr. }
  rewrite (bind_ok _ _ _ _ _ R1). set (d2 := set_free _ d1) in *.
  assert (nfree d1 = S (nfree d2)) as E2 by by apply count_free_insert.
  assert (i0 <> i1) as Hne.
  { intros <-. cbn in H1. rewrite list_lookup_insert_eq in H1; [done|]. by eapply lookup_lt_Some. }
  cbn in H1. rewrite list_lookup_insert_ne in H1 by done.
  destruct (alloc_desc_run d2) as [(i2 & H2 & R2)|[Hn R2]].
  2: { right. split; [lia|]. rewrite (bind_ok _ _ _ _ _ R2).
       destruct (give_back_two d i0 i1 H0 H1 Hne) as (d' & Hr & Hd). exists d'. split; [|done].
       change d2 with (set_free (<[i1 := false]> (<[i0 := false]> (free d))) d). cbn [foldr].
       by rewrite (bind_ok _ _ _ _ _ Hr). }
  left. rewrite (bind_ok _ _ _ _ _ R2). exists i0, i1, i2.
  assert (i1 <> i2 /\ i0 <> i2) as [Hne1 Hne2].
  { cbn in H2. pose proof (lookup_lt_Some _ _ _ H0). pose proof (lookup_lt_Some _ _ _ H1). split; intros <-.
    - rewrite list_lookup_insert_eq in H2; [done|]. by rewrite length_insert.
    - rewrite list_lookup_insert_ne, list_lookup_insert_eq in H2 by done. done. }
  cbn in H2. rewrite !list_lookup_insert_ne in H2 by done. split_and!; [by apply three_nodup| |done].
  by intros i [->|[->| ->]]%elem_of_three.
Qed.

(** ** Looking for descriptors *)

Lemma pidx_woken p : pidx (woken_free p) = pidx p.
Proof. by destruct p. Qed.

Lemma place_woken v d b p : place_ok v d b p -> place_ok v d b (woken_free p).
Proof. by destruct p. Qed.

Lemma woken_Waiting p w i0 i1 i2 a : woken_free p = Waiting w i0 i1 i2 a <-> p = Waiting w i0 i1 i2 a.
Proof. by destruct p. Qed.

(** Calls that were left alone or woken. *)
Definition maybe_woken (pl pl' : gmap nat place) : Prop := pl' = pl \/ pl' = woken_free <$> pl.

Lemma maybe_woken_lookup pl pl' b p' :
  maybe_woken pl pl' -> pl' !! b = Some p' -> exists p, pl !! b = Some p /\ (p' = p \/ p' = woken_free p).
Proof.
  intros [->| ->]; [by eauto|]. rewrite lookup_fmap. intros (p & -> & ->)%fmap_Some. eauto.
Qed.

Lemma maybe_woken_pidx pl pl' b : maybe_woken pl pl' -> pidx <$> pl' !! b = pidx <$> pl !! b.
Proof.
  intros [->| ->]; [done|]. rewrite lookup_fmap. destruct (pl !! b); cbn; [|done]. by rewrite pidx_woken.
Qed.

Lemma maybe_woken_keeps pl pl' b w i0 i1 i2 :
  maybe_woken pl pl' ->
  (forall a, pl !! b = Some (Waiting w i0 i1 i2 a) -> pl' !! b = Some (Waiting w i0 i1 i2 a)) /\
  (pl !! b = Some (Publishing w i0 i1 i2) -> pl' !! b = Some (Publishing w i0 i1 i2)).
Proof. intros [->| ->]; [done|]. rewrite lookup_fmap. split; [intros a ->|intros ->]; done. Qed.

Lemma sleep_alloc_inv v d b w ds pl :
  inv v d -> places d !! b = Some (Allocating w false) -> length ds = length (desc d) ->
  (forall i, free d !! i <> Some true -> ds !! i = desc d !! i) -> maybe_woken (places d) pl ->
  (nfree d < 3)%nat -> inv v (set_places (<[b := Allocating w true]> pl) (set_desc ds d)).
Proof.
  intros I Hb Hlen Hds Hpl Hn.
  assert (forall b' p', b' <> b -> pl !! b' = Some p' -> place_ok v (set_places (<[b := Allocating w true]> pl) (set_desc ds d)) b' p') as Hok.
  { intros b' p' Hne Hp'. destruct (maybe_woken_lookup _ _ _ _ Hpl Hp') as (p & Hp & Hpp).
    assert (place_ok v (set_places (<[b := Allocating w true]> pl) (set_desc ds d)) b' p).
    { apply (place_frame v d); [|by apply I]. split; try done.
      - intros i Hi. cbn. rewrite Hds; [done|]. rewrite (owner_taken v d I b' i); [done|by exists p].
      - by destruct p as [? []| |]. }
    destruct Hpp as [->| ->]; [done|by apply place_woken]. }
  apply (keep_inv v d); try apply I; try done.
  - cbn. rewrite Hlen. apply I.
  - intros h (b' & w' & i1 & i2 & a & Hp)%(iv_heads _ _ I). exists b', w', i1, i2, a. cbn.
    rewrite lookup_insert_ne by congruence. by apply (maybe_woken_keeps (places d)).
  - intros b'. left. cbn. destruct (decide (b' = b)) as [->|].
    + by rewrite lookup_insert_eq, Hb.
    + rewrite lookup_insert_ne by done. by apply maybe_woken_pidx.
  - intros b' p'. cbn. intros [[<- <-]|[Hne Hp]]%lookup_insert_Some; [by intros _|]. by apply Hok.
  - intros b' (w' & i0 & i1 & i2 & Hp)%(iv_lock _ _ I). exists w', i0, i1, i2. cbn.
    rewrite lookup_insert_ne by congruence. by apply (maybe_woken_keeps (places d)).
  - intros b' p'. cbn. intros [[<- <-]|[Hne Hp]]%lookup_insert_Some; [by apply (iv_buf _ _ I _ _ Hb)|].
    destruct (maybe_woken_lookup _ _ _ _ Hpl Hp) as (p & Hp' & _). by apply (iv_buf _ _ I _ _ Hp').
Qed.

Lemma alter_alter {A} (f g : A -> A) i (l : list A) : alter f i (alter g i l) = alter (fun x => f (g x)) i l.
Proof. revert i. induction l as [|x l IH]; intros [|i]; cbn; [done..|]. f_equal. apply IH. Qed.

(** The state after [rw_format], with the descriptors allocated. *)
Definition formatted (b : nat) (w : bool) (i0 i1 i2 : nat) (d : disk) : disk := {|
  desc := <[i2 := {| addr := AStatus i0; len := 1; flags := VRING_DESC_F_WRITE; vnext := 0 |}]>
    (<[i1 := {| addr := AData b; len := BSIZE;
                flags := Z.lor (if w then 0 else VRING_DESC_F_WRITE) VRING_DESC_F_NEXT; vnext := i2 |}]>
      (<[i0 := {| addr := AOps i0; len := 16; flags := VRING_DESC_F_NEXT; vnext := i1 |}]> (desc d)));
  avail := <[ring_slot (avail_idx d) := i0]> (avail d);
  avail_idx := avail_idx d; used := used d; dev_idx := dev_idx d;
  free := <[i2 := false]> (<[i1 := false]> (<[i0 := false]> (free d)));
  used_idx := used_idx d;
  info := alter (fun _ => {| ibuf := Some b; status := 255 |}) i0 (info d);
  ops := <[i0 := {| type := if w then VIRTIO_BLK_T_OUT else VIRTIO_BLK_T_IN; reserved := 0;
                    sector := u32 (b_blockno (bufs d b) * (BSIZE / 512)) |}]> (ops d);
  bufs := <[b := with_disk 1 (bufs d b)]> (bufs d);
  places := <[b := Publishing w i0 i1 i2]> (places d);
  vdisk_lock := Some (ByCall b);
  wires := wires d;
|}.

Lemma acquire_run h d : vdisk_lock d = None -> acquire h d = Ok tt (set_vdisk_lock (Some h) d).
Proof. intros Hl. unfold acquire, bind, gets. by rewrite Hl. Qed.

Lemma rw_alloc_run d b w :
  vdisk_lock d = None ->
  (exists i0 i1 i2, NoDup [i0; i1; i2] /\ (forall i, i ∈ [i0; i1; i2] -> free d !! i = Some true) /\
    rw_alloc b w d = Ok tt (formatted b w i0 i1 i2 d)) \/
  ((nfree d < 3)%nat /\ exists ds pl, length ds = length (desc d) /\
    (forall i, free d !! i <> Some true -> ds !! i = desc d !! i) /\ maybe_woken (places d) pl /\
    rw_alloc b w d = Ok tt (set_places (<[b := Allocating w true]> pl) (set_desc ds d))).
Proof.
  intros Hl. unfold rw_alloc. set (d1 := set_vdisk_lock (Some (ByCall b)) d).
  rewrite (bind_ok _ _ _ _ _ (acquire_run (ByCall b) d Hl)). fold d1.
  destruct (alloc3_run d1) as [(i0 & i1 & i2 & Hn & Hf & Hr)|[Hn (d2 & Hr & ds & pl & -> & Hlen & Hds & Hpl)]].
  - left. exists i0, i1, i2. split_and!; [done..|]. rewrite (bind_ok _ _ _ _ _ Hr).
    unfold rw_format, upd_desc, set_info_at, upd_buf, set_place, bind, get, modify. f_equal.
    apply disk_eq; try reflexivity. cbn. by rewrite alter_alter.
  - right. split; [done|]. exists ds, pl. split_and!; [done..|]. rewrite (bind_ok _ _ _ _ _ Hr).
    unfold set_place, release, bind, modify. f_equal. by apply disk_eq.
Qed.

Section formatted.
Context (v : dview) (d : disk) (I : inv v d) (b : nat) (w : bool) (i0 i1 i2 : nat).
Context (Hb : places d !! b = Some (Allocating w false)) (Hl : vdisk_lock d = None).
Context (Hn : NoDup [i0; i1; i2]) (Hf : forall i, i ∈ [i0; i1; i2] -> free d !! i = Some true).
Let d' := formatted b w i0 i1 i2 d.

Lemma fm_not_owned i b' : i ∈ [i0; i1; i2] -> ~ owner d b' i.
Proof. intros Hi Ho%(owner_taken v d I). rewrite Hf in Ho by done. done. Qed.

Lemma fm_not_flight i : i ∈ [i0; i1; i2] -> i ∉ todo v d ++ finished v d.
Proof. intros Hi [b' Ho]%(head_owner v d I). by apply (fm_not_owned i b' Hi). Qed.

Lemma fm_lt i : i ∈ [i0; i1; i2] -> (i < NUM)%nat.
Proof. intros Hi%Hf%lookup_lt_Some. by rewrite (iv_freelen _ _ I) in Hi. Qed.

Lemma fm_todo : todo v d' = todo v d.
Proof.
  unfold todo. cbn [d' formatted avail avail_idx]. rewrite queue_set; [done|apply I..|].
  assert (i0 ∈ [i0; i1; i2]) as H0 by left.
  pose proof (flight_room v d I i0 (fm_lt i0 H0) (fm_not_flight i0 H0)) as Hr.
  unfold todo in Hr. rewrite !length_app in Hr. lia.
Qed.

Lemma fm_owner b' i : owner d' b' i <-> owner d b' i \/ b' = b /\ i ∈ [i0; i1; i2].
Proof.
  unfold owner. cbn [d' formatted places]. destruct (decide (b' = b)) as [->|Hne].
  - rewrite lookup_insert_eq, Hb. split.
    + intros (p & [= <-] & Hi). by right.
    + intros [(p & [= <-] & Hi%not_elem_of_nil)|[_ Hi]]; [done|]. eauto.
  - rewrite lookup_insert_ne by done. naive_solver.
Qed.

Lemma fm_other i : i ∉ [i0; i1; i2] ->
  desc d' !! i = desc d !! i /\ free d' !! i = free d !! i /\ ops d' !! i = ops d !! i /\ info d' !! i = info d !! i.
Proof.
  rewrite elem_of_three. intros Hi. cbn [d' formatted desc free ops info].
  rewrite !list_lookup_insert_ne, list_lookup_alter_ne by naive_solver. done.
Qed.

Lemma fm_written : written d' b w i0 i1 i2.
Proof.
  pose proof Hn as (H01 & H02 & H12)%three_nodup.
  pose proof (fm_lt i0 ltac:(left)) as L0. pose proof (fm_lt i1 ltac:(right; left)) as L1.
  pose proof (fm_lt i2 ltac:(right; right; left)) as L2.
  split; cbn [d' formatted desc free ops info bufs]; try done.
  - rewrite !list_lookup_insert_ne by done. apply list_lookup_insert_eq. by rewrite (iv_desc _ _ I).
  - rewrite list_lookup_insert_ne by done. apply list_lookup_insert_eq. by rewrite length_insert, (iv_desc _ _ I).
  - apply list_lookup_insert_eq. by rewrite !length_insert, (iv_desc _ _ I).
  - rewrite list_lookup_insert_eq by (by rewrite (iv_ops _ _ I)). by rewrite fn_lookup_insert.
  - rewrite list_lookup_alter_eq. destruct (lookup_lt_is_Some_2 (info d) i0) as [f ->]; [|done].
    by rewrite (iv_info _ _ I).
  - intros i [->|[->| ->]]%elem_of_three.
    + rewrite !list_lookup_insert_ne by done. apply list_lookup_insert_eq. by rewrite (iv_freelen _ _ I).
    + rewrite list_lookup_insert_ne by done. apply list_lookup_insert_eq. by rewrite length_insert, (iv_freelen _ _ I).
    + apply list_lookup_insert_eq. by rewrite !length_insert, (iv_freelen _ _ I).
Qed.

Lemma fm_status : status_at d' i0 = 255.
Proof. unfold status_at. cbn. rewrite list_lookup_alter_eq. by destruct (info d !! i0). Qed.

Lemma fm_place b' p : places d' !! b' = Some p -> place_ok v d' b' p.
Proof.
  cbn [d' formatted places]. intros [[<- <-]|[Hne Hp]]%lookup_insert_Some.
  - cbn [place_ok]. rewrite fm_todo. split_and!; [apply fm_written| | |apply fm_status|done|].
    + cbn. by rewrite fn_lookup_insert.
    + apply fm_not_flight. left.
    + cbn. apply list_lookup_insert_eq. rewrite (iv_avail _ _ I). apply slot_lt.
  - apply (place_frame v d); [|by apply I]. split.
    + cbn. by rewrite fn_lookup_insert_ne.
    + intros i Hi. apply fm_other. intros Hin. apply (fm_not_owned i b' Hin). by exists p.
    + intros i _. by rewrite fm_todo.
    + done.
    + destruct p as [? []|w' j0 j1 j2|]; try done.
      * unfold nfree. cbn [d' formatted free]. intros Hlt.
        pose proof (count_free_le (free d) i0). pose proof (count_free_le (<[i0 := false]> (free d)) i1).
        pose proof (count_free_le (<[i1 := false]> (<[i0 := false]> (free d))) i2). lia.
      * destruct (iv_place _ _ I _ _ Hp) as (_ & _ & _ & _ & E & _). by rewrite Hl in E.
Qed.

Lemma formatted_inv : inv v d'.
Proof.
  split; try apply I.
  - cbn. rewrite !length_insert. apply I.
  - cbn. rewrite length_insert. apply I.
  - cbn. rewrite !length_insert. apply I.
  - cbn. rewrite length_alter. apply I.
  - cbn. rewrite length_insert. apply I.
  - rewrite fm_todo. apply I.
  - rewrite fm_todo. intros h (b' & w' & j1 & j2 & a & Hp)%(iv_heads _ _ I). exists b', w', j1, j2, a.
    cbn. rewrite lookup_insert_ne by congruence. done.
  - apply fm_place.
  - intros b1 b2 i [H1|[-> H1]]%fm_owner [H2|[-> H2]]%fm_owner; try done.
    + by apply (iv_one _ _ I b1 b2 i).
    + by apply fm_not_owned in H1.
    + by apply fm_not_owned in H2.
  - intros i Hi. destruct (decide (i ∈ [i0; i1; i2])) as [Hin|Hin].
    + exists b. apply fm_owner. by right.
    + destruct (fm_other i Hin) as (_ & E & _). rewrite E in Hi.
      destruct (iv_free _ _ I i Hi) as [b' Hb']. exists b'. apply fm_owner. by left.
  - cbn. intros b' [= <-]. exists w, i0, i1, i2. by rewrite lookup_insert_eq.
  - intros b' p. cbn. destruct (decide (b' = b)) as [->|].
    + intros _. rewrite fn_lookup_insert. by apply (iv_buf _ _ I _ _ Hb).
    + rewrite lookup_insert_ne, fn_lookup_insert_ne by done. apply I.
Qed.
End formatted.

(** ** Waiting for the device *)

(** The call for [b] moves on and keeps its descriptors. *)
Lemma moved_pidx d b p q b' :
  places d !! b = Some p -> pidx q = pidx p ->
  pidx <$> <[b := q]> (places d) !! b' = pidx <$> places d !! b'.
Proof.
  intros Hp E. destruct (decide (b' = b)) as [->|]; [by rewrite lookup_insert_eq, Hp; cbn; rewrite E|].
  by rewrite lookup_insert_ne.
Qed.

Definition published (b : nat) (w : bool) (i0 i1 i2 : nat) (d : disk) : disk :=
  set_vdisk_lock None (set_places (<[b := Waiting w i0 i1 i2 true]> (places d))
    (notify (set_avail_idx (u16 (avail_idx d + 1)) d))).

Lemma rw_publish_run d b w i0 i1 i2 :
  b_disk (bufs d b) = 1 -> rw_publish b w i0 i1 i2 d = Ok tt (published b w i0 i1 i2 d).
Proof.
  intros Hd. unfold rw_publish. rewrite (bind_ok _ _ d tt (set_avail_idx (u16 (avail_idx d + 1)) d)) by done.
  rewrite (bind_ok _ _ _ tt (notify (set_avail_idx (u16 (avail_idx d + 1)) d))) by done.
  unfold rw_wait. unfold bind at 1, get. cbn [bufs notify set_wires set_avail_idx]. by rewrite Hd.
Qed.

Lemma published_inv v d b w i0 i1 i2 :
  inv v d -> places d !! b = Some (Publishing w i0 i1 i2) -> inv v (published b w i0 i1 i2 d).
Proof.
  intros I Hp. pose proof (iv_place _ _ I _ _ Hp) as (Hw & Hd & Hnf & Hst & Hl & Ha).
  set (d' := published b w i0 i1 i2 d). destruct (iv_index _ _ I) as (Hi1 & Hi2 & Hi3 & Hi4).
  assert (owner d b i0) as Ho by (eexists; split; [done|left]).
  assert (queue (avail d) (dv_last v) (u16 (avail_idx d + 1)) = queue (avail d) (dv_last v) (avail_idx d) ++ [i0]) as Eq.
  { rewrite <- (list_insert_id _ _ _ Ha) at 1. apply queue_push; [done..|apply I|].
    pose proof (flight_room v d I i0 (owner_lt v d I b i0 Ho) Hnf) as Hr.
    unfold todo in Hr. rewrite !length_app in Hr. lia. }
  assert (todo v d' = queue (avail d) (dv_last v) (avail_idx d) ++ i0 :: dv_busy v) as Et.
  { unfold todo. cbn. rewrite Eq. by rewrite <- app_assoc. }
  assert (finished v d' = finished v d) as Ef by done.
  assert (forall i, i ∈ todo v d' <-> i ∈ todo v d \/ i = i0) as Hin.
  { intros i. rewrite Et. unfold todo. rewrite !elem_of_app, elem_of_cons. naive_solver. }
  apply (keep_inv v d); try apply I; try done.
  - split_and!; try done. apply u16_index.
  - rewrite Et, Ef. unfold todo in Hnf. pose proof (iv_nodup _ _ I) as Hnd. unfold todo in Hnd.
    rewrite <- app_assoc in Hnf, Hnd |- *. cbn [app]. rewrite <- Permutation_middle. by constructor.
  - intros h. rewrite Ef, elem_of_app, Hin. intros Hh.
    destruct (decide (h = i0)) as [->|Hne].
    + exists b, w, i1, i2, true. cbn. by rewrite lookup_insert_eq.
    + destruct (iv_heads _ _ I h) as (b' & w' & j1 & j2 & a & Hp'); [rewrite elem_of_app; naive_solver|].
      exists b', w', j1, j2, a. cbn. by rewrite lookup_insert_ne by congruence.
  - intros b'. left. cbn. by eapply moved_pidx.
  - intros b' p. cbn [d' published set_vdisk_lock places set_places notify set_wires].
    intros [[<- <-]|[Hne Hp']]%lookup_insert_Some.
    + split; [by apply (written_frame d)|]. left. split_and!; [done| |done]. apply Hin. by right.
    + assert (i0 ∉ pidx p) as Hni.
      { intros Hi. apply Hne. apply (iv_one _ _ I b b' i0); [done|by exists p]. }
      apply (place_frame v d); [|by apply I]. split; try done.
      * intros i Hi. rewrite Hin. split; [|by left]. intros [| ->]; done.
      * destruct p as [? []|w' j0 j1 j2|]; try done.
        destruct (iv_place _ _ I _ _ Hp') as (_ & _ & _ & _ & E & _). rewrite Hl in E. congruence.
  - intros b' p. cbn. intros [[<- <-]|[_ Hp']]%lookup_insert_Some; [by apply (iv_buf _ _ I _ _ Hp)|by apply (iv_buf _ _ I _ _ Hp')].
Qed.

(** Waking or putting to sleep a call whose buffer is with the device. *)
Lemma resleep_inv v d b w i0 i1 i2 a a' :
  inv v d -> places d !! b = Some (Waiting w i0 i1 i2 a) -> b_disk (bufs d b) = 1 ->
  inv v (set_places (<[b := Waiting w i0 i1 i2 a']> (places d)) d).
Proof.
  intros I Hp Hd. apply (keep_inv v d); try apply I; try done.
  - intros h (b' & w' & j1 & j2 & a1 & Hp')%(iv_heads _ _ I). cbn. destruct (decide (b' = b)) as [->|].
    + exists b, w', j1, j2, a'. rewrite lookup_insert_eq. congruence.
    + exists b', w', j1, j2, a1. by rewrite lookup_insert_ne.
  - intros b'. left. cbn. by eapply moved_pidx.
  - intros b' p. cbn. intros [[<- <-]|[Hne Hp']]%lookup_insert_Some.
    + destruct (iv_place _ _ I _ _ Hp) as [Hw Hwa]. split; [by apply (written_frame d)|].
      unfold waiting_ok in *. cbn. naive_solver lia.
    + apply (place_frame v d); [|by apply I]. by split; try done; destruct p as [? []| |].
  - intros b' (w' & j0 & j1 & j2 & Hp')%(iv_lock _ _ I). exists w', j0, j1, j2. cbn.
    by rewrite lookup_insert_ne by congruence.
  - intros b' p. cbn. intros [[<- <-]|[_ Hp']]%lookup_insert_Some; [by apply (iv_buf _ _ I _ _ Hp)|by apply (iv_buf _ _ I _ _ Hp')].
Qed.

(** The state after the end of a call. *)
Definition returned (b i0 i1 i2 : nat) (d : disk) : disk := {|
  desc := <[i2 := no_desc]> (<[i1 := no_desc]> (<[i0 := no_desc]> (desc d)));
  avail := avail d; avail_idx := avail_idx d; used := used d; dev_idx := dev_idx d;
  free := <[i2 := true]> (<[i1 := true]> (<[i0 := true]> (free d)));
  used_idx := used_idx d;
  info := alter (fun f => {| ibuf := None; status := status f |}) i0 (info d);
  ops := ops d; bufs := bufs d;
  places := delete b (woken_free <$> places d);
  vdisk_lock := None;
  wires := wires d;
|}.

Lemma free_chain_step fuel d i e :
  desc d !! i = Some e -> free d !! i = Some false ->
  free_chain_loop (S fuel) i d =
    (if Z.land (flags e) VRING_DESC_F_NEXT =? 0 then ret tt else free_chain_loop fuel (vnext e))
      (set_places (woken_free <$> places d) (set_free (<[i := true]> (free d)) (set_desc (<[i := no_desc]> (desc d)) d))).
Proof.
  intros He Hf. cbn [free_chain_loop]. unfold bind at 1, get, get_desc. rewrite He. cbn [from_option id].
  rewrite (bind_ok _ _ _ _ _ (free_desc_run d i Hf)). by destruct (_ =? 0).
Qed.

Lemma free_chain_run d d0 b w i0 i1 i2 :
  written d0 b w i0 i1 i2 -> desc d = desc d0 -> free d = free d0 ->
  free_chain i0 d = Ok tt (set_places (woken_free <$> places d)
    (set_free (<[i2 := true]> (<[i1 := true]> (<[i0 := true]> (free d))))
      (set_desc (<[i2 := no_desc]> (<[i1 := no_desc]> (<[i0 := no_desc]> (desc d)))) d))).
Proof.
  intros [H0 H1 H2 _ _ Ht (H01 & H02 & H12)%three_nodup] Ed Ef. rewrite <- Ed in H0, H1, H2.
  unfold free_chain. change (S NUM) with (S (S (S 6))).
  assert (forall i, i ∈ [i0; i1; i2] -> free d !! i = Some false) as Hf by (by rewrite Ef).
  rewrite (free_chain_step _ _ _ _ H0) by (apply Hf; left). cbn [flags vnext].
  change (Z.land VRING_DESC_F_NEXT VRING_DESC_F_NEXT =? 0) with false. cbn iota.
  erewrite free_chain_step; [|cbn; rewrite list_lookup_insert_ne by done; exact H1|
    cbn; rewrite list_lookup_insert_ne by done; apply Hf; right; left].
  replace (Z.land _ _ =? 0) with false by (by destruct w). cbn [vnext].
  erewrite free_chain_step; [|cbn; rewrite !list_lookup_insert_ne by done; exact H2|
    cbn; rewrite !list_lookup_insert_ne by done; apply Hf; right; right; left].
  cbn [flags]. change (Z.land VRING_DESC_F_WRITE VRING_DESC_F_NEXT =? 0) with true. cbn iota.
  unfold ret. f_equal. apply disk_eq; try reflexivity. cbn. by rewrite !woken_twice.
Qed.

Lemma rw_return_run d b w i0 i1 i2 :
  vdisk_lock d = None -> written d b w i0 i1 i2 -> b_disk (bufs d b) <> 1 ->
  rw_resume b w i0 i1 i2 d = Ok tt (returned b i0 i1 i2 d).
Proof.
  intros Hl Hw Hd. unfold rw_resume. rewrite (bind_ok _ _ _ _ _ (acquire_run (ByCall b) d Hl)).
  unfold rw_wait. unfold bind at 1, get. cbn [bufs set_vdisk_lock].
  apply Z.eqb_neq in Hd. rewrite Hd.
  set (d1 := set_info (alter (fun f => {| ibuf := None; status := status f |}) i0 (info d)) (set_vdisk_lock (Some (ByCall b)) d)).
  rewrite (bind_ok _ _ _ tt d1) by done.
  rewrite (bind_ok _ _ _ _ _ (free_chain_run d1 d _ _ _ _ _ Hw eq_refl eq_refl)). done.
Qed.

Section returned.
Context (v : dview) (d : disk) (I : inv v d) (b : nat) (w : bool) (i0 i1 i2 : nat) (a : bool).
Context (Hb : places d !! b = Some (Waiting w i0 i1 i2 a)) (Hl : vdisk_lock d = None).
Context (Hd : b_disk (bufs d b) <> 1).
Let d' := returned b i0 i1 i2 d.

Lemma rt_owned i : i ∈ [i0; i1; i2] -> owner d b i.
Proof. intros Hi. by eexists. Qed.

Lemma rt_places b' p : places d' !! b' = Some p <-> b' <> b /\ exists q, places d !! b' = Some q /\ p = woken_free q.
Proof.
  cbn. rewrite lookup_delete_Some, lookup_fmap, fmap_Some. naive_solver.
Qed.

Lemma rt_owner b' i : owner d' b' i <-> b' <> b /\ owner d b' i.
Proof.
  unfold owner. split.
  - intros (p & (Hne & q & Hq & ->)%rt_places & Hi). rewrite pidx_woken in Hi. eauto.
  - intros (Hne & q & Hq & Hi). exists (woken_free q). rewrite pidx_woken, rt_places. eauto.
Qed.

Lemma rt_other i : i ∉ [i0; i1; i2] ->
  desc d' !! i = desc d !! i /\ free d' !! i = free d !! i /\ ops d' !! i = ops d !! i /\ info d' !! i = info d !! i.
Proof.
  rewrite elem_of_three. intros Hi. cbn [d' returned desc free ops info].
  rewrite !list_lookup_insert_ne, list_lookup_alter_ne by naive_solver. done.
Qed.

Lemma returned_inv : inv v d'.
Proof.
  split; try apply I.
  - cbn. rewrite !length_insert. apply I.
  - cbn. rewrite !length_insert. apply I.
  - cbn. rewrite length_alter. apply I.
  - intros h Hh. destruct (iv_heads _ _ I h Hh) as (b' & w' & j1 & j2 & a' & Hp').
    exists b', w', j1, j2, a'. apply rt_places. split; [|by eexists]. intros ->.
    destruct (iv_place _ _ I _ _ Hb) as [_ [[? _]|[[? _]|(_ & Hn & _)]]]; [done..|].
    rewrite Hb in Hp'. injection Hp' as -> -> -> -> ->. done.
  - intros b' p (Hne & q & Hq & ->)%rt_places.
    destruct q as [w' a'|w' j0 j1 j2|w' j0 j1 j2 a'] eqn:E; [done|..].
    + destruct (iv_place _ _ I _ _ Hq) as (_ & _ & _ & _ & E' & _). by rewrite Hl in E'.
    + apply (place_frame v d); [|by apply I]. split; try done.
      intros i Hi. apply rt_other. intros Hin%rt_owned. apply Hne. apply (iv_one _ _ I b' b i); [by eexists|done].
  - intros b1 b2 i [_ H1]%rt_owner [_ H2]%rt_owner. by apply (iv_one _ _ I b1 b2 i).
  - intros i Hi. destruct (decide (i ∈ [i0; i1; i2])) as [Hin|Hin].
    + assert (free d' !! i = Some true) as E; [|by rewrite E in Hi].
      pose proof (owner_lt v d I b i (rt_owned i Hin)) as Hlt. rewrite <- (iv_freelen _ _ I) in Hlt.
      cbn [d' returned free]. apply elem_of_three in Hin. rewrite !list_lookup_insert, !length_insert.
      repeat case_decide; naive_solver.
    + destruct (rt_other i Hin) as (_ & E & _). rewrite E in Hi.
      destruct (iv_free _ _ I i Hi) as [b' Hb']. exists b'. apply rt_owner. split; [|done].
      intros ->. destruct Hb' as (p & Hp & Hi'). rewrite Hb in Hp. injection Hp as <-. done.
  - done.
  - intros b' p (Hne & q & Hq & ->)%rt_places. by apply (iv_buf _ _ I _ _ Hq).
Qed.
End returned.

(** ** The interrupt handler *)

Lemma lock_inv v d l :
  inv v d -> (forall b, vdisk_lock d <> Some (ByCall b)) -> (forall b, l <> Some (ByCall b)) ->
  inv v (set_vdisk_lock l d).
Proof.
  intros I H1 H2. apply (keep_inv v d); try apply I; try done.
  - intros b. by left.
  - intros b p Hp. apply (place_frame v d); [|by apply I]. split; try done.
    destruct p as [? []|w i0 i1 i2|]; try done.
    destruct (iv_place _ _ I _ _ Hp) as (_ & _ & _ & _ & E & _). by apply H1 in E.
  - cbn. intros b E. by apply H2 in E.
Qed.

(** The next request to complete: its call waits, and the device has set its
    status. *)
Lemma next_used v d :
  inv v d -> used_idx d <> dev_idx d ->
  exists b w h i1 i2 a,
    default O (used d !! ring_slot (used_idx d)) = h /\
    places d !! b = Some (Waiting w h i1 i2 a) /\ written d b w h i1 i2 /\ b_disk (bufs d b) = 1 /\
    0 <= status_at d h < 3 /\
    queue (used d) (used_idx d) (dev_idx d) = h :: queue (used d) (u16 (used_idx d + 1)) (dev_idx d).
Proof.
  intros I Hne. destruct (iv_index _ _ I) as (_ & _ & Hi3 & Hi4).
  pose proof (queue_pop (used d) _ _ Hi3 Hi4 Hne) as Eq. set (h := default O _) in Eq.
  assert (h ∈ finished v d) as Hin.
  { unfold finished. rewrite Eq. apply elem_of_app. right. left. }
  destruct (iv_heads _ _ I h) as (b & w & i1 & i2 & a & Hp); [apply elem_of_app; by right|].
  destruct (iv_place _ _ I _ _ Hp) as [Hw Hwa].
  destruct Hwa as [(Hd & Ht & Hs)|[(Hd & Ht & Hs)|(Hd & Ht & Hs & _)]].
  - pose proof (iv_nodup _ _ I) as (_ & Hdis & _)%NoDup_app. by apply Hdis in Ht.
  - by exists b, w, h, i1, i2, a.
  - destruct Ht. apply elem_of_app. by right.
Qed.

Definition completed (b : nat) (d : disk) : disk :=
  set_used_idx (u16 (used_idx d + 1))
    (set_places (alter woken_buf b (places d)) (set_bufs (<[b := with_disk 0 (bufs d b)]> (bufs d)) d)).

Lemma completed_inv v d b w h i1 i2 a :
  inv v d -> places d !! b = Some (Waiting w h i1 i2 a) -> written d b w h i1 i2 -> status_at d h = 0 ->
  queue (used d) (used_idx d) (dev_idx d) = h :: queue (used d) (u16 (used_idx d + 1)) (dev_idx d) ->
  inv v (completed b d).
Proof.
  intros I Hp Hw Hs Eq. set (d' := completed b d).
  destruct (iv_index _ _ I) as (Hi1 & Hi2 & Hi3 & Hi4).
  assert (todo v d' = todo v d) as Et by done.
  assert (todo v d ++ finished v d ≡ₚ h :: todo v d' ++ finished v d') as Ef.
  { unfold finished. cbn. rewrite Eq. solve_Permutation. }
  pose proof (iv_nodup _ _ I) as Hnd. rewrite Ef in Hnd. apply NoDup_cons in Hnd as [Hh Hnd].
  assert (forall i, i <> h -> i ∈ finished v d' <-> i ∈ finished v d) as Hfin.
  { intros i Hi. unfold finished. cbn. rewrite Eq, !elem_of_app, elem_of_cons. naive_solver. }
  assert (places d' = <[b := Waiting w h i1 i2 false]> (places d)) as Epl.
  { cbn. rewrite <- (insert_id _ _ _ Hp) at 1. by rewrite alter_insert_eq. }
  apply (keep_inv v d); try apply I; try done.
  - split_and!; try done. apply u16_index.
  - intros i Hi. destruct (iv_heads _ _ I i) as (b' & w' & j1 & j2 & a' & Hp').
    { rewrite Ef. by right. }
    rewrite Epl. destruct (decide (b' = b)) as [->|Hne]; [|exists b', w', j1, j2, a'; by rewrite lookup_insert_ne].
    exists b, w, i1, i2, false. rewrite lookup_insert_eq. congruence.
  - intros b'. left. rewrite Epl. by eapply moved_pidx.
  - intros b' p. rewrite Epl. intros [[<- <-]|[Hne Hp']]%lookup_insert_Some.
    + split; [apply (written_frame d); [done| |done]; cbn; by rewrite fn_lookup_insert|].
      right. right. split_and!; try done. cbn. by rewrite fn_lookup_insert.
    + assert (h ∉ pidx p) as Hni.
      { intros Hi. apply Hne. apply (iv_one _ _ I b b' h); [eexists; split; [done|left]|by exists p]. }
      apply (place_frame v d); [|by apply I]. split; try done.
      * cbn. by rewrite fn_lookup_insert_ne.
      * intros i Hi. apply Hfin. by intros ->.
      * by destruct p as [? []| |].
  - intros b' (w' & j0 & j1 & j2 & Hp')%(iv_lock _ _ I). exists w', j0, j1, j2. rewrite Epl.
    by rewrite lookup_insert_ne by congruence.
  - intros b' p. rewrite Epl. cbn. destruct (decide (b' = b)) as [->|].
    + intros _. rewrite fn_lookup_insert. by apply (iv_buf _ _ I _ _ Hp).
    + rewrite lookup_insert_ne, fn_lookup_insert_ne by done. apply I.
Qed.

Lemma intr_loop_run v d :
  inv v d -> used_idx d <> dev_idx d ->
  exists b w h i1 i2 a, places d !! b = Some (Waiting w h i1 i2 a) /\ written d b w h i1 i2 /\
    0 <= status_at d h < 3 /\
    queue (used d) (used_idx d) (dev_idx d) = h :: queue (used d) (u16 (used_idx d + 1)) (dev_idx d) /\
    intr_loop d = if status_at d h =? 0 then Ok tt (completed b d) else Stop (SPanic "virtio_disk_intr status").
Proof.
  intros I Hne. destruct (next_used v d I Hne) as (b & w & h & i1 & i2 & a & Eh & Hp & Hw & _ & Hs & Eq).
  exists b, w, h, i1, i2, a. split_and!; try done; [lia..|].
  unfold intr_loop. unfold bind at 1, get. apply Z.eqb_neq in Hne. rewrite Hne. cbn zeta. rewrite Eh.
  pose proof (wr_info _ _ _ _ _ _ Hw) as Hi. unfold status_at.
  destruct (info d !! h) as [f|]; [|done]. cbn in Hi |- *. injection Hi as Hi. rewrite Hi.
  by destruct (status f =? 0).
Qed.

(** ** The device *)

Lemma chain_written d b w i0 i1 i2 :
  written d b w i0 i1 i2 ->
  chain d i0 = Some {| rq_write := w; rq_sector := u32 (b_blockno (bufs d b) * (BSIZE / 512)); rq_buf := b;
                       rq_len := BSIZE; rq_status := i0 |}.
Proof.
  intros [H0 H1 H2 Ho Hi _ _]. unfold chain. rewrite H0. cbn [mbind option_bind vnext].
  rewrite H1. cbn [mbind option_bind vnext]. rewrite H2. cbn [mbind option_bind addr]. rewrite Ho.
  cbn [mbind option_bind type len flags sector].
  assert ((i0 <? length (info d))%nat = true) as ->; [|by destruct w].
  apply Nat.ltb_lt. destruct (info d !! i0) eqn:E; [|done]. by eapply lookup_lt_Some.
Qed.

(** The device moves a request along without changing what it has done. *)
(** The invariant does not look at the signals. *)
Lemma wires_inv v d w : inv v d -> inv v (set_wires w d).
Proof.
  intros I. apply (keep_inv v d); try apply I; try done.
  - intros b. by left.
  - intros b p Hp. apply (place_frame v d); [|by apply I]. by split; try done; destruct p as [? []| |].
Qed.

Lemma device_moves v d v' d' :
  inv v d -> todo v' d' ≡ₚ todo v d -> finished v' d' ≡ₚ finished v d ->
  (exists u i, d' = set_dev_idx i (set_used u d) /\ length u = NUM /\ index_ok i) ->
  index_ok (dv_last v') -> dv_store v' = dv_store v -> inv v' d'.
Proof.
  intros I Ht Hf (u & i & -> & Hu & Hi) Hl Hs. destruct (iv_index _ _ I) as (Hi1 & Hi2 & Hi3 & Hi4).
  apply (keep_inv v d); try apply I; try done.
  - by rewrite Ht, Hf; apply I.
  - intros h. rewrite Ht, Hf. apply I.
  - intros b. by left.
  - intros b p Hp. apply (place_frame v d); [|by apply I]. split; try done.
    + intros j _. by rewrite Ht.
    + intros j _. by rewrite Hf.
    + by destruct p as [? []| |].
  - intros x. rewrite Hs. apply I.
Qed.

Lemma fetch_inv v d h :
  inv v d -> dv_last v <> avail_idx d -> avail d !! ring_slot (dv_last v) = Some h ->
  inv {| dv_last := u16 (dv_last v + 1); dv_busy := dv_busy v ++ [h]; dv_done := dv_done v; dv_store := dv_store v |} d.
Proof.
  intros I Hne Hh. destruct (iv_index _ _ I) as (Hi1 & Hi2 & Hi3 & Hi4).
  apply (device_moves v d); try done.
  - unfold todo. cbn. rewrite (queue_pop (avail d) (dv_last v)) by done. rewrite Hh. cbn. solve_Permutation.
  - exists (used d), (dev_idx d). split_and!; [by destruct d|apply I|done].
  - apply u16_index.
Qed.

Lemma report_inv v d h pre post :
  inv v d -> dv_done v = pre ++ h :: post ->
  inv {| dv_last := dv_last v; dv_busy := dv_busy v; dv_done := pre ++ post; dv_store := dv_store v |}
    (set_dev_idx (u16 (dev_idx d + 1)) (set_used (<[ring_slot (dev_idx d) := h]> (used d)) d)).
Proof.
  intros I Hd. destruct (iv_index _ _ I) as (Hi1 & Hi2 & Hi3 & Hi4).
  assert (length (queue (used d) (used_idx d) (dev_idx d)) < NUM)%nat as Hroom.
  { pose proof (flight_length v d I) as Hn. unfold finished in Hn. rewrite Hd, !length_app in Hn.
    cbn [length] in Hn. lia. }
  apply (device_moves v d); try done.
  - unfold finished. cbn. rewrite queue_push, Hd; [solve_Permutation|done..|apply I|done].
  - eexists _, _. split; [done|]. split; [rewrite length_insert; apply I|apply u16_index].
Qed.

(** What a request of the driver does, block by block. *)
Definition block_request (b : nat) (w : bool) (n : Z) (h : nat) : request :=
  {| rq_write := w; rq_sector := 2 * n; rq_buf := b; rq_len := BSIZE; rq_status := h |}.

Lemma request_sector n : 0 <= n < 2 ^ 31 -> u32 (n * (BSIZE / 512)) = 2 * n.
Proof. intros Hn. change (BSIZE / 512) with 2. rewrite u32_small; lia. Qed.

Lemma read_two st s : read_sectors st s 2 = st s ++ st (s + 1).
Proof.
  unfold read_sectors. rewrite !seqZ_cons, seqZ_nil by lia. cbn. by rewrite app_nil_r, Z.add_1_r.
Qed.

Lemma slice_halves (l : list Z) : length l = 1024%nat -> slice 0 512 l ++ slice 512 512 l = l.
Proof.
  intros Hl. unfold slice. rewrite drop_0, (take_ge (drop 512 l)) by (rewrite length_drop; lia). apply take_drop.
Qed.

Lemma carried_out_ok b w n h st st' l l' :
  (forall x, length (st x) = 512%nat) -> length l = 1024%nat ->
  carried_out (block_request b w n h) st st' l l' ->
  (forall x, length (st' x) = 512%nat) /\ length l' = 1024%nat.
Proof.
  intros Hs Hl. unfold carried_out. cbn [rq_write rq_sector rq_len block_request].
  change (BSIZE / 512) with 2. change (Z.to_nat BSIZE) with 1024%nat. destruct w.
  - intros [-> E]. split; [|done]. intros x. rewrite E. unfold write_sectors. case_if_as Hx; [|done].
    apply slice_length. lia.
  - intros [-> E]. split; [intros x; by rewrite E|].
    rewrite read_two, drop_ge, app_nil_r, length_app, !Hs by lia. done.
Qed.

Section transfer.
Context (v : dview) (d : disk) (I : inv v d) (h : nat) (pre post : list nat).
Context (Hbusy : dv_busy v = pre ++ h :: post).

Lemma tr_todo : h ∈ todo v d.
Proof. unfold todo. rewrite Hbusy, !elem_of_app. right. right. left. Qed.

(** The request the device carries out is the one of a waiting call. *)
Lemma transfer_call r :
  chain d h = Some r ->
  exists b w i1 i2 a, places d !! b = Some (Waiting w h i1 i2 a) /\ written d b w h i1 i2 /\
    b_disk (bufs d b) = 1 /\ status_at d h = 255 /\ r = block_request b w (b_blockno (bufs d b)) h.
Proof.
  intros Hr. destruct (iv_heads _ _ I h) as (b & w & i1 & i2 & a & Hp).
  { apply elem_of_app. left. apply tr_todo. }
  destruct (iv_place _ _ I _ _ Hp) as [Hw Hwa]. exists b, w, i1, i2, a.
  rewrite (chain_written _ _ _ _ _ _ Hw) in Hr. injection Hr as <-.
  rewrite request_sector by apply (iv_buf _ _ I _ _ Hp). pose proof tr_todo as Ht.
  destruct Hwa as [(Hd & _ & Hs)|[(_ & Hf & _)|(_ & Hn & _)]]; [done|..].
  - pose proof (iv_nodup _ _ I) as (_ & Hdis & _)%NoDup_app. by apply Hdis in Ht.
  - destruct Hn. apply elem_of_app. by left.
Qed.

Context (b : nat) (w : bool) (i1 i2 : nat) (a : bool) (Hp : places d !! b = Some (Waiting w h i1 i2 a)).
Context (Hw : written d b w h i1 i2) (Hd : b_disk (bufs d b) = 1).
Context (code : Z) (st : Z -> list Z) (l : list Z) (Hcode : 0 <= code < 3).
Let v' := {| dv_last := dv_last v; dv_busy := pre ++ post; dv_done := dv_done v ++ [h]; dv_store := st |}.
Let d' := set_bufs (<[b := with_data l (bufs d b)]> (bufs d))
  (set_info (<[h := {| ibuf := Some b; status := code |}]> (info d)) d).

Lemma tr_lt : (h < length (info d))%nat.
Proof.
  pose proof (wr_info _ _ _ _ _ _ Hw) as Hi. destruct (info d !! h) eqn:E; [|done]. by eapply lookup_lt_Some.
Qed.

Lemma tr_finished i : i ∈ finished v' d' <-> i ∈ finished v d \/ i = h.
Proof. unfold finished. cbn. rewrite !elem_of_app, elem_of_cons, elem_of_nil. naive_solver. Qed.

Lemma tr_flight : todo v' d' ++ finished v' d' ≡ₚ todo v d ++ finished v d.
Proof. unfold todo, finished. cbn. rewrite Hbusy. solve_Permutation. Qed.

Lemma tr_todo_ne i : i <> h -> i ∈ todo v' d' <-> i ∈ todo v d.
Proof. intros Hi. unfold todo. cbn. rewrite Hbusy, !elem_of_app, elem_of_cons. naive_solver. Qed.

Lemma tr_place b' p : places d' !! b' = Some p -> place_ok v' d' b' p.
Proof.
  intros Hp'. pose proof tr_lt as Hlt. destruct (decide (b' = b)) as [->|Hne].
  - cbn in Hp'. rewrite Hp in Hp'. injection Hp' as <-. split.
    + apply (written_frame d); [|cbn; by rewrite fn_lookup_insert|done]. intros i _. cbn. split_and!; try done.
      destruct (decide (i = h)) as [->|]; [|by rewrite list_lookup_insert_ne].
      rewrite list_lookup_insert_eq by done. symmetry. apply Hw.
    + right. left. split_and!; [cbn; by rewrite fn_lookup_insert|apply tr_finished; by right|..];
        unfold status_at; cbn; rewrite list_lookup_insert_eq by done; cbn; lia.
  - assert (h ∉ pidx p) as Hni.
    { intros Hi. apply Hne. apply (iv_one _ _ I b' b h); [by exists p|eexists; split; [done|left]]. }
    assert (forall i, i ∈ pidx p -> i <> h) as Hnh by (by intros i Hi ->).
    apply (place_frame v d); [|by apply I]. split.
    + cbn. by rewrite fn_lookup_insert_ne.
    + intros i Hi%Hnh. cbn. by rewrite list_lookup_insert_ne.
    + intros i Hi%Hnh. by apply tr_todo_ne.
    + intros i Hi%Hnh. rewrite tr_finished. naive_solver.
    + by destruct p as [? []| |].
Qed.

Lemma transfer_inv : (forall x, length (st x) = 512%nat) -> length l = 1024%nat -> inv v' d'.
Proof.
  intros Hst Hl. apply (keep_inv v d); try apply I; try done.
  - cbn. rewrite length_insert. apply I.
  - rewrite tr_flight. apply I.
  - intros i. rewrite tr_flight. apply I.
  - intros b'. by left.
  - apply tr_place.
  - intros b' p Hp'. cbn. destruct (decide (b' = b)) as [->|].
    + rewrite fn_lookup_insert. split; [by apply (iv_buf _ _ I _ _ Hp)|done].
    + rewrite fn_lookup_insert_ne by done. by apply (iv_buf _ _ I _ _ Hp').
Qed.
End transfer.

(** ** Refinement *)

Lemma asked_same d d' p :
  (forall i, i ∈ pidx p -> status_at d' i = status_at d i) -> asked d' p = asked d p.
Proof.
  intros H. destruct p as [w a|w i0 i1 i2|w i0 i1 i2 a]; cbn; [done|..]; unfold outcome_at; rewrite H; try done; left.
Qed.

Lemma asked_woken d p : asked d (woken_free p) = asked d p.
Proof. by destruct p. Qed.

Section transfer_refines.
Context (v : dview) (d : disk) (I : inv v d) (h : nat) (pre post : list nat).
Context (b : nat) (w : bool) (i1 i2 : nat) (a : bool) (Hp : places d !! b = Some (Waiting w h i1 i2 a)).
Context (Hw : written d b w h i1 i2) (Hs : status_at d h = 255).
Context (code : Z) (st : Z -> list Z) (l : list Z).
Let v' := {| dv_last := dv_last v; dv_busy := pre ++ post; dv_done := dv_done v ++ [h]; dv_store := st |}.
Let d' := set_bufs (<[b := with_data l (bufs d b)]> (bufs d))
  (set_info (<[h := {| ibuf := Some b; status := code |}]> (info d)) d).
Let n := b_blockno (bufs d b).

Lemma ts_asked : a_req (abs v d) b = Some (w, Asked).
Proof. cbn. rewrite Hp. cbn. unfold outcome_at. by rewrite Hs. Qed.

Lemma ts_req b' : a_req (abs v' d') b' = (<[b := Some (w, outcome_of code)]> (a_req (abs v d))) b'.
Proof.
  destruct (decide (b' = b)) as [->|Hne].
  - rewrite fn_lookup_insert. cbn. rewrite Hp. cbn. unfold outcome_at, status_at. cbn.
    by rewrite list_lookup_insert_eq by (by apply (tr_lt d h b w i1 i2)).
  - rewrite fn_lookup_insert_ne by done. cbn. destruct (places d !! b') as [p|] eqn:Hp'; [|done]. cbn. f_equal.
    apply asked_same. intros i Hi. unfold status_at. cbn. rewrite list_lookup_insert_ne; [done|].
    intros ->. apply Hne. apply (iv_one _ _ I b' b i); [by exists p|eexists; split; [done|left]].
Qed.

Lemma ts_data b' : a_data (abs v' d') b' = (<[b := l]> (a_data (abs v d))) b'.
Proof.
  cbn. destruct (decide (b' = b)) as [->|]; [by rewrite !fn_lookup_insert|by rewrite !fn_lookup_insert_ne].
Qed.

Lemma ts_blockno b' : a_blockno (abs v' d') b' = a_blockno (abs v d) b'.
Proof.
  cbn. destruct (decide (b' = b)) as [->|]; [by rewrite fn_lookup_insert|by rewrite fn_lookup_insert_ne].
Qed.

Lemma ts_same_data b' : l = b_data (bufs d b) -> a_data (abs v' d') b' = a_data (abs v d) b'.
Proof.
  intros E. rewrite ts_data. destruct (decide (b' = b)) as [->|]; [by rewrite fn_lookup_insert|by rewrite fn_lookup_insert_ne].
Qed.

Lemma carried_refines :
  code = 0 -> carried_out (block_request b w n h) (dv_store v) st (b_data (bufs d b)) l ->
  astep (abs v d) (abs v' d').
Proof.
  intros Hc. unfold carried_out. cbn [rq_write rq_sector rq_len block_request].
  change (BSIZE / 512) with 2. change (Z.to_nat BSIZE) with 1024%nat.
  destruct (iv_buf _ _ I _ _ Hp) as [_ Hlen]. pose proof ts_asked as Ha. pose proof ts_req as Hr.
  rewrite Hc in Hr. change (outcome_of 0) with Done in Hr. destruct w.
  - intros [El Est]. apply (a_write _ _ b Ha). split; [|split; [|split]].
    + intros m. cbn. destruct (decide (m = n)) as [->|Hm].
      * unfold n. rewrite fn_lookup_insert, !Est. unfold write_sectors. fold n.
        repeat case_if; try lia. replace (2 * n - 2 * n) with 0 by lia. replace (2 * n + 1 - 2 * n) with 1 by lia.
        by apply slice_halves.
      * unfold n in *. rewrite fn_lookup_insert_ne, !Est by done. unfold write_sectors. repeat case_if; try lia. done.
    + intros b'. by apply ts_same_data.
    + apply ts_blockno.
    + apply Hr.
  - intros [El Est]. apply (a_read _ _ b Ha). split; [|split; [|split]].
    + intros m. cbn. by rewrite !Est.
    + intros b'. rewrite ts_data, El, read_two, drop_ge, app_nil_r by lia. done.
    + apply ts_blockno.
    + apply Hr.
Qed.

Lemma failed_refines :
  code = 1 \/ code = 2 -> failed (block_request b w n h) (dv_store v) st (b_data (bufs d b)) l ->
  astep (abs v d) (abs v' d').
Proof.
  intros Hc (Hlen & Hsame & Hst). cbn [rq_write rq_sector rq_len block_request] in *.
  change (BSIZE / 512) with 2 in Hst.
  apply (a_fail _ _ b w (st (2 * n) ++ st (2 * n + 1)) l ts_asked). split; [|split; [|split]].
  - intros m. cbn. destruct w; cycle 1.
    { destruct (Hst (2 * m)) as [_ [[? _]| ->]]; [done|]. by destruct (Hst (2 * m + 1)) as [_ [[? _]| ->]]. }
    destruct (decide (m = n)) as [->|Hm]; [unfold n; by rewrite fn_lookup_insert|].
    unfold n in *. rewrite fn_lookup_insert_ne by done.
    destruct (Hst (2 * m)) as [_ [[_ ?]| ->]]; [lia|]. destruct (Hst (2 * m + 1)) as [_ [[_ ?]| ->]]; [lia|done].
  - intros b'. cbn [a_data]. destruct w; [apply ts_same_data; by apply Hsame|apply ts_data].
  - apply ts_blockno.
  - intros b'. rewrite ts_req. cbn [a_req]. by destruct Hc as [->| ->].
Qed.
End transfer_refines.

Lemma device_refines v d v' d' :
  inv v d -> dev_spec v d v' d' -> inv v' d' /\ astep (abs v d) (abs v' d').
Proof.
  intros I Hs. destruct Hs as [v d|v d h Hne Hh|v d h pre post r f code st l Hb Hr Hf Ho|v d h pre post Hd|v d E|v d h v' d' Hh Hc].
  - split; [done|]. by apply a_stutter.
  - split; [by apply fetch_inv|]. by apply a_stutter.
  - destruct (transfer_call v d I h pre post Hb r Hr) as (b & w & i1 & i2 & a & Hp & Hw & Hd & Hst & ->).
    cbn [rq_buf rq_status block_request] in *.
    assert (ibuf f = Some b) as ->.
    { pose proof (wr_info _ _ _ _ _ _ Hw) as Hi. rewrite Hf in Hi. by injection Hi. }
    destruct (iv_buf _ _ I _ _ Hp) as [_ Hlen]. destruct Ho as [[Hc Ho]|[Hc Ho]].
    + destruct (carried_out_ok _ _ _ _ _ _ _ _ (iv_store _ _ I) Hlen Ho) as [H1 H2].
      split; [by apply (transfer_inv v d I h pre post Hb b w i1 i2 a Hp Hw Hd); [lia|..]|].
      by apply (carried_refines v d I h pre post b w i1 i2 a Hp Hw Hst).
    + destruct Ho as (H1 & H2 & H3) eqn:E. split.
      * apply (transfer_inv v d I h pre post Hb b w i1 i2 a Hp Hw Hd); [lia|intros x; apply H3|lia].
      * by apply (failed_refines v d I h pre post b w i1 i2 a Hp Hw Hst).
  - split; [by apply wires_inv, report_inv|]. by apply a_stutter.
  - split; [by apply wires_inv|]. by apply a_stutter.
  - destruct (iv_heads _ _ I h) as (b & w & i1 & i2 & a & Hp).
    { unfold todo. rewrite !elem_of_app. left. by right. }
    destruct (iv_place _ _ I _ _ Hp) as [Hw _]. by rewrite (chain_written _ _ _ _ _ _ Hw) in Hc.
Qed.

End VirtioInv.
