(* ===== verification/VirtioSpec.v ===== *)
(** * The disk driver: what its callers rely on

    Every step of the driver, the device and the callers makes a step of the
    abstract disk of [VirtioInv]; the driver never panics unless the device
    reports an error, never leaves a call asleep whose wait is over, and with
    a device that works every call can finish. *)

From stdpp Require Import functions.
From S2P Require Import Prelude Virtio VirtioInv.

Module VirtioSpec.
Import Virtio VirtioInv.

(** ** The steps of the driver *)

Lemma stutter v d d' :
  (forall b, b_data (bufs d' b) = b_data (bufs d b)) ->
  (forall b, b_blockno (bufs d' b) = b_blockno (bufs d b)) ->
  (forall b, asked d' <$> places d' !! b = asked d <$> places d !! b) ->
  astep (abs v d) (abs v d').
Proof. intros H1 H2 H3. by apply a_stutter. Qed.

(** Moving the call for [b] without a change of its outcome. *)
Lemma moved_asked d b p q b' :
  places d !! b = Some p -> asked d q = asked d p ->
  asked d <$> <[b := q]> (places d) !! b' = asked d <$> places d !! b'.
Proof.
  intros Hp E. destruct (decide (b' = b)) as [->|]; [by rewrite lookup_insert_eq, Hp; cbn; rewrite E|].
  by rewrite lookup_insert_ne.
Qed.

Lemma woken_asked d pl pl' b : maybe_woken pl pl' -> asked d <$> pl' !! b = asked d <$> pl !! b.
Proof.
  intros [->| ->]; [done|]. rewrite lookup_fmap. destruct (pl !! b); cbn; [|done]. by rewrite asked_woken.
Qed.

Lemma fill_refines v d b n l :
  inv v d -> places d !! b = None ->
  let d' := set_bufs (<[b := {| b_blockno := n; b_disk := b_disk (bufs d b); b_data := l |}]> (bufs d)) d in
  inv v d' /\ astep (abs v d) (abs v d').
Proof.
  intros I Hb. split; [by apply fill_inv|]. apply (a_fill _ _ b n l).
  - cbn. by rewrite Hb.
  - split; [done|]. split; [|split; [|done]]; intros b'; cbn;
      (destruct (decide (b' = b)) as [->|]; [by rewrite !fn_lookup_insert|by rewrite !fn_lookup_insert_ne]).
Qed.

Lemma call_refines v d b w :
  inv v d -> places d !! b = None ->
  0 <= b_blockno (bufs d b) < 2 ^ 31 -> length (b_data (bufs d b)) = 1024%nat ->
  let d' := set_places (<[b := Allocating w false]> (places d)) d in
  inv v d' /\ astep (abs v d) (abs v d').
Proof.
  intros I Hb Hn Hl. split; [by apply call_inv|]. apply (a_call _ _ b w); [cbn; by rewrite Hb|].
  split; [done|]. split; [done|]. split; [done|]. intros b'. cbn.
  destruct (decide (b' = b)) as [->|].
  - by rewrite lookup_insert_eq, fn_lookup_insert.
  - by rewrite lookup_insert_ne, fn_lookup_insert_ne.
Qed.

Lemma formatted_refines v d b w i0 i1 i2 :
  inv v d -> places d !! b = Some (Allocating w false) -> vdisk_lock d = None ->
  NoDup [i0; i1; i2] -> (forall i, i ∈ [i0; i1; i2] -> free d !! i = Some true) ->
  inv v (formatted b w i0 i1 i2 d) /\ astep (abs v d) (abs v (formatted b w i0 i1 i2 d)).
Proof.
  intros I Hb Hl Hn Hf. split; [by apply formatted_inv|]. apply stutter.
  - intros b'. cbn. destruct (decide (b' = b)) as [->|]; [by rewrite fn_lookup_insert|by rewrite fn_lookup_insert_ne].
  - intros b'. cbn. destruct (decide (b' = b)) as [->|]; [by rewrite fn_lookup_insert|by rewrite fn_lookup_insert_ne].
  - intros b'. cbn [formatted places]. destruct (decide (b' = b)) as [->|].
    + rewrite lookup_insert_eq, Hb. cbn. unfold outcome_at. by rewrite (fm_status d b w i0 i1 i2).
    + rewrite lookup_insert_ne by done. destruct (places d !! b') as [p|] eqn:Hp; [|done]. cbn. f_equal.
      apply asked_same. intros i Hi. unfold status_at.
      destruct (fm_other d b w i0 i1 i2 Hn Hf i) as (_ & _ & _ & ->); [|done].
      intros Hin. assert (owner d b' i) as Ho%(owner_taken v d I) by by exists p. by rewrite Hf in Ho.
Qed.

Lemma returned_refines v d b w i0 i1 i2 a :
  inv v d -> places d !! b = Some (Waiting w i0 i1 i2 a) -> vdisk_lock d = None -> b_disk (bufs d b) <> 1 ->
  inv v (returned b i0 i1 i2 d) /\ astep (abs v d) (abs v (returned b i0 i1 i2 d)).
Proof.
  intros I Hb Hl Hd. split; [by eapply returned_inv|]. apply (a_return _ _ b w).
  - cbn. rewrite Hb. cbn. destruct (iv_place _ _ I _ _ Hb) as [_ [[? _]|[[? _]|(_ & _ & Hs & _)]]]; [done..|].
    unfold outcome_at. by rewrite Hs.
  - split; [done|]. split; [done|]. split; [done|]. intros b'. cbn.
    destruct (decide (b' = b)) as [->|].
    + by rewrite lookup_delete_eq, fn_lookup_insert.
    + rewrite lookup_delete_ne, fn_lookup_insert_ne, lookup_fmap by done.
      destruct (places d !! b') as [p|]; [|done]. cbn. rewrite asked_woken. f_equal.
      apply asked_same. intros i _. unfold status_at. cbn. destruct (decide (i = i0)) as [->|].
      * rewrite list_lookup_alter_eq. by destruct (info d !! i0).
      * by rewrite list_lookup_alter_ne.
Qed.

Lemma completed_refines v d b w h i1 i2 a :
  inv v d -> places d !! b = Some (Waiting w h i1 i2 a) -> written d b w h i1 i2 -> status_at d h = 0 ->
  queue (used d) (used_idx d) (dev_idx d) = h :: queue (used d) (u16 (used_idx d + 1)) (dev_idx d) ->
  inv v (completed b d) /\ astep (abs v d) (abs v (completed b d)).
Proof.
  intros I Hp Hw Hs Eq. split; [by eapply completed_inv|]. apply stutter.
  - intros b'. cbn. destruct (decide (b' = b)) as [->|]; [by rewrite fn_lookup_insert|by rewrite fn_lookup_insert_ne].
  - intros b'. cbn. destruct (decide (b' = b)) as [->|]; [by rewrite fn_lookup_insert|by rewrite fn_lookup_insert_ne].
  - intros b'. cbn. destruct (decide (b' = b)) as [->|]; [|by rewrite lookup_alter_ne].
    rewrite lookup_alter_eq, Hp. done.
Qed.

(** Every event of the driver keeps the invariant and is a step of the
    abstract disk; it panics only over a request that failed. *)
Definition good (v : dview) (d : disk) (r : res disk unit) : Prop :=
  match r with
  | Ok _ d' => inv v d' /\ astep (abs v d) (abs v d')
  | Stop (SBlock s) => s = "not enabled"%string \/ s = "vdisk_lock"%string
  | Stop (SPanic s) => s = "virtio_disk_intr status"%string /\ exists b w, a_req (abs v d) b = Some (w, Failed)
  | Stop (SFault _) => False
  end.

Lemma at_place_good v d b f : good v d (f (places d !! b) d) -> good v d (at_place b f d).
Proof. done. Qed.

Lemma acquire_blocked h d l {B} (k : unit -> M disk B) :
  vdisk_lock d = Some l -> bind (acquire h) k d = Stop (SBlock "vdisk_lock").
Proof. intros E. unfold acquire, bind, gets. by rewrite E. Qed.

Lemma alloc_good v d b w :
  inv v d -> places d !! b = Some (Allocating w false) -> good v d (rw_alloc b w d).
Proof.
  intros I Hb. destruct (vdisk_lock d) as [l|] eqn:Hl.
  { unfold rw_alloc. rewrite (acquire_blocked _ _ _ _ Hl). by right. }
  destruct (rw_alloc_run d b w Hl) as [(i0 & i1 & i2 & Hn & Hf & ->)|[Hn (ds & pl & H1 & H2 & H3 & ->)]].
  - by apply formatted_refines.
  - split; [by apply sleep_alloc_inv|]. apply stutter; [done..|]. intros b'. cbn.
    destruct (decide (b' = b)) as [->|].
    + by rewrite lookup_insert_eq, Hb.
    + rewrite lookup_insert_ne by done. exact (woken_asked d _ _ b' H3).
Qed.

Lemma publish_good v d b w i0 i1 i2 :
  inv v d -> places d !! b = Some (Publishing w i0 i1 i2) -> good v d (rw_publish b w i0 i1 i2 d).
Proof.
  intros I Hb. destruct (iv_place _ _ I _ _ Hb) as (_ & Hd & _). rewrite rw_publish_run by done.
  split; [by apply published_inv|]. apply stutter; [done..|]. intros b'. exact (moved_asked d b _ (Waiting w i0 i1 i2 true) b' Hb eq_refl).
Qed.

Lemma resume_good v d b w i0 i1 i2 a :
  inv v d -> places d !! b = Some (Waiting w i0 i1 i2 a) -> good v d (rw_resume b w i0 i1 i2 d).
Proof.
  intros I Hb. destruct (vdisk_lock d) as [l|] eqn:Hl.
  { unfold rw_resume. rewrite (acquire_blocked _ _ _ _ Hl). by right. }
  destruct (decide (b_disk (bufs d b) = 1)) as [Hd|Hd].
  - assert (rw_resume b w i0 i1 i2 d = Ok tt (set_places (<[b := Waiting w i0 i1 i2 true]> (places d)) d)) as ->.
    { unfold rw_resume. rewrite (bind_ok _ _ _ _ _ (acquire_run (ByCall b) d Hl)).
      unfold rw_wait, bind, get. cbn [bufs set_vdisk_lock]. rewrite Hd. unfold release, modify. cbn. f_equal. by apply disk_eq. }
    split; [by eapply resleep_inv|]. apply stutter; [done..|]. intros b'. exact (moved_asked d b _ (Waiting w i0 i1 i2 true) b' Hb eq_refl).
  - destruct (iv_place _ _ I _ _ Hb) as [Hw _]. rewrite rw_return_run by done. by eapply returned_refines.
Qed.

Lemma lock_good v d l :
  inv v d -> (forall b, vdisk_lock d <> Some (ByCall b)) -> (forall b, l <> Some (ByCall b)) ->
  good v d (Ok tt (set_vdisk_lock l d)).
Proof. intros I H1 H2. split; [by apply lock_inv|]. by apply stutter. Qed.

(** The handler has started. *)
Definition entered (d : disk) : disk :=
  interrupt_ack (Z.land (interrupt_status (wires d)) 3) (set_vdisk_lock (Some ByIntr) (take_irq d)).

Lemma intr_enter_run d : vdisk_lock d = None -> (modify take_irq ;; intr_enter) d = Ok tt (entered d).
Proof.
  intros Hl. unfold intr_enter, acquire, bind, modify, gets. cbn [vdisk_lock take_irq set_wires]. by rewrite Hl.
Qed.

Lemma entered_good v d : inv v d -> vdisk_lock d = None -> good v d (Ok tt (entered d)).
Proof.
  intros I Hl. split; [|by apply stutter].
  apply wires_inv, lock_inv; [by apply wires_inv| |done]. intros b. cbn. by rewrite Hl.
Qed.

Lemma intr_good v d : inv v d -> vdisk_lock d = Some ByIntr -> good v d (intr_loop d).
Proof.
  intros I Hl. destruct (decide (used_idx d = dev_idx d)) as [E|Hne].
  - assert (intr_loop d = Ok tt (set_vdisk_lock None d)) as ->.
    { unfold intr_loop, bind, get. apply Z.eqb_eq in E. by rewrite E. }
    apply lock_good; [done| |done]. intros b. by rewrite Hl.
  - destruct (intr_loop_run v d I Hne) as (b & w & h & i1 & i2 & a & Hp & Hw & Hs & Eq & ->).
    destruct (Z.eqb_spec (status_at d h) 0) as [E|E]; [by eapply completed_refines|].
    split; [done|]. exists b, w. cbn. rewrite Hp. cbn. unfold outcome_at, outcome_of.
    by repeat case_if; try lia.
Qed.

Lemma drv_good v d e : inv v d -> good v d (drv_step e d).
Proof.
  intros I. destruct e as [b n l|b w|b|b|b| | |n]; cbn [drv_step]; try apply at_place_good.
  - destruct (places d !! b) eqn:Hb; [by left|]. by apply fill_refines.
  - destruct (places d !! b) eqn:Hb; [by left|]. unfold bind, gets. case_if_as E; [|by left].
    apply call_refines; try done. unfold BSIZE in *. lia.
  - destruct (places d !! b) as [[w []| |]|] eqn:Hb; try by left. by apply alloc_good.
  - destruct (places d !! b) as [[|w i0 i1 i2|]|] eqn:Hb; try by left. by apply publish_good.
  - destruct (places d !! b) as [[| |w i0 i1 i2 []]|] eqn:Hb; try by left. by eapply resume_good.
  - destruct (vdisk_lock d) as [l|] eqn:Hl.
    + unfold intr_enter, acquire, bind, modify, gets. cbn [vdisk_lock take_irq set_wires]. rewrite Hl. by right.
    + rewrite intr_enter_run by done. by apply entered_good.
  - unfold bind, gets. destruct (vdisk_lock d) as [[]|] eqn:Hl; try by left. by apply intr_good.
  - by left.
Qed.

(** ** The driver and the device together *)

(** The state [virtio_disk_init] leaves: all pages zero, all descriptors free. *)
Definition init_disk (bs : nat -> vbuf) : disk := {|
  desc := replicate NUM no_desc; avail := replicate NUM O; avail_idx := 0; used := replicate NUM O; dev_idx := 0;
  free := replicate NUM true; used_idx := 0; info := replicate NUM {| ibuf := None; status := 0 |};
  ops := replicate NUM {| type := 0; reserved := 0; sector := 0 |}; bufs := bs; places := ∅; vdisk_lock := None;
  wires := {| queue_notify := false; interrupt_status := 0; irq := false |};
|}.

Definition idle_view (v : dview) : Prop :=
  dv_last v = 0 /\ dv_busy v = [] /\ dv_done v = [] /\ forall x, length (dv_store v x) = 512%nat.

Lemma init_disk_inv v bs : idle_view v -> inv v (init_disk bs).
Proof.
  intros (Hl & Hb & Hd & Hs).
  assert (todo v (init_disk bs) ++ finished v (init_disk bs) = []) as E.
  { unfold todo, finished. rewrite Hl, Hb, Hd. done. }
  split; try done; rewrite ?E.
  - rewrite Hl. unfold index_ok. cbn. lia.
  - constructor.
  - intros h Hh. by apply not_elem_of_nil in Hh.
  - intros b b' i (p & Hp & _). done.
  - intros i Hi. cbn [free init_disk] in Hi. by apply lookup_replicate in Hi as [? _].
Qed.

(** A descriptor that is not free belongs to a call. *)
Lemma all_free v d : inv v d -> (forall b i, ~ owner d b i) -> free d = replicate NUM true.
Proof.
  intros I Hno. apply list_eq. intros i. destruct (decide (i < NUM)%nat) as [Hi|Hi].
  - rewrite lookup_replicate_2 by done. destruct (lookup_lt_is_Some_2 (free d) i) as [[] Hf]; [|done|].
    + by rewrite (iv_freelen _ _ I).
    + destruct (iv_free _ _ I i Hf) as [b Hb]. by apply Hno in Hb.
  - rewrite !lookup_ge_None_2; [done|rewrite length_replicate; lia|rewrite (iv_freelen _ _ I); lia].
Qed.

Section Machine.
Context {D : Type} `{BlkDeviceLaws D}.
Implicit Types (s : machine D).

Definition view (s : machine D) : dview := dev_view (dev s).
Definition spec (s : machine D) : adisk := abs (view s) (drv s).

Inductive reachable : machine D -> Prop :=
| reach_init x bs : idle_view (dev_view x) -> reachable {| drv := init_disk bs; dev := x |}
| reach_step e s s' : reachable s -> step e s = Ok tt s' -> reachable s'.

Definition sound (s : machine D) (r : res (machine D) unit) : Prop :=
  match r with
  | Ok _ s' => inv (view s') (drv s') /\ astep (spec s) (spec s')
  | Stop (SBlock m) => m = "not enabled"%string \/ m = "vdisk_lock"%string
  | Stop (SPanic m) => m = "virtio_disk_intr status"%string /\ exists b w, a_req (spec s) b = Some (w, Failed)
  | Stop (SFault _) => False
  end.

Lemma step_sound e s : inv (view s) (drv s) -> sound s (step e s).
Proof.
  intros I. pose proof (drv_good (view s) (drv s) e I) as Hg.
  destruct e as [b n l|b w|b|b|b| | |n]; cbn [step];
    try (destruct (drv_step _ (drv s)) as [[] d'|[]]; exact Hg).
  destruct (dev_move n (dev s) (drv s)) as [[x d']|] eqn:Hm; [|by left].
  apply dev_law in Hm. by apply device_refines.
Qed.

Lemma reachable_disk_inv s : reachable s -> inv (view s) (drv s).
Proof.
  induction 1 as [x bs Hx|e s s' _ IH Hs]; [by apply init_disk_inv|].
  pose proof (step_sound e s IH) as Hg. rewrite Hs in Hg. apply Hg.
Qed.

(** Claim C4: in every state the driver, its device and its callers reach,
    every step is a step of a disk that carries out each call at one moment
    between its beginning and its end: a read fills the buffer with the block
    it names, a write stores the buffer there, nothing else changes, and a
    call returns only when it was carried out. *)
Theorem virtio_refines s e s' : reachable s -> step e s = Ok tt s' -> astep (spec s) (spec s').
Proof.
  intros I%reachable_disk_inv Hs. pose proof (step_sound e s I) as Hg. rewrite Hs in Hg. apply Hg.
Qed.

(** Claim C12: the driver panics only when the device has reported an error, and
    never dereferences a null buffer; a call asleep for descriptors is asleep
    because there are too few, and a call asleep for its buffer because the
    device still has it, so no wakeup is lost; and when no call is in
    progress all descriptors are free. *)
Theorem virtio_safe s :
  reachable s ->
  (forall e m, step e s = Stop (SPanic m) ->
    m = "virtio_disk_intr status"%string /\ exists b w, a_req (spec s) b = Some (w, Failed)) /\
  (forall e m, step e s <> Stop (SFault m)) /\
  (forall b w, places (drv s) !! b = Some (Allocating w true) -> (nfree (drv s) < 3)%nat) /\
  (forall b w i0 i1 i2, places (drv s) !! b = Some (Waiting w i0 i1 i2 true) -> b_disk (bufs (drv s) b) = 1) /\
  (places (drv s) = ∅ -> free (drv s) = replicate NUM true).
Proof.
  intros I%reachable_disk_inv. split_and!.
  - intros e m Hs. pose proof (step_sound e s I) as Hg. by rewrite Hs in Hg.
  - intros e m Hs. pose proof (step_sound e s I) as Hg. by rewrite Hs in Hg.
  - intros b w Hp. by apply (iv_place _ _ I _ _ Hp).
  - intros b w i0 i1 i2 Hp. destruct (iv_place _ _ I _ _ Hp) as [_ [[? _]|[[? _]|(_ & _ & _ & ?)]]]; done.
  - intros Hp. apply (all_free (view s)); [done|]. intros b i (p & Hb & _). by rewrite Hp in Hb.
Qed.
End Machine.

End VirtioSpec.
