(* ===== verification/VirtioLive.v ===== *)
(** * The disk driver: every call can finish

    A measure of the work left, which some step of the driver or the device
    always reduces while a call is in progress: the driver, its rings and its
    sleeping calls never block each other for good.  The device has to get on
    only with requests it was notified of, and the handler runs only for an
    interrupt the device has raised, which it does only after the last one was
    acknowledged. *)

From stdpp Require Import functions.
From S2P Require Import Prelude Virtio VirtioInv VirtioSpec.

Module VirtioLive.
Import Virtio VirtioInv VirtioSpec.

(** ** A device that works *)

(** What a device has left to do. *)
Definition dev_load (v : dview) (d : disk) : Z :=
  3 * u16 (avail_idx d - dv_last v) + 2 * Z.of_nat (length (dv_busy v)) + Z.of_nat (length (dv_done v)).

(** The device gets on with the requests it is given: it takes those it was
    notified of, carries out or gives up what it has taken, and reports it. *)
Class BlkDeviceLive (D : Type) `{BlkDeviceLaws D} : Prop := {
  dev_live : forall x d, length (avail d) = NUM -> 0 < dev_load (dev_view x) d ->
    (dv_last (dev_view x) <> avail_idx d -> queue_notify (wires d) = true) ->
    exists n x' d', dev_move n x d = Some (x', d') /\ dev_load (dev_view x') d' < dev_load (dev_view x) d;
}.

(** ** The work left *)

Definition weight (p : place) : Z :=
  match p with
  | Allocating _ _ => 20
  | Publishing _ _ _ _ => 15
  | Waiting _ _ _ _ _ => 1
  end.

Definition total (pl : gmap nat place) : Z := map_fold (fun _ p n => weight p + n) 0 pl.

Lemma total_delete pl b p : pl !! b = Some p -> total pl = weight p + total (delete b pl).
Proof. intros Hp. unfold total. apply (map_fold_delete_L (fun _ p n => weight p + n)); [lia|done]. Qed.

Lemma total_insert pl b p q : pl !! b = Some p -> total (<[b := q]> pl) = total pl - weight p + weight q.
Proof.
  intros Hp. rewrite (total_delete pl b p), (total_delete (<[b := q]> pl) b q); [|apply lookup_insert_eq|done].
  rewrite delete_insert_eq. lia.
Qed.

Lemma total_woken pl : total (woken_free <$> pl) = total pl.
Proof.
  induction pl as [|b p pl Hb IH] using map_ind; [done|].
  rewrite fmap_insert. unfold total in *.
  rewrite !(map_fold_insert_L (fun _ p n => weight p + n)); [|lia|done|lia|by rewrite lookup_fmap, Hb].
  rewrite IH. by destruct p.
Qed.

Lemma total_pos pl : 0 <= total pl.
Proof.
  induction pl as [|b p pl Hb IH] using map_ind; [done|].
  unfold total in *. rewrite (map_fold_insert_L (fun _ p n => weight p + n)); [|lia|done].
  destruct p; cbn [weight]; lia.
Qed.

(** The requests by how far they have got. *)
Definition load (v : dview) (d : disk) : Z :=
  12 * u16 (avail_idx d - dv_last v) + 9 * Z.of_nat (length (dv_busy v)) +
  6 * Z.of_nat (length (dv_done v)) + 3 * u16 (dev_idx d - used_idx d).

(** The handler has to start when there are requests to complete, and to end
    when there are none. *)
Definition turn (d : disk) : Z :=
  match vdisk_lock d with
  | Some ByIntr => if used_idx d =? dev_idx d then 1 else 0
  | _ => if used_idx d =? dev_idx d then 0 else 1
  end.

Definition work (v : dview) (d : disk) : Z := total (places d) + load v d + turn d.

Lemma turn_range d : 0 <= turn d <= 1.
Proof. unfold turn. destruct (vdisk_lock d) as [[]|]; case_if; lia. Qed.

Lemma load_pos v d : 0 <= load v d.
Proof.
  unfold load. pose proof (u16_index (avail_idx d - dv_last v)) as []. pose proof (u16_index (dev_idx d - used_idx d)) as [].
  lia.
Qed.

Lemma work_pos v d : 0 <= work v d.
Proof. unfold work. pose proof (total_pos (places d)). pose proof (load_pos v d). pose proof (turn_range d). lia. Qed.

(** An index moves up. *)
Lemma u16_push lo hi : 0 <= u16 (hi - lo) < 2 ^ 16 - 1 -> u16 (u16 (hi + 1) - lo) = u16 (hi - lo) + 1.
Proof.
  intros Hr. unfold u16 in *. rewrite Zminus_mod_idemp_l.
  replace (hi + 1 - lo) with (hi - lo + 1) by lia. rewrite <- Zplus_mod_idemp_l. apply Z.mod_small. lia.
Qed.

Lemma u16_pop lo hi : 0 < u16 (hi - lo) -> u16 (hi - u16 (lo + 1)) = u16 (hi - lo) - 1.
Proof.
  intros Hr. unfold u16 in *. rewrite Zminus_mod_idemp_r.
  pose proof (Z.mod_pos_bound (hi - lo) (2 ^ 16) ltac:(lia)).
  replace (hi - (lo + 1)) with (hi - lo - 1) by lia. rewrite <- Zminus_mod_idemp_l. apply Z.mod_small. lia.
Qed.

Lemma u16_differ lo hi : index_ok lo -> index_ok hi -> lo <> hi <-> 0 < u16 (hi - lo).
Proof.
  unfold index_ok, u16. intros Hl Hh. pose proof (Z.mod_pos_bound (hi - lo) (2 ^ 16) ltac:(lia)).
  pose proof (Z.div_mod (hi - lo) (2 ^ 16) ltac:(lia)). split.
  - intros Hne. destruct (decide ((hi - lo) mod 2 ^ 16 = 0)); lia.
  - intros Hp ->. rewrite Z.sub_diag in Hp. by vm_compute in Hp.
Qed.

(** ** Every step of the driver on the way to the end of a call reduces it *)

Lemma queue_small v d :
  inv v d -> 0 <= u16 (avail_idx d - dv_last v) <= 8 /\ 0 <= u16 (dev_idx d - used_idx d) <= 8.
Proof.
  intros I. pose proof (flight_length v d I) as Hf. unfold todo, finished in Hf. rewrite !length_app in Hf.
  pose proof (queue_length (avail d) (dv_last v) (avail_idx d)).
  pose proof (queue_length (used d) (used_idx d) (dev_idx d)). unfold NUM in Hf. lia.
Qed.

Lemma device_work v d v' d' :
  inv v d -> dev_spec v d v' d' -> dev_load v' d' < dev_load v d -> work v' d' < work v d.
Proof.
  intros I Hs Hlt. pose proof (queue_small v d I) as [Hq1 Hq2]. destruct (iv_index _ _ I) as (Hi1 & Hi2 & Hi3 & Hi4).
  assert (forall d1 d2, vdisk_lock d2 = vdisk_lock d1 -> turn d2 <= turn d1 + 1) as Ht.
  { intros d1 d2 _. pose proof (turn_range d1). pose proof (turn_range d2). lia. }
  destruct Hs as [v d|v d h Hne Hh|v d h pre post r f code st l Hb Hr Hf Ho|v d h pre post Hd|v d E|v d h v' d' Hh Hc].
  - lia.
  - apply u16_differ in Hne; [|done..]. unfold work, load. cbn [dv_last dv_busy dv_done].
    rewrite u16_pop, length_app by lia. cbn [length]. lia.
  - unfold work, load. cbn [dv_last dv_busy dv_done]. rewrite Hb, !length_app. cbn. change (turn _) with (turn d) at 1. lia.
  - unfold work, load. cbn [dv_last dv_busy dv_done].
    cbn [places avail_idx used_idx dev_idx raise_irq set_wires set_dev_idx set_used].
    rewrite u16_push, Hd, !length_app by lia. cbn [length].
    pose proof (Ht d (raise_irq (set_dev_idx (u16 (dev_idx d + 1)) (set_used (<[ring_slot (dev_idx d) := h]> (used d)) d))) eq_refl). lia.
  - unfold dev_load in Hlt. cbn in Hlt. lia.
  - destruct (iv_heads _ _ I h) as (b & w & i1 & i2 & a & Hp).
    { unfold todo. rewrite !elem_of_app. left. by right. }
    destruct (iv_place _ _ I _ _ Hp) as [Hw _]. by rewrite (chain_written _ _ _ _ _ _ Hw) in Hc.
Qed.

Lemma publish_work v d b w i0 i1 i2 :
  inv v d -> places d !! b = Some (Publishing w i0 i1 i2) ->
  work v (published b w i0 i1 i2 d) < work v d.
Proof.
  intros I Hp. pose proof (queue_small v d I) as [Hq1 Hq2]. destruct (iv_place _ _ I _ _ Hp) as (_ & _ & _ & _ & Hl & _).
  unfold work, load.
  cbn [published places avail_idx used_idx dev_idx notify set_wires set_vdisk_lock set_places set_avail_idx].
  rewrite (total_insert _ _ _ _ Hp), u16_push by lia. cbn [weight].
  assert (turn (published b w i0 i1 i2 d) = turn d) as ->; [|lia].
  unfold turn. by rewrite Hl.
Qed.

Lemma completed_work v d b :
  inv v d -> used_idx d <> dev_idx d -> is_Some (places d !! b) -> work v (completed b d) < work v d.
Proof.
  intros I Hne [p Hp]. destruct (iv_index _ _ I) as (Hi1 & Hi2 & Hi3 & Hi4).
  apply u16_differ in Hne; [|done..]. unfold work, load.
  cbn [completed places avail_idx used_idx dev_idx set_used_idx set_places set_bufs].
  assert (total (alter woken_buf b (places d)) = total (places d)) as ->.
  { rewrite <- (insert_id _ _ _ Hp) at 1. rewrite alter_insert_eq, (total_insert _ _ _ _ Hp). destruct p; cbn; lia. }
  rewrite u16_pop by done. pose proof (turn_range d). pose proof (turn_range (completed b d)). lia.
Qed.

Lemma returned_work v d b w i0 i1 i2 a :
  places d !! b = Some (Waiting w i0 i1 i2 a) -> vdisk_lock d = None ->
  work v (returned b i0 i1 i2 d) < work v d.
Proof.
  intros Hp Hl. unfold work, load. cbn [returned places avail_idx used_idx dev_idx].
  assert (turn (returned b i0 i1 i2 d) = turn d) as ->.
  { unfold turn. by rewrite Hl. }
  pose proof (total_woken (places d)) as E.
  rewrite (total_delete (woken_free <$> places d) b (Waiting w i0 i1 i2 a)) in E by (by rewrite lookup_fmap, Hp).
  cbn [weight] in E. lia.
Qed.

Lemma formatted_work v d b w i0 i1 i2 :
  places d !! b = Some (Allocating w false) -> vdisk_lock d = None ->
  work v (formatted b w i0 i1 i2 d) < work v d.
Proof.
  intros Hp Hl. unfold work, load. cbn [formatted places avail_idx used_idx dev_idx].
  rewrite (total_insert _ _ _ _ Hp). cbn [weight].
  assert (turn (formatted b w i0 i1 i2 d) = turn d) as ->; [|lia]. unfold turn. by rewrite Hl.
Qed.

(** ** No signal is lost *)

(** The device knows of the requests in its ring; an interrupt is on its way, or
    the handler at work, while there are requests to complete; and one that is
    not acknowledged has not been taken. *)
Record signalled (v : dview) (d : disk) : Prop := {
  sg_notify : dv_last v <> avail_idx d -> queue_notify (wires d) = true;
  sg_irq : used_idx d <> dev_idx d -> irq (wires d) = true \/ vdisk_lock d = Some ByIntr;
  sg_status : interrupt_status (wires d) = 0 \/ interrupt_status (wires d) = 1 /\ irq (wires d) = true;
}.

Lemma init_signalled v bs : idle_view v -> signalled v (init_disk bs).
Proof. intros (Hl & _). split; cbn; [by rewrite Hl|done|by left]. Qed.

(** A step that touches neither the indices nor the signals, nor takes the lock
    from the handler. *)
Lemma signalled_keep v d d' :
  signalled v d -> avail_idx d' = avail_idx d -> used_idx d' = used_idx d -> dev_idx d' = dev_idx d ->
  wires d' = wires d -> (vdisk_lock d = Some ByIntr -> vdisk_lock d' = Some ByIntr) -> signalled v d'.
Proof.
  intros [] E1 E2 E3 E4 Hl. split; rewrite ?E1, ?E2, ?E3, ?E4; try done. intros Hu.
  destruct (sg_irq0 Hu); [by left|right; auto].
Qed.

Lemma published_signalled v d b w i0 i1 i2 :
  signalled v d -> vdisk_lock d = Some (ByCall b) -> signalled v (published b w i0 i1 i2 d).
Proof.
  intros [] Hl. split; cbn; [done| |done]. intros Hu. destruct (sg_irq0 Hu) as [|E]; [by left|congruence].
Qed.

Lemma entered_signalled v d : signalled v d -> signalled v (entered d).
Proof.
  intros []. split; cbn; [done|by right|]. left. by destruct sg_status0 as [->|[-> _]].
Qed.

Lemma device_signalled v d v' d' :
  inv v d -> signalled v d -> dev_spec v d v' d' -> signalled v' d'.
Proof.
  intros I Hg Hs.
  destruct Hs as [v d|v d h Hne Hh|v d h pre post r f code st l Hb Hr Hf Ho|v d h pre post Hd|v d E|v d h v' d' Hh Hc].
  - done.
  - destruct Hg. split; cbn; try done. intros _. by apply sg_notify0.
  - destruct Hg. by split.
  - destruct Hg. split; cbn; [done| |].
    + intros _. left. destruct sg_status0 as [->|[-> ->]]; [by rewrite orb_true_r|done].
    + destruct sg_status0 as [->|[-> ->]]; [right; by rewrite orb_true_r|by right].
  - destruct Hg. split; cbn; try done.
  - destruct (iv_heads _ _ I h) as (b & w & i1 & i2 & a & Hp).
    { unfold todo. rewrite !elem_of_app. left. by right. }
    destruct (iv_place _ _ I _ _ Hp) as [Hw _]. by rewrite (chain_written _ _ _ _ _ _ Hw) in Hc.
Qed.

Lemma intr_signalled v d d' :
  inv v d -> vdisk_lock d = Some ByIntr -> signalled v d -> intr_loop d = Ok tt d' -> signalled v d'.
Proof.
  intros I Hl Hg Hr. destruct (decide (used_idx d = dev_idx d)) as [E|Hne].
  - revert Hr. unfold intr_loop, bind, get. rewrite (proj2 (Z.eqb_eq _ _) E). intros [= <-].
    destruct Hg. split; cbn; try done.
  - destruct (intr_loop_run _ _ I Hne) as (b & w & h & i1 & i2 & a & _ & _ & _ & _ & E). rewrite Hr in E.
    destruct (status_at d h =? 0); [|done]. injection E as ->. destruct Hg. split; cbn; try done. intros _. by right.
Qed.

Lemma resume_signalled v d b w i0 i1 i2 a d' :
  inv v d -> places d !! b = Some (Waiting w i0 i1 i2 a) -> signalled v d ->
  rw_resume b w i0 i1 i2 d = Ok tt d' -> signalled v d'.
Proof.
  intros I Hb Hg Hr. destruct (vdisk_lock d) as [l|] eqn:Hl.
  { revert Hr. unfold rw_resume. by rewrite (acquire_blocked _ _ _ _ Hl). }
  destruct (decide (b_disk (bufs d b) = 1)) as [Hd|Hd].
  - revert Hr. unfold rw_resume. rewrite (bind_ok _ _ _ _ _ (acquire_run (ByCall b) d Hl)).
    unfold rw_wait, bind, get. cbn [bufs set_vdisk_lock]. rewrite Hd. intros [= <-].
    apply (signalled_keep v d); try done. by rewrite Hl.
  - destruct (iv_place _ _ I _ _ Hb) as [Hw _]. rewrite (rw_return_run d b w i0 i1 i2) in Hr by done.
    injection Hr as <-. apply (signalled_keep v d); try done. by rewrite Hl.
Qed.

Lemma drv_signalled v d e d' :
  inv v d -> signalled v d -> drv_step e d = Ok tt d' -> signalled v d'.
Proof.
  intros I Hg. destruct e as [b n l|b w|b|b|b| | |n]; cbn [drv_step]; unfold at_place; try (unfold bind at 1); unfold gets.
  - destruct (places d !! b); [done|]. intros [= <-]. by apply (signalled_keep v d).
  - destruct (places d !! b); [done|]. unfold bind. case_if; [|done]. intros [= <-]. by apply (signalled_keep v d).
  - destruct (places d !! b) as [[w []| |]|]; try done. destruct (vdisk_lock d) as [l|] eqn:Hl.
    { unfold rw_alloc. by rewrite (acquire_blocked _ _ _ _ Hl). }
    destruct (rw_alloc_run d b w Hl) as [(i0 & i1 & i2 & _ & _ & ->)|(_ & ds & pl & _ & _ & _ & ->)];
      intros [= <-]; apply (signalled_keep v d); try done; by rewrite Hl.
  - destruct (places d !! b) as [[|w i0 i1 i2|]|] eqn:Hp; try done.
    destruct (iv_place _ _ I _ _ Hp) as (_ & Hd & _ & _ & Hl & _). rewrite rw_publish_run by done.
    intros [= <-]. by apply published_signalled.
  - destruct (places d !! b) as [[| |w i0 i1 i2 []]|] eqn:Hp; try done. by eapply resume_signalled.
  - intros Hr. destruct (vdisk_lock d) as [l|] eqn:Hl.
    + revert Hr. unfold intr_enter, acquire, bind, modify, gets. cbn [vdisk_lock take_irq set_wires]. by rewrite Hl.
    + pose proof (intr_enter_run d Hl) as E. unfold bind at 1 in E. rewrite Hr in E. injection E as ->.
      by apply entered_signalled.
  - destruct (vdisk_lock d) as [[]|] eqn:Hl; try done. by apply intr_signalled.
  - done.
Qed.

(** ** Progress *)

Section Live.
Context {D : Type} `{BlkDeviceLive D}.
Implicit Types (s : machine D).

Lemma reachable_signalled s : reachable s -> signalled (view s) (drv s).
Proof.
  induction 1 as [x bs Hx|e s s' Hr IH Hs]; [by apply init_signalled|].
  pose proof (reachable_disk_inv s Hr) as I.
  destruct e as [b n l|b w|b|b|b| | |n]; cbn [step] in Hs;
    try (destruct (drv_step _ (drv s)) as [[] d'|] eqn:E; [|done]; injection Hs as <-; by eapply drv_signalled).
  destruct (dev_move n (dev s) (drv s)) as [[x d']|] eqn:Hm; [|done]. injection Hs as <-.
  apply dev_law in Hm. by eapply device_signalled.
Qed.

(** Steps of the calls in progress, of the handler when there is an interrupt,
    and of the device. *)
Definition internal (s : machine D) (e : event) : Prop :=
  match e with
  | ESetBuf _ _ _ | ECall _ _ => False
  | EIntr => irq (wires (drv s)) = true
  | _ => True
  end.

Definition has_failed (s : machine D) : Prop := exists b w, a_req (spec s) b = Some (w, Failed).

Definition reduces (s : machine D) : Prop :=
  exists e s', internal s e /\ step e s = Ok tt s' /\ work (view s') (drv s') < work (view s) (drv s).

Lemma drv_reduces e s d' :
  internal s e -> (forall n, e <> EDevice n) -> drv_step e (drv s) = Ok tt d' ->
  work (view s) d' < work (view s) (drv s) -> reduces s.
Proof.
  intros He Hn Hd Hw. exists e, {| drv := d'; dev := dev s |}. split_and!; [done| |done].
  destruct e; cbn [step]; try by rewrite Hd. by destruct (Hn n).
Qed.

(** The lock is taken: its holder goes on. *)
Lemma holder_reduces s l :
  inv (view s) (drv s) -> vdisk_lock (drv s) = Some l -> has_failed s \/ reduces s.
Proof.
  intros I Hl. destruct l as [b|].
  - right. destruct (iv_lock _ _ I b Hl) as (w & i0 & i1 & i2 & Hp).
    destruct (iv_place _ _ I _ _ Hp) as (_ & Hd & _).
    apply (drv_reduces (EPublish b) s (published b w i0 i1 i2 (drv s))); try done.
    + cbn. unfold at_place, bind, gets. rewrite Hp. by apply rw_publish_run.
    + by apply publish_work.
  - destruct (decide (used_idx (drv s) = dev_idx (drv s))) as [E|Hne].
    + right. apply Z.eqb_eq in E.
      apply (drv_reduces EIntrLoop s (set_vdisk_lock None (drv s))); try done.
      * cbn. unfold bind, gets. rewrite Hl. unfold intr_loop, bind, get. by rewrite E.
      * unfold work, turn, load. cbn [vdisk_lock set_vdisk_lock used_idx dev_idx avail_idx places]. rewrite Hl, E. lia.
    + destruct (intr_loop_run _ _ I Hne) as (b & w & h & i1 & i2 & a & Hp & _ & Hs & _ & Hr).
      destruct (Z.eqb_spec (status_at (drv s) h) 0) as [E|E].
      * right. apply (drv_reduces EIntrLoop s (completed b (drv s))); try done.
        -- cbn. unfold bind, gets. rewrite Hl. exact Hr.
        -- by apply completed_work.
      * left. exists b, w. cbn. rewrite Hp. cbn. unfold outcome_at, outcome_of. repeat case_if; try lia. done.
Qed.

(** Nothing is with the device and nothing is to be completed: a call that
    waits can return, or one that looks for descriptors finds them. *)
Lemma quiet_reduces s :
  inv (view s) (drv s) -> vdisk_lock (drv s) = None -> todo (view s) (drv s) ++ finished (view s) (drv s) = [] ->
  places (drv s) <> ∅ -> reduces s.
Proof.
  intros I Hl Hf Hne.
  destruct (decide (map_Forall (fun _ p => pidx p = []) (places (drv s)))) as [Hall|Hex].
  - destruct (map_choose _ Hne) as (b & p & Hp). specialize (Hall b p Hp) as Hi.
    destruct p as [w a| |]; [|done..].
    assert (nfree (drv s) = 8%nat) as Hn.
    { unfold nfree. rewrite (all_free (view s)); [done..|]. intros b' i (q & Hq & Hin).
      rewrite (Hall b' q Hq) in Hin. by apply not_elem_of_nil in Hin. }
    destruct a. { pose proof (iv_place _ _ I _ _ Hp eq_refl). lia. }
    destruct (rw_alloc_run (drv s) b w Hl) as [(i0 & i1 & i2 & _ & _ & Hr)|[? _]]; [|lia].
    apply (drv_reduces (EAlloc b) s (formatted b w i0 i1 i2 (drv s))); try done.
    + cbn. unfold at_place, bind, gets. by rewrite Hp.
    + by apply formatted_work.
  - apply map_not_Forall in Hex as (b & p & Hp & Hi); [|apply _].
    destruct p as [w a|w i0 i1 i2|w i0 i1 i2 a]; [done|..].
    + destruct (iv_place _ _ I _ _ Hp) as (_ & _ & _ & _ & E & _). by rewrite Hl in E.
    + destruct (iv_place _ _ I _ _ Hp) as [Hw Hwa].
      assert (b_disk (bufs (drv s) b) <> 1 /\ a = false) as [Hd ->].
      { apply app_eq_nil in Hf as [E1 E2]. destruct Hwa as [(_ & Ht & _)|[(_ & Ht & _)|(Hd & _ & _ & ->)]].
        - rewrite E1 in Ht. by apply not_elem_of_nil in Ht.
        - rewrite E2 in Ht. by apply not_elem_of_nil in Ht.
        - split; [lia|done]. }
      apply (drv_reduces (EResume b) s (returned b i0 i1 i2 (drv s))); try done.
      * cbn. unfold at_place, bind, gets. rewrite Hp. by apply rw_return_run.
      * by eapply returned_work.
Qed.

Lemma progress s :
  inv (view s) (drv s) -> signalled (view s) (drv s) -> places (drv s) <> ∅ -> has_failed s \/ reduces s.
Proof.
  intros I Hg Hne. destruct (vdisk_lock (drv s)) as [l|] eqn:Hl; [by eapply holder_reduces|]. right.
  destruct (iv_index _ _ I) as (Hi1 & Hi2 & Hi3 & Hi4).
  destruct (decide (0 < dev_load (view s) (drv s))) as [Hload|Hload].
  { destruct (dev_live (dev s) (drv s) (iv_avail _ _ I) Hload (sg_notify _ _ Hg)) as (n & x' & d' & Hm & Hlt).
    exists (EDevice n), {| drv := d'; dev := x' |}. split_and!; [done|cbn; by rewrite Hm|].
    apply (device_work (view s)); [done|by eapply dev_law|done]. }
  unfold dev_load in Hload. pose proof (u16_index (avail_idx (drv s) - dv_last (view s))) as [Hq _].
  destruct (decide (used_idx (drv s) = dev_idx (drv s))) as [E|Hu].
  - apply quiet_reduces; try done. unfold todo, finished.
    assert (dv_busy (view s) = []) as -> by (apply length_zero_iff_nil; lia).
    assert (dv_done (view s) = []) as -> by (apply length_zero_iff_nil; lia).
    rewrite E, queue_nil. assert (queue (avail (drv s)) (dv_last (view s)) (avail_idx (drv s)) = []) as ->; [|done].
    apply length_zero_iff_nil. pose proof (queue_length (avail (drv s)) (dv_last (view s)) (avail_idx (drv s))). lia.
  - apply (drv_reduces EIntr s (entered (drv s))); try done.
    + cbn. destruct (sg_irq _ _ Hg Hu) as [|E]; [done|congruence].
    + by apply intr_enter_run.
    + apply Z.eqb_neq in Hu. unfold work, turn, load.
      cbn [entered interrupt_ack take_irq set_wires vdisk_lock set_vdisk_lock used_idx dev_idx avail_idx places].
      rewrite Hl, Hu. lia.
Qed.

(** Several such steps. *)
Definition goes_on : relation (machine D) := rtc (fun s s' => exists e, internal s e /\ step e s = Ok tt s').

Lemma goes_to_end n s :
  reachable s -> work (view s) (drv s) <= Z.of_nat n ->
  exists s', goes_on s s' /\ reachable s' /\ (has_failed s' \/ places (drv s') = ∅).
Proof.
  revert s. induction n as [|n IH]; intros s Hr Hn.
  all: destruct (decide (places (drv s) = ∅)) as [E|Hne]; [exists s; split_and!; [apply rtc_refl|done|by right]|].
  all: destruct (progress s (reachable_disk_inv s Hr) (reachable_signalled s Hr) Hne) as [Hf|(e & s1 & He & Hs & Hlt)];
    [exists s; split_and!; [apply rtc_refl|done|by left]|].
  - pose proof (work_pos (view s1) (drv s1)). lia.
  - destruct (IH s1) as (s' & Hgo & Hr' & Hend); [by eapply reach_step|lia|].
    exists s'. split_and!; try done. eapply rtc_l; [|exact Hgo]. by exists e.
Qed.

(** Claim C13: from every reachable state, with a device that gets on with the
    requests it is notified of, and raises an interrupt when it has finished one
    and the last interrupt was acknowledged, the driver, the handler started by
    such interrupts and the device can go on, without any new call, until every
    call in progress has returned, unless the device reports an error: no
    notification or interrupt is lost, and the lock, the rings and the sleeping
    calls never deadlock. *)
Theorem calls_finish s :
  reachable s -> exists s', goes_on s s' /\ (has_failed s' \/ places (drv s') = ∅).
Proof.
  intros Hr. destruct (goes_to_end (Z.to_nat (work (view s) (drv s))) s Hr) as (s' & Hgo & _ & Hend).
  - pose proof (work_pos (view s) (drv s)). lia.
  - by exists s'.
Qed.
End Live.

(** ** A disk in memory *)

(** It takes a request it was notified of when told 0, carries the oldest out
    when told 1, reports the oldest when told 2, and rests when told 3. *)
Definition ram_transfer (v : dview) (d : disk) (h : nat) (post : list nat) : dview * disk :=
  match chain d h with
  | None => ({| dv_last := dv_last v; dv_busy := post; dv_done := dv_done v; dv_store := dv_store v |}, d)
  | Some r =>
      let n := rq_len r / 512 in
      let old := b_data (bufs d (rq_buf r)) in
      let st := if rq_write r then write_sectors (dv_store v) (rq_sector r) n old else dv_store v in
      let l := if rq_write r then old
        else read_sectors (dv_store v) (rq_sector r) n ++ drop (Z.to_nat (rq_len r)) old in
      let b := default None (ibuf <$> info d !! rq_status r) in
      ({| dv_last := dv_last v; dv_busy := post; dv_done := dv_done v ++ [h]; dv_store := st |},
       set_bufs (<[rq_buf r := with_data l (bufs d (rq_buf r))]> (bufs d))
         (set_info (<[rq_status r := {| ibuf := b; status := 0 |}]> (info d)) d))
  end.

Definition ram_move (n : nat) (v : dview) (d : disk) : option (dview * disk) :=
  match n with
  | O =>
      if (dv_last v =? avail_idx d) || negb (queue_notify (wires d)) then None
      else
        h ← avail d !! ring_slot (dv_last v);
        Some ({| dv_last := u16 (dv_last v + 1); dv_busy := dv_busy v ++ [h]; dv_done := dv_done v;
                 dv_store := dv_store v |}, d)
  | 1%nat => match dv_busy v with [] => None | h :: post => Some (ram_transfer v d h post) end
  | 2%nat =>
      match dv_done v with
      | [] => None
      | h :: post =>
          Some ({| dv_last := dv_last v; dv_busy := dv_busy v; dv_done := post; dv_store := dv_store v |},
                raise_irq (set_dev_idx (u16 (dev_idx d + 1)) (set_used (<[ring_slot (dev_idx d) := h]> (used d)) d)))
      end
  | _ => if dv_last v =? avail_idx d then Some (v, unnotify d) else None
  end.

#[global] Instance ram_device : BlkDevice dview := { dev_move := ram_move }.

Lemma chain_status d h r : chain d h = Some r -> is_Some (info d !! rq_status r).
Proof.
  unfold chain. destruct (desc d !! h) as [d0|]; [|done]. cbn [mbind option_bind].
  destruct (desc d !! vnext d0) as [d1|]; [|done]. cbn [mbind option_bind].
  destruct (desc d !! vnext d1) as [d2|]; [|done]. cbn [mbind option_bind].
  destruct (addr d0); try done. destruct (addr d1); try done. destruct (addr d2) as [| | |j]; try done.
  destruct (ops d !! i) as [r'|]; [|done]. cbn [mbind option_bind]. case_if_as E; [|done].
  intros [= <-]. apply lookup_lt_is_Some_2. by apply Nat.ltb_lt.
Qed.

Lemma ram_law n x d x' d' : ram_move n x d = Some (x', d') -> dev_spec x d x' d'.
Proof.
  destruct n as [|[|[|n]]]; cbn [ram_move].
  - destruct (Z.eqb_spec (dv_last x) (avail_idx d)); [done|]. destruct (queue_notify _); [|done]. cbn [orb negb].
    destruct (avail d !! _) as [h|] eqn:E; [|done]. cbn. intros [= <- <-]. by apply dev_fetch.
  - destruct (dv_busy x) as [|h post] eqn:Eb; [done|]. unfold ram_transfer.
    destruct (chain d h) as [r|] eqn:Ec; intros [= <- <-].
    + destruct (chain_status d h r Ec) as [f Hf]. rewrite Hf. cbn [fmap option_fmap option_map default].
      apply (dev_transfer x d h [] post r f 0); try done. left. split; [done|].
      unfold carried_out. by destruct (rq_write r).
    + apply (dev_undefined _ _ h); [rewrite Eb; left|done].
  - destruct (dv_done x) as [|h post] eqn:Ed; [done|]. intros [= <- <-]. by apply (dev_report x d h []).
  - destruct (Z.eqb_spec (dv_last x) (avail_idx d)); [|done]. intros [= <- <-]. by apply dev_rest.
Qed.

#[global] Instance ram_laws : BlkDeviceLaws dview := { dev_view := id; dev_law := ram_law }.

#[global] Instance ram_live : BlkDeviceLive dview.
Proof.
  split. intros x d Ha Hl Hq. cbn in *. unfold id in *. unfold dev_load in Hl |- *.
  destruct (dv_busy x) as [|h post] eqn:Eb.
  - destruct (dv_done x) as [|h post] eqn:Ed.
    + cbn [length] in Hl. exists O. cbn [ram_move].
      assert (dv_last x <> avail_idx d) as Hne by (intros E; rewrite E, Z.sub_diag in Hl; change (u16 0) with 0 in Hl; lia).
      rewrite (Hq Hne). apply Z.eqb_neq in Hne. rewrite Hne. cbn [orb negb]. destruct (lookup_lt_is_Some_2 (avail d) (ring_slot (dv_last x))) as [h ->]; [rewrite Ha; apply slot_lt|].
      cbn. eexists _, _. split; [done|]. cbn [dv_last dv_busy dv_done]. rewrite Eb, Ed, u16_pop by lia. cbn [length app]. lia.
    + exists 2%nat. cbn [ram_move]. rewrite Ed. eexists _, _. split; [done|].
      cbn [dv_last dv_busy dv_done avail_idx raise_irq set_wires set_dev_idx set_used]. rewrite Eb. cbn [length]. lia.
  - exists 1%nat. cbn [ram_move]. rewrite Eb. unfold ram_transfer.
    destruct (chain d h); eexists _, _; (split; [done|]); cbn [dv_last dv_busy dv_done avail_idx set_bufs set_info];
      rewrite ?length_app; cbn [length]; lia.
Qed.

(** ** A run: block 3 is read into the buffer 3 *)

Definition ex_view : dview :=
  {| dv_last := 0; dv_busy := []; dv_done := []; dv_store := fun x => replicate 512 (x mod 256) |}.
Definition ex_init : machine dview :=
  {| drv := init_disk (fun b => {| b_blockno := Z.of_nat b; b_disk := 0; b_data := replicate 1024 0 |});
     dev := ex_view |}.

Fixpoint run (es : list event) : M (machine dview) unit :=
  match es with
  | [] => ret tt
  | e :: es => step e ;; run es
  end.

Definition runs (es : list event) : bool := match run es ex_init with Ok _ _ => true | Stop _ => false end.
Definition final (es : list event) : machine dview := match run es ex_init with Ok _ s => s | Stop _ => ex_init end.

Lemma ex_init_reachable : reachable ex_init.
Proof. apply reach_init. by split_and!. Qed.

Lemma run_disk_reachable es s s' : reachable s -> run es s = Ok tt s' -> reachable s'.
Proof.
  revert s. induction es as [|e es IH]; intros s Hs; cbn; [by intros [= <-]|].
  destruct (step e s) as [[] s1|] eqn:E; [|by rewrite (bind_stop _ _ _ _ E)].
  rewrite (bind_ok _ _ _ _ _ E). apply IH. by eapply reach_step.
Qed.

Lemma final_disk_reachable es : reachable (final es).
Proof.
  unfold final. destruct (run es ex_init) as [[] s|] eqn:E; [|apply ex_init_reachable].
  by apply (run_disk_reachable es ex_init); [apply ex_init_reachable|].
Qed.

Lemma run_snoc es e s : run (es ++ [e]) s = bind (run es) (fun _ => step e) s.
Proof.
  revert s. induction es as [|e' es IH]; intros s; cbn.
  - unfold bind, ret. by destruct (step e s) as [[] ?|].
  - unfold bind in *. destruct (step e' s); [apply IH|done].
Qed.

Lemma final_step es e : runs (es ++ [e]) = true -> step e (final es) = Ok tt (final (es ++ [e])).
Proof.
  unfold runs, final. rewrite run_snoc. unfold bind. destruct (run es ex_init) as [[] s|]; [|done].
  by destruct (step e s) as [[] s'|].
Qed.

Definition ex_asked : list event := [ECall 3 false; EAlloc 3; EPublish 3; EDevice 0].

Lemma virtio_refines_witness : astep (spec (final ex_asked)) (spec (final (ex_asked ++ [EDevice 1]))).
Proof.
  apply (virtio_refines (final ex_asked) (EDevice 1)); [apply final_disk_reachable|].
  apply final_step. vm_compute. reflexivity.
Defined.

Lemma virtio_safe_witness : b_disk (bufs (drv (final ex_asked)) 3) = 1.
Proof.
  destruct (virtio_safe (final ex_asked) (final_disk_reachable ex_asked)) as (_ & _ & _ & Hs & _).
  apply (Hs 3%nat false 0%nat 1%nat 2%nat). vm_compute. reflexivity.
Defined.

Lemma calls_finish_witness :
  exists s', goes_on (final ex_asked) s' /\ (has_failed s' \/ places (drv s') = ∅).
Proof. exact (calls_finish (final ex_asked) (final_disk_reachable ex_asked)). Defined.

(** At the end of the run the buffer holds the block. *)
Lemma read_block_3 :
  let s := final (ex_asked ++ [EDevice 1; EDevice 2; EIntr; EIntrLoop; EIntrLoop; EResume 3]) in
  places (drv s) = ∅ /\ b_data (bufs (drv s) 3) = replicate 512 6 ++ replicate 512 7.
Proof. vm_compute. done. Qed.

End VirtioLive.
