(* ===== verification/VirtioInit.v ===== *)
(** * The disk driver: bringing the device up

    [virtio_disk_init] over the registers of the device and the page
    allocator.  The registers are the interface [Mmio]. *)

From S2P Require Import Prelude Layout Kalloc Virtio VirtioSpec.

Module VirtioInit.
Import Kalloc Virtio VirtioSpec.

Definition VIRTIO_MMIO_MAGIC_VALUE : Z := 0x000.
Definition VIRTIO_MMIO_VERSION : Z := 0x004.
Definition VIRTIO_MMIO_DEVICE_ID : Z := 0x008.
Definition VIRTIO_MMIO_VENDOR_ID : Z := 0x00c.
Definition VIRTIO_MMIO_DEVICE_FEATURES : Z := 0x010.
Definition VIRTIO_MMIO_DRIVER_FEATURES : Z := 0x020.
Definition VIRTIO_MMIO_QUEUE_SEL : Z := 0x030.
Definition VIRTIO_MMIO_QUEUE_NUM_MAX : Z := 0x034.
Definition VIRTIO_MMIO_QUEUE_NUM : Z := 0x038.
Definition VIRTIO_MMIO_QUEUE_READY : Z := 0x044.
Definition VIRTIO_MMIO_STATUS : Z := 0x070.
Definition VIRTIO_MMIO_QUEUE_DESC_LOW : Z := 0x080.
Definition VIRTIO_MMIO_QUEUE_DESC_HIGH : Z := 0x084.
Definition VIRTIO_MMIO_DRIVER_DESC_LOW : Z := 0x090.
Definition VIRTIO_MMIO_DRIVER_DESC_HIGH : Z := 0x094.
Definition VIRTIO_MMIO_DEVICE_DESC_LOW : Z := 0x0a0.
Definition VIRTIO_MMIO_DEVICE_DESC_HIGH : Z := 0x0a4.

Definition VIRTIO_CONFIG_S_ACKNOWLEDGE : Z := 1.
Definition VIRTIO_CONFIG_S_DRIVER : Z := 2.
Definition VIRTIO_CONFIG_S_DRIVER_OK : Z := 4.
Definition VIRTIO_CONFIG_S_FEATURES_OK : Z := 8.

(** VIRTIO_BLK_F_RO, SCSI, CONFIG_WCE and MQ, VIRTIO_F_ANY_LAYOUT,
    VIRTIO_RING_F_EVENT_IDX and VIRTIO_RING_F_INDIRECT_DESC *)
Definition declined : list Z := [5; 7; 11; 12; 27; 29; 28].

(** The 32-bit registers of the device. *)
Class Mmio (R : Type) : Type := {
  reg_read : Z -> R -> Z * R;
  reg_write : Z -> Z -> R -> R;
}.

Record boot (R : Type) : Type := { regs : R; kmem_of : kmem }.
Arguments regs {R}.
Arguments kmem_of {R}.

Section Init.
Context {R : Type} `{Mmio R}.

Definition rd (r : Z) : M (boot R) Z := fun s =>
  let '(v, x) := reg_read r (regs s) in Ok v {| regs := x; kmem_of := kmem_of s |}.
Definition wr (r v : Z) : M (boot R) unit :=
  modify (fun s => {| regs := reg_write r (u32 v) (regs s); kmem_of := kmem_of s |}).
Definition page : M (boot R) Z := lift kmem_of (fun k s => {| regs := regs s; kmem_of := k |}) kalloc.

(** [||] stops at the first register that differs. *)
Definition differs (r v : Z) (k : M (boot R) bool) : M (boot R) bool :=
  x <- rd r ;;
  if negb (x =? v) then ret true else k.
Definition not_a_disk : M (boot R) bool :=
  differs VIRTIO_MMIO_MAGIC_VALUE 0x74726976 (
  differs VIRTIO_MMIO_VERSION 2 (
  differs VIRTIO_MMIO_DEVICE_ID 2 (
  differs VIRTIO_MMIO_VENDOR_ID 0x554d4551 (ret false)))).

(** [features &= ~(1 << i)], for each of the features the driver declines. *)
Definition accepted (features : Z) : Z :=
  fold_left (fun f i => Z.ldiff f (Z.shiftl 1 i)) declined features.

(** Negotiation: the status bits one after the other, and the features. *)
Definition negotiate : M (boot R) Z :=
  let status := 0 in
  wr VIRTIO_MMIO_STATUS status ;;
  let status := Z.lor status VIRTIO_CONFIG_S_ACKNOWLEDGE in
  wr VIRTIO_MMIO_STATUS status ;;
  let status := Z.lor status VIRTIO_CONFIG_S_DRIVER in
  wr VIRTIO_MMIO_STATUS status ;;
  features <- rd VIRTIO_MMIO_DEVICE_FEATURES ;;
  wr VIRTIO_MMIO_DRIVER_FEATURES (accepted features) ;;
  let status := Z.lor status VIRTIO_CONFIG_S_FEATURES_OK in
  wr VIRTIO_MMIO_STATUS status ;;
  rd VIRTIO_MMIO_STATUS.

(** The three pages of queue 0; a page that was not found is 0. *)
Definition queue_pages : M (boot R) (Z * Z * Z) :=
  desc <- page ;;
  avail <- page ;;
  used <- page ;;
  if (desc =? 0) || (avail =? 0) || (used =? 0) then panic "virtio disk kalloc"
  else
    wr VIRTIO_MMIO_QUEUE_NUM (Z.of_nat NUM) ;;
    wr VIRTIO_MMIO_QUEUE_DESC_LOW desc ;;
    wr VIRTIO_MMIO_QUEUE_DESC_HIGH (Z.shiftr desc 32) ;;
    wr VIRTIO_MMIO_DRIVER_DESC_LOW avail ;;
    wr VIRTIO_MMIO_DRIVER_DESC_HIGH (Z.shiftr avail 32) ;;
    wr VIRTIO_MMIO_DEVICE_DESC_LOW used ;;
    wr VIRTIO_MMIO_DEVICE_DESC_HIGH (Z.shiftr used 32) ;;
    ret (desc, avail, used).

(** The result is [disk], whose pages are zero and whose descriptors are
    free, with the addresses of the pages. *)
Definition virtio_disk_init (bs : nat -> vbuf) : M (boot R) (disk * (Z * Z * Z)) :=
  no <- not_a_disk ;;
  if no : bool then panic "could not find virtio disk"
  else
    status <- negotiate ;;
    if Z.land status VIRTIO_CONFIG_S_FEATURES_OK =? 0 then panic "virtio disk FEATURES_OK unset"
    else
      wr VIRTIO_MMIO_QUEUE_SEL 0 ;;
      ready <- rd VIRTIO_MMIO_QUEUE_READY ;;
      if negb (ready =? 0) then panic "virtio disk should not be ready"
      else
        max <- rd VIRTIO_MMIO_QUEUE_NUM_MAX ;;
        if max =? 0 then panic "virtio disk has no queue 0"
        else if max <? Z.of_nat NUM then panic "virtio disk max queue too short"
        else
          pages <- queue_pages ;;
          wr VIRTIO_MMIO_QUEUE_READY 1 ;;
          wr VIRTIO_MMIO_STATUS (Z.lor status VIRTIO_CONFIG_S_DRIVER_OK) ;;
          ret (init_disk bs, pages).
End Init.

(** ** A device that accepts the driver *)

(** Its registers hold what was last written to them, and reading one changes
    nothing. *)
Class MmioLaws (R : Type) `{Mmio R} : Type := {
  reg : R -> Z -> Z;
  reg_read_ok : forall r x, reg_read r x = (reg x r, x);
  reg_write_ok : forall r v x r', reg (reg_write r v x) r' = if r' =? r then v else reg x r';
}.

Section Up.
Context {R : Type} `{MmioLaws R}.
Implicit Types (s : boot R).

(** The registers of [s'] are those of [s] with the writes [ws], the last one
    first. *)
Fixpoint after (ws : list (Z * Z)) (f : Z -> Z) (r : Z) : Z :=
  match ws with
  | [] => f r
  | (r', v) :: ws => if r =? r' then v else after ws f r
  end.
Definition wrote (ws : list (Z * Z)) (s s' : boot R) : Prop := forall r, reg (regs s') r = after ws (reg (regs s)) r.

Lemma wp_rd r Q s : Q (reg (regs s) r) s -> wp (rd r) Q s.
Proof. unfold wp, rd. rewrite reg_read_ok. by destruct s. Qed.

Lemma wp_wr r v ws s0 s (Q : unit -> boot R -> Prop) :
  wrote ws s0 s ->
  (forall s', wrote ((r, u32 v) :: ws) s0 s' -> kmem_of s' = kmem_of s -> Q tt s') -> wp (wr r v) Q s.
Proof.
  intros Hw HQ. apply wp_modify. apply HQ; [|done]. intros r'. cbn [regs after]. rewrite reg_write_ok.
  by destruct (r' =? r).
Qed.

Lemma wp_page kend p l s ws s0 (Q : Z -> boot R -> Prop) :
  0 < kend -> wrote ws s0 s -> klist kend (kmem_of s) (p :: l) ->
  (forall s', wrote ws s0 s' -> klist kend (kmem_of s') l -> Q p s') -> wp page Q s.
Proof.
  intros Hk Hw Hl HQ. apply wp_lift. eapply wp_mono; [by apply (kalloc_cons kend)|].
  intros r k [-> Hl']. by apply HQ.
Qed.

(** What a virtio disk says of itself. *)
Definition is_disk (f : Z -> Z) : bool :=
  (f VIRTIO_MMIO_MAGIC_VALUE =? 0x74726976) && (f VIRTIO_MMIO_VERSION =? 2) &&
  (f VIRTIO_MMIO_DEVICE_ID =? 2) && (f VIRTIO_MMIO_VENDOR_ID =? 0x554d4551).

Lemma not_a_disk_run s : not_a_disk s = Ok (negb (is_disk (reg (regs s)))) s.
Proof.
  assert (forall r v k, differs r v k s = if negb (reg (regs s) r =? v) then Ok true s else k s) as E.
  { intros r v k. unfold differs, bind, rd. rewrite reg_read_ok. destruct s. by case_if. }
  unfold not_a_disk, is_disk. rewrite !E. by repeat destruct (_ =? _).
Qed.

Lemma accepted_declined f i : i ∈ declined -> Z.testbit (accepted f) i = false.
Proof.
  intros Hi. unfold accepted, declined in *. cbn [fold_left].
  rewrite !Z.ldiff_spec, !Z.shiftl_spec by (repeat (apply elem_of_cons in Hi as [->|Hi]; [lia|]); by apply not_elem_of_nil in Hi).
  repeat (apply elem_of_cons in Hi as [->|Hi]; [cbn; by rewrite ?andb_false_r|]). by apply not_elem_of_nil in Hi.
Qed.

Lemma wp_negotiate s (Q : Z -> boot R -> Prop) :
  (forall s' ws, wrote ((VIRTIO_MMIO_STATUS, 11) :: (VIRTIO_MMIO_DRIVER_FEATURES,
      u32 (accepted (reg (regs s) VIRTIO_MMIO_DEVICE_FEATURES))) :: ws) s s' ->
    (forall r, r ∉ [VIRTIO_MMIO_STATUS] -> after ws (reg (regs s)) r = reg (regs s) r) ->
    kmem_of s' = kmem_of s -> Q 11 s') -> wp negotiate Q s.
Proof.
  intros HQ. unfold negotiate.
  apply wp_bind, (wp_wr _ _ [] s); [done|]. intros s1 H1 E1.
  apply wp_bind, (wp_wr _ _ _ s _ _ H1). intros s2 H2 E2.
  apply wp_bind, (wp_wr _ _ _ s _ _ H2). intros s3 H3 E3.
  apply wp_bind, wp_rd. rewrite (H3 VIRTIO_MMIO_DEVICE_FEATURES). cbn [after Z.eqb].
  apply wp_bind, (wp_wr _ _ _ s _ _ H3). intros s4 H4 E4.
  apply wp_bind, (wp_wr _ _ _ s _ _ H4). intros s5 H5 E5.
  apply wp_rd. rewrite (H5 VIRTIO_MMIO_STATUS). eapply HQ; [exact H5| |congruence].
  intros r Hr. rewrite list_elem_of_singleton in Hr. cbn [after]. apply Z.eqb_neq in Hr. by rewrite Hr.
Qed.

Lemma wp_queue_pages kend p1 p2 p3 l s ws s0 (Q : Z * Z * Z -> boot R -> Prop) :
  0 < kend -> wrote ws s0 s -> klist kend (kmem_of s) (p1 :: p2 :: p3 :: l) ->
  (forall s', wrote ((VIRTIO_MMIO_DEVICE_DESC_HIGH, u32 (Z.shiftr p3 32)) :: (VIRTIO_MMIO_DEVICE_DESC_LOW, u32 p3) ::
      (VIRTIO_MMIO_DRIVER_DESC_HIGH, u32 (Z.shiftr p2 32)) :: (VIRTIO_MMIO_DRIVER_DESC_LOW, u32 p2) ::
      (VIRTIO_MMIO_QUEUE_DESC_HIGH, u32 (Z.shiftr p1 32)) :: (VIRTIO_MMIO_QUEUE_DESC_LOW, u32 p1) ::
      (VIRTIO_MMIO_QUEUE_NUM, 8) :: ws) s0 s' -> klist kend (kmem_of s') l -> Q (p1, p2, p3) s') ->
  wp queue_pages Q s.
Proof.
  intros Hk Hw Hl HQ. unfold queue_pages. pose proof (kl_ok _ _ _ Hl) as Hok.
  rewrite !Forall_cons in Hok. destruct Hok as ([_ Hp1] & [_ Hp2] & [_ Hp3] & _).
  apply wp_bind, (wp_page kend p1 (p2 :: p3 :: l) s ws s0 _ Hk Hw Hl). intros s1 W1 L1.
  apply wp_bind, (wp_page kend p2 (p3 :: l) s1 ws s0 _ Hk W1 L1). intros s2 W2 L2.
  apply wp_bind, (wp_page kend p3 l s2 ws s0 _ Hk W2 L2). intros s3 W3 L3.
  repeat (case_if_as E; [lia|]).
  destruct (Z.eqb_spec p1 0); [lia|]. destruct (Z.eqb_spec p2 0); [lia|]. destruct (Z.eqb_spec p3 0); [lia|].
  cbn [orb].
  apply wp_bind, (wp_wr _ _ _ s0 _ _ W3). intros s4 W4 E4. apply wp_bind, (wp_wr _ _ _ s0 _ _ W4). intros s5 W5 E5.
  apply wp_bind, (wp_wr _ _ _ s0 _ _ W5). intros s6 W6 E6. apply wp_bind, (wp_wr _ _ _ s0 _ _ W6). intros s7 W7 E7.
  apply wp_bind, (wp_wr _ _ _ s0 _ _ W7). intros s8 W8 E8. apply wp_bind, (wp_wr _ _ _ s0 _ _ W8). intros s9 W9 E9.
  apply wp_bind, (wp_wr _ _ _ s0 _ _ W9). intros s10 W10 E10.
  apply wp_ret, HQ; [exact W10|]. by rewrite E10, E9, E8, E7, E6, E5, E4.
Qed.

(** With a disk that is ready for the driver and three free pages, the driver
    comes up: the device has accepted the features the driver did not decline
    and knows where the three pages are, and every descriptor is free. *)
Theorem virtio_disk_init_up kend s p1 p2 p3 l bs :
  0 < kend -> klist kend (kmem_of s) (p1 :: p2 :: p3 :: l) -> is_disk (reg (regs s)) = true ->
  reg (regs s) VIRTIO_MMIO_QUEUE_READY = 0 -> Z.of_nat NUM <= reg (regs s) VIRTIO_MMIO_QUEUE_NUM_MAX ->
  wp (virtio_disk_init bs) (fun r s' => r = (init_disk bs, (p1, p2, p3)) /\ klist kend (kmem_of s') l /\
    reg (regs s') VIRTIO_MMIO_STATUS = 15 /\ reg (regs s') VIRTIO_MMIO_QUEUE_READY = 1 /\
    reg (regs s') VIRTIO_MMIO_QUEUE_NUM = 8 /\
    reg (regs s') VIRTIO_MMIO_DRIVER_FEATURES = u32 (accepted (reg (regs s) VIRTIO_MMIO_DEVICE_FEATURES)) /\
    reg (regs s') VIRTIO_MMIO_QUEUE_DESC_LOW = u32 p1 /\ reg (regs s') VIRTIO_MMIO_QUEUE_DESC_HIGH = u32 (Z.shiftr p1 32) /\
    reg (regs s') VIRTIO_MMIO_DRIVER_DESC_LOW = u32 p2 /\ reg (regs s') VIRTIO_MMIO_DRIVER_DESC_HIGH = u32 (Z.shiftr p2 32) /\
    reg (regs s') VIRTIO_MMIO_DEVICE_DESC_LOW = u32 p3 /\ reg (regs s') VIRTIO_MMIO_DEVICE_DESC_HIGH = u32 (Z.shiftr p3 32)) s.
Proof.
  intros Hk Hl Hd Hr Hm. unfold virtio_disk_init. apply wp_bind. eapply wp_run; [apply not_a_disk_run|].
  rewrite Hd. apply wp_bind, wp_negotiate. intros s1 ws W1 Hws E1.
  change (Z.land 11 VIRTIO_CONFIG_S_FEATURES_OK =? 0) with false.
  apply wp_bind, (wp_wr _ _ _ s _ _ W1). intros s2 W2 E2.
  assert (reg (regs s2) VIRTIO_MMIO_QUEUE_READY = 0) as Er.
  { rewrite <- Hr, (W2 VIRTIO_MMIO_QUEUE_READY). apply Hws. by rewrite list_elem_of_singleton. }
  assert (reg (regs s2) VIRTIO_MMIO_QUEUE_NUM_MAX = reg (regs s) VIRTIO_MMIO_QUEUE_NUM_MAX) as Em.
  { rewrite (W2 VIRTIO_MMIO_QUEUE_NUM_MAX). apply Hws. by rewrite list_elem_of_singleton. }
  apply wp_bind, wp_rd. rewrite Er. cbn [Z.eqb negb]. apply wp_bind, wp_rd. rewrite Em.
  destruct (Z.eqb_spec (reg (regs s) VIRTIO_MMIO_QUEUE_NUM_MAX) 0); [unfold NUM in *; lia|].
  destruct (Z.ltb_spec (reg (regs s) VIRTIO_MMIO_QUEUE_NUM_MAX) (Z.of_nat NUM)); [lia|].
  apply wp_bind, (wp_queue_pages kend p1 p2 p3 l s2 _ s _ Hk W2); [by rewrite E2, E1|]. intros s3 W3 L3.
  apply wp_bind, (wp_wr _ _ _ s _ _ W3). intros s4 W4 E4.
  apply wp_bind, (wp_wr _ _ _ s _ _ W4). intros s5 W5 E5.
  apply wp_ret. rewrite E5, E4. split_and!; try done; by rewrite W5.
Qed.

(** Anything else on the bus is refused before it is touched. *)
Theorem virtio_disk_init_refuses s bs :
  is_disk (reg (regs s)) = false -> virtio_disk_init bs s = Stop (SPanic "could not find virtio disk").
Proof.
  intros Hd. unfold virtio_disk_init. rewrite (bind_ok _ _ _ _ _ (not_a_disk_run s)). by rewrite Hd.
Qed.
End Up.

End VirtioInit.
